(* ===== verification/_CoqProject ===== *)
-Q . S2P
Prelude.v
Externals.v
Utils.v
TrackedUtxo.v
Fermat.v
Unicorn.v
Interfaces.v
Comms.v
Connections.v
ActiveRaft.v
RaftUtil.v
BlockPipeline.v
ComputeConsensused.v
Requests.v
ComputeRaft.v
DbUtils.v
Compute.v
ComputeMining.v
ComputePool.v
RaftStore.v
RaftLoop.v
FundStore.v
Wallet.v
WalletFrame.v
Miner.v
MinerWallet.v
MinerRounds.v
TransactionGen.v
User.v
UserPayments.v
UserExchange.v
StorageFetch.v
StorageRaft.v
BlockStore.v
Storage.v
PreLaunch.v
FrozenLastVersion.v
Upgrade.v
Api.v
ApiNode.v
ApiStorage.v
ApiWallet.v
ApiPayments.v
ApiCompute.v
