(* ===== verification/Prelude.v ===== *)
(** * ZNP: a verification development

    ZNP is a blockchain node program in Rust.  Compute nodes gather transactions
    and run the rounds of mining; miners search a proof of work for the block of
    the round; storage nodes keep the chain; users and miners have wallets.
    Compute nodes agree with each other through raft, and so do storage nodes.
    This library translates the parts of the program that decide what is agreed
    on, what is stored, what is spent and what is sent to whom, and proves what
    makes them correct.  File names below are those under [src/src/].

    ** How the parts work together

    Nodes exchange messages over [Comms]: connections, the handshake that makes
    two addresses peers, gossip, the queue of frames.  A node proposes items to
    its raft group through [RaftUtil] (a key for every proposal, no proposal
    twice) and [ActiveRaft] (the channel to the raft loop, or the bypass when
    there is a single node).  [RaftLoop] drives the raft crate and writes its log
    and snapshots with [RaftStore].  Every node of the group receives the same
    commits.  For a compute node, [ComputeRaft.received_commit] processes a
    commit on the consensused fields ([ComputeConsensused]): transactions enter
    the pool, votes on the block stored last are counted, and a majority of them
    makes the node generate the next block from the pool and the tracked UTXO set
    ([TrackedUtxo]).  The block then goes through the phases of [BlockPipeline]:
    intake of participants, selection of the miners with the UNICORN random value
    ([Unicorn]), intake of proofs of work, and choice of the winner.  [Compute]
    is the node around it: it takes requests ([Requests]) of miners, users and
    peers, validates transactions and proofs of work, proposes them, floods the
    block of the round, and sends the mined block to its storage node.  For the
    storage nodes, [StorageRaft.received_commit] collects the parts the compute
    nodes sent; with a majority of them [Storage.handle_committed_data] writes
    the block to the database ([BlockStore], on [DbUtils]) and reports it to the
    compute node, whose vote on it starts the next round.  A storage node that
    missed blocks applies a snapshot and fetches them from its peers
    ([StorageFetch]).  A wallet ([Wallet]) keeps addresses, keys and the fund
    store ([FundStore]) in a database of the same kind and selects the outputs
    that a payment spends.  [Miner] is the node that receives the random number
    and the block of a round, searches the proofs of work for them, and credits
    the coinbase to its wallet once the block it won is replaced by the next.
    [User] is the node of a wallet: payments, donations, receipts, the exchange
    of receipts for tokens between two users, and the transactions that a test
    network generates by itself ([TransactionGen]).  Clients reach a node over its
    HTTP interface: a request is authorised, looked up in the cache of replies and
    handed to a handler ([Api]), which reads the database ([ApiStorage]), uses the
    wallet or puts a request into the event queue of the node ([ApiWallet],
    [ApiPayments]), or runs a call on its thread ([ApiCompute]).  Before a group
    starts from saved databases, [PreLaunch] spreads the raft database of its
    first node; before a new version starts, [Upgrade] converts the databases of
    the last one ([FrozenLastVersion]).

    ** The files

    - [Prelude]: panics as values ([outcome]), loops over them, record update,
      64-bit integers, ordered maps and sets as [gmap]/[gset] with an ordered
      iteration, and the lemmas shared by the other files.
    - [Externals]: socket addresses, the data types of the naom crate, and type
      classes for the third-party functions the modelled code calls, with their
      laws and concrete instances for the witnesses.
    - [Utils]: [utils.rs], [constants.rs]: rewards, proof of work checks, periodic
      checks, iterators over outputs, strings.
    - [TrackedUtxo]: [tracked_utxo.rs]: the UTXO set with the cache of the
      outpoints of each key.
    - [Fermat]: Fermat's little theorem and its consequence for squares, on
      MathComp; used by [Unicorn] only.
    - [Unicorn]: [unicorn.rs]: seed, evaluation, verification.
    - [Interfaces], [Requests]: [interfaces.rs]: blocks, stored items, responses;
      the request enums of all nodes.
    - [Comms]: [comms_handler/node.rs], with the errors and the name checks of
      [comms_handler].
    - [Connections]: the loops of [utils.rs] that keep a running node connected,
      and that cut its connections or stop it when a file asks for it.
    - [ActiveRaft], [RaftUtil]: [active_raft.rs], [raft_util.rs].
    - [RaftStore], [RaftLoop]: [raft_store.rs], [raft.rs].
    - [BlockPipeline]: [block_pipeline.rs].
    - [ComputeConsensused], [ComputeRaft]: the two structs of [compute_raft.rs].
    - [DbUtils]: [db_utils.rs], in-memory variant.
    - [Compute]: the [ComputeNode] of [compute.rs], definitions only; its
      theorems are in [ComputeMining] (rounds and blocks) and [ComputePool]
      (local transactions, druids, start).
    - [FundStore], [Wallet]: [wallet/fund_store.rs], [wallet/mod.rs];
      [WalletFrame]: what the operations of the wallet leave unchanged in its
      database, for the nodes that keep records of their own there.
    - [Miner]: the [MinerNode] of [miner.rs], definitions only; its theorems are
      in [MinerWallet] (coinbases and the wallet) and [MinerRounds] (rounds, proofs
      of work and restarts).
    - [TransactionGen]: [transaction_gen.rs], and the functions of [utils.rs] that
      build its transactions.
    - [User]: the [UserNode] of [user.rs], definitions only; its theorems are in
      [UserPayments] (payments and generated transactions) and [UserExchange] (two
      users and the druid pool of the compute node).
    - [StorageFetch]: [storage_fetch.rs], and the keys of [storage.rs].
    - [StorageRaft]: [storage_raft.rs].
    - [BlockStore]: the database functions of [storage.rs].
    - [Storage]: the [StorageNode] of [storage.rs].
    - [PreLaunch]: [pre_launch.rs].
    - [FrozenLastVersion], [Upgrade]: [upgrade/frozen_last_version.rs],
      [upgrade/mod.rs].
    - [Api]: [api/responses.rs], [api/errors.rs], [api/utils.rs],
      [threaded_call.rs], and the run of a request over the routes of a node.
    - [ApiNode], [ApiStorage], [ApiWallet], [ApiCompute]: the handlers and routes
      of [api/handlers.rs] and [api/routes.rs] that every node has, of storage
      nodes, of users and miners, and of compute nodes; [ApiPayments]: the calls
      to a user node together with the node ([User]), and the concrete runs of
      the theorems on wallets.

    ** Conventions

    A method on [&mut self] takes the record and returns it; fields and functions
    keep their names, with a prefix ([cr_], [cc_], [sr_], [fr_], [pipeline_])
    where two structs have a method of the same name that one file uses.  A
    function that may panic ([unwrap], indexing, [panic!], division by zero)
    returns an [outcome].  Unsigned integers are [Z], with the wrap-around of the
    release profile written out ([wrap64], [mod 2^32]).  Strings are Rocq strings,
    byte vectors lists of [Z].  [BTreeMap] and [HashMap] are [gmap]; [bt_iter]
    yields the entries of a [BTreeMap] in the order of the keys.  Channels are the
    list of what was sent and not yet received.  [async] functions are the plain
    functions they compute; where tasks share state (the peers of [Comms], the
    raft loop) the interleaving is a step relation.  A [select!] is a function of
    the branch taken.  What is drawn at random is an argument.  Logging is left
    out.

    Third-party code is a parameter: [Naom] (hashes, token arithmetic, inputs and
    outputs of transactions), [NaomAssets], [NaomScripts], [NaomReceipts],
    [NaomCoinbase], [NaomSigning], [NaomExchange], the cryptography of the wallet, [Rug], [KeccakPrime], [Hex], [Bincode],
    [SerdeJson], the raft crate's storage and node, [CommsCrates], [Warp] and
    [WarpJson] (the match of a path, the check of origins, the JSON of a body).
    Theorems
    that need documented behaviour of it take a [*Laws] class; the witnesses
    instantiate both with [TestExternals] or with the instances of the examples
    modules.

    ** What the theorems show

    - Agreement: compute nodes with the same consensused state that process the
      same commit stay in agreement ([received_commit_replicated]); the one
      operation that writes the state from local observations breaks it
      ([flush_stale_diverges]).  A snapshot carries the state over
      ([snapshot_roundtrip]).  Votes are counted exactly ([block_votes_exact]),
      and a next block needs a majority of them ([commit_block_majority],
      [apply_ready_spec]).
    - Blocks: no double spend ([generate_block_no_double_spend]), no loss from the
      pool ([generate_block_keeps_pool]), the check of new transactions equals its
      reference ([find_invalid_greedy]), local transactions are proposed, as many
      as the bounds allow ([propose_transactions_bounded]).
    - Mining rounds: phase changes need votes ([phase_change_quorum],
      [handle_phase_change]), the winner had been selected
      ([reach_winner_selected]), selection and handling never panic
      ([unicorn_select_spec], [handle_total]).
    - Compute node: a proof of work is proposed exactly when it is for the block of
      the round, from a selected miner, with the reward and a valid header, and was
      not proposed before ([receive_pow_spec]); whatever happens to the node, the block it sends to
      storage passes the check made there ([mined_block_valid]); a reset vote
      that comes after the winner stops the node ([late_reset_panics], a defect,
      as is [empty_coinbase_panics]).  Only whole druid exchanges leave the pool
      ([receive_druid_whole], and [overfull_druid_stuck]); local transactions
      survive a restart ([local_txs_survive_restart]).
    - UTXO cache: balances ([balance_correct]), soundness of every reachable cache
      ([reachable_sound], [extend_exact]), and the exact condition under which
      removal keeps the cache complete ([remove_exact_iff]).
    - UNICORN: when verification accepts the evaluated witness ([verify_eval]),
      and the range of the security check ([security_bound_range]).
    - Proposals: unique keys, delivery, deduplication and its clean-up
      ([proposal_keys_unique], [propose_commit_roundtrip], [dedup_refuses],
      [ignore_forgets_relevant]); a new run at each start ([restart_fresh_run]);
      the connection plan ([connection_plan]).
    - Raft log: a restart finds the log, the snapshot and the hard state that
      were written ([restart_restores_log]); every event of the loop writes what the
      crate has ready and sends and hands over the rest of it
      ([loop_event_restart], [process_ready_persists]).
    - Communication: the shape of the peer list in every reachable state
      ([reach_peers_ok]), the handshake connects both sides
      ([handshake_connects]), gossip stops ([gossip_terminates]); two races that
      lose a connection ([late_response_dead], [stale_task_removes_peer]).  The
      connection loop connects a node to all its peers ([loop_connects_all]) and
      announces only what is a reconnection ([announced_after_connected]); a node
      that is cut stays cut ([disconnect_file_isolates]), a shutdown is asked for
      once ([shutdown_asked_once]); defect: [timed_out_peer_stuck].
    - Storage: a committed block is the majority's, in sequence
      ([complete_block_majority], [commit_in_sequence]), is stored
      ([commit_stores_block]) and read back under every name
      ([store_complete_block_readable], [store_fetched_readable],
      [pointer_roundtrip], [batch_sequential]); the catch-up only hands over whole
      blocks in order ([fetched_chains_wf]) and completes
      ([catch_up_complete], [fetched_block_stored]); the shutdown is coordinated
      ([closing_exit]).
    - Wallet: its database stays well formed ([wallet_reachable_sound]), a payment
      conserves the assets ([payment_conserves]), the selection of inputs is exact
      ([fetch_inputs_exact]), cleaning up keeps funds ([cleanup_keeps_funds]);
      defects: [respent_output_panics], [reserved_address_loses_funds].
    - Miner: a proof of work that it sends is one the compute node accepts
      ([sent_pow_accepted], which runs both nodes); the coinbase of the proof of
      work that it sent last is kept, also by a restart between two events, until
      it has won ([coinbase_survives_restart]), and is credited by exactly its
      value ([commit_credits]); two things any peer can do to it
      ([foreign_round_unlocks], [early_messages_panic]).
    - Generated transactions: none is made of an output twice and the value of what
      the generator holds is kept ([make_all_conserves]), also by a restart
      ([generator_roundtrip]); a round always ends ([generation_total]).
    - User: a payment moves exactly the amount ([payment_round]); the two
      transactions of an exchange are taken by the compute node and proposed
      together, and each pays what the other expects ([exchange_accepted], which
      runs the messages of both users and of the compute node); defects:
      [unsent_payment_panics], [exchange_messages_panic].
    - Restarts and versions: the nodes that a pre-launch run closes have the log
      of the first one ([launch_spreads_log]); a node stops exactly when all have
      closed ([launch_exit_iff]), and in a group of at least two everybody does
      ([launch_ends], which runs the whole group); an upgrade keeps the chain
      ([storage_upgrade_keeps_chain]), the state of a compute node
      ([compute_upgrade_keeps_state]) and the funds of a wallet
      ([wallet_upgrade_keeps_funds]).
    - HTTP interface: what authorises a request ([auth_request_iff]); one that is
      not authorised changes nothing, and which answer it gets
      ([unauthorized_no_effect]); a call with an id
      that was answered changes nothing ([repeated_call_no_effect]), but two calls
      at once both run ([overlapping_calls_both_run]) and a longer path needs no
      authorisation ([longer_path_not_protected]).  A payment that was asked for is
      the payment the node makes, once as long as its answer is in the cache
      ([api_payment_made_once]); transactions
      reach the compute node as they are described
      ([created_transactions_received]); stored blocks are served
      ([stored_block_served]); the wallet is shown as it is
      ([wallet_info_exact]) and its keys move to another one
      ([exported_keys_import], and [imported_name_overwrites_funds]).

    ** Bounds and fuel

    Recursion is structural on the data, but for: [Unicorn.xor_loop], whose fuel
    of two rounds decides termination, since the loop flips one bit back and forth
    ([xor_for_overflow_diverges] is the other case); and the runs of
    [StorageFetch.catch_up], whose number of requests is bounded by the number of
    peers times the number of items ([catch_up_complete] holds for every larger
    number); the search for a proof of work runs over the list of nonces that are
    drawn; and the loops of generated transactions
    ([TransactionGen.make_from], [User.send_generated]), which get one round more
    than there are outputs to use, which is enough ([make_all_conserves],
    [generation_total]).  The event loop of a pre-launch node runs over the messages
    that arrive, one round for each ([launch_ends]).

    ** Not modelled

    Sockets, framing and TLS sessions ([comms_handler/tcp_tls.rs] but for the
    names of certificates, [comms_handler/stream_cancel.rs]) and the file variant
    of the database: they only drive third-party libraries.  Of the HTTP interface,
    the headers that warp adds to the replies (the check of origins itself is
    part of every route) and the serving of connections.  The
    binaries ([bin]), [key_creation.rs] and [transactor.rs] parse the command line
    and configuration files, start the nodes modelled here and write files; they
    take no decision that the nodes depend on.  Messages to the user interface,
    logging, time measurements, back-ups of files, plain getters, and the functions
    that exist for tests are left out where they occur. *)
From Stdlib Require Export ZArith Lia.
From stdpp Require Export base decidable gmap list strings sorting fin_maps.

(** ** Automation shared by the development *)

Create HintDb znp.
Create Rewrite HintDb znp_rw.

(** Opens existentials and conjunctions in the context. *)
Ltac deex :=
  repeat match goal with
  | H : ∃ x, _ |- _ => let y := fresh x in destruct H as [y H]
  | H : _ ∧ _ |- _ => destruct H
  end.

(** Case analysis on the innermost [match]/[if] of the goal or of [H]. *)
Ltac case_goal := match goal with
  | |- context [match ?x with _ => _ end] =>
      lazymatch x with context [match _ with _ => _ end] => fail | _ => destruct x eqn:? end
  end.
Tactic Notation "case_in" hyp(H) := match type of H with
  | context [match ?x with _ => _ end] =>
      lazymatch x with context [match _ with _ => _ end] => fail | _ => destruct x eqn:? end
  end.

(** ** Outcome of code that may panic

    Rust's [unwrap], [expect], out-of-range indexing and [panic!] stop the
    thread.  A function that can do so returns an [outcome]; a function that
    cannot is a plain Rocq function. *)
Inductive outcome (A : Type) : Type :=
  | Ret (a : A)
  | Panic.
Arguments Ret {A} a.
Arguments Panic {A}.

Definition obind {A B : Type} (m : outcome A) (k : A → outcome B) : outcome B :=
  match m with Ret a => k a | Panic => Panic end.

Definition unwrap {A : Type} (o : option A) : outcome A :=
  match o with Some a => Ret a | None => Panic end.

Declare Scope znp_scope.
Delimit Scope znp_scope with znp.
Notation "'let!' x ':=' e 'in' k" := (obind e (λ x, k))
  (at level 10, x binder, e at level 200, k at level 200) : znp_scope.
Open Scope znp_scope.

Lemma obind_ret {A B : Type} (m : outcome A) (k : A → outcome B) (b : B) :
  obind m k = Ret b ↔ ∃ a, m = Ret a ∧ k a = Ret b.
Proof. destruct m; cbn; naive_solver. Qed.

Lemma unwrap_ret {A : Type} (o : option A) (a : A) : unwrap o = Ret a ↔ o = Some a.
Proof. destruct o; cbn; naive_solver. Qed.

Definition is_ret {A : Type} (m : outcome A) : bool :=
  match m with Ret _ => true | Panic => false end.

(** A [for] loop whose body may panic. *)
Definition ofold {A B : Type} (f : A → B → outcome A) : A → list B → outcome A :=
  fix go a l := match l with [] => Ret a | x :: l => let! a' := f a x in go a' l end.

(** Loop rule: an invariant indexed by the elements already processed. *)
Lemma ofold_ind {A B : Type} (f : A → B → outcome A) (P : list B → A → Prop) (l : list B) (a : A) :
  P [] a →
  (∀ pre x a, x ∈ l → P pre a → ∃ a', f a x = Ret a' ∧ P (pre ++ [x]) a') →
  ∃ a', ofold f a l = Ret a' ∧ P l a'.
Proof.
  intros H0 Hstep.
  assert (Hg : ∀ pre l', (∀ x, x ∈ l' → x ∈ l) → ∀ a, P pre a →
    ∃ a', ofold f a l' = Ret a' ∧ P (pre ++ l') a').
  { intros pre l'; revert pre; induction l' as [|x l' IH]; intros pre Hl' b Hb; cbn.
    - exists b. by rewrite app_nil_r.
    - destruct (Hstep pre x b) as (b' & -> & Hb'); [apply Hl', list_elem_of_here|done|]. cbn.
      replace (pre ++ x :: l') with ((pre ++ [x]) ++ l') by by rewrite <-app_assoc.
      apply IH; [|done]. intros y Hy. by apply Hl', list_elem_of_further. }
  destruct (Hg [] l ltac:(done) a H0) as (a' & ? & ?). eauto.
Qed.

(** ** Computations that keep a property

    [okm P m]: what [m] returns, if it does not panic, satisfies [P]. *)
Definition okm {A : Type} (P : A → Prop) (m : outcome A) : Prop := ∀ a, m = Ret a → P a.
Lemma okm_ret {A : Type} (P : A → Prop) a : P a → okm P (Ret a).
Proof. by intros Ha _ [= <-]. Qed.
Lemma okm_bind {A B : Type} (P : A → Prop) (Q : B → Prop) m k :
  okm P m → (∀ a, P a → okm Q (k a)) → okm Q (obind m k).
Proof. intros Hm Hk b (a & Ha & Hb)%obind_ret. exact (Hk a (Hm a Ha) b Hb). Qed.
Lemma okm_bind_any {A B : Type} (Q : B → Prop) (m : outcome A) k : (∀ a, okm Q (k a)) → okm Q (obind m k).
Proof. intros Hk. apply (okm_bind (λ _, True)); [done|auto]. Qed.
Lemma okm_fst {A B : Type} (P : B → Prop) (m : outcome (A * B)) :
  (∀ a b, m = Ret (a, b) → P b) → okm (λ x, P x.2) m.
Proof. intros Hm [a b] E. by eapply Hm. Qed.

(** ** Functional record update

    [Eta R] lists the fields of a record once; [r <| f := v |>] then replaces
    field [f].  The setter of a projection is found by abstracting the
    projection in the eta expansion. *)
Class Eta (R : Type) := eta : R → R.
Class Setter {R T : Type} (p : R → T) := setter : (T → T) → R → R.

Ltac derive_setter p :=
  let f := fresh "f" in let r := fresh "r" in
  intros f r;
  let e := eval cbv [eta] in (eta r) in
  let e := eval hnf in e in
  lazymatch eval pattern (p r) in e with
  | ?g _ => let res := eval cbv beta in (g (f (p r))) in exact res
  end.
#[export] Hint Extern 0 (Setter ?p) => derive_setter p : typeclass_instances.

Notation "r <| p := v |>" := (setter (p := p) (λ _, v) r)
  (at level 12, left associativity, p at level 9, v at level 200).
Notation "r <| p ::= f |>" := (setter (p := p) f r)
  (at level 12, left associativity, p at level 9, f at level 200).

(** ** Machine integers

    Rust integers are modelled as [Z]; the release profile the repository
    builds with wraps on overflow. *)
Open Scope Z_scope.

Definition U64_MOD : Z := 2 ^ 64.
Definition USIZE_MAX : Z := U64_MOD - 1.
Definition wrap64 (z : Z) : Z := z mod U64_MOD.
Definition is_u64 (z : Z) : Prop := 0 ≤ z < U64_MOD.

Lemma wrap64_id (z : Z) : is_u64 z → wrap64 z = z.
Proof. apply Z.mod_small. Qed.

Lemma wrap64_range (z : Z) : is_u64 (wrap64 z).
Proof. apply Z.mod_pos_bound. reflexivity. Qed.

#[export] Hint Resolve wrap64_range : znp.
#[export] Hint Rewrite wrap64_id using (assumption || (unfold is_u64, U64_MOD in *; lia)) : znp_rw.

(** Length of a slice as a [usize]. *)
Definition zlen {A : Type} (l : list A) : Z := Z.of_nat (length l).
Definition zsize {K A : Type} `{Countable K} (m : gmap K A) : Z := Z.of_nat (size m).
Definition zcard {K : Type} `{Countable K} (s : gset K) : Z := Z.of_nat (size s).

(** ** Ordered keys

    Rust's [BTreeMap] and [BTreeSet] iterate in the order of the keys.  The
    derived [Ord] of the key types used by the program is lexicographic, so
    each key type gives an injective reading as a list of integers. *)
Fixpoint lex_leb (a b : list Z) : bool :=
  match a, b with
  | [], _ => true
  | _ :: _, [] => false
  | x :: a', y :: b' => (x <? y) || ((x =? y) && lex_leb a' b')
  end.

Lemma lex_leb_refl a : lex_leb a a = true.
Proof. induction a; cbn; [done|]. rewrite Z.eqb_refl, IHa. by rewrite orb_true_r. Qed.

Lemma lex_leb_total a b : lex_leb a b = true ∨ lex_leb b a = true.
Proof.
  revert b; induction a as [|x a IH]; intros [|y b]; cbn; auto.
  destruct (IH b) as [H|H]; rewrite H;
    destruct (Z.ltb_spec x y), (Z.ltb_spec y x), (Z.eqb_spec x y), (Z.eqb_spec y x);
    cbn; auto; lia.
Qed.

Lemma lex_leb_trans a b c : lex_leb a b = true → lex_leb b c = true → lex_leb a c = true.
Proof.
  revert b c; induction a as [|x a IH]; intros [|y b] [|z c]; cbn; auto; try done.
  intros H1 H2.
  apply orb_true_iff in H1 as [H1|[H1 H1']%andb_true_iff];
    apply orb_true_iff in H2 as [H2|[H2 H2']%andb_true_iff];
    apply orb_true_iff; rewrite ?andb_true_iff; try (left; lia).
  right. split; [lia|eauto].
Qed.

Lemma lex_leb_antisym a b : lex_leb a b = true → lex_leb b a = true → a = b.
Proof.
  revert b; induction a as [|x a IH]; intros [|y b]; cbn; auto; try done.
  intros H1 H2.
  apply orb_true_iff in H1 as [H1|[H1 H1']%andb_true_iff];
    apply orb_true_iff in H2 as [H2|[H2 H2']%andb_true_iff]; try lia.
  f_equal; [lia|eauto].
Qed.

Class OrdKey (K : Type) `{Countable K} := {
  okey : K → list Z;
  okey_inj :: Inj (=) (=) okey;
}.

Definition key_leb {K : Type} `{OrdKey K} (k1 k2 : K) : bool := lex_leb (okey k1) (okey k2).
Definition entry_le {K V : Type} `{OrdKey K} : relation (K * V) :=
  λ p q, key_leb p.1 q.1 = true.
Definition key_le {K : Type} `{OrdKey K} : relation K := λ p q, key_leb p q = true.

#[export] Instance entry_le_dec {K V : Type} `{OrdKey K} : RelDecision (@entry_le K V _ _ _).
Proof. intros p q. unfold Decision, entry_le. destruct (key_leb p.1 q.1); [by left|by right]. Defined.
#[export] Instance key_le_dec {K : Type} `{OrdKey K} : RelDecision (@key_le K _ _ _).
Proof. intros p q. unfold Decision, key_le. destruct (key_leb p q); [by left|by right]. Defined.
#[export] Instance entry_le_total {K V : Type} `{OrdKey K} : Total (@entry_le K V _ _ _).
Proof. intros p q. apply lex_leb_total. Qed.
#[export] Instance entry_le_trans {K V : Type} `{OrdKey K} : Transitive (@entry_le K V _ _ _).
Proof. intros p q r. apply lex_leb_trans. Qed.
#[export] Instance key_le_total {K : Type} `{OrdKey K} : Total (@key_le K _ _ _).
Proof. intros p q. apply lex_leb_total. Qed.
#[export] Instance key_le_trans {K : Type} `{OrdKey K} : Transitive (@key_le K _ _ _).
Proof. intros p q r. apply lex_leb_trans. Qed.
#[export] Instance key_le_antisym {K : Type} `{OrdKey K} : AntiSymm (=) (@key_le K _ _ _).
Proof. intros p q H1 H2. by apply (inj okey), lex_leb_antisym. Qed.

#[export] Program Instance ordkey_Z : OrdKey Z := {| okey z := [z] |}.

#[export] Program Instance ordkey_bytes : OrdKey (list Z) := {| okey l := l |}.

(** Rust strings compare by their bytes. *)
Fixpoint string_codes (s : string) : list Z :=
  match s with
  | EmptyString => []
  | String c s' => Z.of_N (Ascii.N_of_ascii c) :: string_codes s'
  end.

#[export] Instance string_codes_inj : Inj (=) (=) string_codes.
Proof.
  intros s; induction s as [|c s IH]; intros [|d t]; cbn; try done.
  intros [= Hc Hs]. f_equal; [|by apply IH].
  apply N2Z.inj in Hc. by rewrite <-(Ascii.ascii_N_embedding c), Hc, Ascii.ascii_N_embedding.
Qed.

#[export] Instance ordkey_string : OrdKey string := {| okey := string_codes |}.

(** ** Ordered iteration over maps and sets

    [bt_iter m] is the sequence [BTreeMap::iter] yields, [bt_elems] the one of
    [BTreeSet::iter].  The map itself stays a [gmap], so that its lookup
    lemmas apply. *)
Definition bt_iter {K V : Type} `{OrdKey K} (m : gmap K V) : list (K * V) :=
  merge_sort entry_le (map_to_list m).
Definition bt_keys {K V : Type} `{OrdKey K} (m : gmap K V) : list K := (bt_iter m).*1.
Definition bt_values {K V : Type} `{OrdKey K} (m : gmap K V) : list V := (bt_iter m).*2.
Definition bt_elems {K : Type} `{OrdKey K} (s : gset K) : list K :=
  merge_sort key_le (elements s).

(** [collect] into a map: the last binding of a key wins. *)
Definition map_extend {K V : Type} `{Countable K} (m : gmap K V) (l : list (K * V)) : gmap K V :=
  foldl (λ m kv, <[kv.1 := kv.2]> m) m l.
(** [BTreeMap::append]: the bindings of the argument win. *)
Definition map_append {K V : Type} `{Countable K} (m other : gmap K V) : gmap K V := other ∪ m.

(** [Iterator::max_by_key]: the last of the elements with the greatest key. *)
Definition max_by_key {A : Type} (f : A → nat) (l : list A) : option A :=
  foldl (λ acc x, match acc with
                  | None => Some x
                  | Some y => if (f y <=? f x)%nat then Some x else Some y
                  end) None l.

(** [Iterator::max] with [unwrap_or(0)]. *)
Definition max_or_0 (l : list nat) : nat := foldl Nat.max 0%nat l.

Lemma NoDup_fst_inj {A B : Type} (l : list (A * B)) x y1 y2 :
  NoDup l.*1 → (x, y1) ∈ l → (x, y2) ∈ l → y1 = y2.
Proof.
  induction l as [|[a b] l IH]; cbn; [by rewrite elem_of_nil|].
  rewrite NoDup_cons, !elem_of_cons. intros [Hnin Hnd] H1 H2.
  assert (Hfst : ∀ y, (a, y) ∈ l → a ∈ l.*1) by (intros y Hy; apply list_elem_of_fmap; by exists (a, y)).
  destruct H1 as [E1|H1], H2 as [E2|H2]; simplify_eq; [done|exfalso; eauto|exfalso; eauto|eauto].
Qed.

Lemma NoDup_map_inj {A B : Type} (f : A → B) (l : list A) x y :
  NoDup (map f l) → x ∈ l → y ∈ l → f x = f y → x = y.
Proof.
  induction l as [|a l IH]; cbn; [by rewrite elem_of_nil|].
  rewrite NoDup_cons, !elem_of_cons. intros [Hnin Hnd] Hx Hy E.
  assert (Hin : ∀ z, z ∈ l → f a ≠ f z).
  { intros z Hz E'. apply Hnin. rewrite E'. apply list_elem_of_fmap. by exists z. }
  destruct Hx as [->|Hx], Hy as [->|Hy]; [done|by apply Hin in E|by symmetry in E; apply Hin in E|by apply IH].
Qed.

Lemma map_omap_sublist {A B C : Type} (f : A → option B) (g : B → C) (h : A → C) (l : list A) :
  (∀ a b, f a = Some b → g b = h a) → sublist (map g (omap f l)) (map h l).
Proof.
  intros Hf. induction l as [|a l IH]; cbn; [done|]. destruct (f a) as [b|] eqn:E.
  - cbn. rewrite (Hf a b E). by apply sublist_skip.
  - by apply sublist_cons.
Qed.

Lemma NoDup_map_inj_on {A B : Type} (f : A → B) (l : list A) :
  (∀ x y, x ∈ l → y ∈ l → f x = f y → x = y) → NoDup l → NoDup (map f l).
Proof.
  intros Hf Hl. induction Hl as [|a l Ha Hl IH]; cbn; [constructor|]. constructor.
  - intros (b & E & Hb)%list_elem_of_fmap. apply Hf in E; [by subst|by left|by right].
  - apply IH. intros x y Hx Hy. apply Hf; by right.
Qed.

Section bt_iter.
Context {K V : Type} `{OrdKey K}.
Implicit Types (m : gmap K V) (s : gset K).

Lemma bt_iter_perm m : bt_iter m ≡ₚ map_to_list m.
Proof. apply merge_sort_Permutation. Qed.

Lemma elem_of_bt_iter m k v : (k, v) ∈ bt_iter m ↔ m !! k = Some v.
Proof. by rewrite bt_iter_perm, elem_of_map_to_list. Qed.

Lemma bt_keys_NoDup m : NoDup (bt_keys m).
Proof. unfold bt_keys. rewrite bt_iter_perm. apply NoDup_fst_map_to_list. Qed.

Lemma bt_iter_NoDup m : NoDup (bt_iter m).
Proof. rewrite bt_iter_perm. apply NoDup_map_to_list. Qed.

Lemma elem_of_bt_keys m k : k ∈ bt_keys m ↔ is_Some (m !! k).
Proof.
  unfold bt_keys. rewrite list_elem_of_fmap. split.
  - intros ([k' v] & -> & Hin). apply elem_of_bt_iter in Hin. eauto.
  - intros [v Hv]. exists (k, v). by rewrite elem_of_bt_iter.
Qed.

Lemma elem_of_bt_values m v : v ∈ bt_values m ↔ ∃ k, m !! k = Some v.
Proof.
  unfold bt_values. rewrite list_elem_of_fmap. split.
  - intros ([k' v'] & -> & Hin). apply elem_of_bt_iter in Hin. eauto.
  - intros [k Hk]. exists (k, v). by rewrite elem_of_bt_iter.
Qed.

Lemma length_bt_iter m : length (bt_iter m) = size m.
Proof. by rewrite bt_iter_perm, length_map_to_list. Qed.

Lemma bt_iter_sorted m : StronglySorted entry_le (bt_iter m).
Proof. apply StronglySorted_merge_sort; apply _. Qed.

Lemma bt_iter_empty : bt_iter (∅ : gmap K V) = [].
Proof. apply length_zero_iff_nil. by rewrite length_bt_iter, map_size_empty. Qed.

Lemma bt_iter_nil m : bt_iter m = [] ↔ m = ∅.
Proof.
  split; [|intros ->; apply bt_iter_empty].
  intros Hm. apply map_size_empty_iff. by rewrite <-length_bt_iter, Hm.
Qed.

Lemma list_to_map_bt_iter m : list_to_map (bt_iter m) = m.
Proof.
  rewrite (list_to_map_proper (bt_iter m) (map_to_list m)).
  - apply list_to_map_to_list.
  - apply bt_keys_NoDup.
  - apply bt_iter_perm.
Qed.

Lemma bt_elems_perm s : bt_elems s ≡ₚ elements s.
Proof. apply merge_sort_Permutation. Qed.

Lemma elem_of_bt_elems s k : k ∈ bt_elems s ↔ k ∈ s.
Proof. by rewrite bt_elems_perm, elem_of_elements. Qed.

Lemma bt_elems_NoDup s : NoDup (bt_elems s).
Proof. rewrite bt_elems_perm. apply NoDup_elements. Qed.

Lemma lookup_map_extend_ne m l k :
  k ∉ l.*1 → map_extend m l !! k = m !! k.
Proof.
  revert m; induction l as [|[k' v'] l IH]; intros m; cbn; [done|].
  rewrite not_elem_of_cons. intros [Hne Hnin].
  unfold map_extend in IH. rewrite IH by done. by rewrite lookup_insert_ne.
Qed.

Lemma lookup_map_extend_NoDup m l k v :
  NoDup l.*1 → (k, v) ∈ l → map_extend m l !! k = Some v.
Proof.
  revert m; induction l as [|[k' v'] l IH]; intros m; cbn.
  - intros _ Hin. by apply elem_of_nil in Hin.
  - rewrite NoDup_cons, elem_of_cons. intros [Hnin Hnd] [[= -> ->]|Hin].
    + change (map_extend (<[k':=v']> m) l !! k' = Some v').
      rewrite lookup_map_extend_ne by done. apply lookup_insert_eq.
    + by apply IH.
Qed.

Lemma map_extend_inv m l k v :
  map_extend m l !! k = Some v → (k, v) ∈ l ∨ m !! k = Some v.
Proof.
  revert m; induction l as [|[k' v'] l IH]; intros m; cbn; [auto|].
  intros [Hin|Hin]%IH.
  - left. by apply list_elem_of_further.
  - rewrite lookup_insert in Hin. case_decide; simplify_eq; auto.
    left. by apply list_elem_of_here.
Qed.
End bt_iter.

(** An invariant of the loop body holds at the end of a loop that returns. *)
Lemma ofold_inv {A B : Type} (f : A → B → outcome A) (P : A → Prop) (l : list B) a a' :
  (∀ x a a', x ∈ l → P a → f a x = Ret a' → P a') → P a → ofold f a l = Ret a' → P a'.
Proof.
  revert a; induction l as [|x l IH]; intros a Hf Ha; cbn; [by intros [= <-]|].
  intros (b & Hb & Hl)%obind_ret. apply (IH b); [|by eapply Hf, Hb; [apply list_elem_of_here|]|done].
  intros y c c' Hy. apply Hf. by apply list_elem_of_further.
Qed.

(** A loop over a map that replaces each value: every entry is related to the
    one it replaces. *)
Lemma ofold_bt_iter {K V : Type} `{OrdKey K} (f : V → outcome V) (R : V → V → Prop) (m : gmap K V) :
  (∀ k v, m !! k = Some v → ∃ v', f v = Ret v' ∧ R v v') →
  ∃ m', ofold (λ m kv, let! v := f kv.2 in Ret (<[kv.1 := v]> m)) m (bt_iter m) = Ret m' ∧
    ∀ k, match m !! k, m' !! k with
         | Some v, Some v' => R v v'
         | None, None => True
         | _, _ => False
         end.
Proof.
  intros Hf.
  destruct (ofold_ind (λ m kv, let! v := f kv.2 in Ret (<[kv.1 := v]> m))
    (λ pre m', ∀ k, match m !! k, m' !! k with
         | Some v, Some v' => k ∈ pre.*1 → R v v'
         | None, None => True
         | _, _ => False
         end) (bt_iter m) m) as (m' & Hm' & HP).
  - intros k. destruct (m !! k); [|done]. cbn. by intros ?%not_elem_of_nil.
  - intros pre [k v] a Hin Ha. apply elem_of_bt_iter in Hin. cbn.
    destruct (Hf k v Hin) as (v' & -> & HR). cbn. eexists. split; [done|].
    intros k'. specialize (Ha k'). rewrite lookup_insert. case_decide as E.
    + subst k'. rewrite Hin in *. done.
    + destruct (m !! k'), (a !! k'); try done. rewrite fmap_app, elem_of_app. cbn.
      rewrite list_elem_of_singleton. naive_solver.
  - exists m'. split; [done|]. intros k. specialize (HP k).
    destruct (m !! k) eqn:Hk, (m' !! k); try done. apply HP.
    by apply elem_of_bt_keys.
Qed.

Section max_by_key.
Context {A : Type} (f : A → nat).

Let step (acc : option A) (x : A) : option A :=
  match acc with
  | None => Some x
  | Some y => if (f y <=? f x)%nat then Some x else Some y
  end.

Lemma max_by_key_aux l acc r :
  foldl step acc l = Some r →
  (acc = Some r ∨ r ∈ l) ∧ (∀ y, acc = Some y ∨ y ∈ l → (f y <= f r)%nat).
Proof.
  revert acc; induction l as [|x l IH]; intros acc; cbn.
  - intros ->. split; [by left|]. intros y [[= ->]|Hy]; [done|by apply elem_of_nil in Hy].
  - intros Hf. apply IH in Hf as [Hin Hmax].
    setoid_rewrite elem_of_cons.
    destruct acc as [a|]; cbn in *.
    + destruct (Nat.leb_spec (f a) (f x)).
      * split; [naive_solver|]. intros y [[= ->]|[->|Hy]]; [|by auto|by auto].
        transitivity (f x); [done|]. by apply Hmax; left.
      * split; [naive_solver|]. intros y [[= ->]|[->|Hy]]; [by auto| |by auto].
        transitivity (f a); [lia|]. by apply Hmax; left.
    + split; [naive_solver|]. intros y [?|[->|Hy]]; [done|by auto|by auto].
Qed.

Lemma max_by_key_spec l r :
  max_by_key f l = Some r → r ∈ l ∧ ∀ y, y ∈ l → (f y <= f r)%nat.
Proof.
  intros H. apply max_by_key_aux in H as [[?|?] Hmax]; [done|]. naive_solver.
Qed.

Lemma max_by_key_is_Some l : l ≠ [] → ∃ r, max_by_key f l = Some r.
Proof.
  assert (Hs : ∀ l a, ∃ r, foldl step (Some a) l = Some r).
  { clear l. induction l as [|x l IH]; intros a; cbn; [eauto|].
    destruct (f a <=? f x)%nat; apply IH. }
  destruct l as [|x l]; [done|]. intros _. apply Hs.
Qed.
End max_by_key.

Lemma max_or_0_spec l n : (n <= max_or_0 l)%nat ↔ n = 0%nat ∨ ∃ x, x ∈ l ∧ (n <= x)%nat.
Proof.
  unfold max_or_0.
  assert (Hg : ∀ a, (n <= foldl Nat.max a l)%nat ↔ (n <= a)%nat ∨ ∃ x, x ∈ l ∧ (n <= x)%nat).
  { induction l as [|x l IH]; intros a; cbn.
    - split; [auto|]. intros [?|(x & Hx & _)]; [done|]. by apply elem_of_nil in Hx.
    - rewrite IH. setoid_rewrite elem_of_cons. split.
      + intros [Hm|(y & ? & ?)]; [|naive_solver].
        destruct (Nat.le_gt_cases n a); [by left|]. right. exists x. split; [by left|lia].
      + intros [?|(y & [->|?] & ?)]; [left; lia|left; lia|]. right; eauto. }
  rewrite Hg. split; intros [?|?]; auto; left; lia.
Qed.

#[export] Hint Rewrite @elem_of_bt_iter @elem_of_bt_keys @elem_of_bt_elems
  @length_bt_iter @bt_iter_empty : znp_rw.
#[export] Hint Resolve bt_keys_NoDup bt_iter_NoDup bt_elems_NoDup : znp.

(** ** All that the values of a map contain *)
Definition flat {K V C : Type} `{Countable K} (f : K → V → list C) (m : gmap K V) : list C :=
  map_to_list m ≫= λ kv, f kv.1 kv.2.

Section flat.
Context {K V C : Type} `{Countable K} (f : K → V → list C).
Implicit Types m : gmap K V.

Lemma flat_insert m k v : m !! k = None → flat f (<[k:=v]> m) ≡ₚ f k v ++ flat f m.
Proof. intros Hk. unfold flat. by rewrite (map_to_list_insert _ _ _ Hk). Qed.
Lemma flat_delete m k v : m !! k = Some v → flat f m ≡ₚ f k v ++ flat f (delete k m).
Proof. intros Hk. rewrite <-(insert_delete_id m k v Hk) at 1. by rewrite flat_insert by apply lookup_delete_eq. Qed.
Lemma flat_update m k v : flat f (<[k:=v]> m) ≡ₚ f k v ++ flat f (delete k m).
Proof. rewrite <-insert_delete_eq. by rewrite flat_insert by apply lookup_delete_eq. Qed.
Lemma elem_of_flat m x : x ∈ flat f m ↔ ∃ k v, m !! k = Some v ∧ x ∈ f k v.
Proof.
  unfold flat. rewrite list_elem_of_bind. split.
  - intros ([k v] & Hx & Hkv%elem_of_map_to_list). eauto.
  - intros (k & v & Hkv%elem_of_map_to_list & Hx). by exists (k, v).
Qed.
End flat.

Section flat_more.
Context {K V C : Type} `{Countable K}.
Implicit Types m : gmap K V.

Lemma flat_nil (f : K → V → list C) m : (∀ k v, m !! k = Some v → f k v = []) → flat f m = [].
Proof.
  intros Hf. apply elem_of_nil_inv. intros x (k & v & Hk & Hx)%elem_of_flat. rewrite (Hf _ _ Hk) in Hx. by apply not_elem_of_nil in Hx.
Qed.
Lemma flat_ext (f1 f2 : K → V → list C) m : (∀ k v, f1 k v = f2 k v) → flat f1 m = flat f2 m.
Proof. intros Hf. unfold flat. induction (map_to_list m) as [|[k v] l IH]; cbn; [done|]. by rewrite Hf, IH. Qed.
Lemma flat_app (f1 f2 : K → V → list C) m : flat (λ k v, f1 k v ++ f2 k v) m ≡ₚ flat f1 m ++ flat f2 m.
Proof.
  induction m as [|k v m Hk IH] using map_ind; [done|]. rewrite !flat_insert by done. rewrite IH, <-!(assoc_L (++)).
  by rewrite (Permutation_app_swap_app (f2 k v)).
Qed.
Lemma flat_map_imap (f : K → V → list C) (h : K → V → V) m :
  flat f (map_imap (λ k v, Some (h k v)) m) ≡ₚ flat (λ k v, f k (h k v)) m.
Proof.
  induction m as [|k v m Hk IH] using map_ind; [by rewrite map_imap_empty|].
  rewrite map_imap_insert_Some with (y := h k v) by done. rewrite !flat_insert; [by rewrite IH|done|].
  by rewrite map_lookup_imap, Hk.
Qed.
Lemma flat_single (c : C) a m : is_Some (m !! a) → flat (λ k _, if bool_decide (a = k) then [c] else []) m ≡ₚ [c].
Proof.
  intros [v Hv]. rewrite (flat_delete _ _ _ _ Hv), bool_decide_true by done. cbn. rewrite flat_nil; [done|].
  intros k v' [Hne _]%lookup_delete_Some. by rewrite bool_decide_false.
Qed.
End flat_more.

Lemma imap_replicate {A B : Type} (f : nat → A → B) n x : imap f (replicate n x) = (λ i, f i x) <$> seq 0 n.
Proof.
  cut (∀ k, imap (λ i o, f (k + i)%nat o) (replicate n x) = (λ i, f i x) <$> seq k n); [intros Hk; apply (Hk 0%nat)|].
  induction n as [|n IH]; intros k; cbn; [done|]. rewrite Nat.add_0_r. f_equal. rewrite <-IH.
  apply imap_ext. intros i o _. unfold compose. by rewrite Nat.add_succ_r.
Qed.
