(* ===== verification/Externals.v ===== *)
(** * What the repository takes from outside

    Socket addresses of the standard library, the data types of the naom crate
    as the repository spells them out in [src/upgrade/frozen_last_version.rs],
    and, as type classes, the functions of third-party crates that the modelled
    code calls.  A [Class] of this file is a parameter of every definition that
    uses it; the [*Laws] classes state the documented behaviour that some
    theorems rely on, and [TestExternals] gives concrete functions satisfying
    them, at which the witnesses of those theorems are evaluated. *)
From stdpp Require Import pretty.
From S2P Require Import Prelude.

(** ** [std::net::SocketAddr] *)
Inductive SocketAddr :=
  | AddrV4 (ip port : Z)
  | AddrV6 (ip port flowinfo scope_id : Z).

#[export] Instance SocketAddr_eq_dec : EqDecision SocketAddr.
Proof. solve_decision. Defined.

Definition SocketAddr_code (a : SocketAddr) : list Z :=
  match a with
  | AddrV4 i p => [0; i; p]
  | AddrV6 i p f s => [1; i; p; f; s]
  end.
Definition SocketAddr_decode (l : list Z) : option SocketAddr :=
  match l with
  | [_; i; p] => Some (AddrV4 i p)
  | [_; i; p; f; s] => Some (AddrV6 i p f s)
  | _ => None
  end.
Lemma SocketAddr_decode_code a : SocketAddr_decode (SocketAddr_code a) = Some a.
Proof. by destruct a. Qed.
#[export] Instance SocketAddr_countable : Countable SocketAddr :=
  inj_countable SocketAddr_code SocketAddr_decode SocketAddr_decode_code.
#[export] Program Instance ordkey_SocketAddr : OrdKey SocketAddr := {| okey := SocketAddr_code |}.
Next Obligation.
  intros a b E. apply (f_equal SocketAddr_decode) in E.
  by rewrite !SocketAddr_decode_code in E; simplify_eq.
Qed.

(** [Display]: the text of an address.  [ipv6_to_string] is the standard
    library's text of a 128-bit address. *)
Class Ipv6Display := { ipv6_to_string : Z → string }.

Section display.
Context `{Ipv6Display}.

Definition ip_to_string (a : SocketAddr) : string :=
  match a with
  | AddrV4 ip _ => pretty (ip / 2 ^ 24) +:+ "." +:+ pretty (ip / 2 ^ 16 mod 256) +:+ "." +:+
      pretty (ip / 2 ^ 8 mod 256) +:+ "." +:+ pretty (ip mod 256)
  | AddrV6 ip _ _ _ => ipv6_to_string ip
  end.
Definition addr_port (a : SocketAddr) : Z := match a with AddrV4 _ p | AddrV6 _ p _ _ => p end.
Definition addr_to_string (a : SocketAddr) : string :=
  match a with
  | AddrV4 _ p => ip_to_string a +:+ ":" +:+ pretty p
  | AddrV6 _ p _ scope =>
      "[" +:+ ip_to_string a +:+ (if scope =? 0 then "" else "%" +:+ pretty scope) +:+ "]:" +:+ pretty p
  end.
End display.

(** [str::parse::<SocketAddr>]. *)
Class AddrText := { parse_socket_addr : string → option SocketAddr }.

(** [SocketAddr::set_port], and [SocketAddr::new] of the IP of an address. *)
Definition set_port (a : SocketAddr) (p : Z) : SocketAddr :=
  match a with AddrV4 ip _ => AddrV4 ip p | AddrV6 ip _ f s => AddrV6 ip p f s end.
Definition with_ip_of (a : SocketAddr) (p : Z) : SocketAddr :=
  match a with AddrV4 ip _ => AddrV4 ip p | AddrV6 ip _ _ _ => AddrV6 ip p 0 0 end.

(** ** naom data *)
Notation TokenAmount := Z (only parsing).

Record OutPoint := mkOutPoint { t_hash : string; op_n : Z }.

#[export] Instance OutPoint_eq_dec : EqDecision OutPoint.
Proof. solve_decision. Defined.
#[export] Instance OutPoint_countable : Countable OutPoint.
Proof.
  refine (inj_countable (λ o, (t_hash o, op_n o)) (λ p, Some (mkOutPoint p.1 p.2)) _).
  by intros [].
Defined.

(** A terminated string, then the index: the derived order of the struct. *)
Definition OutPoint_code (o : OutPoint) : list Z :=
  map Z.succ (string_codes (t_hash o)) ++ [0; op_n o].

Lemma string_codes_nonneg s : Forall (λ z, 0 ≤ z) (string_codes s).
Proof. induction s; constructor; [apply N2Z.is_nonneg|done]. Qed.

Lemma terminated_inj (l1 l2 : list Z) (x y : Z) :
  Forall (λ z, 0 ≤ z) l1 → Forall (λ z, 0 ≤ z) l2 →
  map Z.succ l1 ++ [0; x] = map Z.succ l2 ++ [0; y] → l1 = l2 ∧ x = y.
Proof.
  intros H; revert l2; induction H as [|a l1 Ha _ IH]; intros l2 H2; destruct H2 as [|b l2 Hb H2];
    cbn; intros E; simplify_eq; try lia; [done|].
  assert (a = b) as -> by lia. by destruct (IH l2 H2 ltac:(done)) as [-> ->].
Qed.

#[export] Program Instance ordkey_OutPoint : OrdKey OutPoint := {| okey := OutPoint_code |}.
Next Obligation.
  intros [h1 n1] [h2 n2] E.
  apply terminated_inj in E as [E E']; [|apply string_codes_nonneg|apply string_codes_nonneg].
  cbn in E, E'. apply (inj string_codes) in E. by subst.
Qed.

Inductive OpCodes :=
  | OP_DUP | OP_HASH256 | OP_EQUALVERIFY | OP_CHECKSIG | OP_CREATE
  | OP_HASH256_V0 | OP_HASH256_TEMP.

(** The discriminants, which are what is serialized. *)
Definition OpCodes_u32 (o : OpCodes) : Z :=
  match o with
  | OP_DUP => 0x2b | OP_HASH256 => 0x5d | OP_EQUALVERIFY => 0x3d | OP_CHECKSIG => 0x5f
  | OP_CREATE => 0x6d | OP_HASH256_V0 => 0x6e | OP_HASH256_TEMP => 0x6f
  end.
Definition OpCodes_of_u32 (value : Z) : option OpCodes :=
  if value =? 0x2b then Some OP_DUP
  else if value =? 0x5d then Some OP_HASH256
  else if value =? 0x3d then Some OP_EQUALVERIFY
  else if value =? 0x5f then Some OP_CHECKSIG
  else if value =? 0x6d then Some OP_CREATE
  else if value =? 0x6e then Some OP_HASH256_V0
  else if value =? 0x6f then Some OP_HASH256_TEMP
  else None.

Inductive StackEntry :=
  | Op (o : OpCodes)
  | Signature (s : list Z)
  | PubKey (k : list Z)
  | PubKeyHash (h : string)
  | Num (z : Z)
  | Bytes (s : string).

Record Script := mkScript { stack : list StackEntry }.

Record TxIn := mkTxIn { previous_out : option OutPoint; script_signature : Script }.

Record ReceiptAsset := mkReceiptAsset {
  receipt_amount : Z; drs_tx_hash : option string; metadata : option string }.
Record DataAsset := mkDataAsset { data_bytes : list Z; data_amount : Z }.
Inductive Asset :=
  | Token (v : TokenAmount)
  | Data (v : DataAsset)
  | Receipt (v : ReceiptAsset).

Record TxOut := mkTxOut {
  value : Asset; locktime : Z; drs_block_hash : option string;
  script_public_key : option string }.

Record DruidExpectation := mkDruidExpectation {
  de_from : string; de_to : string; de_asset : Asset }.
Record DdeValues := mkDdeValues {
  druid : string; dde_participants : Z; expectations : list DruidExpectation }.

Record Transaction := mkTransaction {
  inputs : list TxIn; outputs : list TxOut; tx_version : Z; druid_info : option DdeValues }.

Record BlockHeader := mkBlockHeader {
  version : Z; bits : Z; nonce_and_mining_tx_hash : list Z * string; b_num : Z;
  seed_value : list Z; previous_hash : option string;
  txs_merkle_root_and_hash : string * string }.
Record Block := mkBlock { header : BlockHeader; transactions : list string }.

#[export] Instance eta_BlockHeader : Eta BlockHeader := λ r,
  mkBlockHeader (version r) (bits r) (nonce_and_mining_tx_hash r) (b_num r) (seed_value r)
    (previous_hash r) (txs_merkle_root_and_hash r).
#[export] Instance eta_Block : Eta Block := λ r, mkBlock (header r) (transactions r).

#[export] Instance OpCodes_eq_dec : EqDecision OpCodes.
Proof. solve_decision. Defined.
#[export] Instance StackEntry_eq_dec : EqDecision StackEntry.
Proof. solve_decision. Defined.
#[export] Instance Script_eq_dec : EqDecision Script.
Proof. solve_decision. Defined.
#[export] Instance TxIn_eq_dec : EqDecision TxIn.
Proof. solve_decision. Defined.
#[export] Instance ReceiptAsset_eq_dec : EqDecision ReceiptAsset.
Proof. solve_decision. Defined.
#[export] Instance DataAsset_eq_dec : EqDecision DataAsset.
Proof. solve_decision. Defined.
#[export] Instance Asset_eq_dec : EqDecision Asset.
Proof. solve_decision. Defined.
#[export] Instance TxOut_eq_dec : EqDecision TxOut.
Proof. solve_decision. Defined.
#[export] Instance DruidExpectation_eq_dec : EqDecision DruidExpectation.
Proof. solve_decision. Defined.
#[export] Instance DdeValues_eq_dec : EqDecision DdeValues.
Proof. solve_decision. Defined.
#[export] Instance Transaction_eq_dec : EqDecision Transaction.
Proof. solve_decision. Defined.

(** ** naom functions *)
Class Naom := {
  sha3_256 : list Z → list Z;
  TOTAL_TOKENS : TokenAmount;
  (** [TokenAmount]: [AddAssign], [Sum], [Div<u64>]; [Asset::token_amount] *)
  token_add : TokenAmount → TokenAmount → TokenAmount;
  token_sum : list TokenAmount → TokenAmount;
  token_div : TokenAmount → Z → TokenAmount;
  token_amount : Asset → TokenAmount;
  (** [AssetValues] of a balance *)
  AssetValues : Type;
  AssetValues_default : AssetValues;
  update_add : AssetValues → Asset → AssetValues;
  with_fixed_hash : Asset → OutPoint → Asset;
  (** [Block::new], [Block::set_txs_merkle_root_and_hash], [build_hex_txs_hash] *)
  Block_new : Block;
  set_txs_merkle_root_and_hash : Block → Block;
  build_hex_txs_hash : list string → string;
  (** transaction utilities *)
  get_tx_out_with_out_point : list (string * Transaction) → list (OutPoint * TxOut);
  get_tx_out_with_out_point_cloned : list (string * Transaction) → list (OutPoint * TxOut);
  get_inputs_previous_out_point : list Transaction → list OutPoint;
  construct_tx_hash : Transaction → string;
  is_coinbase : Transaction → bool;
}.

Class NaomLaws `{Naom} : Prop := {
  cloned_same l : get_tx_out_with_out_point_cloned l = get_tx_out_with_out_point l;
  inputs_nil : get_inputs_previous_out_point [] = [];
  inputs_app l1 l2 : get_inputs_previous_out_point (l1 ++ l2) =
    get_inputs_previous_out_point l1 ++ get_inputs_previous_out_point l2;
  token_add_exact a b : 0 ≤ a → 0 ≤ b → is_u64 (a + b) → token_add a b = a + b;
  token_sum_exact l : Forall (λ z, 0 ≤ z) l → is_u64 (foldr Z.add 0 l) →
    token_sum l = foldr Z.add 0 l;
  token_div_exact a b : 0 ≤ a → 0 < b → token_div a b = a / b;
  token_amount_range a : is_u64 (token_amount a);
  TOTAL_TOKENS_range : is_u64 TOTAL_TOKENS;
  sha3_256_length l : length (sha3_256 l) = 32%nat;
  Block_new_transactions : transactions Block_new = [];
  merkle_transactions b :
    transactions (set_txs_merkle_root_and_hash b) = transactions b;
  merkle_header b : header (set_txs_merkle_root_and_hash b) =
    header b <| txs_merkle_root_and_hash :=
      txs_merkle_root_and_hash (header (set_txs_merkle_root_and_hash b)) |>;
  merkle_hash b :
    (txs_merkle_root_and_hash (header (set_txs_merkle_root_and_hash b))).2 =
      build_hex_txs_hash (transactions b);
}.

(** ** naom assets

    The arithmetic of [Asset] and [AssetValues] that the wallet uses.
    [add_assign] returns whether the assets could be added. *)
Class NaomAssets `{Naom} := {
  update_sub : AssetValues → Asset → AssetValues;
  has_enough : AssetValues → Asset → bool;
  default_of_type : Asset → Asset;
  add_assign : Asset → Asset → bool * Asset;
  is_greater_or_equal_to : Asset → Asset → option bool;
  get_excess : Asset → Asset → option Asset;
}.

(** What these functions compute: every asset is a quantity of a kind (tokens,
    or receipts of one transaction), [held] is the quantity of a kind in an
    [AssetValues]; [fixed] assets carry their kind, which [with_fixed_hash]
    completes. *)
Class AssetMeasure `{Naom} := {
  AssetKind : Type;
  AssetKind_eq_dec :: EqDecision AssetKind;
  asset_kind : Asset → AssetKind;
  asset_qty : Asset → Z;
  held : AssetValues → AssetKind → Z;
  fixed : Asset → Prop;
}.

Class NaomAssetsLaws `{NaomAssets, !AssetMeasure} : Prop := {
  asset_qty_nonneg a : 0 ≤ asset_qty a;
  fixed_with_hash a op : fixed (with_fixed_hash a op);
  with_hash_idem a op : fixed a → with_fixed_hash a op = a;
  with_hash_qty a op : asset_qty (with_fixed_hash a op) = asset_qty a;
  held_default k : held AssetValues_default k = 0;
  held_add t a k : fixed a → is_u64 (held t (asset_kind a) + asset_qty a) →
    held (update_add t a) k = held t k + (if decide (asset_kind a = k) then asset_qty a else 0);
  held_sub t a k : fixed a → is_u64 (held t (asset_kind a)) → asset_qty a ≤ held t (asset_kind a) →
    held (update_sub t a) k = held t k - (if decide (asset_kind a = k) then asset_qty a else 0);
  has_enough_spec t a : has_enough t a = bool_decide (asset_qty a ≤ held t (asset_kind a));
  default_of_type_spec a : asset_kind (default_of_type a) = asset_kind a ∧ asset_qty (default_of_type a) = 0;
  add_assign_same a b : asset_kind a = asset_kind b → is_u64 (asset_qty a + asset_qty b) →
    ∃ c, add_assign a b = (true, c) ∧ asset_kind c = asset_kind a ∧ asset_qty c = asset_qty a + asset_qty b;
  add_assign_other a b : asset_kind a ≠ asset_kind b → add_assign a b = (false, a);
  greater_or_equal_spec a b : asset_kind a = asset_kind b →
    is_greater_or_equal_to a b = Some (bool_decide (asset_qty b ≤ asset_qty a));
  get_excess_spec a b : asset_kind a = asset_kind b →
    match get_excess a b with
    | Some e => asset_kind e = asset_kind a ∧ asset_qty e = asset_qty a - asset_qty b ∧ asset_qty b < asset_qty a
    | None => asset_qty a ≤ asset_qty b
    end;
}.

(** ** naom scripts

    The checks of transactions that a compute node makes, and the creation of
    receipts. *)
Class NaomScripts `{Naom} := {
  is_create_tx : Transaction → bool;
  tx_has_valid_create_script : Script → Asset → bool;
  tx_is_valid : Transaction → (OutPoint → option TxOut) → bool;
  druid_expectations_are_met : string → list Transaction → bool;
}.

Inductive DrsTxHashSpec := DrsDefault | DrsCreate.
Class NaomReceipts := {
  get_drs_tx_hash : DrsTxHashSpec → option string;
  construct_tx_in_signable_asset_hash : Asset → string;
  new_create_asset : Z → string → list Z → list Z → Script;
  new_asset_out : string → Asset → TxOut;
  construct_tx_core : list TxIn → list TxOut → Transaction;
  hex_decode : string → option (list Z);
  public_key_from_slice : list Z → option (list Z);
  signature_from_slice : list Z → option (list Z);
}.

(** The input script of a coinbase, which carries the block number. *)
Class NaomCoinbase := { new_for_coinbase : Z → Script }.
Class NaomCoinbaseLaws `{Naom, NaomReceipts, NaomCoinbase} : Prop := {
  tx_core_inputs ins outs : inputs (construct_tx_core ins outs) = ins;
  tx_core_outputs ins outs : outputs (construct_tx_core ins outs) = outs;
  coinbase_recognised b o : is_coinbase (construct_tx_core [mkTxIn None (new_for_coinbase b)] [o]) = true;
  token_amount_token v : is_u64 v → token_amount (Token v) = v;
  single_out_point h tx o : outputs tx = [o] →
    get_tx_out_with_out_point_cloned [(h, tx)] = [(mkOutPoint h 0, o)];
}.

(** Secret keys, addresses, and the outputs and transactions the repository builds itself. *)
Class NaomSigning := {
  secret_key_from_slice : list Z → option (list Z);
  construct_address : list Z → string;
  new_token_amount : string → TokenAmount → TxOut;
  Transaction_default : Transaction;
}.

(** ** keccak_prime: the Fortuna generator

    [fortuna seed usage len] is [Fortuna::new(seed, usage)] followed by
    [get_bytes(len)]; [None] when either fails. *)
Class KeccakPrime := { fortuna : list Z → Z → nat → option (list Z) }.
Class KeccakPrimeLaws `{KeccakPrime} : Prop := {
  fortuna_bytes seed usage len : length seed = 32%nat →
    ∃ l, fortuna seed usage len = Some l ∧ length l = len ∧ Forall (λ b, 0 ≤ b < 256) l;
}.

(** ** rug: integer functions beyond ring and bit operations *)
Inductive IsPrime := IsPrimeNo | IsPrimeProbably | IsPrimeYes.
Class Rug := {
  from_str_radix : string → Z → option Z;
  integer_to_string : Z → string;
  integer_to_u64 : Z → option Z;
  pow_mod : Z → Z → Z → option Z;
  is_probably_prime : Z → Z → IsPrime;
  to_digits_msf : Z → list Z;
}.
Class RugLaws `{Rug} : Prop := {
  pow_mod_spec b e m : 0 ≤ e → 0 < m → pow_mod b e m = Some (b ^ e mod m);
}.

(** ** hex *)
Class Hex := { hex_encode : list Z → string }.

(** ** bincode *)
Class Bincode (T : Type) := {
  serialize : T → list Z;
  deserialize : list Z → option T;
}.
Class BincodeLaws (T : Type) `{Bincode T} : Prop :=
  deserialize_serialize : ∀ x : T, deserialize (serialize x) = Some x.

(** ** serde_json: [to_vec] *)
Class SerdeJson (T : Type) := { to_json : T → list Z }.

(** ** Concrete functions at which the witnesses are evaluated *)
Module TestExternals.
(** Outputs in order, each with its index; inputs in order. *)
Definition tx_outs (l : list (string * Transaction)) : list (OutPoint * TxOut) :=
  l ≫= λ '(h, tx), imap (λ i o, (mkOutPoint h (Z.of_nat i), o)) (outputs tx).
Definition tx_ins (l : list Transaction) : list OutPoint :=
  l ≫= λ tx, omap previous_out (inputs tx).

Definition empty_header : BlockHeader := mkBlockHeader 0 0 ([], EmptyString) 0 [] None (EmptyString, EmptyString).
Definition set_merkle (b : Block) : Block :=
  b <| header ::= λ h, h <| txs_merkle_root_and_hash := (EmptyString, String.concat "," (transactions b)) |> |>.
Definition asset_tokens (a : Asset) : Z :=
  match a with Token v => wrap64 v | _ => 0 end.

(** Tokens, and receipts by the hash that creates them. *)
Definition values : Type := Z * gmap string Z.
Inductive asset_type := TokenType | DataType | ReceiptType (h : option string).
#[export] Instance asset_type_eq_dec : EqDecision asset_type.
Proof. solve_decision. Defined.
Definition asset_class (a : Asset) : asset_type :=
  match a with Token _ => TokenType | Data _ => DataType | Receipt r => ReceiptType (drs_tx_hash r) end.
Definition quantity (a : Asset) : Z :=
  match a with Token v => wrap64 v | Data _ => 0 | Receipt r => wrap64 (receipt_amount r) end.
Definition values_held (t : values) (k : asset_type) : Z :=
  match k with TokenType => t.1 | ReceiptType (Some h) => default 0 (t.2 !! h) | _ => 0 end.
Definition values_upd (f : Z → Z → Z) (t : values) (a : Asset) : values :=
  match a with
  | Token _ => (wrap64 (f t.1 (quantity a)), t.2)
  | Receipt (mkReceiptAsset _ (Some h) _) => (t.1, <[h := wrap64 (f (default 0 (t.2 !! h)) (quantity a))]> t.2)
  | _ => t
  end.
Definition fix_hash (a : Asset) (op : OutPoint) : Asset :=
  match a with
  | Receipt (mkReceiptAsset n None m) => Receipt (mkReceiptAsset n (Some (t_hash op)) m)
  | _ => a
  end.
Definition with_quantity (a : Asset) (q : Z) : Asset :=
  match a with
  | Token _ => Token q
  | Data d => Data d
  | Receipt (mkReceiptAsset _ h m) => Receipt (mkReceiptAsset q h m)
  end.

#[export] Instance naom : Naom := {|
  sha3_256 l := take 32 (l ++ replicate 32 0);
  TOTAL_TOKENS := 250000000000000000;
  token_add a b := wrap64 (a + b);
  token_sum l := wrap64 (foldr Z.add 0 l);
  token_div := Z.div;
  token_amount := asset_tokens;
  AssetValues := values;
  AssetValues_default := (0, ∅);
  update_add := values_upd Z.add;
  with_fixed_hash := fix_hash;
  Block_new := mkBlock empty_header [];
  set_txs_merkle_root_and_hash := set_merkle;
  build_hex_txs_hash := String.concat ",";
  get_tx_out_with_out_point := tx_outs;
  get_tx_out_with_out_point_cloned := tx_outs;
  get_inputs_previous_out_point := tx_ins;
  construct_tx_hash tx := String.concat "," (omap script_public_key (outputs tx));
  is_coinbase tx := bool_decide (length (inputs tx) = 1%nat ∧ omap previous_out (inputs tx) = []);
|}.

#[export] Instance naom_laws : NaomLaws.
Proof.
  constructor; cbn; try done.
  - intros l1 l2. unfold tx_ins. by rewrite bind_app.
  - intros a b ? ? ?. by apply wrap64_id.
  - intros l _ ?. by apply wrap64_id.
  - intros []; cbn; [apply wrap64_range|..]; split; by vm_compute.
  - intros l. rewrite length_take, length_app. cbn [length]. lia.
Qed.

#[export] Instance naom_assets : NaomAssets := {|
  update_sub := values_upd Z.sub;
  has_enough t a := bool_decide (quantity a ≤ values_held t (asset_class a));
  default_of_type a := with_quantity a 0;
  add_assign a b := if decide (asset_class a = asset_class b)
    then (true, with_quantity a (quantity a + quantity b)) else (false, a);
  is_greater_or_equal_to a b := if decide (asset_class a = asset_class b)
    then Some (bool_decide (quantity b ≤ quantity a)) else None;
  get_excess a b := if decide (asset_class a = asset_class b ∧ quantity b < quantity a)
    then Some (with_quantity a (quantity a - quantity b)) else None;
|}.

#[export] Instance asset_measure : AssetMeasure := {|
  asset_kind := asset_class;
  asset_qty := quantity;
  held := values_held;
  fixed a := match a with Receipt r => drs_tx_hash r ≠ None | Data _ => True | Token _ => True end
|}.

Lemma quantity_range a : is_u64 (quantity a).
Proof. destruct a; [apply wrap64_range|unfold is_u64, U64_MOD; cbn; lia|apply wrap64_range]. Qed.

Lemma with_quantity_spec a q : is_u64 q →
  asset_class (with_quantity a q) = asset_class a ∧
  quantity (with_quantity a q) = match a with Data _ => 0 | _ => q end.
Proof. intros Hq. destruct a as [v|d|[n h m]]; cbn; split; try done; by apply wrap64_id. Qed.

Lemma values_upd_held f t a k : f (values_held t (asset_class a)) 0 = values_held t (asset_class a) →
  is_u64 (f (values_held t (asset_class a)) (quantity a)) →
  match a with Receipt r => drs_tx_hash r ≠ None | Data _ => True | Token _ => True end →
  values_held (values_upd f t a) k =
    if decide (asset_class a = k) then f (values_held t (asset_class a)) (quantity a) else values_held t k.
Proof.
  intros H0 Hr Hf. destruct a as [v|d|[n [h|] m]]; cbn in *.
  - rewrite wrap64_id by done. destruct k; by simplify_option_eq.
  - case_decide; [by subst|done].
  - rewrite wrap64_id by done. destruct k as [| |[h'|]]; cbn; [by simplify_option_eq..| |by simplify_option_eq].
    rewrite lookup_insert. repeat case_decide; by simplify_eq.
  - done.
Qed.

#[export] Instance naom_assets_laws : NaomAssetsLaws.
Proof.
  constructor; cbn.
  - intros a. apply quantity_range.
  - intros [v|d|[n [h|] m]] op; cbn; done.
  - intros [v|d|[n [h|] m]] op; cbn; done.
  - intros [v|d|[n [h|] m]] op; cbn; done.
  - by intros [| |[]].
  - intros t a k Hf Hu. rewrite values_upd_held; [|lia|done|done].
    case_decide; [by subst|lia].
  - intros t a k Hf Hu Hle. pose proof (quantity_range a).
    rewrite values_upd_held; [|lia|unfold is_u64 in *; lia|done]. case_decide; [by subst|lia].
  - done.
  - intros a. destruct (with_quantity_spec a 0) as [-> ->]; [unfold is_u64, U64_MOD; lia|]. by destruct a.
  - intros a b E Hu. rewrite decide_True by done. eexists. split; [done|].
    destruct (with_quantity_spec a (quantity a + quantity b) Hu) as [-> ->]. split; [done|].
    by destruct a, b.
  - intros a b E. by rewrite decide_False.
  - intros a b E. by rewrite decide_True.
  - intros a b E. case_decide as D.
    + destruct D as [_ D]. pose proof (quantity_range a). pose proof (quantity_range b).
      destruct (with_quantity_spec a (quantity a - quantity b)) as [-> ->]; [unfold is_u64 in *; lia|].
      split; [done|]. split; [|done]. by destruct a, b.
    + destruct (Z.le_gt_cases (quantity a) (quantity b)); [done|]. exfalso; apply D; split; [done|lia].
Qed.

#[export] Instance hex : Hex :=
  {| hex_encode l := String.string_of_list_ascii (map (λ z, Ascii.ascii_of_N (Z.to_N (z mod 256))) l) |}.

#[export] Instance receipts : NaomReceipts := {|
  get_drs_tx_hash spec := match spec with DrsDefault => Some "default"%string | DrsCreate => None end;
  construct_tx_in_signable_asset_hash _ := "signable"%string;
  new_create_asset b hash sig pk := mkScript [Op OP_CREATE; Num b; Bytes hash; Signature sig; PubKey pk];
  new_asset_out spk asset := mkTxOut asset 0 None (Some spk);
  construct_tx_core ins outs := mkTransaction ins outs 0 None;
  hex_decode s := Some (string_codes s);
  public_key_from_slice l := Some l;
  signature_from_slice l := Some l;
|}.

#[export] Instance signing : NaomSigning := {|
  secret_key_from_slice l := Some l;
  construct_address pk := "A" ++ hex_encode pk;
  new_token_amount a v := mkTxOut (Token v) 0 None (Some a);
  Transaction_default := mkTransaction [] [] 6 None;
|}%string.
#[export] Instance coinbase_script : NaomCoinbase := {| new_for_coinbase b := mkScript [Num b] |}.
#[export] Instance coinbase_laws : NaomCoinbaseLaws.
Proof.
  constructor; try done; cbn.
  - intros v Hv. by apply wrap64_id.
  - intros h tx o Ho. unfold tx_outs. cbn. by rewrite Ho.
Qed.

#[export] Instance ipv6 : Ipv6Display := {| ipv6_to_string z := pretty z |}.

#[export] Instance keccak : KeccakPrime :=
  {| fortuna seed usage len := Some (replicate len ((foldr Z.add usage seed) mod 256)) |}.

#[export] Instance keccak_laws : KeccakPrimeLaws.
Proof.
  constructor. intros seed usage len _. eexists. split; [done|].
  rewrite length_replicate. split; [done|]. apply Forall_replicate. by apply Z.mod_pos_bound.
Qed.

#[export] Instance rug : Rug := {|
  from_str_radix s radix := Some (foldl (λ a c, a * radix + (c - 48)) 0 (string_codes s));
  integer_to_string z := EmptyString;
  integer_to_u64 z := if decide (is_u64 z) then Some z else None;
  pow_mod b e m := if decide (0 ≤ e ∧ 0 < m) then Some (b ^ e mod m) else None;
  is_probably_prime z _ :=
    if forallb (λ d, negb (z mod (Z.of_nat d) =? 0)) (seq 2 (Z.to_nat z - 2))
    then IsPrimeYes else IsPrimeNo;
  to_digits_msf z := [z];
|}.
#[export] Instance rug_laws : RugLaws.
Proof. constructor. intros b e m He Hm. cbn. by rewrite decide_True. Qed.

(** A serialization through the natural numbering of a countable type. *)
Definition bincode_countable (T : Type) `{Countable T} : Bincode T := {|
  serialize x := [0; Zpos (encode x)];
  deserialize l := match l with [_; Zpos p] => decode p | _ => None end |}.
Lemma bincode_countable_laws (T : Type) `{Countable T} : @BincodeLaws T (bincode_countable T).
Proof. intros x. apply decode_encode. Qed.

Definition asset_code (a : Asset) : Z + (list Z * Z) + (Z * option string * option string) :=
  match a with
  | Token v => inl (inl v)
  | Data d => inl (inr (data_bytes d, data_amount d))
  | Receipt r => inr (receipt_amount r, drs_tx_hash r, metadata r)
  end.
Definition asset_decode (c : Z + (list Z * Z) + (Z * option string * option string)) : Asset :=
  match c with
  | inl (inl v) => Token v
  | inl (inr (b, n)) => Data (mkDataAsset b n)
  | inr (n, h, m) => Receipt (mkReceiptAsset n h m)
  end.
#[export] Instance asset_countable : Countable Asset.
Proof. apply (inj_countable' asset_code asset_decode). by intros [|[]|[]]. Defined.

Definition entry_code (e : StackEntry) : Z + list Z + list Z + (string + Z + string) :=
  match e with
  | Op o => inl (inl (inl (OpCodes_u32 o)))
  | Signature s => inl (inl (inr s))
  | PubKey k => inl (inr k)
  | PubKeyHash h => inr (inl (inl h))
  | Num z => inr (inl (inr z))
  | Bytes s => inr (inr s)
  end.
Definition entry_decode (c : Z + list Z + list Z + (string + Z + string)) : StackEntry :=
  match c with
  | inl (inl (inl o)) => Op (default OP_DUP (OpCodes_of_u32 o))
  | inl (inl (inr s)) => Signature s
  | inl (inr k) => PubKey k
  | inr (inl (inl h)) => PubKeyHash h
  | inr (inl (inr z)) => Num z
  | inr (inr s) => Bytes s
  end.
#[export] Instance entry_countable : Countable StackEntry.
Proof. apply (inj_countable' entry_code entry_decode). by intros [[]| | | | |]. Defined.
#[export] Instance tx_in_countable : Countable TxIn.
Proof.
  apply (inj_countable' (λ i, (previous_out i, stack (script_signature i))) (λ c, mkTxIn c.1 (mkScript c.2))).
  by intros [? []].
Defined.
#[export] Instance tx_out_countable : Countable TxOut.
Proof.
  apply (inj_countable' (λ o, (value o, locktime o, drs_block_hash o, script_public_key o))
    (λ c, mkTxOut c.1.1.1 c.1.1.2 c.1.2 c.2)). by intros [].
Defined.
#[export] Instance expectation_countable : Countable DruidExpectation.
Proof.
  apply (inj_countable' (λ e, (de_from e, de_to e, de_asset e)) (λ c, mkDruidExpectation c.1.1 c.1.2 c.2)). by intros [].
Defined.
#[export] Instance dde_countable : Countable DdeValues.
Proof.
  apply (inj_countable' (λ d, (druid d, dde_participants d, expectations d)) (λ c, mkDdeValues c.1.1 c.1.2 c.2)).
  by intros [].
Defined.
#[export] Instance tx_countable : Countable Transaction.
Proof.
  apply (inj_countable' (λ t, (inputs t, outputs t, tx_version t, druid_info t))
    (λ c, mkTransaction c.1.1.1 c.1.1.2 c.1.2 c.2)). by intros [].
Defined.

(** *** Serialization field by field

    The codecs of the larger examples: what follows is left for the reader. *)
Class Codec (T : Type) := {
  enc : T → list Z;
  dec : list Z → option (T * list Z);
  dec_enc x l : dec (enc x ++ l) = Some (x, l);
}.
Section codec.
Context {A B : Type}.
#[local] Obligation Tactic := idtac.

Definition codec_iso `{Codec B} (f : A → B) (g : B → A) (gf : ∀ x, g (f x) = x) : Codec A.
Proof.
  refine {| enc x := enc (f x); dec l := (λ r, (g r.1, r.2)) <$> dec l |}.
  intros x l. rewrite dec_enc. cbn. by rewrite gf.
Defined.
#[export] Instance codec_pair `{Codec A, Codec B} : Codec (A * B).
Proof.
  refine {| enc x := enc x.1 ++ enc x.2;
            dec l := match dec l with Some (a, l) => (λ r, (a, r.1, r.2)) <$> dec l | None => None end |}.
  intros [a b] l. cbn. by rewrite <-(assoc_L (++)), !dec_enc.
Defined.
#[export] Instance codec_sum `{Codec A, Codec B} : Codec (A + B).
Proof.
  refine {| enc x := match x with inl a => 0 :: enc a | inr b => 1 :: enc b end;
            dec l := match l with
                     | 0 :: l => (λ r, (inl r.1, r.2)) <$> dec l
                     | 1 :: l => (λ r, (inr r.1, r.2)) <$> dec l
                     | _ => None end |}.
  intros [a|b] l; cbn; by rewrite dec_enc.
Defined.
#[export] Instance codec_option `{Codec A} : Codec (option A).
Proof.
  refine {| enc x := match x with Some a => 1 :: enc a | None => [0] end;
            dec l := match l with 0 :: l => Some (None, l) | 1 :: l => (λ r, (Some r.1, r.2)) <$> dec l | _ => None end |}.
  intros [a|] l; cbn; [by rewrite dec_enc|done].
Defined.
Fixpoint dec_list `{Codec A} (k : nat) (l : list Z) : option (list A * list Z) :=
  match k with
  | O => Some ([], l)
  | S k => match dec l with Some (a, l) => (λ r, (a :: r.1, r.2)) <$> dec_list k l | None => None end
  end.
#[export] Instance codec_list `{Codec A} : Codec (list A).
Proof.
  refine {| enc x := Z.of_nat (length x) :: (x ≫= enc);
            dec l := match l with k :: l => dec_list (Z.to_nat k) l | [] => None end |}.
  intros x l. cbn [app]. rewrite Nat2Z.id. induction x as [|a x IH]; [done|].
  cbn [length dec_list]. rewrite bind_cons, <-(assoc_L (++)), dec_enc. by rewrite IH.
Defined.
End codec.
#[export] Instance codec_Z : Codec Z.
Proof. refine {| enc z := [z]; dec l := match l with z :: l => Some (z, l) | [] => None end |}. done. Defined.
#[export] Instance codec_bool : Codec bool.
Proof. apply (codec_iso (λ b : bool, if b then 1 else 0) (Z.eqb 1)). by intros []. Defined.
#[export] Instance codec_unit : Codec unit.
Proof. refine {| enc _ := []; dec l := Some ((), l) |}. by intros []. Defined.
Definition string_of_codes (l : list Z) : string := String.string_of_list_ascii (map (λ z, Ascii.ascii_of_N (Z.to_N z)) l).
#[export] Instance codec_string : Codec string.
Proof.
  apply (codec_iso string_codes string_of_codes). intros s. induction s as [|c s IH]; cbn; [done|].
  rewrite N2Z.id, Ascii.ascii_N_embedding. f_equal. exact IH.
Defined.
#[export] Instance codec_gmap {K V : Type} `{Countable K, !Codec K, !Codec V} : Codec (gmap K V).
Proof.
  apply (codec_iso (A := gmap K V) (B := list (K * V)) map_to_list list_to_map). intros m. apply list_to_map_to_list.
Defined.
#[export] Instance codec_gset {K : Type} `{Countable K, !Codec K} : Codec (gset K).
Proof.
  apply (codec_iso (A := gset K) (B := list K) (elements (C := gset K)) list_to_set). intros s. apply list_to_set_elements_L.
Defined.

Definition bincode_codec (T : Type) `{Codec T} : Bincode T :=
  {| serialize := enc; deserialize l := match dec l with Some (x, []) => Some x | _ => None end |}.
Lemma bincode_codec_laws (T : Type) `{Codec T} : @BincodeLaws T (bincode_codec T).
Proof. intros x. cbn. rewrite <-(app_nil_r (enc x)), dec_enc. done. Qed.
Lemma enc_inj {T : Type} `{Codec T} (x y : T) : enc x = enc y → x = y.
Proof.
  intros E. pose proof (dec_enc x []) as Ex. pose proof (dec_enc y []) as Ey. rewrite E in Ex. congruence.
Qed.

#[export] Instance codec_out_point : Codec OutPoint.
Proof. apply (codec_iso (λ o, (t_hash o, op_n o)) (λ c, mkOutPoint c.1 c.2)). by intros []. Defined.
#[export] Instance codec_asset : Codec Asset.
Proof. apply (codec_iso asset_code asset_decode). by intros [|[]|[]]. Defined.
#[export] Instance codec_entry : Codec StackEntry.
Proof. apply (codec_iso entry_code entry_decode). by intros [[]| | | | |]. Defined.
#[export] Instance codec_tx_in : Codec TxIn.
Proof. apply (codec_iso (λ i, (previous_out i, stack (script_signature i))) (λ c, mkTxIn c.1 (mkScript c.2))). by intros [? []]. Defined.
#[export] Instance codec_tx_out : Codec TxOut.
Proof.
  apply (codec_iso (λ o, (value o, locktime o, drs_block_hash o, script_public_key o))
    (λ c, mkTxOut c.1.1.1 c.1.1.2 c.1.2 c.2)). by intros [].
Defined.
#[export] Instance codec_expectation : Codec DruidExpectation.
Proof. apply (codec_iso (λ e, (de_from e, de_to e, de_asset e)) (λ c, mkDruidExpectation c.1.1 c.1.2 c.2)). by intros []. Defined.
#[export] Instance codec_dde : Codec DdeValues.
Proof. apply (codec_iso (λ d, (druid d, dde_participants d, expectations d)) (λ c, mkDdeValues c.1.1 c.1.2 c.2)). by intros []. Defined.
#[export] Instance codec_tx : Codec Transaction.
Proof.
  apply (codec_iso (λ t, (inputs t, outputs t, tx_version t, druid_info t))
    (λ c, mkTransaction c.1.1.1 c.1.1.2 c.1.2 c.2)). by intros [].
Defined.
#[export] Instance codec_addr : Codec SocketAddr.
Proof.
  apply (codec_iso (λ a, match a with AddrV4 i p => inl (i, p) | AddrV6 i p f s => inr (i, p, f, s) end)
    (λ c, match c with inl (i, p) => AddrV4 i p | inr (i, p, f, s) => AddrV6 i p f s end)). by intros [].
Defined.
#[export] Instance codec_block : Codec Block.
Proof.
  apply (codec_iso (λ b, let h := header b in
      (version h, bits h, nonce_and_mining_tx_hash h, b_num h, seed_value h, previous_hash h, txs_merkle_root_and_hash h, transactions b))
    (λ c, let '(v, b, n, bn, s, p, t, l) := c in mkBlock (mkBlockHeader v b n bn s p t) l)). by intros [[]].
Defined.
End TestExternals.
