(* ===== verification/Utils.v ===== *)
(** * Helpers of [src/utils.rs]

    The periodic checks, the reward schedule, the proof-of-work checks and the
    iterators from transactions to script keys. *)
From Stdlib Require Import Ascii.
From S2P Require Import Prelude Externals.

(** ** Constants of [src/constants.rs] *)
Definition REWARD_ISSUANCE_VAL : Z := 25.
Definition WINNING_MINER_UN : Z := 3.
Definition MINER_PARTICIPATION_UN : Z := 2.
Definition BLOCK_PREPEND : Z := 98.
Definition NAMED_CONSTANT_PREPEND : Z := 110.
Definition TX_POOL_LIMIT : Z := 10000000.
Definition MINING_DIFFICULTY : nat := 1.
Definition BLOCK_SIZE : Z := 1000000.
Definition BLOCK_SIZE_IN_TX : Z := BLOCK_SIZE / 500.
Definition MR_PRIME_ITERS : Z := 15.
Definition COINBASE_MATURITY : Z := 100.

(** ** Periodic checks *)
Record BackupCheck := mkBackupCheck { modulo_block_num : option Z }.

(** [current_block % modulo] panics when the modulo is zero. *)
Definition need_backup (c : BackupCheck) (current_block : Z) : outcome bool :=
  match modulo_block_num c with
  | Some modulo =>
      if current_block =? 0 then Ret false
      else if modulo =? 0 then Panic
      else Ret (current_block mod modulo =? 0)
  | None => Ret false
  end.

Record UtxoReAlignCheck := mkUtxoReAlignCheck { re_align_modulo_block_num : option Z }.

Definition need_check (c : UtxoReAlignCheck) (current_block : Z) : outcome bool :=
  match re_align_modulo_block_num c with
  | Some modulo =>
      if current_block =? 0 then Ret false
      else if modulo =? 0 then Panic
      else Ret (current_block mod modulo =? 0)
  | None => Ret false
  end.

(** ** Rewards *)
Section rewards.
Context `{Naom}.

Definition calculate_reward (current_circulation : TokenAmount) : TokenAmount :=
  Z.shiftr (wrap64 (TOTAL_TOKENS - current_circulation)) REWARD_ISSUANCE_VAL.

Definition get_total_coinbase_tokens (coinbase_tx : gmap string Transaction) : TokenAmount :=
  foldl (λ total tx_ind, token_add total (token_sum (map (λ x, token_amount (value x)) (outputs tx_ind))))
    0 (bt_values coinbase_tx).
End rewards.

(** ** Coinbase *)
Section coinbase.
Context `{NaomReceipts, NaomCoinbase}.

Definition construct_coinbase_tx (b_num : Z) (amount : TokenAmount) (address : string) : Transaction :=
  let tx_in := mkTxIn None (new_for_coinbase b_num) in
  let tx_out := mkTxOut (Token amount) (wrap64 (b_num + COINBASE_MATURITY)) None (Some address) in
  construct_tx_core [tx_in] [tx_out].
End coinbase.

(** ** Proof of work *)
Record PowInfo := mkPowInfo { participant_only : bool; pow_b_num : Z }.
Record ProofOfWork := mkProofOfWork { address : string; nonce : list Z }.

Section pow.
Context `{Naom, Hex, Bincode BlockHeader}.

Definition apply_mining_tx (h : BlockHeader) (nonce : list Z) (tx_hash : string) : BlockHeader :=
  h <| nonce_and_mining_tx_hash := (nonce, tx_hash) |>.

(** Slicing [0..mining_difficulty] panics when the hash is shorter. *)
Definition validate_pow_for_diff (mining_difficulty : nat) (pow : list Z) : outcome (option (list Z)) :=
  let pow_hash := sha3_256 pow in
  if decide (length pow_hash < mining_difficulty)%nat then Panic
  else if forallb (λ v, v =? 0) (take mining_difficulty pow_hash) then Ret (Some pow_hash)
  else Ret None.

Definition validate_pow (pow : list Z) : outcome (option (list Z)) :=
  validate_pow_for_diff MINING_DIFFICULTY pow.

Definition validate_pow_for_address (pow : ProofOfWork) (rand_num : option (list Z)) : outcome bool :=
  let pow_body := string_codes (address pow) ++ default [] rand_num ++ nonce pow in
  let! r := validate_pow pow_body in
  Ret (bool_decide (is_Some r)).

Definition validate_pow_block_hash (h : BlockHeader) : outcome (option (list Z)) :=
  validate_pow (serialize h).

Definition validate_pow_block (h : BlockHeader) : outcome bool :=
  let! r := validate_pow_block_hash h in Ret (bool_decide (is_Some r)).

Inductive StringError :=
  | InconsistentTransactions   (** "Transactions inconsistent with header" *)
  | InvalidPow.                (** "Only block passing validate_pow_block are accepted" *)

Definition construct_valid_block_pow_hash (block : Block) : outcome (StringError + string) :=
  if decide (build_hex_txs_hash (transactions block) ≠ (txs_merkle_root_and_hash (header block)).2)
  then Ret (inl InconsistentTransactions)
  else
    let! hash_digest := validate_pow_block_hash (header block) in
    match hash_digest with
    | None => Ret (inl InvalidPow)
    | Some d => Ret (inr (String (Ascii.ascii_of_N (Z.to_N BLOCK_PREPEND)) (hex_encode d)))
    end.
End pow.
Arguments validate_pow_block_hash : simpl never.

(** *** Searching

    The nonces are those drawn by [generate_pow_nonce], in order; [None] when
    they are used up: the search is still running. *)
Section search.
Context `{Naom, Bincode BlockHeader}.

Fixpoint generate_pow_for_block (nonces : list (list Z)) (h : BlockHeader) : outcome (option BlockHeader) :=
  match nonces with
  | [] => Ret None
  | nonce :: nonces =>
      let h := h <| nonce_and_mining_tx_hash ::= λ x, (nonce, x.2) |> in
      let! valid := validate_pow_block h in
      if valid : bool then Ret (Some h) else generate_pow_for_block nonces h
  end.

Fixpoint generate_pow_for_address_loop (nonces : list (list Z)) (address : string) (rand_num : option (list Z)) :
    outcome (option ProofOfWork) :=
  match nonces with
  | [] => Ret None
  | nonce :: nonces =>
      let pow := mkProofOfWork address nonce in
      let! valid := validate_pow_for_address pow rand_num in
      if valid : bool then Ret (Some pow) else generate_pow_for_address_loop nonces address rand_num
  end.
End search.

(** A task that blocks, with what it was started on, or what it came to: [None]
    when it panicked. *)
Inductive RunningTaskOrResult (I T : Type) :=
  | TaskNone
  | TaskRunning (input : I)
  | TaskCompleted (result : option T).
Arguments TaskNone {I T}. Arguments TaskRunning {I T}. Arguments TaskCompleted {I T}.

Definition completed_result {I T : Type} (t : RunningTaskOrResult I T) : option (option T) :=
  match t with TaskCompleted v => Some v | _ => None end.
Definition task_is_active {I T : Type} (t : RunningTaskOrResult I T) : bool :=
  match t with TaskRunning _ => true | _ => false end.

(** [wait]: [body] is what the task has come to so far; [None] while the wait
    lasts. *)
Definition task_wait {I T : Type} (body : I → outcome (option T)) (t : RunningTaskOrResult I T) :
    option (RunningTaskOrResult I T) :=
  match t with
  | TaskRunning input =>
      match body input with
      | Ret (Some v) => Some (TaskCompleted (Some v))
      | Ret None => None
      | Panic => Some (TaskCompleted None)
      end
  | _ => None
  end.

(** ** Strings

    [str::from_utf8] as a check, and [String::from_utf8]. *)
Definition is_cont (b : Z) : bool := (128 <=? b) && (b <=? 191).
Fixpoint valid_utf8 (l : list Z) : bool :=
  match l with
  | [] => true
  | a :: t =>
      if a <? 128 then valid_utf8 t
      else if (194 <=? a) && (a <=? 223) then
        match t with b :: t => is_cont b && valid_utf8 t | _ => false end
      else if (224 <=? a) && (a <=? 239) then
        match t with
        | b :: c :: t =>
            ((if a =? 224 then 160 else 128) <=? b) && (b <=? (if a =? 237 then 159 else 191)) &&
            is_cont c && valid_utf8 t
        | _ => false
        end
      else if (240 <=? a) && (a <=? 244) then
        match t with
        | b :: c :: d :: t =>
            ((if a =? 240 then 144 else 128) <=? b) && (b <=? (if a =? 244 then 143 else 191)) &&
            is_cont c && is_cont d && valid_utf8 t
        | _ => false
        end
      else false
  end.
Definition codes_to_string (l : list Z) : string :=
  String.string_of_list_ascii (map (λ z, Ascii.ascii_of_N (Z.to_N z)) l).
Definition from_utf8 (l : list Z) : option string := if valid_utf8 l then Some (codes_to_string l) else None.

Definition format_parition_pow_address `{Ipv6Display} (addr : SocketAddr) : string := addr_to_string addr.

(** ** Events of the process itself *)
Inductive LocalEvent := CoordinatedShutdown (b_num : Z) | ReconnectionComplete | Exit (reason : string) | Ignore.
Inductive ResponseResult := ResultExit | ResultContinue.

(** ** Keys in the configuration and in requests: what cannot be decoded is [None] *)
Section decode.
Context `{NaomReceipts}.
Definition decode_pub_key (key : string) : option (list Z) := hex_decode key ≫= public_key_from_slice.
Definition decode_signature (sig : string) : option (list Z) := hex_decode sig ≫= signature_from_slice.
Definition decode_secret_key `{!NaomSigning} (key : string) : option (list Z) := hex_decode key ≫= secret_key_from_slice.

Definition decode_pub_key_as_address `{!NaomSigning} (key : string) : outcome string :=
  let! k := unwrap (decode_pub_key key) in Ret (construct_address k).
End decode.

(** [str::parse::<i32>]: an optional sign, digits, and the range. *)
Fixpoint parse_digits (s : string) (acc : Z) : option Z :=
  match s with
  | EmptyString => Some acc
  | String c rest =>
      let d := Z.of_N (Ascii.N_of_ascii c) - 48 in
      if (0 <=? d) && (d <=? 9) then parse_digits rest (10 * acc + d) else None
  end.
Definition parse_i32 (s : string) : option Z :=
  let in_range (z : Z) := if (- 2 ^ 31 <=? z) && (z <? 2 ^ 31) then Some z else None in
  let digits (s : string) := match s with EmptyString => None | _ => parse_digits s 0 end in
  match s with
  | String "+"%char rest => digits rest ≫= in_range
  | String "-"%char rest => digits rest ≫= λ z, in_range (- z)
  | _ => digits s ≫= in_range
  end.

(** [str::parse::<u64>]: no sign but a plus. *)
Definition parse_u64 (s : string) : option Z :=
  let in_range (z : Z) := if z <? 2 ^ 64 then Some z else None in
  let digits (s : string) := match s with EmptyString => None | _ => parse_digits s 0 end in
  match s with
  | String "+"%char rest => digits rest ≫= in_range
  | _ => digits s ≫= in_range
  end.

(** [str::split]. *)
Fixpoint split_char (c : Ascii.ascii) (s : string) : string * list string :=
  match s with
  | EmptyString => (EmptyString, [])
  | String d rest =>
      let '(first, others) := split_char c rest in
      if Ascii.eqb c d then (EmptyString, first :: others) else (String d first, others)
  end.

(** "n-hash". *)
Definition decode_wallet_out_point (out_point : string) : outcome OutPoint :=
  let '(n, others) := split_char "-"%char out_point in
  let! n := unwrap (parse_i32 n) in
  let! tx_hash := unwrap (head others) in
  Ret (mkOutPoint tx_hash n).

(** ** The configured UTXO set

    The addresses computed so far are kept by public key. *)
Record TxOutSpec := mkTxOutSpec { ts_public_key : string; ts_amount : TokenAmount }.

Section seed.
Context `{NaomReceipts, NaomSigning}.

Definition seed_tx_out (acc : gmap string string * list TxOut) (out : TxOutSpec) :
    outcome (gmap string string * list TxOut) :=
  let '(pk_to_address, outs) := acc in
  let! r := match pk_to_address !! ts_public_key out with
            | Some addr => Ret (addr, pk_to_address)
            | None =>
                let! addr := decode_pub_key_as_address (ts_public_key out) in
                Ret (addr, <[ts_public_key out := addr]> pk_to_address)
            end in
  Ret (r.2, outs ++ [new_token_amount r.1 (ts_amount out)]).

Definition seed_tx (genesis_tx_in : option TxIn) (acc : gmap string string * gmap string Transaction)
    (entry : string * list TxOutSpec) : outcome (gmap string string * gmap string Transaction) :=
  let! r := ofold seed_tx_out (acc.1, []) entry.2 in
  let tx := mkTransaction (option_list genesis_tx_in) r.2 (tx_version Transaction_default) (druid_info Transaction_default) in
  Ret (r.1, <[entry.1 := tx]> acc.2).

Definition make_utxo_set_from_seed (seed : gmap string (list TxOutSpec)) (tx_in_str : option string) :
    outcome (gmap string Transaction) :=
  let genesis_tx_in := (λ tx_in, mkTxIn None (mkScript [Bytes tx_in])) <$> tx_in_str in
  let! r := ofold (seed_tx genesis_tx_in) (∅, ∅) (bt_iter seed) in
  Ret r.2.
End seed.

(** ** Iterators over transactions and the UTXO set *)
Section pks.
Context `{Naom}.

Definition spk_entry (p : OutPoint * TxOut) : option (string * OutPoint) :=
  (λ spk, (spk, p.1)) <$> script_public_key p.2.

Definition get_pk_with_out_point (txs : list (string * Transaction)) : list (string * OutPoint) :=
  omap spk_entry (get_tx_out_with_out_point txs).

Definition get_pk_with_out_point_cloned (txs : list (string * Transaction)) : list (string * OutPoint) :=
  map (λ '(spk, op), (spk, op)) (get_pk_with_out_point txs).

Definition get_pk_with_out_point_from_utxo_set (utxo_set : list (OutPoint * TxOut)) : list (string * OutPoint) :=
  omap spk_entry utxo_set.

Definition get_pk_with_out_point_from_utxo_set_cloned (utxo_set : list (OutPoint * TxOut)) : list (string * OutPoint) :=
  map (λ '(spk, op), (spk, op)) (get_pk_with_out_point_from_utxo_set utxo_set).

(** A missing script key panics. *)
Fixpoint get_paiments_for_wallet_from_utxo (utxos : list (OutPoint * TxOut))
    : outcome (list (OutPoint * Asset * string * Z)) :=
  match utxos with
  | [] => Ret []
  | (out_p, tx_out) :: rest =>
      let! spk := unwrap (script_public_key tx_out) in
      let! tl := get_paiments_for_wallet_from_utxo rest in
      Ret ((out_p, value tx_out, spk, locktime tx_out) :: tl)
  end.

Definition get_paiments_for_wallet (txs : list (string * Transaction))
    : outcome (list (OutPoint * Asset * string * Z)) :=
  get_paiments_for_wallet_from_utxo (get_tx_out_with_out_point_cloned txs).
End pks.

Definition concat_maps {K V : Type} `{OrdKey K} (m1 m2 : gmap K V) : gmap K V :=
  map_extend ∅ (map (λ '(k, v), (k, v)) (bt_iter m1 ++ bt_iter m2)).

(** ** Lemmas *)
Lemma map_pair_id {A B : Type} (l : list (A * B)) : map (λ '(a, b), (a, b)) l = l.
Proof. induction l as [|[a b] l IH]; cbn; [done|]. by rewrite IH. Qed.

Section reward_lemmas.
Context `{NaomLaws}.

Lemma calculate_reward_bounds c :
  0 ≤ c ≤ TOTAL_TOKENS → 0 ≤ calculate_reward c ≤ TOTAL_TOKENS - c.
Proof.
  intros Hc. unfold calculate_reward. pose proof TOTAL_TOKENS_range as [? ?].
  rewrite wrap64_id by (unfold is_u64 in *; lia).
  rewrite Z.shiftr_div_pow2 by (unfold REWARD_ISSUANCE_VAL; lia).
  split; [apply Z.div_pos; unfold REWARD_ISSUANCE_VAL; lia|].
  apply Z.div_le_upper_bound; unfold REWARD_ISSUANCE_VAL; lia.
Qed.

Lemma calculate_reward_decreasing c1 c2 :
  0 ≤ c1 → c1 ≤ c2 ≤ TOTAL_TOKENS → calculate_reward c2 ≤ calculate_reward c1.
Proof.
  intros H1 H2. unfold calculate_reward. pose proof TOTAL_TOKENS_range as [? ?].
  rewrite !wrap64_id by (unfold is_u64 in *; lia).
  rewrite !Z.shiftr_div_pow2 by (unfold REWARD_ISSUANCE_VAL; lia).
  apply Z.div_le_mono; unfold REWARD_ISSUANCE_VAL; lia.
Qed.
End reward_lemmas.

Section pow_lemmas.
Context `{NaomLaws, Hex, Bincode BlockHeader}.

Lemma validate_pow_ret pow : ∃ r, validate_pow pow = Ret r.
Proof.
  unfold validate_pow, validate_pow_for_diff. rewrite sha3_256_length.
  rewrite decide_False by (unfold MINING_DIFFICULTY; lia). case_match; eauto.
Qed.

Lemma validate_pow_block_hash_ret h : ∃ r, validate_pow_block_hash h = Ret r.
Proof. apply validate_pow_ret. Qed.
End pow_lemmas.

Lemma elem_of_omap_spk (l : list (OutPoint * TxOut)) spk op :
  (spk, op) ∈ omap spk_entry l ↔ ∃ o, (op, o) ∈ l ∧ script_public_key o = Some spk.
Proof.
  rewrite list_elem_of_omap. split.
  - intros ([op' o] & Hin & Hs). unfold spk_entry in Hs. cbn in Hs.
    apply fmap_Some in Hs as (s & Hs & [= -> ->]). eauto.
  - intros (o & Hin & Hs). exists (op, o). split; [done|]. unfold spk_entry. cbn. by rewrite Hs.
Qed.

Lemma lookup_concat_maps {K V : Type} `{OrdKey K} (m1 m2 : gmap K V) k :
  concat_maps m1 m2 !! k = (m2 ∪ m1) !! k.
Proof.
  unfold concat_maps. rewrite map_pair_id. unfold map_extend. rewrite foldl_app.
  change (map_extend (map_extend ∅ (bt_iter m1)) (bt_iter m2) !! k = (m2 ∪ m1) !! k).
  rewrite lookup_union.
  assert (Hall : ∀ (m m' : gmap K V), map_extend m' (bt_iter m) !! k = (m ∪ m') !! k).
  { intros m m'. rewrite lookup_union. destruct (m !! k) as [v|] eqn:Hk.
    - rewrite (lookup_map_extend_NoDup _ _ _ v); [by destruct (m' !! k)|apply bt_keys_NoDup|].
      by apply elem_of_bt_iter.
    - rewrite lookup_map_extend_ne; [by destruct (m' !! k)|].
      intros Hin. apply elem_of_bt_keys in Hin. rewrite Hk in Hin. by apply is_Some_None in Hin. }
  rewrite Hall, lookup_union, Hall, lookup_union, lookup_empty. by destruct (m2 !! k), (m1 !! k).
Qed.
