(* ===== verification/TrackedUtxo.v ===== *)
(** * The tracked UTXO set of [src/tracked_utxo.rs]

    A UTXO set together with a cache from script keys to the outpoints they
    own.  [cache_exact] is the invariant the source states on the struct;
    [cache_sound] is the half of it that every operation keeps. *)
From S2P Require Import Prelude Externals Utils.

Record OutPointData := mkOutPointData { out_point : OutPoint; od_value : Asset }.

Record TrackedUtxoSet := mkTrackedUtxoSet {
  base : gmap OutPoint TxOut;
  pk_cache : gmap string (gset OutPoint);
}.
#[export] Instance eta_TrackedUtxoSet : Eta TrackedUtxoSet := λ r, mkTrackedUtxoSet (base r) (pk_cache r).

Definition extend_pk_cache_vec (pk_cache : gmap string (gset OutPoint)) (spk : list (string * OutPoint))
    : gmap string (gset OutPoint) :=
  foldl (λ c '(spk, op), <[spk := {[op]} ∪ default ∅ (c !! spk)]> c) pk_cache spk.

Definition create_pk_cache_from_base (base : gmap OutPoint TxOut) : gmap string (gset OutPoint) :=
  extend_pk_cache_vec ∅ (get_pk_with_out_point_from_utxo_set_cloned (bt_iter base)).

Definition TrackedUtxoSet_new (base : gmap OutPoint TxOut) : TrackedUtxoSet :=
  mkTrackedUtxoSet base (create_pk_cache_from_base base).

Definition re_align (s : TrackedUtxoSet) : TrackedUtxoSet :=
  s <| pk_cache := create_pk_cache_from_base (base s) |>.

Definition get_base_outpoint_count (s : TrackedUtxoSet) : Z := zsize (base s).

Definition get_tracked_outpoint_count (s : TrackedUtxoSet) : Z :=
  foldr Z.add 0 (map zcard (bt_values (pk_cache s))).

Definition into_utxoset (s : TrackedUtxoSet) : gmap OutPoint TxOut := base s.

Definition get_pk_cache_vec (s : TrackedUtxoSet) (key : string) : option (gset OutPoint) :=
  pk_cache s !! key.

(** The result is [None] unless an outpoint was removed together with an entry
    of the cache; the base has lost the outpoint in every case. *)
Definition remove_tracked_utxo_entry (s : TrackedUtxoSet) (key : OutPoint)
    : TrackedUtxoSet * option OutPoint :=
  match base s !! key with
  | None => (s, None)
  | Some tx_out =>
      let s := s <| base ::= delete key |> in
      match script_public_key tx_out with
      | None => (s, None)
      | Some spk =>
          match pk_cache s !! spk with
          | None => (s, None)
          | Some entry =>
              let entry := filter (λ op, t_hash op ≠ t_hash key ∧ op_n op ≠ op_n key) entry in
              if decide (entry = ∅) then (s <| pk_cache ::= delete spk |>, Some key)
              else (s <| pk_cache ::= <[spk := entry]> |>, Some key)
          end
      end
  end.

Definition get_all_addresses (s : TrackedUtxoSet) : list string :=
  omap (λ p, script_public_key p.2) (bt_iter (base s)).

Section tracked.
Context `{Naom}.

Definition extend_tracked_utxo_set (s : TrackedUtxoSet) (block_tx : gmap string Transaction)
    : TrackedUtxoSet :=
  mkTrackedUtxoSet
    (map_extend (base s) (get_tx_out_with_out_point_cloned (bt_iter block_tx)))
    (extend_pk_cache_vec (pk_cache s) (get_pk_with_out_point_cloned (bt_iter block_tx))).

Record TrackedUtxoBalance := mkTrackedUtxoBalance {
  total : AssetValues;
  address_list : gmap string (list OutPointData);
}.

(** The accumulator of the two loops of [get_balance_for_addresses]. *)
Definition balance_acc : Type := gmap string (list OutPointData) * AssetValues * gset OutPoint.

Definition balance_op (s : TrackedUtxoSet) (addr : string) (acc : balance_acc) (op : OutPoint)
    : outcome balance_acc :=
  let '(address_list, total, known_op) := acc in
  if decide (op ∈ known_op) then Ret acc
  else
    let! t_out := unwrap (base s !! op) in
    let asset := with_fixed_hash (value t_out) op in
    Ret (<[addr := default [] (address_list !! addr) ++ [mkOutPointData op asset]]> address_list,
         update_add total asset, {[op]} ∪ known_op).

Definition balance_addr (s : TrackedUtxoSet) (acc : balance_acc) (addr : string) : outcome balance_acc :=
  match get_pk_cache_vec s addr with
  | Some ops => ofold (balance_op s addr) acc (bt_elems ops)
  | None => Ret acc
  end.

Definition get_balance_for_addresses (s : TrackedUtxoSet) (addresses : list string)
    : outcome TrackedUtxoBalance :=
  let! acc := ofold (balance_addr s) (∅, AssetValues_default, ∅) addresses in
  Ret (mkTrackedUtxoBalance acc.1.2 acc.1.1).
End tracked.

(** ** The cache invariant *)
Definition cached (s : TrackedUtxoSet) (spk : string) : gset OutPoint := default ∅ (pk_cache s !! spk).

Definition owned (m : gmap OutPoint TxOut) (spk : string) (op : OutPoint) : Prop :=
  ∃ o, m !! op = Some o ∧ script_public_key o = Some spk.

Definition cache_sound (s : TrackedUtxoSet) : Prop :=
  ∀ spk op, op ∈ cached s spk → owned (base s) spk op.

Record cache_exact (s : TrackedUtxoSet) : Prop := {
  exact_owned spk op : op ∈ cached s spk ↔ owned (base s) spk op;
  exact_nonempty spk : pk_cache s !! spk ≠ Some ∅;
}.

Lemma cache_exact_sound s : cache_exact s → cache_sound s.
Proof. intros [He _] spk op. apply He. Qed.
#[export] Hint Resolve cache_exact_sound : znp.

Lemma elem_of_extend_pk_cache_vec c l spk op :
  op ∈ default ∅ (extend_pk_cache_vec c l !! spk) ↔ (spk, op) ∈ l ∨ op ∈ default ∅ (c !! spk).
Proof.
  revert c; induction l as [|[spk' op'] l IH]; intros c; cbn.
  - rewrite elem_of_nil. naive_solver.
  - unfold extend_pk_cache_vec in IH. rewrite IH, elem_of_cons.
    destruct (decide (spk' = spk)) as [->|Hne].
    + rewrite lookup_insert_eq. cbn. set_solver.
    + rewrite lookup_insert_ne by done. naive_solver.
Qed.

Lemma extend_pk_cache_vec_nonempty c l spk :
  (∀ spk, c !! spk ≠ Some ∅) → extend_pk_cache_vec c l !! spk ≠ Some ∅.
Proof.
  revert c; induction l as [|[spk' op'] l IH]; intros c Hc; cbn; [apply Hc|].
  apply IH. intros spk''. rewrite lookup_insert. case_decide; [|apply Hc].
  intros [= E]. set_solver.
Qed.

Lemma create_pk_cache_exact b : cache_exact (TrackedUtxoSet_new b).
Proof.
  split; cbn.
  - intros spk op. unfold cached; cbn. unfold create_pk_cache_from_base,
      get_pk_with_out_point_from_utxo_set_cloned, get_pk_with_out_point_from_utxo_set.
    rewrite elem_of_extend_pk_cache_vec, map_pair_id, elem_of_omap_spk.
    setoid_rewrite elem_of_bt_iter. rewrite lookup_empty. cbn. unfold owned. set_solver.
  - intros spk. apply extend_pk_cache_vec_nonempty. intros ?. by rewrite lookup_empty.
Qed.

Lemma re_align_new s : re_align s = TrackedUtxoSet_new (base s).
Proof. done. Qed.

Lemma owned_cases m op : (∃ spk, owned m spk op) ∨ (∀ spk, ¬ owned m spk op).
Proof.
  destruct (m !! op) as [o|] eqn:Hm; [|right; intros spk (o & ? & _); congruence].
  destruct (script_public_key o) as [spk|] eqn:Hs; [left; exists spk, o; done|].
  right. intros spk (o' & ? & ?). congruence.
Qed.

Lemma owned_functional m spk spk' op : owned m spk op → owned m spk' op → spk = spk'.
Proof. intros (? & ? & ?) (? & ? & ?). congruence. Qed.

(** ** Removal *)
Section remove.
Context (s : TrackedUtxoSet) (key : OutPoint).

Definition keeps (op : OutPoint) : Prop := t_hash op ≠ t_hash key ∧ op_n op ≠ op_n key.

Lemma remove_base : base (remove_tracked_utxo_entry s key).1 = delete key (base s).
Proof.
  unfold remove_tracked_utxo_entry. destruct (base s !! key) as [o|] eqn:Hk; cbn.
  - repeat case_match; done.
  - by rewrite delete_id.
Qed.

Lemma remove_unowned :
  (∀ spk, ¬ owned (base s) spk key) →
  pk_cache (remove_tracked_utxo_entry s key).1 = pk_cache s.
Proof.
  intros Hno. unfold remove_tracked_utxo_entry.
  destruct (base s !! key) as [o|] eqn:Hk; [cbn|done].
  destruct (script_public_key o) as [spk|] eqn:Hspk; [|done].
  exfalso. apply (Hno spk). by exists o.
Qed.

Lemma remove_cached spk spk' :
  owned (base s) spk key →
  cached (remove_tracked_utxo_entry s key).1 spk' =
    if decide (spk' = spk) then filter keeps (cached s spk) else cached s spk'.
Proof.
  intros (o & Hk & Hspk). unfold remove_tracked_utxo_entry, cached. rewrite Hk, Hspk. cbn.
  destruct (pk_cache s !! spk) as [e|] eqn:He; cbn.
  - case_decide as Hempty; cbn.
    + case_decide; subst; [rewrite lookup_delete_eq; symmetry; exact Hempty|by rewrite lookup_delete_ne].
    + case_decide; subst; [by rewrite lookup_insert_eq|by rewrite lookup_insert_ne].
  - case_decide; subst; [|done]. rewrite He. cbn. set_solver.
Qed.

Lemma remove_nonempty :
  (∀ spk, pk_cache s !! spk ≠ Some ∅) →
  ∀ spk, pk_cache (remove_tracked_utxo_entry s key).1 !! spk ≠ Some ∅.
Proof.
  intros Hne spk. unfold remove_tracked_utxo_entry.
  destruct (base s !! key) as [o|]; [cbn|apply Hne].
  destruct (script_public_key o) as [spk'|]; [cbn|apply Hne].
  destruct (pk_cache s !! spk'); [cbn|apply Hne].
  destruct (decide _); cbn.
  - rewrite lookup_delete. case_decide; [discriminate|apply Hne].
  - rewrite lookup_insert. case_decide; [congruence|apply Hne].
Qed.

Lemma remove_sound_aux : cache_sound s → cache_sound (remove_tracked_utxo_entry s key).1.
Proof.
  intros Hs spk op Hin. unfold owned. rewrite remove_base.
  destruct (owned_cases (base s) key) as [[spk' Ho]|Hno].
  - rewrite (remove_cached _ _ Ho) in Hin. case_decide; subst.
    + apply elem_of_filter in Hin as [[Hk _] Hin]. destruct (Hs _ _ Hin) as (o & ? & ?).
      exists o. split; [|done]. rewrite lookup_delete_ne; congruence.
    + destruct (Hs _ _ Hin) as (o & Hb & Hsp). exists o. split; [|done].
      rewrite lookup_delete_ne; [done|]. intros <-. destruct Ho as (? & ? & ?). congruence.
  - unfold cached in Hin. rewrite remove_unowned in Hin by done.
    destruct (Hs _ _ Hin) as (o & Hb & Hsp). exists o. split; [|done].
    rewrite lookup_delete_ne; [done|]. intros <-. apply (Hno spk). by exists o.
Qed.
End remove.

Lemma owned_delete m key spk op :
  owned (delete key m) spk op ↔ owned m spk op ∧ op ≠ key.
Proof.
  unfold owned. setoid_rewrite lookup_delete_Some. naive_solver.
Qed.

(** ** Extension *)
Section extend.
Context `{NaomLaws}.
Implicit Types (s : TrackedUtxoSet) (block_tx : gmap string Transaction).

(** The outputs a block adds, in order. *)
Definition block_outs block_tx : list (OutPoint * TxOut) :=
  get_tx_out_with_out_point (bt_iter block_tx).

(** The outputs are new and listed once: their outpoints carry the hash of
    the transaction that creates them. *)
Definition outs_fresh s block_tx : Prop :=
  NoDup (block_outs block_tx).*1 ∧ ∀ op, op ∈ (block_outs block_tx).*1 → base s !! op = None.

Lemma extend_base_lookup s block_tx op o :
  NoDup (block_outs block_tx).*1 →
  base (extend_tracked_utxo_set s block_tx) !! op = Some o ↔
    (op, o) ∈ block_outs block_tx ∨ (op ∉ (block_outs block_tx).*1 ∧ base s !! op = Some o).
Proof.
  intros Hnd. cbn. rewrite cloned_same. fold (block_outs block_tx).
  destruct (decide (op ∈ (block_outs block_tx).*1)) as [Hin|Hin].
  - apply list_elem_of_fmap in Hin as ([op' o'] & -> & Hin). cbn.
    rewrite (lookup_map_extend_NoDup _ _ _ o') by done. split.
    + intros [= ->]. by left.
    + intros [Hin'|[Hn _]].
      * f_equal. by eapply NoDup_fst_inj.
      * exfalso. apply Hn, list_elem_of_fmap. by exists (op', o').
  - rewrite lookup_map_extend_ne by done. split; [by right|].
    intros [Hin'|[_ ?]]; [|done]. exfalso. apply Hin, list_elem_of_fmap. by exists (op, o).
Qed.

Lemma extend_cached s block_tx spk op :
  op ∈ cached (extend_tracked_utxo_set s block_tx) spk ↔
    (∃ o, (op, o) ∈ block_outs block_tx ∧ script_public_key o = Some spk) ∨ op ∈ cached s spk.
Proof.
  unfold cached; cbn. unfold get_pk_with_out_point_cloned, get_pk_with_out_point.
  by rewrite elem_of_extend_pk_cache_vec, map_pair_id, elem_of_omap_spk.
Qed.
End extend.

(** ** Balances *)
Section balance.
Context `{NaomLaws}.
Context (s : TrackedUtxoSet).

Definition listed (al : gmap string (list OutPointData)) (addr : string) (d : OutPointData) : Prop :=
  d ∈ default [] (al !! addr).

(** What holds of the accumulator whatever has been processed. *)
Record balance_ok (acc : balance_acc) : Prop := {
  ok_known op : op ∈ acc.2 ↔ ∃ addr d, listed acc.1.1 addr d ∧ out_point d = op;
  ok_cached addr d : listed acc.1.1 addr d → out_point d ∈ cached s addr;
  ok_value addr d : listed acc.1.1 addr d →
    ∃ o, base s !! out_point d = Some o ∧ od_value d = with_fixed_hash (value o) (out_point d);
  ok_nodup addr : NoDup (map out_point (default [] (acc.1.1 !! addr)));
}.

Lemma listed_insert al addr l addr' d :
  listed (<[addr := l]> al) addr' d ↔ if decide (addr = addr') then d ∈ l else listed al addr' d.
Proof. unfold listed. rewrite lookup_insert. by case_decide. Qed.

Lemma listed_map al addr op : op ∈ map out_point (default [] (al !! addr)) ↔
  ∃ d, listed al addr d ∧ out_point d = op.
Proof. rewrite list_elem_of_fmap. unfold listed. naive_solver. Qed.

Lemma balance_op_ok addr acc op :
  cache_sound s → balance_ok acc → op ∈ cached s addr →
  ∃ acc', balance_op s addr acc op = Ret acc' ∧ balance_ok acc' ∧ op ∈ acc'.2 ∧
    (∀ addr' d, listed acc'.1.1 addr' d ↔
       listed acc.1.1 addr' d ∨ (addr' = addr ∧ op ∉ acc.2 ∧ listed acc'.1.1 addr' d ∧ out_point d = op)).
Proof.
  intros Hs Hok Hop. destruct acc as [[al tot] known]. unfold balance_op.
  destruct (decide (op ∈ known)) as [Hin|Hin].
  { eexists; split; [done|]. split; [done|]. split; [done|]. cbn. naive_solver. }
  destruct (Hs _ _ Hop) as (o & Hb & Hspk). rewrite Hb. cbn.
  set (d0 := mkOutPointData op (with_fixed_hash (value o) op)).
  assert (Hnew : ∀ addr' d, listed (<[addr:=default [] (al !! addr) ++ [d0]]> al) addr' d ↔
      listed al addr' d ∨ (addr' = addr ∧ d = d0)).
  { intros addr' d. rewrite listed_insert. case_decide; subst; [|naive_solver].
    rewrite elem_of_app, list_elem_of_singleton. unfold listed. naive_solver. }
  destruct Hok as [Hk Hc Hv Hn]; cbn in *.
  eexists; split; [reflexivity|]. split; [|split].
  - split; cbn.
    + intros op'. rewrite elem_of_union, elem_of_singleton, Hk. setoid_rewrite Hnew.
      split; [|naive_solver]. intros [->|?]; [|naive_solver]. exists addr, d0. auto.
    + intros addr' d. rewrite Hnew. intros [?|[-> ->]]; auto.
    + intros addr' d. rewrite Hnew. intros [?|[-> ->]]; eauto.
    + intros addr'. rewrite lookup_insert. case_decide; subst; [cbn|auto].
      rewrite map_app, NoDup_app. split; [auto|]. split; [|cbn; apply NoDup_singleton].
      intros op' Hop'. cbn. rewrite list_elem_of_singleton. intros ->.
      apply Hin, Hk. apply listed_map in Hop'. naive_solver.
  - cbn. set_solver.
  - cbn. intros addr' d. rewrite Hnew. naive_solver.
Qed.

Lemma balance_addr_ok acc addr :
  cache_sound s → balance_ok acc →
  ∃ acc', balance_addr s acc addr = Ret acc' ∧ balance_ok acc' ∧ acc.2 ⊆ acc'.2 ∧
    (∀ op, op ∈ cached s addr → op ∈ acc'.2) ∧
    (∀ addr' d, listed acc'.1.1 addr' d → listed acc.1.1 addr' d ∨ addr' = addr).
Proof.
  intros Hs Hok. unfold balance_addr, get_pk_cache_vec.
  destruct (pk_cache s !! addr) as [ops|] eqn:Ho.
  2:{ exists acc. unfold cached; rewrite Ho; cbn. split; [done|]. set_solver. }
  assert (Hc : ∀ op, op ∈ bt_elems ops ↔ op ∈ cached s addr).
  { intros op. rewrite elem_of_bt_elems. unfold cached. by rewrite Ho. }
  destruct (ofold_ind (balance_op s addr) (λ pre acc', balance_ok acc' ∧ acc.2 ⊆ acc'.2 ∧
      (∀ op, op ∈ pre → op ∈ acc'.2) ∧
      (∀ addr' d, listed acc'.1.1 addr' d → listed acc.1.1 addr' d ∨ addr' = addr))
      (bt_elems ops) acc) as (acc' & ? & ? & ? & ? & ?).
  - split; [done|]. set_solver.
  - intros pre op a Hop (Ha & Hsub & Hpre & Hl).
    destruct (balance_op_ok addr a op Hs Ha) as (a' & ? & Ha' & ? & Hl'); [by apply Hc|].
    assert (a.2 ⊆ a'.2).
    { intros op' (addr' & d & Hd & <-)%(ok_known _ Ha). apply (ok_known _ Ha').
      exists addr', d. rewrite Hl'. auto. }
    exists a'. split; [done|]. split; [done|]. split; [set_solver|]. split; [set_solver|].
    intros addr' d Hd. apply Hl' in Hd. naive_solver.
  - exists acc'. split; [done|]. split; [done|]. split; [done|]. split; [|done].
    intros op Hop. apply Hc in Hop. auto.
Qed.

Lemma balance_empty_ok : balance_ok (∅, AssetValues_default, ∅).
Proof.
  assert (Hl : ∀ addr d, ¬ listed ∅ addr d)
    by (intros addr d; unfold listed; rewrite lookup_empty; cbn; apply not_elem_of_nil).
  split; cbn; try (intros; exfalso; naive_solver).
  - intros op. split; [set_solver|]. intros (addr & d & Hd & _). destruct (Hl _ _ Hd).
  - intros addr. rewrite lookup_empty. constructor.
Qed.
End balance.

(** On a set whose cache lists only outpoints that the base maps to the
    same key, a balance query never panics; it lists, under a requested
    address, exactly cached outpoints of that address, each once and with the
    asset the base holds, and it misses no cached outpoint of a requested
    address. *)
Theorem balance_correct `{NaomLaws} (s : TrackedUtxoSet) (addresses : list string) :
  cache_sound s →
  ∃ b, get_balance_for_addresses s addresses = Ret b ∧
    (∀ addr d, listed (address_list b) addr d →
       addr ∈ addresses ∧ out_point d ∈ cached s addr ∧
       ∃ o, base s !! out_point d = Some o ∧ od_value d = with_fixed_hash (value o) (out_point d)) ∧
    (∀ addr op, addr ∈ addresses → op ∈ cached s addr →
       ∃ d, listed (address_list b) addr d ∧ out_point d = op) ∧
    (∀ addr, NoDup (map out_point (default [] (address_list b !! addr)))).
Proof.
  intros Hs. unfold get_balance_for_addresses.
  destruct (ofold_ind (balance_addr s) (λ pre acc, balance_ok s acc ∧
      (∀ addr op, addr ∈ pre → op ∈ cached s addr → op ∈ acc.2) ∧
      (∀ addr d, listed acc.1.1 addr d → addr ∈ pre)) addresses
      (∅, AssetValues_default, ∅)) as (acc & -> & Hok & Hall & Hl).
  - split; [apply balance_empty_ok|]. split; [intros ? ? ?%elem_of_nil; done|].
    intros addr d. unfold listed; cbn. rewrite lookup_empty; cbn. by intros ?%elem_of_nil.
  - intros pre addr a _ (Ha & Hpre & Hl).
    destruct (balance_addr_ok s a addr Hs Ha) as (a' & ? & Ha' & Hsub & Hc & Hl').
    exists a'. split; [done|]. split; [done|]. setoid_rewrite elem_of_app.
    setoid_rewrite list_elem_of_singleton. split.
    + intros addr' op [?| ->] ?; [apply Hsub|]; eauto.
    + intros addr' d Hd. destruct (Hl' _ _ Hd) as [?|E]; eauto.
  - cbn. eexists; split; [reflexivity|]. cbn. destruct Hok as [Hk Hc Hv Hn].
    split; [naive_solver|]. split; [|done].
    intros addr op Haddr Hop. destruct (proj1 (Hk op)) as (addr' & d & Hd & <-); [eauto|].
    replace addr with addr'; [eauto|].
    eapply owned_functional; [apply Hs, Hc, Hd|by apply Hs].
Qed.

(** ** The operations and the invariant *)

(** Removing an owned outpoint keeps the cache exact if and only if no
    other outpoint of the same key shares its transaction hash or its output
    index: the code drops every such outpoint from the cache although it stays
    in the base. *)
Theorem remove_exact_iff (s : TrackedUtxoSet) (key : OutPoint) (spk : string) :
  cache_exact s → owned (base s) spk key →
  cache_exact (remove_tracked_utxo_entry s key).1 ↔
    ∀ op, owned (base s) spk op → op ≠ key → t_hash op ≠ t_hash key ∧ op_n op ≠ op_n key.
Proof.
  intros [He Hne] Ho. split.
  - intros [He' _] op Hop Hop'.
    assert (Hin : op ∈ cached (remove_tracked_utxo_entry s key).1 spk).
    { apply He'. by rewrite remove_base, owned_delete. }
    rewrite (remove_cached _ _ _ _ Ho), decide_True in Hin by done.
    by apply elem_of_filter in Hin as [? _].
  - intros Hall. split; [|by apply remove_nonempty].
    intros spk' op. rewrite (remove_cached _ _ _ _ Ho), remove_base, owned_delete, <-He.
    case_decide as E; [subst spk'|].
    + rewrite elem_of_filter. unfold keeps. rewrite He. split; [|naive_solver].
      intros [[? _] ?]. split; [done|congruence].
    + split; [|naive_solver]. intros Hop. split; [done|]. intros ->. apply E.
      eapply owned_functional; [by apply He|done].
Qed.

Lemma remove_sound (s : TrackedUtxoSet) (key : OutPoint) :
  cache_sound s → cache_sound (remove_tracked_utxo_entry s key).1.
Proof. apply remove_sound_aux. Qed.

(** Adding the outputs of a block whose outpoints are new keeps the cache
    exact. *)
Theorem extend_exact `{NaomLaws} (s : TrackedUtxoSet) (block_tx : gmap string Transaction) :
  cache_exact s → outs_fresh s block_tx → cache_exact (extend_tracked_utxo_set s block_tx).
Proof.
  intros [He Hne] [Hnd Hf]. split.
  - intros spk op. rewrite extend_cached, He. unfold owned.
    setoid_rewrite extend_base_lookup; [|done]. split.
    + intros [(o & ? & ?)|(o & Hb & ?)]; [exists o; auto|]. exists o. split; [|done].
      right. split; [|done]. intros Hin. specialize (Hf _ Hin). congruence.
    + naive_solver.
  - cbn. intros spk. by apply extend_pk_cache_vec_nonempty.
Qed.

Lemma extend_sound `{NaomLaws} (s : TrackedUtxoSet) (block_tx : gmap string Transaction) :
  cache_sound s → outs_fresh s block_tx → cache_sound (extend_tracked_utxo_set s block_tx).
Proof.
  intros Hs [Hnd Hf] spk op Hin%extend_cached. unfold owned.
  setoid_rewrite extend_base_lookup; [|done].
  destruct Hin as [(o & ? & ?)|Hin]; [exists o; auto|].
  destruct (Hs _ _ Hin) as (o & Hb & ?). exists o. split; [|done].
  right. split; [|done]. intros Hi. specialize (Hf _ Hi). congruence.
Qed.

(** The sets the compute node can hold: built from a base, then changed by
    blocks with new outpoints, spends and re-alignments. *)
Inductive utxo_reachable `{Naom} : TrackedUtxoSet → Prop :=
  | reach_new b : utxo_reachable (TrackedUtxoSet_new b)
  | reach_extend s block_tx : utxo_reachable s → outs_fresh s block_tx →
      utxo_reachable (extend_tracked_utxo_set s block_tx)
  | reach_remove s key : utxo_reachable s → utxo_reachable (remove_tracked_utxo_entry s key).1
  | reach_re_align s : utxo_reachable s → utxo_reachable (re_align s).

(** C38: in every reachable tracked set each cached outpoint is in the base
    under the same key, and re-alignment makes the cache exact again. *)
Theorem reachable_sound `{NaomLaws} (s : TrackedUtxoSet) :
  utxo_reachable s → cache_sound s ∧ cache_exact (re_align s).
Proof.
  intros Hr. split; [|rewrite re_align_new; apply create_pk_cache_exact].
  induction Hr; auto using extend_sound, remove_sound.
  - apply cache_exact_sound, create_pk_cache_exact.
  - rewrite re_align_new. apply cache_exact_sound, create_pk_cache_exact.
Qed.

(** ** Concrete runs *)
Module TrackedUtxoExamples.
Import TestExternals.
Open Scope string_scope.
Definition out (k : string) (v : Z) : TxOut := mkTxOut (Token v) 0 None (Some k).
(** One payment with two outputs to the same key. *)
Definition two_outs : gmap OutPoint TxOut :=
  {[ mkOutPoint "tx" 0 := out "alice" 3; mkOutPoint "tx" 1 := out "alice" 4 ]}.
Definition s0 := TrackedUtxoSet_new two_outs.
Definition pay : gmap string Transaction := {[ "tx2" := mkTransaction [] [out "bob" 2] 1 None ]}.

Lemma remove_exact_iff_witness :
  ¬ cache_exact (remove_tracked_utxo_entry s0 (mkOutPoint "tx" 0)).1.
Proof.
  assert (Ho : owned (base s0) "alice" (mkOutPoint "tx" 0)) by (eexists; split; reflexivity).
  intros Hx. destruct (proj1 (remove_exact_iff s0 (mkOutPoint "tx" 0) "alice"
    (create_pk_cache_exact two_outs) Ho) Hx (mkOutPoint "tx" 1)) as [Hh _];
    [eexists; split; reflexivity|discriminate|]. by apply Hh.
Defined.

(** Spending one of two outputs loses the other one: it stays in the base
    and the balance of the key reads zero. *)
Example remove_loses_output :
  let s := (remove_tracked_utxo_entry s0 (mkOutPoint "tx" 0)).1 in
  base s !! mkOutPoint "tx" 1 = Some (out "alice" 4) ∧
  (let! b := get_balance_for_addresses s ["alice"] in Ret (address_list b)) = Ret ∅.
Proof. vm_compute. split; reflexivity. Qed.

Lemma pay_fresh : outs_fresh s0 pay.
Proof.
  assert (Ho : (block_outs pay).*1 = [mkOutPoint "tx2" 0]) by (vm_compute; reflexivity).
  unfold outs_fresh. rewrite Ho. split; [apply NoDup_singleton|].
  intros op ->%list_elem_of_singleton. vm_compute. reflexivity.
Qed.

Lemma extend_exact_witness : cache_exact (extend_tracked_utxo_set s0 pay).
Proof. apply extend_exact; [apply create_pk_cache_exact|apply pay_fresh]. Defined.

Lemma reachable_sound_witness :
  cache_sound (remove_tracked_utxo_entry (extend_tracked_utxo_set s0 pay) (mkOutPoint "tx" 0)).1.
Proof.
  apply reachable_sound, reach_remove, reach_extend; [apply reach_new|apply pay_fresh].
Defined.

Lemma balance_correct_witness :
  ∃ b, get_balance_for_addresses s0 ["alice"; "alice"] = Ret b.
Proof.
  destruct (balance_correct s0 ["alice"; "alice"]) as (b & Hb & _);
    [apply cache_exact_sound, create_pk_cache_exact|]. by exists b.
Defined.
End TrackedUtxoExamples.
