(* ===== verification/Fermat.v ===== *)
(** * Fermat's little theorem on [Z]

    The number theory behind [src/unicorn.rs]: for a prime modulus the
    Legendre power of a non-zero residue is [1] or [-1].  The group theory is
    MathComp's (Euler's theorem); this file carries it over to [Z]. *)
From mathcomp Require Import boot fingroup cyclic.
From Stdlib Require Import ZArith Znumtheory Lia.

Module Fermat.
Local Open Scope Z_scope.

Lemma of_nat_expn (a n : nat) : Z.of_nat (expn a n) = Z.of_nat a ^ Z.of_nat n.
Proof.
  elim: n => [|n IH]; first by [].
  rewrite expnS Nat2Z.inj_mul IH Nat2Z.inj_succ Z.pow_succ_r //; lia.
Qed.

Lemma of_nat_modn (a b : nat) : b <> O -> Z.of_nat (modn a b) = Z.of_nat a mod Z.of_nat b.
Proof.
  move=> Hb. apply: (Zmod_unique _ _ (Z.of_nat (divn a b))).
  - have Hb' : leq 1 b by case: b Hb.
    have /ltP := ltn_pmod a Hb'. lia.
  - rewrite {1}(divn_eq a b). rewrite Nat2Z.inj_add Nat2Z.inj_mul. lia.
Qed.

Lemma dvdn_of_nat (d n : nat) : dvdn d n -> (Z.of_nat d | Z.of_nat n).
Proof. move/dvdnP => [k ->]. exists (Z.of_nat k). by rewrite Nat2Z.inj_mul. Qed.

Lemma prime_of_Z (n : nat) : Znumtheory.prime (Z.of_nat n) -> prime.prime n.
Proof.
  move=> Hp. have H1 := prime_ge_2 _ Hp. apply/primeP; split; first by apply/ltP; lia.
  move=> d /dvdn_of_nat Hd.
  case: (prime_divisors _ Hp _ Hd) => [|[|[|]]] E; try lia.
  - by apply/orP; left; apply/eqP; lia.
  - by apply/orP; right; apply/eqP; lia.
Qed.

Lemma fermat (p u : Z) : Znumtheory.prime p -> 1 <= u < p -> u ^ (p - 1) mod p = 1.
Proof.
  move=> Hp Hu. have H2 := prime_ge_2 _ Hp.
  rewrite -(Z2Nat.id p); first lia. rewrite -(Z2Nat.id u); first lia.
  have Hpn : prime.prime (Z.to_nat p) by apply: prime_of_Z; rewrite Z2Nat.id //; lia.
  have Hc : coprime (Z.to_nat u) (Z.to_nat p).
  { rewrite coprime_sym prime_coprime //. apply/negP => /dvdn_of_nat.
    rewrite !Z2Nat.id; try lia. move=> /Z.divide_pos_le. lia. }
  have := Euler_exp_totient Hc. rewrite totient_prime //.
  move/(f_equal Z.of_nat). rewrite !of_nat_modn; try lia. rewrite of_nat_expn.
  have -> : Z.of_nat (Z.to_nat p).-1 = Z.of_nat (Z.to_nat p) - 1 by lia.
  move=> ->. by rewrite Z.mod_small; lia.
Qed.

(** The Legendre power of a non-zero residue is [1] or [-1]. *)
Lemma legendre_power (p u : Z) : Znumtheory.prime p -> p mod 2 = 1 -> 1 <= u < p ->
  u ^ ((p - 1) / 2) mod p = 1 \/ u ^ ((p - 1) / 2) mod p = p - 1.
Proof.
  move=> Hp Hodd Hu. have H2 := prime_ge_2 _ Hp. have := fermat p u Hp Hu.
  have E := Z.div_mod p 2 ltac:(lia). rewrite Hodd in E.
  have -> : (p - 1) / 2 = p / 2.
  { rewrite {1}E. have -> : 2 * (p / 2) + 1 - 1 = p / 2 * 2 by lia. by rewrite Z.div_mul. }
  have -> : p - 1 = p / 2 + p / 2 by lia.
  have H0 : 0 <= p / 2 by lia.
  rewrite Z.pow_add_r //. set x := u ^ (p / 2). move=> Hx.
  have Hd : (p | (x - 1) * (x + 1)).
  { apply/(Z.mod_divide _ p); first lia.
    have -> : (x - 1) * (x + 1) = x * x - 1 by ring.
    rewrite Zminus_mod Hx (Z.mod_small 1); first lia. by rewrite Z.mod_0_l; lia. }
  have Hm : forall y, (p | x - y) -> 0 <= y < p -> x mod p = y.
  { move=> y [k Hk] Hy. have -> : x = y + k * p by lia. rewrite Z.mod_add; first lia.
    by apply: Z.mod_small. }
  case: (prime_mult _ Hp _ _ Hd) => [Hk|[k Hk]].
  - left. by apply: Hm; [|lia].
  - right. have -> : p / 2 + p / 2 = p - 1 by lia. apply: Hm; last lia.
    exists (k - 1). lia.
Qed.
End Fermat.
