(* ===== verification/Unicorn.v ===== *)
(** * The UNICORN random beacon of [src/unicorn.rs]

    Seed construction, the slow evaluation (iterated modular square roots) and
    the fast verification, over the integers of the rug crate. *)
From Stdlib Require Import Znumtheory.
From S2P Require Import Prelude Externals Utils Fermat.

Record UnicornFixedParam := mkUnicornFixedParam {
  fp_modulus : string; fp_iterations : Z; fp_security : Z }.
Definition UnicornFixedParam_default := mkUnicornFixedParam EmptyString 0 0.

Record Unicorn := mkUnicorn {
  iterations : Z; security_level : Z; seed : Z; modulus : Z }.
#[export] Instance eta_Unicorn : Eta Unicorn := λ r,
  mkUnicorn (iterations r) (security_level r) (seed r) (modulus r).

Record UnicornInfo := mkUnicornInfo { unicorn : Unicorn; g_value : string; witness : Z }.
Definition UnicornInfo_default := mkUnicornInfo (mkUnicorn 0 0 0 0) EmptyString 0.

(** [xor_for_overflow]: the [while] loop flips the lowest bit, so two rounds
    return to the start: with [fuel] 2 it has stopped or never does
    ([xor_loop_diverges]). [Panic] stands for that endless loop. *)
Fixpoint xor_loop (fuel : nat) (p w : Z) : outcome Z :=
  if (p <=? w) || (w =? 0) then
    match fuel with
    | O => Panic
    | S fuel => xor_loop fuel p (Z.lxor w 1)
    end
  else Ret w.

Definition xor_for_overflow (u : Unicorn) (w : Z) : outcome Z :=
  xor_loop 2 (modulus u) (Z.lxor w 1).

(** [n] rounds of a loop body that may panic. *)
Fixpoint orounds {A : Type} (n : nat) (f : A → outcome A) (a : A) : outcome A :=
  match n with O => Ret a | S n => let! a' := f a in orounds n f a' end.

(** [div_rem_floor(modulus).1]: panics on a zero modulus. *)
Definition rem_floor (z m : Z) : outcome Z := if m =? 0 then Panic else Ret (z mod m).

Section unicorn.
Context `{Naom, Rug, Hex}.
Context `{Bincode (list string), Bincode (list SocketAddr), Bincode (gset string), Bincode (option Z)}.

Definition construct_seed (tx_inputs : list string) (participant_list : list SocketAddr)
    (last_winning_hashes : gset string) : outcome Z :=
  let soot := hex_encode (sha3_256 (serialize tx_inputs)) in
  let soma := hex_encode (sha3_256 (serialize participant_list)) in
  let soms := hex_encode (sha3_256 (serialize last_winning_hashes)) in
  let final_seed := hex_encode (sha3_256 (serialize [soot; soma; soms])) in
  unwrap (from_str_radix final_seed 16).

(** The commitment of a new seed. *)
Definition set_seed (u : Unicorn) (s : Z) : Unicorn * string :=
  let h := hex_encode (sha3_256 (serialize (integer_to_u64 s))) in
  let c := hex_encode (sha3_256 (string_codes h)) in
  (u <| seed := s |>, c).

(** [2u64.pow(2 * security_level)]: both the product and the power wrap. *)
Definition security_bound (u : Unicorn) : Z := wrap64 (2 ^ ((2 * security_level u) mod 2 ^ 32)).

Definition is_valid_modulus (u : Unicorn) : bool :=
  (security_bound u <=? modulus u) &&
  match is_probably_prime (modulus u) MR_PRIME_ITERS with IsPrimeNo => false | _ => true end.

Definition eval_step (u : Unicorn) (w : Z) : outcome Z :=
  let! w := xor_for_overflow u w in
  unwrap (pow_mod w ((modulus u + 1) / 4) (modulus u)).

Definition eval (u : Unicorn) : outcome (option (Z * string)) :=
  if negb (is_valid_modulus u) then Ret None
  else
    let! w := rem_floor (seed u) (modulus u) in
    let! w := orounds (Z.to_nat (iterations u)) (eval_step u) w in
    Ret (Some (w, hex_encode (to_digits_msf w))).

Definition verify_step (u : Unicorn) (w : Z) : outcome Z :=
  let! w := unwrap (pow_mod w 2 (modulus u)) in
  let inv_w := - w in
  let! w := rem_floor inv_w (modulus u) in
  xor_for_overflow u w.

Definition verify (u : Unicorn) (seed witness : Z) : outcome bool :=
  let! w := orounds (Z.to_nat (iterations u)) (verify_step u) witness in
  let! s := rem_floor seed (modulus u) in
  Ret (w =? s).

Definition construct_unicorn (seed : Z) (fixed_params : UnicornFixedParam) : outcome UnicornInfo :=
  let! m := unwrap (from_str_radix (fp_modulus fixed_params) 10) in
  let u := mkUnicorn (fp_iterations fixed_params) (fp_security fixed_params) seed m in
  let! e := eval u in
  let! wg := unwrap e in
  Ret (mkUnicornInfo u wg.2 wg.1).
End unicorn.

(** ** The overflow loop *)
Definition xo (p w : Z) : Z :=
  let v := Z.lxor w 1 in if (0 <? v) && (v <? p) then v else w.

Lemma lxor1_lxor1 w : Z.lxor (Z.lxor w 1) 1 = w.
Proof. by rewrite Z.lxor_assoc, Z.lxor_nilpotent, Z.lxor_0_r. Qed.

Lemma lxor1_val w : Z.lxor w 1 = w + 1 - 2 * (w mod 2).
Proof.
  pose proof (Z.add_lxor_2land w 1) as E.
  replace (Z.land w 1) with (w mod 2) in E by (symmetry; apply (Z.land_ones w 1); done). lia.
Qed.

Lemma mod2_cases w : w mod 2 = 0 ∨ w mod 2 = 1.
Proof. pose proof (Z.mod_pos_bound w 2). lia. Qed.

(** Case split on the parity of [w] after computing [lxor w 1]. *)
Ltac parity w := let H := fresh in pose proof (Z.div_mod w 2 ltac:(done)) as H;
  destruct (mod2_cases w) as [? | ?].

Section xo.
Context (p : Z).

Lemma xo_range w : 1 ≤ w < p → 1 ≤ xo p w < p.
Proof.
  intros Hw. unfold xo. cbv zeta.
  destruct ((0 <? Z.lxor w 1) && (Z.lxor w 1 <? p)) eqn:E; [|done].
  apply andb_true_iff in E. lia.
Qed.

Lemma xo_invol w : 1 ≤ w < p → xo p (xo p w) = w.
Proof.
  intros Hw. unfold xo; cbv zeta.
  destruct ((0 <? Z.lxor w 1) && (Z.lxor w 1 <? p)) eqn:E.
  - rewrite lxor1_lxor1. destruct ((0 <? w) && (w <? p)) eqn:E'; [done|].
    apply andb_false_iff in E'. lia.
  - by rewrite E.
Qed.

(** The permutation commutes with negation modulo an odd [p]. *)
Lemma xo_opp w : p mod 2 = 1 → 1 ≤ w < p → xo p (p - w) = p - xo p w.
Proof.
  intros Hp Hw. unfold xo; cbv zeta. rewrite !lxor1_val.
  assert (Hm : (p - w) mod 2 = 1 - w mod 2).
  { rewrite Zminus_mod, Hp. by destruct (mod2_cases w) as [-> | ->]. }
  rewrite Hm. destruct (mod2_cases w) as [-> | ->];
    repeat match goal with |- context [Z.ltb ?a ?b] => destruct (Z.ltb_spec a b) end; cbn; lia.
Qed.

Lemma xor_loop_ret w : 2 ≤ p → 0 ≤ w < p →
  xor_loop 2 p (Z.lxor w 1) = Ret (if w =? 0 then 1 else xo p w).
Proof.
  intros Hp Hw. unfold xo; cbv zeta. cbn [xor_loop]. rewrite lxor1_lxor1, (lxor1_val w).
  parity w; rewrite ?H0;
    repeat match goal with
    | |- context [Z.leb ?a ?b] => destruct (Z.leb_spec a b)
    | |- context [Z.ltb ?a ?b] => destruct (Z.ltb_spec a b)
    | |- context [Z.eqb ?a ?b] => destruct (Z.eqb_spec a b)
    end; cbn; try lia; try (f_equal; lia).
Qed.

(** Two rounds come back to the start: what has not stopped then never does. *)
Lemma xor_loop_diverges w fuel :
  xor_loop 2 p w = Panic → xor_loop fuel p w = Panic.
Proof.
  cbn [xor_loop]. rewrite lxor1_lxor1.
  destruct ((p <=? w) || (w =? 0)) eqn:E0; [|done].
  destruct ((p <=? Z.lxor w 1) || (Z.lxor w 1 =? 0)) eqn:E1; [|done]. intros _.
  assert (Hg : ∀ n, xor_loop n p w = Panic ∧ xor_loop n p (Z.lxor w 1) = Panic).
  { induction n as [|n [IH1 IH2]]; cbn [xor_loop]; rewrite E0, E1, ?lxor1_lxor1; done. }
  apply Hg.
Qed.
End xo.

(** ** Arithmetic of the square root *)
Section root.
Context (p : Z) (Hp : p mod 4 = 3) (Hp3 : 3 ≤ p).

Definition nonresidue (u : Z) : bool := (u ^ ((p - 1) / 2)) mod p =? p - 1.
Definition residue (u : Z) : bool := (u ^ ((p - 1) / 2)) mod p =? 1.

Lemma p_odd : p mod 2 = 1.
Proof. pose proof (Z.div_mod p 4 ltac:(done)). rewrite Hp in H. rewrite H.
  replace (4 * (p / 4) + 3) with (1 + (2 * (p / 4) + 1) * 2) by lia. by rewrite Z.mod_add. Qed.

Lemma square_root_square u :
  ((u ^ ((p + 1) / 4)) ^ 2) mod p = (u * (u ^ ((p - 1) / 2))) mod p.
Proof.
  pose proof (Z.div_mod p 4 ltac:(done)) as E. rewrite Hp in E. set (q := p / 4) in *.
  assert (0 ≤ q) by lia.
  replace ((p + 1) / 4) with (q + 1).
  2:{ rewrite E. replace (4 * q + 3 + 1) with ((q + 1) * 4) by lia. by rewrite Z.div_mul. }
  replace ((p - 1) / 2) with (2 * q + 1).
  2:{ rewrite E. replace (4 * q + 3 - 1) with ((2 * q + 1) * 2) by lia. by rewrite Z.div_mul. }
  rewrite <-Z.pow_mul_r by lia. f_equal.
  replace ((q + 1) * 2) with (Z.succ (2 * q + 1)) by lia. rewrite Z.pow_succ_r by lia. done.
Qed.

Definition root_step (w : Z) : Z := (xo p w ^ ((p + 1) / 4)) mod p.
Definition unroot_step (w : Z) : Z := xo p ((- ((w ^ 2) mod p)) mod p).

Lemma square_mod z : ((z mod p) ^ 2) mod p = (z ^ 2) mod p.
Proof. rewrite !Z.pow_2_r. by rewrite <-Zmult_mod. Qed.

Lemma root_step_square w : (root_step w ^ 2) mod p = (xo p w * xo p w ^ ((p - 1) / 2)) mod p.
Proof. unfold root_step. by rewrite square_mod, square_root_square. Qed.

Lemma square_neg z : ((p - z) ^ 2) mod p = (z ^ 2) mod p.
Proof.
  replace ((p - z) ^ 2) with (z ^ 2 + (p - 2 * z) * p) by ring. apply Z.mod_add. lia.
Qed.

Lemma unroot_step_neg w : unroot_step (p - w) = unroot_step w.
Proof. unfold unroot_step. by rewrite square_neg. Qed.

Lemma neg_mod x : 1 ≤ x < p → (- x) mod p = p - x.
Proof.
  intros Hx. replace (- x) with (p - x + (-1) * p) by ring.
  rewrite Z.mod_add by lia. apply Z.mod_small. lia.
Qed.

Context (Hprime : prime p).

Lemma root_step_sq w : 1 ≤ w < p →
  root_step w ^ 2 mod p = if nonresidue (xo p w) then p - xo p w else xo p w.
Proof.
  intros Hw. pose proof (xo_range p w Hw) as Hx.
  rewrite root_step_square, Zmult_mod, (Z.mod_small (xo p w)) by lia. unfold nonresidue.
  destruct (Fermat.legendre_power p (xo p w) Hprime p_odd Hx) as [-> | ->].
  - destruct (Z.eqb_spec 1 (p - 1)); [lia|]. rewrite Z.mul_1_r. apply Z.mod_small. lia.
  - rewrite Z.eqb_refl. replace (xo p w * (p - 1)) with (- xo p w + xo p w * p) by ring.
    rewrite Z.mod_add by lia. by apply neg_mod.
Qed.

(** One round back undoes one round, up to the sign lost by squaring. *)
Lemma unroot_step_root w : 1 ≤ w < p →
  unroot_step (root_step w) = if nonresidue (xo p w) then w else p - w.
Proof.
  intros Hw. pose proof (xo_range p w Hw). unfold unroot_step. rewrite root_step_sq by done.
  destruct (nonresidue (xo p w)).
  - rewrite neg_mod by lia. replace (p - (p - xo p w)) with (xo p w) by lia. by apply xo_invol.
  - rewrite neg_mod by lia. rewrite xo_opp by (done || apply p_odd). by rewrite xo_invol.
Qed.

Lemma root_step_range w : 1 ≤ w < p → 1 ≤ root_step w < p.
Proof.
  intros Hw. pose proof (root_step_sq w Hw) as E. pose proof (xo_range p w Hw).
  assert (0 ≤ root_step w < p) as [H0 ?] by (apply Z.mod_pos_bound; lia).
  destruct (Z.eq_dec (root_step w) 0) as [E0|]; [|lia]. exfalso.
  rewrite E0, Z.mod_0_l in E by lia. destruct (nonresidue (xo p w)); lia.
Qed.

(** [n] rounds back undo [n] rounds up to the sign of the first root. *)
Lemma unroot_iter n w : 1 ≤ w < p →
  Nat.iter (S n) unroot_step (Nat.iter (S n) root_step w) =
    if nonresidue (xo p w) then w else p - w.
Proof.
  intros Hw. induction n as [|n IH]; [by apply unroot_step_root|].
  change (Nat.iter (S (S n)) root_step w) with (root_step (Nat.iter (S n) root_step w)).
  rewrite Nat.iter_succ_r.
  assert (Hr : ∀ m, 1 ≤ Nat.iter m root_step w < p)
    by (induction m; [done|]; cbn; by apply root_step_range).
  rewrite unroot_step_root by apply Hr. rewrite <-IH.
  clear IH. case_match; [done|].
  by rewrite !(Nat.iter_succ_r n unroot_step), unroot_step_neg.
Qed.
End root.

(** ** Evaluation and verification *)
Lemma orounds_iter {A : Type} (f : A → outcome A) (g : A → A) (P : A → Prop) n a :
  (∀ a, P a → f a = Ret (g a) ∧ P (g a)) → P a →
  orounds n f a = Ret (Nat.iter n g a) ∧ P (Nat.iter n g a).
Proof.
  intros Hf. revert a; induction n as [|n IH]; intros a Ha; [done|].
  cbn [orounds]. destruct (Hf a Ha) as [-> Hg]. cbn [obind]. rewrite Nat.iter_succ_r. by apply IH.
Qed.

Section correct.
Context `{Rug, !RugLaws, Hex}.
Context (u : Unicorn).
Let p := modulus u.
Context (Hp : p mod 4 = 3) (Hp3 : 3 ≤ p) (Hprime : prime p).

Lemma xor_for_overflow_ret w : 0 ≤ w < p →
  xor_for_overflow u w = Ret (if w =? 0 then 1 else xo p w).
Proof. apply xor_loop_ret. lia. Qed.

Lemma eval_step_ret w : 1 ≤ w < p → eval_step u w = Ret (root_step p w) ∧ 1 ≤ root_step p w < p.
Proof.
  intros Hw. split; [|by apply root_step_range]. unfold eval_step.
  rewrite xor_for_overflow_ret by lia. destruct (Z.eqb_spec w 0); [lia|]. cbn.
  rewrite pow_mod_spec; [done|apply Z.div_pos; lia|lia].
Qed.

(** On zero the first round is the one of [1]. *)
Lemma eval_step_0 : eval_step u 0 = Ret (root_step p 1).
Proof.
  unfold eval_step. rewrite xor_for_overflow_ret by lia. cbn.
  rewrite pow_mod_spec; [|apply Z.div_pos; lia|lia]. unfold root_step, xo. done.
Qed.

Lemma square_nonzero w : 1 ≤ w < p → w ^ 2 mod p ≠ 0.
Proof.
  intros Hw Hz. rewrite Z.pow_2_r in Hz. apply Z.mod_divide in Hz; [|lia].
  destruct (prime_mult p Hprime w w Hz) as [Hd|Hd]; apply Z.divide_pos_le in Hd; lia.
Qed.

Lemma verify_step_ret w : 1 ≤ w < p → verify_step u w = Ret (unroot_step p w) ∧ 1 ≤ unroot_step p w < p.
Proof.
  intros Hw. pose proof (square_nonzero w Hw).
  assert (0 ≤ w ^ 2 mod p < p) by (apply Z.mod_pos_bound; lia).
  assert (Hu : unroot_step p w = xo p (p - w ^ 2 mod p)) by (unfold unroot_step; by rewrite neg_mod by lia).
  split; [|rewrite Hu; apply xo_range; lia]. rewrite Hu.
  unfold verify_step, rem_floor. rewrite pow_mod_spec by lia. cbn [obind unwrap].
  destruct (Z.eqb_spec (modulus u) 0); [lia|]. cbn [obind]. change (modulus u) with p.
  rewrite neg_mod, xor_for_overflow_ret by lia.
  by destruct (Z.eqb_spec (p - w ^ 2 mod p) 0); [lia|].
Qed.

Lemma eval_rounds_ret n w : 1 ≤ w < p →
  orounds n (eval_step u) w = Ret (Nat.iter n (root_step p) w) ∧ 1 ≤ Nat.iter n (root_step p) w < p.
Proof. intros Hw. apply (orounds_iter _ _ (λ w, 1 ≤ w < p)), Hw. apply eval_step_ret. Qed.

Lemma verify_rounds_ret n w : 1 ≤ w < p →
  orounds n (verify_step u) w = Ret (Nat.iter n (unroot_step p) w) ∧ 1 ≤ Nat.iter n (unroot_step p) w < p.
Proof. intros Hw. apply (orounds_iter _ _ (λ w, 1 ≤ w < p)), Hw. apply verify_step_ret. Qed.

(** The whole evaluation, from the residue [w] of the seed; [0] acts as [1]. *)
Definition start (w : Z) : Z := if w =? 0 then 1 else w.

Lemma eval_ret : is_valid_modulus u = true → 0 < iterations u →
  let w := Nat.iter (Z.to_nat (iterations u)) (root_step p) (start (seed u mod p)) in
  eval u = Ret (Some (w, hex_encode (to_digits_msf w))).
Proof.
  intros Hv Hit. cbv zeta. unfold eval. rewrite Hv. cbn [negb]. unfold rem_floor.
  destruct (Z.eqb_spec (modulus u) 0) as [E0|_]; [unfold p in Hp3; lia|]. cbn [obind].
  change (modulus u) with p.
  assert (Hs : 0 ≤ seed u mod p < p) by (apply Z.mod_pos_bound; lia).
  assert (Hn : ∃ n, Z.to_nat (iterations u) = S n) by (exists (Nat.pred (Z.to_nat (iterations u))); lia).
  destruct Hn as [n ->]. unfold start.
  destruct (Z.eqb_spec (seed u mod p) 0) as [->|Hnz].
  - cbn [orounds]. rewrite eval_step_0. cbn [obind]. rewrite Nat.iter_succ_r.
    destruct (eval_rounds_ret n (root_step p 1)) as [-> _]; [apply root_step_range; lia || done|done].
  - destruct (eval_rounds_ret (S n) (seed u mod p)) as [-> _]; [lia|done].
Qed.
End correct.

(** C39: [Unicorn::verify] against [Unicorn::eval], for a prime modulus of the
    recommended shape [p = 3 mod 4].  Evaluation and verification both return,
    the modulus bounds the witness, and the verification of the evaluated
    witness succeeds exactly when the seed's residue is not zero and the value
    it is first permuted to is a quadratic non-residue: for the other residues
    [verify] refuses the witness that [eval] computed. *)
Theorem verify_eval `{Rug, !RugLaws, Hex} (u : Unicorn) :
  modulus u mod 4 = 3 → prime (modulus u) → is_valid_modulus u = true → 0 < iterations u →
  let s := seed u mod modulus u in
  ∃ w g, eval u = Ret (Some (w, g)) ∧ 1 ≤ w < modulus u ∧
    verify u (seed u) w =
      Ret (negb (s =? 0) && nonresidue (modulus u) (xo (modulus u) s)).
Proof.
  intros Hp Hprime Hv Hit s.
  assert (Hp3 : 3 ≤ modulus u).
  { pose proof (prime_ge_2 _ Hprime). destruct (Z.eq_dec (modulus u) 2) as [E|]; [by rewrite E in Hp|lia]. }
  assert (Hs : 0 ≤ s < modulus u) by (apply Z.mod_pos_bound; lia).
  pose proof (eval_ret u Hp Hp3 Hprime Hv Hit) as He. cbv zeta in He. fold s in He.
  assert (Hst : 1 ≤ start s < modulus u) by (unfold start; destruct (Z.eqb_spec s 0); lia).
  eexists _, _. split; [exact He|]. clear He. cbv zeta.
  destruct (eval_rounds_ret u Hp Hp3 Hprime (Z.to_nat (iterations u)) _ Hst) as [_ Hw].
  split; [exact Hw|]. unfold verify.
  destruct (verify_rounds_ret u Hp3 Hprime (Z.to_nat (iterations u)) _ Hw) as [-> _].
  cbn [obind]. unfold rem_floor. destruct (Z.eqb_spec (modulus u) 0); [lia|]. cbn [obind].
  replace (Z.to_nat (iterations u)) with (S (Nat.pred (Z.to_nat (iterations u)))) by lia.
  fold s. rewrite unroot_iter by done. f_equal. unfold start. assert (modulus u mod 2 = 1) as Hodd by (by apply p_odd).
  destruct (Z.eqb_spec s 0) as [->|Hs0]; cbn [negb andb].
  - destruct (nonresidue _ _); apply Z.eqb_neq; lia.
  - destruct (nonresidue _ _); [by apply Z.eqb_eq|]. apply Z.eqb_neq. intros E.
    pose proof (Z.div_mod (modulus u) 2 ltac:(done)). lia.
Qed.

(** The security requirement [p >= 2^(2k)]: at the strengths the wrapped
    power can express it is exact; from [k = 32] on ([k < 2^31], so that the
    doubling does not wrap) the bound is 0 and every modulus passes it. *)
Theorem security_bound_range (u : Unicorn) :
  0 ≤ security_level u < 2 ^ 31 →
  security_bound u = if security_level u <? 32 then 2 ^ (2 * security_level u) else 0.
Proof.
  intros Hk. unfold security_bound. rewrite Z.mod_small by lia.
  destruct (Z.ltb_spec (security_level u) 32).
  - apply wrap64_id. split; [by apply Z.pow_nonneg|]. apply Z.pow_lt_mono_r; lia.
  - unfold wrap64, U64_MOD. replace (2 * security_level u) with (64 + (2 * security_level u - 64)) by lia.
    rewrite Z.pow_add_r by lia. rewrite Z.mul_comm. by apply Z.mod_mul.
Qed.

(** [verify] does not check the modulus: modulus 1 never lets the overflow loop stop. *)
Lemma xor_for_overflow_diverges fuel u w : modulus u = 1 → 0 ≤ w →
  xor_loop fuel (modulus u) (Z.lxor w 1) = Panic.
Proof.
  intros -> Hw. apply xor_loop_diverges. cbn [xor_loop]. rewrite lxor1_lxor1.
  assert (Hge : ∀ v, 0 ≤ v → (1 <=? v) || (v =? 0) = true)
    by (intros v Hv; destruct (Z.leb_spec 1 v), (Z.eqb_spec v 0); cbn; lia).
  rewrite !Hge by (done || (apply Z.lxor_nonneg; lia)). done.
Qed.

Module UnicornExamples.
Import TestExternals.

Lemma prime_7 : prime 7.
Proof.
  apply prime_intro; [done|]. intros n Hn. apply Zgcd_1_rel_prime.
  assert (n = 1 ∨ n = 2 ∨ n = 3 ∨ n = 4 ∨ n = 5 ∨ n = 6) as Hc by lia.
  by destruct Hc as [-> |[-> |[-> |[-> |[-> | ->]]]]].
Qed.

Definition u7 (s : Z) : Unicorn := mkUnicorn 2 1 s 7.

(** Seed 2 is permuted to the non-residue 3 and verifies; seed 3 goes to the
    residue 2, and its own witness is refused. *)
Example seed2 : eval (u7 2) = Ret (Some (2, hex_encode [2])) ∧ verify (u7 2) 2 2 = Ret true.
Proof. split; vm_compute; reflexivity. Qed.
Example seed3 : ∃ w g, eval (u7 3) = Ret (Some (w, g)) ∧ verify (u7 3) 3 w = Ret false.
Proof. eexists _, _. split; vm_compute; reflexivity. Qed.

Lemma verify_eval_witness :
  (∃ w g, eval (u7 2) = Ret (Some (w, g)) ∧ 1 ≤ w < 7 ∧ verify (u7 2) 2 w = Ret true) ∧
  (∃ w g, eval (u7 3) = Ret (Some (w, g)) ∧ 1 ≤ w < 7 ∧ verify (u7 3) 3 w = Ret false).
Proof.
  split; [apply (verify_eval (u7 2))|apply (verify_eval (u7 3))];
    solve [reflexivity | exact prime_7].
Defined.

Lemma security_bound_range_witness :
  0 ≤ 40 < 2 ^ 31 ∧ security_bound (mkUnicorn 1 40 0 7) = 0.
Proof. split; [done|]. apply (security_bound_range (mkUnicorn 1 40 0 7)). done. Defined.
End UnicornExamples.
