(* ===== verification/Interfaces.v ===== *)
(** * Messages and stored items of [src/interfaces.rs]

    The plain data that the nodes exchange and store.  Field names that the
    repository uses in several structs carry a prefix here. *)
From S2P Require Import Prelude Externals Utils Unicorn.

Notation UtxoSet := (gmap OutPoint TxOut) (only parsing).
Notation RaftData := (list Z) (only parsing).

Inductive UtxoFetchType := All | AnyOf (l : list string).

Record Response := mkResponse { success : bool; reason : string }.
#[export] Instance Response_eq_dec : EqDecision Response.
Proof. solve_decision. Defined.

Definition ok (reason : string) : Response := mkResponse true reason.
Definition failed (reason : string) : Response := mkResponse false reason.

Record StoredSerializingBlock := mkStoredSerializingBlock { stored_block : Block }.

(** Common info in all mined block that form a complete block. *)
Record CommonBlockInfo := mkCommonBlockInfo {
  cb_block : Block;
  cb_block_txs : gmap string Transaction;
  cb_pow_p_value : Z;
  cb_pow_d_value : Z;
  cb_unicorn : Unicorn;
  cb_unicorn_witness : Z;
}.
Record MinedBlockExtraInfo := mkMinedBlockExtraInfo { extra_shutdown : bool }.
Record MinedBlock := mkMinedBlock { mb_common : CommonBlockInfo; mb_extra_info : MinedBlockExtraInfo }.

(** Stored block info needed to generate next block *)
Record BlockStoredInfo := mkBlockStoredInfo {
  bs_block_hash : string;
  bs_block_num : Z;
  bs_nonce : list Z;
  bs_mining_transactions : gmap string Transaction;
  bs_shutdown : bool;
}.

Record WinningPoWInfo := mkWinningPoWInfo {
  wp_nonce : list Z; wp_mining_tx : string * Transaction; wp_p_value : Z; wp_d_value : Z }.

Record DruidDroplet := mkDruidDroplet { participants : Z; txs : gmap string Transaction }.
Definition DruidDroplet_new (n : Z) : DruidDroplet := mkDruidDroplet n ∅.
#[export] Instance eta_DruidDroplet : Eta DruidDroplet := λ r, mkDruidDroplet (participants r) (txs r).
Notation DruidPool := (gmap string DruidDroplet) (only parsing).

Inductive NodeType := Miner | NodeStorage | NodeCompute | User | PreLaunch.
#[export] Instance NodeType_eq_dec : EqDecision NodeType.
Proof. solve_decision. Defined.

Inductive BlockchainItemType := ItemBlock | ItemTx.
Inductive BlockchainItemMeta :=
  | MetaBlock (block_num tx_len : Z)
  | MetaTx (block_num tx_num : Z).
Record BlockchainItem := mkBlockchainItem {
  item_version : Z; item_meta : BlockchainItemMeta; item_key : list Z;
  item_data : list Z; item_data_json : list Z }.

#[export] Instance BlockchainItemMeta_eq_dec : EqDecision BlockchainItemMeta.
Proof. solve_decision. Defined.
#[export] Instance BlockchainItem_eq_dec : EqDecision BlockchainItem.
Proof. solve_decision. Defined.

Definition BlockchainItem_default : BlockchainItem := mkBlockchainItem 0 (MetaBlock 0 0) [] [] [].
Definition BlockchainItem_is_empty (i : BlockchainItem) : bool :=
  match item_key i with [] => true | _ => false end.
Definition as_type (m : BlockchainItemMeta) : BlockchainItemType :=
  match m with MetaBlock _ _ => ItemBlock | MetaTx _ _ => ItemTx end.
Definition meta_block_num (m : BlockchainItemMeta) : Z :=
  match m with MetaBlock b _ => b | MetaTx b _ => b end.

(** Receipt-based payments *)
Record RbPaymentData := mkRbPaymentData {
  rd_sender_asset : Asset; rd_sender_half_druid : string; rd_tx_ins : list TxIn; rd_tx_outs : list TxOut }.
Record RbPaymentRequestData := mkRbPaymentRequestData {
  rq_sender_address : string; rq_sender_half_druid : string; rq_sender_from_addr : string;
  rq_sender_asset : Asset; rq_sender_drs_tx_expectation : option string }.
Record RbPaymentResponseData := mkRbPaymentResponseData {
  rr_receiver_address : string; rr_receiver_half_druid : string; rr_sender_druid_expectation : DruidExpectation }.
