(* ===== verification/Comms.v ===== *)
(** * The communication layer: [Node] of [src/comms_handler/node.rs]

    The list of connected peers, the handshake, gossip, and the operations the
    nodes of the program send and receive with.  A connection has a number, a
    task that reads it ([handle_peer]) and a peer that writes to it.  Sockets
    and TLS sessions are not modelled: what they give is an argument of an
    operation, and what is written to them is in [sent].  The reading task is a
    state machine whose steps are the stretches of code between two waits, so
    that the steps of different tasks interleave. *)
From S2P Require Import Prelude Externals Utils Interfaces.

Definition FANOUT : nat := 8.
Definition GOSSIP_MAX_TTL : Z := 4.

(** [webpki] and [rand]. *)
Class CommsCrates := {
  TlsCertificate : Type;
  try_from_ascii_str : string → bool;
  EndEntityCert_from : TlsCertificate → bool;
  verify_is_valid_for_at_least_one_dns_name : TlsCertificate → list string → bool;
  choose_multiple : Z → list SocketAddr → nat → list SocketAddr;
}.
Class CommsCratesLaws `{CommsCrates} : Prop := {
  choose_multiple_incl rng l n a : a ∈ choose_multiple rng l n → a ∈ l;
  choose_multiple_length rng l n : (length (choose_multiple rng l n) ≤ n)%nat;
}.

Record PeerInfo := mkPeerInfo { info_node_type : option NodeType; info_address : option SocketAddr }.
Inductive CommsError :=
  | ConfigError (msg : string)
  | IoError
  | TlsError
  | PeerListEmpty
  | PeerListFull
  | PeerNotFound (info : PeerInfo)
  | PeerInvalidState (info : PeerInfo)
  | PeerDuplicate (info : PeerInfo)
  | PeerIncompatible (info : PeerInfo).

Notation Token := Z (only parsing).
Inductive CommMessage :=
  | HandshakeRequest (network_version : Z) (node_type : NodeType) (public_address : SocketAddr)
  | HandshakeResponse (network_version : Z) (node_type : NodeType) (contacts : list SocketAddr)
      (public_address : SocketAddr)
  | Gossip (payload : list Z) (ttl : Z) (id : Token)
  | Direct (payload : list Z) (id : Token)
  | HeartBeatProbe (id : Token).

(** The receiver of the notification of a handshake response: in the peer, with
    the caller of [connect_to] that waits, or dropped by it. *)
Inductive Receiver := RxNone | RxHeld | RxWaiting | RxDropped.
#[export] Instance Receiver_eq_dec : EqDecision Receiver.
Proof. solve_decision. Defined.

(** [conn] is the connection that [send_tx] writes to. *)
Record Peer := mkPeer {
  pr_network_version : option Z;
  pr_addr : SocketAddr;
  peer_type : option NodeType;
  pr_public_address : option SocketAddr;
  notify_tx : bool;
  notify_rx : Receiver;
  conn : nat;
}.
#[export] Instance eta_Peer : Eta Peer := λ r,
  mkPeer (pr_network_version r) (pr_addr r) (peer_type r) (pr_public_address r) (notify_tx r) (notify_rx r) (conn r).

(** Where the task of a connection is: [Shaken] is between the handshake and the
    move of the peer to its public address. *)
Inductive TaskState :=
  | WaitingForHandshake
  | Shaken (public_address : SocketAddr)
  | Ready (public_address : SocketAddr).

Record Task (C : Type) := mkTask {
  task_peer_addr : SocketAddr;
  task_cert : option C;
  task_state : TaskState;
  stream_closed : bool;
}.
Arguments mkTask {C}. Arguments task_peer_addr {C}. Arguments task_cert {C}. Arguments task_state {C}.
Arguments stream_closed {C}.
#[export] Instance eta_Task C : Eta (Task C) := λ r,
  mkTask (task_peer_addr r) (task_cert r) (task_state r) (stream_closed r).

Inductive Event := NewFrame (peer : SocketAddr) (frame : list Z).

(** [C] is the type of certificates; [thread_rng] the random tokens to come;
    [spawned] the addresses that a task was started to connect to. *)
Record Node (C : Type) := mkNode {
  network_version : Z;
  local_listener_address : SocketAddr;
  public_listener_address : option SocketAddr;
  listening : bool;
  listener_and_connect_paused : bool;
  socket_name_mapping : gmap SocketAddr string;
  peers : gmap SocketAddr Peer;
  node_type : NodeType;
  peer_limit : Z;
  event_queue : list Event;
  seen_gossip_messages : gset Token;
  connect_to_handshake_contacts : bool;
  heartbeat : bool;
  tasks : gmap nat (Task C);
  next_conn : nat;
  thread_rng : nat → Z;
  spawned : list SocketAddr;
  sent : list (SocketAddr * CommMessage);
}.
Arguments mkNode {C}. Arguments network_version {C}. Arguments local_listener_address {C}.
Arguments public_listener_address {C}. Arguments listening {C}. Arguments listener_and_connect_paused {C}.
Arguments socket_name_mapping {C}. Arguments peers {C}. Arguments node_type {C}. Arguments peer_limit {C}.
Arguments event_queue {C}. Arguments seen_gossip_messages {C}. Arguments connect_to_handshake_contacts {C}.
Arguments heartbeat {C}. Arguments tasks {C}. Arguments next_conn {C}. Arguments thread_rng {C}.
Arguments spawned {C}. Arguments sent {C}.
#[export] Instance eta_Node C : Eta (Node C) := λ r,
  mkNode (network_version r) (local_listener_address r) (public_listener_address r) (listening r)
    (listener_and_connect_paused r) (socket_name_mapping r) (peers r) (node_type r) (peer_limit r)
    (event_queue r) (seen_gossip_messages r) (connect_to_handshake_contacts r) (heartbeat r) (tasks r)
    (next_conn r) (thread_rng r) (spawned r) (sent r).

(** What a step of a task comes to: a panic ends the task and leaves the shared
    state as it was at that point. *)
Inductive StepEnd (A : Type) := Done (a : A) | Failed (e : CommsError) | Panicked.
Arguments Done {A} a. Arguments Failed {A} e. Arguments Panicked {A}.

Definition not_found (t : option NodeType) (a : SocketAddr) : CommsError := PeerNotFound (mkPeerInfo t (Some a)).

Section comms.
Context `{CommsCrates, Ipv6Display}.
Implicit Types n : Node TlsCertificate.

(** *** Construction *)
Definition Node_new (address : SocketAddr) (mapping : gmap SocketAddr string) (rng : nat → Z)
    (peer_limit : Z) (node_type : NodeType) (network_version : Z)
    (disable_listening send_heartbeat_messages : bool) : Node TlsCertificate :=
  mkNode network_version address None (negb disable_listening) false mapping ∅ node_type peer_limit [] ∅ false
    send_heartbeat_messages ∅ 0 rng [] [].

Definition is_compatible n (t : NodeType) (v : Z) : bool :=
  (network_version n =? v) &&
  Bool.eqb (bool_decide (node_type n = PreLaunch)) (bool_decide (t = PreLaunch)).

Definition set_connect_to_handshake_contacts n (value : bool) : Node TlsCertificate :=
  n <| connect_to_handshake_contacts := value |>.

(** [rng.gen()] *)
Definition gen n : Token * Node TlsCertificate := (thread_rng n 0%nat, n <| thread_rng ::= λ r i, r (S i) |>).

(** [handle_peer]: the peer, and the task of its connection. *)
Definition handle_peer n (addr : SocketAddr) (cert : option TlsCertificate) (is_initiator : bool) :
    Peer * Node TlsCertificate :=
  let c := next_conn n in
  (mkPeer None addr None (if is_initiator then None else Some addr) (negb is_initiator)
     (if is_initiator then RxNone else RxHeld) c,
   n <| next_conn := S c |> <| tasks ::= <[c := mkTask addr cert WaitingForHandshake false]> |>).

(** Dropping the [Drain] that takes one peer removes the others as well. *)
Definition add_peer n (addr : SocketAddr) (cert : option TlsCertificate) (force_add is_initiator : bool) :
    (CommsError + unit) * Node TlsCertificate :=
  let is_full := peer_limit n <=? zsize (peers n) in
  let n := if force_add && is_full then n <| peers := ∅ |> else n in
  if negb is_full then
    let '(peer, n) := handle_peer n addr cert is_initiator in
    (inr tt, n <| peers ::= <[addr := peer]> |>)
  else (inl PeerListFull, n).

(** One connection of the listener of [listen]. *)
Definition accept_connection n (addr : SocketAddr) (cert : option TlsCertificate) : Node TlsCertificate :=
  if negb (listening n) || listener_and_connect_paused n then n else (add_peer n addr cert false true).2.

Definition unconnected_peers n (l : list SocketAddr) : list SocketAddr :=
  filter (λ p, (peers n !! p ≫= pr_network_version) = None) l.

(** *** Sending *)
Definition send_bytes n (peer : SocketAddr) (msg : CommMessage) : Node TlsCertificate :=
  n <| sent ::= λ l, l ++ [(peer, msg)] |>.

Definition send_message n (peer_addr : SocketAddr) (message : CommMessage) :
    (CommsError + unit) * Node TlsCertificate :=
  match peers n !! peer_addr with
  | None => (inl (not_found None peer_addr), n)
  | Some _ => (inr tt, send_bytes n peer_addr message)
  end.

(** The addresses the message could not be sent to; the tasks of the sendings
    run in the order of the addresses. *)
Fixpoint send_multicast n (peers : list SocketAddr) (msg : CommMessage) : list SocketAddr * Node TlsCertificate :=
  match peers with
  | [] => ([], n)
  | peer :: peers =>
      let '(res, n) := send_message n peer msg in
      let '(unsent, n) := send_multicast n peers msg in
      (match res with inl (PeerNotFound _) => peer :: unsent | _ => unsent end, n)
  end.

Definition sample_peers n (k : nat) : list SocketAddr * Node TlsCertificate :=
  let '(r, n) := gen n in (choose_multiple r (bt_keys (peers n)) k, n).

Definition multicast n (payload : list Z) : (CommsError + unit) * Node TlsCertificate :=
  let '(peers, n) := sample_peers n FANOUT in
  match peers with
  | [] => (inl PeerListEmpty, n)
  | _ =>
      let '(message_id, n) := gen n in
      (inr tt, (send_multicast n peers (Gossip payload 0 message_id)).2)
  end.

Definition ring_peers n : list SocketAddr :=
  omap (λ p, if bool_decide (peer_type p = Some (node_type n)) then pr_public_address p else None)
    (bt_values (peers n)).

Definition get_peer_node_type n (peer_addr : SocketAddr) : CommsError + NodeType :=
  match peers n !! peer_addr with
  | None => inl (not_found None peer_addr)
  | Some peer => match peer_type peer with
                 | Some t => inr t
                 | None => inl (PeerInvalidState (mkPeerInfo None (Some peer_addr)))
                 end
  end.

Definition send n (peer : SocketAddr) (payload : list Z) : (CommsError + unit) * Node TlsCertificate :=
  let '(id, n) := gen n in send_message n peer (Direct payload id).

Definition send_to_all n (peers : list SocketAddr) (payload : list Z) : list SocketAddr * Node TlsCertificate :=
  let '(id, n) := gen n in send_multicast n peers (Direct payload id).

Definition send_heartbeat_message n (peers : list SocketAddr) : list SocketAddr * Node TlsCertificate :=
  let '(id, n) := gen n in send_multicast n peers (HeartBeatProbe id).

Definition flush_stale_peers n (stale_peers : list SocketAddr) : Node TlsCertificate :=
  n <| peers ::= filter (λ kv, kv.1 ∉ stale_peers) |>.

(** One tick of [begin_sending_heartbeat_messages]; [peers] were read before. *)
Definition heartbeat_tick n (peers : list SocketAddr) : Node TlsCertificate :=
  if heartbeat n then
    let '(unsent_peers, n) := send_heartbeat_message n peers in
    match unsent_peers with [] => n | _ => flush_stale_peers n unsent_peers end
  else n.

Definition abort_heartbeat_handle n : Node TlsCertificate := n <| heartbeat := false |>.

Definition send_handshake n (peer : SocketAddr) : (CommsError + unit) * Node TlsCertificate :=
  send_message n peer (HandshakeRequest (network_version n) (node_type n) (local_listener_address n)).

(** *** Connecting *)

(** [stream] is what connecting gives: the address of the peer and its
    certificate. *)
Definition connect_to_peer n (peer : SocketAddr) (stream : CommsError + SocketAddr * option TlsCertificate) :
    (CommsError + unit) * Node TlsCertificate :=
  if bool_decide (is_Some (peers n !! peer)) then (inr tt, n)
  else if listener_and_connect_paused n then (inl (not_found None peer), n)
  else match stream with
       | inl e => (inl e, n)
       | inr (peer_addr, cert) => add_peer n peer_addr cert false false
       end.

(** [wait_handshake_response] up to its wait, with the connection waited for,
    and when the wait ends. *)
Definition take_handshake_receiver n (peer : SocketAddr) : (CommsError + nat) * Node TlsCertificate :=
  match peers n !! peer with
  | None => (inl (not_found None peer), n)
  | Some p =>
      match notify_rx p with
      | RxHeld => (inr (conn p), n <| peers ::= <[peer := p <| notify_rx := RxWaiting |>]> |>)
      | _ => (inl (PeerInvalidState (mkPeerInfo None (Some (pr_addr p)))), n)
      end
  end.
Definition drop_handshake_receiver n (c : nat) : Node TlsCertificate :=
  n <| peers ::= fmap (λ p, if bool_decide (conn p = c ∧ notify_rx p = RxWaiting)
                            then p <| notify_rx := RxDropped |> else p) |>.

(** [connect_to] up to its wait. *)
Definition connect_to n (peer : SocketAddr) (stream : CommsError + SocketAddr * option TlsCertificate) :
    (CommsError + nat) * Node TlsCertificate :=
  match connect_to_peer n peer stream with
  | (inl e, n) => (inl e, n)
  | (inr _, n) =>
      match send_handshake n peer with
      | (inl e, n) => (inl e, n)
      | (inr _, n) => take_handshake_receiver n peer
      end
  end.

Definition set_pause_listening n (pause : bool) : Node TlsCertificate := n <| listener_and_connect_paused := pause |>.
Definition stop_listening n : Node TlsCertificate := n <| listening := false |>.

Definition disconnect_all n (subset : option (list SocketAddr)) : Node TlsCertificate :=
  match subset with
  | Some subset => n <| peers ::= λ m, foldl (λ m a, delete a m) m subset |>
  | None => n <| peers := ∅ |>
  end.

Definition shutdown_connections n : Node TlsCertificate :=
  disconnect_all (stop_listening (abort_heartbeat_handle n)) None.

(** *** Events *)
Definition push_event n (e : Event) : Node TlsCertificate := n <| event_queue ::= λ l, l ++ [e] |>.
Definition next_event n : option (Event * Node TlsCertificate) :=
  match event_queue n with [] => None | e :: l => Some (e, n <| event_queue := l |>) end.
Definition inject_next_event n (from_peer_addr : SocketAddr) (payload : list Z) : Node TlsCertificate :=
  push_event n (NewFrame from_peer_addr payload).

(** *** Receiving *)
Definition handle_gossip n (from_peer : SocketAddr) (payload : list Z) (ttl : Z) (message_id : Token) :
    Node TlsCertificate :=
  if bool_decide (message_id ∈ seen_gossip_messages n) then n
  else
    let n := n <| seen_gossip_messages ::= λ s, {[message_id]} ∪ s |> in
    let n := push_event n (NewFrame from_peer payload) in
    if GOSSIP_MAX_TTL <? ttl then n
    else
      let '(peers, n) := sample_peers n FANOUT in
      match filter (λ a, a ≠ from_peer) peers with
      | [] => n
      | peers => (send_multicast n peers (Gossip payload (ttl + 1) message_id)).2
      end.

Definition default_name_mapping (addr : SocketAddr) : string :=
  ip_to_string addr +:+ "." +:+ pretty.pretty (addr_port addr) +:+ ".nodes.zenotta.xyz".
Definition socket_name_mapping_or_default (mapping : gmap SocketAddr string) (addr : SocketAddr) : string :=
  match mapping !! addr with
  | Some name => name
  | None => default (default_name_mapping addr) (mapping !! set_port addr 0)
  end.

Definition verify_is_valid_for_dns_names (cert : TlsCertificate) (tls_names : list string) : CommsError + unit :=
  if negb (forallb try_from_ascii_str tls_names) then inl (ConfigError "invalid dnsname")
  else if EndEntityCert_from cert && verify_is_valid_for_at_least_one_dns_name cert tls_names then inr tt
  else inl TlsError.

(** The validation of the name in a certificate by compute and storage nodes. *)
Definition check_peer_cert n (peer_in_addr : SocketAddr) (peer_cert : option TlsCertificate) (t : NodeType) :
    CommsError + unit :=
  if bool_decide (node_type n = NodeCompute ∨ node_type n = NodeStorage) then
    match peer_cert with
    | Some cert =>
        if bool_decide (t ≠ Miner ∧ t ≠ User) then
          verify_is_valid_for_dns_names cert [socket_name_mapping_or_default (socket_name_mapping n) peer_in_addr]
        else inr tt
    | None => inr tt
    end
  else inr tt.

Definition handle_handshake_request n (peer_out_addr peer_in_addr : SocketAddr) (peer_cert : option TlsCertificate)
    (version : Z) (t : NodeType) : StepEnd SocketAddr * Node TlsCertificate :=
  let peer_in_addr := with_ip_of peer_out_addr (addr_port peer_in_addr) in
  let info := mkPeerInfo (Some t) (Some peer_in_addr) in
  if negb (is_compatible n t version) then (Failed (PeerIncompatible info), n)
  else if bool_decide (is_Some (peers n !! peer_in_addr)) then (Failed (PeerDuplicate info), n)
  else match peers n !! peer_out_addr with
       | None => (Failed (not_found None peer_out_addr), n)
       | Some peer =>
           match check_peer_cert n peer_in_addr peer_cert t with
           | inl e => (Failed e, n)
           | inr _ =>
               let n := n <| peers ::= <[peer_out_addr := peer <| pr_network_version := Some version |>
                          <| peer_type := Some t |> <| pr_public_address := Some peer_in_addr |>]> |> in
               let response := HandshakeResponse (network_version n) (node_type n) (ring_peers n) peer_in_addr in
               (Done peer_in_addr, send_bytes n peer_out_addr response)
           end
       end.

(** Sending the notification fails when its receiver was dropped. *)
Definition handle_handshake_response n (peer_addr : SocketAddr) (version : Z) (t : NodeType)
    (contacts : list SocketAddr) (public_address : SocketAddr) : StepEnd unit * Node TlsCertificate :=
  if negb (is_compatible n t version) then
    (Failed (PeerIncompatible (mkPeerInfo (Some t) (Some peer_addr))), n)
  else match peers n !! peer_addr with
       | None => (Failed (not_found (Some t) peer_addr), n)
       | Some peer =>
           let n := n <| peers ::= <[peer_addr := peer <| pr_network_version := Some version |>
                      <| peer_type := Some t |> <| notify_tx := false |>]> |> in
           if notify_tx peer && bool_decide (notify_rx peer = RxDropped) then (Panicked, n)
           else
             let known_peers := omap pr_public_address (bt_values (peers n)) in
             let unknown_peers := filter (λ a, a ∉ known_peers) (bt_elems (list_to_set contacts : gset SocketAddr)) in
             let n := if connect_to_handshake_contacts n then n <| spawned ::= λ l, l ++ unknown_peers |> else n in
             (Done tt, n <| public_listener_address := Some public_address |>)
       end.

(** *** The task of a connection *)
Definition end_task n (c : nat) (addr : SocketAddr) : Node TlsCertificate :=
  n <| peers ::= delete addr |> <| tasks ::= delete c |>.

Definition set_task_state n (c : nat) (t : Task TlsCertificate) (st : TaskState) : Node TlsCertificate :=
  n <| tasks ::= <[c := t <| task_state := st |>]> |>.

(** [handle_peer_recv_handshake]: one message. *)
Definition recv_handshake n (c : nat) (t : Task TlsCertificate) (message : CommMessage) : Node TlsCertificate :=
  let peer_addr := task_peer_addr t in
  match message with
  | HandshakeRequest v ty public_address =>
      match handle_handshake_request n peer_addr public_address (task_cert t) v ty with
      | (Done addr, n) => set_task_state n c t (Shaken addr)
      | (Failed _, n) => end_task n c peer_addr
      | (Panicked, n) => n <| tasks ::= delete c |>
      end
  | HandshakeResponse v ty contacts public_address =>
      match handle_handshake_response n peer_addr v ty contacts public_address with
      | (Done _, n) => set_task_state n c t (Shaken peer_addr)
      | (Failed _, n) => end_task n c peer_addr
      | (Panicked, n) => n <| tasks ::= delete c |>
      end
  | _ => n
  end.

(** [handle_peer_recv]: one message. *)
Definition recv_ready n (peer_addr : SocketAddr) (message : CommMessage) : Node TlsCertificate :=
  match message with
  | Direct payload _ => push_event n (NewFrame peer_addr payload)
  | Gossip payload ttl id => handle_gossip n peer_addr payload ttl id
  | _ => n
  end.

Definition recv_message n (c : nat) (message : CommMessage) : Node TlsCertificate :=
  match tasks n !! c with
  | Some t =>
      if stream_closed t then n
      else match task_state t with
           | WaitingForHandshake => recv_handshake n c t message
           | Shaken _ => n
           | Ready addr => recv_ready n addr message
           end
  | None => n
  end.

(** The peer is moved to its public address. *)
Definition move_peer n (c : nat) : Node TlsCertificate :=
  match tasks n !! c with
  | Some t =>
      match task_state t with
      | Shaken public_address =>
          match peers n !! task_peer_addr t with
          | Some peer =>
              set_task_state (n <| peers ::= λ m, <[public_address := peer]> (delete (task_peer_addr t) m) |>) c t
                (Ready public_address)
          | None => n <| tasks ::= delete c |>
          end
      | _ => n
      end
  | None => n
  end.

(** The stream of messages ends: the connection failed, a frame was invalid, or
    the peer was dropped. *)
Definition end_stream n (c : nat) : Node TlsCertificate :=
  match tasks n !! c with
  | Some t =>
      match task_state t with
      | WaitingForHandshake => set_task_state n c (t <| stream_closed := true |>) (Shaken (task_peer_addr t))
      | Shaken _ => n <| tasks ::= <[c := t <| stream_closed := true |>]> |>
      | Ready addr => end_task n c addr
      end
  | None => n
  end.

(** *** Queries *)
Definition get_peers n : gmap SocketAddr (option NodeType) := peer_type <$> peers n.

(** [get_peer_list] sorts by exchanging neighbours. *)
Fixpoint bubble (l : list (string * SocketAddr)) (k : nat) : list (string * SocketAddr) :=
  match k, l with
  | S k, x :: y :: l => if key_leb x.1 y.1 then x :: bubble (y :: l) k else y :: bubble (x :: l) k
  | _, _ => l
  end.
Fixpoint bubble_sort (l : list (string * SocketAddr)) (k : nat) : list (string * SocketAddr) :=
  match k with
  | O => l
  | S k => bubble_sort (bubble l k) k
  end.
Definition node_type_as_str (t : NodeType) : string :=
  match t with
  | Miner => "Miner" | NodeCompute => "Compute" | NodeStorage => "Storage" | User => "User" | PreLaunch => "Prelaunch"
  end.
Definition get_peer_list n : list (string * SocketAddr * string) :=
  let sort_keys := map (λ k, (addr_to_string k, k)) (bt_keys (peers n)) in
  omap (λ key, match get_peer_node_type n key.2 with
               | inr t => if bool_decide (t = NodeCompute ∨ t = NodeStorage)
                          then Some (key.1, key.2, node_type_as_str t) else None
               | inl _ => None
               end) (bubble_sort sort_keys (length sort_keys)).
End comms.

(** ** Reachable states

    [node_step] is one step of the node: a request of its user, a connection, or
    a step of the task of a connection; tasks interleave in any order. *)
Section reach.
Context `{CommsCrates, Ipv6Display}.
Implicit Types n : Node TlsCertificate.

Inductive node_step n : Node TlsCertificate → Prop :=
  | step_accept addr cert : node_step n (accept_connection n addr cert)
  | step_connect peer stream : node_step n (connect_to n peer stream).2
  | step_drop_receiver c : node_step n (drop_handshake_receiver n c)
  | step_recv c msg : node_step n (recv_message n c msg)
  | step_move c : node_step n (move_peer n c)
  | step_end c : node_step n (end_stream n c)
  | step_send peer payload : node_step n (send n peer payload).2
  | step_send_to_all l payload : node_step n (send_to_all n l payload).2
  | step_multicast payload : node_step n (multicast n payload).2
  | step_heartbeat l : node_step n (heartbeat_tick n l)
  | step_disconnect subset : node_step n (disconnect_all n subset)
  | step_shutdown : node_step n (shutdown_connections n)
  | step_pause b : node_step n (set_pause_listening n b)
  | step_contacts b : node_step n (set_connect_to_handshake_contacts n b)
  | step_inject peer payload : node_step n (inject_next_event n peer payload)
  | step_next_event e n' : next_event n = Some (e, n') → node_step n n'.

Definition node_reach : relation (Node TlsCertificate) := rtc node_step.

(** What most operations leave alone. *)
Definition same_peers : relation (Node TlsCertificate) := λ n n',
  peers n' = peers n ∧ peer_limit n' = peer_limit n ∧ network_version n' = network_version n ∧
  node_type n' = node_type n.

#[export] Instance same_peers_preorder : PreOrder same_peers.
Proof.
  split; [done|]. intros n1 n2 n3 (?&?&?&?) (?&?&?&?). unfold same_peers. split_and!; by etrans.
Qed.

Lemma same_peers_multicast l msg n : same_peers n (send_multicast n l msg).2.
Proof.
  revert n; induction l as [|a l IH]; intros n; cbn; [done|].
  destruct (send_message n a msg) as [res n1] eqn:E.
  specialize (IH n1). destruct (send_multicast n1 l msg) as [un n2]. cbn in IH |- *.
  etrans; [|exact IH]. revert E. unfold send_message. by destruct (peers n !! a); intros [= _ <-].
Qed.

Lemma same_peers_message n a msg : same_peers n (send_message n a msg).2.
Proof. unfold send_message. by destruct (peers n !! a). Qed.

Lemma same_peers_send_all n l payload : same_peers n (send_to_all n l payload).2.
Proof. by etrans; [|apply same_peers_multicast]. Qed.

(** A connected peer has the version of the node and a type it works with, and
    there are no more peers than the limit. *)
Definition peer_compatible n (p : Peer) : Prop :=
  match pr_network_version p with
  | Some v => v = network_version n ∧ ∃ t, peer_type p = Some t ∧ (node_type n = PreLaunch ↔ t = PreLaunch)
  | None => True
  end.
Definition same_settings : relation (Node TlsCertificate) := λ n n',
  peer_limit n' = peer_limit n ∧ network_version n' = network_version n ∧ node_type n' = node_type n.
Context (n0 : Node TlsCertificate).
Definition peers_ok n : Prop :=
  zsize (peers n) ≤ peer_limit n ∧ map_Forall (λ _, peer_compatible n) (peers n) ∧ same_settings n0 n.

Lemma peers_ok_same n n' : same_peers n n' → peers_ok n → peers_ok n'.
Proof. unfold peers_ok, peer_compatible, same_settings. by intros (-> & -> & -> & ->). Qed.

(** A change of the peers: every new entry is a compatible one. *)
Lemma peers_ok_change n n' : peer_limit n' = peer_limit n → network_version n' = network_version n →
  node_type n' = node_type n → (size (peers n') ≤ size (peers n))%nat ∨ zsize (peers n') ≤ peer_limit n →
  (∀ a p, peers n' !! a = Some p → peer_compatible n p ∨ ∃ b, peers n !! b = Some p) →
  peers_ok n → peers_ok n'.
Proof.
  intros El Ev Et Hsz Hp (Hl & Hc & Hset). split_and!; [| |unfold same_settings; by rewrite El, Ev, Et].
  - rewrite El. unfold zsize in *. lia.
  - intros a p [Hpc|[b Hb]]%Hp; unfold peer_compatible in *; rewrite Ev, Et; [done|by apply (Hc b)].
Qed.

Lemma is_compatible_spec n t v : is_compatible n t v = true ↔
  v = network_version n ∧ (node_type n = PreLaunch ↔ t = PreLaunch).
Proof.
  unfold is_compatible. rewrite andb_true_iff, Z.eqb_eq, eqb_true_iff.
  split; intros [E1 E2]; (split; [done|]).
  - by rewrite <-(bool_decide_eq_true (node_type n = PreLaunch)), E2, bool_decide_eq_true.
  - by apply bool_decide_ext.
Qed.

Lemma size_insert_present (m : gmap SocketAddr Peer) a p : is_Some (m !! a) → size (<[a := p]> m) = size m.
Proof. intros Ha. by rewrite map_size_insert_Some. Qed.

(** Only the peers are replaced. *)
Lemma peers_ok_map n n' (f : gmap SocketAddr Peer → gmap SocketAddr Peer) :
  same_peers (n <| peers ::= f |>) n' → (size (f (peers n)) ≤ size (peers n))%nat →
  (∀ a p, f (peers n) !! a = Some p → peer_compatible n p ∨ ∃ b, peers n !! b = Some p) →
  peers_ok n → peers_ok n'.
Proof.
  intros Hs Hsz Hp Hok. apply (peers_ok_same _ _ Hs).
  apply (peers_ok_change n); [done|done|done|by left|done|done].
Qed.
Lemma peers_ok_delete n n' (f : gmap SocketAddr Peer → gmap SocketAddr Peer) :
  same_peers (n <| peers ::= f |>) n' → f (peers n) ⊆ peers n → peers_ok n → peers_ok n'.
Proof.
  intros Hs Hf. apply (peers_ok_map _ _ f); [done|by apply map_subseteq_size|].
  intros a p Hp. right. exists a. by eapply lookup_weaken.
Qed.

Lemma end_task_ok n c a : peers_ok n → peers_ok (end_task n c a).
Proof. apply (peers_ok_delete _ _ (delete a)); [done|apply delete_subseteq]. Qed.

(** One entry is replaced by a compatible one. *)
Lemma peers_ok_update n n' a p p' : same_peers (n <| peers ::= <[a := p']> |>) n' → peers n !! a = Some p →
  (peer_compatible n p → peer_compatible n p') → peers_ok n → peers_ok n'.
Proof.
  intros Hs Ha Hp Hok. pose proof Hok as (_ & Hc & _).
  apply (peers_ok_map n _ <[a := p']>); [done|by rewrite map_size_insert_Some| |done].
  intros b q [[-> ->]|[_ Hb]]%lookup_insert_Some; [left; apply Hp, (Hc _ _ Ha)|right; by exists b].
Qed.

Lemma add_peer_ok n addr cert force b : peers_ok n → peers_ok (add_peer n addr cert force b).2.
Proof.
  intros Hok. unfold add_peer. destruct (Z.leb_spec (peer_limit n) (zsize (peers n))) as [Hle|Hlt]; cbn [negb].
  - rewrite andb_true_r. destruct force; [|done].
    apply (peers_ok_delete n _ (λ _, ∅)); [done|apply map_empty_subseteq|done].
  - rewrite andb_false_r. cbn [handle_peer snd]. set (p := mkPeer _ _ _ _ _ _ _).
    apply (peers_ok_change n); [done|done|done| | |done].
    + right. change (zsize (<[addr := p]> (peers n)) ≤ peer_limit n). unfold zsize in *.
      rewrite map_size_insert. destruct (peers n !! addr); unfold id; lia.
    + intros a q Hq. change (<[addr := p]> (peers n) !! a = Some q) in Hq.
      apply lookup_insert_Some in Hq as [[_ <-]|[_ Hq]]; [by left|right; by exists a].
Qed.

Lemma handshake_request_ok n out inn cert v t : peers_ok n → peers_ok (handle_handshake_request n out inn cert v t).2.
Proof.
  intros Hok. unfold handle_handshake_request. cbv zeta.
  destruct (is_compatible n t v) eqn:Ec; cbn [negb]; [|done].
  case_bool_decide; [done|]. destruct (peers n !! out) as [p|] eqn:Ep; [|done].
  destruct (check_peer_cert _ _ _ _); [done|]. cbn [snd].
  eapply (peers_ok_update n _ out p); [done|done| |done].
  intros _. apply is_compatible_spec in Ec as [-> Ht]. split; [done|]. by exists t.
Qed.

Lemma handshake_response_ok n a v t l pub : peers_ok n → peers_ok (handle_handshake_response n a v t l pub).2.
Proof.
  intros Hok. unfold handle_handshake_response. cbv zeta.
  destruct (is_compatible n t v) eqn:Ec; cbn [negb]; [|done].
  destruct (peers n !! a) as [p|] eqn:Ep; [|done].
  set (n1 := n <| peers ::= _ |>).
  assert (Hok1 : peers_ok n1).
  { eapply (peers_ok_update n _ a p); [done|done| |done].
    intros _. apply is_compatible_spec in Ec as [-> Ht]. split; [done|]. by exists t. }
  destruct (_ && _); [done|]. destruct (connect_to_handshake_contacts _); by eapply peers_ok_same, Hok1.
Qed.

Lemma move_peer_ok n c : peers_ok n → peers_ok (move_peer n c).
Proof.
  intros Hok. unfold move_peer. destruct (tasks n !! c) as [t|]; [|done].
  destruct (task_state t) as [|pub|]; [done| |done].
  destruct (peers n !! task_peer_addr t) as [p|] eqn:Ep; [|by eapply peers_ok_same, Hok].
  eapply (peers_ok_map n _ (λ m, <[pub := p]> (delete (task_peer_addr t) m))); [done| | |done].
  - rewrite map_size_insert. assert (Hd := map_size_delete_Some (task_peer_addr t) (peers n) (mk_is_Some _ _ Ep)).
    assert (Hp : size (peers n) ≠ 0%nat) by (intros E; apply map_size_empty_inv in E; by rewrite E in Ep).
    destruct (delete _ _ !! pub); unfold id; lia.
  - intros a q [[_ <-]|[_ Hq]]%lookup_insert_Some; right; [by exists (task_peer_addr t)|].
    apply lookup_delete_Some in Hq as [_ Hq]. by exists a.
Qed.

Lemma end_stream_ok n c : peers_ok n → peers_ok (end_stream n c).
Proof.
  intros Hok. unfold end_stream. destruct (tasks n !! c) as [t|]; [|done].
  destruct (task_state t); [by eapply peers_ok_same, Hok..|by apply end_task_ok].
Qed.

Lemma same_peers_gossip n a payload ttl id : same_peers n (handle_gossip n a payload ttl id).
Proof.
  unfold handle_gossip. case_bool_decide; [done|]. destruct (_ <? _); [done|]. cbv zeta.
  unfold sample_peers. cbn [gen]. destruct (filter _ _); [done|]. by etrans; [|apply same_peers_multicast].
Qed.

Lemma recv_message_ok n c msg : peers_ok n → peers_ok (recv_message n c msg).
Proof.
  intros Hok. unfold recv_message. destruct (tasks n !! c) as [t|]; [|done]. destruct (stream_closed t); [done|].
  destruct (task_state t) as [| |a]; [|done|].
  - unfold recv_handshake. destruct msg as [v ty pub|v ty l pub| | |]; [..|done|done|done].
    + pose proof (handshake_request_ok n (task_peer_addr t) pub (task_cert t) v ty Hok) as Hr.
      destruct (handle_handshake_request _ _ _ _ _ _) as [[] n1]; cbn in Hr |- *;
        [by eapply peers_ok_same, Hr|by apply end_task_ok|by eapply peers_ok_same, Hr].
    + pose proof (handshake_response_ok n (task_peer_addr t) v ty l pub Hok) as Hr.
      destruct (handle_handshake_response _ _ _ _ _ _) as [[] n1]; cbn in Hr |- *;
        [by eapply peers_ok_same, Hr|by apply end_task_ok|by eapply peers_ok_same, Hr].
  - destruct msg; cbn; [done|done|by eapply peers_ok_same, Hok; apply same_peers_gossip|by eapply peers_ok_same, Hok|done].
Qed.

Lemma connect_to_ok n peer stream : peers_ok n → peers_ok (connect_to n peer stream).2.
Proof.
  intros Hok. unfold connect_to.
  assert (Hc : peers_ok (connect_to_peer n peer stream).2).
  { unfold connect_to_peer. case_bool_decide; [done|]. destruct (listener_and_connect_paused n); [done|].
    destruct stream as [|[a cert]]; [done|by apply add_peer_ok]. }
  destruct (connect_to_peer n peer stream) as [[] n1]; [done|]. cbn in Hc.
  unfold send_handshake. set (msg := HandshakeRequest _ _ _).
  pose proof (peers_ok_same _ _ (same_peers_message n1 peer msg) Hc) as Hs.
  destruct (send_message n1 peer msg) as [[] n2]; [done|]. cbn in Hs. unfold take_handshake_receiver.
  destruct (peers n2 !! peer) as [p|] eqn:Ep; [|done]. destruct (notify_rx p); try done.
  by eapply (peers_ok_update n2 _ peer p).
Qed.

Lemma drop_receiver_ok n c : peers_ok n → peers_ok (drop_handshake_receiver n c).
Proof.
  intros (Hl & Hc & Hset). split_and!; [cbn; unfold zsize; by rewrite map_size_fmap| |done].
  intros a p. cbn. rewrite lookup_fmap, fmap_Some. intros (q & Hq & ->).
  specialize (Hc a q Hq). by case_bool_decide.
Qed.

Lemma disconnect_all_ok n s : peers_ok n → peers_ok (disconnect_all n s).
Proof.
  destruct s as [l|].
  - apply (peers_ok_delete n _ (λ m, foldl (λ m a, delete a m) m l)); [done|].
    generalize (peers n) as m. induction l as [|a l IH]; intros m; cbn; [done|].
    etrans; [apply IH|apply delete_subseteq].
  - apply (peers_ok_delete n _ (λ _, ∅)); [done|apply map_empty_subseteq].
Qed.

Lemma node_step_ok n n' : node_step n n' → peers_ok n → peers_ok n'.
Proof.
  intros [] Hok; cbn [snd];
    try first [by apply connect_to_ok|by apply drop_receiver_ok|by apply recv_message_ok|by apply move_peer_ok
              |by apply end_stream_ok|by apply disconnect_all_ok|done].
  - unfold accept_connection. destruct (_ || _); [done|by apply add_peer_ok].
  - by eapply peers_ok_same, Hok; etrans; [|apply same_peers_message].
  - by eapply peers_ok_same, Hok; apply same_peers_send_all.
  - unfold multicast, sample_peers. cbn [gen]. destruct (choose_multiple _ _ _); [done|].
    by eapply peers_ok_same, Hok; etrans; [|apply same_peers_multicast].
  - unfold heartbeat_tick, send_heartbeat_message. destruct (heartbeat n); [|done]. cbn [gen].
    pose proof (same_peers_multicast l (HeartBeatProbe (thread_rng n 0%nat)) (n <| thread_rng ::= λ r i, r (S i) |>)) as Hm.
    destruct (send_multicast _ _ _) as [[|a un] n1]; cbn in Hm; [by eapply peers_ok_same, Hok|].
    eapply (peers_ok_delete n1 _ (filter _)); [done|apply map_filter_subseteq|]. by eapply peers_ok_same, Hok.
  - unfold next_event in *. destruct (event_queue n) as [|e' l]; [done|]. simplify_eq. by eapply peers_ok_same, Hok.
Qed.

Lemma reach_ok n : peers_ok n0 → node_reach n0 n → peers_ok n.
Proof. intros H0' Hr. induction Hr as [|n1 n2 n3 Hs _ IH]; [done|]. by eapply IH, node_step_ok. Qed.
End reach.

(** Whatever connections are made, lost, rejected and timed out, and however
    the tasks of the connections interleave, the node never holds more peers
    than its limit, and every peer it counts as connected shook hands with the
    network version of the node and a type it works with. *)
Theorem reach_peers_ok `{CommsCrates, Ipv6Display} (address : SocketAddr) mapping rng limit ty version listen hb
    (n : Node TlsCertificate) :
  0 ≤ limit → node_reach (Node_new address mapping rng limit ty version listen hb) n →
  zsize (peers n) ≤ limit ∧
  ∀ l a, a ∈ l → a ∉ unconnected_peers n l →
    ∃ p t, peers n !! a = Some p ∧ pr_network_version p = Some version ∧ peer_type p = Some t ∧
      (ty = PreLaunch ↔ t = PreLaunch).
Proof.
  intros Hlim Hr. assert (H0' : peers_ok (Node_new address mapping rng limit ty version listen hb)
    (Node_new address mapping rng limit ty version listen hb)).
  { split_and!; [exact Hlim|apply map_Forall_empty|done]. }
  destruct (reach_ok _ n H0' Hr) as (Hl & Hc & El & Ev & Et). cbn in El, Ev, Et.
  split; [by rewrite <-El|]. intros l a Ha Hun. unfold unconnected_peers in Hun.
  rewrite list_elem_of_filter in Hun. destruct (peers n !! a) as [p|] eqn:Ep; [|naive_solver]. cbn in Hun.
  destruct (pr_network_version p) as [v|] eqn:Epv; [|naive_solver].
  pose proof (Hc a p Ep) as Hp. unfold peer_compatible in Hp. rewrite Epv in Hp. destruct Hp as [-> (t & Ht & Hty)].
  exists p, t. by rewrite <-Ev, <-Et.
Qed.

(** ** The handshake *)
Section handshake.
Context `{CommsCrates, Ipv6Display}.
Implicit Types n : Node TlsCertificate.

Definition has_room n : Prop := zsize (peers n) < peer_limit n ∧ listener_and_connect_paused n = false.

(** Adding a peer to a node with room. *)
Lemma add_peer_room n addr cert (init : bool) : has_room n →
  let c := next_conn n in
  add_peer n addr cert false init = (inr tt, n <| next_conn := S c |>
    <| tasks ::= <[c := mkTask addr cert WaitingForHandshake false]> |>
    <| peers ::= <[addr := mkPeer None addr None (if init then None else Some addr) (negb init)
                             (if init then RxNone else RxHeld) c]> |>).
Proof. intros [Hr _]. unfold add_peer. destruct (Z.leb_spec (peer_limit n) (zsize (peers n))); [lia|]. by destruct init. Qed.

Lemma connect_to_room n peer cert : has_room n → peers n !! peer = None →
  let c := next_conn n in
  connect_to n peer (inr (peer, cert)) = (inr c, n <| next_conn := S c |>
    <| tasks ::= <[c := mkTask peer cert WaitingForHandshake false]> |>
    <| peers ::= λ m, <[peer := mkPeer None peer None (Some peer) true RxWaiting c]> m |>
    <| sent ::= λ l, l ++ [(peer, HandshakeRequest (network_version n) (node_type n) (local_listener_address n))] |>).
Proof.
  intros Hr Hp. pose proof Hr as [_ Hpause]. unfold connect_to, connect_to_peer. rewrite Hp, bool_decide_false by (by intros [? ?]).
  rewrite Hpause, (add_peer_room n peer cert false Hr). unfold send_handshake, send_message. cbn.
  rewrite lookup_insert_eq. cbn. unfold take_handshake_receiver. cbn. rewrite lookup_insert_eq. cbn.
  unfold setter. cbn. by rewrite insert_insert_eq.
Qed.
(** The node that accepts a connection from [out] and receives the request of a
    node that listens on [inn]. *)
Lemma listener_side n out inn cert v t : has_room n → listening n = true →
  is_compatible n t v = true → let pub := with_ip_of out (addr_port inn) in
  pub ≠ out → peers n !! pub = None → check_peer_cert n pub cert t = inr tt →
  let c := next_conn n in
  let n' := move_peer (recv_message (accept_connection n out cert) c (HandshakeRequest v t inn)) c in
  ∃ contacts, sent n' = sent n ++ [(out, HandshakeResponse (network_version n) (node_type n) contacts pub)] ∧
    peers n' !! pub = Some (mkPeer (Some v) out (Some t) (Some pub) false RxNone c) ∧
    tasks n' !! c = Some (mkTask out cert (Ready pub) false) ∧
    event_queue n' = event_queue n.
Proof.
  intros Hroom Hl Hc pub Hpub Hnone Hcert c n'. pose proof Hroom as [_ Hp]. subst n'.
  unfold accept_connection. rewrite Hl, Hp. cbn [negb orb]. rewrite (add_peer_room n out cert true Hroom). cbn [snd].
  fold c. unfold recv_message. cbn [tasks setter]. rewrite lookup_insert_eq. cbn [stream_closed task_state recv_handshake].
  unfold handle_handshake_request. cbn [task_peer_addr task_cert]. fold pub. cbv zeta.
  set (n1 := setter _ _). change (is_compatible n1 t v) with (is_compatible n t v). rewrite Hc. cbn [negb].
  change (peers n1) with (<[out := mkPeer None out None None false RxNone c]> (peers n)).
  rewrite lookup_insert_ne, Hnone, bool_decide_false by (done || by intros [? ?]). rewrite lookup_insert_eq.
  change (check_peer_cert n1 pub cert t) with (check_peer_cert n pub cert t). rewrite Hcert.
  set (n2 := n1 <| peers ::= _ |>). unfold move_peer, set_task_state. cbn [tasks setter].
  change (tasks (send_bytes n2 out _)) with (<[c := mkTask out cert WaitingForHandshake false]> (tasks n)).
  rewrite lookup_insert_eq. cbn [task_state setter task_peer_addr].
  change (peers (setter _ (send_bytes n2 out _))) with (<[out := mkPeer (Some v) out (Some t) (Some pub) false RxNone c]>
     (<[out := mkPeer None out None None false RxNone c]> (peers n))).
  rewrite lookup_insert_eq. eexists. split_and!; [reflexivity| | |reflexivity]; cbn; by rewrite lookup_insert_eq.
Qed.

(** The node that connected and receives the response. *)
Lemma initiator_side n peer cert v t contacts pub : has_room n → peers n !! peer = None →
  is_compatible n t v = true →
  let c := next_conn n in
  let n' := move_peer (recv_message (connect_to n peer (inr (peer, cert))).2 c
              (HandshakeResponse v t contacts pub)) c in
  peers n' !! peer = Some (mkPeer (Some v) peer (Some t) (Some peer) false RxWaiting c) ∧
  public_listener_address n' = Some pub ∧
  tasks n' !! c = Some (mkTask peer cert (Ready peer) false) ∧ event_queue n' = event_queue n.
Proof.
  intros Hroom Hnone Hc c n'. subst n'. rewrite (connect_to_room n peer cert Hroom Hnone). cbn [snd]. fold c.
  set (n1 := setter _ _). unfold recv_message.
  assert (Ht : tasks n1 !! c = Some (mkTask peer cert WaitingForHandshake false)) by apply lookup_insert_eq.
  rewrite Ht. cbn [stream_closed task_state recv_handshake]. unfold handle_handshake_response. cbn [task_peer_addr]. cbv zeta.
  change (is_compatible n1 t v) with (is_compatible n t v). rewrite Hc. cbn [negb].
  assert (Hp : peers n1 !! peer = Some (mkPeer None peer None (Some peer) true RxWaiting c)) by apply lookup_insert_eq.
  rewrite Hp. cbn [notify_tx notify_rx andb]. rewrite bool_decide_false by done.
  set (n2 := n1 <| peers ::= _ |>).
  assert (Hp2 : peers n2 !! peer = Some (mkPeer (Some v) peer (Some t) (Some peer) false RxWaiting c))
    by apply lookup_insert_eq.
  set (n3 := if connect_to_handshake_contacts n2 then _ else n2).
  assert (H3 : peers n3 = peers n2 ∧ tasks n3 = tasks n2 ∧ event_queue n3 = event_queue n)
    by (subst n3; by destruct (connect_to_handshake_contacts n2)). destruct H3 as (H3p & H3t & H3e).
  unfold move_peer, set_task_state. cbn [tasks setter]. rewrite lookup_insert_eq. cbn [task_state setter task_peer_addr].
  change (peers (setter _ (setter _ n3))) with (peers n3). rewrite H3p, Hp2.
  split_and!; [cbn; by rewrite lookup_insert_eq|done|cbn; by rewrite lookup_insert_eq|exact H3e].
Qed.

(** C24: connecting works: when both nodes have room and accept each other's
    version, type and certificate, the exchange of the two handshake messages
    leaves each node connected to the other, the connecting node knows its
    public address, and what either sends then reaches the other as an event
    from the address it knows the sender by. *)
Theorem handshake_connects (a b : Node TlsCertificate) (b_addr a_sock : SocketAddr) cert_a cert_b :
  let a_pub := with_ip_of a_sock (addr_port (local_listener_address a)) in
  let ca := next_conn a in let cb := next_conn b in
  has_room a → has_room b → listening b = true →
  peers a !! b_addr = None → a_pub ≠ a_sock → peers b !! a_pub = None →
  is_compatible b (node_type a) (network_version a) = true →
  check_peer_cert b a_pub cert_a (node_type a) = inr tt →
  let a1 := (connect_to a b_addr (inr (b_addr, cert_b))).2 in
  ∃ request response, sent a1 = sent a ++ [(b_addr, request)] ∧
    let b2 := move_peer (recv_message (accept_connection b a_sock cert_a) cb request) cb in
    sent b2 = sent b ++ [(a_sock, response)] ∧
    let a2 := move_peer (recv_message a1 ca response) ca in
    unconnected_peers a2 [b_addr] = [] ∧ unconnected_peers b2 [a_pub] = [] ∧
    public_listener_address a2 = Some a_pub ∧
    ∀ payload id,
      event_queue (recv_message b2 cb (Direct payload id)) = event_queue b ++ [NewFrame a_pub payload] ∧
      event_queue (recv_message a2 ca (Direct payload id)) = event_queue a ++ [NewFrame b_addr payload].
Proof.
  intros a_pub ca cb Ha Hb Hl Hnone Hpub Hnb Hcomp Hcert a1.
  exists (HandshakeRequest (network_version a) (node_type a) (local_listener_address a)).
  destruct (listener_side b a_sock (local_listener_address a) cert_a _ _ Hb Hl Hcomp Hpub Hnb Hcert)
    as (contacts & Hs & Hpb & Htb & Heb).
  eexists. split; [subst a1; by rewrite (connect_to_room a b_addr cert_b Ha Hnone)|].
  intros b2. split; [exact Hs|]. intros a2.
  assert (Hcomp' : is_compatible a (node_type b) (network_version b) = true).
  { apply is_compatible_spec in Hcomp as [Hv Hty]. apply is_compatible_spec. by rewrite Hv, Hty. }
  destruct (initiator_side a b_addr cert_b _ _ contacts a_pub Ha Hnone Hcomp') as (Hpa & Hpl & Hta & Hea).
  change (peers a2 !! b_addr = Some (mkPeer (Some (network_version b)) b_addr (Some (node_type b)) (Some b_addr)
    false RxWaiting ca)) in Hpa.
  change (peers b2 !! a_pub = Some (mkPeer (Some (network_version a)) a_sock (Some (node_type a)) (Some a_pub)
    false RxNone cb)) in Hpb.
  change (tasks a2 !! ca = Some (mkTask b_addr cert_b (Ready b_addr) false)) in Hta.
  change (tasks b2 !! cb = Some (mkTask a_sock cert_a (Ready a_pub) false)) in Htb.
  change (event_queue a2 = event_queue a) in Hea. change (event_queue b2 = event_queue b) in Heb.
  split_and!.
  - unfold unconnected_peers. by rewrite filter_cons_False by (by rewrite Hpa).
  - unfold unconnected_peers. by rewrite filter_cons_False by (by rewrite Hpb).
  - exact Hpl.
  - intros payload id. unfold recv_message. rewrite Hta, Htb. cbn. by rewrite Hea, Heb.
Qed.

(** A handshake response that arrives after [connect_to] stopped waiting
    panics in the task of the connection: the peer is counted as connected from
    then on, but nothing it sends is read any more, and connecting to it again
    fails. *)
Theorem late_response_dead n (c : nat) (t : Task TlsCertificate) p v ty contacts pub stream :
  tasks n !! c = Some t → task_state t = WaitingForHandshake → stream_closed t = false →
  peers n !! task_peer_addr t = Some p → conn p = c → notify_tx p = true → notify_rx p = RxWaiting →
  is_compatible n ty v = true →
  let n' := recv_message (drop_handshake_receiver n c) c (HandshakeResponse v ty contacts pub) in
  unconnected_peers n' [task_peer_addr t] = [] ∧
  (∀ msg, recv_message n' c msg = n') ∧
  ∃ e, (connect_to n' (task_peer_addr t) stream).1 = inl (PeerInvalidState e).
Proof.
  intros Ht Hst Hcl Hp Hconn Htx Hrx Hc n'. set (a := task_peer_addr t) in *.
  set (p1 := p <| notify_rx := RxDropped |>).
  set (p2 := p1 <| pr_network_version := Some v |> <| peer_type := Some ty |> <| notify_tx := false |>).
  assert (Hn' : peers n' !! a = Some p2 ∧ tasks n' !! c = None).
  { subst n'. unfold recv_message. change (tasks (drop_handshake_receiver n c)) with (tasks n). rewrite Ht, Hcl, Hst.
    unfold recv_handshake. fold a. unfold handle_handshake_response.
    change (is_compatible (drop_handshake_receiver n c) ty v) with (is_compatible n ty v). rewrite Hc. cbn [negb].
    assert (Hd : peers (drop_handshake_receiver n c) !! a = Some p1).
    { cbn. rewrite lookup_fmap, Hp. cbn. by rewrite bool_decide_true. }
    rewrite Hd. cbv zeta. cbn [notify_tx notify_rx p1 setter]. rewrite Htx. cbn [andb].
    rewrite bool_decide_true by done. cbn. by rewrite lookup_insert_eq, lookup_delete_eq. }
  destruct Hn' as [Hp' Ht'].
  split_and!.
  - unfold unconnected_peers. by rewrite filter_cons_False by (by rewrite Hp').
  - intros msg. unfold recv_message. by rewrite Ht'.
  - unfold connect_to, connect_to_peer. rewrite bool_decide_true by (by eexists).
    unfold send_handshake, send_message. rewrite Hp'. unfold take_handshake_receiver. cbn [peers setter send_bytes].
    change (peers (send_bytes n' a _)) with (peers n'). rewrite Hp'. cbn. by eexists.
Qed.

(** A task that ends removes the peer at its public address, even when that is
    the peer of a newer connection: a peer that reconnected before the task of
    its lost connection ended is dropped again. *)
Lemma stale_task_removes_peer n (c : nat) (t : Task TlsCertificate) a :
  tasks n !! c = Some t → task_state t = Ready a →
  unconnected_peers (end_stream n c) [a] = [a] ∧
  ∀ c', c' ≠ c → tasks (end_stream n c) !! c' = tasks n !! c'.
Proof.
  intros Ht Hst. unfold end_stream. rewrite Ht, Hst. split.
  - unfold unconnected_peers. rewrite filter_cons_True; [done|]. cbn. by rewrite lookup_delete_eq.
  - intros c' Hc. cbn. by rewrite lookup_delete_ne.
Qed.
End handshake.

(** ** Gossip in a network

    Nodes under their addresses, and gossip messages on their way.  A step
    delivers one of them, in any order, or loses it. *)
Record Packet := mkPacket {
  pk_from : SocketAddr; pk_to : SocketAddr; pk_payload : list Z; pk_ttl : Z; pk_id : Z }.
Record World (C : Type) := mkWorld { nodes : gmap SocketAddr (Node C); flight : list Packet }.
Arguments mkWorld {C}. Arguments nodes {C}. Arguments flight {C}.

Section gossip.
Context `{CommsCrates, !CommsCratesLaws}.
Implicit Types (n : Node TlsCertificate) (w : World TlsCertificate).

Definition packet_of (from : SocketAddr) (e : SocketAddr * CommMessage) : option Packet :=
  match e.2 with Gossip payload ttl id => Some (mkPacket from e.1 payload ttl id) | _ => None end.

Definition deliver n (p : Packet) : Node TlsCertificate * list Packet :=
  let n' := handle_gossip n (pk_from p) (pk_payload p) (pk_ttl p) (pk_id p) in
  (n', omap (packet_of (pk_to p)) (drop (length (sent n)) (sent n'))).

Inductive world_step w : World TlsCertificate → Prop :=
  | world_deliver l1 p l2 n : flight w = l1 ++ p :: l2 → nodes w !! pk_to p = Some n →
      world_step w (mkWorld (<[pk_to p := (deliver n p).1]> (nodes w)) (l1 ++ l2 ++ (deliver n p).2))
  | world_lose l1 p l2 : flight w = l1 ++ p :: l2 → world_step w (mkWorld (nodes w) (l1 ++ l2)).

Lemma multicast_sent l msg n : let n' := (send_multicast n l msg).2 in
  (∃ es, sent n' = sent n ++ es ∧ (length es ≤ length l)%nat ∧ Forall (λ e, e.2 = msg) es) ∧
  event_queue n' = event_queue n ∧ seen_gossip_messages n' = seen_gossip_messages n.
Proof.
  revert n; induction l as [|a l IH]; intros n; cbn.
  - split; [|done]. exists []. by rewrite app_nil_r.
  - destruct (send_message n a msg) as [res n1] eqn:E. specialize (IH n1).
    destruct (send_multicast n1 l msg) as [un n2]. cbn in IH |- *.
    destruct IH as ((es & -> & Hlen & Hes) & -> & ->). revert E. unfold send_message.
    destruct (peers n !! a); intros [= _ <-]; (split; [|done]).
    + exists ((a, msg) :: es). cbn. rewrite <-app_assoc. split_and!; [done|lia|by constructor].
    + exists es. split_and!; [done|lia|done].
Qed.

Lemma length_omap_le {A B : Type} (f : A → option B) (l : list A) : (length (omap f l) ≤ length l)%nat.
Proof. induction l as [|x l IH]; cbn; [lia|]. destruct (f x); cbn; lia. Qed.

(** What the delivery of a message comes to. *)
Lemma deliver_spec n p : let '(n', out) := deliver n p in
  if decide (pk_id p ∈ seen_gossip_messages n) then n' = n ∧ out = []
  else seen_gossip_messages n' = {[pk_id p]} ∪ seen_gossip_messages n ∧
       event_queue n' = event_queue n ++ [NewFrame (pk_from p) (pk_payload p)] ∧
       (length out ≤ FANOUT)%nat ∧
       Forall (λ q, pk_id q = pk_id p ∧ pk_payload q = pk_payload p ∧ pk_ttl q = pk_ttl p + 1 ∧
                    pk_ttl p ≤ GOSSIP_MAX_TTL) out.
Proof.
  unfold deliver, handle_gossip. case_decide as Hs.
  { rewrite bool_decide_true by done. by rewrite drop_all. }
  rewrite bool_decide_false by done. cbv zeta.
  destruct (Z.ltb_spec GOSSIP_MAX_TTL (pk_ttl p)) as [Ht|Ht].
  { cbn. rewrite drop_all. split_and!; [done|done|cbn; lia|constructor]. }
  unfold sample_peers. cbn [gen]. match goal with |- context [send_multicast ?m] => set (n1 := m) end.
  set (l := choose_multiple _ _ _).
  assert (Hl : (length (filter (λ a, a ≠ pk_from p) l) ≤ FANOUT)%nat).
  { etrans; [apply length_filter|]. apply choose_multiple_length. }
  destruct (filter _ l) as [|a l'] eqn:El.
  { cbn. rewrite drop_all. split_and!; [done|done|cbn; lia|constructor]. }
  destruct (multicast_sent (a :: l') (Gossip (pk_payload p) (pk_ttl p + 1) (pk_id p)) n1)
    as ((es & Hes & Hlen & Hall) & He & Hseen).
  rewrite Hes, He, Hseen. change (sent n1) with (sent n). rewrite drop_app_length.
  split_and!; [done|done| |].
  - etrans; [|exact Hl]. etrans; [|exact Hlen]. apply length_omap_le.
  - apply Forall_forall. intros q (e & He' & Hq)%list_elem_of_omap.
    rewrite Forall_forall in Hall. specialize (Hall e He'). unfold packet_of in Hq. rewrite Hall in Hq.
    by simplify_eq.
Qed.

(** The messages of a set that a node has not seen. *)
Context (I : gset Z).
Definition unseen n : nat := size (I ∖ seen_gossip_messages n).
Definition total_unseen (m : gmap SocketAddr (Node TlsCertificate)) : nat := map_fold (λ _ n k, unseen n + k)%nat 0%nat m.
Definition in_set w : Prop := Forall (λ p, pk_id p ∈ I) (flight w).
Definition gossip_measure w : nat := (length (flight w) + FANOUT * total_unseen (nodes w))%nat.

Lemma unseen_insert n n' z : seen_gossip_messages n' = {[z]} ∪ seen_gossip_messages n → z ∈ I →
  z ∉ seen_gossip_messages n → unseen n = S (unseen n').
Proof.
  intros Hs Hz Hn. unfold unseen. rewrite Hs.
  replace (I ∖ seen_gossip_messages n) with ({[z]} ∪ I ∖ ({[z]} ∪ seen_gossip_messages n)).
  - rewrite size_union by set_solver. by rewrite size_singleton.
  - apply set_eq. intros x. rewrite elem_of_union, !elem_of_difference, elem_of_union, elem_of_singleton.
    destruct (decide (x = z)) as [->|]; naive_solver.
Qed.

Lemma total_unseen_insert m a n n' : m !! a = Some n →
  (total_unseen (<[a := n']> m) + unseen n = total_unseen m + unseen n')%nat.
Proof.
  intros Ha. unfold total_unseen.
  rewrite (map_fold_delete_L _ _ a n m) by (done || (intros; lia)).
  rewrite (map_fold_delete_L _ _ a n' (<[a := n']> m)) by (apply lookup_insert_eq || (intros; lia)).
  rewrite delete_insert_eq. lia.
Qed.

(** Every step keeps the messages in the set and decreases the measure. *)
Lemma world_step_measure w w' : world_step w w' → in_set w →
  in_set w' ∧ (gossip_measure w' < gossip_measure w)%nat.
Proof.
  unfold in_set, gossip_measure.
  intros [l1 p l2 n Hf Hn|l1 p l2 Hf]; rewrite Hf; intros (H1 & [Hp H2]%Forall_cons)%Forall_app; cbn [flight nodes].
  - pose proof (deliver_spec n p) as Hd. destruct (deliver n p) as [n' out]. cbn [fst snd].
    pose proof (total_unseen_insert (nodes w) (pk_to p) n n' Hn) as Ht.
    rewrite !length_app. cbn [length]. case_decide as Hs.
    + destruct Hd as [-> ->]. split; [rewrite app_nil_r; by apply Forall_app|]. cbn [length]. unfold FANOUT. lia.
    + destruct Hd as (Hseen & _ & Hlen & Hall). split.
      * rewrite !Forall_app. split_and!; [done..|]. eapply Forall_impl; [exact Hall|]. by intros q (-> & _).
      * pose proof (unseen_insert n n' (pk_id p) Hseen Hp Hs). unfold FANOUT in *. lia.
  - split; [by apply Forall_app|]. rewrite !length_app. cbn. lia.
Qed.
Lemma total_unseen_le m : (total_unseen m ≤ size m * size I)%nat.
Proof.
  unfold total_unseen. induction m as [|a n m Ha Hm IH] using map_first_key_ind.
  - rewrite map_fold_empty. lia.
  - rewrite map_fold_insert_L by (done || (intros; lia)). rewrite map_size_insert_None by done.
    assert (unseen n ≤ size I)%nat by (unfold unseen; apply subseteq_size; set_solver). lia.
Qed.
End gossip.

Section gossip_runs.
Context `{CommsCrates, !CommsCratesLaws}.
Implicit Types (n : Node TlsCertificate) (w : World TlsCertificate).

(** What a run from [w0] comes to, as seen after some of its steps. *)
Definition flight_ids w : gset Z := list_to_set (map pk_id (flight w)).
Definition same_message (p q : Packet) : Prop := pk_id p = pk_id q ∧ pk_payload p = pk_payload q.
Definition run_inv w0 w : Prop :=
  (∀ p, p ∈ flight w → ∃ q, q ∈ flight w0 ∧ same_message p q) ∧
  ∀ a n0, nodes w0 !! a = Some n0 → ∃ n es, nodes w !! a = Some n ∧ event_queue n = event_queue n0 ++ es ∧
    (length es + unseen (flight_ids w0) n ≤ unseen (flight_ids w0) n0)%nat ∧
    Forall (λ e, ∃ q, q ∈ flight w0 ∧ e.2 = pk_payload q) (map (λ '(NewFrame a f), (a, f)) es).

Lemma run_inv_in_set w0 w : run_inv w0 w → in_set (flight_ids w0) w.
Proof.
  intros [Hp _]. apply Forall_forall. intros p (q & Hq & [-> _])%Hp.
  apply elem_of_list_to_set, list_elem_of_fmap. by exists q.
Qed.

Lemma run_inv_step w0 w w' : world_step w w' → run_inv w0 w → run_inv w0 w'.
Proof.
  intros Hstep Hinv. pose proof (run_inv_in_set _ _ Hinv) as Hset. destruct Hinv as [Hp Hn].
  destruct Hstep as [l1 p l2 n Hf Hto|l1 p l2 Hf].
  - pose proof (deliver_spec n p) as Hd. destruct (deliver n p) as [n' out]. cbn [fst snd].
    assert (Hin : p ∈ flight w) by (rewrite Hf; set_solver). destruct (Hp p Hin) as (q & Hq & Hqid & Hqpay).
    assert (Hid : pk_id p ∈ flight_ids w0) by (unfold in_set in Hset; rewrite Forall_forall in Hset; by apply Hset).
    split; cbn [flight nodes].
    + intros x. rewrite !elem_of_app. intros [Hx|[Hx|Hx]]; [apply Hp; rewrite Hf; set_solver..|].
      case_decide; [destruct Hd as [_ ->]; by apply elem_of_nil in Hx|].
      destruct Hd as (_ & _ & _ & Hall). rewrite Forall_forall in Hall. destruct (Hall x Hx) as (E1 & E2 & _).
      exists q. split; [done|]. split; congruence.
    + intros a n0 Ha. destruct (Hn a n0 Ha) as (n1 & es & Hn1 & He & Hlen & Hes).
      destruct (decide (a = pk_to p)) as [->|Hne]; [|exists n1, es; by rewrite lookup_insert_ne].
      rewrite lookup_insert_eq. simplify_eq. case_decide as Hs.
      * destruct Hd as [-> _]. by exists n, es.
      * destruct Hd as (Hseen & Hev & _). exists n', (es ++ [NewFrame (pk_from p) (pk_payload p)]).
        pose proof (unseen_insert (flight_ids w0) n n' (pk_id p) Hseen Hid Hs).
        rewrite Hev, He, app_assoc, length_app. cbn [length]. split_and!; [done|done|lia|].
        rewrite map_app, Forall_app. split; [done|]. apply Forall_singleton. by exists q.
  - split; cbn [flight nodes]; [|done]. intros x Hx. apply Hp. rewrite Hf. set_solver.
Qed.

(** C37: gossip dies out: in a network of any number of nodes, whichever peers
    each of them picks to pass a message on to, and in whatever order messages
    are delivered or lost, at most a fixed number of deliveries happens; and
    every node reports each message at most once, with the payload it was sent
    with. *)
Theorem gossip_terminates (k : nat) w w' : nsteps world_step k w w' →
  (k ≤ length (flight w) + FANOUT * (size (nodes w) * size (flight_ids w)))%nat ∧
  ∀ a n, nodes w !! a = Some n → ∃ n' es, nodes w' !! a = Some n' ∧ event_queue n' = event_queue n ++ es ∧
    (length es ≤ size (flight_ids w ∖ seen_gossip_messages n))%nat ∧
    ∀ b f, NewFrame b f ∈ es → ∃ p, p ∈ flight w ∧ f = pk_payload p.
Proof.
  intros Hrun.
  assert (Hg : ∀ k w1 w2, nsteps world_step k w1 w2 → run_inv w w1 →
    run_inv w w2 ∧ (k + gossip_measure (flight_ids w) w2 ≤ gossip_measure (flight_ids w) w1)%nat).
  { clear Hrun k w'. intros k w1 w2 Hrun. induction Hrun as [w1|k w1 w2 w3 Hs _ IH]; intros Hinv; [split; [done|lia]|].
    destruct (world_step_measure (flight_ids w) w1 w2 Hs (run_inv_in_set _ _ Hinv)) as [_ Hm].
    destruct (IH (run_inv_step _ _ _ Hs Hinv)) as [? ?]. split; [done|lia]. }
  destruct (Hg k w w' Hrun) as [[_ Hn] Hk].
  { split; [intros p Hp; by exists p|]. intros a n Ha. exists n, []. rewrite app_nil_r. split_and!; [done|done|cbn; lia|].
    constructor. }
  split.
  - unfold gossip_measure in Hk at 2. pose proof (total_unseen_le (flight_ids w) (nodes w)). unfold FANOUT in *. lia.
  - intros a n Ha. destruct (Hn a n Ha) as (n' & es & Hn' & He & Hlen & Hes). exists n', es.
    unfold unseen in Hlen. split_and!; [done|done|lia|]. intros b f Hb.
    rewrite Forall_map, Forall_forall in Hes. destruct (Hes _ Hb) as (q & Hq & E). by exists q.
Qed.
End gossip_runs.

(** ** The sorted list of peers *)
Section peer_list.
Implicit Types l : list (string * SocketAddr).

Lemma bubble_perm l k : bubble l k ≡ₚ l.
Proof.
  revert l; induction k as [|k IH]; intros [|x [|y l]]; [done..|]. cbn [bubble].
  destruct (key_leb x.1 y.1); [apply perm_skip, IH|].
  etrans; [apply perm_skip, IH|apply perm_swap].
Qed.
Lemma bubble_sort_perm l k : bubble_sort l k ≡ₚ l.
Proof. revert l; induction k as [|k IH]; intros l; cbn; [done|]. etrans; [apply IH|apply bubble_perm]. Qed.

Lemma bubble_app l tl k : (k < length l)%nat → bubble (l ++ tl) k = bubble l k ++ tl.
Proof.
  revert l; induction k as [|k IH]; intros l Hk; [by destruct l|].
  destruct l as [|x [|y l]]; [cbn in *; lia..|]. cbn [bubble app].
  destruct (key_leb x.1 y.1); cbn [app]; f_equal; (rewrite <-IH by (cbn in *; lia)); done.
Qed.

(** One round moves a greatest entry to the end. *)
Lemma bubble_last l k : length l = S k → ∃ l' m, bubble l k = l' ++ [m] ∧ Forall (λ x, entry_le x m) l'.
Proof.
  revert l; induction k as [|k IH]; intros l Hl.
  - destruct l as [|x [|]]; try done. by exists [], x.
  - destruct l as [|x [|y l]]; try done. cbn [bubble].
    assert (Hg : ∀ z u, entry_le z u → ∀ v, length (u :: l) = S k → v = bubble (u :: l) k →
      ∃ l' m, z :: v = l' ++ [m] ∧ Forall (λ x, entry_le x m) l').
    { intros z u Hzu v Hlen ->. destruct (IH (u :: l) Hlen) as (l' & m & E & Hall). rewrite E.
      exists (z :: l'), m. split; [done|]. constructor; [|done].
      assert (Hu : u ∈ l' ++ [m]) by (rewrite <-E, bubble_perm; set_solver).
      apply elem_of_app in Hu as [Hu|Hu%list_elem_of_singleton]; [|by subst].
      rewrite Forall_forall in Hall. etrans; [exact Hzu|by apply Hall]. }
    destruct (key_leb x.1 y.1) eqn:E.
    + apply (Hg x y); [exact E|cbn in *; lia|done].
    + apply (Hg y x); [|cbn in *; lia|done]. destruct (lex_leb_total (okey x.1) (okey y.1)) as [E'|E']; [|exact E'].
      unfold key_leb in E. congruence.
Qed.

Lemma bubble_sort_sorted l tl k : length l = k → StronglySorted entry_le tl →
  Forall (λ x, Forall (entry_le x) tl) l → StronglySorted entry_le (bubble_sort (l ++ tl) k).
Proof.
  revert l tl; induction k as [|k IH]; intros l tl Hl Htl Hall; [by destruct l|].
  cbn [bubble_sort]. rewrite bubble_app by lia. destruct (bubble_last l k Hl) as (l' & m & E & Hm).
  assert (Hp : l' ++ [m] ≡ₚ l) by (rewrite <-E; apply bubble_perm).
  rewrite E, <-app_assoc. cbn [app].
  rewrite <-Hp, Forall_app in Hall. destruct Hall as [Hl' Hm'].
  apply Permutation_length in Hp. rewrite length_app in Hp. cbn in Hp.
  apply IH; [lia| |].
  - constructor; [exact Htl|]. by inversion Hm'.
  - rewrite Forall_forall in Hl', Hm |- *. intros x Hx. constructor; [by apply Hm|by apply Hl'].
Qed.
End peer_list.

(** The list for the API has exactly the compute and storage nodes among the
    peers, sorted by the text of their addresses. *)
Theorem get_peer_list_spec `{CommsCrates, Ipv6Display} (n : Node TlsCertificate) :
  StronglySorted (λ x y, key_leb x.1.1 y.1.1 = true) (get_peer_list n) ∧
  ∀ s a ty, (s, a, ty) ∈ get_peer_list n ↔ s = addr_to_string a ∧
    ∃ t, get_peer_node_type n a = inr t ∧ (t = NodeCompute ∨ t = NodeStorage) ∧ ty = node_type_as_str t.
Proof.
  unfold get_peer_list. cbv zeta. set (l := map _ _). set (f := λ key : string * SocketAddr, _).
  assert (Hf : ∀ k y, f k = Some y → y.1 = k).
  { intros [s a] y. subst f. cbn. destruct (get_peer_node_type n a) as [|t]; [done|].
    case_bool_decide; [|done]. by intros [= <-]. }
  split.
  - pose proof (bubble_sort_sorted l [] (length l) eq_refl (SSorted_nil _)) as Hs. rewrite app_nil_r in Hs.
    specialize (Hs (Forall_true _ _ (λ x, Forall_nil_2 (entry_le x)))). revert Hs. generalize (bubble_sort l (length l)) as k.
    intros k Hk. induction Hk as [|x k _ IH Hx]; [constructor|]. cbn. destruct (f x) as [y|] eqn:E; [|done].
    constructor; [done|]. apply Forall_forall. intros z (u & Hu & Ez)%list_elem_of_omap.
    rewrite Forall_forall in Hx. specialize (Hx u Hu). apply Hf in E, Ez. by rewrite E, Ez.
  - intros s a ty. rewrite list_elem_of_omap. split.
    + intros ([s' a'] & Hin & E). pose proof (Hf _ _ E) as E'. cbn in E'. simplify_eq.
      rewrite bubble_sort_perm in Hin. apply list_elem_of_fmap in Hin as (b & [= -> ->] & _). split; [done|].
      subst f. cbn in E. destruct (get_peer_node_type n b) as [|t]; [done|]. case_bool_decide; [|done].
      simplify_eq. by exists t.
    + intros (-> & t & Ht & Hty & ->). exists (addr_to_string a, a). split.
      * rewrite bubble_sort_perm. apply list_elem_of_fmap. exists a. split; [done|]. apply elem_of_bt_keys.
        unfold get_peer_node_type in Ht. destruct (peers n !! a); [by eexists|done].
      * subst f. cbn. rewrite Ht. by rewrite bool_decide_true.
Qed.

Module CommsExamples.
Import TestExternals.

#[export] Instance crates : CommsCrates := {|
  TlsCertificate := unit;
  try_from_ascii_str _ := true;
  EndEntityCert_from _ := true;
  verify_is_valid_for_at_least_one_dns_name _ _ := true;
  choose_multiple _ l k := take k l;
|}.
#[export] Instance crates_laws : CommsCratesLaws.
Proof.
  constructor; cbn.
  - intros _ l k a Ha. rewrite <-(take_drop k l). apply elem_of_app. by left.
  - intros _ l k. rewrite length_take. lia.
Qed.

Definition addr_a : SocketAddr := AddrV4 1 10.
Definition addr_b : SocketAddr := AddrV4 2 20.
Definition sock_1 : SocketAddr := AddrV4 1 5001.
Definition sock_2 : SocketAddr := AddrV4 1 5002.
Definition a0 : Node TlsCertificate := Node_new addr_a ∅ Z.of_nat 4 Miner 6 false true.
Definition b0 : Node TlsCertificate := Node_new addr_b ∅ Z.of_nat 4 NodeCompute 6 false true.
Definition hello : CommMessage := HandshakeRequest 6 Miner addr_a.

(** A handshake of the miner at [addr_a] over a new connection. *)
Definition shake n (sock : SocketAddr) (c : nat) : Node TlsCertificate :=
  move_peer (recv_message (accept_connection n sock None) c hello) c.
Definition b1 : Node TlsCertificate := shake b0 sock_1 0.
Definition b_lost : Node TlsCertificate := disconnect_all b1 (Some [addr_a]).
Definition b_again : Node TlsCertificate := shake b_lost sock_2 1.

Lemma shake_reach n sock c : node_reach n (shake n sock c).
Proof.
  eapply rtc_l; [apply step_accept|]. eapply rtc_l; [apply step_recv|]. apply rtc_once, step_move.
Qed.
Lemma b_again_reach : node_reach b0 b_again.
Proof.
  etrans; [apply shake_reach|]. eapply rtc_l; [apply (step_disconnect _ (Some [addr_a]))|]. apply shake_reach.
Qed.

Lemma reach_peers_ok_witness : 0 ≤ 4 ∧ node_reach b0 b_again ∧ unconnected_peers b_again [addr_a] = [] ∧
  zsize (peers b_again) ≤ 4 ∧
  ∃ p t, peers b_again !! addr_a = Some p ∧ pr_network_version p = Some 6 ∧ peer_type p = Some t ∧
    (NodeCompute = PreLaunch ↔ t = PreLaunch).
Proof.
  split; [lia|]. split; [apply b_again_reach|]. split; [vm_compute; reflexivity|].
  destruct (reach_peers_ok addr_b ∅ Z.of_nat 4 NodeCompute 6 false true b_again ltac:(lia) b_again_reach) as [Hs Hc].
  split; [exact Hs|]. apply (Hc [addr_a]); [apply list_elem_of_singleton; reflexivity|].
  assert (E : unconnected_peers b_again [addr_a] = []) by (vm_compute; reflexivity).
  rewrite E. apply not_elem_of_nil.
Defined.

(** The first connection ends last. *)
Example reconnect_lost : node_reach b0 (end_stream b_again 0) ∧
  unconnected_peers b_again [addr_a] = [] ∧ unconnected_peers (end_stream b_again 0) [addr_a] = [addr_a] ∧
  tasks (end_stream b_again 0) !! 1%nat = Some (mkTask sock_2 None (Ready addr_a) false).
Proof.
  split; [etrans; [apply b_again_reach|apply rtc_once, step_end]|].
  split; [vm_compute; reflexivity|]. split; vm_compute; reflexivity.
Qed.

Lemma handshake_connects_witness :
  has_room a0 ∧ has_room b0 ∧
  ∃ request response, sent (connect_to a0 addr_b (inr (addr_b, None))).2 = [(addr_b, request)] ∧
    sent (move_peer (recv_message (accept_connection b0 sock_1 None) 0 request) 0) = [(sock_1, response)].
Proof.
  assert (Ha : has_room a0) by (split; [vm_compute|]; reflexivity).
  assert (Hb : has_room b0) by (split; [vm_compute|]; reflexivity).
  split; [exact Ha|]. split; [exact Hb|].
  destruct (handshake_connects a0 b0 addr_b sock_1 None None Ha Hb) as (rq & rs & H1 & H2 & _);
    [reflexivity|reflexivity|discriminate|reflexivity|reflexivity|reflexivity|].
  exists rq, rs. split; [exact H1|exact H2].
Defined.

(** The miner waits for the response of the compute node. *)
Definition a_waits : Node TlsCertificate := (connect_to a0 addr_b (inr (addr_b, None))).2.
Definition a_task : Task TlsCertificate := mkTask addr_b None WaitingForHandshake false.
Definition a_peer : Peer := mkPeer None addr_b None (Some addr_b) true RxWaiting 0.

Lemma late_response_dead_witness :
  tasks a_waits !! 0%nat = Some a_task ∧ peers a_waits !! addr_b = Some a_peer ∧
  let n' := recv_message (drop_handshake_receiver a_waits 0) 0 (HandshakeResponse 6 NodeCompute [] addr_a) in
  unconnected_peers n' [addr_b] = [] ∧ recv_message n' 0 (Direct [1] 2) = n'.
Proof.
  split; [reflexivity|]. split; [reflexivity|]. intros n'.
  destruct (late_response_dead a_waits 0 a_task a_peer 6 NodeCompute [] addr_a (inl IoError)) as (H1 & H2 & _);
    [reflexivity..|]. split; [exact H1|apply H2].
Defined.

(** Two connected nodes that both know each other, and a message to each. *)
Definition friend (a : SocketAddr) : Peer := mkPeer (Some 6) a (Some NodeCompute) (Some a) false RxNone 0.
Definition world0 : World TlsCertificate :=
  mkWorld {[addr_a := a0 <| peers := {[addr_b := friend addr_b]} |>; addr_b := b0 <| peers := {[addr_a := friend addr_a]} |>]}
    [mkPacket sock_1 addr_a [7] 0 1; mkPacket sock_1 addr_b [7] 0 1].
Definition world1 : World TlsCertificate :=
  mkWorld (<[addr_a := (deliver (a0 <| peers := {[addr_b := friend addr_b]} |>) (mkPacket sock_1 addr_a [7] 0 1)).1]> (nodes world0))
    [mkPacket sock_1 addr_b [7] 0 1; mkPacket addr_a addr_b [7] 1 1].

Lemma world_run : nsteps world_step 1 world0 world1.
Proof.
  apply nsteps_once.
  exact (world_deliver world0 [] (mkPacket sock_1 addr_a [7] 0 1) [mkPacket sock_1 addr_b [7] 0 1]
    (a0 <| peers := {[addr_b := friend addr_b]} |>) eq_refl eq_refl).
Qed.

Lemma gossip_terminates_witness : nsteps world_step 1 world0 world1 ∧
  (1 ≤ length (flight world0) + FANOUT * (size (nodes world0) * size (flight_ids world0)))%nat ∧
  size (flight_ids world0) = 1%nat.
Proof.
  split; [exact world_run|]. destruct (gossip_terminates 1 world0 world1 world_run) as [Hk _].
  split; [exact Hk|]. vm_compute. reflexivity.
Defined.
End CommsExamples.
