(* ===== verification/Connections.v ===== *)
(** * The connections of a running node: [src/utils.rs]

    Two loops run beside every node.  One keeps it connected to the peers it was
    given and tells it when a lost connection is back; the other looks for files
    with which the person who runs the node cuts its connections or shuts it
    down.  The loops share the node ([Comms]) with its own tasks, so the first is
    a step relation: between two of its steps the node may take any of its own. *)
From Stdlib Require Import Ascii.
From stdpp Require Import pretty.
From S2P Require Import Prelude Externals Utils Interfaces Comms.

(** The channel of [LocalEventChannel]. *)
Definition LOCAL_EVENT_CAPACITY : nat := 10.

(** Where [loop_connnect_to_peers_async] is.  [Answered] is the wait of
    [connect_to] that has been notified. *)
Inductive Place :=
  | Round
  | Trying (rest : list SocketAddr)
  | Waiting (peer : SocketAddr) (c : nat) (rest : list SocketAddr)
  | Answered (rest : list SocketAddr)
  | Delay
  | Sleeping
  | Returned
  | LoopPanicked.

(** [lp_announced] counts the events that were sent. *)
Record Loop (C : Type) := mkLoop {
  lp_node : Node C;
  lp_place : Place;
  is_initial_conn : bool;
  local_events : list LocalEvent;
  local_events_open : bool;
  lp_announced : nat;
}.
Arguments mkLoop {C}. Arguments lp_node {C}. Arguments lp_place {C}. Arguments is_initial_conn {C}.
Arguments local_events {C}. Arguments local_events_open {C}. Arguments lp_announced {C}.
#[export] Instance eta_Loop C : Eta (Loop C) := λ l,
  mkLoop (lp_node l) (lp_place l) (is_initial_conn l) (local_events l) (local_events_open l) (lp_announced l).

Section connect_loop.
Context `{CommsCrates, Ipv6Display}.
Notation Node := (Node TlsCertificate).
Notation Loop := (Loop TlsCertificate).
Implicit Types (n : Node) (l : Loop).

(** [addrs] are the peers to connect to; with [close] the loop runs until it is
    told to stop, without it until all are connected. *)
Context (addrs : list SocketAddr) (close : bool).

Definition all_connected n : bool := match unconnected_peers n addrs with [] => true | _ => false end.

(** The notification of the handshake response reaches the caller of
    [connect_to] although the peer may be gone when it runs again. *)
Definition notified n (peer : SocketAddr) (c : nat) : bool :=
  match peers n !! peer with
  | Some p => Nat.eqb (conn p) c && negb (notify_tx p)
  | None => false
  end.
Definition observe n (p : Place) : Place :=
  match p with
  | Waiting peer c rest => if notified n peer c then Answered rest else p
  | _ => p
  end.
Definition with_node l n : Loop := l <| lp_node := n |> <| lp_place := observe n (lp_place l) |>.

Definition begin_round l : Loop := l <| lp_place := Trying (unconnected_peers (lp_node l) addrs) |>.

Definition try_connect l (peer : SocketAddr) (rest : list SocketAddr)
    (stream : CommsError + SocketAddr * option TlsCertificate) : Loop :=
  match connect_to (lp_node l) peer stream with
  | (inl _, n) => l <| lp_node := n |> <| lp_place := Trying rest |>
  | (inr c, n) => with_node (l <| lp_place := Waiting peer c rest |>) n
  end.

(** Without result the sender waits for room in the channel. *)
Definition connected l (rest : list SocketAddr) : option Loop :=
  if is_initial_conn l then Some (l <| lp_place := Trying rest |>)
  else if negb (local_events_open l) then Some (l <| lp_place := LoopPanicked |>)
  else if (length (local_events l) <? LOCAL_EVENT_CAPACITY)%nat then
    Some (l <| local_events ::= λ q, q ++ [ReconnectionComplete] |> <| lp_announced ::= S |> <| lp_place := Trying rest |>)
  else None.

Definition end_round l : Loop :=
  let l := if all_connected (lp_node l) then l <| is_initial_conn := false |> else l in
  l <| lp_place := Delay |>.

(** The two ends of a round: [close_rx] is there or not. *)
Definition after_round l (closed : bool) : Loop :=
  if close then if closed then l <| lp_place := Returned |> else l <| lp_place := Round |>
  else if all_connected (lp_node l) then l <| lp_place := Returned |> else l <| lp_place := Sleeping |>.

Inductive loop_step l : Loop → Prop :=
  | loop_begin : lp_place l = Round → loop_step l (begin_round l)
  | loop_try peer rest stream : lp_place l = Trying (peer :: rest) → loop_step l (try_connect l peer rest stream)
  | loop_wait_failed peer c rest : lp_place l = Waiting peer c rest →
      loop_step l (l <| lp_node ::= λ n, drop_handshake_receiver n c |> <| lp_place := Trying rest |>)
  | loop_connected rest l' : lp_place l = Answered rest → connected l rest = Some l' → loop_step l l'
  | loop_end : lp_place l = Trying [] → loop_step l (end_round l)
  | loop_after closed : lp_place l = Delay → loop_step l (after_round l closed)
  | loop_awake : lp_place l = Sleeping → loop_step l (l <| lp_place := Round |>)
  (* the node itself: its tasks, its main loop, and the end of the main loop *)
  | loop_node n : node_step (lp_node l) n → loop_step l (with_node l n)
  | loop_event e q : local_events l = e :: q → loop_step l (l <| local_events := q |>)
  | loop_other_event e : local_events_open l = true → (length (local_events l) < LOCAL_EVENT_CAPACITY)%nat →
      loop_step l (l <| local_events ::= λ q, q ++ [e] |>)
  | loop_receiver_gone : loop_step l (l <| local_events_open := false |>).

Definition loop_start n : Loop := mkLoop n Round true [] true 0.

(** [loop_wait_connnect_to_peers_async]: it returns in a state where this holds. *)
Definition loop_wait_connnect_to_peers n : bool := all_connected n.

(** ** What the loop says to the node *)
Definition quiet l : Prop := lp_announced l = 0%nat ∧ is_initial_conn l = true ∧ lp_place l ≠ LoopPanicked.

Lemma try_connect_quiet l peer rest stream : quiet l → quiet (try_connect l peer rest stream).
Proof.
  intros (A & I & _). unfold try_connect, quiet, with_node, observe. destruct (connect_to _ _ _) as [[e|c] n]; [done|].
  cbn. by destruct (notified n peer c).
Qed.

Lemma loop_step_quiet l l' : loop_step l l' → quiet l → quiet l' ∨ all_connected (lp_node l') = true ∧ lp_announced l' = 0%nat.
Proof.
  intros St Q. pose proof Q as (A & I & P). destruct St as [| | |rest l' Pl C| | | |n| | |]; try (by left).
  - left. by apply try_connect_quiet.
  - left. unfold connected in C. rewrite I in C. by injection C as <-.
  - unfold end_round, quiet. destruct (all_connected (lp_node l)) eqn:E; [by right|by left].
  - left. unfold after_round, quiet. destruct close, closed; cbn; try done; by destruct (all_connected _).
  - left. split_and!; [done..|]. unfold with_node, observe. cbn. destruct (lp_place l); try done. by destruct (notified _ _ _).
Qed.

(** A reconnection is announced only after a moment at which every peer was
    connected: what the first connections are never counts as one. *)
Theorem announced_after_connected n l : rtc loop_step (loop_start n) l → lp_announced l ≠ 0%nat →
  ∃ l1, rtc loop_step (loop_start n) l1 ∧ rtc loop_step l1 l ∧ all_connected (lp_node l1) = true ∧ lp_announced l1 = 0%nat.
Proof.
  intros R A. set (P := λ l, quiet l ∨ ∃ l1, rtc loop_step (loop_start n) l1 ∧ rtc loop_step l1 l ∧
    all_connected (lp_node l1) = true ∧ lp_announced l1 = 0%nat).
  assert (G : P l).
  { clear A. revert l R. apply (rtc_ind_r P); [by left|]. intros l l' R St [Q|(l1 & R1 & R2 & C)].
    - destruct (loop_step_quiet _ _ St Q) as [?|[C A]]; [by left|]. right. exists l'.
      split_and!; [by eapply rtc_r|reflexivity|done..].
    - right. exists l1. split_and!; [done| |apply C..]. by eapply rtc_r. }
  destruct G as [(Z & _)|G]; [done|exact G].
Qed.

(** A peer that can never be reached keeps the loop from announcing any
    reconnection: the miner does not ask for its place in the partition again. *)
Lemma unreachable_peer_silences n l a : a ∈ addrs →
  (∀ l1, rtc loop_step (loop_start n) l1 → (peers (lp_node l1) !! a ≫= pr_network_version) = None) →
  rtc loop_step (loop_start n) l → lp_announced l = 0%nat.
Proof.
  intros Ha Hn R. destruct (lp_announced l) eqn:E; [done|]. exfalso.
  destruct (announced_after_connected n l R) as (l1 & R1 & _ & C & _); [by rewrite E|].
  unfold all_connected, unconnected_peers in C.
  assert (Hin : a ∈ filter (λ p, (peers (lp_node l1) !! p ≫= pr_network_version) = None) addrs)
    by (apply list_elem_of_filter; auto).
  destruct (filter _ addrs); [by apply elem_of_nil in Hin|done].
Qed.
End connect_loop.

(** ** Connecting to everyone *)
Section connects.
Context `{CommsCrates, Ipv6Display}.
Notation Node := (Node TlsCertificate).
Notation Loop := (Loop TlsCertificate).
Implicit Types (n : Node) (l : Loop).

(** The exchange with one peer, as the steps of the node that the loop makes
    room for. *)
Definition request_sent n (peer : SocketAddr) cert : Node := (connect_to n peer (inr (peer, cert))).2.
Definition response_received n (peer : SocketAddr) cert (response : CommMessage) : Node :=
  recv_message (request_sent n peer cert) (next_conn n) response.
Definition shaken_peer n (peer : SocketAddr) (v : Z) (t : NodeType) : Peer :=
  mkPeer (Some v) peer (Some t) (Some peer) false RxWaiting (next_conn n).
Definition unpaused_same n n' : Prop := same_settings n n' ∧ listener_and_connect_paused n' = listener_and_connect_paused n.

Lemma response_received_peers n peer cert v t contacts pub : has_room n → peers n !! peer = None →
  is_compatible n t v = true →
  let n' := response_received n peer cert (HandshakeResponse v t contacts pub) in
  peers n' = <[peer := shaken_peer n peer v t]> (peers n) ∧ unpaused_same n n' ∧
  tasks n' !! next_conn n = Some (mkTask peer cert (Shaken peer) false).
Proof.
  intros Hroom Hnone Hc. unfold response_received, request_sent. rewrite (connect_to_room n peer cert Hroom Hnone). cbn [snd].
  set (c := next_conn n). set (n1 := setter _ _). unfold recv_message.
  assert (Ht : tasks n1 !! c = Some (mkTask peer cert WaitingForHandshake false)) by apply lookup_insert_eq.
  rewrite Ht. cbn [stream_closed task_state recv_handshake]. unfold handle_handshake_response. cbn [task_peer_addr]. cbv zeta.
  change (is_compatible n1 t v) with (is_compatible n t v). rewrite Hc. cbn [negb].
  assert (Hp : peers n1 !! peer = Some (mkPeer None peer None (Some peer) true RxWaiting c)) by apply lookup_insert_eq.
  rewrite Hp. cbn [notify_tx notify_rx andb]. rewrite bool_decide_false by done.
  set (n2 := n1 <| peers ::= _ |>).
  assert (P2 : peers n2 = <[peer := shaken_peer n peer v t]> (peers n)) by (cbn; by rewrite insert_insert_eq).
  set (n3 := if connect_to_handshake_contacts n2 then _ else n2).
  assert (H3 : peers n3 = peers n2 ∧ unpaused_same n n3) by (subst n3; by destruct (connect_to_handshake_contacts n2)).
  destruct H3 as (H3p & H3s). rewrite <- P2, <- H3p. split_and!; [done|exact H3s|]. cbn. by rewrite lookup_insert_eq.
Qed.

Lemma handshaken_peers n peer cert v t contacts pub : has_room n → peers n !! peer = None →
  is_compatible n t v = true →
  let n' := move_peer (response_received n peer cert (HandshakeResponse v t contacts pub)) (next_conn n) in
  peers n' = <[peer := shaken_peer n peer v t]> (peers n) ∧ unpaused_same n n'.
Proof.
  intros R N C. destruct (response_received_peers n peer cert v t contacts pub R N C) as (P & S & T).
  unfold move_peer. rewrite T. cbn [task_state task_peer_addr]. rewrite P, lookup_insert_eq.
  split; [|exact S]. cbn. rewrite P. by rewrite insert_delete_eq, insert_insert_eq.
Qed.

Context (addrs : list SocketAddr).
Notation steps := (rtc (loop_step addrs false)).

Lemma connect_one l peer rest cert v t contacts pub :
  lp_place l = Trying (peer :: rest) → is_initial_conn l = true → has_room (lp_node l) →
  peers (lp_node l) !! peer = None → is_compatible (lp_node l) t v = true →
  let n' := move_peer (response_received (lp_node l) peer cert (HandshakeResponse v t contacts pub)) (next_conn (lp_node l)) in
  steps l (l <| lp_node := n' |> <| lp_place := Trying rest |>).
Proof.
  intros Pl I R N C n'. pose proof (connect_to_room (lp_node l) peer cert R N) as E. cbv zeta in E.
  set (c := next_conn (lp_node l)) in *.
  assert (P1 : peers (request_sent (lp_node l) peer cert) !! peer = Some (mkPeer None peer None (Some peer) true RxWaiting c)).
  { unfold request_sent. rewrite E. apply lookup_insert_eq. }
  assert (E1 : connect_to (lp_node l) peer (inr (peer, cert)) = (inr c, request_sent (lp_node l) peer cert))
    by (unfold request_sent; by rewrite E).
  destruct (response_received_peers (lp_node l) peer cert v t contacts pub R N C) as (P2 & _).
  set (n2 := response_received _ _ _ _) in *.
  eapply rtc_l; [by eapply (loop_try addrs false l peer rest (inr (peer, cert)))|].
  unfold try_connect. rewrite E1. unfold with_node, observe. cbn [lp_place setter]. unfold notified. rewrite P1. cbn [notify_tx negb].
  rewrite andb_false_r.
  eapply rtc_l; [eapply (loop_node addrs false _ n2); apply step_recv|].
  unfold with_node, observe. cbn [lp_place setter]. unfold notified. rewrite P2, lookup_insert_eq.
  cbn [notify_tx conn shaken_peer]. rewrite Nat.eqb_refl. cbn [negb andb].
  eapply rtc_l; [eapply (loop_node addrs false _ n'); apply step_move|].
  unfold with_node, observe. cbn [lp_place setter].
  eapply rtc_l; [eapply (loop_connected addrs false _ rest); [done|]; unfold connected; cbn; by rewrite I|].
  destruct l. reflexivity.
Qed.

(** [reply] is what each peer answers. *)
Context (reply : SocketAddr → NodeType * Z).
Definition answers n (a : SocketAddr) : Prop := is_compatible n (reply a).1 (reply a).2 = true.
Definition connected_to n (a : SocketAddr) : Prop := (peers n !! a ≫= pr_network_version) ≠ None.
Definition connected_as_replied n (a : SocketAddr) : Prop :=
  ∃ c, peers n !! a = Some (mkPeer (Some (reply a).2) a (Some (reply a).1) (Some a) false RxWaiting c).

Lemma connect_each l rest : lp_place l = Trying rest → is_initial_conn l = true →
  listener_and_connect_paused (lp_node l) = false → zsize (peers (lp_node l)) + zlen rest ≤ peer_limit (lp_node l) →
  NoDup rest → (∀ a, a ∈ rest → peers (lp_node l) !! a = None ∧ answers (lp_node l) a) →
  ∃ n', steps l (l <| lp_node := n' |> <| lp_place := Trying [] |>) ∧
    (∀ a, a ∈ rest → connected_as_replied n' a) ∧ (∀ a, a ∉ rest → peers n' !! a = peers (lp_node l) !! a).
Proof.
  revert l. induction rest as [|a rest IH]; intros l Pl I Lp Rm Nd Ha.
  { exists (lp_node l). split_and!; [|by intros b ?%elem_of_nil|done]. destruct l. cbn in Pl. by subst. }
  apply NoDup_cons in Nd as [Na Nd]. destruct (Ha a) as [N C]; [by left|].
  assert (R : has_room (lp_node l)) by (split; [unfold zlen in Rm; cbn in Rm; lia|done]).
  pose proof (connect_one l a rest None _ _ [] a Pl I R N C) as St.
  destruct (handshaken_peers (lp_node l) a None _ _ [] a R N C) as (P & Se & Lp'). cbv zeta in *.
  set (n1 := move_peer _ _) in *.
  destruct (IH (l <| lp_node := n1 |> <| lp_place := Trying rest |>)) as (n' & St' & Hc & Hf); try done.
  - cbn. by rewrite Lp'.
  - cbn. destruct Se as (-> & _). rewrite P. unfold zsize, zlen in *. rewrite map_size_insert_None by done. cbn in Rm. lia.
  - intros b Hb. destruct (Ha b) as [Nb Cb]; [by right|]. cbn. rewrite P. split.
    + rewrite lookup_insert_ne; [done|]. by intros ->.
    + unfold answers. rewrite <- Cb. destruct Se as (_ & Ev & Et). unfold is_compatible. by rewrite Ev, Et.
  - exists n'. cbn in Hf. split_and!; [by etrans| |].
    + intros b [->|Hb]%elem_of_cons; [|by apply Hc]. exists (next_conn (lp_node l)).
      rewrite (Hf a Na), P. apply lookup_insert_eq.
    + intros b Hb. apply not_elem_of_cons in Hb as [Nb Hb]. rewrite (Hf b Hb), P. by rewrite lookup_insert_ne.
Qed.

Lemma all_connected_spec n : all_connected addrs n = true ↔ ∀ a, a ∈ addrs → connected_to n a.
Proof.
  unfold all_connected, unconnected_peers. destruct (filter _ addrs) as [|a f] eqn:E.
  - split; [|done]. intros _ a Ha Hn.
    assert (a ∈ filter (λ p, (peers n !! p ≫= pr_network_version) = None) addrs) as Hin by (apply list_elem_of_filter; auto).
    rewrite E in Hin. by apply elem_of_nil in Hin.
  - split; [done|]. intros Hc. exfalso. assert (Hin : a ∈ filter (λ p, (peers n !! p ≫= pr_network_version) = None) addrs)
      by (rewrite E; by left). apply list_elem_of_filter in Hin as [Hn Ha]. by apply (Hc a).
Qed.

(** At the start of a node the loop connects it: when there is room for all the
    peers and each answers with a version and a type that the node works with, the
    loop that waits for them returns, with every one of them connected as what it
    said it is, and no reconnection announced. *)
Theorem loop_connects_all n : NoDup addrs → listener_and_connect_paused n = false →
  zsize (peers n) + zlen addrs ≤ peer_limit n → (∀ a, a ∈ addrs → peers n !! a = None ∧ answers n a) →
  ∃ l, steps (loop_start n) l ∧ lp_place l = Returned ∧ loop_wait_connnect_to_peers addrs (lp_node l) = true ∧
    (∀ a, a ∈ addrs → connected_as_replied (lp_node l) a) ∧ lp_announced l = 0%nat.
Proof.
  intros Nd Lp Rm Ha.
  assert (U : unconnected_peers n addrs = addrs).
  { unfold unconnected_peers. clear Nd Rm. induction addrs as [|a f IH]; [done|].
    rewrite filter_cons_True by (destruct (Ha a) as [-> _]; [by left|done]). f_equal. apply IH. intros b Hb. apply Ha. by right. }
  destruct (connect_each (loop_start n <| lp_place := Trying addrs |>) addrs) as (n' & St & Hc & _); try done.
  assert (A : all_connected addrs n' = true).
  { apply all_connected_spec. intros a [c E]%Hc. unfold connected_to. by rewrite E. }
  exists (mkLoop n' Returned false [] true 0). split_and!; try done.
  eapply rtc_l; [by eapply loop_begin|]. unfold begin_round. cbn [lp_node loop_start]. rewrite U.
  etrans; [exact St|]. eapply rtc_l; [by eapply loop_end|].
  eapply rtc_l; [by eapply (loop_after _ _ _ false)|].
  unfold after_round, end_round. cbn. rewrite A. cbn. by rewrite A.
Qed.

(** It returns in no other case. *)
Lemma returned_connected n l : rtc (loop_step addrs false) (loop_start n) l → lp_place l = Returned →
  ∃ l1, steps (loop_start n) l1 ∧ steps l1 l ∧ all_connected addrs (lp_node l1) = true.
Proof.
  intros R. set (P := λ l, lp_place l = Returned → ∃ l1, steps (loop_start n) l1 ∧ steps l1 l ∧ all_connected addrs (lp_node l1) = true).
  revert l R. apply (rtc_ind_r P); [done|]. intros l l' R St IH Pl.
  assert (D : lp_place l = Returned ∨ all_connected addrs (lp_node l) = true).
  { destruct St as [| |peer c rest|rest l' Pa C| | | |n'| | |]; cbn in Pl; try (by left); try done.
    - unfold try_connect, with_node, observe in Pl. destruct (connect_to _ _ _) as [[|] ?]; cbn in Pl; [done|by destruct (notified _ _ _)].
    - unfold connected in C. destruct (is_initial_conn l); [by simplify_eq|]. destruct (local_events_open l); cbn in C; [|by simplify_eq].
      destruct (_ <=? _)%nat; by simplify_eq.
    - unfold after_round in Pl. destruct (all_connected _ _); [by right|done].
    - left. unfold with_node, observe in Pl. destruct (lp_place l); try done. cbn in Pl. by destruct (notified _ _ _). }
  destruct D as [D|D].
  - destruct (IH D) as (l1 & R1 & R2 & C). exists l1. split_and!; [done|by eapply rtc_r|done].
  - exists l. split_and!; [done|by apply rtc_once|done].
Qed.

(** A wait that times out leaves the peer in the list without its receiver.
    While the connection lasts, every later attempt only sends one more request
    and fails: the loop opens no other connection. *)
Theorem timed_out_peer_stuck l peer rest p stream : lp_place l = Trying (peer :: rest) →
  peers (lp_node l) !! peer = Some p → notify_rx p = RxDropped →
  let l' := try_connect l peer rest stream in
  lp_place l' = Trying rest ∧ peers (lp_node l') = peers (lp_node l) ∧ tasks (lp_node l') = tasks (lp_node l) ∧
  next_conn (lp_node l') = next_conn (lp_node l).
Proof.
  intros Pl Hp Hr. unfold try_connect, connect_to, connect_to_peer, send_handshake, send_message.
  rewrite bool_decide_true by eauto. rewrite Hp. unfold take_handshake_receiver. cbn. rewrite Hp. cbn. by rewrite Hr.
Qed.
End connects.

(** ** Files that cut the connections or shut the node down

    The files of the working directory; the content is what can be read of it. *)
Definition Files : Type := gmap string (option string).

(** [str::trim]: [WHITE_SPACE] are the characters that it removes, in UTF-8. *)
Definition WHITE_SPACE : list (list Z) :=
  [[9]; [10]; [11]; [12]; [13]; [32]; [194; 133]; [194; 160]; [225; 154; 128]; [226; 128; 128]; [226; 128; 129]; [226; 128; 130];
   [226; 128; 131]; [226; 128; 132]; [226; 128; 133]; [226; 128; 134]; [226; 128; 135]; [226; 128; 136]; [226; 128; 137];
   [226; 128; 138]; [226; 128; 168]; [226; 128; 169]; [226; 128; 175]; [226; 129; 159]; [227; 128; 128]].
Definition starts_with (p l : list Z) : bool := bool_decide (take (length p) l = p).
Fixpoint trim_start (spaces : list (list Z)) (fuel : nat) (l : list Z) : list Z :=
  match fuel, List.find (λ p, starts_with p l) spaces with
  | S fuel, Some p => trim_start spaces fuel (drop (length p) l)
  | _, _ => l
  end.
Definition trim (s : string) : string :=
  let l := string_codes s in
  let l := trim_start WHITE_SPACE (length l) l in
  codes_to_string (rev (trim_start (map (@rev Z) WHITE_SPACE) (length l) (rev l))).

(** [str::split] at commas and ends of lines. *)
Definition split_list (s : string) : list string :=
  let '(first, others) := split_char ","%char s in
  mjoin (map (λ s, let '(first, others) := split_char "010"%char s in first :: others) (first :: others)).

Section files.
Context `{CommsCrates, Ipv6Display, AddrText}.
Notation Node := (Node TlsCertificate).
Implicit Types (n : Node) (files : Files).

Definition exists_file files (path : string) : bool := bool_decide (is_Some (files !! path)).
Definition read_to_string files (path : string) : string := default EmptyString (mjoin (files !! path)).

Definition pause_and_disconnect_on_path n files (paused : bool) : bool * Node :=
  let path := "disconnect_" +:+ pretty (addr_port (local_listener_address n)) in
  match paused, exists_file files path with
  | false, true =>
      let content := read_to_string files path in
      let diconnect_addrs := omap parse_socket_addr (split_list content) in
      let n := set_pause_listening n true in
      (true, match diconnect_addrs with
             | [] => disconnect_all n None
             | _ => disconnect_all n (Some diconnect_addrs)
             end)
  | true, false => (false, set_pause_listening n false)
  | _, _ => (paused, n)
  end.

(** The event to send, and what to remember. *)
Definition shutdown_on_path n files (shutdown_num : option (Z * bool)) : option LocalEvent * option (Z * bool) :=
  let port := pretty (addr_port (local_listener_address n)) in
  let now := true in
  let or_else (path : option (string * bool)) (other : string * bool) :=
    match path with
    | Some path => Some path
    | None => if exists_file files other.1 then Some other else None
    end in
  let path := foldl or_else None [("shutdown_now", now); ("shutdown_coordinated", negb now);
    ("shutdown_now_" +:+ port, now); ("shutdown_coordinated_" +:+ port, negb now)]%string in
  match path with
  | Some (path, is_now) =>
      let block_num := default 0 (parse_u64 (trim (read_to_string files path))) in
      let result := Some (block_num, is_now) in
      (if bool_decide (shutdown_num = result) then None
       else Some (if is_now then Exit "Shutdown" else CoordinatedShutdown block_num), result)
  | None => (None, shutdown_num)
  end.

(** One turn of the loop of [loops_re_connect_disconnect] that looks for the
    files, with what it keeps between the turns. *)
Record ModeInput := mkModeInput { mi_paused : bool; mi_shutdown_num : option (Z * bool) }.
Definition mode_input_start : ModeInput := mkModeInput true None.
Definition mode_input_check n files (m : ModeInput) : option LocalEvent * ModeInput * Node :=
  let '(paused, n) := pause_and_disconnect_on_path n files (mi_paused m) in
  let '(event, shutdown_num) := shutdown_on_path n files (mi_shutdown_num m) in
  (event, mkModeInput paused shutdown_num, n).

(** ** What they do *)

Lemma cut_same n n' : same_peers n n' → peers n = ∅ → peers n' = ∅.
Proof. by intros (-> & _). Qed.

(** While the node is paused a cut node stays cut: nothing that it or its peers do
    makes a peer. *)
Lemma cut_step n n' : node_step n n' → listener_and_connect_paused n = true → peers n = ∅ → peers n' = ∅.
Proof.
  intros St P E. assert (N : ∀ a, peers n !! a = None) by (intros a; by rewrite E).
  destruct St as [addr cert|peer stream|c|c msg|c|c|peer payload|l payload|payload|l|subset| |b|b|peer payload|e n' Ev]; cbn; try done.
  - unfold accept_connection. by rewrite P, orb_true_r.
  - unfold connect_to, connect_to_peer. rewrite N, bool_decide_false by (by intros [? ?]). by rewrite P.
  - rewrite E. apply fmap_empty.
  - unfold recv_message. destruct (tasks n !! c) as [t|]; [|done]. destruct (stream_closed t); [done|].
    destruct (task_state t) as [| |addr]; [|done|].
    + destruct msg; try done.
      * cbn. unfold handle_handshake_request. destruct (is_compatible _ _ _); cbn; [|by rewrite E, delete_empty].
        rewrite N, bool_decide_false by (by intros [? ?]). rewrite N. cbn. by rewrite E, delete_empty.
      * cbn. unfold handle_handshake_response. destruct (is_compatible _ _ _); cbn; [|by rewrite E, delete_empty].
        rewrite N. cbn. by rewrite E, delete_empty.
    + destruct msg; try done. cbn. eapply cut_same, E. apply same_peers_gossip.
  - unfold move_peer. destruct (tasks n !! c) as [t|]; [|done]. destruct (task_state t); try done. by rewrite N.
  - unfold end_stream. destruct (tasks n !! c) as [t|]; [|done]. destruct (task_state t); try done. cbn. by rewrite E, delete_empty.
  - eapply cut_same, E. by etrans; [|apply same_peers_message].
  - eapply cut_same, E. apply same_peers_send_all.
  - eapply cut_same, E. unfold multicast, sample_peers. cbn [gen]. destruct (choose_multiple _ _ _); [done|].
    by etrans; [|apply same_peers_multicast].
  - unfold heartbeat_tick, send_heartbeat_message. destruct (heartbeat n); [|done]. cbn [gen].
    pose proof (same_peers_multicast l (HeartBeatProbe (thread_rng n 0%nat)) (n <| thread_rng ::= λ r i, r (S i) |>)) as Hm.
    destruct (send_multicast _ _ _) as [un n1]. cbn in Hm. assert (En : peers n1 = ∅) by by eapply cut_same, E.
    destruct un; [done|]. cbn. by rewrite En, map_filter_empty.
  - destruct subset as [l|]; [|done]. cbn. rewrite E. clear. induction l as [|a l IH]; [done|]. cbn. by rewrite delete_empty.
  - unfold next_event in Ev. destruct (event_queue n); [done|]. by simplify_eq.
Qed.

(** A file that names no address cuts the node off: it has no peer, and whatever
    its tasks, its main loop and other nodes do it gets none, until the file is
    gone; then it may connect again. *)
Theorem disconnect_file_isolates n files :
  let path := "disconnect_" +:+ pretty (addr_port (local_listener_address n)) in
  exists_file files path = true → omap parse_socket_addr (split_list (read_to_string files path)) = [] →
  let '(paused, n1) := pause_and_disconnect_on_path n files false in
  paused = true ∧
  ∀ n2, rtc (λ a b, node_step a b ∧ listener_and_connect_paused b = true) n1 n2 →
    peers n2 = ∅ ∧
    (local_listener_address n2 = local_listener_address n →
      pause_and_disconnect_on_path n2 files paused = (true, n2) ∧
      ∀ files', exists_file files' path = false →
        pause_and_disconnect_on_path n2 files' paused = (false, set_pause_listening n2 false)).
Proof.
  intros path X D. unfold pause_and_disconnect_on_path. fold path. rewrite X, D. cbn. split; [done|]. intros n2 R.
  assert (G : listener_and_connect_paused n2 = true ∧ peers n2 = ∅).
  { set (P := λ m : Node, listener_and_connect_paused m = true ∧ peers m = ∅). change (P n2). revert n2 R. apply (rtc_ind_r P); [done|].
    intros m m' _ [St Pm'] [Pm Em]. split; [done|]. by eapply cut_step. }
  split; [apply G|]. intros ->. fold path. rewrite X. split; [done|]. intros files' ->. done.
Qed.

(** The loop starts as if the node were paused: a file that is there at the start
    neither pauses the node nor cuts a connection. *)
Lemma disconnect_file_at_start_ignored n files m :
  exists_file files ("disconnect_" +:+ pretty (addr_port (local_listener_address n))) = true →
  mi_paused m = true →
  (mode_input_check n files m).2 = n ∧ mi_paused (mode_input_check n files m).1.2 = true.
Proof.
  intros X P. unfold mode_input_check, pause_and_disconnect_on_path. rewrite P, X. by destruct (shutdown_on_path _ _ _).
Qed.

(** Files that stay as they are ask for one shutdown only, at the block that the
    first of them names, now or coordinated. *)
Theorem shutdown_asked_once n n' files s event s' : local_listener_address n' = local_listener_address n →
  shutdown_on_path n files s = (event, s') →
  shutdown_on_path n' files s' = (None, s') ∧
  match event with
  | Some e => s ≠ s' ∧ ∃ b now, s' = Some (b, now) ∧ e = if now then Exit "Shutdown" else CoordinatedShutdown b
  | None => s' = s
  end.
Proof.
  intros El. unfold shutdown_on_path. rewrite El. destruct (foldl _ _ _) as [[path now]|]; [|intros [= <- <-]; done].
  case_bool_decide as B; intros [= <- <-]; (split; [by rewrite bool_decide_true|]); [done|]. split; [done|]. eauto.
Qed.

(** An order for every node comes before one for this node, and to stop now before
    to stop together. *)
Lemma shutdown_order n files s b : exists_file files "shutdown_now" = false →
  exists_file files "shutdown_coordinated" = true →
  parse_u64 (trim (read_to_string files "shutdown_coordinated")) = Some b → s ≠ Some (b, false) →
  shutdown_on_path n files s = (Some (CoordinatedShutdown b), Some (b, false)).
Proof. intros X1 X2 P S. unfold shutdown_on_path. cbn. rewrite X1, X2. cbn. rewrite P. cbn. by rewrite bool_decide_false. Qed.
End files.

(** ** Concrete runs *)
Module ConnectionsExamples.
Import TestExternals CommsExamples.

Definition peers_ab : list SocketAddr := [addr_b].
Definition reply0 (a : SocketAddr) : NodeType * Z := (NodeCompute, 6).

Lemma loop_connects_all_run : ∃ l, rtc (loop_step peers_ab false) (loop_start a0) l ∧ lp_place l = Returned ∧
  loop_wait_connnect_to_peers peers_ab (lp_node l) = true ∧ (∀ a, a ∈ peers_ab → connected_as_replied reply0 (lp_node l) a) ∧
  lp_announced l = 0%nat.
Proof.
  apply loop_connects_all; [repeat constructor; set_solver|done|vm_compute; discriminate|].
  intros a ->%list_elem_of_singleton. split; vm_compute; reflexivity.
Qed.

Example trim_number : parse_u64 (trim (codes_to_string [9; 226; 128; 131; 49; 50; 194; 160; 10])) = Some 12.
Proof. vm_compute. reflexivity. Qed.
Example split_addresses : split_list (codes_to_string [97; 44; 98; 10; 99]) = ["a"; "b"; "c"]%string.
Proof. vm_compute. reflexivity. Qed.
End ConnectionsExamples.
