(* ===== verification/ActiveRaft.v ===== *)
(** * The front of the raft loop: [src/active_raft.rs]

    An [ActiveRaft] hands proposals to the loop of [src/raft.rs] through a
    command channel, or commits them itself when raft is bypassed.  Channels
    are the list of what was sent and not yet received. *)
From S2P Require Import Prelude Externals.

Inductive RaftCommitData :=
  | Proposed (data context : list Z)
  | Snapshot (data : list Z)
  | NewLeader.
Record RaftCommit := mkRaftCommit { term : Z; index : Z; commit_data : RaftCommitData }.

Definition RaftCommitData_take_data (d : RaftCommitData) : option (list Z) :=
  match d with
  | Proposed data _ => Some data
  | Snapshot data => Some data
  | NewLeader => None
  end.

(** [M] is the message type of the raft crate. *)
Inductive RaftCmd (M : Type) :=
  | CmdPropose (data context : list Z)
  | CmdSnapshot (idx : Z) (data : list Z) (backup : bool)
  | CmdRaft (m : M)
  | CmdClose.
Arguments CmdPropose {M}. Arguments CmdSnapshot {M}. Arguments CmdRaft {M}. Arguments CmdClose {M}.

Record ActiveRaft (M : Type) := mkActiveRaft {
  use_raft : bool;
  peer_id : Z;
  cmd_tx : list (RaftCmd M);
  msg_out_rx : list M;
  committed_rx : list (list RaftCommit);
  committed_extra : list RaftCommit;
  peer_addr : gmap Z SocketAddr;
  raft_peers_to_connect : list SocketAddr;
  raft_peer_addrs : list SocketAddr;
  receivers_open : bool;  (* of [msg_out_rx] and [committed_rx] *)
}.
Arguments mkActiveRaft {M}. Arguments use_raft {M}. Arguments peer_id {M}. Arguments cmd_tx {M}.
Arguments msg_out_rx {M}. Arguments committed_rx {M}. Arguments committed_extra {M}.
Arguments peer_addr {M}. Arguments raft_peers_to_connect {M}. Arguments raft_peer_addrs {M}.
Arguments receivers_open {M}.
#[export] Instance eta_ActiveRaft M : Eta (ActiveRaft M) := λ r,
  mkActiveRaft (use_raft r) (peer_id r) (cmd_tx r) (msg_out_rx r) (committed_rx r) (committed_extra r)
    (peer_addr r) (raft_peers_to_connect r) (raft_peer_addrs r) (receivers_open r).

Section active_raft.
Context {M : Type}.
Implicit Types r : ActiveRaft M.

(** Peers are numbered from 1, in the order of the configuration. *)
Definition peer_list (node_specs : list SocketAddr) (use_raft : bool) (peer_id : Z) : list (Z * SocketAddr) :=
  filter (λ p, use_raft = true ∨ p.1 = peer_id)
    (imap (λ i a, (Z.of_nat i + 1, a)) node_specs).

Definition ActiveRaft_new (node_idx : nat) (node_specs : list SocketAddr) (use_raft : bool) :
    outcome (ActiveRaft M) :=
  let! _ := unwrap (node_specs !! node_idx) in
  let peer_id := Z.of_nat node_idx + 1 in
  let peer_addr_vec := peer_list node_specs use_raft peer_id in
  Ret (mkActiveRaft use_raft peer_id [] [] [] []
    (map_extend ∅ peer_addr_vec)
    (filter (λ p, p.1 < peer_id) peer_addr_vec).*2
    (filter (λ p, p.1 ≠ peer_id) peer_addr_vec).*2 true).

Definition peers_len r : Z := zsize (peer_addr r).

Definition close_raft_loop r : ActiveRaft M :=
  r <| receivers_open := false |> <| cmd_tx ::= λ l, l ++ [CmdClose] |>.

(** [next_commit]: batches are appended to the queue until it has a commit;
    [None] when the call does not return: it waits for a batch, or, once the
    receivers are closed and drained, spins on the closed channel. *)
Fixpoint next_commit_loop (batches : list (list RaftCommit)) (extra : list RaftCommit) :
    option (RaftCommit * list (list RaftCommit) * list RaftCommit) :=
  match extra with
  | commit :: extra => Some (commit, batches, extra)
  | [] => match batches with
          | [] => None
          | commits :: batches => next_commit_loop batches commits
          end
  end.
Definition next_commit r : option (RaftCommit * ActiveRaft M) :=
  '(commit, batches, extra) ← next_commit_loop (committed_rx r) (committed_extra r);
  Some (commit, r <| committed_rx := batches |> <| committed_extra := extra |>).

Definition next_msg (msg_to : M → Z) r : outcome (option (SocketAddr * M * ActiveRaft M)) :=
  match msg_out_rx r with
  | [] => Ret None
  | msg :: rest =>
      let! addr := unwrap (peer_addr r !! msg_to msg) in
      Ret (Some (addr, msg, r <| msg_out_rx := rest |>))
  end.

Definition received_message r (msg : M) : ActiveRaft M := r <| cmd_tx ::= λ l, l ++ [CmdRaft msg] |>.

Definition propose_data r (data context : list Z) : ActiveRaft M :=
  if use_raft r then r <| cmd_tx ::= λ l, l ++ [CmdPropose data context] |>
  else r <| committed_extra ::= λ l, l ++ [mkRaftCommit 0 0 (Proposed data context)] |>.

Definition create_snapshot r (idx : Z) (data : list Z) (backup : bool) : ActiveRaft M :=
  if use_raft r then r <| cmd_tx ::= λ l, l ++ [CmdSnapshot idx data backup] |> else r.
End active_raft.

(** ** What is committed, in order *)
Section commits.
Context {M : Type}.
Implicit Types r : ActiveRaft M.

(** Everything still to be delivered. *)
Definition pending r : list RaftCommit := committed_extra r ++ concat (committed_rx r).

Lemma next_commit_loop_spec batches extra :
  match next_commit_loop batches extra with
  | Some (c, b, e) => extra ++ concat batches = c :: e ++ concat b
  | None => extra ++ concat batches = []
  end.
Proof.
  revert extra; induction batches as [|b bs IH]; intros [|c e]; cbn; try done.
  apply IH.
Qed.

(** [next_commit] delivers the pending commits one by one, in order, and
    blocks only when there is none, whatever the batches they came in. *)
Lemma next_commit_pending r :
  match next_commit r with
  | Some (c, r') => pending r = c :: pending r' ∧ cmd_tx r' = cmd_tx r ∧ use_raft r' = use_raft r
  | None => pending r = []
  end.
Proof.
  unfold next_commit, pending. pose proof (next_commit_loop_spec (committed_rx r) (committed_extra r)) as H.
  destruct (next_commit_loop _ _) as [[[c b] e]|]; cbn; [by rewrite H|done].
Qed.

Lemma propose_data_bypassed r data context : use_raft r = false → committed_rx r = [] →
  pending (propose_data r data context) = pending r ++ [mkRaftCommit 0 0 (Proposed data context)].
Proof. intros Hu Hb. unfold propose_data, pending. rewrite Hu. cbn. rewrite Hb. cbn. by rewrite !app_nil_r. Qed.

(** ** The connection plan *)
Lemma elem_of_peer_list specs ur pid i a :
  (i, a) ∈ peer_list specs ur pid ↔
    (ur = true ∨ i = pid) ∧ ∃ n, i = Z.of_nat n + 1 ∧ specs !! n = Some a.
Proof.
  unfold peer_list. rewrite list_elem_of_filter, elem_of_lookup_imap. cbn. naive_solver.
Qed.

Lemma new_peers i specs ur (r : ActiveRaft M) a : ActiveRaft_new i specs ur = Ret r →
  (a ∈ raft_peers_to_connect r ↔ ur = true ∧ ∃ n, (n < i)%nat ∧ specs !! n = Some a) ∧
  (a ∈ raft_peer_addrs r ↔ ur = true ∧ ∃ n, n ≠ i ∧ specs !! n = Some a).
Proof.
  unfold ActiveRaft_new. intros (s & Hs & [= <-])%obind_ret. cbn.
  rewrite !list_elem_of_fmap. split; split.
  - intros ([j b] & -> & [Hj Hb]%list_elem_of_filter). cbn in *.
    apply elem_of_peer_list in Hb as [Hu (n & -> & Hn)]. split; [naive_solver lia|]. exists n. split; [lia|done].
  - intros [-> (n & Hn & Ha)]. exists (Z.of_nat n + 1, a). split; [done|].
    apply list_elem_of_filter. split; [cbn; lia|]. apply elem_of_peer_list. eauto.
  - intros ([j b] & -> & [Hj Hb]%list_elem_of_filter). cbn in *.
    apply elem_of_peer_list in Hb as [Hu (n & -> & Hn)]. split; [naive_solver lia|]. exists n. split; [lia|done].
  - intros [-> (n & Hn & Ha)]. exists (Z.of_nat n + 1, a). split; [done|].
    apply list_elem_of_filter. split; [cbn; lia|]. apply elem_of_peer_list. eauto.
Qed.
End commits.

(** The connection plans of two nodes built from the same configuration
    fit: of the pair exactly the later one opens the connection, and each
    expects to be connected to the other. *)
Theorem connection_plan {M : Type} (specs : list SocketAddr) (i j : nat) (ri rj : ActiveRaft M) (ai aj : SocketAddr) :
  NoDup specs → (i < j)%nat → specs !! i = Some ai → specs !! j = Some aj →
  ActiveRaft_new i specs true = Ret ri → ActiveRaft_new j specs true = Ret rj →
  ai ∈ raft_peers_to_connect rj ∧ aj ∉ raft_peers_to_connect ri ∧
  ai ∈ raft_peer_addrs rj ∧ aj ∈ raft_peer_addrs ri.
Proof.
  intros Hnd Hij Hi Hj Hri Hrj.
  destruct (new_peers i specs true ri aj Hri) as [Ci Ai].
  destruct (new_peers j specs true rj ai Hrj) as [Cj Aj].
  rewrite Ci, Cj, Ai, Aj. repeat split; eauto; [|exists i; split; [lia|done]|exists j; split; [lia|done]].
  intros (_ & n & Hn & Ha). assert (n = j) by (by eapply NoDup_lookup). lia.
Qed.

Lemma connection_plan_witness :
  ∃ r0 r1 : ActiveRaft unit,
    ActiveRaft_new 0 [AddrV4 1 1; AddrV4 2 2] true = Ret r0 ∧
    ActiveRaft_new 1 [AddrV4 1 1; AddrV4 2 2] true = Ret r1 ∧
    AddrV4 1 1 ∈ raft_peers_to_connect r1 ∧ AddrV4 2 2 ∉ raft_peers_to_connect r0 ∧
    AddrV4 1 1 ∈ raft_peer_addrs r1 ∧ AddrV4 2 2 ∈ raft_peer_addrs r0.
Proof.
  eexists _, _. split; [reflexivity|]. split; [reflexivity|].
  eapply (connection_plan [AddrV4 1 1; AddrV4 2 2] 0 1); [|lia|reflexivity..].
  apply (bool_decide_unpack _). reflexivity.
Defined.
