(* ===== verification/RaftUtil.v ===== *)
(** * Proposals in flight: [src/raft_util.rs]

    The book-keeping shared by the compute and storage consensus: keys of the
    proposals not yet committed, and the hashes that keep an item from being
    proposed twice. *)
From S2P Require Import Prelude Externals ActiveRaft.

Record RaftContextKey := mkRaftContextKey { proposer_id : Z; proposer_run : Z; proposal_id : Z }.

#[export] Instance RaftContextKey_eq_dec : EqDecision RaftContextKey.
Proof. solve_decision. Defined.
Definition RaftContextKey_code (k : RaftContextKey) : list Z := [proposer_id k; proposer_run k; proposal_id k].
Definition RaftContextKey_decode (l : list Z) : option RaftContextKey :=
  match l with [a; b; c] => Some (mkRaftContextKey a b c) | _ => None end.
Lemma RaftContextKey_decode_code k : RaftContextKey_decode (RaftContextKey_code k) = Some k.
Proof. by destruct k. Qed.
#[export] Instance RaftContextKey_countable : Countable RaftContextKey :=
  inj_countable RaftContextKey_code RaftContextKey_decode RaftContextKey_decode_code.
#[export] Program Instance ordkey_RaftContextKey : OrdKey RaftContextKey := {| okey := RaftContextKey_code |}.
Next Obligation. intros [] [] E. by simplify_eq. Qed.

Record RaftInFlightProposals := mkRaftInFlightProposals {
  proposed_in_flight : gmap RaftContextKey (list Z * list Z);
  proposed_keys_b_num : gmap RaftContextKey Z;
  proposed_last_id : Z;
  proposed_key_run : option Z;
  already_proposed_hashes : gmap (list Z) (RaftContextKey * Z);
  min_b_num : Z;
}.
Definition RaftInFlightProposals_default : RaftInFlightProposals :=
  mkRaftInFlightProposals ∅ ∅ 0 None ∅ 0.
#[export] Instance eta_RaftInFlightProposals : Eta RaftInFlightProposals := λ r,
  mkRaftInFlightProposals (proposed_in_flight r) (proposed_keys_b_num r) (proposed_last_id r)
    (proposed_key_run r) (already_proposed_hashes r) (min_b_num r).

Section raft_util.
Context `{Naom, Bincode RaftContextKey}.
Context {M : Type}.
Implicit Types (p : RaftInFlightProposals) (r : ActiveRaft M).

Definition set_key_run p (key_run : Z) : RaftInFlightProposals :=
  p <| proposed_key_run := Some key_run |>.

(** The outer [option] is [None] when the item is not to be proposed. *)
Definition check_deduplication (hashes : gmap (list Z) (RaftContextKey * Z)) (min_b_num : Z)
    (item_data : list Z) (dedup_b_num : option Z) : option (option (list Z * Z)) :=
  match dedup_b_num with
  | Some b_num =>
      if b_num <? min_b_num then None
      else
        let data_hash := sha3_256 item_data in
        match hashes !! data_hash with
        | Some _ => None
        | None => Some (Some (data_hash, b_num))
        end
  | None => Some None
  end.

Definition received_commit_proposal {Item : Type} `{Bincode Item} p (raft_data raft_ctx : list Z) :
    option (RaftContextKey * Item * bool) * RaftInFlightProposals :=
  match deserialize (T := Item) raft_data, deserialize (T := RaftContextKey) raft_ctx with
  | Some item, Some key =>
      let removed := bool_decide (is_Some (proposed_in_flight p !! key)) in
      (Some (key, item, removed),
       p <| proposed_in_flight ::= delete key |> <| proposed_keys_b_num ::= delete key |>)
  | _, _ => (None, p)
  end.

Definition propose_item {Item : Type} `{Bincode Item} p r (item : Item) (dedup_b_num : option Z) :
    outcome (option RaftContextKey * RaftInFlightProposals * ActiveRaft M) :=
  let data := serialize item in
  match check_deduplication (already_proposed_hashes p) (min_b_num p) data dedup_b_num with
  | None => Ret (None, p, r)
  | Some dedup_info =>
      let p := p <| proposed_last_id ::= λ n, wrap64 (n + 1) |> in
      let! run := unwrap (proposed_key_run p) in
      let key := mkRaftContextKey (peer_id r) run (proposed_last_id p) in
      let context := serialize key in
      let p := p <| proposed_in_flight ::= <[key := (data, context)]> |> in
      let p := match dedup_info with
               | Some (item_hash, b_num) =>
                   p <| already_proposed_hashes ::= <[item_hash := (key, b_num)]> |>
                     <| proposed_keys_b_num ::= <[key := b_num]> |>
               | None => p
               end in
      Ret (Some key, p, propose_data r data context)
  end.

Definition remove_all_keys p (keys : gset RaftContextKey) : RaftInFlightProposals :=
  foldl (λ p key,
      p <| proposed_in_flight ::= delete key |>
        <| proposed_keys_b_num ::= delete key |>
        <| already_proposed_hashes ::= filter (λ kv, kv.2.1 ≠ key) |>)
    p (bt_elems keys).

Definition re_propose_item p r (key : RaftContextKey) : ActiveRaft M :=
  match proposed_in_flight p !! key with
  | Some (data, context) => propose_data r data context
  | None => r
  end.

Definition re_propose_all_items p r : ActiveRaft M :=
  foldl (λ r '(data, context), propose_data r data context) r (bt_values (proposed_in_flight p)).

Definition re_propose_uncommitted_current_b_num p r (current_block_num : Z) : ActiveRaft M :=
  foldl (λ r '(key, block_num),
      if block_num =? current_block_num then re_propose_item p r key else r)
    r (bt_iter (proposed_keys_b_num p)).

Definition ignore_dedeup_b_num_less_than p (min : Z) : RaftInFlightProposals :=
  p <| min_b_num := min |>
    <| already_proposed_hashes ::= filter (λ kv, kv.2.2 < min) |>
    <| proposed_keys_b_num ::= filter (λ kv, kv.2 < min) |>.
End raft_util.

(** ** Basic facts *)
Section facts.
Context `{Naom, !Bincode RaftContextKey, !BincodeLaws RaftContextKey}.
Context {M Item : Type} `{!Bincode Item, !BincodeLaws Item}.
Implicit Types (p : RaftInFlightProposals) (r : ActiveRaft M).

(** What a proposal that goes through does. *)
Lemma propose_item_some p r (item : Item) d key p' r' :
  propose_item p r item d = Ret (Some key, p', r') →
  ∃ run dedup, proposed_key_run p = Some run ∧
    check_deduplication (already_proposed_hashes p) (min_b_num p) (serialize item) d = Some dedup ∧
    key = mkRaftContextKey (peer_id r) run (wrap64 (proposed_last_id p + 1)) ∧
    r' = propose_data r (serialize item) (serialize key) ∧
    proposed_last_id p' = wrap64 (proposed_last_id p + 1) ∧
    proposed_key_run p' = proposed_key_run p ∧ min_b_num p' = min_b_num p ∧
    proposed_in_flight p' = <[key := (serialize item, serialize key)]> (proposed_in_flight p) ∧
    proposed_keys_b_num p' = match dedup with
      | Some (_, b) => <[key := b]> (proposed_keys_b_num p) | None => proposed_keys_b_num p end ∧
    already_proposed_hashes p' = match dedup with
      | Some (h, b) => <[h := (key, b)]> (already_proposed_hashes p) | None => already_proposed_hashes p end.
Proof.
  unfold propose_item. destruct (check_deduplication _ _ _ _) as [dedup|]; [|done].
  cbn. destruct (proposed_key_run p) as [run|] eqn:Hr; cbn; [|done].
  intros [= <- <- <-]. exists run, dedup. by destruct dedup as [[h b]|]; cbn.
Qed.

Lemma propose_item_none p r (item : Item) d p' r' :
  propose_item p r item d = Ret (None, p', r') → p' = p ∧ r' = r ∧
    check_deduplication (already_proposed_hashes p) (min_b_num p) (serialize item) d = None.
Proof.
  unfold propose_item. destruct (check_deduplication _ _ _ _) as [dedup|]; [|naive_solver].
  cbn. by destruct (proposed_key_run p) as [run|]; cbn.
Qed.

Lemma check_deduplication_Some hashes m data d :
  check_deduplication hashes m data d = None ↔
  ∃ b, d = Some b ∧ (b < m ∨ is_Some (hashes !! sha3_256 data)).
Proof.
  unfold check_deduplication. destruct d as [b|]; [|naive_solver].
  destruct (Z.ltb_spec b m); [naive_solver|].
  destruct (hashes !! sha3_256 data) eqn:E; [naive_solver|]. split; [done|].
  intros (b' & [= <-] & [?|[x Hx]]); [lia|done].
Qed.

Lemma received_fields p d c :
  let p' := (received_commit_proposal (Item := Item) p d c).2 in
  already_proposed_hashes p' = already_proposed_hashes p ∧ min_b_num p' = min_b_num p ∧
  proposed_last_id p' = proposed_last_id p ∧ proposed_key_run p' = proposed_key_run p ∧
  proposed_in_flight p' ⊆ proposed_in_flight p ∧ proposed_keys_b_num p' ⊆ proposed_keys_b_num p.
Proof.
  unfold received_commit_proposal. cbv zeta.
  destruct (deserialize d), (deserialize c); cbn; repeat split; try apply delete_subseteq; done.
Qed.

Lemma remove_all_keys_fields p keys :
  let p' := remove_all_keys p keys in
  (∀ k, proposed_in_flight p' !! k = if decide (k ∈ keys) then None else proposed_in_flight p !! k) ∧
  (∀ k, proposed_keys_b_num p' !! k = if decide (k ∈ keys) then None else proposed_keys_b_num p !! k) ∧
  already_proposed_hashes p' = filter (λ kv, kv.2.1 ∉ keys) (already_proposed_hashes p) ∧
  min_b_num p' = min_b_num p ∧ proposed_last_id p' = proposed_last_id p ∧
  proposed_key_run p' = proposed_key_run p.
Proof.
  cbv zeta. unfold remove_all_keys.
  assert (Hg : ∀ l p, let p' := foldl (λ p key,
      p <| proposed_in_flight ::= delete key |> <| proposed_keys_b_num ::= delete key |>
        <| already_proposed_hashes ::= filter (λ kv, kv.2.1 ≠ key) |>) p l in
    (∀ k, proposed_in_flight p' !! k = if decide (k ∈ l) then None else proposed_in_flight p !! k) ∧
    (∀ k, proposed_keys_b_num p' !! k = if decide (k ∈ l) then None else proposed_keys_b_num p !! k) ∧
    already_proposed_hashes p' = filter (λ kv, kv.2.1 ∉ l) (already_proposed_hashes p) ∧
    min_b_num p' = min_b_num p ∧ proposed_last_id p' = proposed_last_id p ∧
    proposed_key_run p' = proposed_key_run p).
  { clear p. induction l as [|k0 l IH]; intros p; cbn [foldl]; cbv zeta.
    - split_and!; [intros k; by rewrite decide_False by apply not_elem_of_nil|intros k; by rewrite decide_False by apply not_elem_of_nil| |done..].
      symmetry. apply map_filter_id. intros. apply not_elem_of_nil.
    - destruct (IH (p <| proposed_in_flight ::= delete k0 |> <| proposed_keys_b_num ::= delete k0 |>
        <| already_proposed_hashes ::= filter (λ kv, kv.2.1 ≠ k0) |>)) as (I1 & I2 & I3 & I4 & I5 & I6).
      split_and!; [intros k; rewrite I1|intros k; rewrite I2|rewrite I3|done..].
      1,2: cbn; rewrite lookup_delete; clear IH I1 I2 I3; repeat case_decide; rewrite ?not_elem_of_cons, ?elem_of_cons in *; naive_solver.
      cbn. rewrite map_filter_filter. apply map_filter_ext. intros h [k b] _. cbn.
      rewrite not_elem_of_cons. naive_solver. }
  destruct (Hg (bt_elems keys) p) as (I1 & I2 & I3 & I4 & I5 & I6).
  split_and!; [intros k|intros k| |done..].
  - rewrite I1. repeat case_decide; rewrite ?elem_of_bt_elems in *; done.
  - rewrite I2. repeat case_decide; rewrite ?elem_of_bt_elems in *; done.
  - rewrite I3. apply map_filter_ext. intros h [k b] _. cbn. by rewrite elem_of_bt_elems.
Qed.
End facts.

(** ** Histories of a proposer *)
Section history.
Context `{Naom, !Bincode RaftContextKey, !BincodeLaws RaftContextKey}.
Context {M Item : Type} `{!Bincode Item, !BincodeLaws Item}.

(** The calls a node makes, in any order. *)
Inductive event :=
  | EvPropose (item : Item) (dedup_b_num : option Z)
  | EvCommit (data context : list Z)
  | EvRemove (keys : gset RaftContextKey)
  | EvIgnore (min : Z)
  | EvRePropose.

Definition run_event (s : RaftInFlightProposals * ActiveRaft M) (e : event) :
    outcome (option RaftContextKey * (RaftInFlightProposals * ActiveRaft M)) :=
  let '(p, r) := s in
  match e with
  | EvPropose item d => let! x := propose_item p r item d in Ret (x.1.1, (x.1.2, x.2))
  | EvCommit d c => Ret (None, ((received_commit_proposal (Item := Item) p d c).2, r))
  | EvRemove ks => Ret (None, (remove_all_keys p ks, r))
  | EvIgnore m => Ret (None, (ignore_dedeup_b_num_less_than p m, r))
  | EvRePropose => Ret (None, (p, re_propose_all_items p r))
  end.

(** The keys handed out, oldest first. *)
Fixpoint run_events (s : RaftInFlightProposals * ActiveRaft M) (l : list event) :
    outcome (list RaftContextKey * (RaftInFlightProposals * ActiveRaft M)) :=
  match l with
  | [] => Ret ([], s)
  | e :: l =>
      let! x := run_event s e in
      let! y := run_events x.2 l in
      Ret (option_list x.1 ++ y.1, y.2)
  end.

(** Every key on record was handed out in this run and not after [last_id]. *)
Definition in_flight_ok (p : RaftInFlightProposals) (pid : Z) : Prop :=
  0 ≤ proposed_last_id p ∧
  ∀ k, is_Some (proposed_in_flight p !! k) →
    proposer_id k = pid ∧ proposed_key_run p = Some (proposer_run k) ∧
    1 ≤ proposal_id k ≤ proposed_last_id p.

Lemma re_propose_all_peer_id (r : ActiveRaft M) (p : RaftInFlightProposals) :
  peer_id (re_propose_all_items p r) = peer_id r.
Proof.
  unfold re_propose_all_items. revert r. induction (bt_values (proposed_in_flight p)) as [|[d c] l IH];
    intros r; cbn; [done|]. rewrite IH. unfold propose_data. by destruct (use_raft r).
Qed.

Lemma propose_data_peer_id (r : ActiveRaft M) d c : peer_id (propose_data r d c) = peer_id r.
Proof. unfold propose_data. by destruct (use_raft r). Qed.

(** A step hands out at most one key, with the next id, and keeps the invariant. *)
Lemma run_event_ok p r e k p' r' :
  in_flight_ok p (peer_id r) → proposed_last_id p + 1 < U64_MOD →
  run_event (p, r) e = Ret (k, (p', r')) →
  in_flight_ok p' (peer_id r') ∧ peer_id r' = peer_id r ∧ proposed_key_run p' = proposed_key_run p ∧
  match k with
  | Some key => proposal_id key = proposed_last_id p' ∧ proposed_last_id p' = proposed_last_id p + 1 ∧
                proposer_id key = peer_id r ∧ Some (proposer_run key) = proposed_key_run p
  | None => proposed_last_id p' = proposed_last_id p
  end.
Proof.
  intros [Hl Hok] Hb. unfold run_event. destruct e as [item d|d c|ks|m|].
  - intros ([[ok p1] r1] & E & [= <- <- <-])%obind_ret. destruct ok as [key|].
    + apply propose_item_some in E as (run & dd & Er & _ & -> & -> & El & Er' & _ & Ef & _).
      rewrite propose_data_peer_id, El, Er', wrap64_id by (split; lia). cbn.
      split_and!; try done. unfold in_flight_ok. rewrite Ef, El, Er', wrap64_id by (split; lia).
      split; [lia|]. intros k. rewrite lookup_insert_is_Some. intros [<-|[_ Hk]].
      * cbn. split_and!; [done..|lia|lia].
      * destruct (Hok k Hk) as (? & ? & ?). split_and!; [done..|lia|lia].
    + by apply propose_item_none in E as (-> & -> & _).
  - intros [= <- <- <-]. destruct (received_fields (Item := Item) p d c) as (_ & _ & El & Er & Ef & _).
    split_and!; try done. unfold in_flight_ok. rewrite El, Er. split; [done|].
    intros k [x Hk]. apply Hok. exists x. by eapply lookup_weaken.
  - intros [= <- <- <-]. destruct (remove_all_keys_fields p ks) as (Ef & _ & _ & _ & El & Er).
    split_and!; try done. unfold in_flight_ok. rewrite El, Er. split; [done|].
    intros k. rewrite Ef. case_decide; [by intros [? [=]]|apply Hok].
  - by intros [= <- <- <-].
  - intros [= <- <- <-]. by rewrite re_propose_all_peer_id.
Qed.

Lemma run_events_keys (l : list event) (p : RaftInFlightProposals) (r : ActiveRaft M) keys s' :
  in_flight_ok p (peer_id r) → proposed_last_id p + zlen l < U64_MOD →
  run_events (p, r) l = Ret (keys, s') →
  NoDup keys ∧ in_flight_ok s'.1 (peer_id r) ∧
  ∀ k, k ∈ keys → proposer_id k = peer_id r ∧ proposed_key_run p = Some (proposer_run k) ∧
    proposed_last_id p < proposal_id k ∧ proposed_in_flight p !! k = None.
Proof.
  revert p r keys. induction l as [|e l IH]; intros p r keys Hok Hb; cbn [run_events].
  { intros [= <- <-]. split_and!; [constructor|done|]. by intros k ?%not_elem_of_nil. }
  intros ([k [p1 r1]] & He & ([ks s1] & Hl & [= <- <-])%obind_ret)%obind_ret.
  unfold zlen in Hb. cbn [length] in Hb.
  apply run_event_ok in He as (Hok1 & Hpid & Hrun & Hk); [|done|lia].
  cbn [fst snd] in *.
  assert (Hb1 : proposed_last_id p1 + zlen l < U64_MOD) by (unfold zlen; destruct k; lia).
  destruct (IH p1 r1 ks Hok1 Hb1 Hl) as (Hnd & Hok' & Hks). rewrite Hpid, Hrun in *.
  assert (Hfresh : ∀ k, proposed_last_id p < proposal_id k → proposed_in_flight p !! k = None).
  { intros k' Hk'. apply eq_None_not_Some. intros Hs%(proj2 Hok). lia. }
  destruct k as [key|]; cbn [option_list app].
  - destruct Hk as (E1 & E2 & E3 & E4). split_and!; [|done|].
    + constructor; [|done]. intros Hin. apply Hks in Hin. lia.
    + intros k [->|Hin]%elem_of_cons.
      * split_and!; [done|done|lia|]. apply Hfresh. lia.
      * destruct (Hks k Hin) as (? & ? & ? & _). split_and!; [done|done|lia|]. apply Hfresh. lia.
  - split_and!; [done..|]. intros k Hin. destruct (Hks k Hin) as (? & ? & ? & _).
    split_and!; [done|done|lia|]. apply Hfresh. lia.
Qed.

Lemma run_event_total p r e : is_Some (proposed_key_run p) →
  ∃ k p' r', run_event (p, r) e = Ret (k, (p', r')) ∧ proposed_key_run p' = proposed_key_run p.
Proof.
  intros [run Hrun]. destruct e as [item d|d c|ks|m|]; cbn [run_event].
  - unfold propose_item. destruct (check_deduplication _ _ _ _) as [[[h b]|]|]; cbn;
      rewrite ?Hrun; cbn; eauto.
  - destruct (received_fields (Item := Item) p d c) as (_ & _ & _ & Hr & _). eauto 6.
  - destruct (remove_all_keys_fields p ks) as (_ & _ & _ & _ & _ & Hr). eauto 6.
  - eauto 6.
  - eauto 6.
Qed.

Lemma run_events_total l p r : is_Some (proposed_key_run p) →
  ∃ keys s', run_events (p, r) l = Ret (keys, s').
Proof.
  revert p r; induction l as [|e l IH]; intros p r Hrun; cbn [run_events]; [eauto|].
  destruct (run_event_total p r e Hrun) as (k & p1 & r1 & -> & Hr1). cbn [obind fst snd].
  destruct (IH p1 r1) as (ks & s' & ->); [by rewrite Hr1|]. cbn. eauto.
Qed.

(** Over any sequence of proposals, commits, removals and clean-ups (short
    of [2^64] proposals), every call returns
    and the keys handed out are pairwise distinct, all carry
    the node's id and run, and none was already in flight. *)
Theorem proposal_keys_unique (l : list event) (p : RaftInFlightProposals) (r : ActiveRaft M) run :
  in_flight_ok p (peer_id r) → proposed_key_run p = Some run → proposed_last_id p + zlen l < U64_MOD →
  ∃ keys s', run_events (p, r) l = Ret (keys, s') ∧
    NoDup keys ∧ in_flight_ok s'.1 (peer_id r) ∧
    ∀ k, k ∈ keys → proposer_id k = peer_id r ∧ proposer_run k = run ∧
      proposed_last_id p < proposal_id k ∧ proposed_in_flight p !! k = None.
Proof.
  intros Hok Hrun Hb. destruct (run_events_total l p r ltac:(eauto)) as (keys & s' & Hr).
  exists keys, s'. destruct (run_events_keys l p r keys s' Hok Hb Hr) as (? & ? & Hk).
  split_and!; [done..|]. intros k (? & E & ? & ?)%Hk. rewrite Hrun in E. by simplify_eq.
Qed.

(** Without raft, a proposal is delivered by the next call of
    [next_commit] and its commit gives back the item and its key, reports the
    proposal as the node's own, and takes exactly it out of the proposals in
    flight. *)
Theorem propose_commit_roundtrip (p : RaftInFlightProposals) (r : ActiveRaft M) (item : Item) d key p1 r1 :
  use_raft r = false → pending r = [] → proposed_in_flight p !! mkRaftContextKey (peer_id r)
    (default 0 (proposed_key_run p)) (wrap64 (proposed_last_id p + 1)) = None →
  propose_item p r item d = Ret (Some key, p1, r1) →
  ∃ data context r2 p2,
    next_commit r1 = Some (mkRaftCommit 0 0 (Proposed data context), r2) ∧ pending r2 = [] ∧
    received_commit_proposal p1 data context = (Some (key, item, true), p2) ∧
    proposed_in_flight p1 !! key = Some (data, context) ∧
    proposed_in_flight p2 = proposed_in_flight p ∧ proposed_keys_b_num p2 !! key = None.
Proof.
  intros Hu Hp Hfresh Hprop.
  apply propose_item_some in Hprop as (run & dd & Er & _ & Ek & -> & _ & _ & _ & Ef & _).
  rewrite Er in Hfresh. cbn in Hfresh. rewrite <-Ek in Hfresh.
  exists (serialize item), (serialize key).
  pose proof (next_commit_pending (propose_data r (serialize item) (serialize key))) as Hn.
  assert (Hpend : pending (propose_data r (serialize item) (serialize key)) =
    [mkRaftCommit 0 0 (Proposed (serialize item) (serialize key))]).
  { unfold pending in Hp. apply app_eq_nil in Hp as [He Hc].
    unfold propose_data, pending. rewrite Hu. cbn. by rewrite He, Hc. }
  rewrite Hpend in Hn. destruct (next_commit _) as [[c r2]|]; [|done].
  destruct Hn as (E & _). inversion E as [[Ec Ep]]. exists r2.
  unfold received_commit_proposal. rewrite !deserialize_serialize. cbn.
  rewrite Ef. eexists. split_and!; [done..| | | | ]; cbn.
  - rewrite bool_decide_true; [done|]. rewrite lookup_insert_eq. eauto.
  - by rewrite lookup_insert_eq.
  - change (delete key (proposed_in_flight p1) = proposed_in_flight p). rewrite Ef. by apply delete_insert_id.
  - apply (lookup_delete_eq (proposed_keys_b_num p1)).
Qed.

(** An item proposed with a block number is not proposed a second time:
    whatever is committed in between, proposing it again changes nothing and
    sends nothing, until its key is removed. *)
Theorem dedup_refuses (p : RaftInFlightProposals) (r r2 : ActiveRaft M) (item : Item) b b' key p1 r1 commits :
  propose_item p r item (Some b) = Ret (Some key, p1, r1) →
  let p2 := foldl (λ p dc, (received_commit_proposal (Item := Item) p dc.1 dc.2).2) p1 commits in
  propose_item p2 r2 item (Some b') = Ret (None, p2, r2).
Proof.
  intros Hprop p2.
  apply propose_item_some in Hprop as (run & dd & _ & Hc & _ & _ & _ & _ & _ & _ & _ & Eh).
  assert (He : already_proposed_hashes p2 = already_proposed_hashes p1).
  { subst p2. clear. revert p1. induction commits as [|c l IH]; intros p1; cbn [foldl]; [done|].
    rewrite IH. apply received_fields. }
  assert (Hs : is_Some (already_proposed_hashes p1 !! sha3_256 (serialize item))).
  { rewrite Eh. unfold check_deduplication in Hc. destruct (b <? min_b_num p); [done|].
    destruct (already_proposed_hashes p !! _); simplify_eq. rewrite lookup_insert_eq. eauto. }
  unfold propose_item.
  replace (check_deduplication (already_proposed_hashes p2) (min_b_num p2) (serialize item) (Some b'))
    with (None : option (option (list Z * Z))); [done|].
  symmetry. apply check_deduplication_Some. exists b'. split; [done|]. right. by rewrite He.
Qed.

(** [ignore_dedeup_b_num_less_than min] keeps exactly the entries of the
    blocks below [min], which the deduplication never consults again, and
    drops the ones of the current and later blocks: an item already proposed
    for a block not below [min] is proposed a second time under a new key. *)
Theorem ignore_forgets_relevant (p : RaftInFlightProposals) (r r2 : ActiveRaft M) (item : Item) b min key p1 r1 :
  propose_item p r item (Some b) = Ret (Some key, p1, r1) → min ≤ b →
  let p2 := ignore_dedeup_b_num_less_than p1 min in
  (∀ h k n, already_proposed_hashes p2 !! h = Some (k, n) ↔
     already_proposed_hashes p1 !! h = Some (k, n) ∧ n < min) ∧
  proposed_keys_b_num p2 !! key = None ∧
  ∃ key' p3, propose_item p2 r2 item (Some b) = Ret (Some key', p3, propose_data r2 (serialize item) (serialize key')) ∧
    proposed_in_flight p3 !! key' = Some (serialize item, serialize key').
Proof.
  intros Hprop Hm p2.
  apply propose_item_some in Hprop as (run & dd & Er & Hc & _ & _ & _ & Er1 & _ & _ & Ek & Eh).
  unfold check_deduplication in Hc. destruct (b <? min_b_num p) eqn:?; [done|].
  destruct (already_proposed_hashes p !! _) eqn:?; simplify_eq. split_and!.
  - intros h k n. cbn. rewrite map_lookup_filter_Some. done.
  - cbn. rewrite Ek. apply map_lookup_filter_None. right. intros n.
    rewrite lookup_insert_eq. intros [= <-]. cbn. lia.
  - unfold propose_item.
    assert (Hd : check_deduplication (already_proposed_hashes p2) (min_b_num p2) (serialize item) (Some b) =
      Some (Some (sha3_256 (serialize item), b))).
    { unfold check_deduplication. cbn. destruct (Z.ltb_spec b min); [lia|].
      replace (filter _ _ !! _) with (None : option (RaftContextKey * Z)); [done|]. symmetry.
      apply map_lookup_filter_None. right. intros [k n]. rewrite Eh, lookup_insert_eq.
      intros [= <- <-]. cbn. lia. }
    rewrite Hd. cbn. rewrite Er1, Er. cbn. eexists _, _. split; [done|]. cbn. apply lookup_insert_eq.
Qed.
End history.

(** Re-proposing for a block sends again, in the order of their keys,
    exactly the proposals still in flight that were proposed for that block. *)
Theorem re_propose_current {M : Type} (p : RaftInFlightProposals) (r : ActiveRaft M) (b : Z) :
  use_raft r = true →
  re_propose_uncommitted_current_b_num p r b =
    r <| cmd_tx ::= λ l, l ++ omap (λ kb,
        if kb.2 =? b then '(data, context) ← proposed_in_flight p !! kb.1; Some (CmdPropose data context)
        else None) (bt_iter (proposed_keys_b_num p)) |>.
Proof.
  intros Hu. unfold re_propose_uncommitted_current_b_num. revert r Hu.
  induction (bt_iter (proposed_keys_b_num p)) as [|[k n] l IH]; intros r Hu; cbn [foldl omap list_omap].
  { destruct r; unfold setter; cbn. by rewrite app_nil_r. }
  cbn. destruct (n =? b); [|by apply IH]. unfold re_propose_item.
  destruct (proposed_in_flight p !! k) as [[d c]|] eqn:E; rewrite ?E; cbn; [|by apply IH].
  rewrite IH by (unfold propose_data; by rewrite Hu).
  unfold propose_data. rewrite Hu. destruct r; unfold setter; cbn. by rewrite <-app_assoc.
Qed.

Module RaftUtilExamples.
Import TestExternals.
#[export] Instance bincode_key : Bincode RaftContextKey :=
  {| serialize := RaftContextKey_code; deserialize := RaftContextKey_decode |}.
#[export] Instance bincode_key_laws : BincodeLaws RaftContextKey := RaftContextKey_decode_code.
#[export] Instance bincode_Z : Bincode Z :=
  {| serialize z := [z]; deserialize l := match l with [z] => Some z | _ => None end |}.
#[export] Instance bincode_Z_laws : BincodeLaws Z := λ z, eq_refl.

Definition p0 : RaftInFlightProposals := set_key_run RaftInFlightProposals_default 7.
Definition r0 : ActiveRaft unit := mkActiveRaft false 1 [] [] [] [] ∅ [] [] true.
Definition key1 : RaftContextKey := mkRaftContextKey 1 7 1.
Definition p1 : RaftInFlightProposals :=
  mkRaftInFlightProposals {[key1 := ([5], [1; 7; 1])]} {[key1 := 3]} 1 (Some 7)
    {[5 :: replicate 31 0 := (key1, 3)]} 0.
Definition r1 : ActiveRaft unit := propose_data r0 [5] [1; 7; 1].

Lemma propose1 : propose_item p0 r0 5 (Some 3) = Ret (Some key1, p1, r1).
Proof. vm_compute. reflexivity. Qed.

Lemma proposal_keys_unique_witness :
  ∃ keys s', run_events (Item := Z) (p0, r0) [EvPropose 5 (Some 3); EvPropose 5 (Some 3); EvPropose 6 None] =
      Ret (keys, s') ∧
    NoDup keys ∧ in_flight_ok s'.1 1 ∧
    ∀ k, k ∈ keys → proposer_id k = 1 ∧ proposer_run k = 7 ∧
      0 < proposal_id k ∧ proposed_in_flight p0 !! k = None.
Proof.
  apply (proposal_keys_unique _ p0 r0 7); [|reflexivity|reflexivity].
  split; [done|]. intros k [x Hx]. change ((∅ : gmap RaftContextKey (list Z * list Z)) !! k = Some x) in Hx. by rewrite lookup_empty in Hx.
Defined.

Lemma propose_commit_roundtrip_witness :
  ∃ data context r2 p2,
    next_commit r1 = Some (mkRaftCommit 0 0 (Proposed data context), r2) ∧ pending r2 = [] ∧
    received_commit_proposal p1 data context = (Some (key1, 5, true), p2) ∧
    proposed_in_flight p1 !! key1 = Some (data, context) ∧
    proposed_in_flight p2 = proposed_in_flight p0 ∧ proposed_keys_b_num p2 !! key1 = None.
Proof. eapply (propose_commit_roundtrip p0 r0 5 (Some 3)); [reflexivity..|apply propose1]. Defined.

Lemma dedup_refuses_witness :
  propose_item (received_commit_proposal (Item := Z) p1 [5] [1; 7; 1]).2 r0 5 (Some 4) =
    Ret (None, (received_commit_proposal (Item := Z) p1 [5] [1; 7; 1]).2, r0).
Proof. exact (dedup_refuses p0 r0 r0 5 3 4 key1 p1 r1 [([5], [1; 7; 1])] propose1). Defined.

Lemma ignore_forgets_relevant_witness :
  ∃ key' p3, propose_item (ignore_dedeup_b_num_less_than p1 3) r0 5 (Some 3) =
      Ret (Some key', p3, propose_data r0 [5] (serialize key')) ∧
    proposed_in_flight p3 !! key' = Some ([5], serialize key').
Proof. apply (ignore_forgets_relevant p0 r0 r0 5 3 3 key1 p1 r1 propose1). done. Defined.

Lemma re_propose_current_witness :
  re_propose_uncommitted_current_b_num p1 (mkActiveRaft true 1 [] [] [] [] ∅ [] [] true : ActiveRaft unit) 3 =
    mkActiveRaft true 1 [CmdPropose [5] [1; 7; 1]] [] [] [] ∅ [] [] true.
Proof. rewrite re_propose_current by reflexivity. vm_compute. reflexivity. Defined.
End RaftUtilExamples.
