(* ===== verification/BlockPipeline.v ===== *)
(** * The mining pipeline of [src/block_pipeline.rs]

    The consensused state machine that takes in the participating miners,
    selects among them, takes in their proofs of work and selects a winner. *)
From S2P Require Import Prelude Externals Utils Unicorn Interfaces RaftUtil.

Inductive MiningPipelineStatus := Halted | ParticipantOnlyIntake | AllItemsIntake.
#[export] Instance MiningPipelineStatus_eq_dec : EqDecision MiningPipelineStatus.
Proof. solve_decision. Defined.

Inductive MiningPipelinePhaseChange := StartPhasePowIntake | StartPhaseHalted | Reset.

Inductive MiningPipelineItem :=
  | MiningParticipant (addr : SocketAddr) (status : MiningPipelineStatus)
  | CompleteParticipant
  | WinningPoW (addr : SocketAddr) (info : WinningPoWInfo)
  | CompleteMining
  | ResetPipeline.

(** ** Participants *)
Record Participants := mkParticipants { unsorted : list SocketAddr; lookup : gset SocketAddr }.
Definition Participants_default : Participants := mkParticipants [] ∅.
#[export] Instance eta_Participants : Eta Participants := λ r, mkParticipants (unsorted r) (lookup r).

Definition Participants_len (p : Participants) : Z := zlen (unsorted p).
Definition Participants_contains (p : Participants) (k : SocketAddr) : bool := bool_decide (k ∈ lookup p).
Definition Participants_push (p : Participants) (k : SocketAddr) : Participants * bool :=
  if bool_decide (k ∈ lookup p) then (p, false)
  else (p <| lookup ::= λ s, {[k]} ∪ s |> <| unsorted ::= λ l, l ++ [k] |>, true).

Record PipelineEventInfo := mkPipelineEventInfo {
  event_proposer_id : Z; sufficient_majority : Z; unanimous_majority : Z; partition_full_size : Z }.

Record UnicornFixedInfo := mkUnicornFixedInfo { fi_modulus : string; fi_iterations : Z; fi_security : Z }.

(** The field [empty_participants] keeps its default value and is
    [Participants_default] here. *)
Record MiningPipelineInfo := mkMiningPipelineInfo {
  participants_intake : gmap Z Participants;
  participants_mining : gmap Z Participants;
  last_winning_hashes : gset string;
  all_winning_pow : list (SocketAddr * WinningPoWInfo);
  unicorn_info : UnicornInfo;
  winning_pow : option (SocketAddr * WinningPoWInfo);
  mining_pipeline_status : MiningPipelineStatus;
  current_phase_timeout_peer_ids : gset Z;
  current_phase_reset_pipeline_peer_ids : gset Z;
  unicorn_fixed_param : UnicornFixedParam;
  current_block_num : option Z;
  current_block : option Block;
  current_block_tx : gmap string Transaction;
  current_reward : TokenAmount;
  proposed_keys : gset RaftContextKey;
}.
#[export] Instance eta_MiningPipelineInfo : Eta MiningPipelineInfo := λ r,
  mkMiningPipelineInfo (participants_intake r) (participants_mining r) (last_winning_hashes r)
    (all_winning_pow r) (unicorn_info r) (winning_pow r) (mining_pipeline_status r)
    (current_phase_timeout_peer_ids r) (current_phase_reset_pipeline_peer_ids r)
    (unicorn_fixed_param r) (current_block_num r) (current_block r) (current_block_tx r)
    (current_reward r) (proposed_keys r).
Definition MiningPipelineInfo_default : MiningPipelineInfo :=
  mkMiningPipelineInfo ∅ ∅ ∅ [] UnicornInfo_default None Halted ∅ ∅ UnicornFixedParam_default
    None None ∅ 0 ∅.

Record MiningPipelineInfoImport := mkMiningPipelineInfoImport {
  import_unicorn_fixed_param : UnicornFixedParam;
  import_current_block_num : option Z;
  import_current_block : option Block }.

Section pipeline.
Context `{KeccakPrime}.
Implicit Types s : MiningPipelineInfo.

Definition with_unicorn_fixed_param s (i : UnicornFixedInfo) : MiningPipelineInfo :=
  s <| unicorn_fixed_param := mkUnicornFixedParam (fi_modulus i) (fi_iterations i) (fi_security i) |>.

Definition set_committed_mining_block s (block : Block) (block_tx : gmap string Transaction) : MiningPipelineInfo :=
  s <| current_block := Some block |> <| current_block_tx := block_tx |>.

Definition take_mining_block s : option (Block * gmap string Transaction) * MiningPipelineInfo :=
  ((λ b, (b, current_block_tx s)) <$> current_block s,
   s <| current_block := None |> <| current_block_tx := ∅ |>).

Definition pipeline_apply_ready_block_stored_info s (block_num : Z) (reward : TokenAmount) : MiningPipelineInfo :=
  s <| current_block := None |> <| current_block_tx := ∅ |>
    <| current_block_num := Some block_num |> <| current_reward := reward |>.

(** *** Random numbers drawn from the unicorn *)
Definition u64_from_be_bytes (l : list Z) : Z := foldl (λ a b, a * 256 + b) 0 l.

Definition get_unicorn_prn s (usage_number : Z) : outcome Z :=
  let g := string_codes (g_value (unicorn_info s)) in
  if (length g <? 32)%nat then Panic
  else
    let! val := unwrap (fortuna (take 32 g) usage_number 8) in
    if (length val <? 8)%nat then Panic else Ret (u64_from_be_bytes (take 8 val)).

Definition get_unicorn_item {T : Type} s (usage_number : Z) (items : list T) : outcome (option T) :=
  match items with
  | [] => Ret None
  | _ =>
      let! prn := get_unicorn_prn s usage_number in
      let selection := prn mod zlen items in
      let! x := unwrap (items !! Z.to_nat selection) in
      Ret (Some x)
  end.

(** [slice::swap] panics out of bounds. *)
Definition swap {T : Type} (items : list T) (a b : nat) : outcome (list T) :=
  let! x := unwrap (items !! a) in
  let! y := unwrap (items !! b) in
  Ret (<[a := y]> (<[b := x]> items)).

Definition swap_with_unicorn {T : Type} s (usage_number : Z) (items : list T) : outcome (list T) :=
  ofold (λ items i,
    let! prn := get_unicorn_prn s usage_number in
    let selection := Z.of_nat i + prn mod (zlen items - Z.of_nat i) in
    swap items i (Z.to_nat selection)) items (seq 0 (length items)).

(** The body of the loop of [unicorn_select_participants_mining]. *)
Definition select_participants s (partition_full_size : Z) (ps : Participants) : outcome Participants :=
  if zlen (unsorted ps) <=? partition_full_size then Ret ps
  else
    let! u := swap_with_unicorn s MINER_PARTICIPATION_UN (unsorted ps) in
    let u := take (Z.to_nat partition_full_size) u in
    Ret (mkParticipants u (list_to_set u)).

Definition unicorn_select_participants_mining s (partition_full_size : Z) : outcome MiningPipelineInfo :=
  let participants := participants_intake s in
  let s := s <| participants_intake := ∅ |> in
  let! selected := ofold (λ m kv,
      let! ps := select_participants s partition_full_size kv.2 in
      Ret (<[kv.1 := ps]> m)) participants (bt_iter participants) in
  Ret (s <| participants_mining := selected |>).

Definition start_items_intake s (extra : PipelineEventInfo) : outcome MiningPipelineInfo :=
  let! s :=
    if decide (participants_intake s = ∅) then
      Ret (s <| mining_pipeline_status := ParticipantOnlyIntake |>)
    else
      let! s := unicorn_select_participants_mining s (partition_full_size extra) in
      Ret (s <| mining_pipeline_status := AllItemsIntake |>) in
  Ret (s <| last_winning_hashes := ∅ |> <| all_winning_pow := [] |> <| winning_pow := None |>
    <| current_phase_timeout_peer_ids := ∅ |> <| current_phase_reset_pipeline_peer_ids := ∅ |>).

Definition init_block_pipeline_status s (extra : PipelineEventInfo) : outcome MiningPipelineInfo :=
  match current_block s with Some _ => start_items_intake s extra | None => Ret s end.

(** *** Intake *)
Definition get_mining_participants s (proposer_id : Z) : Participants :=
  default Participants_default (participants_mining s !! proposer_id).

Definition add_to_participants s (proposer_id : Z) (participant : SocketAddr) : MiningPipelineInfo :=
  s <| participants_intake ::= λ m,
    <[proposer_id := (Participants_push (default Participants_default (m !! proposer_id)) participant).1]> m |>.

Definition add_to_winning_pow s (proposer_id : Z) (pow : SocketAddr * WinningPoWInfo) : MiningPipelineInfo :=
  if negb (Participants_contains (get_mining_participants s proposer_id) pow.1) then s
  else s <| all_winning_pow ::= λ l, l ++ [pow] |>.

Definition has_ready_select_participating_miners s (sufficient_majority : Z) : bool :=
  (sufficient_majority <=? zcard (current_phase_timeout_peer_ids s)) &&
  (sufficient_majority <=? zsize (participants_intake s)).

Definition has_ready_reset_pipeline s (unanimous_majority : Z) : bool :=
  unanimous_majority <=? zcard (current_phase_reset_pipeline_peer_ids s).

Definition has_ready_select_winning_miner s (sufficient_majority : Z) : bool :=
  if zcard (current_phase_timeout_peer_ids s) <? sufficient_majority then false
  else match all_winning_pow s with [] => false | _ => true end.

Definition start_winning_pow_halted s : outcome MiningPipelineInfo :=
  let all := all_winning_pow s in
  let s := s <| all_winning_pow := [] |> <| current_phase_timeout_peer_ids := ∅ |> in
  let! w := get_unicorn_item s WINNING_MINER_UN all in
  Ret (s <| winning_pow := w |>
    <| last_winning_hashes := list_to_set (map (λ p, (wp_mining_tx p.2).1) all) |>
    <| mining_pipeline_status := Halted |>).

Definition append_current_phase_timeout s (proposer_id : Z) : MiningPipelineInfo :=
  s <| current_phase_timeout_peer_ids ::= λ t, {[proposer_id]} ∪ t |>.
Definition append_reset_pipeline_timeout s (proposer_id : Z) : MiningPipelineInfo :=
  s <| current_phase_reset_pipeline_peer_ids ::= λ t, {[proposer_id]} ∪ t |>.

Definition handle_reset_pipeline s (extra : PipelineEventInfo) :
    outcome (option MiningPipelinePhaseChange * MiningPipelineInfo) :=
  let s := s <| current_phase_timeout_peer_ids := ∅ |> <| current_phase_reset_pipeline_peer_ids := ∅ |>
             <| participants_intake := ∅ |> <| participants_mining := ∅ |> in
  let! s := start_items_intake s extra in
  Ret (Some Reset, s).

(** The match on the item and the status. *)
Definition intake_item s (item : MiningPipelineItem) (proposer_id : Z) : MiningPipelineInfo :=
  match item, mining_pipeline_status s with
  | MiningParticipant addr ParticipantOnlyIntake, ParticipantOnlyIntake
  | MiningParticipant addr AllItemsIntake, AllItemsIntake => add_to_participants s proposer_id addr
  | CompleteParticipant, ParticipantOnlyIntake => append_current_phase_timeout s proposer_id
  | WinningPoW addr info, AllItemsIntake => add_to_winning_pow s proposer_id (addr, info)
  | CompleteMining, AllItemsIntake => append_current_phase_timeout s proposer_id
  | ResetPipeline, _ => append_reset_pipeline_timeout s proposer_id
  | _, _ => s
  end.

Definition handle_mining_pipeline_item s (item : MiningPipelineItem) (extra : PipelineEventInfo) :
    outcome (option MiningPipelinePhaseChange * MiningPipelineInfo) :=
  let pipeline_status := mining_pipeline_status s in
  let s := intake_item s item (event_proposer_id extra) in
  if has_ready_reset_pipeline s (unanimous_majority extra) then handle_reset_pipeline s extra
  else
    match pipeline_status with
    | Halted => Ret (None, s)
    | ParticipantOnlyIntake =>
        if has_ready_select_participating_miners s (sufficient_majority extra) then
          let! s := start_items_intake s extra in Ret (Some StartPhasePowIntake, s)
        else Ret (None, s)
    | AllItemsIntake =>
        if has_ready_select_winning_miner s (sufficient_majority extra) then
          let! s := start_winning_pow_halted s in Ret (Some StartPhaseHalted, s)
        else Ret (None, s)
    end.

Definition mining_event_at_timeout s : option MiningPipelineItem :=
  match mining_pipeline_status s with
  | ParticipantOnlyIntake => Some CompleteParticipant
  | AllItemsIntake => Some CompleteMining
  | Halted => None
  end.

Definition clear_proposed_keys s : MiningPipelineInfo := s <| proposed_keys := ∅ |>.
Definition add_proposed_key s (key : RaftContextKey) : MiningPipelineInfo :=
  s <| proposed_keys ::= λ k, {[key]} ∪ k |>.

Definition retain_active (inactive_miners : list SocketAddr) (p : Participants) : Participants :=
  mkParticipants (filter (λ a, a ∉ inactive_miners) (unsorted p)) (filter (λ a, a ∉ inactive_miners) (lookup p)).
Definition cleanup_participant_intake s (inactive_miners : list SocketAddr) : MiningPipelineInfo :=
  s <| participants_intake ::= fmap (retain_active inactive_miners) |>.
Definition cleanup_participants_mining s (inactive_miners : list SocketAddr) : MiningPipelineInfo :=
  s <| participants_mining ::= fmap (retain_active inactive_miners) |>.


Definition test_skip_mining s (pow : SocketAddr * WinningPoWInfo) (seed : list Z) : outcome MiningPipelineInfo :=
  let! block := unwrap (current_block s) in
  let s := s <| current_block := Some (block <| header ::= λ h, h <| seed_value := seed |> |>) |> in
  let! s := unicorn_select_participants_mining s USIZE_MAX in
  start_winning_pow_halted (s <| all_winning_pow ::= λ l, l ++ [pow] |>).

Definition from_import (value : MiningPipelineInfoImport) : MiningPipelineInfo :=
  MiningPipelineInfo_default <| unicorn_fixed_param := import_unicorn_fixed_param value |>
    <| current_block_num := import_current_block_num value |>
    <| current_block := import_current_block value |>.
Definition into_import s : MiningPipelineInfoImport :=
  mkMiningPipelineInfoImport (unicorn_fixed_param s) (current_block_num s) (current_block s).
End pipeline.

Section pipeline_unicorn.
Context `{Naom, Rug, Hex, KeccakPrime}.
Context `{Bincode (list string), Bincode (list SocketAddr), Bincode (gset string), Bincode (option Z)}.

Definition get_unicorn_seed_value (u : UnicornInfo) : list Z :=
  string_codes (integer_to_string (seed (unicorn u)) +:+ "-" +:+ integer_to_string (witness u)).

Definition pipeline_construct_unicorn (s : MiningPipelineInfo) : outcome MiningPipelineInfo :=
  let! block := unwrap (current_block s) in
  let all_participants := bt_values (participants_mining s) ≫= unsorted in
  let! sd := construct_seed (transactions block) all_participants (last_winning_hashes s) in
  let! u := construct_unicorn sd (unicorn_fixed_param s) in
  Ret (s <| unicorn_info := u |>
         <| current_block := Some (block <| header ::= λ h, h <| seed_value := get_unicorn_seed_value u |> |>) |>).
End pipeline_unicorn.

(** ** The unicorn's permutation and selection *)

Lemma swap_perm {T : Type} (l l' : list T) a b : swap l a b = Ret l' → l' ≡ₚ l.
Proof.
  unfold swap. intros (x & Hx%unwrap_ret & (y & Hy%unwrap_ret & [= <-])%obind_ret)%obind_ret.
  pose proof (lookup_lt_Some _ _ _ Hx). pose proof (lookup_lt_Some _ _ _ Hy).
  apply Permutation_inj. split; [by rewrite !length_insert|].
  exists (λ i, if decide (i = a) then b else if decide (i = b) then a else i). split.
  - intros i j. repeat case_decide; naive_solver.
  - intros i. repeat case_decide; subst.
    + by rewrite list_lookup_insert_eq by (by rewrite length_insert).
    + by rewrite list_lookup_insert_ne, list_lookup_insert_eq.
    + by rewrite !list_lookup_insert_ne.
Qed.

Lemma swap_ret {T : Type} (l : list T) a b : (a < length l)%nat → (b < length l)%nat →
  ∃ l', swap l a b = Ret l'.
Proof.
  intros Ha Hb. unfold swap.
  destruct (lookup_lt_is_Some_2 _ _ Ha) as [x ->], (lookup_lt_is_Some_2 _ _ Hb) as [y ->]. cbn. eauto.
Qed.

Lemma swap_with_unicorn_perm `{KeccakPrime} {T : Type} s usage (l l' : list T) :
  swap_with_unicorn s usage l = Ret l' → l' ≡ₚ l.
Proof.
  apply (ofold_inv _ (λ l', l' ≡ₚ l)); [|done].
  intros i a a' _ Ha (prn & _ & Hs%swap_perm)%obind_ret. by rewrite Hs.
Qed.

(** The unicorn has been drawn: its hash is long enough to seed the generator. *)
Definition unicorn_drawn (s : MiningPipelineInfo) : Prop :=
  (32 ≤ length (string_codes (g_value (unicorn_info s))))%nat.

Section selection.
Context `{KeccakPrime, !KeccakPrimeLaws}.
Implicit Types s : MiningPipelineInfo.

Lemma get_unicorn_prn_ret s usage : unicorn_drawn s → ∃ prn, get_unicorn_prn s usage = Ret prn.
Proof.
  intros Hu. unfold get_unicorn_prn. unfold unicorn_drawn in Hu.
  destruct (Nat.ltb_spec (length (string_codes (g_value (unicorn_info s)))) 32); [lia|].
  destruct (fortuna_bytes (take 32 (string_codes (g_value (unicorn_info s)))) usage 8)
    as (l & -> & Hl & _); [rewrite length_take; lia|].
  cbn. rewrite Hl. cbn. eauto.
Qed.

Lemma get_unicorn_item_ret {T : Type} s usage (l : list T) : unicorn_drawn s → l ≠ [] →
  ∃ x, get_unicorn_item s usage l = Ret (Some x) ∧ x ∈ l.
Proof.
  intros Hu Hl. unfold get_unicorn_item. destruct l as [|a l]; [done|].
  destruct (get_unicorn_prn_ret s usage Hu) as [prn ->]. cbn [obind].
  assert (0 ≤ prn mod zlen (a :: l) < zlen (a :: l)) by (apply Z.mod_pos_bound; unfold zlen; cbn [length]; lia).
  destruct (lookup_lt_is_Some_2 (a :: l) (Z.to_nat (prn mod zlen (a :: l)))) as [x Hx].
  { unfold zlen in *. lia. }
  rewrite Hx. cbn [unwrap obind]. exists x. split; [done|]. by eapply list_elem_of_lookup_2.
Qed.

Lemma swap_with_unicorn_ret {T : Type} s usage (l : list T) : unicorn_drawn s →
  ∃ l', swap_with_unicorn s usage l = Ret l' ∧ l' ≡ₚ l.
Proof.
  intros Hu. unfold swap_with_unicorn.
  destruct (get_unicorn_prn_ret s usage Hu) as [prn Hprn]. rewrite Hprn.
  apply (ofold_ind _ (λ _ l', l' ≡ₚ l)); [done|].
  intros _ i l' Hi Hl'. cbn [obind]. apply elem_of_seq in Hi.
  pose proof (Permutation_length Hl') as Hlen.
  assert (0 ≤ prn mod (zlen l' - Z.of_nat i) < zlen l' - Z.of_nat i)
    by (apply Z.mod_pos_bound; unfold zlen; lia).
  destruct (swap_ret l' i (Z.to_nat (Z.of_nat i + prn mod (zlen l' - Z.of_nat i)))) as (l2 & Hl2);
    [lia|unfold zlen in *; lia|].
  exists l2. split; [done|]. by rewrite (swap_perm _ _ _ _ Hl2).
Qed.
End selection.

(** ** Well-formed participants *)
Definition Participants_wf (p : Participants) : Prop :=
  NoDup (unsorted p) ∧ lookup p = list_to_set (unsorted p).

Lemma Participants_wf_default : Participants_wf Participants_default.
Proof. split; [constructor|done]. Qed.

Lemma Participants_push_wf p k : Participants_wf p → Participants_wf (Participants_push p k).1.
Proof.
  intros [Hnd Hl]. unfold Participants_push. destruct (bool_decide _) eqn:E; [done|].
  apply bool_decide_eq_false in E. rewrite Hl, elem_of_list_to_set in E. split; cbn.
  - apply NoDup_app. split_and!; [done| |apply NoDup_singleton].
    intros x Hx ->%list_elem_of_singleton. done.
  - rewrite Hl, list_to_set_app_L. set_solver.
Qed.

Lemma retain_active_wf inactive p : Participants_wf p → Participants_wf (retain_active inactive p).
Proof.
  intros [Hnd Hl]. split; cbn; [by apply NoDup_filter|]. rewrite Hl.
  apply set_eq. intros x. rewrite elem_of_filter, !elem_of_list_to_set, list_elem_of_filter. done.
Qed.

(** What the selection makes of one peer's participants. *)
Definition selected_from (full : Z) (ps ps' : Participants) : Prop :=
  Participants_wf ps' ∧ unsorted ps' ⊆ unsorted ps ∧
  zlen (unsorted ps') = Z.min (zlen (unsorted ps)) full ∧
  (zlen (unsorted ps) ≤ full → ps' = ps).

Definition pipeline_wf (s : MiningPipelineInfo) : Prop :=
  (∀ k p, participants_intake s !! k = Some p → Participants_wf p) ∧
  (∀ k p, participants_mining s !! k = Some p → Participants_wf p).

Section select.
Context `{KeccakPrime, !KeccakPrimeLaws}.

Lemma select_participants_ret s full ps : unicorn_drawn s → 0 ≤ full → Participants_wf ps →
  ∃ ps', select_participants s full ps = Ret ps' ∧ selected_from full ps ps'.
Proof.
  intros Hu Hf Hps. unfold select_participants.
  destruct (Z.leb_spec (zlen (unsorted ps)) full).
  { exists ps. split; [done|]. split_and!; [done..|lia|done]. }
  destruct (swap_with_unicorn_ret s MINER_PARTICIPATION_UN (unsorted ps) Hu) as (l & -> & Hp).
  cbn [obind]. eexists. split; [done|]. split_and!; cbn.
  - split; cbn; [|done]. apply (sublist_NoDup _ l); [|apply sublist_take]. rewrite Hp. apply Hps.
  - intros x Hx. rewrite <-Hp. eapply elem_of_subseteq, Hx. apply subseteq_take.
  - unfold zlen in *. rewrite length_take, Hp. lia.
  - lia.
Qed.

(** The selection of the mining participants, once the unicorn is drawn,
    returns: each peer keeps its own list, cut down to the partition size when
    it is longer, with distinct members of it (and untouched when it is not),
    and the intake is emptied. *)
Theorem unicorn_select_spec (s : MiningPipelineInfo) (full : Z) :
  unicorn_drawn s → 0 ≤ full → pipeline_wf s →
  ∃ m, unicorn_select_participants_mining s full =
      Ret (s <| participants_intake := ∅ |> <| participants_mining := m |>) ∧
    ∀ k, match participants_intake s !! k, m !! k with
         | Some ps, Some ps' => selected_from full ps ps'
         | None, None => True
         | _, _ => False
         end.
Proof.
  intros Hu Hf [Hi _].
  destruct (ofold_bt_iter (select_participants s full) (selected_from full) (participants_intake s))
    as (m & Hm & HR).
  { intros k v Hk. apply select_participants_ret; eauto. }
  exists m. split; [|done]. unfold unicorn_select_participants_mining.
  change (select_participants (s <| participants_intake := ∅ |>) full) with (select_participants s full).
  by rewrite Hm.
Qed.

Lemma select_participants_wf s full ps ps' : Participants_wf ps →
  select_participants s full ps = Ret ps' → Participants_wf ps'.
Proof.
  intros Hps. unfold select_participants. destruct (_ <=? _); [by intros [= <-]|].
  intros (u & Hu%swap_with_unicorn_perm & [= <-])%obind_ret. split; cbn; [|done].
  apply (sublist_NoDup _ u); [|apply sublist_take]. rewrite Hu. apply Hps.
Qed.

Lemma select_inv s full s' : pipeline_wf s → unicorn_select_participants_mining s full = Ret s' →
  ∃ m, s' = s <| participants_intake := ∅ |> <| participants_mining := m |> ∧
    ∀ k p, m !! k = Some p → Participants_wf p.
Proof.
  intros [Hi _] (m & Hm & [= <-])%obind_ret. exists m. split; [done|].
  eapply (ofold_inv _ (λ m, ∀ k p, m !! k = Some p → Participants_wf p)), Hm; [|exact Hi].
  intros [k ps] a a' Hk%elem_of_bt_iter Ha (ps' & Hps & [= <-])%obind_ret k' p. cbn in *.
  rewrite lookup_insert. case_decide; [|by apply Ha]. intros [= <-].
  eapply select_participants_wf, Hps. by eapply Hi.
Qed.
End select.

(** ** Phase changes *)
Section phases.
Context `{KeccakPrime}.
Implicit Types s : MiningPipelineInfo.

(** What an item changes before the votes are counted. *)
Lemma intake_item_fields s item pid :
  let s1 := intake_item s item pid in
  mining_pipeline_status s1 = mining_pipeline_status s ∧
  unicorn_info s1 = unicorn_info s ∧ participants_mining s1 = participants_mining s ∧
  winning_pow s1 = winning_pow s ∧ last_winning_hashes s1 = last_winning_hashes s ∧
  current_phase_timeout_peer_ids s1 ⊆ {[pid]} ∪ current_phase_timeout_peer_ids s ∧
  current_phase_reset_pipeline_peer_ids s1 ⊆ {[pid]} ∪ current_phase_reset_pipeline_peer_ids s.
Proof.
  unfold intake_item, add_to_participants, add_to_winning_pow, append_current_phase_timeout,
    append_reset_pipeline_timeout.
  destruct item as [a []| | | |], (mining_pipeline_status s) eqn:E;
    try destruct (Participants_contains _ _); cbn; rewrite ?E; split_and!; try done; set_solver.
Qed.

Lemma intake_item_pow s item pid w :
  w ∈ all_winning_pow (intake_item s item pid) →
  w ∈ all_winning_pow s ∨
  w.1 ∈ lookup (get_mining_participants s pid) ∧ mining_pipeline_status s = AllItemsIntake ∧
    item = WinningPoW w.1 w.2.
Proof.
  unfold intake_item, add_to_winning_pow.
  destruct item as [a []| |a i| |], (mining_pipeline_status s) eqn:E; cbn; try by left.
  destruct (Participants_contains _ _) eqn:Ec; cbn; [|by left].
  rewrite elem_of_app, list_elem_of_singleton. intros [?| ->]; [by left|right].
  apply bool_decide_eq_true in Ec. done.
Qed.

Lemma intake_item_wf s item pid : pipeline_wf s → pipeline_wf (intake_item s item pid).
Proof.
  intros [Hi Hm].
  assert (Hadd : ∀ a, pipeline_wf (add_to_participants s pid a)).
  { intros a. split; [|done]. intros k p. cbn. rewrite lookup_insert. case_decide; [|by apply Hi].
    intros [= <-]. apply Participants_push_wf.
    destruct (participants_intake s !! pid) eqn:E; [by eapply Hi|apply Participants_wf_default]. }
  unfold intake_item, add_to_winning_pow.
  destruct item as [a []| | | |], (mining_pipeline_status s); try apply Hadd; try done.
  destruct (Participants_contains _ _); done.
Qed.

Lemma start_items_intake_spec s extra s' : start_items_intake s extra = Ret s' →
  last_winning_hashes s' = ∅ ∧ all_winning_pow s' = [] ∧ winning_pow s' = None ∧
  current_phase_timeout_peer_ids s' = ∅ ∧ current_phase_reset_pipeline_peer_ids s' = ∅ ∧
  unicorn_info s' = unicorn_info s ∧ current_block s' = current_block s ∧
  participants_intake s' = ∅ ∧
  mining_pipeline_status s' =
    (if decide (participants_intake s = ∅) then ParticipantOnlyIntake else AllItemsIntake) ∧
  (participants_intake s = ∅ → participants_mining s' = participants_mining s) ∧
  (pipeline_wf s → pipeline_wf s').
Proof.
  unfold start_items_intake. case_decide as E.
  - intros [= <-]. cbn. by rewrite E.
  - intros (s1 & (s2 & Hs & [= <-])%obind_ret & [= <-])%obind_ret. cbn.
    pose proof Hs as (m & _ & [= <-])%obind_ret. cbn. split_and!; try done.
    intros Hwf. apply select_inv in Hs as (m' & Em & Hm); [|done].
    split; cbn; [by intros k p ?%lookup_empty_Some|].
    apply (f_equal participants_mining) in Em. cbn in Em. by subst m'.
Qed.

Lemma get_unicorn_item_inv {T : Type} s usage (l : list T) x :
  get_unicorn_item s usage l = Ret (Some x) → x ∈ l.
Proof.
  unfold get_unicorn_item. destruct l as [|a l]; [done|].
  intros (prn & _ & (y & Hy%unwrap_ret & [= <-])%obind_ret)%obind_ret. by eapply list_elem_of_lookup_2.
Qed.

Lemma start_winning_pow_halted_spec s s' : all_winning_pow s ≠ [] → start_winning_pow_halted s = Ret s' →
  mining_pipeline_status s' = Halted ∧ all_winning_pow s' = [] ∧ current_phase_timeout_peer_ids s' = ∅ ∧
  participants_mining s' = participants_mining s ∧ participants_intake s' = participants_intake s ∧
  current_phase_reset_pipeline_peer_ids s' = current_phase_reset_pipeline_peer_ids s ∧
  last_winning_hashes s' = list_to_set (map (λ p, (wp_mining_tx p.2).1) (all_winning_pow s)) ∧
  ∃ w, winning_pow s' = Some w ∧ w ∈ all_winning_pow s.
Proof.
  intros Hne (w & Hw & [= <-])%obind_ret. cbn. split_and!; [done..|].
  change (get_unicorn_item s WINNING_MINER_UN (all_winning_pow s) = Ret w) in Hw.
  destruct w as [w|]; [eauto using get_unicorn_item_inv|].
  unfold get_unicorn_item in Hw. destruct (all_winning_pow s); [done|].
  apply obind_ret in Hw as (? & _ & Hw). by apply obind_ret in Hw as (? & _ & ?).
Qed.

(** Every phase change of the mining pipeline has the votes it needs, and
    ends in the phase it announces.  A forced reset has the votes of all
    peers and clears both participant sets; mining starts from the intake of
    participants with enough votes and enough peers; the winner is chosen with
    enough votes, from the proofs of work taken in, whose transactions are
    recorded; otherwise only the item was taken in. *)
Theorem handle_phase_change (s s' : MiningPipelineInfo) (item : MiningPipelineItem) (extra : PipelineEventInfo) c :
  handle_mining_pipeline_item s item extra = Ret (c, s') → 1 ≤ sufficient_majority extra →
  let s1 := intake_item s item (event_proposer_id extra) in
  match c with
  | Some Reset =>
      unanimous_majority extra ≤ zcard (current_phase_reset_pipeline_peer_ids s1) ∧
      mining_pipeline_status s' = ParticipantOnlyIntake ∧
      participants_intake s' = ∅ ∧ participants_mining s' = ∅ ∧ all_winning_pow s' = [] ∧
      current_phase_timeout_peer_ids s' = ∅ ∧ current_phase_reset_pipeline_peer_ids s' = ∅
  | Some StartPhasePowIntake =>
      mining_pipeline_status s = ParticipantOnlyIntake ∧
      sufficient_majority extra ≤ zcard (current_phase_timeout_peer_ids s1) ∧
      sufficient_majority extra ≤ zsize (participants_intake s1) ∧
      mining_pipeline_status s' = AllItemsIntake ∧ all_winning_pow s' = [] ∧
      participants_intake s' = ∅ ∧ current_phase_timeout_peer_ids s' = ∅
  | Some StartPhaseHalted =>
      mining_pipeline_status s = AllItemsIntake ∧
      sufficient_majority extra ≤ zcard (current_phase_timeout_peer_ids s1) ∧
      mining_pipeline_status s' = Halted ∧ all_winning_pow s' = [] ∧
      last_winning_hashes s' = list_to_set (map (λ p, (wp_mining_tx p.2).1) (all_winning_pow s1)) ∧
      ∃ w, winning_pow s' = Some w ∧ w ∈ all_winning_pow s1
  | None => s' = s1 ∧
      zcard (current_phase_reset_pipeline_peer_ids s1) < unanimous_majority extra
  end.
Proof.
  intros Hh Hsuf. cbv zeta. unfold handle_mining_pipeline_item in Hh.
  set (s1 := intake_item s item _) in *. unfold has_ready_reset_pipeline in Hh.
  destruct (Z.leb_spec (unanimous_majority extra) (zcard (current_phase_reset_pipeline_peer_ids s1))).
  { apply obind_ret in Hh as (s2 & Hs%start_items_intake_spec & [= <- <-]).
    destruct Hs as (_ & ? & _ & ? & ? & _ & _ & ? & Hst & Hm & _). cbn in Hst, Hm.
    split_and!; try done. by apply Hm. }
  destruct (mining_pipeline_status s) eqn:Est.
  - by simplify_eq.
  - destruct (has_ready_select_participating_miners _ _) eqn:Er; [|by simplify_eq].
    apply andb_true_iff in Er as [E1%Z.leb_le E2%Z.leb_le].
    apply obind_ret in Hh as (s2 & Hs%start_items_intake_spec & [= <- <-]).
    destruct Hs as (_ & ? & _ & ? & ? & _ & _ & ? & Hst & _ & _). split_and!; try done.
    rewrite Hst. apply decide_False. intros E. rewrite E in E2. unfold zsize in E2.
    rewrite map_size_empty in E2. lia.
  - destruct (has_ready_select_winning_miner _ _) eqn:Er; [|by simplify_eq].
    unfold has_ready_select_winning_miner in Er.
    destruct (Z.ltb_spec (zcard (current_phase_timeout_peer_ids s1)) (sufficient_majority extra)); [done|].
    assert (Hne : all_winning_pow s1 ≠ []) by (by destruct (all_winning_pow s1)).
    apply obind_ret in Hh as (s2 & Hs%start_winning_pow_halted_spec & [= <- <-]); [|done].
    destruct Hs as (? & ? & ? & _ & _ & _ & ? & ?). done.
Qed.
End phases.

(** ** Votes over a phase *)
Section quorum.
Context `{KeccakPrime}.

(** Items handled one after the other. *)
Fixpoint handle_all (s : MiningPipelineInfo) (l : list (MiningPipelineItem * PipelineEventInfo)) :
    outcome (list (option MiningPipelinePhaseChange) * MiningPipelineInfo) :=
  match l with
  | [] => Ret ([], s)
  | (item, extra) :: l =>
      let! x := handle_mining_pipeline_item s item extra in
      let! y := handle_all x.2 l in
      Ret (x.1 :: y.1, y.2)
  end.

(** The peers that voted to complete the phase of status [st]. *)
Definition completes (st : MiningPipelineStatus) (item : MiningPipelineItem) : bool :=
  match item, st with
  | CompleteParticipant, ParticipantOnlyIntake | CompleteMining, AllItemsIntake => true
  | _, _ => false
  end.
Definition voters (st : MiningPipelineStatus) (l : list (MiningPipelineItem * PipelineEventInfo)) : gset Z :=
  list_to_set (omap (λ ie, if completes st ie.1 then Some (event_proposer_id ie.2) else None) l).

Lemma voters_cons st ie l :
  voters st (ie :: l) = (if completes st ie.1 then {[event_proposer_id ie.2]} else ∅) ∪ voters st l.
Proof. unfold voters. cbn. destruct (completes st ie.1); cbn; set_solver. Qed.

Lemma intake_item_votes s item pid :
  current_phase_timeout_peer_ids (intake_item s item pid) =
    (if completes (mining_pipeline_status s) item then {[pid]} else ∅) ∪ current_phase_timeout_peer_ids s.
Proof.
  unfold intake_item, add_to_winning_pow.
  destruct item as [a []| | | |], (mining_pipeline_status s); cbn;
    try destruct (Participants_contains _ _); cbn; set_solver.
Qed.

Lemma handle_all_votes s l cs s' : handle_all s l = Ret (cs, s') → Forall (λ c, c = None) cs →
  mining_pipeline_status s' = mining_pipeline_status s ∧
  current_phase_timeout_peer_ids s' =
    voters (mining_pipeline_status s) l ∪ current_phase_timeout_peer_ids s.
Proof.
  revert s cs; induction l as [|[item extra] l IH]; intros s cs; cbn [handle_all].
  { intros [= <- <-] _. split; [done|]. unfold voters. cbn. set_solver. }
  intros ([c s1] & Hc & ([cs1 s2] & Hl & [= <- <-])%obind_ret)%obind_ret.
  rewrite Forall_cons. cbn [fst snd] in *. intros [-> Hcs].
  assert (Hs1 : s1 = intake_item s item (event_proposer_id extra)).
  { revert Hc. unfold handle_mining_pipeline_item. destruct (has_ready_reset_pipeline _ _).
    - by intros (? & _ & ?)%obind_ret.
    - destruct (mining_pipeline_status s); [by intros [= <-]|..];
        (destruct (_ : bool); [by intros (? & _ & ?)%obind_ret|by intros [= <-]]). }
  destruct (IH s1 cs1 Hl Hcs) as [Est Ev].
  destruct (intake_item_fields s item (event_proposer_id extra)) as [Hst _].
  rewrite Hs1 in Est, Ev. rewrite Hst in *. split; [done|].
  rewrite Ev, intake_item_votes, voters_cons. cbn. set_solver.
Qed.

(** A phase ends by votes only: from the start of a phase, if a sequence of
    items ends in a change to the next phase, at least a sufficient majority
    of distinct peers have, within the sequence, asked to complete this phase;
    a peer's repeated items count once. *)
Theorem phase_change_quorum s l cs s1 item extra c s' :
  current_phase_timeout_peer_ids s = ∅ → 1 ≤ sufficient_majority extra →
  handle_all s l = Ret (cs, s1) → Forall (λ c, c = None) cs →
  handle_mining_pipeline_item s1 item extra = Ret (Some c, s') → c ≠ Reset →
  sufficient_majority extra ≤ zcard (voters (mining_pipeline_status s) (l ++ [(item, extra)])).
Proof.
  intros H0 Hsuf Hl Hcs Hh Hc.
  destruct (handle_all_votes s l cs s1 Hl Hcs) as [Est Ev].
  assert (Hvote : sufficient_majority extra ≤
    zcard (current_phase_timeout_peer_ids (intake_item s1 item (event_proposer_id extra)))).
  { revert Hh. unfold handle_mining_pipeline_item. destruct (has_ready_reset_pipeline _ _).
    { by intros (? & _ & [= <- _])%obind_ret. }
    destruct (mining_pipeline_status s1); [done| |].
    - destruct (has_ready_select_participating_miners _ _) eqn:E; [|done].
      intros _. apply andb_true_iff in E as [E _]. lia.
    - destruct (has_ready_select_winning_miner _ _) eqn:E; [|done]. intros _.
      unfold has_ready_select_winning_miner in E.
      destruct (Z.ltb_spec (zcard (current_phase_timeout_peer_ids
        (intake_item s1 item (event_proposer_id extra)))) (sufficient_majority extra)); done. }
  rewrite intake_item_votes, Est, Ev, H0 in Hvote.
  replace (voters _ (l ++ [(item, extra)])) with
    ((if completes (mining_pipeline_status s) item then {[event_proposer_id extra]} else ∅) ∪
       (voters (mining_pipeline_status s) l ∪ ∅)); [done|].
  unfold voters. rewrite omap_app, list_to_set_app_L. cbn.
  destruct (completes _ item); cbn; set_solver.
Qed.
End quorum.

(** ** Only selected miners win *)
Section reach.
Context `{Naom, Rug, Hex, KeccakPrime}.
Context `{Bincode (list string), Bincode (list SocketAddr), Bincode (gset string), Bincode (option Z)}.

(** The calls the consensus makes on the pipeline, in any order. *)
Inductive pipeline_step (s : MiningPipelineInfo) : MiningPipelineInfo → Prop :=
  | step_handle item extra c s' :
      handle_mining_pipeline_item s item extra = Ret (c, s') → pipeline_step s s'
  | step_start extra s' : start_items_intake s extra = Ret s' → pipeline_step s s'
  | step_init extra s' : init_block_pipeline_status s extra = Ret s' → pipeline_step s s'
  | step_unicorn s' : pipeline_construct_unicorn s = Ret s' → pipeline_step s s'
  | step_set_block b txs : pipeline_step s (set_committed_mining_block s b txs)
  | step_take_block : pipeline_step s (take_mining_block s).2
  | step_stored b r : pipeline_step s (pipeline_apply_ready_block_stored_info s b r)
  | step_clean_intake l : pipeline_step s (cleanup_participant_intake s l)
  | step_clean_mining l : pipeline_step s (cleanup_participants_mining s l)
  | step_clear_keys : pipeline_step s (clear_proposed_keys s)
  | step_add_key k : pipeline_step s (add_proposed_key s k).

Definition is_mining (s : MiningPipelineInfo) (a : SocketAddr) : Prop :=
  ∃ pid p, participants_mining s !! pid = Some p ∧ a ∈ lookup p.

(** Reachable states, with the addresses that were mining at some point. *)
Inductive reach : MiningPipelineInfo → (SocketAddr → Prop) → Prop :=
  | reach_init v : reach (from_import v) (λ _, False)
  | reach_step s h s' : reach s h → pipeline_step s s' → reach s' (λ a, h a ∨ is_mining s' a).

(** The invariant of the pipeline. *)
Definition pipeline_inv (s : MiningPipelineInfo) (h : SocketAddr → Prop) : Prop :=
  pipeline_wf s ∧
  (∀ a, is_mining s a → h a) ∧
  (∀ w, w ∈ all_winning_pow s → h w.1) ∧
  (∀ w, winning_pow s = Some w → h w.1 ∧ (wp_mining_tx w.2).1 ∈ last_winning_hashes s) ∧
  (mining_pipeline_status s ≠ AllItemsIntake → all_winning_pow s = []).

Lemma intake_item_inv s h item pid : pipeline_inv s h → pipeline_inv (intake_item s item pid) h.
Proof.
  intros (Hwf & Hm & Hp & Hw & Hst).
  destruct (intake_item_fields s item pid) as (Est & _ & Em & Ew & El & _).
  split_and!.
  - by apply intake_item_wf.
  - intros a. unfold is_mining. rewrite Em. apply Hm.
  - intros w [Hin|(Hin & _ & _)]%intake_item_pow; [by apply Hp|]. apply Hm. unfold get_mining_participants in Hin.
    destruct (participants_mining s !! pid) as [p|] eqn:E; cbn in Hin; [by exists pid, p|set_solver].
  - rewrite Ew, El. apply Hw.
  - rewrite Est. intros Hne.
    destruct (all_winning_pow (intake_item s item pid)) as [|w l] eqn:E; [done|].
    assert (Hin : w ∈ all_winning_pow (intake_item s item pid)) by (rewrite E; apply list_elem_of_here).
    apply intake_item_pow in Hin as [Hin|(_ & ? & _)]; [|done]. rewrite Hst in Hin by done.
    by apply not_elem_of_nil in Hin.
Qed.

(** Growing the history keeps the invariant. *)
Lemma pipeline_inv_mono s (h h' : SocketAddr → Prop) : (∀ a, h a → h' a) →
  pipeline_inv s h → pipeline_inv s h'.
Proof. intros Hh (? & ? & ? & ? & ?). split_and!; naive_solver. Qed.

(** An operation that leaves the mining data alone. *)
Lemma pipeline_inv_same s s' h : pipeline_inv s h →
  participants_mining s' = participants_mining s → all_winning_pow s' = all_winning_pow s →
  winning_pow s' = winning_pow s → last_winning_hashes s' = last_winning_hashes s →
  mining_pipeline_status s' = mining_pipeline_status s → participants_intake s' = participants_intake s →
  pipeline_inv s' h.
Proof.
  intros (Hwf & Hm & Hp & Hw & Hst) E1 E2 E3 E4 E5 E6. unfold pipeline_inv, pipeline_wf, is_mining.
  rewrite E1, E2, E3, E4, E5, E6. done.
Qed.

Lemma start_items_intake_inv s h extra s' : pipeline_inv s h → start_items_intake s extra = Ret s' →
  pipeline_inv s' (λ a, h a ∨ is_mining s' a).
Proof.
  intros (Hwf & Hm & Hp & Hw & Hst) Hs%start_items_intake_spec.
  destruct Hs as (_ & Hpow & Hwin & _ & _ & _ & _ & _ & _ & _ & Hwf').
  split_and!; rewrite ?Hpow, ?Hwin; [by apply Hwf'|by right|by intros w ?%not_elem_of_nil|done..].
Qed.

Lemma handle_inv s h item extra c s' : pipeline_inv s h →
  handle_mining_pipeline_item s item extra = Ret (c, s') → pipeline_inv s' (λ a, h a ∨ is_mining s' a).
Proof.
  intros Hi Hh. unfold handle_mining_pipeline_item in Hh.
  pose proof (intake_item_inv s h item (event_proposer_id extra) Hi) as Hi1.
  set (s1 := intake_item s item _) in *.
  assert (Hsame : ∀ s2, s2 = s1 → pipeline_inv s2 (λ a, h a ∨ is_mining s2 a)).
  { intros s2 ->. eapply pipeline_inv_mono, Hi1. by left. }
  destruct (has_ready_reset_pipeline _ _).
  { apply obind_ret in Hh as (s2 & Hs & [= <- <-]).
    eapply start_items_intake_inv, Hs. destruct Hi1 as (Hwf & Hm & Hp & Hw & Hst).
    split_and!; try done; try (split; by intros k p ?%lookup_empty_Some).
    intros a (pid & p & Hl & _). cbn in Hl. by apply lookup_empty_Some in Hl. }
  destruct (mining_pipeline_status s); [simplify_eq; by apply Hsame|..].
  - destruct (has_ready_select_participating_miners _ _); [|simplify_eq; by apply Hsame].
    apply obind_ret in Hh as (s2 & Hs & [= <- <-]). by eapply start_items_intake_inv, Hs.
  - destruct (has_ready_select_winning_miner _ _) eqn:Er; [|simplify_eq; by apply Hsame].
    assert (Hne : all_winning_pow s1 ≠ []).
    { unfold has_ready_select_winning_miner in Er. destruct (_ <? _); [done|]. by destruct (all_winning_pow s1). }
    apply obind_ret in Hh as (s2 & Hs%start_winning_pow_halted_spec & [= <- <-]); [|done].
    destruct Hs as (_ & Hpow & _ & Em & Ein & _ & El & w & Ew & Hw).
    destruct Hi1 as (Hwf & Hm & Hp & _ & _). split_and!.
    + unfold pipeline_wf. by rewrite Em, Ein.
    + by right.
    + rewrite Hpow. by intros ? ?%not_elem_of_nil.
    + rewrite Ew. intros w' [= <-]. split; [left; by apply Hp|].
      rewrite El, elem_of_list_to_set. apply list_elem_of_fmap. by exists w.
    + done.
Qed.

Lemma cleanup_mining_inv s h l : pipeline_inv s h → pipeline_inv (cleanup_participants_mining s l) h.
Proof.
  intros ((Hi & Hm') & Hm & Hp & Hw & Hst). split_and!; [split; [done|]|..|done|done|done]; cbn.
  - intros k p. rewrite lookup_fmap. intros (q & Hq & ->)%fmap_Some. apply retain_active_wf. by eapply Hm'.
  - intros a (pid & p & Hl & Ha). cbn in Hl. rewrite lookup_fmap in Hl.
    apply fmap_Some in Hl as (q & Hq & ->). apply Hm. exists pid, q. split; [done|].
    cbn in Ha. by apply elem_of_filter in Ha as [_ ?].
Qed.

Lemma cleanup_intake_inv s h l : pipeline_inv s h → pipeline_inv (cleanup_participant_intake s l) h.
Proof.
  intros ((Hi & Hm') & Hm & Hp & Hw & Hst). split_and!; [split; [|done]|done..]; cbn.
  intros k p. rewrite lookup_fmap. intros (q & Hq & ->)%fmap_Some. apply retain_active_wf. by eapply Hi.
Qed.

Lemma pipeline_step_inv s h s' : pipeline_inv s h → pipeline_step s s' →
  pipeline_inv s' (λ a, h a ∨ is_mining s' a).
Proof.
  intros Hi Hstep.
  assert (Hs : ∀ s', pipeline_inv s' h → pipeline_inv s' (λ a, h a ∨ is_mining s' a)).
  { intros s2. apply pipeline_inv_mono. by left. }
  destruct Hstep as [item extra c s' Hh|extra s' Hh|extra s' Hh|s' Hh|b t| |b r|l|l| |k].
  - by eapply handle_inv.
  - by eapply start_items_intake_inv.
  - unfold init_block_pipeline_status in Hh. destruct (current_block s); [by eapply start_items_intake_inv|].
    simplify_eq. by apply Hs.
  - apply obind_ret in Hh as (blk & _ & (sd & _ & (u & _ & [= <-])%obind_ret)%obind_ret).
    by apply Hs, (pipeline_inv_same s).
  - by apply Hs, (pipeline_inv_same s).
  - by apply Hs, (pipeline_inv_same s).
  - by apply Hs, (pipeline_inv_same s).
  - by apply Hs, cleanup_intake_inv.
  - by apply Hs, cleanup_mining_inv.
  - by apply Hs, (pipeline_inv_same s).
  - by apply Hs, (pipeline_inv_same s).
Qed.

(** C12: in every state the pipeline can reach, the participant lists have no
    duplicate and agree with their lookup sets, a proof of work is only held
    while they are taken in, and the winner, like every proof of work held, is
    of a miner that had been selected to mine; the winner's mining transaction
    is among the recorded ones. *)
Theorem reach_winner_selected s h : reach s h →
  pipeline_wf s ∧
  (∀ w, w ∈ all_winning_pow s → h w.1) ∧
  (∀ w, winning_pow s = Some w → h w.1 ∧ (wp_mining_tx w.2).1 ∈ last_winning_hashes s) ∧
  (mining_pipeline_status s ≠ AllItemsIntake → all_winning_pow s = []).
Proof.
  intros Hr.
  assert (Hi : pipeline_inv s h); [|by destruct Hi as (? & _ & ?)].
  induction Hr as [v|s h s' _ IH Hstep]; [|by eapply pipeline_step_inv].
  split_and!; [split; cbn; by intros k p ?%lookup_empty_Some| |by intros w ?%not_elem_of_nil|done..].
  intros a (pid & p & Hl & _). cbn in Hl. by apply lookup_empty_Some in Hl.
Qed.
End reach.

(** ** No panic once the unicorn is drawn *)
Section total.
Context `{KeccakPrime, !KeccakPrimeLaws}.

Lemma start_items_intake_total s extra : unicorn_drawn s → 0 ≤ partition_full_size extra → pipeline_wf s →
  ∃ s', start_items_intake s extra = Ret s'.
Proof.
  intros Hu Hf [Hi _]. unfold start_items_intake. case_decide; [eexists; reflexivity|].
  unfold unicorn_select_participants_mining.
  change (select_participants (s <| participants_intake := ∅ |>)) with (select_participants s).
  destruct (ofold_bt_iter (select_participants s (partition_full_size extra))
    (selected_from (partition_full_size extra)) (participants_intake s)) as (m & -> & _).
  - intros k v Hk. apply select_participants_ret; eauto.
  - eexists. reflexivity.
Qed.

(** Once the unicorn is drawn, handling an item never panics, whatever the
    item, the phase and the votes. *)
Theorem handle_total (s : MiningPipelineInfo) (item : MiningPipelineItem) (extra : PipelineEventInfo) :
  unicorn_drawn s → 0 ≤ partition_full_size extra → pipeline_wf s →
  ∃ c s', handle_mining_pipeline_item s item extra = Ret (c, s').
Proof.
  intros Hu Hf Hwf. unfold handle_mining_pipeline_item.
  destruct (intake_item_fields s item (event_proposer_id extra)) as (_ & Eu & _).
  assert (Hu1 : unicorn_drawn (intake_item s item (event_proposer_id extra)))
    by (unfold unicorn_drawn; by rewrite Eu).
  pose proof (intake_item_wf s item (event_proposer_id extra) Hwf) as Hwf1.
  set (s1 := intake_item s item _) in *.
  destruct (has_ready_reset_pipeline _ _); [eexists _, _; reflexivity|].
  destruct (mining_pipeline_status s); [eexists _, _; reflexivity|..].
  - destruct (has_ready_select_participating_miners _ _); [|eexists _, _; reflexivity].
    destruct (start_items_intake_total s1 extra Hu1 Hf Hwf1) as [s' ->]. eexists _, _; reflexivity.
  - destruct (has_ready_select_winning_miner _ _) eqn:Er; [|eexists _, _; reflexivity].
    unfold start_winning_pow_halted.
    assert (Hne : all_winning_pow s1 ≠ []).
    { unfold has_ready_select_winning_miner in Er. destruct (_ <? _); [done|]. by destruct (all_winning_pow s1). }
    destruct (get_unicorn_item_ret s1 WINNING_MINER_UN (all_winning_pow s1) Hu1 Hne) as (x & Hx & _).
    cbv zeta. match goal with |- context [get_unicorn_item ?s2 ?u ?l] =>
      change (get_unicorn_item s2 u l) with (get_unicorn_item s1 u l) end.
    rewrite Hx.
    eexists _, _; reflexivity.
Qed.
End total.

(** ** Import for the next version *)

(** Importing what was exported keeps the unicorn parameters, the block
    number and the block, and nothing else: the rest restarts from its default,
    and exporting again gives the same data. *)
Theorem import_roundtrip (s : MiningPipelineInfo) (v : MiningPipelineInfoImport) :
  into_import (from_import v) = v ∧
  from_import (into_import s) = MiningPipelineInfo_default
    <| unicorn_fixed_param := unicorn_fixed_param s |>
    <| current_block_num := current_block_num s |> <| current_block := current_block s |>.
Proof. split; [by destruct v|done]. Qed.

Module PipelineExamples.
Import TestExternals.

Definition a1 : SocketAddr := AddrV4 1 1.
Definition a2 : SocketAddr := AddrV4 1 2.
Definition a3 : SocketAddr := AddrV4 1 3.
Definition g32 : string := "0123456789abcdef0123456789abcdef".
Definition pow1 : WinningPoWInfo := mkWinningPoWInfo [] ("tx1"%string, mkTransaction [] [] 0 None) 0 0.
Definition extra : PipelineEventInfo := mkPipelineEventInfo 1 1 2 2.
Definition ps3 : Participants := mkParticipants [a1; a2; a3] {[a1; a2; a3]}.
Definition drawn : UnicornInfo := mkUnicornInfo (mkUnicorn 0 0 0 0) g32 0.
Definition s0 : MiningPipelineInfo :=
  MiningPipelineInfo_default <| unicorn_info := drawn |>
    <| mining_pipeline_status := ParticipantOnlyIntake |> <| participants_intake := {[1 := ps3]} |>.
(** [s0] after its selection of two of the three miners. *)
Definition s1 : MiningPipelineInfo :=
  MiningPipelineInfo_default <| unicorn_info := drawn |>
    <| mining_pipeline_status := AllItemsIntake |>
    <| participants_mining := {[1 := mkParticipants [a1; a2] {[a1; a2]}]} |>.

Lemma s0_wf : pipeline_wf s0.
Proof.
  split; intros k p.
  - cbn. intros [<- <-]%lookup_singleton_Some. split; [|reflexivity].
    apply (bool_decide_unpack _). reflexivity.
  - cbn. by intros ?%lookup_empty_Some.
Qed.

Definition selected : gmap Z Participants :=
  match unicorn_select_participants_mining s0 2 with Ret s => participants_mining s | Panic => ∅ end.

(** Two of three miners are selected. *)
Example select_two : (λ p, length (unsorted p)) <$> (selected !! 1) = Some 2%nat.
Proof. vm_compute. reflexivity. Qed.

Lemma unicorn_select_spec_witness :
  ∃ m, unicorn_select_participants_mining s0 2 =
      Ret (s0 <| participants_intake := ∅ |> <| participants_mining := m |>) ∧
    ∀ k, match participants_intake s0 !! k, m !! k with
         | Some ps, Some ps' => selected_from 2 ps ps'
         | None, None => True
         | _, _ => False
         end.
Proof.
  apply (unicorn_select_spec s0 2); [|lia|apply s0_wf].
  unfold unicorn_drawn. apply (bool_decide_unpack _). reflexivity.
Defined.

Definition s1_won : outcome (option MiningPipelinePhaseChange * MiningPipelineInfo) :=
  match handle_mining_pipeline_item s1 (WinningPoW a1 pow1) extra with
  | Ret (_, s) => handle_mining_pipeline_item s CompleteMining extra
  | Panic => Panic
  end.
(** A selected miner's proof of work, then the vote of the one peer: it wins. *)
Example s1_wins : match s1_won with
  | Ret (c, s) => (c, winning_pow s, mining_pipeline_status s) | Panic => (None, None, AllItemsIntake) end =
  (Some StartPhaseHalted, Some (a1, pow1), Halted).
Proof. vm_compute. reflexivity. Qed.
(** A miner that was not selected is ignored. *)
Example s1_not_selected :
  handle_mining_pipeline_item s1 (WinningPoW a3 pow1) extra = Ret (None, s1).
Proof. vm_compute. reflexivity. Qed.

Definition s1_pow : MiningPipelineInfo := s1 <| all_winning_pow := [(a1, pow1)] |>.
Definition s1_end : MiningPipelineInfo :=
  s1 <| mining_pipeline_status := Halted |> <| winning_pow := Some (a1, pow1) |>
     <| last_winning_hashes := {["tx1"%string]} |>.
Lemma s1_pow_wins : handle_mining_pipeline_item s1_pow CompleteMining extra = Ret (Some StartPhaseHalted, s1_end).
Proof. vm_compute. reflexivity. Qed.

Lemma handle_phase_change_witness :
  1 ≤ 1 ∧ mining_pipeline_status s1_end = Halted ∧ ∃ w, winning_pow s1_end = Some w ∧ w ∈ all_winning_pow s1_pow.
Proof.
  split; [done|].
  pose proof (handle_phase_change s1_pow s1_end CompleteMining extra _ s1_pow_wins ltac:(done))
    as (_ & _ & Hst & _ & _ & Hw).
  split; [exact Hst|exact Hw].
Defined.

Lemma phase_change_quorum_witness :
  1 ≤ zcard (voters AllItemsIntake ([] ++ [(CompleteMining, extra)])).
Proof.
  apply (phase_change_quorum s1_pow [] [] s1_pow CompleteMining extra StartPhaseHalted s1_end);
    [reflexivity|done|reflexivity|constructor|apply s1_pow_wins|done].
Defined.

Lemma handle_total_witness : ∃ c s', handle_mining_pipeline_item s0 CompleteParticipant extra = Ret (c, s').
Proof.
  apply (handle_total s0 CompleteParticipant extra); [|done|apply s0_wf].
  unfold unicorn_drawn. apply (bool_decide_unpack _). reflexivity.
Defined.

#[local] Instance bl_string : Bincode (list string) := {| serialize _ := []; deserialize _ := None |}.
#[local] Instance bl_addr : Bincode (list SocketAddr) := {| serialize _ := []; deserialize _ := None |}.
#[local] Instance bl_set : Bincode (gset string) := {| serialize _ := []; deserialize _ := None |}.
#[local] Instance bl_opt : Bincode (option Z) := {| serialize _ := []; deserialize _ := None |}.

Lemma reach_winner_selected_witness :
  ∃ s h, reach s h ∧ mining_pipeline_status s = ParticipantOnlyIntake ∧
    (mining_pipeline_status s ≠ AllItemsIntake → all_winning_pow s = []).
Proof.
  set (s := from_import (mkMiningPipelineInfoImport UnicornFixedParam_default None None)).
  assert (Hr : reach (s <| mining_pipeline_status := ParticipantOnlyIntake |>)
    (λ a, False ∨ is_mining (s <| mining_pipeline_status := ParticipantOnlyIntake |>) a)).
  { eapply reach_step; [apply reach_init|]. apply (step_start _ extra). reflexivity. }
  eexists _, _. split; [exact Hr|]. split; [reflexivity|].
  apply (reach_winner_selected _ _ Hr).
Defined.
End PipelineExamples.
