(* ===== verification/ComputeConsensused.v ===== *)
(** * The consensused state of the compute nodes

    [ComputeConsensused] of [src/compute_raft.rs]: the transaction pools, the
    UTXO set, the votes on stored blocks and coordinated commands, and the
    generation of the next block.  Every compute node applies the same
    operations to its copy in the order of the raft log. *)
From S2P Require Import Prelude Externals Utils TrackedUtxo Unicorn Interfaces ActiveRaft RaftUtil BlockPipeline.

Inductive CoordinatedCommand :=
  | PauseNodes (b_num : Z)
  | ResumeNodes
  | ApplySharedConfig.
Definition CoordinatedCommand_default : CoordinatedCommand := ResumeNodes.

#[export] Instance CoordinatedCommand_eq_dec : EqDecision CoordinatedCommand.
Proof. solve_decision. Defined.
Definition CoordinatedCommand_code (c : CoordinatedCommand) : list Z :=
  match c with PauseNodes b => [0; b] | ResumeNodes => [1] | ApplySharedConfig => [2] end.
Definition CoordinatedCommand_decode (l : list Z) : option CoordinatedCommand :=
  match l with
  | [_; b] => Some (PauseNodes b)
  | [z] => Some (if z =? 1 then ResumeNodes else ApplySharedConfig)
  | _ => None
  end.
Lemma CoordinatedCommand_decode_code c : CoordinatedCommand_decode (CoordinatedCommand_code c) = Some c.
Proof. by destruct c. Qed.
#[export] Instance CoordinatedCommand_countable : Countable CoordinatedCommand :=
  inj_countable CoordinatedCommand_code CoordinatedCommand_decode CoordinatedCommand_decode_code.
#[export] Program Instance ordkey_CoordinatedCommand : OrdKey CoordinatedCommand :=
  {| okey := CoordinatedCommand_code |}.
Next Obligation. intros [] [] E; by simplify_eq. Qed.

Record MinerWhitelist := mkMinerWhitelist {
  active : bool;
  miner_api_keys : option (gset string);
  miner_addresses : option (gset SocketAddr);
}.
#[export] Instance eta_MinerWhitelist : Eta MinerWhitelist := λ r,
  mkMinerWhitelist (active r) (miner_api_keys r) (miner_addresses r).
Definition MinerWhitelist_default : MinerWhitelist := mkMinerWhitelist false None None.

Inductive ComputeRuntimeItem :=
  | AddMiningApiKeys (keys : list (SocketAddr * string))
  | RemoveMiningApiKeys (addresses : list SocketAddr).

Inductive ComputeRaftItem :=
  | ItemFirstBlock (utxo_set : gmap string Transaction)
  | ItemBlockStored (info : BlockStoredInfo)
  | ItemTransactions (txs : gmap string Transaction)
  | ItemDruidTransactions (txs : list (gmap string Transaction))
  | ItemPipeline (item : MiningPipelineItem) (b_num : Z)
  | ItemCoordinatedCmd (cmd : CoordinatedCommand)
  | ItemRuntimeData (item : ComputeRuntimeItem).

Inductive CommittedItem :=
  | CommittedFirstBlock
  | CommittedBlock
  | CommittedBlockShutdown
  | CommittedStartPhasePowIntake
  | CommittedStartPhaseHalted
  | CommittedResetPipeline
  | CommittedTransactions
  | CommittedSnapshot
  | CommittedCoordinatedCmd (cmd : CoordinatedCommand).

Definition CommittedItem_from (other : MiningPipelinePhaseChange) : CommittedItem :=
  match other with
  | StartPhasePowIntake => CommittedStartPhasePowIntake
  | StartPhaseHalted => CommittedStartPhaseHalted
  | Reset => CommittedResetPipeline
  end.

Inductive AccumulatingBlockStoredInfo :=
  | AccFirstBlock (utxo_set : gmap string Transaction)
  | AccBlock (info : BlockStoredInfo).

Inductive SpecialHandling := Shutdown | FirstUpgradeBlock.
#[export] Instance SpecialHandling_eq_dec : EqDecision SpecialHandling.
Proof. solve_decision. Defined.

Record ComputeConsensused := mkComputeConsensused {
  cc_unanimous_majority : Z;
  cc_sufficient_majority : Z;
  cc_partition_full_size : Z;
  tx_pool : gmap string Transaction;
  tx_druid_pool : list (gmap string Transaction);
  tx_current_block_previous_hash : option string;
  initial_utxo_txs : option (gmap string Transaction);
  utxo_set : TrackedUtxoSet;
  current_block_stored_info : gmap (list Z) (AccumulatingBlockStoredInfo * gset Z);
  current_raft_coordinated_cmd_stored_info : gmap CoordinatedCommand (gset Z);
  last_committed_raft_idx_and_term : Z * Z;
  current_circulation : TokenAmount;
  block_pipeline : MiningPipelineInfo;
  last_mining_transaction_hashes : list string;
  special_handling : option SpecialHandling;
  miner_whitelist : MinerWhitelist;
  mining_api_keys : gmap SocketAddr string;  (* [runtime_data], not serialized *)
}.
#[export] Instance eta_ComputeConsensused : Eta ComputeConsensused := λ r,
  mkComputeConsensused (cc_unanimous_majority r) (cc_sufficient_majority r) (cc_partition_full_size r)
    (tx_pool r) (tx_druid_pool r) (tx_current_block_previous_hash r) (initial_utxo_txs r) (utxo_set r)
    (current_block_stored_info r) (current_raft_coordinated_cmd_stored_info r)
    (last_committed_raft_idx_and_term r) (current_circulation r) (block_pipeline r)
    (last_mining_transaction_hashes r) (special_handling r) (miner_whitelist r) (mining_api_keys r).
Definition ComputeConsensused_default : ComputeConsensused :=
  mkComputeConsensused 0 0 0 ∅ [] None None (mkTrackedUtxoSet ∅ ∅) ∅ ∅ (0, 0) 0
    MiningPipelineInfo_default [] None MinerWhitelist_default ∅.

Record ComputeConsensusedImport := mkComputeConsensusedImport {
  ci_unanimous_majority : Z;
  ci_sufficient_majority : Z;
  ci_partition_full_size : Z;
  ci_unicorn_fixed_param : UnicornFixedParam;
  ci_tx_current_block_num : option Z;
  ci_current_block : option Block;
  ci_utxo_set : gmap OutPoint TxOut;
  ci_last_committed_raft_idx_and_term : Z * Z;
  ci_current_circulation : TokenAmount;
  ci_special_handling : option SpecialHandling;
  ci_miner_whitelist : MinerWhitelist;
}.

(** [take_first_n]: [split_off] leaves the keys below the [n]-th behind. *)
Definition take_first_n {V : Type} (n : nat) (from : gmap string V) : gmap string V * gmap string V :=
  match bt_keys from !! n with
  | Some max_key =>
      (filter (λ kv, ¬ key_le max_key kv.1) from, filter (λ kv, key_le max_key kv.1) from)
  | None => (from, ∅)
  end.

Section consensused.
Context `{Naom}.
Implicit Types c : ComputeConsensused.

(** *** Settings *)
Definition re_align_utxo_set c : ComputeConsensused := c <| utxo_set ::= re_align |>.
Definition update_partition_full_size c (n : Z) : ComputeConsensused := c <| cc_partition_full_size := n |>.
Definition update_miner_whitelist_active c (b : bool) : ComputeConsensused :=
  c <| miner_whitelist ::= λ w, w <| active := b |> |>.
Definition update_miner_whitelist_api_keys c (k : option (gset string)) : ComputeConsensused :=
  c <| miner_whitelist ::= λ w, w <| miner_api_keys := k |> |>.
Definition update_miner_whitelist_addresses c (a : option (gset SocketAddr)) : ComputeConsensused :=
  c <| miner_whitelist ::= λ w, w <| miner_addresses := a |> |>.
Definition with_peers_len c (peers_len : Z) : ComputeConsensused :=
  c <| cc_unanimous_majority := peers_len |> <| cc_sufficient_majority := peers_len / 2 + 1 |>.
Definition with_partition_full_size c (n : Z) : ComputeConsensused := c <| cc_partition_full_size := n |>.
Definition cc_with_unicorn_fixed_param c (i : UnicornFixedInfo) : ComputeConsensused :=
  c <| block_pipeline ::= λ p, with_unicorn_fixed_param p i |>.

Definition pipeline_extra c (proposer : Z) : PipelineEventInfo :=
  mkPipelineEventInfo proposer (cc_sufficient_majority c) (cc_unanimous_majority c) (cc_partition_full_size c).

(** *** Import and export *)
Definition cc_from_import (i : ComputeConsensusedImport) : ComputeConsensused :=
  mkComputeConsensused (ci_unanimous_majority i) (ci_sufficient_majority i) (ci_partition_full_size i)
    ∅ [] None None (TrackedUtxoSet_new (ci_utxo_set i)) ∅ ∅ (ci_last_committed_raft_idx_and_term i)
    (ci_current_circulation i)
    (from_import (mkMiningPipelineInfoImport (ci_unicorn_fixed_param i) (ci_tx_current_block_num i)
      (ci_current_block i)))
    [] (ci_special_handling i) (ci_miner_whitelist i) ∅.

Definition cc_into_import c (special : option SpecialHandling) : ComputeConsensusedImport :=
  let p := into_import (block_pipeline c) in
  mkComputeConsensusedImport (cc_unanimous_majority c) (cc_sufficient_majority c) (cc_partition_full_size c)
    (import_unicorn_fixed_param p) (import_current_block_num p) (import_current_block p)
    (into_utxoset (utxo_set c)) (last_committed_raft_idx_and_term c) (current_circulation c)
    special (miner_whitelist c).

(** *** Mining block *)
Definition cc_set_committed_mining_block c (block : Block) (block_tx : gmap string Transaction) : ComputeConsensused :=
  c <| utxo_set ::= λ u, extend_tracked_utxo_set u block_tx |>
    <| block_pipeline ::= λ p, set_committed_mining_block p block block_tx |>.

Definition cc_take_mining_block c : option (Block * gmap string Transaction) * ComputeConsensused :=
  let '(b, p) := take_mining_block (block_pipeline c) in (b, c <| block_pipeline := p |>).

Definition is_first_block c : bool :=
  match current_block_num (block_pipeline c) with None => true | Some _ => false end.
Definition is_current_block c (block_num : Z) : bool :=
  match current_block_num (block_pipeline c) with Some n => block_num =? n | None => false end.

(** *** Invalid transactions *)

(** The inner loop: the inputs of one transaction, with the ones to roll back. *)
Fixpoint check_inputs (u : TrackedUtxoSet) (removed_all : gset OutPoint) (removed_roll_back : list OutPoint)
    (inputs : list OutPoint) : gset OutPoint * bool :=
  match inputs with
  | [] => (removed_all, true)
  | hash_in :: inputs =>
      if bool_decide (is_Some (base u !! hash_in)) && negb (bool_decide (hash_in ∈ removed_all)) then
        check_inputs u ({[hash_in]} ∪ removed_all) (removed_roll_back ++ [hash_in]) inputs
      else (foldl (λ s h, s ∖ {[h]}) removed_all removed_roll_back, false)
  end.

Definition find_invalid_step (u : TrackedUtxoSet) (acc : gset OutPoint * list string) (tx : string * Transaction) :
    gset OutPoint * list string :=
  let '(removed_all, ok) := check_inputs u acc.1 [] (get_inputs_previous_out_point [tx.2]) in
  (removed_all, if ok then acc.2 else acc.2 ++ [tx.1]).

Definition find_invalid_new_txs c (new_txs : gmap string Transaction) : list string :=
  (foldl (find_invalid_step (utxo_set c)) (∅, []) (bt_iter new_txs)).2.

(** *** Block generation: the state, the block and its transactions are threaded *)
Definition gen_state : Type := ComputeConsensused * Block * gmap string Transaction.

Definition update_current_block_tx_with_given_valid_txs (g : gen_state) (txs : gmap string Transaction) : gen_state :=
  let '(c, block, block_tx) := g in
  let c := foldl (λ c outpoint, c <| utxo_set ::= λ u, (remove_tracked_utxo_entry u outpoint).1 |>)
             c (get_inputs_previous_out_point (bt_values txs)) in
  (c, block <| transactions ::= λ l, l ++ bt_keys txs |>, map_append block_tx txs).

Definition update_committed_dde_tx (g : gen_state) : gen_state :=
  let '(c, block, block_tx) := g in
  let pool := tx_druid_pool c in
  let c := c <| tx_druid_pool := [] |> in
  foldl (λ g txs, match find_invalid_new_txs g.1.1 txs with
                  | [] => update_current_block_tx_with_given_valid_txs g txs
                  | _ => g
                  end) (c, block, block_tx) pool.

Definition update_current_block_tx (g : gen_state) : gen_state :=
  let '(c, block, block_tx) := g in
  let c := c <| tx_pool := foldl (λ p invalid, delete invalid p) (tx_pool c) (find_invalid_new_txs c (tx_pool c)) |> in
  let '(txs, rest) := take_first_n (Z.to_nat BLOCK_SIZE_IN_TX) (tx_pool c) in
  update_current_block_tx_with_given_valid_txs (c <| tx_pool := rest |>, block, block_tx) txs.

Definition update_block_header c (block : Block) : outcome (ComputeConsensused * Block) :=
  let! prev := unwrap (tx_current_block_previous_hash c) in
  let c := c <| tx_current_block_previous_hash := None |> in
  let! n := unwrap (current_block_num (block_pipeline c)) in
  let block := block <| header ::= λ h, h <| previous_hash := Some prev |> <| b_num := n |> |> in
  Ret (c, set_txs_merkle_root_and_hash block).

Definition generate_block c : outcome ComputeConsensused :=
  let g := update_current_block_tx (update_committed_dde_tx (c, Block_new, ∅)) in
  let '(c, next_block, next_block_tx) := g in
  let! cb := update_block_header c next_block in
  Ret (cc_set_committed_mining_block cb.1 cb.2 next_block_tx).

Definition generate_first_block c : outcome ComputeConsensused :=
  let! next_block_tx := unwrap (initial_utxo_txs c) in
  let c := c <| initial_utxo_txs := None |> in
  let next_block := Block_new <| transactions := bt_keys next_block_tx |> in
  Ret (cc_set_committed_mining_block c (set_txs_merkle_root_and_hash next_block) next_block_tx).

(** *** Votes *)
Definition has_different_coordinated_raft_cmd_stored_info c : bool :=
  1 <? zsize (current_raft_coordinated_cmd_stored_info c).
Definition has_different_block_stored_info c : bool := 1 <? zsize (current_block_stored_info c).

Definition max_agreeing_coordinated_raft_cmd_stored_info c : Z :=
  Z.of_nat (max_or_0 (map size (bt_values (current_raft_coordinated_cmd_stored_info c)))).
Definition max_agreeing_block_stored_info c : Z :=
  Z.of_nat (max_or_0 (map (λ v, size v.2) (bt_values (current_block_stored_info c)))).

Definition has_coordinated_raft_cmd_info_ready c : bool :=
  cc_unanimous_majority c <=? max_agreeing_coordinated_raft_cmd_stored_info c.
Definition has_block_stored_info_ready c : bool :=
  let threshold := if is_first_block c then cc_unanimous_majority c else cc_sufficient_majority c in
  threshold <=? max_agreeing_block_stored_info c.

Definition append_current_coordinated_raft_cmd_stored_info c (key : RaftContextKey) (cmd : CoordinatedCommand) :
    ComputeConsensused :=
  c <| current_raft_coordinated_cmd_stored_info ::= λ m,
    <[cmd := {[proposer_id key]} ∪ default ∅ (m !! cmd)]> m |>.

Definition take_ready_coordinated_raft_cmd c : CoordinatedCommand * ComputeConsensused :=
  let infos := current_raft_coordinated_cmd_stored_info c in
  let current_max_vote := 0 in
  (foldl (λ coordinated_cmd vv, if current_max_vote <? zcard vv.2 then vv.1 else coordinated_cmd)
     CoordinatedCommand_default (bt_iter infos),
   c <| current_raft_coordinated_cmd_stored_info := ∅ |>).

Definition take_ready_block_stored_info c : outcome (AccumulatingBlockStoredInfo * ComputeConsensused) :=
  let infos := current_block_stored_info c in
  let! best := unwrap (max_by_key (λ v : AccumulatingBlockStoredInfo * gset Z, size v.2) (bt_values infos)) in
  Ret (best.1, c <| current_block_stored_info := ∅ |>).

(** *** Runtime data *)
Definition add_mining_api_key (keys : gmap SocketAddr string) (kv : SocketAddr * string) : gmap SocketAddr string :=
  if bool_decide (kv.2 ∈ bt_values keys) then keys else <[kv.1 := kv.2]> keys.
Definition handle_runtime_item c (item : ComputeRuntimeItem) : ComputeConsensused :=
  match item with
  | AddMiningApiKeys keys => c <| mining_api_keys ::= λ m, foldl add_mining_api_key m keys |>
  | RemoveMiningApiKeys addresses => c <| mining_api_keys ::= λ m, foldl (λ m a, delete a m) m addresses |>
  end.

(** *** The stored block that has the votes *)
Definition apply_ready_block_stored_info c : outcome ComputeConsensused :=
  let! ic := take_ready_block_stored_info c in
  let '(info, c) := ic in
  let finish (c : ComputeConsensused) (block_num : Z) : outcome ComputeConsensused :=
    if cc_unanimous_majority c =? 0 then Panic
    else
      let reward := token_div (calculate_reward (current_circulation c)) (cc_unanimous_majority c) in
      Ret (c <| block_pipeline ::= λ p, pipeline_apply_ready_block_stored_info p block_num reward |>) in
  match info with
  | AccFirstBlock utxo =>
      finish (c <| current_circulation := get_total_coinbase_tokens utxo |> <| initial_utxo_txs := Some utxo |>) 0
  | AccBlock info =>
      if bool_decide (special_handling c = None) && bs_shutdown info then
        Ret (c <| special_handling := Some Shutdown |>)
      else
        finish
          (c <| special_handling := None |>
             <| current_circulation ::= λ t, token_add t (get_total_coinbase_tokens (bs_mining_transactions info)) |>
             <| tx_current_block_previous_hash := Some (bs_block_hash info) |>
             <| utxo_set ::= λ u, extend_tracked_utxo_set u (bs_mining_transactions info) |>
             <| last_mining_transaction_hashes := bt_keys (bs_mining_transactions info) |>)
          (wrap64 (bs_block_num info + 1))
  end.
End consensused.

Section accumulate.
Context `{Naom, Bincode AccumulatingBlockStoredInfo}.

(** [entry(hash).or_insert((block, {})).1.insert(proposer)] *)
Definition append_current_block_stored_info (c : ComputeConsensused) (key : RaftContextKey)
    (block : AccumulatingBlockStoredInfo) : ComputeConsensused :=
  let block_hash := sha3_256 (serialize block) in
  c <| current_block_stored_info ::= λ m,
    let entry := default (block, ∅) (m !! block_hash) in
    <[block_hash := (entry.1, {[proposer_id key]} ∪ entry.2)]> m |>.

Definition append_first_block_info (c : ComputeConsensused) (key : RaftContextKey)
    (utxo : gmap string Transaction) : ComputeConsensused :=
  append_current_block_stored_info c key (AccFirstBlock utxo).
Definition append_block_stored_info (c : ComputeConsensused) (key : RaftContextKey)
    (block : BlockStoredInfo) : ComputeConsensused :=
  append_current_block_stored_info c key (AccBlock block).
End accumulate.

Section intake.
Context `{Naom, Rug, Hex, KeccakPrime}.
Context `{Bincode (list string), Bincode (list SocketAddr), Bincode (gset string), Bincode (option Z)}.

Definition cc_init_block_pipeline_status (c : ComputeConsensused) : outcome ComputeConsensused :=
  let! p := init_block_pipeline_status (block_pipeline c) (pipeline_extra c 0) in
  Ret (c <| block_pipeline := p |>).

Definition cc_start_items_intake (c : ComputeConsensused) : outcome ComputeConsensused :=
  let! p := pipeline_construct_unicorn (block_pipeline c) in
  let! p := start_items_intake p (pipeline_extra c 0) in
  Ret (c <| block_pipeline := p |>).

Definition cc_handle_mining_pipeline_item (c : ComputeConsensused) (item : MiningPipelineItem)
    (key : RaftContextKey) : outcome (option MiningPipelinePhaseChange * ComputeConsensused) :=
  let! x := handle_mining_pipeline_item (block_pipeline c) item (pipeline_extra c (proposer_id key)) in
  Ret (x.1, c <| block_pipeline := x.2 |>).
End intake.

(** ** [take_first_n] *)

Lemma bt_iter_eq {K V : Type} `{OrdKey K} (m : gmap K V) (l : list (K * V)) :
  NoDup l.*1 → StronglySorted entry_le l → (∀ kv, kv ∈ l ↔ m !! kv.1 = Some kv.2) → bt_iter m = l.
Proof.
  intros Hnd Hs Hin. apply (StronglySorted_unique_strong entry_le).
  - intros [k1 v1] [k2 v2] H1%elem_of_bt_iter H2%Hin L1 L2. cbn in *.
    assert (k1 = k2) as <- by (apply (anti_symm key_le); done). by simplify_eq.
  - apply bt_iter_sorted.
  - done.
  - apply NoDup_Permutation; [apply bt_iter_NoDup|by eapply NoDup_fmap_1|].
    intros [k v]. by rewrite elem_of_bt_iter, Hin.
Qed.

Lemma StronglySorted_app {A : Type} (R : relation A) (l1 l2 : list A) :
  StronglySorted R (l1 ++ l2) →
  StronglySorted R l1 ∧ StronglySorted R l2 ∧ ∀ x y, x ∈ l1 → y ∈ l2 → R x y.
Proof.
  induction l1 as [|a l1 IH]; cbn.
  { intros Hs. split_and!; [constructor|done|]. by intros x y ?%not_elem_of_nil. }
  intros [Hs Ha]%StronglySorted_inv. destruct (IH Hs) as (H1 & H2 & H12).
  apply Forall_app in Ha as [Ha1 Ha2]. split_and!; [by constructor|done|].
  intros x y [-> |Hx]%elem_of_cons Hy; [|by apply H12].
  by eapply (proj1 (Forall_forall _ _) Ha2).
Qed.

(** The keys below the [n]-th are the first [n]. *)
Lemma take_first_n_split {V : Type} (m : gmap string V) (l1 l2 : list (string * V)) kv :
  bt_iter m = l1 ++ kv :: l2 →
  bt_iter (filter (λ kv', ¬ key_le kv.1 kv'.1) m) = l1 ∧
  bt_iter (filter (λ kv', key_le kv.1 kv'.1) m) = kv :: l2.
Proof.
  intros E. pose proof (bt_iter_sorted m) as Hs. pose proof (bt_keys_NoDup m) as Hnd.
  unfold bt_keys in Hnd. rewrite E in Hs, Hnd.
  apply StronglySorted_app in Hs as (Hs1 & Hs2 & H12).
  rewrite fmap_app in Hnd. apply NoDup_app in Hnd as (Hnd1 & Hdisj & Hnd2).
  assert (Hin : ∀ kv', m !! kv'.1 = Some kv'.2 ↔ kv' ∈ l1 ∨ kv' ∈ kv :: l2).
  { intros [k v]. rewrite <-elem_of_app, <-E, elem_of_bt_iter. done. }
  assert (Hle2 : ∀ kv', kv' ∈ kv :: l2 → key_le kv.1 kv'.1).
  { intros kv' [-> |Hkv]%elem_of_cons; [apply lex_leb_refl|].
    apply StronglySorted_inv in Hs2 as [_ Hf]. by eapply (proj1 (Forall_forall _ _) Hf). }
  assert (Hgt1 : ∀ kv', kv' ∈ l1 → ¬ key_le kv.1 kv'.1).
  { intros kv' Hkv Hle. apply (Hdisj kv'.1).
    - apply list_elem_of_fmap. eauto.
    - replace kv'.1 with kv.1; [cbn; apply list_elem_of_here|].
      apply (anti_symm key_le); [done|]. apply (H12 kv' kv); [done|apply list_elem_of_here]. }
  split; apply bt_iter_eq; try done; intros [k v]; rewrite map_lookup_filter_Some; cbn [fst snd];
    rewrite (Hin (k, v)).
  - split; [intros Hkv; split; [by left|by apply (Hgt1 (k, v))]|]. intros [[?|Hk] Hn]; [done|].
    by apply (Hle2 (k, v)) in Hk.
  - split; [intros Hkv; split; [by right|by apply (Hle2 (k, v))]|]. intros [[Hk|?] Hn]; [|done].
    by apply (Hgt1 (k, v)) in Hk.
Qed.

(** [take_first_n] takes the first [n] entries in key order (all of them
    when there are fewer) and leaves the others, in order. *)
Theorem take_first_n_spec {V : Type} (n : nat) (from : gmap string V) :
  bt_iter (take_first_n n from).1 = take n (bt_iter from) ∧
  bt_iter (take_first_n n from).2 = drop n (bt_iter from).
Proof.
  unfold take_first_n, bt_keys. rewrite list_lookup_fmap.
  destruct (bt_iter from !! n) as [kv|] eqn:E; cbn.
  - pose proof (take_drop_middle _ _ _ E) as Em. symmetry in Em.
    destruct (take_first_n_split from _ _ kv Em) as [-> ->]. split; [done|].
    by rewrite (drop_S _ _ _ E).
  - apply lookup_ge_None in E. by rewrite take_ge, drop_ge, bt_iter_empty.
Qed.

Lemma take_first_n_lookup {V : Type} n (from : gmap string V) k v :
  from !! k = Some v ↔ (take_first_n n from).1 !! k = Some v ∨ (take_first_n n from).2 !! k = Some v.
Proof.
  rewrite <-!elem_of_bt_iter. destruct (take_first_n_spec n from) as [-> ->].
  by rewrite <-elem_of_app, take_drop.
Qed.

(** ** Invalid transactions *)
Section invalid.
Context `{NaomLaws}.

Definition ins (tx : Transaction) : list OutPoint := get_inputs_previous_out_point [tx].

Lemma get_inputs_concat l : get_inputs_previous_out_point l = l ≫= ins.
Proof.
  induction l as [|tx l IH]; [apply inputs_nil|].
  change (tx :: l) with ([tx] ++ l) at 1. rewrite inputs_app, IH. done.
Qed.

(** The inputs of [tx] are distinct, unspent, and not used before. *)
Definition acceptable (b : gmap OutPoint TxOut) (used : gset OutPoint) (tx : Transaction) : Prop :=
  NoDup (ins tx) ∧ Forall (λ o, is_Some (b !! o)) (ins tx) ∧ Forall (λ o, o ∉ used) (ins tx).
#[export] Instance acceptable_dec b used tx : Decision (acceptable b used tx).
Proof. unfold acceptable. apply _. Defined.

(** Reference: go through the transactions, keep the ones acceptable after
    the ones kept so far, report the others. *)
Fixpoint greedy (b : gmap OutPoint TxOut) (used : gset OutPoint) (l : list (string * Transaction)) : list string :=
  match l with
  | [] => []
  | (h, tx) :: l =>
      if decide (acceptable b used tx) then greedy b (list_to_set (ins tx) ∪ used) l
      else h :: greedy b used l
  end.

Lemma foldl_difference (s : gset OutPoint) l : foldl (λ s h, s ∖ {[h]}) s l = s ∖ list_to_set l.
Proof. revert s; induction l as [|h l IH]; intros s; cbn; [set_solver|]. rewrite IH. set_solver. Qed.

Lemma check_inputs_spec u removed rb l :
  check_inputs u removed rb l =
    if decide (NoDup l ∧ Forall (λ o, is_Some (base u !! o)) l ∧ Forall (λ o, o ∉ removed) l)
    then (list_to_set l ∪ removed, true) else (removed ∖ list_to_set rb, false).
Proof.
  revert removed rb; induction l as [|o l IH]; intros removed rb; cbn [check_inputs].
  { rewrite decide_True; [f_equal; set_solver|]. split_and!; constructor. }
  case_decide as Hd; [destruct Hd as ([Hol Hnd]%NoDup_cons & [Ho Hf]%Forall_cons & [Hr Hfr]%Forall_cons)|].
  - rewrite (bool_decide_true (is_Some _)), (bool_decide_false (o ∈ removed)) by done. cbn [andb negb].
    rewrite IH, decide_True; [f_equal; cbn; set_solver|]. split_and!; [done..|].
    rewrite Forall_forall in *. set_solver.
  - destruct (bool_decide (is_Some (base u !! o)) && negb (bool_decide (o ∈ removed))) eqn:E;
      [|by rewrite foldl_difference].
    apply andb_true_iff in E as [E1%bool_decide_eq_true E2%negb_true_iff%bool_decide_eq_false].
    rewrite IH, decide_False; [rewrite list_to_set_app_L; f_equal; cbn; set_solver|].
    intros (Hnd & Hf & Hfr). apply Hd. rewrite Forall_forall in Hfr. split_and!.
    + apply NoDup_cons. split; [|done]. intros Ho. apply (Hfr o Ho). set_solver.
    + by constructor.
    + constructor; [done|]. apply Forall_forall. intros x Hx. specialize (Hfr x Hx). set_solver.
Qed.

(** C34: [find_invalid_new_txs], with its roll-back of the inputs of a rejected
    transaction, reports exactly what the reference reports: a transaction is
    invalid when its inputs are not distinct, not unspent, or spent by an
    earlier accepted one of the same set. *)
Theorem find_invalid_greedy (c : ComputeConsensused) (new_txs : gmap string Transaction) :
  find_invalid_new_txs c new_txs = greedy (base (utxo_set c)) ∅ (bt_iter new_txs).
Proof.
  unfold find_invalid_new_txs.
  enough (Hg : ∀ l used inv, (foldl (find_invalid_step (utxo_set c)) (used, inv) l).2 =
    inv ++ greedy (base (utxo_set c)) used l) by apply Hg.
  induction l as [|[h tx] l IH]; intros used inv; cbn [foldl greedy]; [by rewrite app_nil_r|].
  unfold find_invalid_step at 2. cbn [fst snd]. rewrite check_inputs_spec. fold (ins tx).
  destruct (decide (acceptable _ _ _)) as [Ha|Ha].
  - rewrite decide_True by exact Ha. cbn [fst snd]. by rewrite IH.
  - rewrite decide_False by exact Ha. cbn [fst snd]. rewrite IH, <-app_assoc. cbn.
    f_equal. f_equal. f_equal. set_solver.
Qed.

(** A set of transactions that can all be applied to [b]. *)
Definition valid_txs (b : gmap OutPoint TxOut) (txs : gmap string Transaction) : Prop :=
  (∀ h tx, txs !! h = Some tx → NoDup (ins tx) ∧ ∀ o, o ∈ ins tx → is_Some (b !! o)) ∧
  (∀ h1 h2 tx1 tx2 o, txs !! h1 = Some tx1 → txs !! h2 = Some tx2 → h1 ≠ h2 →
     o ∈ ins tx1 → o ∈ ins tx2 → False).

Lemma greedy_sub b used l h : h ∈ greedy b used l → h ∈ l.*1.
Proof.
  revert used; induction l as [|[h' tx] l IH]; intros used; cbn; [done|].
  case_decide; rewrite ?elem_of_cons; [right; by eapply IH|]. intros [?|?]; [by left|right; by eapply IH].
Qed.

Lemma greedy_accepted b used l : NoDup l.*1 →
  (∀ h tx, (h, tx) ∈ l → h ∉ greedy b used l → acceptable b used tx) ∧
  (∀ h1 h2 tx1 tx2 o, (h1, tx1) ∈ l → (h2, tx2) ∈ l → h1 ≠ h2 →
    h1 ∉ greedy b used l → h2 ∉ greedy b used l → o ∈ ins tx1 → o ∈ ins tx2 → False).
Proof.
  revert used; induction l as [|[h tx] l IH]; intros used; cbn [fmap list_fmap fst greedy].
  { intros _. split; [by intros ? ? ?%not_elem_of_nil|by intros ? ? ? ? ? ?%not_elem_of_nil]. }
  rewrite NoDup_cons. intros [Hh Hnd].
  assert (Hin : ∀ h' tx', (h', tx') ∈ l → h' ∈ l.*1).
  { intros h' tx' ?. apply list_elem_of_fmap. by exists (h', tx'). }
  case_decide as Hacc.
  - destruct (IH (list_to_set (ins tx) ∪ used) Hnd) as [I1 I2].
    assert (Hlater : ∀ h' tx' o, (h', tx') ∈ l → h' ∉ greedy b (list_to_set (ins tx) ∪ used) l →
      o ∈ ins tx → o ∈ ins tx' → False).
    { intros h' tx' o Hl Hg Ho Ho'. destruct (I1 h' tx' Hl Hg) as (_ & _ & Hu).
      rewrite Forall_forall in Hu. apply (Hu o Ho'). set_solver. }
    split.
    + intros h' tx' [[= -> ->]|Hl]%elem_of_cons Hg; [done|].
      destruct (I1 h' tx' Hl Hg) as (? & ? & Hu). split_and!; [done..|].
      eapply Forall_impl; [exact Hu|]. set_solver.
    + intros h1 h2 tx1 tx2 o [[= -> ->]|Hl1]%elem_of_cons [[= -> ->]|Hl2]%elem_of_cons Hne Hg1 Hg2 Ho1 Ho2;
        [done|by eapply Hlater|by eapply Hlater|by eapply (I2 h1 h2)].
  - destruct (IH used Hnd) as [I1 I2]. setoid_rewrite not_elem_of_cons. split.
    + intros h' tx' [[= -> ->]|Hl]%elem_of_cons [? ?]; [done|by eapply I1].
    + intros h1 h2 tx1 tx2 o [[= -> ->]|Hl1]%elem_of_cons [[= -> ->]|Hl2]%elem_of_cons ? [? ?] [? ?];
        [done..|by eapply (I2 h1 h2)].
Qed.

(** What is not reported can be applied together. *)
Lemma find_invalid_valid c txs txs' : txs' ⊆ txs →
  (∀ h, is_Some (txs' !! h) → h ∉ find_invalid_new_txs c txs) → valid_txs (base (utxo_set c)) txs'.
Proof.
  intros Hsub Hn. rewrite find_invalid_greedy in Hn.
  destruct (greedy_accepted (base (utxo_set c)) ∅ (bt_iter txs) (bt_keys_NoDup txs)) as [I1 I2].
  assert (Hin : ∀ h tx, txs' !! h = Some tx →
    (h, tx) ∈ bt_iter txs ∧ h ∉ greedy (base (utxo_set c)) ∅ (bt_iter txs)).
  { intros h tx Hh. split; [apply elem_of_bt_iter; by eapply lookup_weaken|eauto]. }
  split.
  - intros h tx [Hl Hg]%Hin. destruct (I1 h tx Hl Hg) as (? & Hf & _). split; [done|].
    by apply Forall_forall.
  - intros h1 h2 tx1 tx2 o [Hl1 Hg1]%Hin [Hl2 Hg2]%Hin ? ? ?. by eapply (I2 h1 h2).
Qed.
End invalid.

(** ** The generated block *)
Section generate.
Context `{NaomLaws}.
Implicit Types c : ComputeConsensused.

(** Removing a list of outpoints from the tracked set. *)
Definition remove_all c (l : list OutPoint) : ComputeConsensused :=
  foldl (λ c outpoint, c <| utxo_set ::= λ u, (remove_tracked_utxo_entry u outpoint).1 |>) c l.

(** The fields block generation reads besides the UTXO set. *)
Definition same_pools c c' : Prop :=
  tx_pool c' = tx_pool c ∧ tx_druid_pool c' = tx_druid_pool c ∧
  tx_current_block_previous_hash c' = tx_current_block_previous_hash c ∧
  block_pipeline c' = block_pipeline c.

Lemma remove_all_spec c l :
  same_pools c (remove_all c l) ∧
  ∀ o, base (utxo_set (remove_all c l)) !! o = if decide (o ∈ l) then None else base (utxo_set c) !! o.
Proof.
  unfold remove_all. revert c; induction l as [|o' l IH]; intros c; cbn [foldl].
  { split; [done|]. intros o. by rewrite decide_False by apply not_elem_of_nil. }
  destruct (IH (c <| utxo_set ::= λ u, (remove_tracked_utxo_entry u o').1 |>)) as [Hs Hb].
  split; [exact Hs|]. intros o. rewrite Hb.
  change (base (utxo_set (c <| utxo_set ::= λ u, (remove_tracked_utxo_entry u o').1 |>))) with
    (base (remove_tracked_utxo_entry (utxo_set c) o').1).
  rewrite remove_base, lookup_delete. repeat case_decide; rewrite ?elem_of_cons in *; naive_solver.
Qed.

Lemma elem_of_ins_values (txs : gmap string Transaction) o :
  o ∈ get_inputs_previous_out_point (bt_values txs) ↔ ∃ h tx, txs !! h = Some tx ∧ o ∈ ins tx.
Proof.
  rewrite get_inputs_concat, list_elem_of_bind. setoid_rewrite elem_of_bt_values. naive_solver.
Qed.

(** What holds of the block under construction, from the UTXO base [b0]. *)
Definition gen_inv (b0 : gmap OutPoint TxOut) (g : gen_state) : Prop :=
  let '(c, block, block_tx) := g in
  valid_txs b0 block_tx ∧
  (∀ o t, base (utxo_set c) !! o = Some t →
     b0 !! o = Some t ∧ ∀ h tx, block_tx !! h = Some tx → o ∉ ins tx) ∧
  (∀ h, h ∈ transactions block ↔ is_Some (block_tx !! h)).

(** Applying transactions that are valid for the UTXO set left so far. *)
Lemma given_valid_inv b0 c block block_tx txs :
  gen_inv b0 (c, block, block_tx) → valid_txs (base (utxo_set c)) txs →
  gen_inv b0 (update_current_block_tx_with_given_valid_txs (c, block, block_tx) txs).
Proof.
  intros ((V1 & V2) & Hb & Hh) (W1 & W2). cbn [update_current_block_tx_with_given_valid_txs].
  fold (remove_all c (get_inputs_previous_out_point (bt_values txs))).
  destruct (remove_all_spec c (get_inputs_previous_out_point (bt_values txs))) as [_ Hr].
  assert (Hu : ∀ h tx, map_append block_tx txs !! h = Some tx → txs !! h = Some tx ∨ block_tx !! h = Some tx).
  { intros h tx. unfold map_append. rewrite lookup_union_Some_raw. naive_solver. }
  assert (Hcross : ∀ h1 h2 tx1 tx2 o, txs !! h1 = Some tx1 → block_tx !! h2 = Some tx2 →
    o ∈ ins tx1 → o ∈ ins tx2 → False).
  { intros h1 h2 tx1 tx2 o H1 H2 Ho1 Ho2. destruct (W1 h1 tx1 H1) as [_ Hex].
    destruct (Hex o Ho1) as [t Ht]. apply Hb in Ht as [_ Hn]. by eapply Hn. }
  split_and!; [split| |].
  - intros h tx [Hi|Hi]%Hu; [|by eapply V1]. destruct (W1 h tx Hi) as [? Hex]. split; [done|].
    intros o [t Ht]%Hex. apply Hb in Ht as [? _]. eauto.
  - intros h1 h2 tx1 tx2 o [H1|H1]%Hu [H2|H2]%Hu ? Ho1 Ho2; [by eapply (W2 h1 h2)| | |by eapply (V2 h1 h2)].
    + by eapply (Hcross h1 h2).
    + by eapply (Hcross h2 h1).
  - intros o t. rewrite Hr. case_decide as Ho; [done|]. intros [Hb0 Hn]%Hb. split; [done|].
    intros h tx [Hi|Hi]%Hu; [|by eapply Hn]. intros Hin. apply Ho, elem_of_ins_values. eauto.
  - intros h. cbn. rewrite elem_of_app, Hh, elem_of_bt_keys. unfold map_append.
    rewrite lookup_union_is_Some. naive_solver.
Qed.

Lemma given_valid_pools c block block_tx txs :
  same_pools c (update_current_block_tx_with_given_valid_txs (c, block, block_tx) txs).1.1.
Proof. apply remove_all_spec. Qed.

Lemma update_committed_dde_tx_inv b0 c block block_tx :
  gen_inv b0 (c, block, block_tx) →
  let g := update_committed_dde_tx (c, block, block_tx) in
  gen_inv b0 g ∧ tx_pool g.1.1 = tx_pool c ∧ tx_druid_pool g.1.1 = [] ∧
  tx_current_block_previous_hash g.1.1 = tx_current_block_previous_hash c ∧
  block_pipeline g.1.1 = block_pipeline c.
Proof.
  intros Hi. cbv zeta. unfold update_committed_dde_tx.
  assert (Hi1 : gen_inv b0 (c <| tx_druid_pool := [] |>, block, block_tx)) by exact Hi.
  set (step := λ (g : gen_state) txs, match find_invalid_new_txs g.1.1 txs with
      | [] => update_current_block_tx_with_given_valid_txs g txs | _ => g end).
  enough (Hg : ∀ l g, gen_inv b0 g → gen_inv b0 (foldl step g l) ∧ same_pools g.1.1 (foldl step g l).1.1).
  { destruct (Hg (tx_druid_pool c) _ Hi1) as (? & E1 & E2 & E3 & E4). split_and!; try done. }
  clear c block block_tx Hi Hi1.
  induction l as [|txs l IH]; intros [[c block] block_tx] Hg; cbn [foldl]; [done|].
  assert (Hs : gen_inv b0 (step (c, block, block_tx) txs) ∧ same_pools c (step (c, block, block_tx) txs).1.1).
  { subst step. cbv beta. cbn [fst]. destruct (find_invalid_new_txs c txs) eqn:E; [|done].
    split; [|apply given_valid_pools]. apply given_valid_inv; [done|].
    apply (find_invalid_valid c txs); [done|]. intros h _. rewrite E. apply not_elem_of_nil. }
  destruct Hs as [Hs1 (S1 & S2 & S3 & S4)].
  destruct (IH _ Hs1) as (I0 & I1 & I2 & I3 & I4). split; [done|].
  unfold same_pools. cbn [fst]. by rewrite I1, I2, I3, I4, S1, S2, S3, S4.
Qed.

Lemma foldl_delete_lookup (p : gmap string Transaction) l h :
  foldl (λ p invalid, delete invalid p) p l !! h = if decide (h ∈ l) then None else p !! h.
Proof.
  revert p; induction l as [|x l IH]; intros p; cbn.
  { by rewrite decide_False by apply not_elem_of_nil. }
  rewrite IH, lookup_delete. repeat case_decide; rewrite ?elem_of_cons in *; naive_solver.
Qed.

Lemma update_current_block_tx_inv b0 c block block_tx :
  gen_inv b0 (c, block, block_tx) →
  let g := update_current_block_tx (c, block, block_tx) in
  gen_inv b0 g ∧
  tx_current_block_previous_hash g.1.1 = tx_current_block_previous_hash c ∧
  block_pipeline g.1.1 = block_pipeline c ∧
  (∀ h tx, tx_pool c !! h = Some tx →
     g.2 !! h = Some tx ∨ tx_pool g.1.1 !! h = Some tx ∨ h ∈ find_invalid_new_txs c (tx_pool c)).
Proof.
  intros Hi. cbv zeta. unfold update_current_block_tx.
  set (pool := foldl (λ p invalid, delete invalid p) (tx_pool c) (find_invalid_new_txs c (tx_pool c))).
  change (tx_pool (c <| tx_pool := pool |>)) with pool.
  destruct (take_first_n (Z.to_nat BLOCK_SIZE_IN_TX) pool) as [txs rest] eqn:Et.
  pose proof (λ h tx, take_first_n_lookup (Z.to_nat BLOCK_SIZE_IN_TX) pool h tx) as Hl.
  rewrite Et in Hl. cbn [fst snd] in Hl.
  assert (Hpool : ∀ h, pool !! h = if decide (h ∈ find_invalid_new_txs c (tx_pool c)) then None else tx_pool c !! h)
    by (intros h; apply foldl_delete_lookup).
  assert (Hi1 : gen_inv b0 (c <| tx_pool := pool |> <| tx_pool := rest |>, block, block_tx)) by exact Hi.
  destruct (given_valid_pools (c <| tx_pool := pool |> <| tx_pool := rest |>) block block_tx txs)
    as (P1 & P2 & P3 & P4).
  split_and!; [|exact P3|exact P4|].
  - apply given_valid_inv; [done|]. change (utxo_set (c <| tx_pool := pool |> <| tx_pool := rest |>)) with (utxo_set c).
    assert (Htx : ∀ h tx, txs !! h = Some tx →
      h ∉ find_invalid_new_txs c (tx_pool c) ∧ tx_pool c !! h = Some tx).
    { intros h tx Hh. assert (Hp : pool !! h = Some tx) by (apply Hl; by left).
      rewrite Hpool in Hp. by case_decide. }
    apply (find_invalid_valid c (tx_pool c)).
    + apply map_subseteq_spec. intros h tx Hh. by apply Htx.
    + intros h [tx Hh]. by apply (Htx h tx).
  - intros h tx Hh. rewrite P1. cbn [fst snd].
    destruct (decide (h ∈ find_invalid_new_txs c (tx_pool c))); [by right; right|].
    assert (Hp : pool !! h = Some tx) by (rewrite Hpool; by rewrite decide_False).
    apply Hl in Hp as [Hp|Hp]; [left|by right; left].
    unfold update_current_block_tx_with_given_valid_txs, map_append. cbn [fst snd].
    by rewrite lookup_union_Some_raw; left.
Qed.

(** Totality of the header, and the generated block. *)
Lemma generate_block_ret c prev n :
  tx_current_block_previous_hash c = Some prev → current_block_num (block_pipeline c) = Some n →
  let g := update_current_block_tx (update_committed_dde_tx (c, Block_new, ∅)) in
  gen_inv (base (utxo_set c)) g ∧
  (∀ h tx, tx_pool c !! h = Some tx → g.2 !! h = Some tx ∨ tx_pool g.1.1 !! h = Some tx ∨
     h ∈ find_invalid_new_txs (update_committed_dde_tx (c, Block_new, ∅)).1.1 (tx_pool c)) ∧
  ∃ block,
    generate_block c = Ret (cc_set_committed_mining_block
      (g.1.1 <| tx_current_block_previous_hash := None |>) block g.2) ∧
    transactions block = transactions g.1.2 ∧
    b_num (header block) = n ∧ previous_hash (header block) = Some prev.
Proof.
  intros Hprev Hn. cbv zeta.
  assert (H0' : gen_inv (base (utxo_set c)) (c, Block_new, ∅)).
  { split_and!; [split; intros; simplify_map_eq|intros o t ?; split; [done|]; intros; simplify_map_eq|].
    intros h. rewrite Block_new_transactions, lookup_empty. split; [by intros ?%not_elem_of_nil|by intros [? ?]]. }
  destruct (update_committed_dde_tx_inv _ _ _ _ H0') as (I1 & P1 & _ & Ep1 & Eb1).
  destruct (update_committed_dde_tx (c, Block_new, ∅)) as [[c1 b1] bt1] eqn:E1. cbn [fst snd] in *.
  destruct (update_current_block_tx_inv _ _ _ _ I1) as (I2 & Ep2 & Eb2 & Hpool).
  unfold generate_block. rewrite E1.
  destruct (update_current_block_tx (c1, b1, bt1)) as [[c2 b2] bt2]. cbn [fst snd] in *.
  rewrite P1 in Hpool. split_and!; [done|done|].
  unfold update_block_header. rewrite Ep2, Ep1, Hprev. cbn [unwrap obind].
  change (block_pipeline (c2 <| tx_current_block_previous_hash := None |>)) with (block_pipeline c2).
  rewrite Eb2, Eb1, Hn. cbn [unwrap obind]. eexists. split; [reflexivity|]. cbn [snd].
  rewrite merkle_transactions, merkle_header. done.
Qed.

(** Generation leaves the rest of the state alone. *)
Definition same_rest c c' : Prop :=
  special_handling c' = special_handling c ∧ block_pipeline c' = block_pipeline c.

Lemma given_valid_rest g txs : same_rest g.1.1 (update_current_block_tx_with_given_valid_txs g txs).1.1.
Proof.
  destruct g as [[c b] bt]. cbn [update_current_block_tx_with_given_valid_txs fst].
  generalize (get_inputs_previous_out_point (bt_values txs)). intros l. revert c.
  induction l as [|o l IH]; intros c; cbn [foldl]; [done|].
  destruct (IH (c <| utxo_set ::= λ u, (remove_tracked_utxo_entry u o).1 |>)) as [E1 E2].
  split; [by rewrite E1|by rewrite E2].
Qed.

Lemma generate_block_rest c c' : generate_block c = Ret c' →
  special_handling c' = special_handling c ∧
  current_block_num (block_pipeline c') = current_block_num (block_pipeline c).
Proof.
  unfold generate_block.
  assert (Hd : same_rest c (update_committed_dde_tx (c, Block_new, ∅)).1.1).
  { unfold update_committed_dde_tx. generalize (tx_druid_pool c). intros l.
    assert (H0' : same_rest c ((c <| tx_druid_pool := [] |>, Block_new, ∅) : gen_state).1.1) by done.
    revert H0'. generalize ((c <| tx_druid_pool := [] |>, Block_new, ∅) : gen_state).
    induction l as [|txs l IH]; intros g Hg; cbn [foldl]; [done|]. apply IH.
    destruct (find_invalid_new_txs g.1.1 txs); [|done].
    destruct (given_valid_rest g txs) as [E1 E2]. unfold same_rest. by rewrite E1, E2. }
  destruct (update_committed_dde_tx _) as [[c1 b1] bt1]. cbn [fst] in Hd. unfold update_current_block_tx.
  destruct (take_first_n _ _) as [txs rest].
  match goal with |- context [update_current_block_tx_with_given_valid_txs ?g txs] =>
    pose proof (given_valid_rest g txs) as Hg;
    destruct (update_current_block_tx_with_given_valid_txs g txs) as [[c2 b2] bt2] end.
  cbn [fst] in Hg.
  intros ([c3 b3] & (prev & _ & (n & _ & [= <- <-])%obind_ret)%obind_ret & [= <-])%obind_ret.
  destruct Hd as [D1 D2], Hg as [G1 G2]. cbn in G1, G2 |- *. by rewrite G1, G2, D1, D2.
Qed.

(** C2: no double spend.  Once the stored block info has been applied (the
    previous hash and the block number are set) the next block is generated
    without panic, numbered and linked to the previous hash; it lists exactly
    the transactions it carries; every input of one of them was unspent in the
    UTXO set before, no input is spent twice within the block, and after it an
    unspent output is either an output of the block or was there before and is
    not an input of the block. *)
Theorem generate_block_no_double_spend c prev n :
  tx_current_block_previous_hash c = Some prev → current_block_num (block_pipeline c) = Some n →
  ∃ c' block, generate_block c = Ret c' ∧
    let block_tx := current_block_tx (block_pipeline c') in
    current_block (block_pipeline c') = Some block ∧
    b_num (header block) = n ∧ previous_hash (header block) = Some prev ∧
    (∀ h, h ∈ transactions block ↔ is_Some (block_tx !! h)) ∧
    valid_txs (base (utxo_set c)) block_tx ∧
    (∀ o t, base (utxo_set c') !! o = Some t →
       (o, t) ∈ get_tx_out_with_out_point_cloned (bt_iter block_tx) ∨
       base (utxo_set c) !! o = Some t ∧ ∀ h tx, block_tx !! h = Some tx → o ∉ ins tx).
Proof.
  intros Hprev Hn. destruct (generate_block_ret c prev n Hprev Hn) as (Hi & _ & block & Hg & Ht & Hbn & Hph).
  set (g := update_current_block_tx _) in *. destruct g as [[c2 b2] bt2]. cbn [fst snd] in *.
  destruct Hi as (V & Hb & Hh). eexists _, block. split; [exact Hg|]. cbv zeta.
  split_and!; [done|done|done|by rewrite Ht|done|].
  intros o t Ho. cbn in Ho. apply map_extend_inv in Ho as [Ho|Ho]; [by left|right; by apply Hb].
Qed.

(** No transaction of the pool is lost by block generation: it is in the
    block, or still in the pool, or was invalid after the DRUID transactions of
    the block were applied. *)
Theorem generate_block_keeps_pool c prev n h tx :
  tx_current_block_previous_hash c = Some prev → current_block_num (block_pipeline c) = Some n →
  tx_pool c !! h = Some tx →
  ∃ c', generate_block c = Ret c' ∧
    (current_block_tx (block_pipeline c') !! h = Some tx ∨ tx_pool c' !! h = Some tx ∨
     h ∈ find_invalid_new_txs (update_committed_dde_tx (c, Block_new, ∅)).1.1 (tx_pool c)).
Proof.
  intros Hprev Hn Hh. destruct (generate_block_ret c prev n Hprev Hn) as (_ & Hp & block & Hg & _).
  eexists. split; [exact Hg|]. destruct (Hp h tx Hh) as [?|[?|?]]; [by left|by right; left|by right; right].
Qed.
End generate.

(** ** Votes *)
Section votes.
Context `{Naom}.
Implicit Types c : ComputeConsensused.

Lemma max_agreeing_le c n : 1 ≤ n →
  n ≤ max_agreeing_block_stored_info c ↔
    ∃ h v, current_block_stored_info c !! h = Some v ∧ n ≤ zcard v.2.
Proof.
  intros Hn. unfold max_agreeing_block_stored_info, zcard.
  assert (Hnat : ∀ m : nat, n ≤ Z.of_nat m ↔ (Z.to_nat n <= m)%nat) by lia.
  rewrite Hnat, max_or_0_spec. split.
  - intros [?|(x & Hx & ?)]; [lia|]. apply list_elem_of_fmap in Hx as (v & -> & Hv).
    apply elem_of_bt_values in Hv as [h Hh]. exists h, v. split; [done|lia].
  - intros (h & v & Hh & ?). right. exists (size v.2). split; [|lia].
    apply list_elem_of_fmap. exists v. split; [done|]. apply elem_of_bt_values. eauto.
Qed.

Lemma take_ready_spec c : current_block_stored_info c ≠ ∅ →
  ∃ h info votes, current_block_stored_info c !! h = Some (info, votes) ∧
    take_ready_block_stored_info c = Ret (info, c <| current_block_stored_info := ∅ |>) ∧
    ∀ h' v, current_block_stored_info c !! h' = Some v → zcard v.2 ≤ zcard votes.
Proof.
  intros Hne. unfold take_ready_block_stored_info.
  destruct (max_by_key_is_Some (λ v : AccumulatingBlockStoredInfo * gset Z, size v.2)
    (bt_values (current_block_stored_info c))) as [best Hb].
  { unfold bt_values. intros E%fmap_nil_inv. by apply bt_iter_nil in E. }
  rewrite Hb. apply max_by_key_spec in Hb as [Hin Hmax].
  apply elem_of_bt_values in Hin as [h Hh]. exists h, best.1, best.2. split_and!.
  - by destruct best.
  - done.
  - intros h' v Hv. unfold zcard. apply inj_le, (Hmax v). apply elem_of_bt_values. eauto.
Qed.

(** The info that [apply_ready_block_stored_info] applies. *)
Definition applied (c : ComputeConsensused) (info : AccumulatingBlockStoredInfo) : Prop :=
  ∃ h votes, current_block_stored_info c !! h = Some (info, votes) ∧
    (if is_first_block c then cc_unanimous_majority c else cc_sufficient_majority c) ≤ zcard votes ∧
    ∀ h' v, current_block_stored_info c !! h' = Some v → zcard v.2 ≤ zcard votes.

Lemma apply_ready_cases c :
  has_block_stored_info_ready c = true → 1 ≤ cc_unanimous_majority c → 1 ≤ cc_sufficient_majority c →
  ∃ info c', applied c info ∧ apply_ready_block_stored_info c = Ret c' ∧
    current_block_stored_info c' = ∅ ∧
    let reward c' := token_div (calculate_reward (current_circulation c')) (cc_unanimous_majority c) in
    match info with
    | AccFirstBlock utxo =>
        current_circulation c' = get_total_coinbase_tokens utxo ∧ initial_utxo_txs c' = Some utxo ∧
        block_pipeline c' = pipeline_apply_ready_block_stored_info (block_pipeline c) 0 (reward c')
    | AccBlock info =>
        if bool_decide (special_handling c = None) && bs_shutdown info then
          c' = c <| current_block_stored_info := ∅ |> <| special_handling := Some Shutdown |>
        else
          special_handling c' = None ∧
          current_circulation c' =
            token_add (current_circulation c) (get_total_coinbase_tokens (bs_mining_transactions info)) ∧
          tx_current_block_previous_hash c' = Some (bs_block_hash info) ∧
          utxo_set c' = extend_tracked_utxo_set (utxo_set c) (bs_mining_transactions info) ∧
          block_pipeline c' = pipeline_apply_ready_block_stored_info (block_pipeline c)
            (wrap64 (bs_block_num info + 1)) (reward c')
    end.
Proof.
  intros Hr Hu Hs. unfold has_block_stored_info_ready in Hr. apply Z.leb_le in Hr.
  apply max_agreeing_le in Hr as (h0 & v0 & Hh0 & Hv0); [|destruct (is_first_block c); lia].
  destruct (take_ready_spec c) as (h & info & votes & Hh & Ht & Hmax).
  { intros E. rewrite E in Hh0. by apply lookup_empty_Some in Hh0. }
  assert (Happ : applied c info).
  { exists h, votes. split_and!; [done| |done]. specialize (Hmax h0 v0 Hh0). lia. }
  unfold apply_ready_block_stored_info. rewrite Ht. cbn [obind].
  destruct info as [utxo|info].
  - exists (AccFirstBlock utxo). eexists. split; [done|]. cbn.
    destruct (Z.eqb_spec (cc_unanimous_majority c) 0); [lia|]. split; [reflexivity|]. done.
  - exists (AccBlock info).
    change (special_handling (c <| current_block_stored_info := ∅ |>)) with (special_handling c).
    destruct (bool_decide (special_handling c = None) && bs_shutdown info) eqn:E.
    + eexists. split; [done|]. split; [reflexivity|]. done.
    + eexists. split; [done|]. cbn. destruct (Z.eqb_spec (cc_unanimous_majority c) 0); [lia|].
      split; [reflexivity|]. split; [done|]. cbn. done.
Qed.

(** When the votes on a stored block are ready, the block with the most
    votes, which has the votes of all peers for the first block and of a
    majority otherwise, is applied without panic and the votes are cleared.  A
    shutdown block only records the shutdown; any other one adds its coinbase
    tokens to the circulation, moves to the next block number with the reward
    shared between the peers, and drops the block being mined. *)
Theorem apply_ready_spec c :
  has_block_stored_info_ready c = true → 1 ≤ cc_unanimous_majority c → 1 ≤ cc_sufficient_majority c →
  ∃ info c', applied c info ∧ apply_ready_block_stored_info c = Ret c' ∧
    current_block_stored_info c' = ∅ ∧
    let reward c' := token_div (calculate_reward (current_circulation c')) (cc_unanimous_majority c) in
    match info with
    | AccFirstBlock utxo =>
        current_circulation c' = get_total_coinbase_tokens utxo ∧ initial_utxo_txs c' = Some utxo ∧
        block_pipeline c' = pipeline_apply_ready_block_stored_info (block_pipeline c) 0 (reward c')
    | AccBlock info =>
        if bool_decide (special_handling c = None) && bs_shutdown info then
          c' = c <| current_block_stored_info := ∅ |> <| special_handling := Some Shutdown |>
        else
          special_handling c' = None ∧
          current_circulation c' =
            token_add (current_circulation c) (get_total_coinbase_tokens (bs_mining_transactions info)) ∧
          tx_current_block_previous_hash c' = Some (bs_block_hash info) ∧
          utxo_set c' = extend_tracked_utxo_set (utxo_set c) (bs_mining_transactions info) ∧
          block_pipeline c' = pipeline_apply_ready_block_stored_info (block_pipeline c)
            (wrap64 (bs_block_num info + 1)) (reward c')
    end.
Proof. apply apply_ready_cases. Qed.

Lemma last_cmd_fold (l : list (CoordinatedCommand * gset Z)) d :
  (∀ cv, cv ∈ l → cv.2 ≠ ∅) →
  foldl (λ coordinated_cmd vv, if 0 <? zcard vv.2 then vv.1 else coordinated_cmd) d l =
    default d (fst <$> last l).
Proof.
  revert d; induction l as [|[cmd v] l IH]; intros d Hl; cbn [foldl]; [done|].
  assert (Hv : v ≠ ∅) by exact (Hl (cmd, v) (list_elem_of_here _ _)).
  assert (0 < zcard v).
  { unfold zcard. assert (size v ≠ 0%nat); [|lia]. intros E%size_empty_inv. apply Hv, leibniz_equiv, E. }
  cbn [fst snd]. destruct (Z.ltb_spec 0 (zcard v)); [|lia]. rewrite IH.
  - destruct l as [|x l]; [done|]. rewrite last_cons_cons.
    destruct (last (x :: l)) eqn:E; [done|]. by apply last_None in E.
  - intros cv Hcv. apply Hl. by apply list_elem_of_further.
Qed.

(** The coordinated command taken is not the one with the most votes (the
    maximum is never updated): it is the last one in the order of commands that
    has a vote, whatever the votes of the others. *)
Theorem take_ready_coordinated_last c cmd :
  (∀ cmd v, current_raft_coordinated_cmd_stored_info c !! cmd = Some v → v ≠ ∅) →
  is_Some (current_raft_coordinated_cmd_stored_info c !! cmd) →
  (∀ cmd', is_Some (current_raft_coordinated_cmd_stored_info c !! cmd') → key_le cmd' cmd) →
  (take_ready_coordinated_raft_cmd c).1 = cmd ∧
  current_raft_coordinated_cmd_stored_info (take_ready_coordinated_raft_cmd c).2 = ∅.
Proof.
  intros Hne Hcmd Hmax. split; [|done]. unfold take_ready_coordinated_raft_cmd. cbn [fst].
  rewrite last_cmd_fold by (intros [k v] Hkv%elem_of_bt_iter; by eapply Hne).
  destruct (last (bt_iter (current_raft_coordinated_cmd_stored_info c))) as [[k v]|] eqn:E; cbn.
  - pose proof E as Hk. apply last_Some in Hk as [l' Hl'].
    assert (Hin : (k, v) ∈ bt_iter (current_raft_coordinated_cmd_stored_info c))
      by (rewrite Hl'; set_solver).
    apply elem_of_bt_iter in Hin. apply (anti_symm key_le); [apply Hmax; eauto|].
    destruct Hcmd as [w Hw]. apply elem_of_bt_iter in Hw.
    pose proof (bt_iter_sorted (current_raft_coordinated_cmd_stored_info c)) as Hs.
    rewrite Hl' in Hs, Hw. apply StronglySorted_app in Hs as (_ & _ & Hle).
    apply elem_of_app in Hw as [Hw|[= -> ->]%list_elem_of_singleton]; [|apply lex_leb_refl].
    apply (Hle (cmd, w) (k, v)); [done|]. apply list_elem_of_here.
  - apply last_None, bt_iter_nil in E. destruct Hcmd as [v Hv]. rewrite E in Hv.
    by apply lookup_empty_Some in Hv.
Qed.

(** *** Mining API keys *)
Definition keys_distinct (m : gmap SocketAddr string) : Prop :=
  ∀ a1 a2 k, m !! a1 = Some k → m !! a2 = Some k → a1 = a2.

Lemma add_mining_api_key_distinct m kv : keys_distinct m → keys_distinct (add_mining_api_key m kv).
Proof.
  intros Hd. unfold add_mining_api_key. destruct (bool_decide _) eqn:E; [done|].
  apply bool_decide_eq_false in E. rewrite elem_of_bt_values in E.
  intros a1 a2 k. rewrite !lookup_insert. repeat case_decide; intros; simplify_eq; [done| | |by eapply Hd].
  - exfalso. eauto.
  - exfalso. eauto.
Qed.

(** Two miners never hold the same mining API key, through any sequence of
    committed runtime items. *)
Theorem runtime_keys_distinct c (l : list ComputeRuntimeItem) :
  keys_distinct (mining_api_keys c) → keys_distinct (mining_api_keys (foldl handle_runtime_item c l)).
Proof.
  revert c; induction l as [|i l IH]; intros c Hc; cbn [foldl]; [done|]. apply IH.
  destruct i as [keys|addrs]; cbn.
  - revert Hc. generalize (mining_api_keys c). induction keys as [|k keys IHk]; intros m Hm; cbn; [done|].
    by apply IHk, add_mining_api_key_distinct.
  - revert Hc. generalize (mining_api_keys c). induction addrs as [|a addrs IHa]; intros m Hm; cbn; [done|].
    apply IHa. intros a1 a2 k. rewrite !lookup_delete_Some. naive_solver.
Qed.
End votes.

(** An upgrade keeps the imported consensus data unchanged, and rebuilds an
    exact cache of the UTXO set. *)
Theorem cc_import_roundtrip (i : ComputeConsensusedImport) :
  cc_into_import (cc_from_import i) (ci_special_handling i) = i ∧
  cache_exact (utxo_set (cc_from_import i)).
Proof. split; [by destruct i|apply create_pk_cache_exact]. Qed.

Module ConsensusedExamples.
Import TestExternals.

Definition o1 : OutPoint := mkOutPoint "a" 0.
Definition o2 : OutPoint := mkOutPoint "b" 0.
Definition out1 : TxOut := mkTxOut (Token 5) 0 None (Some "k"%string).
Definition spend (o : OutPoint) : Transaction :=
  mkTransaction [mkTxIn (Some o) (mkScript [])] [out1] 0 None.
(** [t1] and [t2] both spend [o1]; [t3] spends an unknown output. *)
Definition pool : gmap string Transaction :=
  {["t1"%string := spend o1; "t2"%string := spend o1; "t3"%string := spend (mkOutPoint "z" 0)]}.
Definition c0 : ComputeConsensused :=
  ComputeConsensused_default
    <| cc_unanimous_majority := 3 |> <| cc_sufficient_majority := 2 |>
    <| utxo_set := TrackedUtxoSet_new {[o1 := out1; o2 := out1]} |>
    <| tx_druid_pool := [{["d1"%string := spend o2]}] |>
    <| tx_pool := pool |> <| tx_current_block_previous_hash := Some "prev"%string |>
    <| block_pipeline ::= λ p, p <| current_block_num := Some 1 |> |>.

(** The block has the DRUID transaction and the first of the double spends. *)
Example block_txs :
  match generate_block c0 with
  | Ret c => (transactions <$> current_block (block_pipeline c), bt_keys (tx_pool c))
  | Panic => (None, [])
  end = (Some ["d1"%string; "t1"%string], []).
Proof. vm_compute. reflexivity. Qed.

Example invalid_txs : find_invalid_new_txs c0 pool = ["t2"; "t3"]%string.
Proof. vm_compute. reflexivity. Qed.

Lemma find_invalid_greedy_witness :
  find_invalid_new_txs c0 pool = greedy (base (utxo_set c0)) ∅ (bt_iter pool).
Proof. apply find_invalid_greedy. Defined.

Lemma generate_block_no_double_spend_witness :
  ∃ c' block, generate_block c0 = Ret c' ∧ current_block (block_pipeline c') = Some block ∧
    b_num (header block) = 1 ∧ valid_txs (base (utxo_set c0)) (current_block_tx (block_pipeline c')).
Proof.
  destruct (generate_block_no_double_spend c0 "prev" 1) as (c' & block & H1 & H2 & H3 & _ & _ & H6 & _);
    [reflexivity..|]. exists c', block. split; [exact H1|]. split; [exact H2|]. split; [exact H3|exact H6].
Defined.

Lemma generate_block_keeps_pool_witness :
  ∃ c', generate_block c0 = Ret c' ∧
    (current_block_tx (block_pipeline c') !! "t1"%string = Some (spend o1) ∨
     tx_pool c' !! "t1"%string = Some (spend o1) ∨
     "t1"%string ∈ find_invalid_new_txs (update_committed_dde_tx (c0, Block_new, ∅)).1.1 (tx_pool c0)).
Proof. apply (generate_block_keeps_pool c0 "prev" 1); reflexivity. Defined.

(** Three votes for a pause, one for a shared config: the config is applied. *)
Definition c_votes : ComputeConsensused :=
  c0 <| current_raft_coordinated_cmd_stored_info := {[PauseNodes 4 := {[1; 2; 3]}; ApplySharedConfig := {[1]}]} |>.
Example minority_command :
  has_coordinated_raft_cmd_info_ready c_votes = true ∧
  (take_ready_coordinated_raft_cmd c_votes).1 = ApplySharedConfig.
Proof. split; vm_compute; reflexivity. Qed.

Lemma votes_cases cmd v :
  current_raft_coordinated_cmd_stored_info c_votes !! cmd = Some v →
  cmd = PauseNodes 4 ∧ v = {[1; 2; 3]} ∨ cmd = ApplySharedConfig ∧ v = {[1]}.
Proof.
  change (current_raft_coordinated_cmd_stored_info c_votes) with
    ({[PauseNodes 4 := {[1; 2; 3]}; ApplySharedConfig := {[1]}]} : gmap CoordinatedCommand (gset Z)).
  intros [[<- <-]|[_ [<- <-]%lookup_singleton_Some]]%lookup_insert_Some; auto.
Qed.

Lemma take_ready_coordinated_last_witness :
  (take_ready_coordinated_raft_cmd c_votes).1 = ApplySharedConfig ∧
  current_raft_coordinated_cmd_stored_info (take_ready_coordinated_raft_cmd c_votes).2 = ∅.
Proof.
  apply (take_ready_coordinated_last c_votes ApplySharedConfig).
  - intros cmd v [[_ ->]|[_ ->]]%votes_cases; apply (bool_decide_unpack _); reflexivity.
  - exists {[1]}. reflexivity.
  - intros cmd [v Hv]. apply votes_cases in Hv as [[-> _]|[-> _]]; reflexivity.
Defined.

Definition info1 : BlockStoredInfo := mkBlockStoredInfo "h" 1 [] ∅ false.
Definition c_info : ComputeConsensused :=
  c0 <| current_block_stored_info := {[[7] := (AccBlock info1, {[1; 2]})]} |>.
Lemma apply_ready_spec_witness :
  ∃ info c', applied c_info info ∧ apply_ready_block_stored_info c_info = Ret c' ∧
    current_block_stored_info c' = ∅.
Proof.
  destruct (apply_ready_spec c_info) as (info & c' & H1 & H2 & H3 & _);
    [vm_compute; reflexivity|vm_compute; discriminate|vm_compute; discriminate|].
  exists info, c'. split; [exact H1|]. split; [exact H2|exact H3].
Defined.

Lemma runtime_keys_distinct_witness :
  keys_distinct (mining_api_keys (foldl handle_runtime_item c0
    [AddMiningApiKeys [(AddrV4 1 1, "k"%string); (AddrV4 2 2, "k"%string)]])).
Proof.
  apply runtime_keys_distinct. intros a1 a2 k Hk.
  change ((∅ : gmap SocketAddr string) !! a1 = Some k) in Hk. by apply lookup_empty_Some in Hk.
Defined.
End ConsensusedExamples.
