(* ===== verification/Requests.v ===== *)
(** * The requests between nodes: the enums of [src/interfaces.rs]

    One [Module] per enum, since they share names of variants; [M] is the
    message type of the raft crate. *)
From S2P Require Import Prelude Externals Utils TrackedUtxo Unicorn Interfaces ActiveRaft RaftUtil BlockPipeline ComputeConsensused.

Inductive StorageRequest (M : Type) :=
  | GetBlockchainItem (key : string)
  | SendBlockchainItem (key : string) (item : BlockchainItem)
  | GetHistory (start_time end_time : Z)
  | GetUnicornTable (n_last_items : option Z)
  | SendPow (pow : ProofOfWork)
  | SendBlock (mined_block : option MinedBlock)
  | Store
  | Closing
  | SendRaftCmd (msg : M).
Arguments GetBlockchainItem {M}. Arguments SendBlockchainItem {M}. Arguments GetHistory {M}.
Arguments GetUnicornTable {M}. Arguments SendPow {M}. Arguments SendBlock {M}. Arguments Store {M}.
Arguments Closing {M}. Arguments SendRaftCmd {M}.

(** [configurations.rs]: what compute nodes can share of their configuration. *)
Record ComputeNodeSharedConfig := mkComputeNodeSharedConfig {
  sc_mining_event_timeout : Z;
  sc_partition_full_size : Z;
  sc_miner_whitelist : MinerWhitelist;
}.

(** [compute_raft.rs] *)
Record ComputeConsensusedRuntimeData := mkRuntimeData { rt_mining_api_keys : gmap SocketAddr string }.

Module ComputeApiRequest.
Inductive t :=
  | SendCreateReceiptRequest (receipt_amount : Z) (script_public_key public_key signature : string)
      (drs_tx_hash_spec : DrsTxHashSpec) (metadata : option string)
  | SendTransactions (transactions : list Transaction)
  | PauseNodes (b_num : Z)
  | ResumeNodes
  | SendSharedConfig (shared_config : ComputeNodeSharedConfig).
End ComputeApiRequest.

Module ComputeRequest.
Inductive t (M : Type) :=
  | ComputeApi (req : ComputeApiRequest.t)
  | SendSharedConfig (shared_config : ComputeNodeSharedConfig)
  | SendUtxoRequest (address_list : UtxoFetchType) (requester_node_type : NodeType)
  | SendBlockStored (info : BlockStoredInfo)
  | SendPoW (block_num : Z) (nonce : list Z) (coinbase : Transaction)
  | SendPartitionEntry (pow_info : PowInfo) (partition_entry : ProofOfWork)
  | SendTransactions (transactions : list Transaction)
  | SendPartitionRequest (mining_api_key : option string)
  | SendUserBlockNotificationRequest
  | CoordinatedPause (b_num : Z)
  | CoordinatedResume
  | Closing
  | RequestRemoveMiner
  | RequestRuntimeData
  | SendRuntimeData (runtime_data : ComputeConsensusedRuntimeData)
  | SendRaftCmd (msg : M).
Arguments ComputeApi {M}. Arguments SendSharedConfig {M}. Arguments SendUtxoRequest {M}.
Arguments SendBlockStored {M}. Arguments SendPoW {M}. Arguments SendPartitionEntry {M}.
Arguments SendTransactions {M}. Arguments SendPartitionRequest {M}. Arguments SendUserBlockNotificationRequest {M}.
Arguments CoordinatedPause {M}. Arguments CoordinatedResume {M}. Arguments Closing {M}. Arguments RequestRemoveMiner {M}.
Arguments RequestRuntimeData {M}. Arguments SendRuntimeData {M}. Arguments SendRaftCmd {M}.
End ComputeRequest.

Module MineApiRequest.
Inductive t :=
  | GetConnectionStatus
  | GetMiningStatus
  | InitiatePauseMining
  | InitiateResumeMining
  | ConnectToCompute
  | DisconnectFromCompute
  | RequestUTXOSet (address_list : UtxoFetchType)
  | SetStaticMinerAddress (address : option string)
  | GetStaticMinerAddress.
End MineApiRequest.

Module MineRequest.
Inductive t :=
  | SendBlock (pow_info : PowInfo) (rnum : list Z) (win_coinbases : list string) (reward : TokenAmount)
      (block : option BlockHeader) (b_num : Z)
  | SendBlockchainItem (key : string) (item : BlockchainItem)
  | SendTransactions (tx_merkle_verification : list string)
  | SendUtxoSet (utxo_set : UtxoSet)
  | MinerRemovedAck
  | MinerNotAuthorized
  | MinerApi (req : MineApiRequest.t)
  | Closing.
End MineRequest.

Module UserApiRequest.
Inductive t :=
  | SendCreateReceiptRequest (receipt_amount : Z) (drs_tx_hash_spec : DrsTxHashSpec) (metadata : option string)
  | UpdateWalletFromUtxoSet (address_list : UtxoFetchType)
  | RequestDonation (paying_peer : SocketAddr)
  | MakeIpPayment (payment_peer : SocketAddr) (amount : TokenAmount) (locktime : option Z)
  | MakePayment (address : string) (amount : TokenAmount) (locktime : option Z)
  | MakePaymentWithExcessAddress (address : string) (amount : TokenAmount) (excess_address : string)
      (locktime : option Z)
  | GenerateNewAddress
  | GetConnectionStatus
  | ConnectToCompute
  | DisconnectFromCompute
  | DeleteAddresses (addresses : gset string)
  | MergeAddresses (addresses : gset string) (excess_address : option string).
End UserApiRequest.

Module UserRequest.
Inductive t :=
  | UserApi (req : UserApiRequest.t)
  | SendRbPaymentRequest (rb_payment_request_data : RbPaymentRequestData)
  | SendRbPaymentResponse (rb_payment_response : option RbPaymentResponseData)
  | SendAddressRequest
  | SendPaymentAddress (address : string)
  | SendPaymentTransaction (transaction : Transaction)
  | SendUtxoSet (utxo_set : UtxoSet)
  | BlockMining (block : Block)
  | Closing.
End UserRequest.
