(* ===== verification/ComputeRaft.v ===== *)
(** * The compute node's consensus: [ComputeRaft] of [src/compute_raft.rs]

    Proposals of the node and processing of the raft log.  Timers are not
    modelled: a time-out is a call of the operation it triggers. *)
From S2P Require Import Prelude Externals Utils TrackedUtxo Unicorn Interfaces ActiveRaft RaftUtil BlockPipeline ComputeConsensused.

#[export] Instance WinningPoWInfo_eq_dec : EqDecision WinningPoWInfo.
Proof. solve_decision. Defined.
#[export] Instance MiningPipelineItem_eq_dec : EqDecision MiningPipelineItem.
Proof. solve_decision. Defined.
#[export] Instance BlockStoredInfo_eq_dec : EqDecision BlockStoredInfo.
Proof. solve_decision. Defined.
#[export] Instance ComputeRuntimeItem_eq_dec : EqDecision ComputeRuntimeItem.
Proof. solve_decision. Defined.
#[export] Instance ComputeRaftItem_eq_dec : EqDecision ComputeRaftItem.
Proof. solve_decision. Defined.

Inductive InitialProposal :=
  | PendingAll
  | PendingAuthorized
  | PendingItem (item : ComputeRaftItem) (dedup_b_num : option Z).
#[export] Instance InitialProposal_eq_dec : EqDecision InitialProposal.
Proof. solve_decision. Defined.

Record ComputeRaft (M : Type) := mkComputeRaft {
  first_raft_peer : bool;
  raft_active : ActiveRaft M;
  consensused : ComputeConsensused;
  consensused_snapshot_applied : bool;
  local_initial_proposal : option InitialProposal;
  local_tx_pool : gmap string Transaction;
  local_tx_druid_pool : list (gmap string Transaction);
  local_tx_hash_last_commited : list string;
  in_flight : RaftInFlightProposals;
  proposed_tx_pool_len : Z;
  proposed_tx_pool_len_max : Z;
  proposed_and_consensused_tx_pool_len_max : Z;
  shutdown_no_commit_process : bool;
  backup_check : BackupCheck;
  utxo_re_align_check : UtxoReAlignCheck;
  mining_event_timeout_duration : Z;  (* in milliseconds *)
}.
Arguments mkComputeRaft {M}. Arguments first_raft_peer {M}. Arguments raft_active {M}.
Arguments consensused {M}. Arguments consensused_snapshot_applied {M}.
Arguments local_initial_proposal {M}. Arguments local_tx_pool {M}. Arguments local_tx_druid_pool {M}.
Arguments local_tx_hash_last_commited {M}. Arguments in_flight {M}. Arguments proposed_tx_pool_len {M}.
Arguments proposed_tx_pool_len_max {M}. Arguments proposed_and_consensused_tx_pool_len_max {M}.
Arguments shutdown_no_commit_process {M}. Arguments backup_check {M}. Arguments utxo_re_align_check {M}.
Arguments mining_event_timeout_duration {M}.
#[export] Instance eta_ComputeRaft M : Eta (ComputeRaft M) := λ r,
  mkComputeRaft (first_raft_peer r) (raft_active r) (consensused r) (consensused_snapshot_applied r)
    (local_initial_proposal r) (local_tx_pool r) (local_tx_druid_pool r) (local_tx_hash_last_commited r)
    (in_flight r) (proposed_tx_pool_len r) (proposed_tx_pool_len_max r)
    (proposed_and_consensused_tx_pool_len_max r) (shutdown_no_commit_process r) (backup_check r)
    (utxo_re_align_check r) (mining_event_timeout_duration r).

(** The configuration fields that [ComputeRaft::new] reads. *)
Record ComputeNodeConfig := mkComputeNodeConfig {
  compute_raft : Z;
  compute_node_idx : nat;
  compute_nodes : list SocketAddr;
  compute_partition_full_size : Z;
  compute_mining_event_timeout : Z;
  compute_unicorn_fixed_param : UnicornFixedInfo;
  backup_block_modulo : option Z;
  utxo_re_align_block_modulo : option Z;
}.

Section compute_raft.
Context `{Naom, Rug, Hex, KeccakPrime}.
Context `{Bincode (list string), Bincode (list SocketAddr), Bincode (gset string), Bincode (option Z)}.
Context `{Bincode RaftContextKey, Bincode AccumulatingBlockStoredInfo, Bincode ComputeRaftItem,
  Bincode ComputeConsensused}.
Context {M : Type}.
Implicit Types r : ComputeRaft M.

(** [utxo_set] is the result of [make_utxo_set_from_seed]. *)
Definition ComputeRaft_new (config : ComputeNodeConfig) (utxo_set : gmap string Transaction) :
    outcome (ComputeRaft M) :=
  let use := negb (compute_raft config =? 0) in
  let! ra := ActiveRaft_new (compute_node_idx config) (compute_nodes config) use in
  let first_raft_peer := (Nat.eqb (compute_node_idx config) 0) || negb use in
  let peers := peers_len ra in
  let! c := cc_init_block_pipeline_status
    (cc_with_unicorn_fixed_param
      (with_partition_full_size (with_peers_len ComputeConsensused_default peers)
        (compute_partition_full_size config))
      (compute_unicorn_fixed_param config)) in
  if peers =? 0 then Panic
  else
    Ret (mkComputeRaft first_raft_peer ra c (negb use) (Some (PendingItem (ItemFirstBlock utxo_set) None))
      ∅ [] [] RaftInFlightProposals_default 0 (BLOCK_SIZE_IN_TX / peers) (BLOCK_SIZE_IN_TX * 2) false
      (mkBackupCheck (backup_block_modulo config))
      (mkUtxoReAlignCheck (utxo_re_align_block_modulo config)) (compute_mining_event_timeout config)).

Definition cr_set_key_run r (key_run : Z) : ComputeRaft M :=
  r <| in_flight ::= λ p, set_key_run p key_run |>.
Definition set_initial_proposal_done r : ComputeRaft M := r <| local_initial_proposal := None |>.
Definition need_initial_state r : bool := negb (consensused_snapshot_applied r).
Definition cr_next_commit r : option (RaftCommit * ComputeRaft M) :=
  '(c, ra) ← next_commit (raft_active r); Some (c, r <| raft_active := ra |>).
Definition cr_received_message r (msg : M) : ComputeRaft M :=
  r <| raft_active ::= λ ra, received_message ra msg |>.

Definition is_shutdown_on_commit r : bool :=
  bool_decide (special_handling (consensused r) = Some Shutdown).

(** *** Proposals *)
Definition propose_item_dedup r (item : ComputeRaftItem) (b_num : Z) :
    outcome (option RaftContextKey * ComputeRaft M) :=
  let! x := propose_item (in_flight r) (raft_active r) item (Some b_num) in
  Ret (x.1.1, r <| in_flight := x.1.2 |> <| raft_active := x.2 |>).

Definition cr_propose_item r (item : ComputeRaftItem) : outcome (RaftContextKey * ComputeRaft M) :=
  let! x := propose_item (in_flight r) (raft_active r) item None in
  let! key := unwrap x.1.1 in
  Ret (key, r <| in_flight := x.1.2 |> <| raft_active := x.2 |>).

Definition propose_initial_item r : outcome (ComputeRaft M) :=
  let proposal := local_initial_proposal r in
  let r := r <| local_initial_proposal := None |> in
  match proposal with
  | Some PendingAll => Ret (r <| local_initial_proposal := Some PendingAuthorized |>)
  | Some (PendingItem item dedup_b_num) =>
      match dedup_b_num with
      | Some b_num =>
          let! x := propose_item_dedup r item b_num in
          let! _ := unwrap x.1 in
          Ret (x.2 <| local_initial_proposal := None |>)
      | None =>
          let! x := cr_propose_item r item in
          Ret (x.2 <| local_initial_proposal := None |>)
      end
  | Some PendingAuthorized | None => Panic
  end.

Definition propose_block_with_last_info r (block : BlockStoredInfo) : outcome (bool * ComputeRaft M) :=
  let b_num := bs_block_num block in
  let item := ItemBlockStored block in
  match local_initial_proposal r with
  | None | Some PendingAuthorized =>
      let r := r <| local_initial_proposal := None |> in
      let! x := propose_item_dedup r item b_num in
      Ret (bool_decide (is_Some x.1), x.2)
  | Some PendingAll | Some (PendingItem _ _) =>
      let proposal := Some (PendingItem item (Some b_num)) in
      let old := local_initial_proposal r in
      let r := r <| local_initial_proposal := proposal |> in
      Ret (negb (bool_decide (old = proposal)), r)
  end.

Definition propose_mining_pipeline_item r (item : MiningPipelineItem) : outcome (bool * ComputeRaft M) :=
  match current_block (block_pipeline (consensused r)) with
  | Some block =>
      let b := b_num (header block) in
      let! x := propose_item_dedup r (ItemPipeline item b) b in
      match x.1 with
      | Some key =>
          Ret (true, x.2 <| consensused ::= λ c, c <| block_pipeline ::= λ p, add_proposed_key p key |> |>)
      | None => Ret (false, x.2)
      end
  | None => Ret (false, r)
  end.

Definition propose_mining_event_at_timeout r : outcome (bool * ComputeRaft M) :=
  match mining_event_at_timeout (block_pipeline (consensused r)) with
  | Some item => propose_mining_pipeline_item r item
  | None => Ret (false, r)
  end.

Definition propose_runtime_item r (item : ComputeRuntimeItem) : outcome (ComputeRaft M) :=
  let! x := cr_propose_item r (ItemRuntimeData item) in Ret x.2.
Definition propose_pause_nodes r (b_num : Z) : outcome (ComputeRaft M) :=
  let! x := cr_propose_item r (ItemCoordinatedCmd (PauseNodes b_num)) in Ret x.2.
Definition propose_resume_nodes r : outcome (ComputeRaft M) :=
  let! x := cr_propose_item r (ItemCoordinatedCmd ResumeNodes) in Ret x.2.
Definition propose_apply_shared_config r : outcome (ComputeRaft M) :=
  let! x := cr_propose_item r (ItemCoordinatedCmd ApplySharedConfig) in Ret x.2.

Definition clear_block_pipeline_proposed_keys r : ComputeRaft M :=
  r <| consensused ::= λ c, c <| block_pipeline ::= clear_proposed_keys |> |>.

Definition flush_stale_miners r (unsent_miners : list SocketAddr) : ComputeRaft M :=
  r <| consensused ::= λ c, c <| block_pipeline ::= λ p,
    cleanup_participants_mining (cleanup_participant_intake p unsent_miners) unsent_miners |> |>.

(** *** Transaction pools *)
Definition proposed_and_consensused_tx_pool_len r : Z :=
  wrap64 (proposed_tx_pool_len r + zsize (tx_pool (consensused r))).
Definition combined_tx_pool_len r : Z :=
  wrap64 (zsize (local_tx_pool r) + proposed_and_consensused_tx_pool_len r).
Definition tx_pool_can_accept r (extra_len : Z) : bool :=
  wrap64 (combined_tx_pool_len r + extra_len) <=? TX_POOL_LIMIT.
Definition append_to_tx_pool r (transactions : gmap string Transaction) : ComputeRaft M :=
  r <| local_tx_pool ::= λ p, map_append p transactions |>.
Definition append_to_tx_druid_pool r (transactions : gmap string Transaction) : ComputeRaft M :=
  r <| local_tx_druid_pool ::= λ l, l ++ [transactions] |>.

Definition saturating_sub (a b : Z) : Z := Z.max 0 (a - b).

Definition propose_local_transactions_at_timeout r : outcome (ComputeRaft M) :=
  let max_add := saturating_sub (proposed_and_consensused_tx_pool_len_max r)
                   (proposed_and_consensused_tx_pool_len r) in
  let max_propose_len := Z.min max_add (proposed_tx_pool_len_max r) in
  let '(txs, rest) := take_first_n (Z.to_nat max_propose_len) (local_tx_pool r) in
  let r := r <| local_tx_pool := rest |> in
  if decide (txs = ∅) then Ret r
  else
    let r := r <| proposed_tx_pool_len ::= λ n, wrap64 (n + zsize txs) |> in
    let! x := cr_propose_item r (ItemTransactions txs) in
    Ret x.2.

Definition propose_local_druid_transactions r : outcome (ComputeRaft M) :=
  let txs := local_tx_druid_pool r in
  let r := r <| local_tx_druid_pool := [] |> in
  match txs with
  | [] => Ret r
  | _ => let! x := cr_propose_item r (ItemDruidTransactions txs) in Ret x.2
  end.

Definition cr_re_propose_uncommitted_current_b_num r : ComputeRaft M :=
  match current_block_num (block_pipeline (consensused r)) with
  | Some n => r <| raft_active ::= λ ra, re_propose_uncommitted_current_b_num (in_flight r) ra n |>
  | None => r
  end.

Definition take_local_tx_hash_last_commited r : list string * ComputeRaft M :=
  (local_tx_hash_last_commited r, r <| local_tx_hash_last_commited := [] |>).
Definition cr_take_mining_block r : option (Block * gmap string Transaction) * ComputeRaft M :=
  let '(b, c) := cc_take_mining_block (consensused r) in (b, r <| consensused := c |>).
Definition get_current_block_num r : Z :=
  match current_block (block_pipeline (consensused r)) with Some b => b_num (header b) | None => 0 end.

(** *** Settings and queries for the node *)
Definition get_mining_block r : option Block := current_block (block_pipeline (consensused r)).
Definition get_mining_pipeline_status r : MiningPipelineStatus := mining_pipeline_status (block_pipeline (consensused r)).
Definition cr_get_mining_participants r : Participants :=
  get_mining_participants (block_pipeline (consensused r)) (peer_id (raft_active r)).
Definition get_winning_miner r : option (SocketAddr * WinningPoWInfo) := winning_pow (block_pipeline (consensused r)).
Definition get_current_unicorn r : UnicornInfo := unicorn_info (block_pipeline (consensused r)).
Definition get_current_reward r : TokenAmount := current_reward (block_pipeline (consensused r)).
Definition get_committed_utxo_set r : UtxoSet := base (utxo_set (consensused r)).
Definition get_committed_current_block_num r : option Z := current_block_num (block_pipeline (consensused r)).
Definition get_mining_api_key_entry r (address : SocketAddr) : option string := mining_api_keys (consensused r) !! address.
Definition cr_is_shutdown_commit_processed r : bool := shutdown_no_commit_process r.
Definition cr_next_msg (msg_to : M → Z) r : outcome (option (SocketAddr * M * ComputeRaft M)) :=
  let! x := next_msg msg_to (raft_active r) in
  Ret ('(addr, msg, ra) ← x; Some (addr, msg, r <| raft_active := ra |>)).

Definition update_mining_event_timeout_duration r (ms : Z) : ComputeRaft M := r <| mining_event_timeout_duration := ms |>.
Definition cr_update_partition_full_size r (n : Z) : ComputeRaft M :=
  r <| consensused ::= λ c, update_partition_full_size c n |>.
Definition update_compute_miner_whitelist_active r (b : bool) : ComputeRaft M :=
  r <| consensused ::= λ c, update_miner_whitelist_active c b |>.
Definition update_compute_miner_whitelist_api_keys r (k : option (gset string)) : ComputeRaft M :=
  r <| consensused ::= λ c, update_miner_whitelist_api_keys c k |>.
Definition update_compute_miner_whitelist_addresses r (a : option (gset SocketAddr)) : ComputeRaft M :=
  r <| consensused ::= λ c, update_miner_whitelist_addresses c a |>.

(** *** Snapshots *)
Definition set_ignore_dedeup_b_num_less_than_current r : outcome (ComputeRaft M) :=
  let! n := unwrap (current_block_num (block_pipeline (consensused r))) in
  Ret (r <| in_flight ::= λ p, ignore_dedeup_b_num_less_than p n |>).

Definition cr_need_backup r : outcome bool :=
  match current_block_num (block_pipeline (consensused r)) with
  | Some n => need_backup (backup_check r) n
  | None => Ret false
  end.

Definition need_utxo_re_alignment r (b_num : Z) : outcome bool :=
  let! check := need_check (utxo_re_align_check r) b_num in
  if check then
    let base_count := get_base_outpoint_count (utxo_set (consensused r)) in
    let tracked_count := get_tracked_outpoint_count (utxo_set (consensused r)) in
    Ret (negb (base_count =? tracked_count))
  else Ret false.

Definition event_processed_re_align_utxo_set r (b_num : Z) : outcome (ComputeRaft M) :=
  let! b := need_utxo_re_alignment r b_num in
  Ret (if b then r <| consensused ::= re_align_utxo_set |> else r).

Definition event_processed_generate_snapshot r : outcome (ComputeRaft M) :=
  let! r := set_ignore_dedeup_b_num_less_than_current r in
  let consensused_ser := serialize (consensused r) in
  let snapshot_idx := (last_committed_raft_idx_and_term (consensused r)).1 in
  let! backup := cr_need_backup r in
  let r := r <| raft_active ::= λ ra, create_snapshot ra snapshot_idx consensused_ser backup |> in
  Ret (if is_shutdown_on_commit r then r <| shutdown_no_commit_process := true |> else r).

Definition apply_snapshot r (consensused_ser : list Z) : outcome (option CommittedItem * ComputeRaft M) :=
  let r := r <| consensused_snapshot_applied := true |> in
  match consensused_ser with
  | [] => Ret (None, r)
  | _ =>
      let! c := unwrap (deserialize consensused_ser) in
      let! r := set_ignore_dedeup_b_num_less_than_current (r <| consensused := c |>) in
      Ret (Some CommittedSnapshot,
        match local_initial_proposal r with
        | Some _ => r <| local_initial_proposal := Some PendingAll |>
        | None => r
        end)
  end.

(** *** Processing of the log *)
Definition commit_first_block r (key : RaftContextKey) (utxo : gmap string Transaction) :
    outcome (option CommittedItem * ComputeRaft M) :=
  if negb (is_first_block (consensused r)) then Ret (None, r)
  else
    let r := r <| consensused ::= λ c, append_first_block_info c key utxo |> in
    if has_block_stored_info_ready (consensused r) then
      let! c := apply_ready_block_stored_info (consensused r) in
      let! c := generate_first_block c in
      let! c := cc_start_items_intake c in
      let! r := event_processed_generate_snapshot (r <| consensused := c |>) in
      Ret (Some CommittedFirstBlock, r)
    else Ret (None, r).

Definition commit_block r (key : RaftContextKey) (info : BlockStoredInfo) :
    outcome (option CommittedItem * ComputeRaft M) :=
  let b_num := bs_block_num info in
  if negb (is_current_block (consensused r) (bs_block_num info)) then Ret (None, r)
  else
    let r := r <| consensused ::= λ c, append_block_stored_info c key info |> in
    if has_block_stored_info_ready (consensused r) then
      let! c := apply_ready_block_stored_info (consensused r) in
      let r := r <| consensused := c |> in
      if is_shutdown_on_commit r then
        let! r := event_processed_re_align_utxo_set r b_num in
        let! r := event_processed_generate_snapshot r in
        Ret (Some CommittedBlockShutdown, r)
      else
        let! c := generate_block (consensused r) in
        let! c := cc_start_items_intake c in
        let! r := event_processed_re_align_utxo_set (r <| consensused := c |>) b_num in
        let! r := event_processed_generate_snapshot r in
        Ret (Some CommittedBlock, r)
    else Ret (None, r).

Definition commit_pipeline_item r (key : RaftContextKey) (item : MiningPipelineItem) (b_num : Z) :
    outcome (option CommittedItem * ComputeRaft M) :=
  if negb (is_current_block (consensused r) b_num) then Ret (None, r)
  else
    let! x := cc_handle_mining_pipeline_item (consensused r) item key in
    let r := r <| consensused := x.2 |> in
    match x.1 with
    | Some StartPhasePowIntake => Ret (Some (CommittedItem_from StartPhasePowIntake), r)
    | Some StartPhaseHalted => Ret (Some (CommittedItem_from StartPhaseHalted), r)
    | Some Reset =>
        let keys := proposed_keys (block_pipeline (consensused r)) in
        let r := r <| in_flight ::= λ p, remove_all_keys p keys |> in
        Ret (Some (CommittedItem_from Reset), clear_block_pipeline_proposed_keys r)
    | None => Ret (None, r)
    end.

Definition commit_coordinated_cmd r (key : RaftContextKey) (cmd : CoordinatedCommand) :
    option CommittedItem * ComputeRaft M :=
  let r := r <| consensused ::= λ c, append_current_coordinated_raft_cmd_stored_info c key cmd |> in
  if has_coordinated_raft_cmd_info_ready (consensused r) then
    let '(command, c) := take_ready_coordinated_raft_cmd (consensused r) in
    (Some (CommittedCoordinatedCmd command), r <| consensused := c |>)
  else (None, r).

(** The match on the committed item. *)
Definition commit_item r (key : RaftContextKey) (item : ComputeRaftItem) :
    outcome (option CommittedItem * ComputeRaft M) :=
  match item with
  | ItemFirstBlock utxo => commit_first_block r key utxo
  | ItemTransactions txs =>
      Ret (Some CommittedTransactions,
        r <| local_tx_hash_last_commited := bt_keys txs |>
          <| consensused ::= λ c, c <| tx_pool ::= λ p, map_append p txs |> |>)
  | ItemDruidTransactions txs =>
      Ret (Some CommittedTransactions, r <| consensused ::= λ c, c <| tx_druid_pool ::= λ l, l ++ txs |> |>)
  | ItemBlockStored info => commit_block r key info
  | ItemPipeline item b_num => commit_pipeline_item r key item b_num
  | ItemCoordinatedCmd cmd => Ret (commit_coordinated_cmd r key cmd)
  | ItemRuntimeData item => Ret (None, r <| consensused ::= λ c, handle_runtime_item c item |>)
  end.

Definition cr_received_commit_proposal r (raft_data raft_ctx : list Z) :
    outcome (option CommittedItem * ComputeRaft M) :=
  let '(committed, p) := received_commit_proposal (Item := ComputeRaftItem) (in_flight r) raft_data raft_ctx in
  let r := r <| in_flight := p |> in
  match committed with
  | None => Ret (None, r)
  | Some (key, item, removed) =>
      let r := match removed, item with
               | true, ItemTransactions txs => r <| proposed_tx_pool_len ::= λ n, wrap64 (n - zsize txs) |>
               | _, _ => r
               end in
      commit_item r key item
  end.

Definition received_commit r (commit : RaftCommit) : outcome (option CommittedItem * ComputeRaft M) :=
  let r := r <| consensused ::= λ c, c <| last_committed_raft_idx_and_term := (index commit, term commit) |> |> in
  match commit_data commit with
  | Proposed data context => cr_received_commit_proposal r data context
  | Snapshot data => apply_snapshot r data
  | NewLeader => Ret (None, r <| raft_active ::= λ ra, re_propose_all_items (in_flight r) ra |>)
  end.
End compute_raft.

(** ** Replication

    Nodes that process the same log agree on the consensused state, whatever
    they proposed themselves.  Proposing writes the node's own keys into that
    state, so agreement is up to them.  The other writes that do not come from
    the log (settings, [take_mining_block], and [flush_stale_miners], see
    [flush_stale_diverges]) are not part of the statement. *)

(** Both computations panic, or both return related results. *)
Definition orel {A B : Type} (R : A → B → Prop) (m1 : outcome A) (m2 : outcome B) : Prop :=
  match m1, m2 with Ret a, Ret b => R a b | Panic, Panic => True | _, _ => False end.

Lemma orel_bind {A B A' B' : Type} (R : A → B → Prop) (R' : A' → B' → Prop) m1 m2 k1 k2 :
  orel R m1 m2 → (∀ a b, R a b → orel R' (k1 a) (k2 b)) → orel R' (obind m1 k1) (obind m2 k2).
Proof. destruct m1, m2; cbn; try done. auto. Qed.

Definition pk (k : gset RaftContextKey) (p : MiningPipelineInfo) : MiningPipelineInfo :=
  p <| proposed_keys := k |>.
Definition ck (k : gset RaftContextKey) (c : ComputeConsensused) : ComputeConsensused :=
  c <| block_pipeline ::= pk k |>.
Definition rpk (k : gset RaftContextKey) : relation MiningPipelineInfo := λ p1 p2, p2 = pk k p1.
Definition rck (k : gset RaftContextKey) : relation ComputeConsensused := λ c1 c2, c2 = ck k c1.

Section keys.
Context `{Naom, Rug, Hex, KeccakPrime}.
Context `{Bincode (list string), Bincode (list SocketAddr), Bincode (gset string), Bincode (option Z)}.
Context `{Bincode AccumulatingBlockStoredInfo}.
Context (k : gset RaftContextKey).
Implicit Types (p : MiningPipelineInfo) (c : ComputeConsensused).

Lemma pk_intake p item pid : intake_item (pk k p) item pid = pk k (intake_item p item pid).
Proof.
  unfold intake_item, add_to_winning_pow.
  change (mining_pipeline_status (pk k p)) with (mining_pipeline_status p).
  change (get_mining_participants (pk k p)) with (get_mining_participants p).
  destruct item as [a []| | | |], (mining_pipeline_status p); try reflexivity.
  by destruct (negb _).
Qed.

Lemma pk_select p n : orel (rpk k) (unicorn_select_participants_mining p n) (unicorn_select_participants_mining (pk k p) n).
Proof.
  unfold unicorn_select_participants_mining. cbv zeta.
  change (participants_intake (pk k p)) with (participants_intake p).
  change (select_participants (pk k p <| participants_intake := ∅ |>)) with
    (select_participants (p <| participants_intake := ∅ |>)).
  destruct (ofold _ _ _); [reflexivity|done].
Qed.

Lemma pk_start p extra : orel (rpk k) (start_items_intake p extra) (start_items_intake (pk k p) extra).
Proof.
  unfold start_items_intake. change (participants_intake (pk k p)) with (participants_intake p).
  apply (orel_bind (rpk k)); [|intros p1 p2 ->; reflexivity].
  case_decide; [reflexivity|]. apply (orel_bind (rpk k)); [apply pk_select|]. intros p1 p2 ->. reflexivity.
Qed.

Lemma pk_halted p : orel (rpk k) (start_winning_pow_halted p) (start_winning_pow_halted (pk k p)).
Proof.
  unfold start_winning_pow_halted. cbv zeta.
  apply (orel_bind eq); [|intros w1 w2 ->; reflexivity].
  change (all_winning_pow (pk k p)) with (all_winning_pow p).
  match goal with |- orel _ ?a ?b => change b with a; by destruct a end.
Qed.

Lemma pk_handle p item extra :
  orel (λ x1 x2, x1.1 = x2.1 ∧ x2.2 = pk k x1.2)
    (handle_mining_pipeline_item p item extra) (handle_mining_pipeline_item (pk k p) item extra).
Proof.
  unfold handle_mining_pipeline_item. cbv zeta. rewrite pk_intake.
  change (mining_pipeline_status (pk k p)) with (mining_pipeline_status p).
  set (s1 := intake_item p item _).
  change (has_ready_reset_pipeline (pk k s1)) with (has_ready_reset_pipeline s1).
  change (has_ready_select_participating_miners (pk k s1)) with (has_ready_select_participating_miners s1).
  change (has_ready_select_winning_miner (pk k s1)) with (has_ready_select_winning_miner s1).
  destruct (has_ready_reset_pipeline _ _).
  { unfold handle_reset_pipeline. apply (orel_bind (rpk k)); [|by intros p1 p2 ->].
    match goal with |- orel _ (start_items_intake ?a _) _ => apply (pk_start a) end. }
  destruct (mining_pipeline_status p); [done|..].
  - destruct (has_ready_select_participating_miners _ _); [|done].
    apply (orel_bind (rpk k)); [apply pk_start|by intros p1 p2 ->].
  - destruct (has_ready_select_winning_miner _ _); [|done].
    apply (orel_bind (rpk k)); [apply pk_halted|by intros p1 p2 ->].
Qed.

Lemma pk_construct p : orel (rpk k) (pipeline_construct_unicorn p) (pipeline_construct_unicorn (pk k p)).
Proof.
  unfold pipeline_construct_unicorn. change (current_block (pk k p)) with (current_block p).
  apply (orel_bind eq); [by destruct (current_block p)|]. intros b _ <-.
  change (participants_mining (pk k p)) with (participants_mining p).
  change (last_winning_hashes (pk k p)) with (last_winning_hashes p).
  change (unicorn_fixed_param (pk k p)) with (unicorn_fixed_param p). cbv zeta.
  apply (orel_bind eq); [by destruct (construct_seed _ _ _)|]. intros sd _ <-.
  apply (orel_bind eq); [by destruct (Unicorn.construct_unicorn _ _)|]. intros u _ <-. reflexivity.
Qed.

Lemma ck_intake c : orel (rck k) (cc_start_items_intake c) (cc_start_items_intake (ck k c)).
Proof.
  unfold cc_start_items_intake. apply (orel_bind (rpk k)); [apply pk_construct|]. intros p1 p2 ->.
  apply (orel_bind (rpk k)); [apply pk_start|]. by intros p3 p4 ->.
Qed.

Lemma ck_handle c item key :
  orel (λ x1 x2, x1.1 = x2.1 ∧ x2.2 = ck k x1.2)
    (cc_handle_mining_pipeline_item c item key) (cc_handle_mining_pipeline_item (ck k c) item key).
Proof.
  unfold cc_handle_mining_pipeline_item.
  eapply orel_bind; [apply pk_handle|]. by intros [o1 p1] [o2 p2] [[= ->] [= ->]].
Qed.

(** *** Block generation *)
Definition gk (g : gen_state) : gen_state := (ck k g.1.1, g.1.2, g.2).

Lemma gk_given g txs :
  update_current_block_tx_with_given_valid_txs (gk g) txs = gk (update_current_block_tx_with_given_valid_txs g txs).
Proof.
  destruct g as [[c b] bt]. unfold gk. cbn [fst snd update_current_block_tx_with_given_valid_txs].
  f_equal. f_equal. generalize (get_inputs_previous_out_point (bt_values txs)). intros l.
  revert c. induction l as [|o l IH]; intros c; cbn [foldl]; [done|].
  rewrite <-IH. reflexivity.
Qed.

Lemma gk_dde g : update_committed_dde_tx (gk g) = gk (update_committed_dde_tx g).
Proof.
  destruct g as [[c b] bt]. unfold update_committed_dde_tx, gk at 1. cbn [fst snd].
  change (tx_druid_pool (ck k c)) with (tx_druid_pool c).
  change (ck k c <| tx_druid_pool := [] |>, b, bt) with (gk (c <| tx_druid_pool := [] |>, b, bt)).
  generalize (tx_druid_pool c). intros l.
  generalize ((c <| tx_druid_pool := [] |>, b, bt) : gen_state). intros g. revert g.
  induction l as [|txs l IH]; intros g; cbn [foldl]; [done|].
  change (find_invalid_new_txs (gk g).1.1 txs) with (find_invalid_new_txs g.1.1 txs).
  destruct (find_invalid_new_txs g.1.1 txs); [rewrite gk_given|]; apply IH.
Qed.

Lemma gk_current g : update_current_block_tx (gk g) = gk (update_current_block_tx g).
Proof.
  destruct g as [[c b] bt]. unfold update_current_block_tx, gk at 1. cbn [fst snd].
  change (tx_pool (ck k c)) with (tx_pool c).
  change (find_invalid_new_txs (ck k c) (tx_pool c)) with (find_invalid_new_txs c (tx_pool c)).
  set (pool := foldl _ _ _).
  change (tx_pool (ck k c <| tx_pool := pool |>)) with pool.
  change (tx_pool (c <| tx_pool := pool |>)) with pool.
  destruct (take_first_n _ pool) as [txs rest].
  rewrite <-gk_given. reflexivity.
Qed.

Lemma ck_generate c : orel (rck k) (generate_block c) (generate_block (ck k c)).
Proof.
  unfold generate_block. change (ck k c, Block_new, ∅) with (gk (c, Block_new, ∅)).
  rewrite gk_dde, gk_current.
  destruct (update_current_block_tx _) as [[c1 b1] bt1]. unfold gk. cbn [fst snd].
  apply (orel_bind (λ x1 x2, x2 = (ck k x1.1, x1.2))).
  - unfold update_block_header.
    change (tx_current_block_previous_hash (ck k c1)) with (tx_current_block_previous_hash c1).
    destruct (tx_current_block_previous_hash c1); [|done]. cbn [unwrap obind]. cbv zeta.
    change (current_block_num (block_pipeline (ck k c1 <| tx_current_block_previous_hash := None |>))) with
      (current_block_num (block_pipeline (c1 <| tx_current_block_previous_hash := None |>))).
    by destruct (current_block_num _).
  - intros [c2 b2] _ ->. reflexivity.
Qed.

Lemma ck_generate_first c : orel (rck k) (generate_first_block c) (generate_first_block (ck k c)).
Proof.
  unfold generate_first_block. change (initial_utxo_txs (ck k c)) with (initial_utxo_txs c).
  by destruct (initial_utxo_txs c).
Qed.

Lemma ck_apply c : orel (rck k) (apply_ready_block_stored_info c) (apply_ready_block_stored_info (ck k c)).
Proof.
  unfold apply_ready_block_stored_info, take_ready_block_stored_info. cbv zeta.
  change (current_block_stored_info (ck k c)) with (current_block_stored_info c).
  destruct (max_by_key _ _) as [[info votes]|]; [|done]. cbn [unwrap obind fst].
  destruct info as [utxo|info].
  - cbn. by destruct (_ =? 0).
  - cbn [obind]. change (special_handling (ck k c <| current_block_stored_info := ∅ |>)) with
      (special_handling (c <| current_block_stored_info := ∅ |>)).
    destruct (bool_decide _ && _); [reflexivity|]. cbn. by destruct (_ =? 0).
Qed.
End keys.

Section replicated.
Context `{Naom, Rug, Hex, KeccakPrime}.
Context `{Bincode (list string), Bincode (list SocketAddr), Bincode (gset string), Bincode (option Z)}.
Context `{Bincode RaftContextKey, Bincode AccumulatingBlockStoredInfo, Bincode ComputeRaftItem,
  Bincode ComputeConsensused}.
Context {M : Type}.
Implicit Types r : ComputeRaft M.

(** The nodes have the same consensused state, up to their own proposed keys,
    and the same periodic checks configured. *)
Definition agree : relation (ComputeRaft M) := λ r1 r2,
  (∃ k, consensused r2 = ck k (consensused r1)) ∧
  backup_check r2 = backup_check r1 ∧ utxo_re_align_check r2 = utxo_re_align_check r1.
Definition agree_result (x1 x2 : option CommittedItem * ComputeRaft M) : Prop :=
  x1.1 = x2.1 ∧ agree x1.2 x2.2.

(** Writing an agreed consensused state keeps the agreement. *)
Lemma agree_consensused r1 r2 k c1 c2 : agree r1 r2 → c2 = ck k c1 →
  agree (r1 <| consensused := c1 |>) (r2 <| consensused := c2 |>).
Proof. intros (_ & ? & ?) ->. split; [by exists k|done]. Qed.

(** A result computed from the consensused state alone. *)
Lemma agree_bind r1 r2 (f : ComputeConsensused → outcome ComputeConsensused)
    (g1 g2 : ComputeConsensused → outcome (option CommittedItem * ComputeRaft M)) c1 c2 k :
  c2 = ck k c1 → orel (rck k) (f c1) (f (ck k c1)) →
  (∀ c, orel agree_result (g1 c) (g2 (ck k c))) →
  orel agree_result (obind (f c1) g1) (obind (f c2) g2).
Proof. intros -> Hf Hg. apply (orel_bind (rck k)); [done|]. intros c _ ->. apply Hg. Qed.

Lemma agree_snapshot r1 r2 : agree r1 r2 →
  orel agree (event_processed_generate_snapshot r1) (event_processed_generate_snapshot r2).
Proof.
  intros ([k Hk] & Hb & Ha).
  unfold event_processed_generate_snapshot, set_ignore_dedeup_b_num_less_than_current.
  rewrite Hk. change (current_block_num (block_pipeline (ck k (consensused r1)))) with
    (current_block_num (block_pipeline (consensused r1))).
  destruct (current_block_num _) as [n|] eqn:En; [|done]. cbn [unwrap obind].
  apply (orel_bind eq).
  - unfold cr_need_backup. cbn. rewrite Hk, Hb.
    change (current_block_num (block_pipeline (ck k (consensused r1)))) with
      (current_block_num (block_pipeline (consensused r1))).
    rewrite En. by destruct (need_backup _ _).
  - intros b _ <-. cbn. destruct (is_shutdown_on_commit _), (is_shutdown_on_commit _);
      (split; [exists k; done|done]).
Qed.

Lemma agree_re_align r1 r2 b : agree r1 r2 →
  orel agree (event_processed_re_align_utxo_set r1 b) (event_processed_re_align_utxo_set r2 b).
Proof.
  intros ([k Hk] & Hb & Ha). unfold event_processed_re_align_utxo_set. apply (orel_bind eq).
  - unfold need_utxo_re_alignment. rewrite Ha, Hk.
    change (utxo_set (ck k (consensused r1))) with (utxo_set (consensused r1)).
    destruct (need_check _ _) as [[]|]; done.
  - intros [] _ <-; cbn; (split; [|done]); exists k; [|done]. cbn. by rewrite Hk.
Qed.

Lemma agree_first_block r1 r2 key utxo : agree r1 r2 →
  orel agree_result (commit_first_block r1 key utxo) (commit_first_block r2 key utxo).
Proof.
  intros Hag. pose proof Hag as ([k Hk] & _). unfold commit_first_block. rewrite Hk.
  change (is_first_block (ck k (consensused r1))) with (is_first_block (consensused r1)).
  destruct (negb _); [done|]. cbn. rewrite Hk.
  change (append_first_block_info (ck k (consensused r1)) key utxo) with
    (ck k (append_first_block_info (consensused r1) key utxo)).
  set (c := append_first_block_info (consensused r1) key utxo).
  change (has_block_stored_info_ready (ck k c)) with (has_block_stored_info_ready c).
  destruct (has_block_stored_info_ready c).
  2:{ split; [done|]. destruct Hag as (_ & ? & ?). split; [exists k; cbn; by rewrite ?Hk|done]. }
  eapply (agree_bind r1 r2); [reflexivity|apply ck_apply|]. intros c1.
  eapply (agree_bind r1 r2); [reflexivity|apply ck_generate_first|]. intros c2.
  eapply (agree_bind r1 r2); [reflexivity|apply ck_intake|]. intros c3.
  apply (orel_bind agree); [|done]. apply agree_snapshot.
  apply (agree_consensused _ _ k); [|done]. destruct Hag as (_ & ? & ?).
  split; [exists k; cbn; by rewrite ?Hk|done].
Qed.

Lemma agree_block r1 r2 key info : agree r1 r2 →
  orel agree_result (commit_block r1 key info) (commit_block r2 key info).
Proof.
  intros Hag. pose proof Hag as ([k Hk] & Hb & Ha). unfold commit_block. rewrite Hk.
  change (is_current_block (ck k (consensused r1))) with (is_current_block (consensused r1)).
  destruct (negb _); [done|]. cbn. rewrite Hk.
  change (append_block_stored_info (ck k (consensused r1)) key info) with
    (ck k (append_block_stored_info (consensused r1) key info)).
  set (c := append_block_stored_info (consensused r1) key info).
  change (has_block_stored_info_ready (ck k c)) with (has_block_stored_info_ready c).
  destruct (has_block_stored_info_ready c).
  2:{ split; [done|]. split; [exists k; cbn; by rewrite ?Hk|done]. }
  eapply (agree_bind r1 r2); [reflexivity|apply ck_apply|]. intros c1.
  unfold is_shutdown_on_commit. cbn [consensused setter].
  change (special_handling (ck k c1)) with (special_handling c1).
  destruct (bool_decide _).
  - apply (orel_bind agree).
    + apply agree_re_align. split; [exists k; done|done].
    + intros r1' r2' Hag'. apply (orel_bind agree); [by apply agree_snapshot|done].
  - eapply (agree_bind r1 r2 generate_block); [reflexivity|apply ck_generate|]. intros c2.
    eapply (agree_bind r1 r2); [reflexivity|apply ck_intake|]. intros c3.
    apply (orel_bind agree).
    + apply agree_re_align. split; [exists k; done|done].
    + intros r1' r2' Hag'. apply (orel_bind agree); [by apply agree_snapshot|done].
Qed.

Lemma agree_pipeline r1 r2 key item b : agree r1 r2 →
  orel agree_result (commit_pipeline_item r1 key item b) (commit_pipeline_item r2 key item b).
Proof.
  intros Hag. pose proof Hag as ([k Hk] & Hb & Ha). unfold commit_pipeline_item. rewrite Hk.
  change (is_current_block (ck k (consensused r1))) with (is_current_block (consensused r1)).
  destruct (negb _); [done|]. eapply orel_bind; [apply ck_handle|].
  intros [o1 c1] [o2 c2] [[= <-] [= ->]].
  destruct o1 as [[]|]; cbn; (split; [done|]); (split; [|done]); by eexists.
Qed.

Lemma agree_item r1 r2 key item : agree r1 r2 →
  orel agree_result (commit_item r1 key item) (commit_item r2 key item).
Proof.
  intros Hag. pose proof Hag as ([k Hk] & Hb & Ha). destruct item; cbn [commit_item].
  - by apply agree_first_block.
  - by apply agree_block.
  - split; [done|]. split; [exists k; cbn; by rewrite Hk|done].
  - split; [done|]. split; [exists k; cbn; by rewrite Hk|done].
  - by apply agree_pipeline.
  - unfold commit_coordinated_cmd. cbn. rewrite Hk.
    change (append_current_coordinated_raft_cmd_stored_info (ck k (consensused r1)) key cmd) with
      (ck k (append_current_coordinated_raft_cmd_stored_info (consensused r1) key cmd)).
    set (c := append_current_coordinated_raft_cmd_stored_info (consensused r1) key cmd).
    change (has_coordinated_raft_cmd_info_ready (ck k c)) with (has_coordinated_raft_cmd_info_ready c).
    destruct (has_coordinated_raft_cmd_info_ready c); cbn; (split; [done|]); (split; [|done]);
      exists k; cbn; by rewrite ?Hk.
  - split; [done|]. split; [exists k; cbn; rewrite Hk; by destruct item|done].
Qed.

(** C1: nodes that agree on the consensused state and process the same commit
    agree afterwards and report the same committed item, whatever they have
    proposed, pooled or sent themselves (and one panics only if the other
    does). *)
Theorem received_commit_replicated r1 r2 (commit : RaftCommit) :
  agree r1 r2 → orel agree_result (received_commit r1 commit) (received_commit r2 commit).
Proof.
  intros ([k Hk] & Hb & Ha). unfold received_commit. cbv zeta.
  set (s1 := r1 <| consensused ::= _ |>). set (s2 := r2 <| consensused ::= _ |>).
  assert (Hag : agree s1 s2) by (split; [exists k; cbn; by rewrite Hk|done]).
  destruct (commit_data commit) as [data context|data|].
  - unfold cr_received_commit_proposal, received_commit_proposal.
    destruct (deserialize data) as [item|]; [|done].
    destruct (deserialize context) as [key|]; [|done]. cbv zeta. apply agree_item.
    destruct Hag as ([k' Hk'] & ? & ?).
    destruct (bool_decide (is_Some (proposed_in_flight (in_flight s1) !! key))),
      (bool_decide (is_Some (proposed_in_flight (in_flight s2) !! key))), item;
      (split; [by exists k'|done]).
  - unfold apply_snapshot. destruct data as [|z data]; [done|].
    destruct (deserialize (z :: data)) as [c|]; [|done]. cbn [unwrap obind].
    unfold set_ignore_dedeup_b_num_less_than_current. cbn [consensused setter].
    destruct (current_block_num (block_pipeline c)); [|done].
    split; [done|]. split; [|cbn; by destruct (local_initial_proposal _), (local_initial_proposal _)].
    exists (proposed_keys (block_pipeline c)).
    assert (Hc : ∀ r : ComputeRaft M, consensused match local_initial_proposal r with
        | Some _ => r <| local_initial_proposal := Some PendingAll |> | None => r end = consensused r)
      by (intros r; by destruct (local_initial_proposal r)).
    cbn [snd]. rewrite !Hc. by destruct c as [???????????? []].
  - split; [done|exact Hag].
Qed.
End replicated.

(** Dropping miners that could not be reached is not agreed on: a node that
    flushes a miner of its mining participants no longer agrees with the nodes
    it agreed with, and lists other participants in the seed of the next
    unicorn. *)
Theorem flush_stale_diverges {M : Type} (r : ComputeRaft M) pid ps (a : SocketAddr) (l : list SocketAddr) :
  participants_mining (block_pipeline (consensused r)) !! pid = Some ps → a ∈ unsorted ps → a ∈ l →
  ¬ agree r (flush_stale_miners r l) ∧
  (participants_mining (block_pipeline (consensused (flush_stale_miners r l))) !! pid =
     Some (retain_active l ps)) ∧ a ∉ unsorted (retain_active l ps).
Proof.
  intros Hps Ha Hl.
  assert (Hfl : participants_mining (block_pipeline (consensused (flush_stale_miners r l))) !! pid =
    Some (retain_active l ps)) by (cbn; by rewrite lookup_fmap, Hps).
  assert (Hna : a ∉ unsorted (retain_active l ps)) by (cbn; rewrite list_elem_of_filter; naive_solver).
  split_and!; [|done|done]. intros ([k Hk] & _). rewrite Hk in Hfl.
  change (participants_mining (block_pipeline (ck k (consensused r)))) with
    (participants_mining (block_pipeline (consensused r))) in Hfl.
  rewrite Hps in Hfl. simplify_eq. rewrite Hfl in Ha. done.
Qed.

(** ** The transaction pool *)
Section pool.
Context `{Naom, Bincode RaftContextKey, Bincode ComputeRaftItem}.
Context {M : Type}.
Implicit Types r : ComputeRaft M.

(** The counters stay small: no addition of the pool operations wraps. *)
Definition pool_small r : Prop :=
  0 ≤ proposed_tx_pool_len r ∧ 0 ≤ proposed_tx_pool_len_max r ∧
  proposed_tx_pool_len r + zsize (tx_pool (consensused r)) + zsize (local_tx_pool r) < U64_MOD.

Lemma cr_propose_item_fields r item key r' : cr_propose_item r item = Ret (key, r') →
  consensused r' = consensused r ∧ proposed_tx_pool_len r' = proposed_tx_pool_len r ∧
  local_tx_pool r' = local_tx_pool r ∧ local_tx_druid_pool r' = local_tx_druid_pool r.
Proof. by intros (x & _ & (k & _ & [= <- <-])%obind_ret)%obind_ret. Qed.

(** An item is on its way to the log: it was handed to raft under a key of the
    node, and is kept to be proposed again until it is committed. *)
Definition item_proposed r (item : ComputeRaftItem) r' : Prop :=
  ∃ key, proposer_id key = peer_id (raft_active r) ∧
    raft_active r' = propose_data (raft_active r) (serialize item) (serialize key) ∧
    proposed_in_flight (in_flight r') !! key = Some (serialize item, serialize key).

Lemma cr_propose_item_proposed r item key r' : cr_propose_item r item = Ret (key, r') → item_proposed r item r'.
Proof.
  intros ([[k p] ra] & Hp & (k' & Hk%unwrap_ret & [= -> <-])%obind_ret)%obind_ret. cbn in Hk. subst k.
  apply propose_item_some in Hp as (run & dd & _ & _ & -> & -> & _ & _ & _ & Hf & _).
  eexists. split; [|split; [reflexivity|]]; [done|]. cbn. by rewrite Hf, lookup_insert_eq.
Qed.

(** C40: at a time-out the first ones of the local transactions, in key order, are
    proposed as one item and the others are kept; nothing is proposed when there
    are none to propose.  Their number is exact: as many as there are, up to the
    configured number at a time and to the room that the limit leaves beside the
    transactions in flight and in the consensused pool, so that the limit is
    never passed. *)
Theorem propose_transactions_bounded r r' :
  pool_small r → propose_local_transactions_at_timeout r = Ret r' →
  ∃ txs, bt_iter (local_tx_pool r) = bt_iter txs ++ bt_iter (local_tx_pool r') ∧
    (txs ≠ ∅ → item_proposed r (ItemTransactions txs) r') ∧
    (txs = ∅ → r' = r) ∧
    zsize txs = Z.min (zsize (local_tx_pool r)) (Z.min (proposed_tx_pool_len_max r)
      (Z.max 0 (proposed_and_consensused_tx_pool_len_max r - (proposed_tx_pool_len r + zsize (tx_pool (consensused r)))))) ∧
    zsize txs ≤ proposed_tx_pool_len_max r ∧
    proposed_tx_pool_len r' = proposed_tx_pool_len r + zsize txs ∧
    consensused r' = consensused r ∧
    proposed_tx_pool_len r' + zsize (tx_pool (consensused r')) ≤
      Z.max (proposed_and_consensused_tx_pool_len_max r)
        (proposed_tx_pool_len r + zsize (tx_pool (consensused r))) ∧
    (txs ≠ ∅ → local_tx_pool r' ≠ ∅ →
       zsize txs = proposed_tx_pool_len_max r ∨
       proposed_tx_pool_len r' + zsize (tx_pool (consensused r')) = proposed_and_consensused_tx_pool_len_max r).
Proof.
  intros (Hp & Hm & Hs). unfold propose_local_transactions_at_timeout.
  assert (Hnn : ∀ (m : gmap string Transaction), 0 ≤ zsize m) by (intros; unfold zsize; lia).
  pose proof (Hnn (tx_pool (consensused r))) as H1'. pose proof (Hnn (local_tx_pool r)) as H2'.
  unfold proposed_and_consensused_tx_pool_len. rewrite wrap64_id by (split; lia).
  set (lim := Z.min _ _).
  destruct (take_first_n_spec (Z.to_nat lim) (local_tx_pool r)) as [Et Ed].
  destruct (take_first_n (Z.to_nat lim) (local_tx_pool r)) as [txs rest]. cbn [fst snd] in Et, Ed.
  assert (Hlen : zsize txs = Z.min lim (zsize (local_tx_pool r))).
  { unfold zsize. rewrite <-!length_bt_iter, Et, length_take. subst lim. unfold saturating_sub. lia. }
  assert (Hrest : zsize rest = zsize (local_tx_pool r) - zsize txs).
  { unfold zsize. rewrite <-!length_bt_iter, Et, Ed, length_take, length_drop. lia. }
  assert (Hlim : 0 ≤ lim) by (subst lim; unfold saturating_sub; lia).
  intros Hr. exists txs.
  assert (Hr' : local_tx_pool r' = rest ∧ consensused r' = consensused r ∧
    proposed_tx_pool_len r' = proposed_tx_pool_len r + zsize txs ∧
    (txs ≠ ∅ → item_proposed r (ItemTransactions txs) r') ∧ (txs = ∅ → r' = r)).
  { case_decide as E.
    - assert (Hrl : rest = local_tx_pool r).
      { rewrite <-(list_to_map_bt_iter rest), <-(list_to_map_bt_iter (local_tx_pool r)), Ed. f_equal.
        rewrite <-(take_drop (Z.to_nat lim) (bt_iter (local_tx_pool r))) at 2. by rewrite <-Et, E, bt_iter_empty. }
      simplify_eq. cbn. unfold zsize at 1. rewrite map_size_empty. split_and!; [done..|lia|done|]. intros _. by destruct r.
    - apply obind_ret in Hr as ([key r1] & Hr & [= <-]). pose proof (cr_propose_item_proposed _ _ _ _ Hr) as Hprop.
      apply cr_propose_item_fields in Hr as (E1 & E2 & E3 & _). cbn [snd]. rewrite E1, E2, E3. cbn.
      rewrite wrap64_id by (split; pose proof (Hnn txs); lia). split_and!; [done..| |done]. intros _. exact Hprop. }
  destruct Hr' as (-> & -> & -> & Hprop & Hsame). split_and!; try done.
  - by rewrite Et, Ed, take_drop.
  - rewrite Hlen. subst lim. unfold saturating_sub in *. lia.
  - subst lim. lia.
  - subst lim. unfold saturating_sub in *. lia.
  - intros Hne Hrne.
    assert (zsize rest ≠ 0).
    { unfold zsize. intros E. apply Hrne. apply map_size_empty_inv. lia. }
    assert (zsize txs ≠ 0).
    { unfold zsize. intros E. apply Hne. apply map_size_empty_inv. lia. }
    subst lim. unfold saturating_sub in *. lia.
Qed.
End pool.

(** ** Votes on the stored block *)
Section stored_votes.
Context `{Naom, Bincode AccumulatingBlockStoredInfo}.

Definition vote_hash (block : AccumulatingBlockStoredInfo) : list Z := sha3_256 (serialize block).

(** However the votes on a stored block arrive, the votes held for a hash
    are exactly the peers that voted for a block of this hash, each counted
    once, and the block held is the first one of the hash. *)
Theorem block_votes_exact (c : ComputeConsensused) (l : list (RaftContextKey * AccumulatingBlockStoredInfo)) h :
  current_block_stored_info c = ∅ →
  current_block_stored_info (foldl (λ c kb, append_current_block_stored_info c kb.1 kb.2) c l) !! h =
    match filter (λ kb, vote_hash kb.2 = h) l with
    | [] => None
    | (kb :: _) as votes => Some (kb.2, list_to_set (map (λ kb, proposer_id kb.1) votes))
    end.
Proof.
  intros Hc. induction l as [|[key b] l IH] using rev_ind; [cbn; by rewrite Hc|].
  rewrite foldl_snoc. cbn [fst snd]. rewrite filter_app.
  set (c1 := foldl _ c l) in *. unfold append_current_block_stored_info.
  fold (vote_hash b). change (current_block_stored_info (c1 <| current_block_stored_info ::= _ |>))
    with ((λ m : gmap (list Z) (AccumulatingBlockStoredInfo * gset Z),
      let entry := default (b, ∅) (m !! vote_hash b) in
      <[vote_hash b := (entry.1, {[proposer_id key]} ∪ entry.2)]> m) (current_block_stored_info c1)).
  cbv beta zeta. destruct (decide (vote_hash b = h)) as [<-|Hne].
  - rewrite lookup_insert_eq, IH. rewrite (filter_cons_True _ (key, b)) by done. rewrite filter_nil.
    destruct (filter _ l) as [|kb votes]; cbn; [done|].
    f_equal. f_equal. rewrite map_app, list_to_set_app_L. cbn. set_solver.
  - rewrite lookup_insert_ne by done. rewrite IH. rewrite (filter_cons_False _ (key, b)) by done.
    by rewrite filter_nil, app_nil_r.
Qed.
End stored_votes.

(** ** A new block *)
Section new_block.
Context `{Naom, !NaomLaws, Rug, Hex, KeccakPrime}.
Context `{Bincode (list string), Bincode (list SocketAddr), Bincode (gset string), Bincode (option Z)}.
Context `{Bincode RaftContextKey, Bincode AccumulatingBlockStoredInfo, Bincode ComputeRaftItem,
  Bincode ComputeConsensused}.
Context {M : Type}.
Implicit Types r : ComputeRaft M.

Lemma start_items_intake_block c c' block :
  cc_start_items_intake c = Ret c' → current_block (block_pipeline c) = Some block →
  special_handling c' = special_handling c ∧
  current_block_num (block_pipeline c') = current_block_num (block_pipeline c) ∧
  ∃ sv, current_block (block_pipeline c') = Some (block <| header ::= λ h, h <| seed_value := sv |> |>).
Proof.
  intros (p & Hp & (p' & Hp' & [= <-])%obind_ret)%obind_ret Hb. cbn.
  unfold pipeline_construct_unicorn in Hp. rewrite Hb in Hp. cbn in Hp.
  apply obind_ret in Hp as (sd & _ & (u & _ & [= <-])%obind_ret).
  assert (Hn : current_block_num p' = current_block_num (block_pipeline c)).
  { revert Hp'. unfold start_items_intake. case_decide; [by intros [= <-]|].
    by intros (s1 & (s2 & (m & _ & [= <-])%obind_ret & [= <-])%obind_ret & [= <-])%obind_ret. }
  apply start_items_intake_spec in Hp' as (_ & _ & _ & _ & _ & _ & Eb & _).
  rewrite Eb, Hn. split_and!; [done..|]. cbn. eauto.
Qed.

Lemma re_align_fields r b r' : event_processed_re_align_utxo_set r b = Ret r' →
  block_pipeline (consensused r') = block_pipeline (consensused r) ∧
  special_handling (consensused r') = special_handling (consensused r).
Proof. by intros ([] & _ & [= <-])%obind_ret. Qed.

Lemma snapshot_fields r r' : event_processed_generate_snapshot r = Ret r' →
  consensused r' = consensused r ∧
  (special_handling (consensused r) = Some Shutdown → shutdown_no_commit_process r' = true).
Proof.
  intros (r1 & (n & _ & [= <-])%obind_ret & (bk & _ & [= <-])%obind_ret)%obind_ret.
  unfold is_shutdown_on_commit. cbn.
  destruct (bool_decide (special_handling (consensused r) = Some Shutdown)) eqn:E; split; try done.
  by apply bool_decide_eq_false in E.
Qed.

(** C13: a stored block that the log commits leads to a next block only when it
    is for the current block number and a block info has a majority of the
    peers' votes: then the next block has the following number, is linked to
    the stored block's hash, and no shutdown is pending.  If the info is the
    first to ask for a shutdown the node stops processing commits and the
    block number stays; in all other cases no block is generated. *)
Theorem commit_block_majority r key info o r' :
  let c := append_block_stored_info (consensused r) key info in
  (∀ h v, current_block_stored_info c !! h = Some v → ∃ i, v.1 = AccBlock i) →
  1 ≤ cc_unanimous_majority c → 1 ≤ cc_sufficient_majority c →
  commit_block r key info = Ret (o, r') →
  match o with
  | Some CommittedBlock =>
      is_current_block (consensused r) (bs_block_num info) = true ∧
      ∃ i block, applied c (AccBlock i) ∧ special_handling (consensused r') = None ∧
        current_block_num (block_pipeline (consensused r')) = Some (wrap64 (bs_block_num i + 1)) ∧
        current_block (block_pipeline (consensused r')) = Some block ∧
        b_num (header block) = wrap64 (bs_block_num i + 1) ∧
        previous_hash (header block) = Some (bs_block_hash i)
  | Some CommittedBlockShutdown =>
      ∃ i, applied c (AccBlock i) ∧ bs_shutdown i = true ∧
        special_handling (consensused r') = Some Shutdown ∧ shutdown_no_commit_process r' = true ∧
        block_pipeline (consensused r') = block_pipeline (consensused r)
  | Some _ => False
  | None => block_pipeline (consensused r') = block_pipeline (consensused r)
  end.
Proof.
  intros c Hacc Hu Hs. unfold commit_block.
  destruct (is_current_block _ _) eqn:Ecur; cbn [negb]; [|by intros [= <- <-]].
  cbv zeta. change (consensused (r <| consensused ::= λ c, append_block_stored_info c key info |>)) with c.
  destruct (has_block_stored_info_ready c) eqn:Hr; [|by intros [= <- <-]].
  destruct (apply_ready_cases c Hr Hu Hs) as (ai & c1 & Happ & Hap & _ & Hc1). rewrite Hap. cbn [obind].
  pose proof Happ as (h & votes & Hh & _). destruct (Hacc h _ Hh) as [i Ei]. cbn in Ei. subst ai.
  unfold is_shutdown_on_commit. cbn [consensused setter].
  destruct (bool_decide (special_handling c = None) && bs_shutdown i) eqn:Esh.
  - cbv zeta in Hc1. subst c1. rewrite bool_decide_true by done.
    apply andb_true_iff in Esh as [_ Esh].
    intros (r2 & Hr2 & (r3 & Hr3 & [= <- <-])%obind_ret)%obind_ret.
    apply re_align_fields in Hr2 as [Ep Es]. apply snapshot_fields in Hr3 as [E3 Hsd].
    exists i. rewrite E3, Ep, Es. split_and!; try done. apply Hsd. by rewrite Es.
  - cbv zeta in Hc1. destruct Hc1 as (Esp & _ & Eph & _ & Epi). rewrite Esp. rewrite bool_decide_false by done.
    intros (c2 & Hg & (c3 & Hc3 & (r2 & Hr2 & (r3 & Hr3 & [= <- <-])%obind_ret)%obind_ret)%obind_ret)%obind_ret.
    apply re_align_fields in Hr2 as [Ep Es]. apply snapshot_fields in Hr3 as [E3 _].
    assert (Hn : current_block_num (block_pipeline c1) = Some (wrap64 (bs_block_num i + 1))) by (by rewrite Epi).
    destruct (generate_block_ret c1 _ _ Eph Hn) as (_ & _ & block & Hg' & _ & Hbn & Hph).
    change (generate_block c1 = Ret c2) in Hg.
    destruct (generate_block_rest c1 c2 Hg) as [Es2 En2]. rewrite Hg' in Hg. injection Hg as <-.
    match goal with H : cc_start_items_intake ?c = _ |- _ =>
      destruct (start_items_intake_block c c3 block Hc3 eq_refl) as (Es3 & En3 & sv & Eb3) end.
    split; [done|]. eexists i, _. rewrite E3, Ep, Es. cbn [consensused setter].
    rewrite Es3, Es2, En3, En2, Eb3, Hn. split_and!; [done..| |]; cbn; [by rewrite Hbn|by rewrite Hph].
Qed.
End new_block.

(** ** Snapshots *)
Section snapshot.
Context `{Bincode RaftContextKey, Bincode ComputeConsensused}.
Context {M : Type}.

(** A snapshot carries over the whole consensused state but the runtime
    data, which is not serialized: a node that applies a snapshot taken by
    another one has its state, holds no mining API key, waits no longer for an
    initial state, and has to be authorised again before an initial proposal. *)
Theorem snapshot_roundtrip (r1 r2 : ComputeRaft M) :
  deserialize (serialize (consensused r1)) = Some (consensused r1 <| mining_api_keys := ∅ |>) →
  serialize (consensused r1) ≠ [] → is_Some (current_block_num (block_pipeline (consensused r1))) →
  ∃ r2', apply_snapshot r2 (serialize (consensused r1)) = Ret (Some CommittedSnapshot, r2') ∧
    consensused r2' = consensused r1 <| mining_api_keys := ∅ |> ∧
    need_initial_state r2' = false ∧
    local_initial_proposal r2' = (if local_initial_proposal r2 then Some PendingAll else None).
Proof.
  intros Hd Hne [n Hn]. unfold apply_snapshot.
  destruct (serialize (consensused r1)) as [|z l] eqn:E; [done|]. rewrite Hd. cbn [unwrap obind].
  unfold set_ignore_dedeup_b_num_less_than_current. cbn. rewrite Hn. cbn.
  eexists. split; [done|]. destruct (local_initial_proposal r2) eqn:El; cbn; by rewrite ?El.
Qed.
End snapshot.

Module ComputeRaftExamples.
Import TestExternals.
Import RaftUtilExamples.
Import ConsensusedExamples.

#[export] Instance bl_string : Bincode (list string) :=
  {| serialize l := l ≫= string_codes; deserialize _ := None |}.
#[export] Instance bl_addr : Bincode (list SocketAddr) :=
  {| serialize l := l ≫= SocketAddr_code; deserialize _ := None |}.
#[export] Instance bl_set : Bincode (gset string) :=
  {| serialize s := bt_elems s ≫= string_codes; deserialize _ := None |}.
#[export] Instance bl_opt : Bincode (option Z) :=
  {| serialize o := option_list o; deserialize _ := None |}.
#[export] Instance bl_acc : Bincode AccumulatingBlockStoredInfo :=
  {| serialize a := match a with AccFirstBlock _ => [0] | AccBlock i => [1; bs_block_num i] end;
     deserialize _ := None |}.
#[export] Instance bl_item : Bincode ComputeRaftItem :=
  {| serialize i := match i with ItemTransactions t => [zsize t] | _ => [] end; deserialize _ := None |}.
#[export] Instance bl_cc : Bincode ComputeConsensused :=
  {| serialize _ := [1]; deserialize _ := Some (c0 <| mining_api_keys := ∅ |>) |}.

Definition fixed7 : UnicornFixedParam := mkUnicornFixedParam "7" 1 1.
Definition c7 : ComputeConsensused :=
  c0 <| block_pipeline ::= λ p, p <| unicorn_fixed_param := fixed7 |> |>
     <| current_block_stored_info := {[sha3_256 [1; 1] := (AccBlock info1, {[2]})]} |>.
Definition r7 : ComputeRaft unit :=
  mkComputeRaft true (mkActiveRaft true 1 [] [] [] [] ∅ [] [] true) c7 true None
    {["x"%string := spend o1; "y"%string := spend o2]} [] []
    (set_key_run RaftInFlightProposals_default 1) 0 1 10 false (mkBackupCheck None) (mkUtxoReAlignCheck None) 0.
Definition key1 : RaftContextKey := mkRaftContextKey 1 1 1.

(** The second vote of three: the next block is generated. *)
Example block2 :
  match commit_block r7 key1 info1 with
  | Ret (o, r) => (o, b_num ∘ header <$> current_block (block_pipeline (consensused r)),
                   transactions <$> current_block (block_pipeline (consensused r)))
  | Panic => (None, None, None)
  end = (Some CommittedBlock, Some 2, Some ["d1"%string; "t1"%string]).
Proof. vm_compute. reflexivity. Qed.

Definition r7_end : ComputeRaft unit :=
  match commit_block r7 key1 info1 with Ret (_, r) => r | Panic => r7 end.
Lemma r7_commits : commit_block r7 key1 info1 = Ret (Some CommittedBlock, r7_end).
Proof. vm_compute. reflexivity. Qed.

Lemma r7_stored h v :
  current_block_stored_info (append_block_stored_info (consensused r7) key1 info1) !! h = Some v →
  v = (AccBlock info1, {[1; 2]}).
Proof.
  change (current_block_stored_info (append_block_stored_info (consensused r7) key1 info1)) with
    (<[sha3_256 [1; 1] := (AccBlock info1, {[1]} ∪ {[2]})]>
      ({[sha3_256 [1; 1] := (AccBlock info1, {[2]})]} : gmap (list Z) (AccumulatingBlockStoredInfo * gset Z))).
  rewrite insert_singleton_eq. by intros [_ <-]%lookup_singleton_Some.
Qed.

Lemma commit_block_majority_witness :
  ∃ i block, applied (append_block_stored_info (consensused r7) key1 info1) (AccBlock i) ∧
    current_block (block_pipeline (consensused r7_end)) = Some block ∧
    b_num (header block) = wrap64 (bs_block_num i + 1).
Proof.
  destruct (commit_block_majority r7 key1 info1 (Some CommittedBlock) r7_end) as (_ & i & block & H1 & _ & _ & H2 & H3 & _).
  - intros h v Hv. apply r7_stored in Hv as ->. exists info1. reflexivity.
  - vm_compute. discriminate.
  - vm_compute. discriminate.
  - exact r7_commits.
  - exists i, block. split; [exact H1|]. split; [exact H2|exact H3].
Defined.

Lemma agree_refl (r : ComputeRaft unit) : agree r r.
Proof.
  split; [|done]. exists (proposed_keys (block_pipeline (consensused r))).
  by destruct r as [?? [???????????? []]].
Qed.

Lemma received_commit_replicated_witness :
  orel agree_result (received_commit r7 (mkRaftCommit 1 1 NewLeader)) (received_commit r7 (mkRaftCommit 1 1 NewLeader)).
Proof. apply received_commit_replicated, agree_refl. Defined.

Definition r_mining : ComputeRaft unit :=
  r7 <| consensused ::= λ c, c <| block_pipeline ::= λ p,
    p <| participants_mining := {[1 := mkParticipants [AddrV4 1 1] {[AddrV4 1 1]}]} |> |> |>.
Lemma flush_stale_diverges_witness : ¬ agree r_mining (flush_stale_miners r_mining [AddrV4 1 1]).
Proof.
  apply (flush_stale_diverges r_mining 1 (mkParticipants [AddrV4 1 1] {[AddrV4 1 1]}) (AddrV4 1 1));
    [reflexivity|apply list_elem_of_here|apply list_elem_of_here].
Defined.

Definition r7_proposed : ComputeRaft unit :=
  match propose_local_transactions_at_timeout r7 with Ret r => r | Panic => r7 end.
Lemma propose_transactions_bounded_witness :
  ∃ txs, bt_iter (local_tx_pool r7) = bt_iter txs ++ bt_iter (local_tx_pool r7_proposed) ∧ zsize txs = 1 ∧
    item_proposed r7 (ItemTransactions txs) r7_proposed.
Proof.
  destruct (propose_transactions_bounded r7 r7_proposed) as (txs & H1 & H2 & _ & H3 & _);
    [split; [done|]; split; [done|]; reflexivity|vm_compute; reflexivity|].
  exists txs. split; [exact H1|]. split; [exact H3|]. apply H2. intros ->. discriminate H3.
Defined.

Lemma block_votes_exact_witness :
  current_block_stored_info (foldl (λ c kb, append_current_block_stored_info c kb.1 kb.2) c0
    [(key1, AccBlock info1); (key1, AccBlock info1)]) !! vote_hash (AccBlock info1) =
  Some (AccBlock info1, {[1]}).
Proof.
  rewrite block_votes_exact by reflexivity. vm_compute. reflexivity.
Defined.

Lemma snapshot_roundtrip_witness :
  ∃ r', apply_snapshot r7 [1] = Ret (Some CommittedSnapshot, r') ∧
    consensused r' = c0 <| mining_api_keys := ∅ |>.
Proof.
  destruct (snapshot_roundtrip (r7 <| consensused := c0 |>) r7) as (r' & H1 & H2 & _);
    [reflexivity|discriminate|exists 1; reflexivity|].
  exists r'. split; [exact H1|exact H2].
Defined.
End ComputeRaftExamples.
