(* ===== verification/DbUtils.v ===== *)
(** * The key-value store of [src/db_utils.rs]

    The in-memory variant of [SimpleDb] and its write batches; the file variant
    is rocksdb's.  A missing column panics ([unwrap] on the column map), and the
    [Result] of an in-memory operation is otherwise [Ok], so an operation is an
    [outcome]; [put_cf_checked] and [import_items] report a missing column
    instead. *)
From S2P Require Import Prelude.

Notation bytes := (list Z) (only parsing).
Definition DB_COL_DEFAULT : string := "default".
Definition DB_VERSION_KEY : string := "DbVersionKey".

Record SimpleDb := mkSimpleDb {
  columns : gmap string nat;
  key_values : list (gmap (list Z) (list Z));
}.
#[export] Instance eta_SimpleDb : Eta SimpleDb := λ r, mkSimpleDb (columns r) (key_values r).

(** [SimpleDbError] *)
Inductive SimpleDbError := MissingColumn (cf : string) | ColumnMismatch | VersionMismatch.

Definition column_map (db : SimpleDb) (cf : string) : outcome (nat * gmap (list Z) (list Z)) :=
  let! i := unwrap (columns db !! cf) in
  let! m := unwrap (key_values db !! i) in
  Ret (i, m).

Definition put_cf (db : SimpleDb) (cf : string) (key value : list Z) : outcome SimpleDb :=
  let! im := column_map db cf in
  Ret (db <| key_values ::= λ l, <[im.1 := <[key := value]> im.2]> l |>).

Definition delete_cf (db : SimpleDb) (cf : string) (key : list Z) : outcome SimpleDb :=
  let! im := column_map db cf in
  Ret (db <| key_values ::= λ l, <[im.1 := delete key im.2]> l |>).

Definition get_cf (db : SimpleDb) (cf : string) (key : list Z) : outcome (option (list Z)) :=
  let! im := column_map db cf in Ret (im.2 !! key).

Definition count_cf (db : SimpleDb) (cf : string) : outcome Z :=
  let! im := column_map db cf in Ret (zsize im.2).

Definition iter_cf_clone (db : SimpleDb) (cf : string) : outcome (list (list Z * list Z)) :=
  let! im := column_map db cf in Ret (bt_iter im.2).

Definition open_columns (db : SimpleDb) : list string := bt_keys (columns db).

Definition iter_all_cf_clone (db : SimpleDb) : outcome (list (string * list (list Z * list Z))) :=
  ofold (λ l cf, let! it := iter_cf_clone db cf in Ret (l ++ [(cf, it)])) [] (open_columns db).

Definition upgrade_create_missing_cf (db : SimpleDb) (name : string) : SimpleDb :=
  if bool_decide (is_Some (columns db !! name)) then db
  else mkSimpleDb (<[name := length (key_values db)]> (columns db)) (key_values db ++ [∅]).

(** [take]: an empty database is left behind. *)
Definition db_take (db : SimpleDb) : SimpleDb * SimpleDb := (db, mkSimpleDb ∅ []).

(** ** Write batches *)
Record WriteBatch := mkWriteBatch {
  batch_columns : gmap string nat;
  batch_write : list (nat * list Z * option (list Z));
}.
#[export] Instance eta_WriteBatch : Eta WriteBatch := λ r, mkWriteBatch (batch_columns r) (batch_write r).

Definition batch_writer (db : SimpleDb) : WriteBatch := mkWriteBatch (columns db) [].

Definition put_cf_checked (b : WriteBatch) (cf : string) (key value : list Z) : SimpleDbError + WriteBatch :=
  match batch_columns b !! cf with
  | None => inl (MissingColumn cf)
  | Some i => inr (b <| batch_write ::= λ l, l ++ [(i, key, Some value)] |>)
  end.

Definition batch_put_cf (b : WriteBatch) (cf : string) (key value : list Z) : outcome WriteBatch :=
  match put_cf_checked b cf key value with inl _ => Panic | inr b => Ret b end.

Definition batch_delete_cf (b : WriteBatch) (cf : string) (key : list Z) : outcome WriteBatch :=
  let! i := unwrap (batch_columns b !! cf) in
  Ret (b <| batch_write ::= λ l, l ++ [(i, key, None)] |>).

Definition batch_done (b : WriteBatch) : list (nat * list Z * option (list Z)) := batch_write b.

Definition write_one (kvs : list (gmap (list Z) (list Z))) (e : nat * list Z * option (list Z)) :
    outcome (list (gmap (list Z) (list Z))) :=
  let '(cf, key, action) := e in
  let! m := unwrap (kvs !! cf) in
  match action with
  | Some value => Ret (<[cf := <[key := value]> m]> kvs)
  | None => Ret (<[cf := delete key m]> kvs)
  end.

Definition write (db : SimpleDb) (batch : list (nat * list Z * option (list Z))) : outcome SimpleDb :=
  let! kvs := ofold write_one (key_values db) batch in
  Ret (db <| key_values := kvs |>).

(** [import_items]: the first missing column stops it before anything is written. *)
Fixpoint put_items_checked (b : WriteBatch) (items : list (string * list Z * list Z)) : SimpleDbError + WriteBatch :=
  match items with
  | [] => inr b
  | (cf, key, value) :: items =>
      match put_cf_checked b cf key value with
      | inl e => inl e
      | inr b => put_items_checked b items
      end
  end.

Definition import_items (db : SimpleDb) (items : list (string * list Z * list Z)) :
    outcome ((SimpleDbError + unit) * SimpleDb) :=
  match put_items_checked (batch_writer db) items with
  | inl e => Ret (inl e, db)
  | inr b => let! db := write db (batch_done b) in Ret (inr (), db)
  end.

(** ** Opening *)
Section opening.
Context (NETWORK_VERSION_SERIALIZED : list Z).

Definition with_initial_data (db : SimpleDb) : outcome SimpleDb :=
  let! version := get_cf db DB_COL_DEFAULT (string_codes DB_VERSION_KEY) in
  match version with
  | Some _ => Panic
  | None => put_cf db DB_COL_DEFAULT (string_codes DB_VERSION_KEY) NETWORK_VERSION_SERIALIZED
  end.

Definition check_old_includes_new (old new : list string) : SimpleDbError + unit :=
  if bool_decide ((list_to_set new : gset string) ⊆ list_to_set old) then inr () else inl ColumnMismatch.

Definition new_in_memory (cols : list string) (old_db : option SimpleDb) : outcome (SimpleDbError + SimpleDb) :=
  let key_values := replicate (S (length cols)) ∅ in
  let cols := DB_COL_DEFAULT :: cols in
  match old_db with
  | Some old_db =>
      match check_old_includes_new (bt_keys (columns old_db)) cols with
      | inl e => Ret (inl e)
      | inr _ => Ret (inr old_db)
      end
  | None =>
      let columns := map_extend ∅ (imap (λ i v, (v, i)) cols) in
      let! db := with_initial_data (mkSimpleDb columns key_values) in
      Ret (inr db)
  end.

Definition check_version (db : SimpleDb) (expected : option (list Z)) : outcome (SimpleDbError + unit) :=
  let! version := get_cf db DB_COL_DEFAULT (string_codes DB_VERSION_KEY) in
  Ret (if bool_decide (version = expected) then inr () else inl VersionMismatch).

(** [new_db_with_version] and [new_db] in the in-memory mode. *)
Definition new_db_with_version (cols : list string) (version : option (list Z)) (old_db : option SimpleDb) :
    outcome (SimpleDbError + SimpleDb) :=
  let! r := new_in_memory cols old_db in
  match r with
  | inl e => Ret (inl e)
  | inr db =>
      let! c := check_version db version in
      Ret (match c with inl e => inl e | inr _ => inr db end)
  end.

Definition new_db (cols : list string) (old_db : option SimpleDb) : outcome SimpleDb :=
  let! r := new_db_with_version cols (Some NETWORK_VERSION_SERIALIZED) old_db in
  match r with inl _ => Panic | inr db => Ret db end.
End opening.

(** ** The store as a map of maps *)

(** Distinct columns have distinct, valid indices. *)
Definition db_wf (db : SimpleDb) : Prop :=
  (∀ cf i, columns db !! cf = Some i → (i < length (key_values db))%nat) ∧
  (∀ cf1 cf2 i, columns db !! cf1 = Some i → columns db !! cf2 = Some i → cf1 = cf2).

(** The content of a column; [None] for a column that is not open. *)
Definition content (db : SimpleDb) (cf : string) : option (gmap (list Z) (list Z)) :=
  i ← columns db !! cf; key_values db !! i.

Lemma column_map_content db cf : db_wf db →
  match content db cf with
  | Some m => ∃ i, columns db !! cf = Some i ∧ column_map db cf = Ret (i, m)
  | None => columns db !! cf = None ∧ column_map db cf = Panic
  end.
Proof.
  intros [Hlt _]. unfold content, column_map. destruct (columns db !! cf) as [i|] eqn:E; cbn; [|done].
  destruct (lookup_lt_is_Some_2 _ _ (Hlt cf i E)) as [m ->]. cbn. eauto.
Qed.

Lemma get_cf_content db cf key : db_wf db →
  get_cf db cf key = match content db cf with Some m => Ret (m !! key) | None => Panic end.
Proof.
  intros Hwf. pose proof (column_map_content db cf Hwf) as H. unfold get_cf.
  destruct (content db cf); [by destruct H as (i & _ & ->)|by destruct H as [_ ->]].
Qed.

(** One operation of a batch on the map of maps. *)
Definition op := (string * list Z * option (list Z))%type.
Definition apply_op (c : string → option (gmap (list Z) (list Z))) (o : op) : string → option (gmap (list Z) (list Z)) :=
  λ cf, if decide (cf = o.1.1)
        then (λ m, match o.2 with Some v => <[o.1.2 := v]> m | None => delete o.1.2 m end) <$> c cf
        else c cf.

(** The index and action of an operation, as a batch holds it. *)
Definition entry_of (i : nat) (o : op) : nat * list Z * option (list Z) := (i, o.1.2, o.2).

Lemma write_one_spec db (o : op) i : db_wf db → columns db !! o.1.1 = Some i →
  ∃ kvs, write_one (key_values db) (entry_of i o) = Ret kvs ∧
    let db' := db <| key_values := kvs |> in
    db_wf db' ∧ columns db' = columns db ∧ ∀ cf, content db' cf = apply_op (content db) o cf.
Proof.
  intros [Hlt Hinj] Hi. destruct o as [[cf key] act]. cbn in Hi. unfold write_one, entry_of.
  destruct (lookup_lt_is_Some_2 _ _ (Hlt cf i Hi)) as [m Hm]. cbn [fst snd]. rewrite Hm. cbn [unwrap obind].
  assert (Hg : ∀ m', (∀ cf', content (db <| key_values := <[i := m']> (key_values db) |>) cf' =
      if decide (cf' = cf) then Some m' else content db cf') ∧
      db_wf (db <| key_values := <[i := m']> (key_values db) |>)).
  { intros m'. split.
    - intros cf'. unfold content. cbn. destruct (columns db !! cf') as [j|] eqn:Ej; cbn.
      + case_decide as Ec; [subst; rewrite Hi in Ej; simplify_eq; by apply list_lookup_insert_eq, (Hlt cf)|].
        apply list_lookup_insert_ne. intros ->. apply Ec. by eapply Hinj.
      + case_decide; [simplify_eq|done].
    - split; cbn; [|done]. intros cf' j. rewrite length_insert. apply Hlt. }
  assert (Hc : content db cf = Some m) by (unfold content; by rewrite Hi).
  destruct act as [v|]; eexists; (split; [reflexivity|]); cbn zeta.
  - destruct (Hg (<[key := v]> m)) as [H1 H2]. split_and!; [done|done|]. intros cf'. rewrite H1.
    unfold apply_op. cbn. case_decide; [subst; by rewrite Hc|done].
  - destruct (Hg (delete key m)) as [H1 H2]. split_and!; [done|done|]. intros cf'. rewrite H1.
    unfold apply_op. cbn. case_decide; [subst; by rewrite Hc|done].
Qed.

(** Builds a batch; [Panic] when a column is not open. *)
Definition batch_op (b : WriteBatch) (o : op) : outcome WriteBatch :=
  match o.2 with Some v => batch_put_cf b o.1.1 o.1.2 v | None => batch_delete_cf b o.1.1 o.1.2 end.

Lemma batch_op_ret b o i : batch_columns b !! o.1.1 = Some i →
  batch_op b o = Ret (b <| batch_write ::= λ l, l ++ [entry_of i o] |>).
Proof.
  intros Hi. destruct o as [[cf key] [v|]]; cbn in Hi; unfold batch_op, batch_put_cf, put_cf_checked, batch_delete_cf;
    cbn; by rewrite Hi.
Qed.

(** Writing the entries of a list of operations. *)
Lemma write_entries db (l : list op) es :
  db_wf db → Forall2 (λ o e, ∃ i, columns db !! o.1.1 = Some i ∧ e = entry_of i o) l es →
  ∃ db', write db es = Ret db' ∧ db_wf db' ∧ columns db' = columns db ∧
    ∀ cf, content db' cf = foldl apply_op (content db) l cf.
Proof.
  intros Hwf Hes. unfold write.
  assert (Hg : ∀ db l es, db_wf db → Forall2 (λ o e, ∃ i, columns db !! o.1.1 = Some i ∧ e = entry_of i o) l es →
    ∃ kvs, ofold write_one (key_values db) es = Ret kvs ∧ let db' := db <| key_values := kvs |> in
      db_wf db' ∧ ∀ cf, content db' cf = foldl apply_op (content db) l cf).
  { clear. intros db l es Hwf Hes. revert db Hwf Hes. revert es.
    induction l as [|o l IH]; intros es db Hwf Hes; inversion Hes as [|? e ? es' (i & Hi & ->) Hes' ]; subst.
    - eexists. split; [reflexivity|]. by destruct db.
    - destruct (write_one_spec db o i Hwf Hi) as (kvs & Hw & Hwf' & Hcol & Hc). cbn [ofold]. rewrite Hw. cbn [obind].
      destruct (IH es' (db <| key_values := kvs |>) Hwf') as (kvs' & Hk & Hwf2 & Hc2).
      { eapply Forall2_impl; [exact Hes'|]. cbn. by intros o' e'. }
      exists kvs'. cbn in Hk. split; [exact Hk|]. split; [exact Hwf2|].
      intros cf. cbn in Hc2 |- *. rewrite Hc2. clear -Hc. revert cf.
      assert (Hext : ∀ l c1 c2, (∀ cf, c1 cf = c2 cf) → ∀ cf, foldl apply_op c1 l cf = foldl apply_op c2 l cf).
      { clear. induction l as [|o l IH]; intros c1 c2 Hc cf; cbn; [done|]. apply IH. intros cf'.
        unfold apply_op. by rewrite Hc. }
      by apply Hext. }
  destruct (Hg db l es Hwf Hes) as (kvs & -> & Hwf' & Hc). cbn. eexists. split; [reflexivity|]. done.
Qed.

(** Building a batch for open columns always succeeds. *)
Lemma batch_build db (l : list op) b : Forall (λ o, is_Some (columns db !! o.1.1)) l →
  batch_columns b = columns db →
  ∃ b' es, ofold batch_op b l = Ret b' ∧ batch_columns b' = columns db ∧ batch_write b' = batch_write b ++ es ∧
    Forall2 (λ o e, ∃ i, columns db !! o.1.1 = Some i ∧ e = entry_of i o) l es.
Proof.
  intros Hl. revert b. induction Hl as [|o l [i Hi] _ IH]; intros b Hb; cbn [ofold].
  - exists b, []. rewrite app_nil_r. by split_and!.
  - rewrite (batch_op_ret b o i) by (by rewrite Hb). cbn [obind].
    destruct (IH (b <| batch_write ::= λ l, l ++ [entry_of i o] |>)) as (b' & es & -> & Hc & Hw & Hes); [done|].
    exists b', (entry_of i o :: es). split_and!; [done..| |].
    + rewrite Hw. cbn. by rewrite <-app_assoc.
    + constructor; [eauto|done].
Qed.

(** The whole: build, then write. *)
Lemma batch_spec db (l : list op) : db_wf db → Forall (λ o, is_Some (columns db !! o.1.1)) l →
  ∃ b db', ofold batch_op (batch_writer db) l = Ret b ∧ write db (batch_done b) = Ret db' ∧ db_wf db' ∧
    columns db' = columns db ∧ ∀ cf, content db' cf = foldl apply_op (content db) l cf.
Proof.
  intros Hwf Hl. destruct (batch_build db l (batch_writer db) Hl eq_refl) as (b & es & Hb & _ & Hw & Hes).
  destruct (write_entries db l es Hwf Hes) as (db' & Hd & ?). exists b, db'. split; [done|].
  unfold batch_done. rewrite Hw. done.
Qed.

(** The same operations applied one at a time. *)
Definition db_op (db : SimpleDb) (o : op) : outcome SimpleDb :=
  match o.2 with Some v => put_cf db o.1.1 o.1.2 v | None => delete_cf db o.1.1 o.1.2 end.

Lemma db_op_write db o i : db_wf db → columns db !! o.1.1 = Some i →
  db_op db o = write db [entry_of i o].
Proof.
  intros [Hlt _] Hi. destruct o as [[cf key] act]. cbn in Hi. unfold db_op, put_cf, delete_cf, column_map, write.
  destruct (lookup_lt_is_Some_2 _ _ (Hlt cf i Hi)) as [m Hm]. cbn. rewrite Hi, Hm.
  destruct act; cbn; by rewrite Hm.
Qed.

(** A batch is the sequence of its operations: building it and writing it at
    once gives the store that putting and deleting one at a time gives, and in
    that store a key reads the last value put, if it was not deleted since. *)
Theorem batch_sequential (db : SimpleDb) (l : list op) :
  db_wf db → Forall (λ o, is_Some (columns db !! o.1.1)) l →
  ∃ b db', ofold batch_op (batch_writer db) l = Ret b ∧ write db (batch_done b) = Ret db' ∧
    ofold db_op db l = Ret db' ∧ db_wf db' ∧
    ∀ cf key, get_cf db' cf key =
      match foldl apply_op (content db) l cf with Some m => Ret (m !! key) | None => Panic end.
Proof.
  intros Hwf Hl. destruct (batch_build db l (batch_writer db) Hl eq_refl) as (b & es & Hb & _ & Hw & Hes).
  destruct (write_entries db l es Hwf Hes) as (db' & Hd & Hwf' & _ & Hc).
  exists b, db'. split; [done|]. split; [unfold batch_done; by rewrite Hw|]. split_and!; [|done|].
  - clear b Hb Hw Hl Hwf' Hc. revert db es Hwf Hes Hd.
    induction l as [|o l IH]; intros db es Hwf Hes Hd;
      inversion Hes as [|? e ? es' (i & Hi & ->) Hes']; subst; cbn [ofold].
    + unfold write in Hd. cbn in Hd. by destruct db.
    + rewrite (db_op_write db o i Hwf Hi).
      destruct (write_one_spec db o i Hwf Hi) as (kvs & Hw & Hwf' & Hcol & _).
      unfold write in Hd |- *. cbn [ofold] in Hd |- *. rewrite Hw in Hd |- *. cbn [obind] in Hd |- *.
      apply (IH _ es'); [done| |exact Hd].
      eapply Forall2_impl; [exact Hes'|]. cbn. by intros o' e'.
  - intros cf key. rewrite get_cf_content by done. by rewrite Hc.
Qed.

(** ** One column

    Most components keep their data in a single column: [db_at] is its content,
    [batch_at] the operations a batch has gathered for it. *)
Definition kv_op (m : gmap (list Z) (list Z)) (o : list Z * option (list Z)) : gmap (list Z) (list Z) :=
  match o.2 with Some v => <[o.1 := v]> m | None => delete o.1 m end.
Definition db_at (cf : string) (db : SimpleDb) (m : gmap (list Z) (list Z)) : Prop :=
  db_wf db ∧ content db cf = Some m.
Definition batch_at (cf : string) (db : SimpleDb) (b : WriteBatch) (l : list (list Z * option (list Z))) : Prop :=
  batch_columns b = columns db ∧ ∃ i, columns db !! cf = Some i ∧ batch_write b = map (λ o, (i, o.1, o.2)) l.

Section one_column.
Context (cf : string).
Implicit Types (m : gmap (list Z) (list Z)) (db : SimpleDb).

Lemma db_at_get db m key : db_at cf db m → get_cf db cf key = Ret (m !! key).
Proof. intros [Hwf Hc]. by rewrite get_cf_content, Hc. Qed.

Lemma db_at_column db m : db_at cf db m → ∃ i, columns db !! cf = Some i.
Proof. intros [_ Hc]. unfold content in Hc. destruct (columns db !! cf); [eauto|done]. Qed.

Lemma db_at_fun db m1 m2 : db_at cf db m1 → db_at cf db m2 → m1 = m2.
Proof. intros [_ H1] [_ H2]. by simplify_eq. Qed.

Lemma batch_at_writer db m : db_at cf db m → batch_at cf db (batch_writer db) [].
Proof. intros Hm. split; [done|]. destruct (db_at_column _ _ Hm) as [i Hi]. by exists i. Qed.

Lemma batch_at_put db b l key v : batch_at cf db b l →
  ∃ b', batch_put_cf b cf key v = Ret b' ∧ batch_at cf db b' (l ++ [(key, Some v)]).
Proof.
  intros (Hc & i & Hi & Hw). unfold batch_put_cf, put_cf_checked. rewrite Hc, Hi.
  eexists. split; [reflexivity|]. split; [done|]. exists i. split; [done|]. cbn. by rewrite Hw, map_app.
Qed.

Lemma batch_at_delete db b l key : batch_at cf db b l →
  ∃ b', batch_delete_cf b cf key = Ret b' ∧ batch_at cf db b' (l ++ [(key, None)]).
Proof.
  intros (Hc & i & Hi & Hw). unfold batch_delete_cf. rewrite Hc, Hi.
  eexists. split; [reflexivity|]. split; [done|]. exists i. split; [done|]. cbn. by rewrite Hw, map_app.
Qed.

Lemma apply_op_column l c m : c cf = Some m →
  foldl apply_op c (map (λ o : list Z * option (list Z), (cf, o.1, o.2)) l) cf = Some (foldl kv_op m l).
Proof.
  revert c m; induction l as [|o l IH]; intros c m Hm; [done|]. cbn [map foldl]. apply IH.
  unfold apply_op. cbn. by rewrite decide_True, Hm.
Qed.

Lemma batch_at_write db m b l : db_at cf db m → batch_at cf db b l →
  ∃ db', write db (batch_done b) = Ret db' ∧ db_at cf db' (foldl kv_op m l) ∧ columns db' = columns db.
Proof.
  intros [Hwf Hm] (_ & i & Hi & Hw).
  destruct (write_entries db (map (λ o, (cf, o.1, o.2)) l) (batch_write b) Hwf) as (db' & Hd & Hwf' & Hcol & Hc).
  - rewrite Hw. apply Forall2_fmap_2, Forall_Forall2_diag, Forall_forall. intros o _. by exists i.
  - exists db'. split; [done|]. split; [|done]. split; [done|]. rewrite Hc. by apply apply_op_column.
Qed.

Lemma db_at_put db m key v : db_at cf db m →
  ∃ db', put_cf db cf key v = Ret db' ∧ db_at cf db' (<[key := v]> m).
Proof.
  intros Hm. destruct (db_at_column _ _ Hm) as [i Hi]. pose proof Hm as [Hwf _].
  destruct (batch_at_put db (batch_writer db) [] key v) as (b & Hb & Hbl); [by eapply batch_at_writer|].
  destruct (batch_at_write db m b _ Hm Hbl) as (db' & Hd & Hat & _). exists db'. split; [|exact Hat].
  change (put_cf db cf key v) with (db_op db (cf, key, Some v)). rewrite (db_op_write _ _ i) by done.
  destruct Hbl as (_ & j & Hj & Hw). unfold batch_done in Hd. rewrite Hw in Hd. by simplify_eq.
Qed.

Lemma db_at_delete db m key : db_at cf db m →
  ∃ db', delete_cf db cf key = Ret db' ∧ db_at cf db' (delete key m).
Proof.
  intros Hm. destruct (db_at_column _ _ Hm) as [i Hi]. pose proof Hm as [Hwf _].
  destruct (batch_at_delete db (batch_writer db) [] key) as (b & Hb & Hbl); [by eapply batch_at_writer|].
  destruct (batch_at_write db m b _ Hm Hbl) as (db' & Hd & Hat & _). exists db'. split; [|exact Hat].
  change (delete_cf db cf key) with (db_op db (cf, key, None)). rewrite (db_op_write _ _ i) by done.
  destruct Hbl as (_ & j & Hj & Hw). unfold batch_done in Hd. rewrite Hw in Hd. by simplify_eq.
Qed.
End one_column.

(** What a list of operations leaves under a key. *)
Lemma kv_ops_other (m : gmap (list Z) (list Z)) l k : k ∉ l.*1 → foldl kv_op m l !! k = m !! k.
Proof.
  revert m; induction l as [|o l IH]; intros m Hk; [done|]. cbn in Hk |- *.
  apply not_elem_of_cons in Hk as [Hne Hk]. rewrite IH by done. unfold kv_op.
  destruct o.2; [by rewrite lookup_insert_ne|by rewrite lookup_delete_ne].
Qed.

Lemma kv_ops_last (m : gmap (list Z) (list Z)) l1 k v l2 : k ∉ l2.*1 →
  foldl kv_op m (l1 ++ (k, v) :: l2) !! k = v.
Proof.
  intros Hk. rewrite foldl_app. cbn. rewrite kv_ops_other by done. unfold kv_op; cbn.
  destruct v; [apply lookup_insert_eq|apply lookup_delete_eq].
Qed.

Lemma kv_ops_in (m : gmap (list Z) (list Z)) l k : k ∈ l.*1 → ∃ v, (k, v) ∈ l ∧ foldl kv_op m l !! k = v.
Proof.
  induction l as [|o l IH] using rev_ind; [by intros ?%elem_of_nil|]. intros Hk.
  rewrite foldl_app. cbn. unfold kv_op at 1. destruct (decide (k = o.1)) as [->|Hne].
  - exists o.2. split; [apply elem_of_app; right; destruct o; apply list_elem_of_singleton; done|].
    destruct o.2; [apply lookup_insert_eq|apply lookup_delete_eq].
  - rewrite fmap_app, elem_of_app in Hk. destruct Hk as [Hk|Hk]; [|cbn in Hk; by apply list_elem_of_singleton in Hk].
    destruct (IH Hk) as (v & Hv & E). exists v. split; [by apply elem_of_app; left|].
    destruct o.2; [by rewrite lookup_insert_ne|by rewrite lookup_delete_ne].
Qed.

(** The put operations of imported items. *)
Definition item_op (i : string * list Z * list Z) : op := (i.1.1, i.1.2, Some i.2).

Lemma put_items_checked_spec b items :
  match put_items_checked b items with
  | inl e => ∃ i, i ∈ items ∧ batch_columns b !! i.1.1 = None ∧ e = MissingColumn i.1.1
  | inr b' => Forall (λ i, is_Some (batch_columns b !! i.1.1)) items ∧
              ofold batch_op b (map item_op items) = Ret b'
  end.
Proof.
  revert b; induction items as [|[[cf key] v] items IH]; intros b; cbn [put_items_checked]; [by split|].
  destruct (put_cf_checked b cf key v) as [e|b1] eqn:E; unfold put_cf_checked in E;
    destruct (batch_columns b !! cf) as [i|] eqn:Ei; simplify_eq.
  - exists (cf, key, v). split; [apply list_elem_of_here|done].
  - specialize (IH (b <| batch_write ::= λ l, l ++ [(i, key, Some v)] |>)).
    destruct (put_items_checked _ items) as [e|b'].
    + destruct IH as (j & Hj & ? & ?). exists j. split; [by apply list_elem_of_further|done].
    + destruct IH as [Hf Ho]. split; [constructor; [by eexists|exact Hf]|].
      cbn [map ofold]. rewrite (batch_op_ret b (item_op (cf, key, v)) i) by done. exact Ho.
Qed.

(** Importing items is all or nothing: if a column is missing the error names
    it and the store is unchanged; otherwise every item is written, in order. *)
Theorem import_items_atomic (db : SimpleDb) (items : list (string * list Z * list Z)) :
  db_wf db →
  ∃ res db', import_items db items = Ret (res, db') ∧
    match res with
    | inl e => db' = db ∧ ∃ i, i ∈ items ∧ columns db !! i.1.1 = None ∧ e = MissingColumn i.1.1
    | inr _ => Forall (λ i, is_Some (columns db !! i.1.1)) items ∧ db_wf db' ∧
        ∀ cf key, get_cf db' cf key =
          match foldl apply_op (content db) (map item_op items) cf with Some m => Ret (m !! key) | None => Panic end
    end.
Proof.
  intros Hwf. unfold import_items. pose proof (put_items_checked_spec (batch_writer db) items) as H.
  destruct (put_items_checked _ _) as [e|b]; [by eexists _, _|]. destruct H as [Hf Ho].
  assert (Hl : Forall (λ o : op, is_Some (columns db !! o.1.1)) (map item_op items)).
  { apply Forall_map. exact Hf. }
  destruct (batch_build db (map item_op items) (batch_writer db) Hl eq_refl) as (b' & es & Hb & _ & Hw & Hes).
  rewrite Ho in Hb. simplify_eq.
  destruct (write_entries db _ es Hwf Hes) as (db' & Hd & Hwf' & _ & Hc).
  unfold batch_done. rewrite Hw. cbn [app batch_write batch_writer]. rewrite Hd. cbn [obind].
  eexists _, _. split; [reflexivity|]. split_and!; [done|done|].
  intros cf key. rewrite get_cf_content by done. by rewrite Hc.
Qed.

(** A store opened in memory is well formed. *)
Lemma lookup_columns (cols : list string) (k : nat) cf i : NoDup cols →
  map_extend ∅ (imap (λ j v, (v, (k + j)%nat)) cols) !! cf = Some i → (k ≤ i)%nat ∧ cols !! (i - k)%nat = Some cf.
Proof.
  intros _ H. apply map_extend_inv in H as [H|H]; [|by apply lookup_empty_Some in H].
  apply elem_of_lookup_imap in H as (j & v & [= <- ->] & Hj). split; [lia|].
  by replace (k + j - k)%nat with j by lia.
Qed.

Lemma new_in_memory_wf NV cols db : NoDup (DB_COL_DEFAULT :: cols) →
  new_in_memory NV cols None = Ret (inr db) → db_wf db.
Proof.
  intros Hnd. unfold new_in_memory.
  set (db0 := mkSimpleDb _ _). intros (db1 & Hdb & [= <-])%obind_ret.
  assert (Hwf0 : db_wf db0).
  { subst db0. split; cbn [columns key_values].
    - intros cf i H. apply (lookup_columns (DB_COL_DEFAULT :: cols) 0) in H as [_ H]; [|done].
      apply lookup_lt_Some in H. rewrite length_replicate. cbn in H. lia.
    - intros cf1 cf2 i H1 H2. apply (lookup_columns (DB_COL_DEFAULT :: cols) 0) in H1 as [_ H1]; [|done].
      apply (lookup_columns (DB_COL_DEFAULT :: cols) 0) in H2 as [_ H2]; [|done]. by simplify_eq. }
  unfold with_initial_data in Hdb. apply obind_ret in Hdb as ([v|] & _ & Hdb); [done|].
  unfold put_cf in Hdb. apply obind_ret in Hdb as ([i m] & Him & [= <-]).
  destruct Hwf0 as [H1 H2]. split; cbn; [|done].
  intros cf j Hj. rewrite length_insert. by apply (H1 cf).
Qed.

Module DbExamples.
Definition db0 : SimpleDb := mkSimpleDb {["default"%string := 0%nat; "a"%string := 1%nat]} [∅; ∅].
Lemma db0_wf : db_wf db0.
Proof.
  split.
  - intros cf i. cbn. intros [[_ <-]|[_ [_ <-]%lookup_singleton_Some]]%lookup_insert_Some; lia.
  - intros cf1 cf2 i. cbn.
    intros [[<- <-]|[_ [<- <-]%lookup_singleton_Some]]%lookup_insert_Some
           [[<- E]|[_ [<- E]%lookup_singleton_Some]]%lookup_insert_Some; done.
Qed.
Definition ops : list op := [("a"%string, [1], Some [2]); ("a"%string, [1], None); ("a"%string, [3], Some [4])].

Lemma batch_sequential_witness :
  ∃ b db', ofold batch_op (batch_writer db0) ops = Ret b ∧ write db0 (batch_done b) = Ret db' ∧
    ofold db_op db0 ops = Ret db'.
Proof.
  destruct (batch_sequential db0 ops db0_wf) as (b & db' & H1 & H2 & H3 & _).
  - repeat constructor; by eexists.
  - exists b, db'. split; [exact H1|]. split; [exact H2|exact H3].
Defined.

Lemma import_items_atomic_witness :
  ∃ res db', import_items db0 [("a"%string, [1], [2]); ("z"%string, [1], [2])] = Ret (res, db') ∧
    match res with
    | inl e => db' = db0 ∧ ∃ i, i ∈ [("a"%string, [1], [2]); ("z"%string, [1], [2])] ∧
        columns db0 !! i.1.1 = None ∧ e = MissingColumn i.1.1
    | inr _ => Forall (λ i, is_Some (columns db0 !! i.1.1)) [("a"%string, [1], [2]); ("z"%string, [1], [2])] ∧ db_wf db' ∧
        ∀ cf key, get_cf db' cf key =
          match foldl apply_op (content db0) (map item_op [("a"%string, [1], [2]); ("z"%string, [1], [2])]) cf with
          | Some m => Ret (m !! key) | None => Panic end
    end.
Proof. apply (import_items_atomic db0 _ db0_wf). Defined.
End DbExamples.
