(* ===== verification/Compute.v ===== *)
(** * The compute node: [ComputeNode] of [src/compute.rs]

    Requests, proofs of work, the druid pool, distribution of blocks, pauses,
    shutdown and the local database, on top of [ComputeRaft] and [Comms].  The
    locks of the source are held for the length of an operation, so what they
    protect is a field.  Random numbers are arguments. *)
From S2P Require Import Prelude Externals Utils TrackedUtxo Unicorn Interfaces Comms ActiveRaft RaftUtil BlockPipeline ComputeConsensused Requests ComputeRaft DbUtils.

(** ** Constants *)
Definition REQUEST_LIST_KEY : string := "RequestListKey".
Definition USER_NOTIFY_LIST_KEY : string := "UserNotifyListKey".
Definition POW_RANDOM_NUM_KEY : string := "PowRandomNumKey".
Definition POW_PREV_RANDOM_NUM_KEY : string := "PowPreviousRandomNumKey".
Definition RAFT_KEY_RUN : string := "RaftKeyRun".
Definition DB_COL_INTERNAL : string := "internal".
Definition DB_COL_LOCAL_TXS : string := "local_transactions".
Definition RESEND_TRIGGER_MESSAGES_COMPUTE_LIMIT : Z := 10.
Definition U64_MAX : Z := U64_MOD - 1.

Inductive ComputeError :=
  | ErrConfig (s : string) | ErrNetwork (e : CommsError) | ErrSerialization | ErrGeneric (s : string).

Record ComputeNode (C M : Type) := mkComputeNode {
  shared_config : ComputeNodeSharedConfig;
  received_shared_config : option ComputeNodeSharedConfig;
  received_runtime_data : option ComputeConsensusedRuntimeData;
  node : Node C;
  node_raft : ComputeRaft M;
  db : SimpleDb;
  local_events : list LocalEvent;
  b_num_to_pause : option Z;
  pause_node : bool;
  disable_trigger_messages : bool;
  current_mined_block : option MinedBlock;
  druid_pool : DruidPool;
  previous_random_num : list Z;
  current_random_num : list Z;
  current_trigger_messages_count : Z;
  enable_trigger_messages_pipeline_reset : bool;
  miners_changed : bool;
  request_list : gset SocketAddr;
  request_list_first_flood : option Z;
  miner_removal_list : gset SocketAddr;
  storage_addr : SocketAddr;
  sanction_list : list string;
  user_notification_list : gset SocketAddr;
  coordinated_shutdown : Z;
  shutdown_group : gset SocketAddr;
  fetched_utxo_set : option (SocketAddr * NodeType * UtxoSet);
}.
Arguments mkComputeNode {C M}. Arguments shared_config {C M}. Arguments received_shared_config {C M}.
Arguments received_runtime_data {C M}. Arguments node {C M}. Arguments node_raft {C M}. Arguments db {C M}.
Arguments local_events {C M}. Arguments b_num_to_pause {C M}. Arguments pause_node {C M}.
Arguments disable_trigger_messages {C M}. Arguments current_mined_block {C M}. Arguments druid_pool {C M}.
Arguments previous_random_num {C M}. Arguments current_random_num {C M}.
Arguments current_trigger_messages_count {C M}. Arguments enable_trigger_messages_pipeline_reset {C M}.
Arguments miners_changed {C M}. Arguments request_list {C M}. Arguments request_list_first_flood {C M}.
Arguments miner_removal_list {C M}. Arguments storage_addr {C M}. Arguments sanction_list {C M}.
Arguments user_notification_list {C M}. Arguments coordinated_shutdown {C M}. Arguments shutdown_group {C M}.
Arguments fetched_utxo_set {C M}.
#[export] Instance eta_ComputeNode C M : Eta (ComputeNode C M) := λ r,
  mkComputeNode (shared_config r) (received_shared_config r) (received_runtime_data r) (node r) (node_raft r) (db r)
    (local_events r) (b_num_to_pause r) (pause_node r) (disable_trigger_messages r) (current_mined_block r)
    (druid_pool r) (previous_random_num r) (current_random_num r) (current_trigger_messages_count r)
    (enable_trigger_messages_pipeline_reset r) (miners_changed r) (request_list r) (request_list_first_flood r)
    (miner_removal_list r) (storage_addr r) (sanction_list r) (user_notification_list r) (coordinated_shutdown r)
    (shutdown_group r) (fetched_utxo_set r).

(** The configuration fields that [ComputeNode::new] reads besides those of
    [ComputeRaft::new]. *)
Record NodeConfig := mkNodeConfig {
  cfg_raft : ComputeNodeConfig;
  cfg_storage_nodes : list SocketAddr;
  cfg_socket_name_mapping : gmap SocketAddr string;
  cfg_peer_limit : Z;
  cfg_miner_whitelist : MinerWhitelist;
  cfg_enable_trigger_messages_pipeline_reset : option bool;
  cfg_sanction_list : list string;
  cfg_minimum_miner_pool_len : Z;
}.

(** ** Druid transactions *)
Section druid.
Context `{NaomScripts}.

Definition check_druid_participants (droplet : DruidDroplet) : bool :=
  forallb (λ tx, bool_decide (dde_participants <$> druid_info tx = Some (participants droplet)))
    (bt_values (txs droplet)).

(** One transaction of [validate_dde_txs]: the pool, and the sets that are
    ready, each with whether it is valid. *)
Definition validate_dde_step (acc : DruidPool * list (bool * gmap string Transaction)) (tx : string * Transaction) :
    DruidPool * list (bool * gmap string Transaction) :=
  let '(pool, ready) := acc in
  match druid_info tx.2 with
  | None => acc
  | Some info =>
      let droplet := default (DruidDroplet_new (dde_participants info)) (pool !! druid info) in
      let droplet := droplet <| txs ::= <[tx.1 := tx.2]> |> in
      let pool := <[druid info := droplet]> pool in
      if zsize (txs droplet) =? participants droplet then
        let valid := druid_expectations_are_met (druid info) (bt_values (txs droplet)) &&
                     check_druid_participants droplet in
        (delete (druid info) pool, ready ++ [(valid, txs droplet)])
      else (pool, ready)
  end.
End druid.

(** ** The local transactions in the database *)
Section local_txs.
Context `{Bincode Transaction}.

Definition get_local_transactions (d : SimpleDb) : outcome (gmap string Transaction) :=
  let! l := iter_cf_clone d DB_COL_LOCAL_TXS in
  ofold (λ m kv, let! k := unwrap (from_utf8 kv.1) in
                 let! v := unwrap (deserialize (T := Transaction) kv.2) in
                 Ret (<[k := v]> m)) ∅ l.

Definition store_local_transactions (d : SimpleDb) (transactions : gmap string Transaction) : outcome SimpleDb :=
  let! batch := ofold (λ b kv, batch_put_cf b DB_COL_LOCAL_TXS (string_codes kv.1) (serialize kv.2))
                  (batch_writer d) (bt_iter transactions) in
  write d (batch_done batch).

Definition delete_local_transactions (d : SimpleDb) (keys : list string) : outcome SimpleDb :=
  let! batch := ofold (λ b key, batch_delete_cf b DB_COL_LOCAL_TXS (string_codes key)) (batch_writer d) keys in
  write d (batch_done batch).
End local_txs.

(** ** Receipts: [utils.rs] *)
Section receipts.
Context `{Naom, NaomReceipts}.

Definition create_receipt_asset_tx_from_sig (b_num receipt_amount : Z) (script_public_key public_key signature : string)
    (drs_tx_hash_spec : DrsTxHashSpec) (metadata : option string) : string + Transaction * string :=
  let drs_tx_hash_create := get_drs_tx_hash drs_tx_hash_spec in
  let receipt := Receipt (mkReceiptAsset receipt_amount drs_tx_hash_create metadata) in
  let asset_hash := construct_tx_in_signable_asset_hash receipt in
  let tx_out := new_asset_out script_public_key receipt in
  match decode_pub_key public_key, decode_signature signature with
  | None, _ => inl ("Public key decoding error: " +:+ public_key)
  | _, None => inl ("Signature decoding error: " +:+ signature)
  | Some public_key, Some signature =>
      let tx_in := mkTxIn None (new_create_asset b_num asset_hash signature public_key) in
      let tx := construct_tx_core [tx_in] [tx_out] in
      inr (tx, default (construct_tx_hash tx) drs_tx_hash_create)
  end.
End receipts.

(** ** The node *)
Section compute.
Context `{CommsCrates, Ipv6Display, Naom, !NaomScripts, NaomReceipts, Rug, Hex, KeccakPrime}.
Context `{Bincode (list string), Bincode (list SocketAddr), Bincode (gset string), Bincode (option Z)}.
Context `{Bincode RaftContextKey, Bincode AccumulatingBlockStoredInfo, Bincode ComputeRaftItem,
  Bincode ComputeConsensused, Bincode Transaction, Bincode BlockHeader, Bincode (gset SocketAddr), Bincode Z}.
Context {M : Type} `{Bincode (ComputeRequest.t M), Bincode (StorageRequest M), Bincode MineRequest.t, Bincode UserRequest.t}.
Notation ComputeNode := (ComputeNode TlsCertificate M).
Implicit Types n : ComputeNode.

(** *** Sending *)
Definition send_to n (peer : SocketAddr) (payload : list Z) : (CommsError + unit) * ComputeNode :=
  let '(res, nd) := Comms.send (node n) peer payload in (res, n <| node := nd |>).
Definition send_all n (peers : list SocketAddr) (payload : list Z) : list SocketAddr * ComputeNode :=
  let '(unsent, nd) := send_to_all (node n) peers payload in (unsent, n <| node := nd |>).

Definition send_mine n (peer : SocketAddr) (msg : MineRequest.t) := send_to n peer (serialize msg).
Definition send_compute n (peer : SocketAddr) (msg : ComputeRequest.t M) := send_to n peer (serialize msg).
Definition send_compute_all n (peers : list SocketAddr) (msg : ComputeRequest.t M) := send_all n peers (serialize msg).

Definition local_address n : SocketAddr := local_listener_address (node n).
Definition get_connected_miners n : list SocketAddr :=
  omap (λ '(address, node_type), if bool_decide (node_type = Some Miner) then Some address else None)
    (bt_iter (get_peers (node n))).
Definition compute_peers n : list SocketAddr := raft_peer_addrs (raft_active (node_raft n)).

Definition send_startup_requests n : ComputeNode := (send_compute_all n (compute_peers n) ComputeRequest.RequestRuntimeData).2.

Definition connect_info_peers n : list SocketAddr * list SocketAddr :=
  (raft_peers_to_connect (raft_active (node_raft n)) ++ [storage_addr n], compute_peers n ++ [storage_addr n]).

(** *** Database *)
Definition put_internal n (key : string) (value : list Z) : outcome ComputeNode :=
  let! d := put_cf (db n) DB_COL_INTERNAL (string_codes key) value in Ret (n <| db := d |>).
Definition get_internal n (key : string) : outcome (option (list Z)) := get_cf (db n) DB_COL_INTERNAL (string_codes key).

(** The file back-up is not modelled; deciding on it may panic. *)
Definition backup_persistent_dbs n : outcome ComputeNode :=
  let! _ := cr_need_backup (node_raft n) in Ret n.

(** *** Construction *)

(** [list] is what is stored under [key], if anything. *)
Definition load_list n (key : string) (default_list : gset SocketAddr) : outcome (option (gset SocketAddr)) :=
  let! stored := get_internal n key in
  Ret (match stored with Some l => deserialize l | None => Some default_list end).

Definition load_random_num n (key : string) (random : list Z) : outcome (list Z * ComputeNode) :=
  let! stored := get_internal n key in
  let num := default random stored in
  let! n := put_internal n key num in
  Ret (num, n).

(** [random1] and [random2] are generated for a missing number. *)
Definition load_local_db n (random1 random2 : list Z) : outcome (ComputeError + ComputeNode) :=
  let! l := load_list n REQUEST_LIST_KEY (request_list n) in
  match l with
  | None => Ret (inl ErrSerialization)
  | Some l =>
      let n := n <| request_list := l |> in
      let n := match request_list_first_flood n with
               | Some first =>
                   if first <=? zcard (request_list n) then
                     n <| request_list_first_flood := None |> <| node_raft ::= set_initial_proposal_done |>
                   else n
               | None => n
               end in
      let! l := load_list n USER_NOTIFY_LIST_KEY (user_notification_list n) in
      match l with
      | None => Ret (inl ErrSerialization)
      | Some l =>
          let n := n <| user_notification_list := l |> in
          let! x := load_random_num n POW_RANDOM_NUM_KEY random1 in
          let n := x.2 <| current_random_num := x.1 |> in
          let! x := load_random_num n POW_PREV_RANDOM_NUM_KEY random2 in
          let n := x.2 <| previous_random_num := x.1 |> in
          let! stored := get_internal n RAFT_KEY_RUN in
          match match stored with
                | Some key_run => (λ k, wrap64 (k + 1)) <$> deserialize (T := Z) key_run
                | None => Some 0
                end with
          | None => Ret (inl ErrSerialization)
          | Some key_run =>
              let! n := put_internal n RAFT_KEY_RUN (serialize key_run) in
              let n := n <| node_raft ::= λ r, cr_set_key_run r key_run |> in
              let! txs := get_local_transactions (db n) in
              Ret (inr (n <| node_raft ::= λ r, append_to_tx_pool r txs |>))
          end
      end
  end.

(** [utxo_set] is the result of [make_utxo_set_from_seed], [NV] the serialized
    network version that [new_db] checks, [rng] the tokens of the communication
    layer; opening the sockets is assumed to succeed. *)
Definition ComputeNode_new (NV : list Z) (NETWORK_VERSION : Z) (config : NodeConfig) (utxo_set : gmap string Transaction)
    (extra_db : option SimpleDb) (rng : nat → Z) (random1 random2 : list Z) : outcome (ComputeError + ComputeNode) :=
  let rc := cfg_raft config in
  match compute_nodes rc !! compute_node_idx rc, cfg_storage_nodes config !! compute_node_idx rc with
  | None, _ => Ret (inl (ErrConfig "Invalid compute index"))
  | _, None => Ret (inl (ErrConfig "Invalid storage index"))
  | Some addr, Some storage_addr =>
      let nd := Node_new addr (cfg_socket_name_mapping config) rng (cfg_peer_limit config) NodeCompute NETWORK_VERSION
                  false true in
      let! raft := ComputeRaft_new rc utxo_set in
      let! d := new_db NV [DB_COL_INTERNAL; DB_COL_LOCAL_TXS] extra_db in
      let shared := mkComputeNodeSharedConfig (compute_mining_event_timeout rc) (compute_partition_full_size rc)
                      (cfg_miner_whitelist config) in
      load_local_db
        (mkComputeNode shared None None nd raft d [] None false false None ∅ [] [] 0
           (default false (cfg_enable_trigger_messages_pipeline_reset config)) false ∅
           (Some (cfg_minimum_miner_pool_len config)) ∅ storage_addr (cfg_sanction_list config) ∅ U64_MAX
           (list_to_set (raft_peer_addrs (raft_active raft) ++ [storage_addr])) None) random1 random2
  end.

(** *** Transactions *)
Definition validate_dde_txs n (transactions : gmap string Transaction) :
    list (bool * gmap string Transaction) * ComputeNode :=
  let '(pool, ready) := foldl validate_dde_step (druid_pool n, []) (bt_iter transactions) in
  (ready, n <| druid_pool := pool |>).

(** The outputs a transaction may spend now. *)
Definition spendable n (v : OutPoint) : option TxOut :=
  let lock_expired := default 0 (get_committed_current_block_num (node_raft n)) in
  match get_committed_utxo_set (node_raft n) !! v with
  | Some tx_out =>
      if negb (bool_decide (t_hash v ∈ sanction_list n)) && (locktime tx_out <=? lock_expired) then Some tx_out else None
  | None => None
  end.

Definition transactions_validator n (tx : Transaction) : outcome bool :=
  if is_create_tx tx then
    let! i := unwrap (inputs tx !! 0%nat) in
    let! o := unwrap (outputs tx !! 0%nat) in
    Ret (tx_has_valid_create_script (script_signature i) (value o))
  else Ret (negb (is_coinbase tx) && tx_is_valid tx (spendable n)).

Fixpoint filter_valid n (transactions : list Transaction) : outcome (list Transaction) :=
  match transactions with
  | [] => Ret []
  | tx :: rest =>
      let! b := transactions_validator n tx in
      let! rest := filter_valid n rest in
      Ret (if b then tx :: rest else rest)
  end.

(** The maps collected from the transactions of one kind. *)
Definition collect_txs (l : list Transaction) : gmap string Transaction :=
  map_extend ∅ (map (λ tx, (construct_tx_hash tx, tx)) l).

Definition receive_transactions n (transactions : list Transaction) : outcome (Response * ComputeNode) :=
  let transactions_len := zlen transactions in
  if negb (tx_pool_can_accept (node_raft n) transactions_len) then
    Ret (failed "Transaction pool for this compute node is full", n)
  else
    let! valid := filter_valid n transactions in
    let valid_dde_txs := collect_txs (filter (λ tx, is_Some (druid_info tx)) valid) in
    let valid_txs := collect_txs (filter (λ tx, ¬ is_Some (druid_info tx)) valid) in
    let total_valid_txs_len := zsize valid_txs + zsize valid_dde_txs in
    if total_valid_txs_len =? 0 then Ret (failed "No valid transactions provided", n)
    else
      let! d := store_local_transactions (db n) valid_txs in
      let n := n <| db := d |> <| node_raft ::= λ r, append_to_tx_pool r valid_txs |> in
      let '(ready_dde_txs, n) := validate_dde_txs n valid_dde_txs in
      let invalid_dde_txs_len := zlen (filter (λ x, x.1 = false) ready_dde_txs) in
      let n := foldl (λ n x, if x.1 : bool then n <| node_raft ::= λ r, append_to_tx_druid_pool r x.2 |> else n)
                 n ready_dde_txs in
      Ret (ok (if (total_valid_txs_len <? transactions_len) || negb (invalid_dde_txs_len =? 0)
               then "Some transactions invalid. Adding valid transactions only" else "Transactions added to tx pool"), n).

Definition create_receipt_asset_tx n (receipt_amount : Z) (script_public_key public_key signature : string)
    (drs_tx_hash_spec : DrsTxHashSpec) (metadata : option string) : string + Transaction * string :=
  create_receipt_asset_tx_from_sig (get_current_block_num (node_raft n)) receipt_amount script_public_key public_key
    signature drs_tx_hash_spec metadata.
(** *** Miners *)
Definition ip_eqb (a b : SocketAddr) : bool :=
  match a, b with
  | AddrV4 i _, AddrV4 j _ => i =? j
  | AddrV6 i _ _ _, AddrV6 j _ _ _ => i =? j
  | _, _ => false
  end.

Definition get_compute_miner_whitelist n : MinerWhitelist := miner_whitelist (consensused (node_raft n)).

Definition check_miner_whitelisted n (miner_address : SocketAddr) (miner_api_key : option string) : bool :=
  bool_decide (default EmptyString miner_api_key ∈ default ∅ (miner_api_keys (get_compute_miner_whitelist n))) ||
  existsb (λ addr, ip_eqb addr miner_address) (elements (default ∅ (miner_addresses (get_compute_miner_whitelist n)))).

(** [node.disconnect_all(Some(..))] *)
Definition disconnect n (l : list SocketAddr) : ComputeNode := n <| node ::= λ nd, disconnect_all nd (Some l) |>.

Definition put_request_list n : outcome ComputeNode := put_internal n REQUEST_LIST_KEY (serialize (request_list n)).
Definition put_user_notification_list n : outcome ComputeNode :=
  put_internal n USER_NOTIFY_LIST_KEY (serialize (user_notification_list n)).

Definition receive_partition_request n (peer : SocketAddr) (mining_api_key : option string) :
    outcome (Response * ComputeNode) :=
  let n := n <| miners_changed := true |> in
  if active (get_compute_miner_whitelist n) && negb (check_miner_whitelisted n peer mining_api_key) then
    let n := (send_mine n peer MineRequest.MinerNotAuthorized).2 in
    Ret (ok "Removing unauthorized miner", disconnect n [peer])
  else
    let! r := match mining_api_key with
              | Some api_key => propose_runtime_item (node_raft n) (AddMiningApiKeys [(peer, api_key)])
              | None => Ret (node_raft n)
              end in
    let n := n <| node_raft := r |> <| request_list ::= λ l, {[peer]} ∪ l |> in
    let! n := put_request_list n in
    if bool_decide (request_list_first_flood n = Some (zcard (request_list n))) then
      let n := n <| request_list_first_flood := None |> in
      let! r := propose_initial_item (node_raft n) in
      Ret (ok "Received first full partition request", n <| node_raft := r |>)
    else Ret (ok "Received partition request successfully", n).

(** The connected miners that are not whitelisted are told so. *)
Definition flush_unauthorized_step (acc : list SocketAddr * ComputeNode) (peer : SocketAddr) :
    list SocketAddr * ComputeNode :=
  let '(removed, n) := acc in
  if negb (check_miner_whitelisted n peer (get_mining_api_key_entry (node_raft n) peer)) then
    (removed ++ [peer], (send_mine n peer MineRequest.MinerNotAuthorized).2)
  else (removed, n).

Definition flush_unauthorized_miners n : option (list SocketAddr) * ComputeNode :=
  if negb (active (get_compute_miner_whitelist n)) then (None, n)
  else
    let '(miners_to_remove, n) := foldl flush_unauthorized_step ([], n) (get_connected_miners n) in
    (Some miners_to_remove, disconnect n miners_to_remove).

Definition flush_stale_miners n (stale_miners : list SocketAddr) : outcome ComputeNode :=
  let n := n <| request_list ::= filter (λ addr, addr ∉ stale_miners) |> in
  let! n := put_request_list n in
  Ret (n <| node_raft ::= λ r, ComputeRaft.flush_stale_miners r stale_miners |> <| miners_changed := true |>).

Definition receive_partition_entry n (peer : SocketAddr) (pow_info : PowInfo) (partition_entry : ProofOfWork) :
    outcome (option Response * ComputeNode) :=
  if negb (pow_b_num pow_info =? get_current_block_num (node_raft n)) then Ret (None, n)
  else
    let status := get_mining_pipeline_status (node_raft n) in
    let check random_number :=
      let! valid_pow :=
        if bool_decide (format_parition_pow_address peer = address partition_entry)
        then validate_pow_for_address partition_entry (Some random_number) else Ret false in
      if negb valid_pow then Ret (Some (failed "PoW received is invalid"), n)
      else
        let! x := propose_mining_pipeline_item (node_raft n) (MiningParticipant peer status) in
        let n := n <| node_raft := x.2 |> in
        Ret (if x.1 : bool then Some (ok "Partition PoW received successfully") else None, n) in
    match status, participant_only pow_info with
    | ParticipantOnlyIntake, true => check (previous_random_num n)
    | AllItemsIntake, false => check (current_random_num n)
    | Halted, _ => Ret (Some (failed "Partition list complete"), n)
    | _, _ => Ret (None, n)
    end.

Definition receive_pow n (address : SocketAddr) (block_num : Z) (nonce : list Z) (coinbase : Transaction) :
    outcome (option Response * ComputeNode) :=
  let pow_mining_block :=
    b ← get_mining_block (node_raft n);
    if (block_num =? b_num (header b)) && Participants_contains (cr_get_mining_participants (node_raft n)) address
    then Some b else None in
  match pow_mining_block with
  | None => Ret (Some (failed "Not block currently mined"), n)
  | Some mining_block =>
      let block_to_check := header mining_block in
      let! invalid :=
        if negb (is_coinbase coinbase) then Ret true
        else
          let! o := unwrap (outputs coinbase !! 0%nat) in
          Ret (negb (token_amount (value o) =? get_current_reward (node_raft n))) in
      if invalid : bool then Ret (Some (failed "Coinbase transaction invalid"), n)
      else
        let coinbase_hash := construct_tx_hash coinbase in
        let block_to_check := apply_mining_tx block_to_check nonce coinbase_hash in
        let! valid := validate_pow_block block_to_check in
        if negb valid then Ret (Some (failed "Invalid PoW for block"), n)
        else
          let '(nonce, coinbase_hash) := nonce_and_mining_tx_hash block_to_check in
          let pow_info := mkWinningPoWInfo nonce (coinbase_hash, coinbase) 0 0 in
          let! x := propose_mining_pipeline_item (node_raft n) (WinningPoW address pow_info) in
          let n := n <| node_raft := x.2 |> in
          Ret (if x.1 : bool then Some (ok "Received PoW successfully") else None, n)
  end.

(** *** The block *)
Definition send_block_to_storage n : (CommsError + unit) * ComputeNode :=
  send_to n (storage_addr n) (serialize (SendBlock (M := M) (current_mined_block n))).

Definition flood_rand_and_block_to_partition n : outcome ComputeNode :=
  let flood rnum participant_only :=
    let win_coinbases := last_mining_transaction_hashes (consensused (node_raft n)) in
    let! block := unwrap (get_mining_block (node_raft n)) in
    let h := header block in
    let reward := get_current_reward (node_raft n) in
    let pow_info := mkPowInfo participant_only (b_num h) in
    let removal_list := bt_elems (miner_removal_list n) in
    let all_participants := cr_get_mining_participants (node_raft n) in
    let participants := filter (λ p, p ∉ miner_removal_list n) (unsorted all_participants) in
    let non_participants := bt_elems (request_list n ∖ lookup all_participants) in
    let '(unauthorized, n) := flush_unauthorized_miners n in
    let unsent_miners := default [] unauthorized in
    let n := (send_all n removal_list (serialize MineRequest.MinerRemovedAck)).2 in
    let '(unsent1, n) := send_all n participants
      (serialize (MineRequest.SendBlock pow_info rnum win_coinbases reward (Some h) (b_num h))) in
    let '(unsent2, n) := send_all n non_participants
      (serialize (MineRequest.SendBlock pow_info rnum win_coinbases reward None (b_num h))) in
    let unsent_miners := unsent_miners ++ unsent1 ++ unsent2 in
    let! n := match unsent_miners ++ removal_list with
              | [] => Ret n
              | unsent_miners =>
                  let! n := flush_stale_miners n unsent_miners in
                  let n := n <| miner_removal_list := ∅ |> in
                  let! r := propose_runtime_item (node_raft n) (RemoveMiningApiKeys unsent_miners) in
                  Ret (n <| node_raft := r |>)
              end in
    Ret (if miners_changed n then n <| miners_changed := false |> else n) in
  match get_mining_pipeline_status (node_raft n) with
  | ParticipantOnlyIntake => flood (previous_random_num n) true
  | AllItemsIntake => flood (current_random_num n) false
  | Halted => Ret n
  end.

Definition flood_transactions_to_partition n : outcome ComputeNode :=
  let! block := unwrap (get_mining_block (node_raft n)) in
  Ret (send_all n (unsorted (cr_get_mining_participants (node_raft n)))
         (serialize (MineRequest.SendTransactions (transactions block)))).2.

Definition flood_block_to_users n : outcome ComputeNode :=
  let! block := unwrap (get_mining_block (node_raft n)) in
  let '(unsent, n) := send_all n (bt_elems (user_notification_list n)) (serialize (UserRequest.BlockMining block)) in
  match unsent with
  | [] => Ret n
  | _ => put_user_notification_list (n <| user_notification_list ::= filter (λ v, v ∉ unsent) |>)
  end.

Definition flood_closing_events n : ComputeNode :=
  let n := (send_all n [storage_addr n] (serialize (Closing (M := M)))).2 in
  let n := (send_compute_all n (compute_peers n) ComputeRequest.Closing).2 in
  let n := (send_all n (bt_elems (request_list n)) (serialize MineRequest.Closing)).2 in
  (send_all n (bt_elems (user_notification_list n)) (serialize UserRequest.Closing)).2.

Definition mining_block_mined n : outcome ComputeNode :=
  let '(taken, r) := cr_take_mining_block (node_raft n) in
  let n := n <| node_raft := r |> in
  let! b := unwrap taken in
  let '(block, block_txs) := b in
  let! w := unwrap (get_winning_miner (node_raft n)) in
  let unicorn_info := get_current_unicorn (node_raft n) in
  let mining_tx := wp_mining_tx w.2 in
  let block := block <| header ::= λ h, apply_mining_tx h (wp_nonce w.2) mining_tx.1 |> in
  let block_txs := <[mining_tx.1 := mining_tx.2]> block_txs in
  let extra_info := mkMinedBlockExtraInfo (coordinated_shutdown n <=? b_num (header block)) in
  let common := mkCommonBlockInfo block block_txs (wp_p_value w.2) (wp_d_value w.2) (unicorn unicorn_info)
                  (witness unicorn_info) in
  Ret (n <| current_mined_block := Some (mkMinedBlock common extra_info) |>).

Definition should_pause n : bool :=
  match b_num_to_pause n with Some b => b <=? get_current_block_num (node_raft n) | None => false end.

(** [random1] and [random2] are the random numbers generated, if needed. *)
Definition reset_mining_block_process n (random1 random2 : list Z) : outcome ComputeNode :=
  let n := n <| previous_random_num := match current_random_num n with [] => random1 | v => v end |>
             <| current_random_num := random2 |> in
  let! n := put_internal n POW_PREV_RANDOM_NUM_KEY (previous_random_num n) in
  let! n := put_internal n POW_RANDOM_NUM_KEY (current_random_num n) in
  let n := n <| current_mined_block := None |> <| node_raft ::= clear_block_pipeline_proposed_keys |> in
  Ret (if should_pause n then n <| pause_node := true |> else n).

Definition receive_block_stored n (peer : SocketAddr) (previous_block_info : BlockStoredInfo) :
    outcome (option Response * ComputeNode) :=
  if negb (bool_decide (peer = storage_addr n)) then
    Ret (Some (failed "Received block stored not from our storage peer"), n)
  else
    let! x := propose_block_with_last_info (node_raft n) previous_block_info in
    let n := n <| node_raft := x.2 |> in
    if x.1 : bool then Ret (Some (ok "Received block stored"), n)
    else Ret (None, n <| node_raft ::= cr_re_propose_uncommitted_current_b_num |>).

Definition resend_trigger_message n : outcome ComputeNode :=
  match get_mining_pipeline_status (node_raft n) with
  | Halted => Ret (send_block_to_storage n).2
  | ParticipantOnlyIntake => flood_rand_and_block_to_partition n
  | AllItemsIntake =>
      let! n := flood_rand_and_block_to_partition n in
      if enable_trigger_messages_pipeline_reset n then
        let mining_participants := unsorted (cr_get_mining_participants (node_raft n)) in
        let disconnected_participants := unconnected_peers (node n) mining_participants in
        let n := if zlen disconnected_participants =? zlen mining_participants
                 then n <| current_trigger_messages_count ::= λ c, wrap64 (c + 1) |> else n in
        if RESEND_TRIGGER_MESSAGES_COMPUTE_LIMIT <=? current_trigger_messages_count n then
          let n := n <| current_trigger_messages_count := 0 |> in
          let! x := propose_mining_pipeline_item (node_raft n) ResetPipeline in
          Ret (n <| node_raft := x.2 |>)
        else Ret n
      else Ret n
  end.

(** *** Coordination of the compute nodes *)
Definition apply_shared_config n (received : ComputeNodeSharedConfig) : outcome ComputeNode :=
  let w := sc_miner_whitelist received in
  let n := n <| node_raft ::= λ r,
      update_compute_miner_whitelist_addresses
        (update_compute_miner_whitelist_api_keys
          (update_compute_miner_whitelist_active
            (cr_update_partition_full_size
              (update_mining_event_timeout_duration r (sc_mining_event_timeout received))
              (sc_partition_full_size received))
            (active w))
          (miner_api_keys w))
        (miner_addresses w) |> in
  let '(unauthorized, n) := flush_unauthorized_miners n in
  let! r := match unauthorized with
            | Some unauthorized => propose_runtime_item (node_raft n) (RemoveMiningApiKeys unauthorized)
            | None => Ret (node_raft n)
            end in
  Ret (n <| node_raft := r |> <| shared_config := received |> <| received_shared_config := None |>).

Definition get_shared_config n : ComputeNodeSharedConfig :=
  mkComputeNodeSharedConfig (mining_event_timeout_duration (node_raft n))
    (cc_partition_full_size (consensused (node_raft n))) (get_compute_miner_whitelist n).

Definition handle_coordinated_cmd n (cmd : CoordinatedCommand) : outcome (Response * ComputeNode) :=
  match cmd with
  | PauseNodes b_num => Ret (ok "Node pause configuration set", n <| b_num_to_pause := Some b_num |>)
  | ResumeNodes =>
      Ret (ok "Node resumed", n <| b_num_to_pause := None |> <| pause_node := false |> <| disable_trigger_messages := false |>)
  | ApplySharedConfig =>
      match received_shared_config n with
      | Some received =>
          let! n := apply_shared_config (n <| received_shared_config := None |>) received in
          Ret (ok "Shared config applied", n)
      | None => Ret (failed "No shared config to apply", n)
      end
  end.

Definition handle_coordinated_pause n (peer : SocketAddr) (b_num : Z) : outcome (Response * ComputeNode) :=
  let own := bool_decide (local_address n = peer) in
  let b_num := if own then wrap64 (get_current_block_num (node_raft n) + b_num) else b_num in
  let! r := propose_pause_nodes (node_raft n) b_num in
  let n := n <| node_raft := r |> in
  let n := if own then (send_compute_all n (compute_peers n) (ComputeRequest.CoordinatedPause b_num)).2 else n in
  Ret (ok "Received coordinated pause request", n).

Definition handle_coordinated_resume n (peer : SocketAddr) : outcome (Response * ComputeNode) :=
  let! r := propose_resume_nodes (node_raft n) in
  let n := n <| node_raft := r |> in
  let n := if bool_decide (local_address n = peer)
           then (send_compute_all n (compute_peers n) ComputeRequest.CoordinatedResume).2 else n in
  Ret (ok "Received coordinated resume request", n).

Definition handle_shared_config n (peer : SocketAddr) (config : ComputeNodeSharedConfig) : outcome (Response * ComputeNode) :=
  let! r := propose_apply_shared_config (node_raft n) in
  let n := n <| node_raft := r |> in
  let n := if bool_decide (local_address n = peer)
           then (send_compute_all n (compute_peers n) (ComputeRequest.SendSharedConfig config)).2 else n in
  Ret (ok "Received shared config", n <| received_shared_config := Some config |>).
(** *** Queries of peers *)
Definition fetch_utxo_set n (peer : SocketAddr) (address_list : UtxoFetchType) (node_type : NodeType) :
    Response * ComputeNode :=
  let utxos := get_committed_utxo_set (node_raft n) in
  let fetched :=
    match address_list with
    | All => utxos
    | AnyOf addresses =>
        let ops := omap (get_pk_cache_vec (utxo_set (consensused (node_raft n)))) addresses ≫= bt_elems in
        map_extend ∅ (omap (λ op, (λ v, (op, v)) <$> utxos !! op) ops)
    end in
  (ok "Received UTXO fetch request", n <| fetched_utxo_set := Some (peer, node_type, fetched) |>).

Definition send_fetched_utxo_set n : (ComputeError + unit) * ComputeNode :=
  match fetched_utxo_set n with
  | None => (inr tt, n)
  | Some (peer, node_type, fetched) =>
      let n := n <| fetched_utxo_set := None |> in
      let sent (res : (CommsError + unit) * ComputeNode) : (ComputeError + unit) * ComputeNode :=
        (match res.1 with inl e => inl (ErrNetwork e) | inr _ => inr tt end, res.2) in
      match node_type with
      | Miner => sent (send_mine n peer (MineRequest.SendUtxoSet fetched))
      | User => sent (send_to n peer (serialize (UserRequest.SendUtxoSet fetched)))
      | _ => (inl (ErrGeneric "Invalid UTXO requester"), n)
      end
  end.

Definition receive_block_user_notification_request n (peer : SocketAddr) : outcome (Response * ComputeNode) :=
  let! n := put_user_notification_list (n <| user_notification_list ::= λ l, {[peer]} ∪ l |>) in
  Ret (ok "Received block notification", n).

Definition receive_closing n (peer : SocketAddr) : option Response * ComputeNode :=
  if negb (bool_decide (peer ∈ shutdown_group n)) then (None, n)
  else
    let n := n <| shutdown_group ::= λ g, g ∖ {[peer]} |> in
    if negb (bool_decide (shutdown_group n = ∅)) then (Some (ok "Shutdown pending"), n)
    else (Some (ok "Shutdown"), n).

Definition handle_request_remove_miner n (peer : SocketAddr) : Response * ComputeNode :=
  (ok "Miner removal request received", n <| miner_removal_list ::= λ l, {[peer]} ∪ l |>).

Definition handle_receive_request_runtime_data n (peer : SocketAddr) : Response * ComputeNode :=
  let runtime_data := mkRuntimeData (mining_api_keys (consensused (node_raft n))) in
  match send_compute n peer (ComputeRequest.SendRuntimeData runtime_data) with
  | (inl _, n) => (failed "Failed to send runtime data to peer", n)
  | (inr _, n) => (ok "Sent runtime data to peer", n)
  end.

Definition handle_receive_runtime_data n (peer : SocketAddr) (runtime_data : ComputeConsensusedRuntimeData) :
    Response * ComputeNode :=
  if negb (bool_decide (peer ∈ compute_peers n)) then (failed "Received runtime data from unknown peer", n)
  else (ok "Received runtime data from peer", n <| received_runtime_data := Some runtime_data |>).

(** *** The API: [ComputeApi] *)
Definition inject n (req : ComputeRequest.t M) : ComputeNode :=
  n <| node ::= λ nd, inject_next_event nd (local_listener_address nd) (serialize req) |>.
Definition pause_nodes n (b_num : Z) : Response * ComputeNode :=
  (ok "Attempt coordinated node pause", inject n (ComputeRequest.CoordinatedPause b_num)).
Definition resume_nodes n : Response * ComputeNode :=
  (ok "Attempt coordinated node resume", inject n ComputeRequest.CoordinatedResume).
Definition send_shared_config n (config : ComputeNodeSharedConfig) : Response * ComputeNode :=
  (ok "Attempt send shared config", inject n (ComputeRequest.SendSharedConfig config)).

Definition handle_api_request n (peer : SocketAddr) (req : ComputeApiRequest.t) : outcome (option Response * ComputeNode) :=
  if negb (bool_decide (peer = local_address n)) then Ret (None, n)
  else
    match req with
    | ComputeApiRequest.SendCreateReceiptRequest amount spk pk sig spec metadata =>
        match create_receipt_asset_tx n amount spk pk sig spec metadata with
        | inr (tx, _) => let! x := receive_transactions n [tx] in Ret (Some x.1, x.2)
        | inl _ => Ret (None, n)
        end
    | ComputeApiRequest.SendTransactions transactions =>
        let! x := receive_transactions n transactions in Ret (Some x.1, x.2)
    | ComputeApiRequest.PauseNodes b_num => Ret (let '(r, n) := pause_nodes n b_num in (Some r, n))
    | ComputeApiRequest.ResumeNodes => Ret (let '(r, n) := resume_nodes n in (Some r, n))
    | ComputeApiRequest.SendSharedConfig config => Ret (let '(r, n) := send_shared_config n config in (Some r, n))
    end.

(** *** Requests *)
Definition handle_request n (peer : SocketAddr) (req : ComputeRequest.t M) : outcome (option Response * ComputeNode) :=
  let some (x : Response * ComputeNode) : option Response * ComputeNode := (Some x.1, x.2) in
  match req with
  | ComputeRequest.ComputeApi req => handle_api_request n peer req
  | ComputeRequest.SendUtxoRequest address_list requester => Ret (some (fetch_utxo_set n peer address_list requester))
  | ComputeRequest.SendBlockStored info => receive_block_stored n peer info
  | ComputeRequest.SendPoW block_num nonce coinbase => receive_pow n peer block_num nonce coinbase
  | ComputeRequest.SendPartitionEntry pow_info partition_entry => receive_partition_entry n peer pow_info partition_entry
  | ComputeRequest.SendTransactions transactions => let! x := receive_transactions n transactions in Ret (some x)
  | ComputeRequest.SendUserBlockNotificationRequest =>
      let! x := receive_block_user_notification_request n peer in Ret (some x)
  | ComputeRequest.SendPartitionRequest mining_api_key =>
      let! x := receive_partition_request n peer mining_api_key in Ret (some x)
  | ComputeRequest.SendSharedConfig config => let! x := handle_shared_config n peer config in Ret (some x)
  | ComputeRequest.Closing => Ret (receive_closing n peer)
  | ComputeRequest.CoordinatedPause b_num => let! x := handle_coordinated_pause n peer b_num in Ret (some x)
  | ComputeRequest.CoordinatedResume => let! x := handle_coordinated_resume n peer in Ret (some x)
  | ComputeRequest.RequestRemoveMiner => Ret (some (handle_request_remove_miner n peer))
  | ComputeRequest.RequestRuntimeData => Ret (some (handle_receive_request_runtime_data n peer))
  | ComputeRequest.SendRuntimeData data => Ret (some (handle_receive_runtime_data n peer data))
  | ComputeRequest.SendRaftCmd msg => Ret (None, n <| node_raft ::= λ r, cr_received_message r msg |>)
  end.

Definition handle_new_frame n (peer : SocketAddr) (frame : list Z) :
    outcome ((ComputeError + option Response) * ComputeNode) :=
  match deserialize (T := ComputeRequest.t M) frame with
  | None => Ret (inl ErrSerialization, n)
  | Some req => let! x := handle_request n peer req in Ret (inr x.1, x.2)
  end.

(** *** Committed data; [config_override] is the build feature *)
Definition handle_committed_data (config_override : bool) n (commit_data : RaftCommit) (random1 random2 : list Z) :
    outcome (option Response * ComputeNode) :=
  let! x := received_commit (node_raft n) commit_data in
  let n := n <| node_raft := x.2 |> in
  let new_block reason :=
    let! n := reset_mining_block_process n random1 random2 in
    let! n := backup_persistent_dbs n in
    Ret (Some (ok reason), n) in
  match x.1 with
  | Some CommittedFirstBlock => new_block "First Block committed"
  | Some CommittedBlock => new_block "Block committed"
  | Some CommittedBlockShutdown => new_block "Block shutdown"
  | Some CommittedStartPhasePowIntake => Ret (Some (ok "Winning PoW intake open"), n)
  | Some CommittedStartPhaseHalted =>
      let! n := mining_block_mined n in
      Ret (Some (ok "Pipeline halted"), n)
  | Some CommittedResetPipeline => Ret (Some (ok "Pipeline reset"), n)
  | Some CommittedTransactions =>
      let '(keys, r) := take_local_tx_hash_last_commited (node_raft n) in
      let! d := delete_local_transactions (db n) keys in
      Ret (Some (ok "Transactions committed"), n <| node_raft := r |> <| db := d |>)
  | Some CommittedSnapshot =>
      let! n := if config_override then apply_shared_config n (shared_config n) else Ret n in
      Ret (Some (ok "Snapshot applied"), n)
  | Some (CommittedCoordinatedCmd cmd) => let! x := handle_coordinated_cmd n cmd in Ret (Some x.1, x.2)
  | None => Ret (None, n)
  end.

(** *** The event loop *)
Definition handle_local_event n (event : LocalEvent) : option Response * ComputeNode :=
  match event with
  | Exit reason => (Some (ok reason), n)
  | ReconnectionComplete => (Some (ok "Sent startup requests on reconnection"), send_startup_requests n)
  | CoordinatedShutdown shutdown =>
      (Some (ok "Start coordinated shutdown"), n <| coordinated_shutdown := shutdown |>)
  | Ignore => (None, n)
  end.

(** The branches of the [select!], each with what it receives. *)
Inductive Selected :=
  | SelEvent
  | SelCommit (random1 random2 : list Z)
  | SelMsg
  | SelTimeoutTransactions
  | SelTimeoutMiningEvent
  | SelLocal
  | SelCall (f : ComputeNode → outcome ComputeNode)
  | SelExit (reason : string).

Definition timeout_mining_event n : outcome ComputeNode :=
  let! x := propose_mining_event_at_timeout (node_raft n) in
  let n := n <| node_raft := x.2 |> in
  if negb x.1 && negb (disable_trigger_messages n) then
    resend_trigger_message (n <| node_raft ::= cr_re_propose_uncommitted_current_b_num |>)
  else Ret (n <| current_trigger_messages_count := 0 |>).

(** One branch: [None] when it is not enabled or nothing is there for it;
    otherwise the response that ends the loop, if any. *)
Definition handle_next_event (config_override : bool) (msg_to : M → Z) n (sel : Selected) :
    outcome (option (option (ComputeError + Response) * ComputeNode)) :=
  let ready := negb (need_initial_state (node_raft n)) in
  let shutdown := cr_is_shutdown_commit_processed (node_raft n) in
  match sel with
  | SelEvent =>
      if ready then
        match next_event (node n) with
        | None => Ret None
        | Some (NewFrame peer frame, nd) =>
            let! x := handle_new_frame (n <| node := nd |>) peer frame in
            Ret (Some (match x.1 with inl e => Some (inl e) | inr r => inr <$> r end, x.2))
        end
      else Ret None
  | SelCommit random1 random2 =>
      if shutdown then Ret None
      else
        match cr_next_commit (node_raft n) with
        | None => Ret None
        | Some (commit, raft) =>
            let! x := handle_committed_data config_override (n <| node_raft := raft |>) commit random1 random2 in
            Ret (Some (inr <$> x.1, x.2))
        end
  | SelMsg =>
      if ready then
        let! x := cr_next_msg msg_to (node_raft n) in
        match x with
        | None => Ret None
        | Some (addr, msg, raft) =>
            Ret (Some (None, (send_compute (n <| node_raft := raft |>) addr (ComputeRequest.SendRaftCmd msg)).2))
        end
      else Ret None
  | SelTimeoutTransactions =>
      if ready && negb shutdown then
        let! r := propose_local_transactions_at_timeout (node_raft n) in
        let! r := propose_local_druid_transactions r in
        Ret (Some (None, n <| node_raft := r |>))
      else Ret None
  | SelTimeoutMiningEvent =>
      if ready && negb shutdown then let! n := timeout_mining_event n in Ret (Some (None, n)) else Ret None
  | SelLocal =>
      if ready then
        match local_events n with
        | [] => Ret None
        | event :: rest =>
            let '(r, n) := handle_local_event (n <| local_events := rest |>) event in Ret (Some (inr <$> r, n))
        end
      else Ret None
  | SelCall f => if ready then let! n := f n in Ret (Some (None, n)) else Ret None
  | SelExit reason => Ret (Some (Some (inr (ok reason)), n))
  end.

(** After a new block: mine it, or hold the mining while paused. *)
Definition start_mining n : outcome ComputeNode :=
  if negb (pause_node n) then
    let! n := flood_block_to_users n in flood_rand_and_block_to_partition n
  else Ret (n <| disable_trigger_messages := true |>).

(** The reasons with no case here are only logged. *)
Definition handle_next_event_response n (response : ComputeError + Response) : outcome (ResponseResult * ComputeNode) :=
  let continue (m : outcome ComputeNode) := let! n := m in Ret (ResultContinue, n) in
  match response with
  | inr (mkResponse true reason) =>
      if String.eqb reason "Received UTXO fetch request" then continue (Ret (send_fetched_utxo_set n).2)
      else if String.eqb reason "Shutdown" then Ret (ResultExit, n)
      else if String.eqb reason "Winning PoW intake open" then continue (flood_rand_and_block_to_partition n)
      else if String.eqb reason "Pipeline halted" then continue (Ret (send_block_to_storage n).2)
      else if String.eqb reason "Received runtime data from peer" then
        continue (match received_runtime_data n with
                  | Some data =>
                      let! r := propose_runtime_item (node_raft n) (AddMiningApiKeys (bt_iter (rt_mining_api_keys data))) in
                      Ret (n <| received_runtime_data := None |> <| node_raft := r |>)
                  | None => Ret n
                  end)
      else if String.eqb reason "First Block committed" || String.eqb reason "Block committed" then
        continue (start_mining n)
      else if String.eqb reason "Block shutdown" then continue (Ret (flood_closing_events n))
      else Ret (ResultContinue, n)
  | _ => Ret (ResultContinue, n)
  end.
End compute.

(** ** A node for the witnesses *)
Module ComputeExamples.
Import TestExternals.
Import RaftUtilExamples.
Import CommsExamples.

#[export] Instance scripts : NaomScripts := {|
  is_create_tx tx := bool_decide (inputs tx = [] ∧ outputs tx ≠ []);
  tx_has_valid_create_script _ _ := false;
  tx_is_valid tx spendable := forallb (λ o, bool_decide (is_Some (spendable o))) (omap previous_out (inputs tx));
  druid_expectations_are_met _ txs := bool_decide (txs ≠ []);
|}.

(** Digits enough for the unicorn's hash to seed the generator. *)
#[export] Instance long_digits : Rug := {|
  from_str_radix := from_str_radix (Rug := rug); integer_to_string := integer_to_string (Rug := rug);
  integer_to_u64 := integer_to_u64 (Rug := rug); pow_mod := pow_mod (Rug := rug);
  is_probably_prime := is_probably_prime (Rug := rug); to_digits_msf z := replicate 32 z |}.

(** A codec of some values, by their position. *)
Definition tagged {A : Type} (l : list A) (code : A → list Z) : Bincode A :=
  {| serialize := code; deserialize d := match d with [z] => l !! Z.to_nat z | _ => None end |}.

#[export] Instance be_strings : Bincode (list string) := {| serialize l := l ≫= string_codes; deserialize _ := None |}.
#[export] Instance be_addrs : Bincode (list SocketAddr) := {| serialize l := l ≫= SocketAddr_code; deserialize _ := None |}.
#[export] Instance be_set : Bincode (gset string) := {| serialize s := bt_elems s ≫= string_codes; deserialize _ := None |}.
#[export] Instance be_opt : Bincode (option Z) := {| serialize o := option_list o; deserialize _ := None |}.
#[export] Instance be_acc : Bincode AccumulatingBlockStoredInfo :=
  {| serialize a := match a with AccFirstBlock _ => [0] | AccBlock i => [1; bs_block_num i] end; deserialize _ := None |}.
#[export] Instance be_cc : Bincode ComputeConsensused := {| serialize _ := [1]; deserialize _ := None |}.
#[export] Instance be_header : Bincode BlockHeader :=
  {| serialize h := (nonce_and_mining_tx_hash h).1 ++ string_codes (nonce_and_mining_tx_hash h).2 ++ [b_num h];
     deserialize _ := None |}.
#[export] Instance be_addr_set : Bincode (gset SocketAddr) :=
  {| serialize s := bt_elems s ≫= SocketAddr_code; deserialize _ := None |}.
#[export] Instance be_compute : Bincode (ComputeRequest.t unit) := {| serialize _ := [1]; deserialize _ := None |}.
#[export] Instance be_storage : Bincode (StorageRequest unit) := {| serialize _ := [2]; deserialize _ := None |}.
#[export] Instance be_mine : Bincode MineRequest.t := {| serialize _ := [3]; deserialize _ := None |}.
#[export] Instance be_user : Bincode UserRequest.t := {| serialize _ := [4]; deserialize _ := None |}.

Definition miner_a : SocketAddr := AddrV4 7 1000.
Definition node_a : SocketAddr := AddrV4 1 100.
Definition storage_a : SocketAddr := AddrV4 2 200.
Definition pay (v : Z) (key : string) : TxOut := mkTxOut (Externals.Token v) 0 None (Some key).
Definition genesis : gmap string Transaction := {["g"%string := mkTransaction [] [pay 5 "k"] 0 None]}.
Definition coinbase (v : Z) : Transaction := mkTransaction [mkTxIn None (mkScript [])] [pay v "m"] 0 None.
Definition pow (first : Z) (v : Z) : WinningPoWInfo :=
  mkWinningPoWInfo [first; 8] (construct_tx_hash (coinbase v), coinbase v) 0 0.

(** The items of the log. *)
Definition log_items : list ComputeRaftItem :=
  [ItemFirstBlock genesis; ItemPipeline (MiningParticipant miner_a ParticipantOnlyIntake) 0;
   ItemPipeline CompleteParticipant 0; ItemPipeline (WinningPoW miner_a (pow 0 5)) 0; ItemPipeline CompleteMining 0;
   ItemPipeline ResetPipeline 0].
#[export] Instance be_item : Bincode ComputeRaftItem := tagged log_items (λ i,
  match i with ItemFirstBlock _ => [0] | ItemPipeline (WinningPoW _ _) _ => [3] | _ => [9] end).
#[export] Instance be_tx : Bincode Transaction := bincode_countable _.
#[export] Instance be_tx_laws : BincodeLaws Transaction := bincode_countable_laws _.

Definition raft_config (use : Z) (nodes : list SocketAddr) : ComputeNodeConfig :=
  mkComputeNodeConfig use 0 nodes 10 500 (mkUnicornFixedInfo "7" 1 1) None None.
Definition config (use : Z) (nodes : list SocketAddr) : NodeConfig :=
  mkNodeConfig (raft_config use nodes) [storage_a] ∅ 10 MinerWhitelist_default None [] 1.
Definition run_new (use : Z) (nodes : list SocketAddr) : outcome (ComputeError + ComputeNode TlsCertificate unit) :=
  ComputeNode_new [6] 6 (config use nodes) genesis None Z.of_nat [1] [2].
Definition dummy : ComputeNode TlsCertificate unit :=
  mkComputeNode (mkComputeNodeSharedConfig 0 0 MinerWhitelist_default) None None
    (Node_new node_a ∅ Z.of_nat 1 NodeCompute 6 false true)
    (mkComputeRaft false (mkActiveRaft false 1 [] [] [] [] ∅ [] [] true) ComputeConsensused_default true None ∅ [] []
      RaftInFlightProposals_default 0 0 0 false (mkBackupCheck None) (mkUtxoReAlignCheck None) 0)
    (mkSimpleDb ∅ []) [] None false false None ∅ [] [] 0 false false ∅ None ∅ storage_a [] ∅ 0 ∅ None.
Definition node_of (x : outcome (ComputeError + ComputeNode TlsCertificate unit)) : ComputeNode TlsCertificate unit :=
  match x with Ret (inr n) => n | _ => dummy end.
Definition n_new : ComputeNode TlsCertificate unit := node_of (run_new 1 [node_a]).
Lemma n_new_ret : run_new 1 [node_a] = Ret (inr n_new).
Proof. vm_compute. reflexivity. Qed.

(** The log entry with the item at the position, proposed by the node. *)
Definition entry (proposer : Z) (i : Z) : RaftCommit := mkRaftCommit 1 i (Proposed [i] [proposer; 0; i]).
Definition with_log (n : ComputeNode TlsCertificate unit) (l : list RaftCommit) : ComputeNode TlsCertificate unit :=
  n <| node_raft ::= λ r, r <| raft_active := (raft_active r) <| committed_extra := l |> |> |>.
Definition commit_next (n : ComputeNode TlsCertificate unit) : outcome (option (option (ComputeError + Response) * ComputeNode TlsCertificate unit)) :=
  handle_next_event false (λ _, 1) n (SelCommit [1] [2]).
Definition after (n : ComputeNode TlsCertificate unit) : ComputeNode TlsCertificate unit :=
  match commit_next n with Ret (Some (_, n)) => n | _ => dummy end.
End ComputeExamples.
