(* ===== verification/ComputeMining.v ===== *)
(** * Mining rounds of the compute node

    What [Compute] does with proofs of work: which ones it proposes, the
    invariant of a round over every branch of the event loop, and the block it
    hands to the storage node. *)
From S2P Require Import Prelude Externals Utils TrackedUtxo Unicorn Interfaces Comms ActiveRaft RaftUtil BlockPipeline ComputeConsensused Requests ComputeRaft DbUtils Compute.

(** ** A round *)
Section round.
Context `{NaomLaws, Hex, Bincode BlockHeader}.

(** The proof of work of the header with its mining transaction passes. *)
Definition pow_ok (h : BlockHeader) (w : WinningPoWInfo) : Prop :=
  ∃ d, validate_pow_block_hash (apply_mining_tx h (wp_nonce w) (wp_mining_tx w).1) = Ret (Some d).
Definition merkle_ok (b : Block) : Prop :=
  build_hex_txs_hash (transactions b) = (txs_merkle_root_and_hash (header b)).2.

(** What the pipeline holds about the block being mined. *)
Definition round_ok (p : MiningPipelineInfo) : Prop :=
  ∀ b, current_block p = Some b →
    merkle_ok b ∧ Forall (λ w, pow_ok (header b) w.2) (all_winning_pow p) ∧
    ∀ w, winning_pow p = Some w → pow_ok (header b) w.2.

(** The item is not a proof of work that fails for the current block. *)
Definition item_ok (p : MiningPipelineInfo) (item : MiningPipelineItem) : Prop :=
  match item with
  | WinningPoW _ w => ∀ b, current_block p = Some b → pow_ok (header b) w
  | _ => True
  end.

(** The check of the storage node. *)
Lemma valid_block_iff b h :
  construct_valid_block_pow_hash b = Ret (inr h) ↔
  merkle_ok b ∧ ∃ d, validate_pow_block_hash (header b) = Ret (Some d) ∧
    h = String (Ascii.ascii_of_N (Z.to_N BLOCK_PREPEND)) (hex_encode d).
Proof.
  unfold construct_valid_block_pow_hash, merkle_ok. case_decide as E.
  - split; [done|]. by intros [? _].
  - rewrite obind_ret. split.
    + intros ([d|] & Hd & [= <-]). eauto.
    + intros (_ & d & Hd & ->). eauto.
Qed.

Context `{KeccakPrime}.
Implicit Types p : MiningPipelineInfo.

Lemma merkle_set b : merkle_ok (set_txs_merkle_root_and_hash b).
Proof. unfold merkle_ok. by rewrite merkle_hash, merkle_transactions. Qed.

Lemma round_ok_none p : current_block p = None → round_ok p.
Proof. intros E b. by rewrite E. Qed.

(** A block enters with no proof of work yet. *)
Lemma round_ok_fresh p : all_winning_pow p = [] → winning_pow p = None →
  (∀ b, current_block p = Some b → merkle_ok b) → round_ok p.
Proof. intros Ea Ew Hb b E. rewrite Ea, Ew. split_and!; [by apply Hb|constructor|done]. Qed.

Lemma intake_item_round p item pid : round_ok p → item_ok p item → round_ok (intake_item p item pid).
Proof.
  intros Hp Hi b Hb.
  assert (Eb : current_block p = Some b).
  { revert Hb. unfold intake_item, add_to_winning_pow.
    destruct item as [a []| | | |], (mining_pipeline_status p); try done; by destruct (negb _). }
  destruct (Hp b Eb) as (Hm & Ha & Hw). split_and!; [done| |].
  - apply Forall_forall. intros w [Hin|(_ & _ & ->)]%intake_item_pow.
    + by apply (proj1 (Forall_forall _ _) Ha).
    + by apply Hi.
  - intros w. destruct (intake_item_fields p item pid) as (_ & _ & _ & -> & _). apply Hw.
Qed.

Lemma start_items_round p extra p' :
  (∀ b, current_block p = Some b → merkle_ok b) → start_items_intake p extra = Ret p' → round_ok p'.
Proof.
  intros Hm (_ & Ea & Ew & _ & _ & _ & Eb & _)%start_items_intake_spec.
  apply round_ok_fresh; [done..|]. by rewrite Eb.
Qed.

Lemma round_merkle p : round_ok p → ∀ b, current_block p = Some b → merkle_ok b.
Proof. intros Hp b Hb. apply (Hp b Hb). Qed.

Lemma halted_round p p' : round_ok p → start_winning_pow_halted p = Ret p' → round_ok p'.
Proof.
  intros Hp (w & Hw & [= <-])%obind_ret b Hb. cbn in *. destruct (Hp b Hb) as (Hm & Ha & _).
  split_and!; [done|constructor|]. intros w' ->.
  change (get_unicorn_item p WINNING_MINER_UN (all_winning_pow p) = Ret (Some w')) in Hw.
  apply get_unicorn_item_inv in Hw. by apply (proj1 (Forall_forall _ _) Ha).
Qed.

Lemma handle_item_round p item extra c p' : round_ok p → item_ok p item →
  handle_mining_pipeline_item p item extra = Ret (c, p') → round_ok p'.
Proof.
  intros Hp Hi. pose proof (intake_item_round p item (event_proposer_id extra) Hp Hi) as Hs1.
  unfold handle_mining_pipeline_item. cbv zeta.
  set (s1 := intake_item p item _) in *. clearbody s1.
  destruct (has_ready_reset_pipeline _ _).
  { intros (s2 & Hs & [= _ <-])%obind_ret. eapply start_items_round, Hs. by apply (round_merkle s1). }
  destruct (mining_pipeline_status p); [by intros [= _ <-]|..].
  - destruct (has_ready_select_participating_miners _ _); [|by intros [= _ <-]].
    intros (s2 & Hs & [= _ <-])%obind_ret. eapply start_items_round, Hs. by apply round_merkle.
  - destruct (has_ready_select_winning_miner _ _); [|by intros [= _ <-]].
    intros (s2 & Hs & [= _ <-])%obind_ret. by eapply halted_round.
Qed.
End round.

Create HintDb mining.

(** ** The consensus *)
Section consensus.
Context `{NaomLaws, Rug, Hex, KeccakPrime}.
Context `{Bincode (list string), Bincode (list SocketAddr), Bincode (gset string), Bincode (option Z)}.
Context `{Bincode RaftContextKey, Bincode AccumulatingBlockStoredInfo, Bincode ComputeRaftItem,
  Bincode ComputeConsensused, Bincode BlockHeader}.
Context {M : Type}.
Implicit Types (r : ComputeRaft M) (c : ComputeConsensused).

Definition raft_ok r : Prop := round_ok (block_pipeline (consensused r)).
Notation ok2 := (okm (λ x, raft_ok x.2)).

(** *** Proposing leaves the round alone *)
Lemma propose_dedup_ok r item b : raft_ok r → ok2 (propose_item_dedup r item b).
Proof. intros Hr. apply okm_bind_any. intros x. by apply okm_ret. Qed.
Lemma cr_propose_item_ok r item : raft_ok r → ok2 (cr_propose_item r item).
Proof. intros Hr. do 2 (apply okm_bind_any; intros ?). by apply okm_ret. Qed.
Lemma propose_runtime_ok r item : raft_ok r → okm raft_ok (propose_runtime_item r item).
Proof. intros Hr. eapply okm_bind; [by apply cr_propose_item_ok|]. intros x Hx. by apply okm_ret. Qed.
Lemma propose_initial_ok r : raft_ok r → okm raft_ok (propose_initial_item r).
Proof.
  intros Hr. unfold propose_initial_item. destruct (local_initial_proposal r) as [[| |item [b|]]|]; try done.
  - by apply okm_ret.
  - eapply okm_bind; [by apply propose_dedup_ok|]. intros x Hx. apply okm_bind_any. intros _. by apply okm_ret.
  - eapply okm_bind; [by apply cr_propose_item_ok|]. intros x Hx. by apply okm_ret.
Qed.
Lemma propose_last_info_ok r block : raft_ok r → ok2 (propose_block_with_last_info r block).
Proof.
  intros Hr. unfold propose_block_with_last_info. destruct (local_initial_proposal r) as [[| |]|];
    try by apply okm_ret.
  all: eapply okm_bind; [by apply propose_dedup_ok|]; intros x Hx; by apply okm_ret.
Qed.
Lemma propose_pipeline_ok r item : raft_ok r → ok2 (propose_mining_pipeline_item r item).
Proof.
  intros Hr. unfold propose_mining_pipeline_item. destruct (current_block _); [|by apply okm_ret].
  eapply okm_bind; [by apply propose_dedup_ok|]. intros [[key|] r'] Hx; by apply okm_ret.
Qed.
Lemma propose_event_ok r : raft_ok r → ok2 (propose_mining_event_at_timeout r).
Proof.
  intros Hr. unfold propose_mining_event_at_timeout. destruct (mining_event_at_timeout _); [|by apply okm_ret].
  by apply propose_pipeline_ok.
Qed.
Lemma propose_cmd_ok r item : raft_ok r → okm raft_ok (let! x := cr_propose_item r item in Ret x.2).
Proof. intros Hr. eapply okm_bind; [by apply cr_propose_item_ok|]. intros x Hx. by apply okm_ret. Qed.
Lemma propose_local_ok r : raft_ok r → okm raft_ok (propose_local_transactions_at_timeout r).
Proof.
  intros Hr. unfold propose_local_transactions_at_timeout. destruct (take_first_n _ _) as [txs rest].
  case_decide; [by apply okm_ret|]. by apply propose_cmd_ok.
Qed.
Lemma propose_druid_ok r : raft_ok r → okm raft_ok (propose_local_druid_transactions r).
Proof.
  intros Hr. unfold propose_local_druid_transactions. destruct (local_tx_druid_pool r); [by apply okm_ret|].
  by apply propose_cmd_ok.
Qed.
Lemma re_propose_ok r : raft_ok r → raft_ok (cr_re_propose_uncommitted_current_b_num r).
Proof. intros Hr. unfold cr_re_propose_uncommitted_current_b_num. by destruct (current_block_num _). Qed.
Lemma take_mining_ok r : raft_ok (cr_take_mining_block r).2.
Proof. by apply round_ok_none. Qed.

(** *** Blocks *)
Lemma generate_block_merkle c : okm (λ c', ∀ b, current_block (block_pipeline c') = Some b → merkle_ok b) (generate_block c).
Proof.
  intros c'. unfold generate_block. destruct (update_current_block_tx _) as [[c1 b1] bt].
  intros ([c2 b2] & Hh & [= <-])%obind_ret b Hb. cbn in Hb. injection Hb as <-.
  revert Hh. by intros (prev & _ & (n & _ & [= _ <-])%obind_ret)%obind_ret; apply merkle_set.
Qed.
Lemma generate_first_merkle c :
  okm (λ c', ∀ b, current_block (block_pipeline c') = Some b → merkle_ok b) (generate_first_block c).
Proof. intros c' (txs & _ & [= <-])%obind_ret b [= <-]. apply merkle_set. Qed.
Lemma cc_start_items_round c : (∀ b, current_block (block_pipeline c) = Some b → merkle_ok b) →
  okm (λ c', round_ok (block_pipeline c')) (cc_start_items_intake c).
Proof.
  intros Hm c' (p & Hp & (p' & Hp' & [= <-])%obind_ret)%obind_ret. eapply start_items_round, Hp'.
  revert Hp. unfold pipeline_construct_unicorn. intros (b & Hb%unwrap_ret & (sd & _ & (u & _ & [= <-])%obind_ret)%obind_ret)%obind_ret.
  intros b' [= <-]. apply (Hm b Hb).
Qed.
Lemma apply_ready_round c : round_ok (block_pipeline c) →
  okm (λ c', round_ok (block_pipeline c')) (apply_ready_block_stored_info c).
Proof.
  intros Hc. unfold apply_ready_block_stored_info. apply (okm_bind (λ x, block_pipeline x.2 = block_pipeline c)).
  { by intros _ (best & _ & [= <-])%obind_ret. }
  intros [[utxo|info] c1] E; cbn [snd] in E.
  - intros c'. cbn. destruct (_ =? 0); [done|]. intros [= <-]. by apply round_ok_none.
  - destruct (_ && _); [intros c' [= <-]; cbn; by rewrite E|].
    intros c'. cbn. destruct (_ =? 0); [done|]. intros [= <-]. by apply round_ok_none.
Qed.
Lemma snapshot_event_ok r : raft_ok r → okm raft_ok (event_processed_generate_snapshot r).
Proof. intros Hr r' [E _]%snapshot_fields. unfold raft_ok. by rewrite E. Qed.
Lemma re_align_event_ok r b : raft_ok r → okm raft_ok (event_processed_re_align_utxo_set r b).
Proof. intros Hr r' [E _]%re_align_fields. unfold raft_ok. by rewrite E. Qed.

(** *** The log *)
Definition entry_ok r (commit : RaftCommit) : Prop :=
  match commit_data commit with
  | Proposed data _ => ∀ item b, deserialize data = Some (ItemPipeline item b) →
      current_block_num (block_pipeline (consensused r)) = Some b → item_ok (block_pipeline (consensused r)) item
  | Snapshot data => ∀ c, deserialize data = Some c → round_ok (block_pipeline c)
  | NewLeader => True
  end.

Lemma commit_first_ok r key utxo : raft_ok r → ok2 (commit_first_block r key utxo).
Proof.
  intros Hr. unfold commit_first_block. destruct (negb _); [by apply okm_ret|].
  destruct (has_block_stored_info_ready _); [|by apply okm_ret].
  eapply okm_bind; [by apply apply_ready_round|]. intros c1 _.
  eapply okm_bind; [apply generate_first_merkle|]. intros c2 Hc2.
  eapply okm_bind; [by apply cc_start_items_round|]. intros c3 Hc3.
  eapply okm_bind; [by apply snapshot_event_ok|]. intros r1 Hr1. by apply okm_ret.
Qed.
Lemma commit_block_ok r key info : raft_ok r → ok2 (commit_block r key info).
Proof.
  intros Hr. unfold commit_block. destruct (negb _); [by apply okm_ret|].
  destruct (has_block_stored_info_ready _); [|by apply okm_ret].
  eapply okm_bind; [by apply apply_ready_round|]. intros c1 Hc1.
  destruct (is_shutdown_on_commit _).
  - eapply okm_bind; [by apply re_align_event_ok|]. intros r1 Hr1.
    eapply okm_bind; [by apply snapshot_event_ok|]. intros r2 Hr2. by apply okm_ret.
  - eapply okm_bind; [apply generate_block_merkle|]. intros c2 Hc2.
    eapply okm_bind; [by apply cc_start_items_round|]. intros c3 Hc3.
    eapply okm_bind; [by apply re_align_event_ok|]. intros r1 Hr1.
    eapply okm_bind; [by apply snapshot_event_ok|]. intros r2 Hr2. by apply okm_ret.
Qed.
Lemma commit_pipeline_ok r key item b : raft_ok r →
  (current_block_num (block_pipeline (consensused r)) = Some b → item_ok (block_pipeline (consensused r)) item) →
  ok2 (commit_pipeline_item r key item b).
Proof.
  intros Hr Hi. unfold commit_pipeline_item.
  destruct (is_current_block (consensused r) b) eqn:Eb; cbn [negb]; [|by apply okm_ret].
  assert (Hc : current_block_num (block_pipeline (consensused r)) = Some b).
  { revert Eb. unfold is_current_block. destruct (current_block_num _); [|done]. by intros ->%Z.eqb_eq. }
  apply (okm_bind (λ x, round_ok (block_pipeline x.2))).
  - intros [o c] ([o' p] & Hp & [= _ <-])%obind_ret. exact (handle_item_round _ _ _ _ _ Hr (Hi Hc) Hp).
  - intros [[[]|] c] Hp; by apply okm_ret.
Qed.
Lemma apply_snapshot_ok r data : raft_ok r →
  (∀ c, deserialize data = Some c → round_ok (block_pipeline c)) → ok2 (apply_snapshot r data).
Proof.
  intros Hr Hd. unfold apply_snapshot. destruct data as [|x data]; [by apply okm_ret|].
  intros [o r'] (c & Hc%unwrap_ret & (r1 & (n & _ & [= <-])%obind_ret & [= _ <-])%obind_ret)%obind_ret.
  cbn. destruct (local_initial_proposal r); by apply Hd.
Qed.

(** A proposal of the log is handled by [commit_item]; one that does not decode
    changes nothing here. *)
Lemma received_item r commit data ctx : commit_data commit = Proposed data ctx →
  ∃ r1, block_pipeline (consensused r1) = block_pipeline (consensused r) ∧
    cc_unanimous_majority (consensused r1) = cc_unanimous_majority (consensused r) ∧
    received_commit r commit =
      match deserialize data, deserialize (T := RaftContextKey) ctx with
      | Some item, Some key => commit_item r1 key item
      | _, _ => Ret (None, r1)
      end.
Proof.
  intros Ed. unfold received_commit. rewrite Ed. unfold cr_received_commit_proposal, received_commit_proposal.
  cbn [in_flight setter]. destruct (deserialize data) as [item|]; [|eexists; split_and!; [| |reflexivity]; reflexivity].
  destruct (deserialize ctx) as [key|]; [|eexists; split_and!; [| |reflexivity]; reflexivity]. cbv zeta.
  match goal with |- context [commit_item ?x _ _] => exists x end. by destruct (bool_decide _), item.
Qed.

Lemma received_commit_ok r commit : raft_ok r → entry_ok r commit → ok2 (received_commit r commit).
Proof.
  intros Hr He. unfold entry_ok in He. destruct (commit_data commit) as [data ctx|data|] eqn:Ed.
  - destruct (received_item r commit data ctx Ed) as (r1 & Ep & _ & ->).
    assert (Hr1 : raft_ok r1) by (unfold raft_ok; by rewrite Ep).
    destruct (deserialize data) as [item|] eqn:Ei; [|by apply okm_ret].
    destruct (deserialize ctx) as [key|]; [|by apply okm_ret].
    destruct item; cbn [commit_item].
    + by apply commit_first_ok.
    + by apply commit_block_ok.
    + by apply okm_ret.
    + by apply okm_ret.
    + apply commit_pipeline_ok; [done|]. rewrite Ep. by apply He.
    + apply okm_ret. unfold commit_coordinated_cmd. by destruct (has_coordinated_raft_cmd_info_ready _).
    + apply okm_ret. by destruct item.
  - unfold received_commit. rewrite Ed. by apply apply_snapshot_ok.
  - unfold received_commit. rewrite Ed. by apply okm_ret.
Qed.
End consensus.
#[export] Hint Resolve propose_dedup_ok cr_propose_item_ok propose_runtime_ok propose_initial_ok propose_last_info_ok
  propose_pipeline_ok propose_event_ok propose_cmd_ok propose_local_ok propose_druid_ok re_propose_ok take_mining_ok : mining.

(** ** The node *)
Section node.
Context `{CommsCrates, Ipv6Display, Naom, !NaomLaws, !NaomScripts, NaomReceipts, Rug, Hex, KeccakPrime}.
Context `{Bincode (list string), Bincode (list SocketAddr), Bincode (gset string), Bincode (option Z)}.
Context `{Bincode RaftContextKey, Bincode AccumulatingBlockStoredInfo, Bincode ComputeRaftItem,
  Bincode ComputeConsensused, Bincode Transaction, Bincode BlockHeader, Bincode (gset SocketAddr), Bincode Z}.
Context {M : Type} `{Bincode (ComputeRequest.t M), Bincode (StorageRequest M), Bincode MineRequest.t, Bincode UserRequest.t}.
Notation ComputeNode := (ComputeNode TlsCertificate M).
Implicit Types n : ComputeNode.

(** The block mined last passes the check of the storage node. *)
Definition mined_ok (mb : option MinedBlock) : Prop :=
  ∀ b, mb = Some b → ∃ h, construct_valid_block_pow_hash (cb_block (mb_common b)) = Ret (inr h).
Definition node_ok n : Prop := raft_ok (node_raft n) ∧ mined_ok (current_mined_block n).
Notation okn := (okm node_ok).
Notation okn2 := (okm (λ x, node_ok x.2)).

Lemma node_ok_raft n r : node_ok n → raft_ok r → node_ok (n <| node_raft := r |>).
Proof. intros [_ Hm] Hr. by split. Qed.
Lemma node_ok_node n nd : node_ok n → node_ok (n <| node := nd |>).
Proof. by intros Hn. Qed.
Hint Resolve node_ok_raft node_ok_node : mining.

(** Raft operations inside an operation of the node. *)
Lemma okn_raft n {B : Type} (Q : B → Prop) (m : outcome (ComputeRaft M)) k :
  okm raft_ok m → (∀ r, raft_ok r → okm Q (k r)) → okm Q (obind m k).
Proof. apply okm_bind. Qed.

Lemma send_ok n peer payload : node_ok n → node_ok (send_to n peer payload).2.
Proof. intros Hn. unfold send_to. by destruct (Comms.send _ _ _). Qed.
Lemma send_all_ok n peers payload : node_ok n → node_ok (send_all n peers payload).2.
Proof. intros Hn. unfold send_all. by destruct (send_to_all _ _ _). Qed.
Lemma put_internal_ok n key v : node_ok n → okn (put_internal n key v).
Proof. intros Hn. apply okm_bind_any. intros d. by apply okm_ret. Qed.
Hint Resolve send_ok send_all_ok put_internal_ok : mining.

Lemma append_ready_ok (l : list (bool * gmap string Transaction)) n : node_ok n →
  node_ok (foldl (λ n x, if x.1 : bool then n <| node_raft ::= λ r, append_to_tx_druid_pool r x.2 |> else n) n l).
Proof. revert n. induction l as [|[[] txs] l IH]; intros n Hn; cbn [foldl]; [done|by apply IH..]. Qed.

Lemma receive_transactions_ok n l : node_ok n → okn2 (receive_transactions n l).
Proof.
  intros Hn. unfold receive_transactions. destruct (negb _); [by apply okm_ret|].
  apply okm_bind_any. intros valid. cbv zeta. destruct (_ =? 0); [by apply okm_ret|].
  apply okm_bind_any. intros d. destruct (validate_dde_txs _ _) as [ready n1] eqn:E.
  apply okm_ret. cbn [snd]. apply append_ready_ok. revert E. unfold validate_dde_txs.
  destruct (foldl _ _ _). by intros [= _ <-].
Qed.

(** *** Miners *)
Lemma flush_unauthorized_fold (l : list SocketAddr) acc : node_ok acc.2 → node_ok (foldl flush_unauthorized_step acc l).2.
Proof.
  revert acc. induction l as [|a l IH]; intros [removed n] Hn; cbn [foldl]; [done|]. apply IH.
  unfold flush_unauthorized_step. destruct (negb _); [|done]. cbn [snd]. by apply send_ok.
Qed.
Lemma flush_unauthorized_ok n : node_ok n → node_ok (flush_unauthorized_miners n).2.
Proof.
  intros Hn. unfold flush_unauthorized_miners. destruct (negb _); [done|].
  pose proof (flush_unauthorized_fold (get_connected_miners n) ([], n) Hn) as Hf.
  by destruct (foldl _ _ _) as [l n1].
Qed.
Lemma flush_stale_ok n l : node_ok n → okn (Compute.flush_stale_miners n l).
Proof. intros Hn. eapply okm_bind; [by apply put_internal_ok|]. intros n1 Hn1. by apply okm_ret. Qed.

Lemma partition_request_ok n peer key : node_ok n → okn2 (receive_partition_request n peer key).
Proof.
  intros Hn. unfold receive_partition_request. cbv zeta. destruct (_ && _).
  { apply okm_ret. cbn [snd]. unfold disconnect. apply node_ok_node. by apply send_ok. }
  apply (okm_bind raft_ok).
  { destruct key; [|by apply okm_ret, Hn]. apply propose_runtime_ok, Hn. }
  intros r Hr. eapply okm_bind; [apply put_internal_ok; by apply node_ok_raft|]. intros n1 Hn1.
  destruct (bool_decide _); [|by apply okm_ret].
  eapply okm_bind; [apply propose_initial_ok, Hn1|]. intros r1 Hr1. apply okm_ret. by apply node_ok_raft.
Qed.
Lemma partition_entry_ok n peer info entry : node_ok n → okn2 (receive_partition_entry n peer info entry).
Proof.
  intros Hn. unfold receive_partition_entry. destruct (negb _); [by apply okm_ret|]. cbv zeta.
  destruct (get_mining_pipeline_status _), (participant_only info); try by apply okm_ret.
  all: apply okm_bind_any; intros valid; destruct (negb valid); [by apply okm_ret|];
    (eapply okm_bind; [by apply propose_pipeline_ok, Hn|]); intros x Hx; apply okm_ret; by apply node_ok_raft.
Qed.
Lemma receive_pow_ok n addr b nonce cb : node_ok n → okn2 (receive_pow n addr b nonce cb).
Proof.
  intros Hn. unfold receive_pow. cbv zeta. destruct (_ ≫= _) as [blk|]; [|by apply okm_ret].
  apply okm_bind_any. intros []; [by apply okm_ret|]. apply okm_bind_any. intros valid.
  destruct (negb valid); [by apply okm_ret|]. destruct (nonce_and_mining_tx_hash _) as [nc h].
  eapply okm_bind; [by apply propose_pipeline_ok, Hn|]. intros x Hx. apply okm_ret. by apply node_ok_raft.
Qed.

(** *** The block *)
Ltac send_step := match goal with |- context [send_all ?m ?l ?p] =>
  lazymatch m with context [send_all] => fail | _ => idtac end;
  let Hm := fresh "Hm" in assert (node_ok (send_all m l p).2) as Hm by (apply send_all_ok; assumption);
  destruct (send_all m l p) as [? ?]; cbn [fst snd] in Hm |- * end.

Lemma flood_ok n : node_ok n → okn (flood_rand_and_block_to_partition n).
Proof.
  intros Hn. unfold flood_rand_and_block_to_partition. cbv zeta.
  destruct (get_mining_pipeline_status _); [by apply okm_ret|..].
  all: apply okm_bind_any; intros block;
    pose proof (flush_unauthorized_ok n Hn) as Hu; destruct (flush_unauthorized_miners n) as [u nu]; cbn [snd] in Hu;
    repeat send_step; apply (okm_bind node_ok).
  all: try (intros n1 Hn1; apply okm_ret; by destruct (miners_changed n1)).
  all: destruct (_ ++ _); [by apply okm_ret|]; eapply okm_bind; [by apply flush_stale_ok|]; intros n1 Hn1;
    (eapply okm_bind; [apply propose_runtime_ok, Hn1|]); intros r Hr; apply okm_ret; by apply node_ok_raft.
Qed.
Lemma flood_users_ok n : node_ok n → okn (flood_block_to_users n).
Proof.
  intros Hn. unfold flood_block_to_users. apply okm_bind_any. intros b. send_step.
  destruct l; [by apply okm_ret|]. by apply put_internal_ok.
Qed.
Lemma flood_closing_ok n : node_ok n → node_ok (flood_closing_events n).
Proof. intros Hn. unfold flood_closing_events, send_compute_all. by repeat apply send_all_ok. Qed.

(** The winning proof of work was checked for the block it is applied to. *)
Lemma mining_block_mined_ok n : node_ok n → okn (mining_block_mined n).
Proof.
  intros [Hr _]. unfold mining_block_mined, cr_take_mining_block, cc_take_mining_block, take_mining_block.
  cbn [fst snd]. destruct (current_block (block_pipeline (consensused (node_raft n)))) as [b|] eqn:Eb; [|done].
  cbn [fmap option_fmap option_map unwrap obind].
  match goal with |- okm _ (obind (unwrap ?w) _) => destruct w as [[a w0]|] eqn:Ew; [|done] end.
  apply okm_ret. split; [by apply round_ok_none|]. intros mb [= <-]. cbn.
  destruct (Hr b Eb) as (Hm & _ & Hw). destruct (Hw _ Ew) as [d Hd].
  eexists. apply valid_block_iff. split; [exact Hm|]. exists d. split; [exact Hd|done].
Qed.
Lemma reset_mining_ok n r1 r2 : node_ok n → okn (reset_mining_block_process n r1 r2).
Proof.
  intros Hn. unfold reset_mining_block_process. cbv zeta.
  eapply okm_bind; [by apply put_internal_ok|]. intros n1 H1'. eapply okm_bind; [by apply put_internal_ok|].
  intros n2 [Hr2 _]. apply okm_ret. destruct (should_pause _); (split; [exact Hr2|]); by intros ? [=].
Qed.
Lemma block_stored_ok n peer info : node_ok n → okn2 (receive_block_stored n peer info).
Proof.
  intros Hn. unfold receive_block_stored. destruct (negb _); [by apply okm_ret|].
  eapply okm_bind; [apply propose_last_info_ok, Hn|]. intros [[] r] Hr; apply okm_ret; cbn [snd].
  - by apply node_ok_raft.
  - destruct Hn. split; [by apply re_propose_ok|done].
Qed.
Lemma resend_ok n : node_ok n → okn (Compute.resend_trigger_message n).
Proof.
  intros Hn. unfold Compute.resend_trigger_message. destruct (get_mining_pipeline_status _).
  - apply okm_ret. by apply send_ok.
  - by apply flood_ok.
  - eapply okm_bind; [by apply flood_ok|]. intros n1 H1'. destruct (enable_trigger_messages_pipeline_reset _); [|by apply okm_ret].
    cbv zeta. match goal with |- context [RESEND_TRIGGER_MESSAGES_COMPUTE_LIMIT <=? current_trigger_messages_count ?m] =>
      assert (node_ok m) by (by destruct (_ =? _)); destruct (_ <=? _); [|by apply okm_ret] end.
    eapply okm_bind; [apply propose_pipeline_ok; by destruct (_ =? _); apply H1'|]. intros x Hx. apply okm_ret.
    destruct (_ =? _); by apply (node_ok_raft n1).
Qed.
Lemma timeout_ok n : node_ok n → okn (timeout_mining_event n).
Proof.
  intros Hn. unfold timeout_mining_event. eapply okm_bind; [apply propose_event_ok, Hn|]. intros x Hx. cbv zeta.
  destruct (_ && _); [|apply okm_ret; by apply (node_ok_raft n)].
  apply resend_ok. destruct Hn. split; [by apply re_propose_ok|done].
Qed.
Lemma start_mining_ok n : node_ok n → okn (start_mining n).
Proof.
  intros Hn. unfold start_mining. destruct (negb _); [|by apply okm_ret].
  eapply okm_bind; [by apply flood_users_ok|]. intros n1. apply flood_ok.
Qed.

(** *** Coordination *)
Lemma apply_shared_ok n c : node_ok n → okn (apply_shared_config n c).
Proof.
  intros Hn. unfold apply_shared_config. cbv zeta.
  match goal with |- context [flush_unauthorized_miners ?m] =>
    pose proof (flush_unauthorized_ok m Hn) as Hu; destruct (flush_unauthorized_miners m) as [u n1] end.
  cbn [snd] in Hu. apply (okm_bind raft_ok); [destruct u; [apply propose_runtime_ok, Hu|by apply okm_ret, Hu]|].
  intros r Hr. apply okm_ret. by apply (node_ok_raft n1).
Qed.
Lemma cmd_ok n cmd : node_ok n → okn2 (handle_coordinated_cmd n cmd).
Proof.
  intros Hn. unfold handle_coordinated_cmd. destruct cmd; [by apply okm_ret..|].
  destruct (received_shared_config n); [|by apply okm_ret].
  eapply okm_bind; [by apply apply_shared_ok|]. intros n1 Hn1. by apply okm_ret.
Qed.
Lemma coordinated_send_ok n (b : bool) peers payload : node_ok n → node_ok (if b then (send_all n peers payload).2 else n).
Proof. intros Hn. destruct b; [by apply send_all_ok|done]. Qed.
Lemma pause_ok n peer b : node_ok n → okn2 (handle_coordinated_pause n peer b).
Proof.
  intros Hn. unfold handle_coordinated_pause. eapply okm_bind; [apply propose_cmd_ok, Hn|]. intros r Hr.
  apply okm_ret. apply coordinated_send_ok. by apply node_ok_raft.
Qed.
Lemma resume_ok n peer : node_ok n → okn2 (handle_coordinated_resume n peer).
Proof.
  intros Hn. unfold handle_coordinated_resume. eapply okm_bind; [apply propose_cmd_ok, Hn|]. intros r Hr.
  apply okm_ret. apply coordinated_send_ok. by apply node_ok_raft.
Qed.
Lemma shared_ok n peer c : node_ok n → okn2 (handle_shared_config n peer c).
Proof.
  intros Hn. unfold handle_shared_config. eapply okm_bind; [apply propose_cmd_ok, Hn|]. intros r Hr.
  apply okm_ret. cbn [snd]. match goal with |- node_ok (?m <| received_shared_config := _ |>) => enough (node_ok m) by done end.
  apply coordinated_send_ok. by apply node_ok_raft.
Qed.

(** *** Requests *)
Lemma send_fetched_ok n : node_ok n → node_ok (send_fetched_utxo_set n).2.
Proof.
  intros Hn. unfold send_fetched_utxo_set. destruct (fetched_utxo_set n) as [[[peer []] f]|]; try done;
    cbn [snd]; by apply send_ok.
Qed.
Lemma api_request_ok n peer req : node_ok n → okn2 (handle_api_request n peer req).
Proof.
  intros Hn. unfold handle_api_request. destruct (negb _); [by apply okm_ret|].
  destruct req; try by apply okm_ret.
  - destruct (create_receipt_asset_tx _ _ _ _ _ _ _) as [|[tx h]]; [by apply okm_ret|].
    eapply okm_bind; [by apply receive_transactions_ok|]. intros x Hx. by apply okm_ret.
  - eapply okm_bind; [by apply receive_transactions_ok|]. intros x Hx. by apply okm_ret.
Qed.
Lemma request_ok n peer req : node_ok n → okn2 (Compute.handle_request n peer req).
Proof.
  intros Hn. destruct req; cbn [Compute.handle_request]; cbv zeta; try by apply okm_ret.
  - by apply api_request_ok.
  - eapply okm_bind; [by apply shared_ok|]. intros x Hx. by apply okm_ret.
  - by apply block_stored_ok.
  - by apply receive_pow_ok.
  - by apply partition_entry_ok.
  - eapply okm_bind; [by apply receive_transactions_ok|]. intros x Hx. by apply okm_ret.
  - eapply okm_bind; [by apply partition_request_ok|]. intros x Hx. by apply okm_ret.
  - apply (okm_bind (λ x, node_ok x.2)); [|intros x Hx; by apply okm_ret].
    eapply okm_bind; [by apply put_internal_ok|]. intros n1 Hn1. by apply okm_ret.
  - eapply okm_bind; [by apply pause_ok|]. intros x Hx. by apply okm_ret.
  - eapply okm_bind; [by apply resume_ok|]. intros x Hx. by apply okm_ret.
  - apply okm_ret. unfold Compute.receive_closing. repeat (destruct (negb _); try done).
  - apply okm_ret. cbn [snd]. unfold handle_receive_request_runtime_data, send_compute.
    pose proof (send_ok n peer (serialize (ComputeRequest.SendRuntimeData (M := M)
      (mkRuntimeData (mining_api_keys (consensused (node_raft n)))))) Hn) as Hs.
    by destruct (send_to _ _ _) as [[] ?].
  - apply okm_ret. cbn [snd]. unfold handle_receive_runtime_data. by destruct (negb _).
Qed.

(** *** The event loop *)
Lemma committed_ok co n commit r1 r2 : node_ok n → entry_ok (node_raft n) commit →
  okn2 (Compute.handle_committed_data co n commit r1 r2).
Proof.
  intros Hn He. unfold Compute.handle_committed_data.
  eapply okm_bind; [apply received_commit_ok; [apply Hn|done]|]. intros [o r] Hr. cbn [fst snd] in *. cbv zeta.
  pose proof (node_ok_raft n r Hn Hr) as Hn1. set (n1 := n <| node_raft := r |>) in *. clearbody n1.
  assert (Hb : ∀ reason, okn2 (let! n := reset_mining_block_process n1 r1 r2 in
      let! n := backup_persistent_dbs n in Ret (Some (ok reason), n))).
  { intros reason. eapply okm_bind; [by apply reset_mining_ok|]. intros n2 Hn2.
    apply (okm_bind node_ok); [apply okm_bind_any; intros _; by apply okm_ret|]. intros n3 Hn3. by apply okm_ret. }
  destruct o as [[]|]; try apply Hb; try by apply okm_ret.
  - eapply okm_bind; [by apply mining_block_mined_ok|]. intros n2 Hn2. by apply okm_ret.
  - apply okm_bind_any. intros d. by apply okm_ret.
  - apply (okm_bind node_ok); [destruct co; [by apply apply_shared_ok|by apply okm_ret]|]. intros n2 Hn2. by apply okm_ret.
  - eapply okm_bind; [by apply cmd_ok|]. intros x Hx. by apply okm_ret.
Qed.
Lemma response_ok n resp : node_ok n → okn2 (Compute.handle_next_event_response n resp).
Proof.
  intros Hn. unfold Compute.handle_next_event_response. cbv zeta. destruct resp as [|[[] reason]]; try by apply okm_ret.
  assert (Hc : ∀ m, okn m → okn2 (let! n := m in Ret (ResultContinue, n))).
  { intros m Hm. eapply okm_bind; [exact Hm|]. intros n1 Hn1. by apply okm_ret. }
  repeat match goal with |- okm _ (if ?b then _ else _) => destruct b end; try apply Hc; try by apply okm_ret.
  - apply okm_ret. by apply send_fetched_ok.
  - by apply flood_ok.
  - apply okm_ret. by apply send_ok.
  - destruct (received_runtime_data n); [|by apply okm_ret]. eapply okm_bind; [apply propose_runtime_ok, Hn|].
    intros r Hr. apply okm_ret. by apply (node_ok_raft n).
  - by apply start_mining_ok.
  - apply okm_ret. by apply flood_closing_ok.
Qed.

(** A call from the API's threads is one of its requests. *)
Definition api_call (f : ComputeNode → outcome ComputeNode) : Prop :=
  ∃ req, ∀ n, f n = (let! x := handle_api_request n (local_address n) req in Ret x.2).
(** What the branch receives: the next entry of the log, an API call. *)
Definition selected_ok n (sel : Compute.Selected) : Prop :=
  match sel with
  | SelCommit _ _ => ∀ commit r, cr_next_commit (node_raft n) = Some (commit, r) → entry_ok r commit
  | SelCall f => api_call f
  | _ => True
  end.
Lemma event_ok co msg_to n sel o n' : node_ok n → selected_ok n sel →
  Compute.handle_next_event co msg_to n sel = Ret (Some (o, n')) → node_ok n'.
Proof.
  intros Hn Hs. unfold Compute.handle_next_event. destruct sel; cbv zeta; cbn [selected_ok] in Hs.
  - destruct (negb _); [|done]. destruct (next_event _) as [[[peer frame] nd]|]; [|done].
    unfold Compute.handle_new_frame. destruct (deserialize frame) as [req|]; [|by intros [= _ <-]].
    intros ([r n1] & ([r1 n2] & Hq & [= <- <-])%obind_ret & [= _ <-])%obind_ret. exact (request_ok _ _ _ (node_ok_node n nd Hn) _ Hq).
  - destruct (cr_is_shutdown_commit_processed _); [done|].
    destruct (cr_next_commit (node_raft n)) as [[commit r]|] eqn:Ec; [|done].
    intros ([o1 n1] & Hq & [= _ <-])%obind_ret.
    assert (Er : consensused r = consensused (node_raft n)).
    { revert Ec. unfold cr_next_commit. by destruct (next_commit _) as [[? ?]|]; cbn; [intros [= _ <-]|]. }
    assert (Hn1 : node_ok (n <| node_raft := r |>)).
    { apply node_ok_raft; [done|]. unfold raft_ok. rewrite Er. apply Hn. }
    exact (committed_ok co _ commit random1 random2 Hn1 (Hs _ _ eq_refl) _ Hq).
  - destruct (negb _); [|done]. intros ([[[addr msg] r]|] & Hq & [= _ <-])%obind_ret. apply send_ok.
    apply node_ok_raft; [done|]. revert Hq. unfold cr_next_msg. intros (x & _ & Hx)%obind_ret.
    destruct x as [[[a' m'] ra]|]; [|done]. cbn in Hx. injection Hx as <- <- <-. apply Hn.
  - destruct (_ && _); [|done]. intros (r & Hr & (r' & Hr' & [= _ <-])%obind_ret)%obind_ret. apply node_ok_raft; [done|].
    eapply propose_druid_ok, Hr'. eapply propose_local_ok, Hr. apply Hn.
  - destruct (_ && _); [|done]. intros (n1 & Hq & [= _ <-])%obind_ret. by eapply timeout_ok.
  - destruct (negb _); [|done]. destruct (local_events n) as [|e rest]; [done|].
    destruct (Compute.handle_local_event _ e) as [r n1] eqn:E. intros [= _ <-].
    revert E. unfold Compute.handle_local_event. destruct e; intros [= _ <-]; try done. apply send_all_ok. done.
  - destruct (negb _); [|done]. intros (n1 & Hq & [= _ <-])%obind_ret. destruct Hs as [req Hs]. rewrite Hs in Hq.
    apply obind_ret in Hq as ([r n2] & Hq & [= <-]). by eapply (api_request_ok _ _ _ Hn _ Hq).
  - by intros [= _ <-].
Qed.

(** *** Runs of the node

    Besides the event loop, the tasks of the connections and the raft loop
    change what they share with the node, in any way here. *)
Inductive run_step (co : bool) (msg_to : M → Z) : relation ComputeNode :=
  | run_network n nd : run_step co msg_to n (n <| node := nd |>)
  | run_raft n ra : run_step co msg_to n (n <| node_raft ::= λ r, r <| raft_active := ra |> |>)
  | run_event n sel o n' : selected_ok n sel →
      Compute.handle_next_event co msg_to n sel = Ret (Some (o, n')) → run_step co msg_to n n'
  | run_response n response res n' :
      Compute.handle_next_event_response n response = Ret (res, n') → run_step co msg_to n n'.

Lemma load_random_ok n key random : node_ok n → okn2 (load_random_num n key random).
Proof.
  intros Hn. apply okm_bind_any. intros stored. cbv zeta. eapply okm_bind; [by apply put_internal_ok|].
  intros n1 Hn1. by apply okm_ret.
Qed.
Lemma load_db_ok n r1 r2 : node_ok n →
  okm (λ x, match x with inr n' => node_ok n' | inl _ => True end) (Compute.load_local_db n r1 r2).
Proof.
  intros Hn. unfold Compute.load_local_db. apply okm_bind_any. intros [l|]; [|by apply okm_ret]. cbv zeta.
  match goal with |- okm _ (obind (load_list ?m _ _) _) => assert (Hn1 : node_ok m); [|set (n1 := m) in *; clearbody n1] end.
  { destruct (request_list_first_flood _); [by destruct (_ <=? _)|done]. }
  apply okm_bind_any. intros [l2|]; [|by apply okm_ret].
  eapply okm_bind; [by apply load_random_ok|]. intros [v1 n2] Hn2.
  eapply okm_bind; [by apply load_random_ok|]. intros [v2 n3] Hn3.
  apply okm_bind_any. intros stored. destruct (match stored with Some _ => _ | None => _ end); [|by apply okm_ret].
  eapply okm_bind; [by apply put_internal_ok|]. intros n4 Hn4. apply okm_bind_any. intros txs. by apply okm_ret.
Qed.
Lemma new_raft_ok config utxo : okm raft_ok (ComputeRaft_new (M := M) config utxo).
Proof.
  intros r. unfold ComputeRaft_new. cbv zeta. intros (ra & _ & (c & Hc & Hr)%obind_ret)%obind_ret.
  destruct (peers_len ra =? 0); [done|]. injection Hr as <-. apply round_ok_none. cbn [consensused].
  revert Hc. by intros (p & [= <-] & [= <-])%obind_ret.
Qed.

(** C3: every block that a compute node holds as mined, and so sends to its
    storage node, passes the check of the storage node: the transactions have
    the merkle root of the header, and the header with the nonce and the mining
    transaction of the winner has a valid proof of work.  This holds after any
    sequence of branches of the event loop and responses from the start of the
    node, whatever peers send, as long as the proofs of work of the log are
    valid for the block they were proposed for and snapshots are of such a
    state. *)
Theorem mined_block_valid co msg_to NV version config utxo extra rng random1 random2 n0 n mb :
  ComputeNode_new NV version config utxo extra rng random1 random2 = Ret (inr n0) →
  rtc (run_step co msg_to) n0 n → current_mined_block n = Some mb →
  ∃ h, construct_valid_block_pow_hash (cb_block (mb_common mb)) = Ret (inr h).
Proof.
  intros Hnew Hrun. assert (node_ok n0) as Hn0.
  { unfold ComputeNode_new in Hnew. destruct (compute_nodes _ !! _); [|done]. destruct (cfg_storage_nodes _ !! _); [|done].
    cbv zeta in Hnew. apply obind_ret in Hnew as (r & Hr%new_raft_ok & (d & _ & Hl)%obind_ret).
    refine (load_db_ok _ _ _ _ _ Hl). split; [exact Hr|by intros ? [=]]. }
  assert (node_ok n) as [_ Hm]; [|by apply Hm]. revert Hn0. clear Hnew.
  induction Hrun as [|n1 n2 n3 Hs _ IH]; [done|]. intros H1'. apply IH. inversion Hs; subst; [exact H1'..| |].
  - by eapply event_ok.
  - by eapply (response_ok n1 response H1' (res, n2)).
Qed.

(** The proofs of work a node may propose. *)
Definition pow_acceptable n (address : SocketAddr) (block_num : Z) (nonce : list Z) (coinbase : Transaction) : Prop :=
  ∃ b o, get_mining_block (node_raft n) = Some b ∧ block_num = b_num (header b) ∧
    address ∈ lookup (cr_get_mining_participants (node_raft n)) ∧
    is_coinbase coinbase = true ∧ outputs coinbase !! 0%nat = Some o ∧
    token_amount (value o) = get_current_reward (node_raft n) ∧
    pow_ok (header b) (mkWinningPoWInfo nonce (construct_tx_hash coinbase, coinbase) 0 0).

Lemma node_raft_self n : n <| node_raft := node_raft n |> = n.
Proof. by destruct n. Qed.
Lemma in_flight_self (r : ComputeRaft M) : r <| in_flight := in_flight r |> <| raft_active := raft_active r |> = r.
Proof. by destruct r. Qed.

(** The item that carries an accepted proof of work. *)
Definition pow_item (address : SocketAddr) (block_num : Z) (nonce : list Z) (coinbase : Transaction) : ComputeRaftItem :=
  ItemPipeline (WinningPoW address (mkWinningPoWInfo nonce (construct_tx_hash coinbase, coinbase) 0 0)) block_num.

(** The node has proposed this item for this block before, or forgets the items
    of so old a block. *)
Definition proposed_before n (item : ComputeRaftItem) (block_num : Z) : Prop :=
  block_num < min_b_num (in_flight (node_raft n)) ∨
  is_Some (already_proposed_hashes (in_flight (node_raft n)) !! sha3_256 (serialize item)).


(** *** A reset that comes late *)

(** The log entry holds the last vote for a reset. *)
Definition last_reset_vote n (commit : RaftCommit) (b : Z) : Prop :=
  ∃ data ctx key, commit_data commit = Proposed data ctx ∧
    deserialize data = Some (ItemPipeline ResetPipeline b) ∧ deserialize ctx = Some key ∧
    cc_unanimous_majority (consensused (node_raft n)) ≤
      zcard ({[proposer_id key]} ∪ current_phase_reset_pipeline_peer_ids (block_pipeline (consensused (node_raft n)))).

(** Halting keeps the votes for a reset. *)
Lemma handle_halted (p p' : MiningPipelineInfo) item extra :
  handle_mining_pipeline_item p item extra = Ret (Some StartPhaseHalted, p') →
  mining_pipeline_status p' = Halted ∧ current_block_num p' = current_block_num p ∧
  current_phase_reset_pipeline_peer_ids p ⊆ current_phase_reset_pipeline_peer_ids p'.
Proof.
  unfold handle_mining_pipeline_item. cbv zeta.
  assert (Hi : let p1 := intake_item p item (event_proposer_id extra) in current_block_num p1 = current_block_num p ∧
    current_phase_reset_pipeline_peer_ids p ⊆ current_phase_reset_pipeline_peer_ids p1).
  { cbv zeta. unfold intake_item, add_to_winning_pow, append_reset_pipeline_timeout.
    destruct item as [a []| | | |], (mining_pipeline_status p); try destruct (negb _); cbn; (split; [done|set_solver]). }
  cbv zeta in Hi. set (p1 := intake_item _ _ _) in *. clearbody p1. destruct Hi as [<- Hv].
  destruct (has_ready_reset_pipeline _ _); [by intros (? & _ & [=])%obind_ret|].
  destruct (mining_pipeline_status p); [done|by destruct (has_ready_select_participating_miners _ _); [intros (? & _ & [=])%obind_ret|]|].
  destruct (has_ready_select_winning_miner _ _); [|done].
  intros (p2 & (w & _ & [= <-])%obind_ret & [= <-])%obind_ret. by cbn.
Qed.

Lemma commit_halted (r r' : ComputeRaft M) commit : received_commit r commit = Ret (Some CommittedStartPhaseHalted, r') →
  let p := block_pipeline (consensused r) in let p' := block_pipeline (consensused r') in
  mining_pipeline_status p' = Halted ∧ current_block_num p' = current_block_num p ∧
  current_phase_reset_pipeline_peer_ids p ⊆ current_phase_reset_pipeline_peer_ids p' ∧
  cc_unanimous_majority (consensused r') = cc_unanimous_majority (consensused r).
Proof.
  cbv zeta. destruct (commit_data commit) as [data ctx|data|] eqn:Ed.
  3:{ unfold received_commit. by rewrite Ed. }
  2:{ unfold received_commit, apply_snapshot. rewrite Ed. destruct data; [done|]. by intros (c & _ & (r1 & _ & [=])%obind_ret)%obind_ret. }
  destruct (received_item r commit data ctx Ed) as (r1 & <- & <- & ->).
  destruct (deserialize data) as [item|]; [|done]. destruct (deserialize ctx) as [key|]; [|done].
  destruct item; cbn [commit_item]; try done.
  - unfold commit_first_block. destruct (negb _); [done|]. destruct (has_block_stored_info_ready _); [|done].
    by intros (? & _ & (? & _ & (? & _ & (? & _ & [=])%obind_ret)%obind_ret)%obind_ret)%obind_ret.
  - unfold commit_block. destruct (negb _); [done|]. destruct (has_block_stored_info_ready _); [|done].
    intros (? & _ & Hc)%obind_ret. destruct (is_shutdown_on_commit _); repeat apply obind_ret in Hc as (? & _ & Hc); done.
  - unfold commit_pipeline_item. destruct (negb _); [done|].
    intros ([o c] & ([o' p] & Hp & [= <- <-])%obind_ret & Hc)%obind_ret. cbn [fst snd] in Hc.
    destruct o' as [[]|]; try done. injection Hc as <-. cbn. by apply handle_halted in Hp as (? & ? & ?).
  - unfold commit_coordinated_cmd. destruct (has_coordinated_raft_cmd_info_ready _); [|done].
    by destruct (take_ready_coordinated_raft_cmd _).
Qed.

Lemma commit_late_reset (r : ComputeRaft M) key b : let p := block_pipeline (consensused r) in
  current_block_num p = Some b →
  cc_unanimous_majority (consensused r) ≤ zcard ({[proposer_id key]} ∪ current_phase_reset_pipeline_peer_ids p) →
  ∃ r', commit_pipeline_item r key ResetPipeline b = Ret (Some CommittedResetPipeline, r') ∧
    mining_pipeline_status (block_pipeline (consensused r')) = ParticipantOnlyIntake ∧
    current_block (block_pipeline (consensused r')) = current_block p.
Proof.
  cbv zeta. intros Hb Hv. unfold commit_pipeline_item, is_current_block. rewrite Hb, Z.eqb_refl. cbn [negb].
  unfold cc_handle_mining_pipeline_item, handle_mining_pipeline_item. cbv zeta.
  set (p := block_pipeline (consensused r)) in *. clearbody p.
  assert (Hi : intake_item p ResetPipeline (event_proposer_id (pipeline_extra (consensused r) (proposer_id key))) =
    append_reset_pipeline_timeout p (proposer_id key)) by (unfold intake_item; by destruct (mining_pipeline_status p)).
  rewrite Hi. unfold has_ready_reset_pipeline. cbn [unanimous_majority pipeline_extra].
  change (current_phase_reset_pipeline_peer_ids (append_reset_pipeline_timeout p (proposer_id key))) with
    ({[proposer_id key]} ∪ current_phase_reset_pipeline_peer_ids p).
  rewrite (proj2 (Z.leb_le _ _) Hv). unfold handle_reset_pipeline, start_items_intake. cbv zeta.
  rewrite decide_True by reflexivity. eexists. split; [reflexivity|]. split; reflexivity.
Qed.

Lemma timeout_without_block n : mining_pipeline_status (block_pipeline (consensused (node_raft n))) = ParticipantOnlyIntake →
  current_block (block_pipeline (consensused (node_raft n))) = None → disable_trigger_messages n = false →
  timeout_mining_event n = Panic.
Proof.
  intros Hs Hb Hd. unfold timeout_mining_event, propose_mining_event_at_timeout, mining_event_at_timeout. rewrite Hs.
  unfold propose_mining_pipeline_item. rewrite Hb. cbn [obind fst snd].
  change (disable_trigger_messages (n <| node_raft := node_raft n |>)) with (disable_trigger_messages n). rewrite Hd. cbn [negb andb].
  assert (Hr : ∀ m : ComputeNode, consensused (node_raft m) = consensused (node_raft n) → Compute.resend_trigger_message m = Panic).
  { intros m Em. unfold Compute.resend_trigger_message, flood_rand_and_block_to_partition, get_mining_pipeline_status,
      get_mining_block. by rewrite Em, Hs, Hb. }
  apply Hr. cbn. unfold cr_re_propose_uncommitted_current_b_num. cbn. by destruct (current_block_num _).
Qed.

(** C20: halting the pipeline does not clear the votes for a reset.  When the
    vote that was missing is committed after the winner has been chosen, the
    pipeline takes participants again although the block has been taken out of
    it, and the next mining time-out stops the node with a panic. *)
Theorem late_reset_panics co n commit random1 random2 r resp n1 commit2 random3 random4 b :
  received_commit (node_raft n) commit = Ret (Some CommittedStartPhaseHalted, r) →
  Compute.handle_committed_data co n commit random1 random2 = Ret (resp, n1) →
  current_block_num (block_pipeline (consensused (node_raft n))) = Some b → last_reset_vote n commit2 b →
  disable_trigger_messages n = false →
  ∃ n2, Compute.handle_committed_data co n1 commit2 random3 random4 = Ret (Some (ok "Pipeline reset"), n2) ∧
    timeout_mining_event n2 = Panic.
Proof.
  intros Hc Hn1 Hb (data & ctx & key & Ed & Ei & Ek & Hv) Hd.
  unfold Compute.handle_committed_data in Hn1. rewrite Hc in Hn1. cbn [obind fst snd] in Hn1.
  apply obind_ret in Hn1 as (n2 & Hm & [= _ <-]).
  apply commit_halted in Hc as (Hs & Hcb & Hvotes & Hu). cbv zeta in *.
  unfold mining_block_mined in Hm. cbn in Hm. apply obind_ret in Hm as ([block btx] & _ & (w & _ & [= <-])%obind_ret).
  unfold Compute.handle_committed_data.
  match goal with |- context [received_commit ?x commit2] => destruct (received_item x commit2 data ctx Ed) as (r1 & Ep & Eu & ->) end.
  rewrite Ei, Ek. cbn [commit_item]. cbn in Ep, Eu.
  destruct (commit_late_reset r1 key b) as (r2 & -> & Hs2 & Hb2).
  - rewrite Ep. cbn. by rewrite Hcb.
  - rewrite Ep, Eu, Hu. cbn. etrans; [exact Hv|]. unfold zcard. apply Nat2Z.inj_le, subseteq_size. set_solver.
  - eexists. split; [reflexivity|]. apply timeout_without_block; [exact Hs2| |exact Hd].
    cbn. rewrite Hb2, Ep. reflexivity.
Qed.

(** A coinbase that [is_coinbase] accepts but that has no outputs stops the
    node; any selected miner can send it. *)
Theorem empty_coinbase_panics n address nonce coinbase b :
  get_mining_block (node_raft n) = Some b → address ∈ lookup (cr_get_mining_participants (node_raft n)) →
  is_coinbase coinbase = true → outputs coinbase = [] →
  receive_pow n address (b_num (header b)) nonce coinbase = Panic.
Proof.
  intros Hb Hp Hc Ho. unfold receive_pow. rewrite Hb. cbn. rewrite Z.eqb_refl. unfold Participants_contains.
  rewrite bool_decide_true by done. cbn. by rewrite Hc, Ho.
Qed.
End node.

(** ** Witnesses *)
Module MiningExamples.
Import TestExternals RaftUtilExamples CommsExamples ComputeExamples.

(** A round of one compute node: the first block, a miner, its proof of work. *)
Definition m0 := with_log n_new [entry 1 0; entry 1 1; entry 1 2; entry 1 3; entry 1 4].
Definition m1 := after m0.
Definition m2 := after m1.
Definition m3 := after m2.
Definition m4 := after m3.
Definition m5 := after m4.
Definition m_block : Block :=
  mkBlock (mkBlockHeader 0 0 ([0; 8], "m"%string) 0 [45] None (EmptyString, "g"%string)) ["g"%string].

Lemma steps : Forall (λ x, commit_next x.1 = Ret (Some (x.2, after x.1)))
  [(m0, Some (inr (ok "First Block committed"))); (m1, None); (m2, Some (inr (ok "Winning PoW intake open")));
   (m3, None); (m4, Some (inr (ok "Pipeline halted")))].
Proof. repeat (apply Forall_cons_2; [vm_compute; reflexivity|]). apply Forall_nil_2. Qed.
Lemma mined : cb_block ∘ mb_common <$> current_mined_block m5 = Some m_block.
Proof. vm_compute. reflexivity. Qed.

Lemma next_entry (m : ComputeNode TlsCertificate unit) e commit r :
  fst <$> cr_next_commit (node_raft m) = Some e → cr_next_commit (node_raft m) = Some (commit, r) →
  commit = e ∧ block_pipeline (consensused r) = block_pipeline (consensused (node_raft m)).
Proof.
  intros He Hc. rewrite Hc in He. injection He as ->. split; [done|]. revert Hc. unfold cr_next_commit.
  destruct (next_commit (raft_active (node_raft m))) as [[c ra]|]; [|done]. by intros [= _ <-].
Qed.
Lemma quiet_entry m proposer i item : fst <$> cr_next_commit (node_raft m) = Some (entry proposer i) →
  log_items !! Z.to_nat i = Some item → (∀ a w b, item ≠ ItemPipeline (WinningPoW a w) b) → selected_ok m (SelCommit [1] [2]).
Proof.
  intros He Hi Hn commit r Hc. destruct (next_entry m _ commit r He Hc) as [-> _].
  intros it b Hd _. change (log_items !! Z.to_nat i = Some (ItemPipeline it b)) in Hd.
  rewrite Hi in Hd. injection Hd as ->. destruct it; try exact I. by edestruct Hn.
Qed.
Lemma pow_entry : selected_ok m3 (SelCommit [1] [2]).
Proof.
  intros commit r Hc. destruct (next_entry m3 (entry 1 3) commit r) as [-> E]; [vm_compute; reflexivity|exact Hc|].
  unfold entry_ok. cbn [commit_data entry]. rewrite E.
  intros it b [= <- <-] _ blk. change (current_block (block_pipeline (consensused (node_raft m3)))) with
    (Some (mkBlock (mkBlockHeader 0 0 ([], EmptyString) 0 [45] None (EmptyString, "g"%string)) ["g"%string])).
  intros [= <-]. eexists. vm_compute. reflexivity.
Qed.
Lemma commit_step m o m' : commit_next m = Ret (Some (o, m')) → selected_ok m (SelCommit [1] [2]) →
  run_step false (λ _, 1) m m'.
Proof. intros Hm Hs. exact (run_event _ _ m (SelCommit [1] [2]) o m' Hs Hm). Qed.
Lemma whole_run : rtc (run_step false (λ _, 1)) n_new m5.
Proof.
  pose proof steps as Hs. repeat rewrite Forall_cons in Hs. destruct Hs as (H0 & H1 & H2 & H3 & H4 & _).
  apply (rtc_l _ _ m0); [apply run_raft|].
  apply (rtc_l _ _ m1); [apply (commit_step _ _ _ H0), (quiet_entry _ 1 0 (ItemFirstBlock genesis)); [vm_compute; reflexivity..|done]|].
  apply (rtc_l _ _ m2); [apply (commit_step _ _ _ H1), (quiet_entry _ 1 1 (ItemPipeline (MiningParticipant miner_a ParticipantOnlyIntake) 0));
    [vm_compute; reflexivity..|done]|].
  apply (rtc_l _ _ m3); [apply (commit_step _ _ _ H2), (quiet_entry _ 1 2 (ItemPipeline CompleteParticipant 0)); [vm_compute; reflexivity..|done]|].
  apply (rtc_l _ _ m4); [apply (commit_step _ _ _ H3), pow_entry|].
  apply (rtc_l _ _ m5); [apply (commit_step _ _ _ H4), (quiet_entry _ 1 4 (ItemPipeline CompleteMining 0)); [vm_compute; reflexivity..|done]|].
  apply rtc_refl.
Qed.

Lemma mined_block_valid_witness : ∃ h, construct_valid_block_pow_hash m_block = Ret (inr h).
Proof.
  pose proof mined as Hm. apply fmap_Some in Hm as (mb & Hmb & Eb). rewrite Eb.
  exact (mined_block_valid false (λ _, 1) [6] 6 (config 1 [node_a]) genesis None Z.of_nat [1] [2] n_new m5 mb n_new_ret whole_run Hmb).
Defined.

Definition m3_next := match receive_pow m3 miner_a 0 [0; 8] (coinbase 7450580596) with Ret (_, m) => m | Panic => dummy end.
Lemma m3_pow_ret : receive_pow m3 miner_a 0 [0; 8] (coinbase 7450580596) = Ret (Some (ok "Received PoW successfully"), m3_next).
Proof. vm_compute. reflexivity. Qed.

(** Two nodes; the first has voted for a reset before the winner is chosen, the
    vote of the second one comes after it. *)
Definition m4_two := m4 <| node_raft ::= λ r, r <| consensused ::= λ c, c <| cc_unanimous_majority := 2 |>
  <| block_pipeline ::= λ p, p <| current_phase_reset_pipeline_peer_ids := {[1]} |> |> |> |>.
Definition m4_raft := match received_commit (node_raft m4_two) (entry 1 4) with Ret (_, r) => r | Panic => node_raft dummy end.
Definition m5_two := match Compute.handle_committed_data false m4_two (entry 1 4) [1] [2] with Ret (_, m) => m | Panic => dummy end.
Lemma late_reset_panics_witness :
  ∃ n2, Compute.handle_committed_data false m5_two (entry 2 5) [3] [4] = Ret (Some (ok "Pipeline reset"), n2) ∧
    timeout_mining_event n2 = Panic.
Proof.
  apply (late_reset_panics false m4_two (entry 1 4) [1] [2] m4_raft (Some (ok "Pipeline halted")) m5_two (entry 2 5) [3] [4] 0).
  - vm_compute. reflexivity.
  - vm_compute. reflexivity.
  - vm_compute. reflexivity.
  - exists [5], [2; 0; 5], (mkRaftContextKey 2 0 5). split; [reflexivity|]. split; [reflexivity|]. split; [reflexivity|].
    vm_compute. discriminate.
  - vm_compute. reflexivity.
Defined.
End MiningExamples.
