(* ===== verification/ComputePool.v ===== *)
(** * Transactions held by the compute node

    The local transactions in the database, through a restart, and the pool in
    which the transactions of a druid wait for each other: [src/compute.rs]. *)
From S2P Require Import Prelude Externals Utils TrackedUtxo Unicorn Interfaces Comms ActiveRaft RaftUtil BlockPipeline ComputeConsensused Requests ComputeRaft DbUtils Compute.

(** ** Strings as bytes *)
Lemma codes_to_string_codes s : codes_to_string (string_codes s) = s.
Proof.
  induction s as [|c s IH]; [done|]. unfold codes_to_string in *. cbn.
  by rewrite N2Z.id, Ascii.ascii_N_embedding, IH.
Qed.
Lemma from_utf8_codes s : valid_utf8 (string_codes s) = true → from_utf8 (string_codes s) = Some s.
Proof. intros Hs. unfold from_utf8. by rewrite Hs, codes_to_string_codes. Qed.

Lemma map_extend_bt_iter {K V : Type} `{OrdKey K} (m m' : gmap K V) : map_extend m' (bt_iter m) = m ∪ m'.
Proof.
  apply map_eq. intros k. rewrite lookup_union. destruct (m !! k) as [v|] eqn:Hk.
  - rewrite (lookup_map_extend_NoDup _ _ _ v); [by destruct (m' !! k)|apply bt_keys_NoDup|by apply elem_of_bt_iter].
  - rewrite lookup_map_extend_ne; [by destruct (m' !! k)|].
    intros [v Hv]%elem_of_bt_keys. by rewrite Hk in Hv.
Qed.

Lemma bt_iter_singleton {K V : Type} `{OrdKey K} (k : K) (v : V) : bt_iter ({[k := v]} : gmap K V) = [(k, v)].
Proof. apply Permutation_singleton_r. by rewrite bt_iter_perm, map_to_list_singleton. Qed.

(** ** The column of the local transactions *)
Section local.
Context `{BincodeLaws Transaction}.
Implicit Types (d : SimpleDb) (m txs : gmap string Transaction).

Definition encode_txs m : gmap (list Z) (list Z) := kmap string_codes (serialize <$> m).
(** Rust strings are valid UTF-8. *)
Definition keys_utf8 m : Prop := ∀ k, is_Some (m !! k) → valid_utf8 (string_codes k) = true.
(** The database holds these local transactions. *)
Definition local_at d m : Prop := db_at DB_COL_LOCAL_TXS d (encode_txs m) ∧ keys_utf8 m.

Lemma encode_lookup m k : encode_txs m !! string_codes k = serialize <$> m !! k.
Proof. unfold encode_txs. by rewrite (lookup_kmap string_codes), lookup_fmap. Qed.
Lemma encode_insert m k tx : encode_txs (<[k := tx]> m) = <[string_codes k := serialize tx]> (encode_txs m).
Proof. unfold encode_txs. by rewrite fmap_insert, (kmap_insert string_codes). Qed.
Lemma encode_delete m k : encode_txs (delete k m) = delete (string_codes k) (encode_txs m).
Proof. unfold encode_txs. by rewrite fmap_delete, (kmap_delete string_codes). Qed.

(** A loop that adds to a batch. *)
Lemma batch_loop {A : Type} (f : WriteBatch → A → outcome WriteBatch) (g : A → list Z * option (list Z)) d (l : list A) b ops :
  (∀ b ops x, batch_at DB_COL_LOCAL_TXS d b ops → ∃ b', f b x = Ret b' ∧ batch_at DB_COL_LOCAL_TXS d b' (ops ++ [g x])) →
  batch_at DB_COL_LOCAL_TXS d b ops →
  ∃ b', ofold f b l = Ret b' ∧ batch_at DB_COL_LOCAL_TXS d b' (ops ++ map g l).
Proof.
  intros Hf. revert b ops. induction l as [|x l IH]; intros b ops Hb; cbn.
  - exists b. by rewrite app_nil_r.
  - destruct (Hf b ops x Hb) as (b' & -> & Hb'). cbn. destruct (IH b' _ Hb') as (b2 & ? & Hb2). exists b2.
    split; [done|]. by rewrite <-app_assoc in Hb2.
Qed.

Lemma store_spec d m txs : local_at d m → keys_utf8 txs →
  ∃ d', store_local_transactions d txs = Ret d' ∧ local_at d' (txs ∪ m).
Proof.
  intros [Hd Hm] Ht. unfold store_local_transactions.
  destruct (batch_loop (λ b kv, batch_put_cf b DB_COL_LOCAL_TXS (string_codes kv.1) (serialize kv.2))
    (λ kv, (string_codes kv.1, Some (serialize kv.2))) d (bt_iter txs) (batch_writer d) []) as (b & -> & Hb).
  { intros b ops x Hb. by apply batch_at_put. }
  { by eapply batch_at_writer. }
  cbn [obind app]. destruct (batch_at_write _ d _ b _ Hd Hb) as (d' & -> & Hd' & _). exists d'. split; [done|]. split.
  - rewrite <-map_extend_bt_iter. replace (encode_txs (map_extend m (bt_iter txs))) with
      (foldl kv_op (encode_txs m) (map (λ kv, (string_codes kv.1, Some (serialize kv.2))) (bt_iter txs))); [done|].
    clear. generalize (bt_iter txs). intros l. revert m. induction l as [|[k tx] l IH]; intros m; [done|].
    cbn [map foldl fst snd]. unfold map_extend in *. cbn [foldl]. rewrite <-IH. f_equal. by rewrite encode_insert.
  - intros k [tx Hk]. apply lookup_union_Some_raw in Hk as [Hk|[_ Hk]]; [apply Ht|apply Hm]; by rewrite Hk.
Qed.

Lemma delete_spec d m keys : local_at d m →
  ∃ d', delete_local_transactions d keys = Ret d' ∧ local_at d' (foldl (λ m k, delete k m) m keys).
Proof.
  intros [Hd Hm]. unfold delete_local_transactions.
  destruct (batch_loop (λ b key, batch_delete_cf b DB_COL_LOCAL_TXS (string_codes key))
    (λ key, (string_codes key, None)) d keys (batch_writer d) []) as (b & -> & Hb).
  { intros b ops x Hb. by apply batch_at_delete. }
  { by eapply batch_at_writer. }
  cbn [obind app]. destruct (batch_at_write _ d _ b _ Hd Hb) as (d' & -> & Hd' & _). exists d'. split; [done|]. split.
  - replace (encode_txs (foldl (λ m k, delete k m) m keys)) with
      (foldl kv_op (encode_txs m) (map (λ key, (string_codes key, None)) keys)); [done|].
    clear. revert m. induction keys as [|k l IH]; intros m; [done|].
    cbn [map foldl]. rewrite <-IH. f_equal. by rewrite encode_delete.
  - clear -Hm. revert m Hm. induction keys as [|k l IH]; intros m Hm; [done|]. cbn [foldl]. apply IH.
    intros k' [tx Hk]. apply lookup_delete_Some in Hk as [_ Hk]. apply Hm. by rewrite Hk.
Qed.

Lemma get_spec d m : local_at d m → get_local_transactions d = Ret m.
Proof.
  intros [[Hwf Hc] Hu]. unfold get_local_transactions, iter_cf_clone.
  pose proof (column_map_content d DB_COL_LOCAL_TXS Hwf) as Hcm. rewrite Hc in Hcm. destruct Hcm as (i & _ & ->).
  cbn [obind snd]. set (l := bt_iter (encode_txs m)).
  assert (Hl : ∀ kv, kv ∈ l → ∃ k tx, kv = (string_codes k, serialize tx) ∧ m !! k = Some tx).
  { intros [k v] Hkv%elem_of_bt_iter. unfold encode_txs in Hkv.
    apply (lookup_kmap_Some string_codes) in Hkv as (s & -> & Hs). rewrite lookup_fmap in Hs.
    apply fmap_Some in Hs as (tx & Hs & ->). by exists s, tx. }
  assert (Hin : ∀ k tx, m !! k = Some tx → (string_codes k, serialize tx) ∈ l).
  { intros k tx Hk. apply elem_of_bt_iter. by rewrite encode_lookup, Hk. }
  match goal with |- ofold ?f ∅ l = _ => destruct (ofold_ind f
    (λ pre acc, (∀ k tx, acc !! k = Some tx → m !! k = Some tx) ∧
       ∀ k tx, m !! k = Some tx → (string_codes k, serialize tx) ∈ pre → acc !! k = Some tx) l ∅) as (acc & -> & Ha & Hb) end.
  - split; [by intros k tx ?%lookup_empty_Some|]. by intros k tx _ ?%not_elem_of_nil.
  - intros pre kv acc Hkv [Ha Hb]. destruct (Hl kv Hkv) as (k & tx & -> & Hk). cbn [fst snd].
    rewrite (from_utf8_codes k) by (apply Hu; by rewrite Hk). cbn [unwrap obind].
    rewrite deserialize_serialize. cbn [unwrap obind]. eexists. split; [reflexivity|]. split.
    + intros k' tx'. rewrite lookup_insert. case_decide; [subst; by intros [= <-]|apply Ha].
    + intros k' tx' Hk' Hin'. rewrite lookup_insert. case_decide as E; [subst; congruence|]. apply Hb; [done|].
      apply elem_of_app in Hin' as [?|Hin']; [done|]. apply list_elem_of_singleton in Hin' as [= Hs _].
      by apply (inj string_codes) in Hs.
  - f_equal. apply map_eq. intros k. apply option_eq. intros tx. split; [apply Ha|]. intros Hk. apply Hb; [done|]. by apply Hin.
Qed.
End local.

(** Writing another column leaves a column as it is. *)
Lemma db_at_put_other cf cf' d d' m key v : cf' ≠ cf → db_at cf d m → put_cf d cf' key v = Ret d' → db_at cf d' m.
Proof.
  intros Hne [Hwf Hc] Hp. destruct (columns d !! cf') as [i|] eqn:Hi.
  - change (db_op d (cf', key, Some v) = Ret d') in Hp. rewrite (db_op_write _ _ i) in Hp by done.
    destruct (write_entries d [(cf', key, Some v)] [entry_of i (cf', key, Some v)] Hwf) as (d2 & Hd2 & Hwf2 & _ & Hc2).
    { repeat constructor. by exists i. }
    rewrite Hd2 in Hp. injection Hp as <-. split; [done|]. rewrite Hc2. cbn. unfold apply_op. by rewrite decide_False.
  - unfold put_cf, column_map in Hp. by rewrite Hi in Hp.
Qed.

(** ** A restart *)
Section restart.
Context `{CommsCrates, Ipv6Display, Naom, !NaomScripts, NaomReceipts, Rug, Hex, KeccakPrime}.
Context `{Bincode (list string), Bincode (list SocketAddr), Bincode (gset string), Bincode (option Z)}.
Context `{Bincode RaftContextKey, Bincode AccumulatingBlockStoredInfo, Bincode ComputeRaftItem,
  Bincode ComputeConsensused, Bincode Transaction, !BincodeLaws Transaction, Bincode BlockHeader, Bincode (gset SocketAddr), Bincode Z}.
Context {M : Type} `{Bincode (ComputeRequest.t M), Bincode (StorageRequest M), Bincode MineRequest.t, Bincode UserRequest.t}.
Notation ComputeNode := (ComputeNode TlsCertificate M).
Implicit Types n : ComputeNode.

(** What happens to local transactions: the node accepts some, and the log
    commits some. *)
Inductive tx_event := TxAccepted (txs : gmap string Transaction) | TxCommitted (keys : list string).
Definition tx_event_db (d : SimpleDb) (e : tx_event) : outcome SimpleDb :=
  match e with TxAccepted txs => store_local_transactions d txs | TxCommitted keys => delete_local_transactions d keys end.
(** The specification: a plain map. *)
Definition tx_event_map (m : gmap string Transaction) (e : tx_event) : gmap string Transaction :=
  match e with TxAccepted txs => txs ∪ m | TxCommitted keys => foldl (λ m k, delete k m) m keys end.
Definition tx_event_ok (e : tx_event) : Prop := match e with TxAccepted txs => keys_utf8 txs | TxCommitted _ => True end.

Lemma tx_events_spec d m (l : list tx_event) : local_at d m → Forall tx_event_ok l →
  ∃ d', ofold tx_event_db d l = Ret d' ∧ local_at d' (foldl tx_event_map m l).
Proof.
  intros Hd Hl. revert d m Hd. induction Hl as [|e l He _ IH]; intros d m Hd; cbn [ofold foldl]; [eauto|].
  assert (∃ d', tx_event_db d e = Ret d' ∧ local_at d' (tx_event_map m e)) as (d' & -> & Hd').
  { destruct e; [by apply store_spec|by apply delete_spec]. }
  cbn [obind]. by apply IH.
Qed.

Definition keeps_local n n' : Prop := ∀ m, local_at (db n) m → local_at (db n') m.
Lemma put_internal_local n n' key v : put_internal n key v = Ret n' → keeps_local n n'.
Proof.
  unfold put_internal. intros (d & Hd & [= <-])%obind_ret m [Hm Hu]. split; [|done]. eapply db_at_put_other, Hd; done.
Qed.
Lemma load_random_local n n' key v num : load_random_num n key v = Ret (num, n') →
  keeps_local n n' ∧ node_raft n' = node_raft n.
Proof.
  unfold load_random_num. intros (stored & _ & (n1 & Hp & [= _ <-])%obind_ret)%obind_ret.
  split; [by eapply put_internal_local|]. by apply obind_ret in Hp as (d & _ & [= <-]).
Qed.

(** Loading the database adds its local transactions to the pool, and leaves
    them where they are. *)
Lemma load_local_pool n r1 r2 n' m : local_at (db n) m → Compute.load_local_db n r1 r2 = Ret (inr n') →
  local_tx_pool (node_raft n') = m ∪ local_tx_pool (node_raft n) ∧ local_at (db n') m.
Proof.
  intros Hm. unfold Compute.load_local_db. intros ([l|] & _ & Hq)%obind_ret; [|done]. cbv zeta in Hq.
  match type of Hq with obind (load_list ?x _ _) _ = _ =>
    assert (local_tx_pool (node_raft x) = local_tx_pool (node_raft n) ∧ local_at (db x) m) as [Ep Hm1];
      [|set (n1 := x) in *; clearbody n1] end.
  { destruct (request_list_first_flood _); [by destruct (_ <=? _)|done]. }
  apply obind_ret in Hq as ([l2|] & _ & Hq); [|done].
  apply obind_ret in Hq as ([v1 n2] & [K2 E2]%load_random_local & Hq).
  apply obind_ret in Hq as ([v2 n3] & [K3 E3]%load_random_local & Hq). cbn [fst snd] in *.
  apply obind_ret in Hq as (stored & _ & Hq). destruct (match stored with Some _ => _ | None => _ end) as [key_run|]; [|done].
  apply obind_ret in Hq as (n4 & Hp & Hq). pose proof (put_internal_local _ _ _ _ Hp) as K4.
  assert (Hm4 : local_at (db n4) m) by (apply K4, K3; cbn; apply K2, Hm1).
  apply obind_ret in Hp as (d4 & _ & [= <-]). cbn in Hm4, Hq. rewrite (get_spec _ _ Hm4) in Hq. cbn in Hq.
  injection Hq as <-. cbn. split; [|done]. unfold map_append. f_equal. change (local_tx_pool (node_raft n3) = local_tx_pool (node_raft n)).
  rewrite E3. cbn. by rewrite E2.
Qed.

(** C17: the database column of the local transactions refines a plain map:
    whatever transactions are accepted and committed, in any order, the writes
    succeed, and a node that starts on the database afterwards has in its pool
    exactly the transactions accepted and not committed since, next to those it
    had, and again in the database. *)
Theorem local_txs_survive_restart (d : SimpleDb) (m : gmap string Transaction) (l : list tx_event) :
  local_at d m → Forall tx_event_ok l →
  ∃ d', ofold tx_event_db d l = Ret d' ∧ get_local_transactions d' = Ret (foldl tx_event_map m l) ∧
    ∀ n r1 r2 n', db n = d' → Compute.load_local_db n r1 r2 = Ret (inr n') →
      local_tx_pool (node_raft n') = foldl tx_event_map m l ∪ local_tx_pool (node_raft n) ∧
      get_local_transactions (db n') = Ret (foldl tx_event_map m l).
Proof.
  intros Hd Hl. destruct (tx_events_spec d m l Hd Hl) as (d' & Hq & Hd'). exists d'. split; [done|].
  split; [by apply get_spec|]. intros n r1 r2 n' <- [Hp Hn']%(load_local_pool _ _ _ _ _ Hd'). split; [done|]. by apply get_spec.
Qed.

(** The node does these writes: accepting, and processing of a commit. *)
Lemma receive_transactions_accepted n l resp n' : receive_transactions n l = Ret (resp, n') →
  ∃ acc, tx_event_db (db n) (TxAccepted acc) = Ret (db n') ∧
    local_tx_pool (node_raft n') = map_append (local_tx_pool (node_raft n)) acc ∨ n' = n.
Proof.
  unfold receive_transactions. destruct (negb _); [intros [= _ <-]; exists ∅; by right|].
  intros (valid & _ & Hq)%obind_ret. cbv zeta in Hq. destruct (_ =? 0); [injection Hq as _ <-; exists ∅; by right|].
  apply obind_ret in Hq as (d & Hd & Hq). eexists. left. cbn [tx_event_db]. rewrite Hd.
  unfold validate_dde_txs in Hq. destruct (foldl validate_dde_step _ _) as [pool ready]. injection Hq as _ <-.
  assert (Hf : ∀ (k : list (bool * gmap string Transaction)) n,
    let n2 := foldl (λ n x, if x.1 : bool then n <| node_raft ::= λ r, append_to_tx_druid_pool r x.2 |> else n) n k in
    db n2 = db n ∧ local_tx_pool (node_raft n2) = local_tx_pool (node_raft n)).
  { clear. induction k as [|[[] txs] k IH]; intros n; cbn [foldl]; [done|by destruct (IH (n <| node_raft ::= λ r, append_to_tx_druid_pool r txs |>))|apply IH]. }
  match goal with |- context [foldl ?f ?x ready] => destruct (Hf ready x) as [-> ->] end. done.
Qed.
End restart.

(** ** The druid pool *)
Section druids.
Context `{CommsCrates, Ipv6Display, Naom, !NaomScripts, NaomReceipts, Rug, Hex, KeccakPrime}.
Context `{Bincode (list string), Bincode (list SocketAddr), Bincode (gset string), Bincode (option Z)}.
Context `{Bincode RaftContextKey, Bincode AccumulatingBlockStoredInfo, Bincode ComputeRaftItem,
  Bincode ComputeConsensused, Bincode Transaction, Bincode BlockHeader, Bincode (gset SocketAddr), Bincode Z}.
Context {M : Type} `{Bincode (ComputeRequest.t M), Bincode (StorageRequest M), Bincode MineRequest.t, Bincode UserRequest.t}.
Notation ComputeNode := (ComputeNode TlsCertificate M).
Implicit Types n : ComputeNode.

(** The transactions are of this druid. *)
Definition of_druid (k : string) (txs : gmap string Transaction) : Prop :=
  ∀ h tx, txs !! h = Some tx → ∃ info, druid_info tx = Some info ∧ druid info = k.
(** What waits in the pool: at least one transaction of the druid, and not as
    many as the first one announced. *)
Definition pool_ok (pool : DruidPool) : Prop :=
  ∀ k d, pool !! k = Some d → of_druid k (txs d) ∧ txs d ≠ ∅ ∧ zsize (txs d) ≠ participants d.
(** A whole exchange: as many transactions as each of them announces, all of
    one druid, and the expectations they state are met. *)
Definition whole_exchange (set : gmap string Transaction) : Prop :=
  ∃ k, set ≠ ∅ ∧ druid_expectations_are_met k (bt_values set) = true ∧
    ∀ h tx, set !! h = Some tx → ∃ info, druid_info tx = Some info ∧ druid info = k ∧ dde_participants info = zsize set.

Lemma check_participants_spec d : check_druid_participants d = true →
  ∀ h tx, txs d !! h = Some tx → dde_participants <$> druid_info tx = Some (participants d).
Proof.
  unfold check_druid_participants. rewrite forallb_forall. intros Hall h tx Ht.
  assert (Hin : tx ∈ bt_values (txs d)) by (apply elem_of_bt_values; eauto).
  apply list_elem_of_In, Hall, bool_decide_eq_true in Hin. done.
Qed.

Lemma validate_dde_step_ok pool ready tx pool' ready' : pool_ok pool →
  validate_dde_step (pool, ready) tx = (pool', ready') →
  pool_ok pool' ∧ ∃ l, ready' = ready ++ l ∧ ∀ set, (true, set) ∈ l → whole_exchange set.
Proof.
  intros Hp. unfold validate_dde_step. destruct (druid_info tx.2) as [info|] eqn:Ei.
  2:{ intros [= <- <-]. split; [done|]. exists []. rewrite app_nil_r. split; [done|]. by intros set ?%not_elem_of_nil. }
  cbv zeta. set (d0 := default (DruidDroplet_new (dde_participants info)) (pool !! druid info)).
  assert (Hd0 : of_druid (druid info) (txs d0)).
  { subst d0. destruct (pool !! druid info) as [d|] eqn:E; [by apply (Hp _ d E)|]. intros h t Ht. cbn in Ht. by apply lookup_empty_Some in Ht. }
  set (d1 := d0 <| txs ::= <[tx.1:=tx.2]> |>).
  assert (Hd1 : of_druid (druid info) (txs d1)).
  { intros h t. subst d1. cbn. rewrite lookup_insert. case_decide; [intros [= <-]; eauto|apply Hd0]. }
  assert (Hne : txs d1 ≠ ∅) by apply insert_non_empty. clearbody d1.
  destruct (Z.eqb_spec (zsize (txs d1)) (participants d1)) as [Es|Es]; intros [= <- <-]; split.
  - intros k d. rewrite delete_insert_eq, lookup_delete_Some. intros [_ Hk]. by apply Hp.
  - eexists. split; [reflexivity|]. intros set Hset%list_elem_of_singleton. injection Hset as Hv ->.
    symmetry in Hv. apply andb_true_iff in Hv as [Hv Hc]. exists (druid info). split_and!; [done..|].
    intros h t Ht. destruct (Hd1 h t Ht) as (i & Hi & Hdi). exists i. split_and!; [done..|].
    pose proof (check_participants_spec _ Hc h t Ht) as Hpt. rewrite Hi in Hpt. injection Hpt as ->. done.
  - intros k d. rewrite lookup_insert. case_decide as E; [subst; by intros [= <-]|apply Hp].
  - exists []. rewrite app_nil_r. split; [done|]. by intros set ?%not_elem_of_nil.
Qed.

Lemma validate_dde_fold (l : list (string * Transaction)) pool ready pool' ready' : pool_ok pool →
  foldl validate_dde_step (pool, ready) l = (pool', ready') →
  pool_ok pool' ∧ ∃ r, ready' = ready ++ r ∧ ∀ set, (true, set) ∈ r → whole_exchange set.
Proof.
  revert pool ready. induction l as [|tx l IH]; intros pool ready Hp; cbn [foldl].
  { intros [= <- <-]. split; [done|]. exists []. rewrite app_nil_r. split; [done|]. by intros set ?%not_elem_of_nil. }
  destruct (validate_dde_step (pool, ready) tx) as [pool1 ready1] eqn:E.
  destruct (validate_dde_step_ok _ _ _ _ _ Hp E) as (Hp1 & l1 & -> & Hl1).
  intros Hf. destruct (IH _ _ Hp1 Hf) as (Hp2 & l2 & -> & Hl2). split; [done|]. exists (l1 ++ l2).
  split; [by rewrite app_assoc|]. intros set [?|?]%elem_of_app; auto.
Qed.

Lemma append_ready_druids (l : list (bool * gmap string Transaction)) n :
  let n' := foldl (λ n x, if x.1 : bool then n <| node_raft ::= λ r, append_to_tx_druid_pool r x.2 |> else n) n l in
  druid_pool n' = druid_pool n ∧
  local_tx_druid_pool (node_raft n') = local_tx_druid_pool (node_raft n) ++ (filter (λ x, x.1 = true) l).*2.
Proof.
  revert n. induction l as [|[b set] l IH]; intros n; cbn zeta in *; cbn [foldl]; [by rewrite app_nil_r|].
  destruct (IH (if b then n <| node_raft ::= λ r, append_to_tx_druid_pool r set |> else n)) as [E1 E2].
  destruct b; cbn [fst snd] in *; rewrite E1, E2; (split; [done|]); cbn.
  - by rewrite <-app_assoc.
  - done.
Qed.

(** The state that druid transactions are kept in. *)
Definition druids_ok n : Prop :=
  pool_ok (druid_pool n) ∧ Forall whole_exchange (local_tx_druid_pool (node_raft n)).

(** C19: only whole exchanges leave the pool of a compute node for the consensus:
    every set of druid transactions that becomes ready to be proposed has one
    druid, exactly as many transactions as each of them announces
    participants, and meets the expectations; and what waits in the pool is
    filed under its druid and not complete.  Receiving any transactions keeps
    this. *)
Theorem receive_druid_whole n l resp n' : druids_ok n →
  receive_transactions n l = Ret (resp, n') → druids_ok n'.
Proof.
  intros [Hp Hl]. unfold receive_transactions. destruct (negb _); [by intros [= _ <-]|].
  intros (valid & _ & Hq)%obind_ret. cbv zeta in Hq. destruct (_ =? 0); [by injection Hq as _ <-|].
  apply obind_ret in Hq as (d & _ & Hq). unfold validate_dde_txs in Hq.
  destruct (foldl validate_dde_step _ _) as [pool ready] eqn:E. injection Hq as _ <-.
  destruct (validate_dde_fold _ _ _ _ _ Hp E) as (Hp' & r & -> & Hr). cbn [app].
  match goal with |- druids_ok (foldl ?f ?x _) => destruct (append_ready_druids r x) as [E1 E2] end.
  split; [by rewrite E1|]. rewrite E2. cbn. apply Forall_app. split; [done|].
  apply Forall_fmap, Forall_forall. intros [b set] [Hb Hin]%list_elem_of_filter. cbn in *. subst b. by apply Hr.
Qed.

Lemma append_nothing (r : ComputeRaft M) : append_to_tx_pool r ∅ = r.
Proof.
  assert (Ep : map_append (local_tx_pool r) ∅ = local_tx_pool r) by apply (left_id_L ∅ (∪)).
  unfold append_to_tx_pool. change (r <| local_tx_pool := map_append (local_tx_pool r) ∅ |> = r). rewrite Ep. by destruct r.
Qed.

(** One valid transaction of a druid: it goes to the pool of its druid, and what
    becomes ready is to be proposed; nothing else changes. *)
Lemma receive_one_druid n m tx pool ready : is_Some (druid_info tx) → local_at (db n) m →
  tx_pool_can_accept (node_raft n) 1 = true → transactions_validator n tx = Ret true →
  validate_dde_step (druid_pool n, []) (construct_tx_hash tx, tx) = (pool, ready) → Forall (λ x, x.1 = true) ready →
  ∃ d, local_at d m ∧ receive_transactions n [tx] = Ret (ok "Transactions added to tx pool",
    foldl (λ n x, if x.1 : bool then n <| node_raft ::= λ r, append_to_tx_druid_pool r x.2 |> else n)
      (n <| db := d |> <| druid_pool := pool |>) ready).
Proof.
  intros Hd Hdb Hcan Hval Hstep Hready. destruct (store_spec (db n) m ∅ Hdb) as (d & Ed & Hdm); [intros k [x Hx]; by apply lookup_empty_Some in Hx|].
  rewrite (left_id_L ∅ (∪)) in Hdm. exists d. split; [done|]. unfold receive_transactions.
  change (zlen [tx]) with 1. rewrite Hcan. cbn [negb filter_valid]. rewrite Hval. cbn [obind]. cbv zeta.
  
  assert (Ef1 : filter (λ tx, is_Some (druid_info tx)) [tx] = [tx]) by (by rewrite filter_cons_True).
  assert (Ef2 : filter (λ tx, ¬ is_Some (druid_info tx)) [tx] = []) by (rewrite filter_cons_False; [done|by intros Hn]).
  rewrite Ef1, Ef2.
  change (collect_txs [tx]) with ({[construct_tx_hash tx := tx]} : gmap string Transaction). change (collect_txs []) with (∅ : gmap string Transaction).
  unfold zsize at 1 2. rewrite map_size_empty, map_size_singleton. change (Z.of_nat 0 + Z.of_nat 1 =? 0) with false. cbv iota.
  rewrite Ed. cbn [obind].
  assert (En : n <| db := d |> <| node_raft ::= λ r, append_to_tx_pool r ∅ |> = n <| db := d |>).
  { change (n <| db := d |> <| node_raft := append_to_tx_pool (node_raft n) ∅ |> = n <| db := d |>).
    rewrite append_nothing. by destruct n. }
  rewrite En. unfold validate_dde_txs. cbn [druid_pool setter]. rewrite bt_iter_singleton. cbn [foldl]. rewrite Hstep.
  assert (Ei : filter (λ x : bool * gmap string Transaction, x.1 = false) ready = []).
  { clear -Hready. induction Hready as [|x l Hx _ IH]; [done|].
    rewrite filter_cons_False; [exact IH|]. cbn beta. congruence. }
  rewrite Ei. unfold zsize. rewrite ?map_size_empty, ?map_size_singleton. reflexivity.
Qed.

(** A druid whose first transaction announces no participants never completes:
    it stays in the pool and absorbs what comes under its name. *)
Theorem overfull_druid_stuck pool ready tx k d pool' ready' :
  pool !! k = Some d → participants d < zsize (txs d) → validate_dde_step (pool, ready) tx = (pool', ready') →
  ∃ d', pool' !! k = Some d' ∧ participants d' = participants d ∧ zsize (txs d) ≤ zsize (txs d').
Proof.
  intros Hk Hd. unfold validate_dde_step. destruct (druid_info tx.2) as [info|]; [|intros [= <- <-]; eauto with lia].
  cbv zeta. destruct (decide (druid info = k)) as [<-|Hne].
  - rewrite Hk. cbn [from_option id].
    assert (Hsz : zsize (txs d) ≤ zsize (txs (d <| txs ::= <[tx.1:=tx.2]> |>))).
    { cbn. unfold zsize. destruct (txs d !! tx.1) eqn:E; [rewrite (map_size_insert_Some _ _ _ (mk_is_Some _ _ E))|rewrite (map_size_insert_None _ _ _ E)]; lia. }
    destruct (Z.eqb_spec (zsize (txs (d <| txs ::= <[tx.1:=tx.2]> |>))) (participants (d <| txs ::= <[tx.1:=tx.2]> |>))) as [E|_].
    { change (participants (d <| txs ::= <[tx.1:=tx.2]> |>)) with (participants d) in E. lia. }
    intros [= <- _]. eexists. rewrite lookup_insert_eq. split; [done|]. split; [done|exact Hsz].
  - destruct (_ =? _); intros [= <- _]; exists d; (split; [|lia]).
    + by rewrite delete_insert_eq, lookup_delete_ne.
    + by rewrite lookup_insert_ne.
Qed.

(** The whitelist of the configuration is not in force after the start. *)
Theorem configured_whitelist_inactive NV version config utxo extra rng random1 random2 n :
  ComputeNode_new NV version config utxo extra rng random1 random2 = Ret (inr n) →
  get_compute_miner_whitelist n = MinerWhitelist_default.
Proof.
  unfold ComputeNode_new. destruct (compute_nodes _ !! _); [|done]. destruct (cfg_storage_nodes _ !! _); [|done]. cbv zeta.
  intros (r & Hr & (d & _ & Hq)%obind_ret)%obind_ret.
  assert (Ew : miner_whitelist (consensused r) = MinerWhitelist_default).
  { revert Hr. unfold ComputeRaft_new. cbv zeta. intros (ra & _ & (c & Hc & Hx)%obind_ret)%obind_ret.
    destruct (peers_len ra =? 0); [done|]. injection Hx as <-. cbn. revert Hc. by intros (p & _ & [= <-])%obind_ret. }
  unfold get_compute_miner_whitelist. rewrite <-Ew. revert Hq. unfold Compute.load_local_db.
  intros ([lst|] & _ & Hq)%obind_ret; [|done]. cbv zeta in Hq.
  match type of Hq with obind (load_list ?x _ _) _ = _ =>
    assert (consensused (node_raft x) = consensused r) as <-; [|set (n1 := x) in *; clearbody n1] end.
  { cbn. by destruct (_ <=? _). }
  apply obind_ret in Hq as ([l2|] & _ & Hq); [|done].
  apply obind_ret in Hq as ([v1 n2] & [_ E2]%load_random_local & Hq).
  apply obind_ret in Hq as ([v2 n3] & [_ E3]%load_random_local & Hq). cbn [fst snd] in *.
  apply obind_ret in Hq as (stored & _ & Hq). destruct (match stored with Some _ => _ | None => _ end) as [key_run|]; [|done].
  apply obind_ret in Hq as (n4 & (d4 & _ & [= <-])%obind_ret & (ltxs & _ & [= <-])%obind_ret).
  change (miner_whitelist (consensused (node_raft n3)) = miner_whitelist (consensused (node_raft n1))).
  rewrite E3. cbn. by rewrite E2.
Qed.
End druids.

(** ** Witnesses *)
Module PoolExamples.
Import TestExternals RaftUtilExamples CommsExamples ComputeExamples.

Definition tx (key : string) : Transaction := mkTransaction [] [pay 1 key] 0 None.
Definition d_new : SimpleDb := db n_new.

Lemma three_columns_wf (d : SimpleDb) :
  columns d = {["default"%string := 0%nat; "internal"%string := 1%nat; "local_transactions"%string := 2%nat]} →
  length (key_values d) = 3%nat → db_wf d.
Proof.
  destruct d as [cols kvs]. cbn. intros -> El. split; cbn.
  - intros cf i. rewrite El, !lookup_insert_Some, lookup_singleton_Some. naive_solver lia.
  - intros cf1 cf2 i. rewrite !lookup_insert_Some, !lookup_singleton_Some. naive_solver.
Qed.
Lemma d_new_wf : db_wf d_new.
Proof. apply three_columns_wf; vm_compute; reflexivity. Qed.
Lemma d_new_empty : local_at d_new ∅.
Proof.
  split; [split; [apply d_new_wf|vm_compute; reflexivity]|]. intros k [x Hx]. by apply lookup_empty_Some in Hx.
Qed.
Definition history : list tx_event :=
  [TxAccepted {["a"%string := tx "a"; "b"%string := tx "b"]}; TxCommitted ["a"%string]; TxAccepted {["c"%string := tx "c"]}].
Lemma history_ok : Forall tx_event_ok history.
Proof.
  repeat constructor; intros k [x Hx].
  - apply lookup_insert_Some in Hx as [[<- _]|[_ [<- _]%lookup_singleton_Some]]; reflexivity.
  - apply lookup_singleton_Some in Hx as [<- _]. reflexivity.
Qed.
Lemma local_txs_survive_restart_witness :
  ∃ d', ofold tx_event_db d_new history = Ret d' ∧
    get_local_transactions d' = Ret {["b"%string := tx "b"; "c"%string := tx "c"]}.
Proof.
  destruct (local_txs_survive_restart (M := unit) d_new ∅ history d_new_empty history_ok) as (d' & H1 & H2 & _).
  exists d'. split; [exact H1|]. rewrite H2. vm_compute. reflexivity.
Defined.

(** Two transactions of a druid; the second one completes the exchange. *)
Definition dtx (n : Z) : Transaction :=
  mkTransaction [mkTxIn (Some (mkOutPoint "g" 0)) (mkScript [])] [pay n "d"] n (Some (mkDdeValues "druid" 2 [])).
Definition n_half := after (with_log n_new [entry 1 0]) <| druid_pool := {["druid"%string := mkDruidDroplet 2 {["x"%string := dtx 1]}]} |>.
Definition n_whole := match receive_transactions n_half [dtx 2] with Ret (_, n) => n | Panic => dummy end.
Lemma n_whole_ret : receive_transactions n_half [dtx 2] = Ret (ok "Transactions added to tx pool", n_whole).
Proof. vm_compute. reflexivity. Qed.
Lemma n_whole_pool : druid_pool n_whole = ∅ ∧
  local_tx_druid_pool (node_raft n_whole) = [{["x"%string := dtx 1; "d"%string := dtx 2]}].
Proof. split; vm_compute; reflexivity. Qed.
Lemma n_half_ok : druids_ok n_half.
Proof.
  split.
  - assert (E : druid_pool n_half = {["druid"%string := mkDruidDroplet 2 {["x"%string := dtx 1]}]}) by (vm_compute; reflexivity).
    intros k d. rewrite E. intros [<- <-]%lookup_singleton_Some. split_and!.
    + intros h t Ht. cbn in Ht. apply lookup_singleton_Some in Ht as [_ <-]. by eexists.
    + apply map_non_empty_singleton.
    + vm_compute. discriminate.
  - assert (E : local_tx_druid_pool (node_raft n_half) = []) by (vm_compute; reflexivity). rewrite E. constructor.
Qed.
Lemma receive_druid_whole_witness : whole_exchange {["x"%string := dtx 1; "d"%string := dtx 2]}.
Proof.
  destruct (receive_druid_whole n_half [dtx 2] (ok "Transactions added to tx pool") n_whole n_half_ok n_whole_ret) as [_ Hw].
  rewrite (proj2 n_whole_pool) in Hw. inversion Hw; subst. assumption.
Defined.
End PoolExamples.
