(* ===== verification/RaftStore.v ===== *)
(** * The store of the raft log: [src/raft_store.rs]

    The raft crate works on its own in-memory storage; this store mirrors what
    it must not forget into a database: the last snapshot, the entries after
    it, and the hard state.  [RLog] is the log such a database stands for, and
    the theorems say that a restart reads back exactly that log. *)
From stdpp Require Import pretty.
From S2P Require Import Prelude Externals DbUtils.

Definition HARDSTATE_KEY : string := "HardStateKey".
Definition SNAPSHOT_DATA_KEY : string := "SnaphotDataKey".
Definition SNAPSHOT_META_KEY : string := "SnaphotMetaKey".
Definition ENTRY_KEY : string := "EntryKey".
Definition LAST_ENTRY_KEY : string := "LastEntryKey".

Record SnapMetadata := mkSnapMetadata { sm_index : Z; sm_term : Z }.
Record CommittedIndex := mkCommittedIndex { ci_index : Z; ci_term : Z }.

(** ** The raft and protobuf crates

    Their types, the fields the code reads, [write_to_bytes] and
    [parse_from_bytes], and the operations of [MemStorage]. *)
Class RaftCrate := {
  RaftEntry : Type;
  RaftSnapshot : Type;
  HardState : Type;
  ConfState : Type;
  ConfChange : Type;
  MemStorage : Type;
  InitialState : Type;
  CrateError : Type;
  entry_index : RaftEntry → Z;
  entry_context : RaftEntry → list Z;
  entry_bytes : RaftEntry → option (list Z);
  parse_entry : list Z → option RaftEntry;
  snap_data : RaftSnapshot → list Z;
  snap_index : RaftSnapshot → Z;
  snap_term : RaftSnapshot → Z;
  new_snapshot : list Z → ConfState → Z → Z → RaftSnapshot;
  hs_commit : HardState → Z;
  hs_term : HardState → Z;
  hs_of_commit : Z → HardState;
  hs_bytes : HardState → option (list Z);
  parse_hs : list Z → option HardState;
  mem_new : MemStorage;
  mem_set_conf_state : MemStorage → ConfState → MemStorage;
  mem_set_hardstate : MemStorage → HardState → MemStorage;
  mem_apply_snapshot : MemStorage → RaftSnapshot → CrateError + MemStorage;
  mem_create_snapshot : MemStorage → Z → option ConfState → option ConfChange → list Z →
    CrateError + RaftSnapshot * MemStorage;
  mem_compact : MemStorage → Z → CrateError + MemStorage;
  mem_append : MemStorage → list RaftEntry → CrateError + MemStorage;
  mem_initial_state : MemStorage → CrateError + InitialState;
  mem_entries : MemStorage → Z → Z → Z → CrateError + list RaftEntry;
  mem_term : MemStorage → Z → CrateError + Z;
  mem_first_index : MemStorage → CrateError + Z;
  mem_last_index : MemStorage → CrateError + Z;
  mem_snapshot : MemStorage → CrateError + RaftSnapshot;
}.

(** [raft::Error]: those of [MemStorage], of protobuf and of bincode, and
    [StorageError::Unavailable]. *)
Inductive RaftErrorOf (E : Type) := ErrCrate (e : E) | ErrProtobuf | ErrSer | Unavailable.
Arguments ErrCrate {E}. Arguments ErrProtobuf {E}. Arguments ErrSer {E}. Arguments Unavailable {E}.
Notation RaftError := (RaftErrorOf CrateError).

Record RaftStoreOf (M : Type) := mkRaftStore {
  in_memory : M;
  presistent : SimpleDb;
  persistent_first_entry : Z;
  proposed_context : gmap (list Z) Z;
}.
Arguments mkRaftStore {M}. Arguments in_memory {M}. Arguments presistent {M}.
Arguments persistent_first_entry {M}. Arguments proposed_context {M}.
Notation RaftStore := (RaftStoreOf MemStorage).
#[export] Instance eta_RaftStore M : Eta (RaftStoreOf M) := λ r,
  mkRaftStore (in_memory r) (presistent r) (persistent_first_entry r) (proposed_context r).

(** Calls that may panic and may return an error: [let? x := e in k] goes on
    with the value. *)
Definition rbind {E A B : Type} (m : outcome (E + A)) (k : A → outcome (E + B)) : outcome (E + B) :=
  let! r := m in match r with inl e => Ret (inl e) | inr a => k a end.
Notation "'let?' x ':=' e 'in' k" := (rbind e (λ x, k))
  (at level 10, x binder, e at level 200, k at level 200) : znp_scope.

Section raft_store.
Context `{RaftCrate, Bincode SnapMetadata, Bincode Z}.
Implicit Types s : RaftStore.

Definition from_crate {A : Type} (r : CrateError + A) : outcome (RaftError + A) :=
  Ret (match r with inl e => inl (ErrCrate e) | inr a => inr a end).
Definition or_err {A : Type} (e : RaftError) (o : option A) : outcome (RaftError + A) :=
  Ret (match o with Some a => inr a | None => inl e end).
Definition ok {A : Type} (m : outcome A) : outcome (RaftError + A) := let! a := m in Ret (inr a).

(** ** Keys and values in the database *)
Definition format_entry_key (index : Z) : string := ENTRY_KEY +:+ "_" +:+ pretty index.

Definition get_persistent_entry (presistent : SimpleDb) (index : Z) : outcome (RaftError + option RaftEntry) :=
  let? bytes := ok (get_cf presistent DB_COL_DEFAULT (string_codes (format_entry_key index))) in
  match bytes with
  | Some bytes => let? e := or_err ErrProtobuf (parse_entry bytes) in Ret (inr (Some e))
  | None => Ret (inr None)
  end.

Definition set_persistent_entry (presistent : WriteBatch) (index : Z) (ent : RaftEntry) :
    outcome (RaftError + WriteBatch) :=
  let? bytes := or_err ErrProtobuf (entry_bytes ent) in
  ok (batch_put_cf presistent DB_COL_DEFAULT (string_codes (format_entry_key index)) bytes).

Definition discard_persistent_entry (presistent : WriteBatch) (index : Z) : outcome WriteBatch :=
  batch_delete_cf presistent DB_COL_DEFAULT (string_codes (format_entry_key index)).

(** The batch and the new first entry. *)
Definition discard_persistent_entries_before_snapshot (presistent : WriteBatch) (first_entry snap_index : Z) :
    outcome (WriteBatch * Z) :=
  let! b := ofold discard_persistent_entry presistent (seqZ first_entry (snap_index - first_entry)) in
  Ret (b, snap_index).

Definition get_last_persistent_entry (presistent : SimpleDb) : outcome (RaftError + option Z) :=
  let? bytes := ok (get_cf presistent DB_COL_DEFAULT (string_codes LAST_ENTRY_KEY)) in
  match bytes with
  | Some bytes => let? i := or_err ErrSer (deserialize bytes) in Ret (inr (Some i))
  | None => Ret (inr None)
  end.

Definition set_last_persistent_entry (presistent : WriteBatch) (index : Z) : outcome WriteBatch :=
  batch_put_cf presistent DB_COL_DEFAULT (string_codes LAST_ENTRY_KEY) (serialize index).

Definition get_persistent_snapshot (presistent : SimpleDb) (init_cs : ConfState) :
    outcome (RaftError + option RaftSnapshot) :=
  let? data := ok (get_cf presistent DB_COL_DEFAULT (string_codes SNAPSHOT_DATA_KEY)) in
  let? meta := ok (get_cf presistent DB_COL_DEFAULT (string_codes SNAPSHOT_META_KEY)) in
  match data, meta with
  | Some data, Some meta =>
      let? metadata := or_err ErrSer (deserialize meta) in
      Ret (inr (Some (new_snapshot data init_cs (sm_index metadata) (sm_term metadata))))
  | _, _ => Ret (inr None)
  end.

Definition set_persistent_snapshot (presistent : WriteBatch) (snapshot : RaftSnapshot) : outcome WriteBatch :=
  let meta := serialize (mkSnapMetadata (snap_index snapshot) (snap_term snapshot)) in
  let! b := batch_put_cf presistent DB_COL_DEFAULT (string_codes SNAPSHOT_DATA_KEY) (snap_data snapshot) in
  batch_put_cf b DB_COL_DEFAULT (string_codes SNAPSHOT_META_KEY) meta.

Definition get_persistent_hardstate (presistent : SimpleDb) : outcome (RaftError + option HardState) :=
  let? bytes := ok (get_cf presistent DB_COL_DEFAULT (string_codes HARDSTATE_KEY)) in
  match bytes with
  | Some bytes => let? hs := or_err ErrProtobuf (parse_hs bytes) in Ret (inr (Some hs))
  | None => Ret (inr None)
  end.

Definition set_persistent_hardstate (presistent : SimpleDb) (bytes : list Z) : outcome SimpleDb :=
  put_cf presistent DB_COL_DEFAULT (string_codes HARDSTATE_KEY) bytes.

Definition get_presistent_committed (presistent : SimpleDb) : outcome (RaftError + option CommittedIndex) :=
  let? hs := get_persistent_hardstate presistent in
  match hs with
  | Some v => Ret (inr (Some (mkCommittedIndex (hs_commit v) (hs_term v))))
  | None =>
      let? v := ok (get_cf presistent DB_COL_DEFAULT (string_codes SNAPSHOT_META_KEY)) in
      match v with
      | Some v =>
          let? metadata := or_err ErrSer (deserialize v) in
          Ret (inr (Some (mkCommittedIndex (sm_index metadata) (sm_term metadata))))
      | None => Ret (inr None)
      end
  end.

(** ** The store *)
Definition RaftStore_new (presistent : SimpleDb) : RaftStore := mkRaftStore mem_new presistent 0 ∅.

Definition take_persistent s : SimpleDb * RaftStore :=
  ((db_take (presistent s)).1, s <| presistent := (db_take (presistent s)).2 |>).

(** An error of one of the steps before the write leaves the database as it
    was; the memory may have changed, and the callers stop on it. *)
Definition set_hardstate s (hs : HardState) : outcome (RaftError + RaftStore) :=
  let? bytes := or_err ErrProtobuf (hs_bytes hs) in
  let! db := set_persistent_hardstate (presistent s) bytes in
  Ret (inr (s <| in_memory ::= λ m, mem_set_hardstate m hs |> <| presistent := db |>)).

Definition store_apply_snapshot s (snapshot : RaftSnapshot) : outcome (RaftError + RaftStore) :=
  let? mem := from_crate (mem_apply_snapshot (in_memory s) snapshot) in
  let index := snap_index snapshot in
  let batch := batch_writer (presistent s) in
  let! batch := set_persistent_snapshot batch snapshot in
  let! batch := set_last_persistent_entry batch index in
  let! bf := discard_persistent_entries_before_snapshot batch (persistent_first_entry s) index in
  let! db := write (presistent s) (batch_done bf.1) in
  Ret (inr (s <| in_memory := mem |> <| presistent := db |> <| persistent_first_entry := bf.2 |>)).

Definition store_create_snapshot s (idx : Z) (cs : option ConfState) (pending_membership_change : option ConfChange)
    (data : list Z) : outcome (RaftError + RaftStore) :=
  let? sm := from_crate (mem_create_snapshot (in_memory s) idx cs pending_membership_change data) in
  let batch := batch_writer (presistent s) in
  let! batch := set_persistent_snapshot batch sm.1 in
  let! bf := discard_persistent_entries_before_snapshot batch (persistent_first_entry s) idx in
  let! db := write (presistent s) (batch_done bf.1) in
  Ret (inr (s <| in_memory := sm.2 |> <| presistent := db |> <| persistent_first_entry := bf.2 |>)).

Definition compact s (compact_index : Z) : outcome (RaftError + RaftStore) :=
  let? mem := from_crate (mem_compact (in_memory s) compact_index) in
  Ret (inr (s <| in_memory := mem |> <| proposed_context ::= filter (λ kv, compact_index ≤ kv.2) |>)).

(** The body of the loop of [append]; the flag is [first]. *)
Definition append_step (acc : bool * gmap (list Z) Z * WriteBatch) (ent : RaftEntry) :
    outcome (RaftError + bool * gmap (list Z) Z * WriteBatch) :=
  let '(first, ctx, batch) := acc in
  let index := entry_index ent in
  let ctx := if first then filter (λ kv, kv.2 < index) ctx else ctx in
  let ctx := <[entry_context ent := index]> ctx in
  let? batch := set_persistent_entry batch index ent in
  let? batch := ok (set_last_persistent_entry batch index) in
  Ret (inr (false, ctx, batch)).

Fixpoint rfold {A B : Type} (f : A → B → outcome (RaftError + A)) (a : A) (l : list B) : outcome (RaftError + A) :=
  match l with [] => Ret (inr a) | x :: l => let? a := f a x in rfold f a l end.

Definition append s (ents : list RaftEntry) : outcome (RaftError + RaftStore) :=
  let? mem := from_crate (mem_append (in_memory s) ents) in
  let entries_to_write := filter (λ e, persistent_first_entry s ≤ entry_index e) ents in
  let? acc := rfold append_step (true, proposed_context s, batch_writer (presistent s)) entries_to_write in
  let! db := write (presistent s) (batch_done acc.2) in
  Ret (inr (s <| in_memory := mem |> <| proposed_context := acc.1.2 |> <| presistent := db |>)).

(** The entries of a range of indices, and whether one is missing. *)
Fixpoint load_entries (presistent : SimpleDb) (indices : list Z) : outcome (RaftError + list RaftEntry * bool) :=
  match indices with
  | [] => Ret (inr ([], false))
  | index :: indices =>
      let? entry := get_persistent_entry presistent index in
      let? r := load_entries presistent indices in
      Ret (inr (match entry with Some e => (e :: r.1, r.2) | None => (r.1, true) end))
  end.

(** The entries after the snapshot. *)
Definition load_log s : outcome (RaftError + RaftStore) :=
  let? last := get_last_persistent_entry (presistent s) in
  match last with
  | Some last_index =>
      let end_index := wrap64 (last_index + 1) in
      let start_index := Z.min (wrap64 (persistent_first_entry s + 1)) end_index in
      let? r := load_entries (presistent s) (seqZ start_index (end_index - start_index)) in
      if r.2 then Ret (inl Unavailable)
      else
        let? mem := from_crate (mem_append (in_memory s) r.1) in
        Ret (inr (s <| in_memory := mem |>))
  | None => Ret (inr s)
  end.

(** The hard state; with a snapshot only, the snapshot is committed. *)
Definition load_hardstate s : outcome (RaftError + RaftStore) :=
  let? hs := get_persistent_hardstate (presistent s) in
  let hs := match hs with Some hs => hs | None => hs_of_commit (persistent_first_entry s) end in
  Ret (inr (s <| in_memory ::= λ m, mem_set_hardstate m hs |>)).

Definition load_in_memory_or_default s (init_cs : ConfState) : outcome (RaftError + RaftStore) :=
  let mem := mem_set_conf_state (in_memory s) init_cs in
  let? snapshot := get_persistent_snapshot (presistent s) init_cs in
  let? s := match snapshot with
            | Some snapshot =>
                let? mem := from_crate (mem_apply_snapshot mem snapshot) in
                Ret (inr (s <| in_memory := mem |> <| persistent_first_entry := snap_index snapshot |>))
            | None => Ret (inr (s <| in_memory := mem |>))
            end in
  let? s := load_log s in
  load_hardstate s.

Definition is_context_in_log s (context : list Z) : bool := bool_decide (is_Some (proposed_context s !! context)).

(** The [Storage] trait: the memory's. *)
Definition store_initial_state s := mem_initial_state (in_memory s).
Definition store_entries s (low high max_size : Z) := mem_entries (in_memory s) low high max_size.
Definition store_term s (idx : Z) := mem_term (in_memory s) idx.
Definition store_first_index s := mem_first_index (in_memory s).
Definition store_last_index s := mem_last_index (in_memory s).
Definition store_snapshot s := mem_snapshot (in_memory s).
End raft_store.

(** ** Documented behaviour of the crates *)
Class RaftCrateLaws `{RaftCrate} : Prop := {
  parse_entry_bytes e : ∃ b, entry_bytes e = Some b ∧ parse_entry b = Some e;
  parse_hs_bytes h : ∃ b, hs_bytes h = Some b ∧ parse_hs b = Some h;
  new_snapshot_index d cs i t : snap_index (new_snapshot d cs i t) = i;
  mem_append_nil m : mem_append m [] = inr m;
  mem_created_index m idx cs cc data s m' : mem_create_snapshot m idx cs cc data = inr (s, m') → snap_index s = idx;
}.

(** ** The log a database stands for *)
Record RLogOf (E H : Type) := mkRLog {
  rl_base : option (list Z * Z * Z);  (* data, index and term of the snapshot *)
  rl_ents : list E;
  rl_hs : option H;
}.
Arguments mkRLog {E H}. Arguments rl_base {E H}. Arguments rl_ents {E H}. Arguments rl_hs {E H}.
Notation RLog := (RLogOf RaftEntry HardState).
#[export] Instance eta_RLog E H : Eta (RLogOf E H) := λ r, mkRLog (rl_base r) (rl_ents r) (rl_hs r).

Section log.
Context `{RaftCrate}.
Implicit Types l : RLog.

Definition base_index l : Z := match rl_base l with Some (_, i, _) => i | None => 0 end.
Definition last_log_index l : Z := base_index l + zlen (rl_ents l).

(** The entries follow the snapshot without a gap; indices are [u64]. *)
Record log_wf l : Prop := {
  lw_base : 0 ≤ base_index l;
  lw_ents k e : rl_ents l !! k = Some e → entry_index e = base_index l + 1 + Z.of_nat k;
  lw_last : last_log_index l < U64_MOD - 1;
}.

Definition log_base (snapshot : RaftSnapshot) : option (list Z * Z * Z) :=
  Some (snap_data snapshot, snap_index snapshot, snap_term snapshot).

(** A snapshot received replaces the log; one taken drops the entries before. *)
Definition log_apply_snapshot l (snapshot : RaftSnapshot) : RLog := mkRLog (log_base snapshot) [] (rl_hs l).
Definition log_create_snapshot l (snapshot : RaftSnapshot) : RLog :=
  l <| rl_base := log_base snapshot |> <| rl_ents ::= drop (Z.to_nat (snap_index snapshot - base_index l)) |>.

(** New entries replace those from their first index on; those at or before the
    snapshot are not needed. *)
Definition log_append l (ents : list RaftEntry) : RLog :=
  match head ents with
  | None => l
  | Some e0 =>
      let i0 := entry_index e0 in
      if i0 + zlen ents - 1 <? base_index l then l
      else l <| rl_ents ::= λ old, take (Z.to_nat (i0 - base_index l - 1)) old ++
                                   drop (Z.to_nat (base_index l + 1 - i0)) ents |>
  end.

(** Entries that continue or overwrite the log. *)
Definition appendable l (ents : list RaftEntry) : Prop :=
  ∀ e0, head ents = Some e0 →
    0 ≤ entry_index e0 ≤ last_log_index l + 1 ∧ entry_index e0 + zlen ents < U64_MOD ∧
    ∀ k e, ents !! k = Some e → entry_index e = entry_index e0 + Z.of_nat k.

Lemma log_append_wf l ents : log_wf l → appendable l ents → log_wf (log_append l ents).
Proof.
  intros Hwf Ha. unfold log_append. destruct ents as [|e0 ents]; [done|]. cbn [head].
  destruct (Ha e0 eq_refl) as (Hi & Hu & Hk). case_match eqn:E; [done|]. apply Z.ltb_ge in E.
  pose proof (lw_base _ Hwf) as Hb. unfold last_log_index, zlen in *.
  assert (Hbi : base_index (l <| rl_ents ::= λ old, take (Z.to_nat (entry_index e0 - base_index l - 1)) old ++
    drop (Z.to_nat (base_index l + 1 - entry_index e0)) (e0 :: ents) |>) = base_index l) by done.
  split; rewrite ?Hbi; [done| |].
  - cbn [rl_ents setter]. intros k e He. set (n := Z.to_nat (entry_index e0 - base_index l - 1)) in *.
    assert (Hn : length (take n (rl_ents l)) = n) by (rewrite length_take; lia).
    destruct (decide (k < n)%nat).
    + rewrite lookup_app_l in He by lia. rewrite lookup_take in He. case_decide; [|done]. by apply (lw_ents _ Hwf).
    + rewrite lookup_app_r, lookup_drop, Hn in He by lia. rewrite (Hk _ _ He). lia.
  - unfold last_log_index, zlen. rewrite Hbi. cbn [rl_ents setter]. rewrite length_app, length_take, length_drop.
    pose proof (lw_last _ Hwf). unfold last_log_index, zlen in *. lia.
Qed.

Lemma log_apply_wf l s : 0 ≤ snap_index s < U64_MOD - 1 → log_wf (log_apply_snapshot l s).
Proof.
  intros Hs. split; unfold last_log_index, base_index, zlen; cbn; [lia| |lia]. intros k e. by rewrite lookup_nil.
Qed.

Lemma log_create_wf l s : log_wf l → base_index l ≤ snap_index s ≤ last_log_index l → log_wf (log_create_snapshot l s).
Proof.
  intros Hwf Hs. pose proof (lw_base _ Hwf). pose proof (lw_last _ Hwf).
  unfold log_create_snapshot. split; unfold last_log_index, zlen; cbn [rl_ents setter].
  - change (0 ≤ snap_index s). lia.
  - intros k e He. change (entry_index e = snap_index s + 1 + Z.of_nat k). rewrite lookup_drop in He.
    rewrite (lw_ents _ Hwf _ _ He). lia.
  - change (snap_index s + Z.of_nat (length (drop (Z.to_nat (snap_index s - base_index l)) (rl_ents l))) < U64_MOD - 1).
    rewrite length_drop. unfold last_log_index, zlen in *. lia.
Qed.
End log.

(** ** The database of a store represents a log *)
Section represents.
Context `{RaftCrate, !RaftCrateLaws, Bincode SnapMetadata, !BincodeLaws SnapMetadata, Bincode Z, !BincodeLaws Z}.
Implicit Types (s : RaftStore) (l : RLog) (m : gmap (list Z) (list Z)).

Definition entry_key (i : Z) : list Z := string_codes (format_entry_key i).

Record content_log m l : Prop := {
  cl_data : m !! string_codes SNAPSHOT_DATA_KEY = (λ b, b.1.1) <$> rl_base l;
  cl_meta : m !! string_codes SNAPSHOT_META_KEY = (λ b, serialize (mkSnapMetadata b.1.2 b.2)) <$> rl_base l;
  cl_last : match m !! string_codes LAST_ENTRY_KEY with
            | Some b => deserialize b = Some (last_log_index l)
            | None => rl_ents l = []
            end;
  cl_ents e : e ∈ rl_ents l → ∃ b, m !! entry_key (entry_index e) = Some b ∧ parse_entry b = Some e;
  cl_hs : match m !! string_codes HARDSTATE_KEY with
          | Some b => ∃ h, rl_hs l = Some h ∧ parse_hs b = Some h
          | None => rl_hs l = None
          end;
}.

Definition store_represents s l : Prop :=
  log_wf l ∧ persistent_first_entry s = base_index l ∧
  ∃ m, db_at DB_COL_DEFAULT (presistent s) m ∧ content_log m l.

Lemma entry_key_inj i j : entry_key i = entry_key j → i = j.
Proof.
  intros E%(inj string_codes). unfold format_entry_key in E.
  apply (inj (String.append ENTRY_KEY)), (inj (String.append "_")) in E. by apply (inj pretty) in E.
Qed.
Lemma entry_key_ne i : entry_key i ≠ string_codes HARDSTATE_KEY ∧ entry_key i ≠ string_codes SNAPSHOT_DATA_KEY ∧
  entry_key i ≠ string_codes SNAPSHOT_META_KEY ∧ entry_key i ≠ string_codes LAST_ENTRY_KEY.
Proof. done. Qed.

Lemma rbind_ret {E A B : Type} (m : outcome (E + A)) (k : A → outcome (E + B)) (b : B) :
  rbind m k = Ret (inr b) ↔ ∃ a, m = Ret (inr a) ∧ k a = Ret (inr b).
Proof. unfold rbind. destruct m as [[|]|]; cbn; naive_solver. Qed.

Lemma discard_batch db b ops (first idx : Z) : batch_at DB_COL_DEFAULT db b ops →
  ∃ b', discard_persistent_entries_before_snapshot b first idx = Ret (b', idx) ∧
    batch_at DB_COL_DEFAULT db b' (ops ++ map (λ i, (entry_key i, None)) (seqZ first (idx - first))).
Proof.
  intros Hb. unfold discard_persistent_entries_before_snapshot.
  assert (Hg : ∀ ix b ops, batch_at DB_COL_DEFAULT db b ops → ∃ b', ofold discard_persistent_entry b ix = Ret b' ∧
    batch_at DB_COL_DEFAULT db b' (ops ++ map (λ i, (entry_key i, None)) ix)).
  { clear. induction ix as [|i ix IH]; intros b ops Hb; cbn [ofold map].
    - exists b. by rewrite app_nil_r.
    - destruct (batch_at_delete _ _ _ _ (entry_key i) Hb) as (b1 & E & Hb1). unfold discard_persistent_entry at 1.
      fold (entry_key i). rewrite E. cbn [obind]. destruct (IH b1 _ Hb1) as (b' & -> & Hb'). exists b'.
      split; [done|]. by rewrite <-app_assoc in Hb'. }
  destruct (Hg (seqZ first (idx - first)) b ops Hb) as (b' & -> & Hb'). by exists b'.
Qed.

Lemma snapshot_batch db b ops (snap : RaftSnapshot) : batch_at DB_COL_DEFAULT db b ops →
  ∃ b', set_persistent_snapshot b snap = Ret b' ∧
    batch_at DB_COL_DEFAULT db b' (ops ++ [(string_codes SNAPSHOT_DATA_KEY, Some (snap_data snap));
      (string_codes SNAPSHOT_META_KEY, Some (serialize (mkSnapMetadata (snap_index snap) (snap_term snap))))]).
Proof.
  intros Hb. unfold set_persistent_snapshot.
  destruct (batch_at_put _ _ _ _ (string_codes SNAPSHOT_DATA_KEY) (snap_data snap) Hb) as (b1 & -> & Hb1). cbn [obind].
  destruct (batch_at_put _ _ _ _ (string_codes SNAPSHOT_META_KEY)
    (serialize (mkSnapMetadata (snap_index snap) (snap_term snap))) Hb1) as (b2 & -> & Hb2).
  exists b2. split; [done|]. by rewrite <-app_assoc in Hb2.
Qed.

(** Discarding entries before an index keeps the other keys. *)
Lemma discarded_other m (first idx : Z) k : (∀ i, first ≤ i < idx → k ≠ entry_key i) →
  foldl kv_op m (map (λ i, (entry_key i, None)) (seqZ first (idx - first))) !! k = m !! k.
Proof.
  intros Hk. apply kv_ops_other. rewrite <-list_fmap_compose. intros (i & -> & Hi)%list_elem_of_fmap.
  apply elem_of_seqZ in Hi. apply (Hk i); [lia|done].
Qed.

Lemma set_hardstate_represents s l h s' : store_represents s l → set_hardstate s h = Ret (inr s') →
  store_represents s' (l <| rl_hs := Some h |>).
Proof.
  intros (Hwf & Hf & m & Hm & Hc) E. unfold set_hardstate in E. destruct (parse_hs_bytes h) as (b & Hb & Hp).
  rewrite Hb in E. unfold set_persistent_hardstate in E.
  destruct (db_at_put _ _ _ (string_codes HARDSTATE_KEY) b Hm) as (db' & Ed & Hm'). cbn [or_err rbind obind] in E.
  rewrite Ed in E. cbn in E. injection E as [= <-].
  split; [by destruct Hwf|]. split; [done|]. eexists. split; [exact Hm'|]. destruct Hc as [Cd Cm Cl Ce Ch]. split.
  - by rewrite lookup_insert_ne by done.
  - by rewrite lookup_insert_ne by done.
  - by rewrite lookup_insert_ne by done.
  - intros e He. destruct (Ce e He) as (b' & ? & ?). exists b'. rewrite lookup_insert_ne; [done|].
    intros E. by apply (entry_key_ne (entry_index e)).
  - rewrite lookup_insert_eq. by exists h.
Qed.

Lemma apply_snapshot_represents s l snap s' : store_represents s l → 0 ≤ snap_index snap < U64_MOD - 1 →
  store_apply_snapshot s snap = Ret (inr s') → store_represents s' (log_apply_snapshot l snap).
Proof.
  intros (Hwf & Hf & m & Hm & Hc) Hi E. unfold store_apply_snapshot in E.
  apply rbind_ret in E as (mem & _ & E).
  destruct (snapshot_batch _ _ [] snap (batch_at_writer _ _ _ Hm)) as (b1 & E1 & Hb1). rewrite E1 in E. cbn [obind] in E.
  destruct (batch_at_put _ _ _ _ (string_codes LAST_ENTRY_KEY) (serialize (snap_index snap)) Hb1) as (b2 & E2 & Hb2).
  unfold set_last_persistent_entry in E. rewrite E2 in E. cbn [obind] in E.
  destruct (discard_batch _ _ _ (persistent_first_entry s) (snap_index snap) Hb2) as (b3 & E3 & Hb3).
  rewrite E3 in E. cbn [obind fst snd] in E.
  destruct (batch_at_write _ _ _ _ _ Hm Hb3) as (db' & E4 & Hm' & _). rewrite E4 in E. cbn [obind] in E.
  injection E as [= <-]. split; [by apply log_apply_wf|]. split; [done|]. eexists. split; [exact Hm'|].
  rewrite foldl_app. destruct Hc as [Cd Cm Cl Ce Ch]. cbn [app foldl].
  assert (Hd : ∀ k, k = string_codes SNAPSHOT_DATA_KEY ∨ k = string_codes SNAPSHOT_META_KEY ∨
      k = string_codes LAST_ENTRY_KEY ∨ k = string_codes HARDSTATE_KEY → ∀ i, k ≠ entry_key i).
  { intros k Hk i ->. by destruct (entry_key_ne i) as (? & ? & ? & ?), Hk as [?|[?|[?|?]]]. }
  split.
  - rewrite discarded_other by (intros ? _; apply Hd; auto). unfold kv_op; cbn [fst snd].
    by rewrite !lookup_insert_ne, lookup_insert_eq by done.
  - rewrite discarded_other by (intros ? _; apply Hd; auto). unfold kv_op; cbn [fst snd].
    by rewrite !lookup_insert_ne, lookup_insert_eq by done.
  - rewrite discarded_other by (intros ? _; apply Hd; auto). unfold kv_op; cbn [fst snd]. rewrite lookup_insert_eq.
    rewrite deserialize_serialize. unfold last_log_index, zlen, base_index. cbn. f_equal. lia.
  - cbn. by intros e ?%elem_of_nil.
  - rewrite discarded_other by (intros ? _; apply Hd; auto). unfold kv_op; cbn [fst snd].
    by rewrite !lookup_insert_ne by done.
Qed.

Lemma create_snapshot_represents s l idx cs cc data mem snap s' : store_represents s l →
  mem_create_snapshot (in_memory s) idx cs cc data = inr (snap, mem) → base_index l ≤ idx ≤ last_log_index l →
  store_create_snapshot s idx cs cc data = Ret (inr s') → store_represents s' (log_create_snapshot l snap).
Proof.
  intros (Hwf & Hf & m & Hm & Hc) Es Hi E. pose proof (mem_created_index _ _ _ _ _ _ _ Es) as Hidx.
  unfold store_create_snapshot in E. rewrite Es in E. cbn [from_crate rbind obind fst snd] in E.
  destruct (snapshot_batch _ _ [] snap (batch_at_writer _ _ _ Hm)) as (b1 & E1 & Hb1). rewrite E1 in E. cbn [obind] in E.
  destruct (discard_batch _ _ _ (persistent_first_entry s) idx Hb1) as (b3 & E3 & Hb3).
  rewrite E3 in E. cbn [obind fst snd] in E.
  destruct (batch_at_write _ _ _ _ _ Hm Hb3) as (db' & E4 & Hm' & _). rewrite E4 in E. cbn [obind] in E.
  injection E as [= <-]. rewrite <-Hidx in Hi. split; [by apply log_create_wf|]. split; [by cbn|].
  eexists. split; [exact Hm'|]. rewrite foldl_app. pose proof Hc as [Cd Cm Cl Ce Ch]. cbn [app foldl].
  set (m1 := kv_op _ _).
  assert (Hkey : ∀ k, k ≠ string_codes SNAPSHOT_DATA_KEY → k ≠ string_codes SNAPSHOT_META_KEY → m1 !! k = m !! k).
  { intros k Hk1 Hk2. unfold m1, kv_op; cbn [fst snd]. by rewrite !lookup_insert_ne. }
  split.
  - rewrite discarded_other by (intros ? _; done). unfold m1, kv_op; cbn [fst snd].
    by rewrite lookup_insert_ne, lookup_insert_eq by done.
  - rewrite discarded_other by (intros ? _; done). unfold m1, kv_op; cbn [fst snd]. by rewrite lookup_insert_eq.
  - rewrite discarded_other, Hkey by (try intros ? _; done). cbn [log_create_snapshot rl_ents setter].
    destruct (m !! string_codes LAST_ENTRY_KEY) as [b|]; [|by rewrite Cl, drop_nil].
    rewrite Cl. f_equal. unfold last_log_index, zlen in *. cbn [log_create_snapshot rl_ents setter].
    change (base_index (log_create_snapshot l snap)) with (snap_index snap). rewrite length_drop. lia.
  - intros e He. cbn [log_create_snapshot rl_ents setter] in He. apply list_elem_of_lookup in He as [k He].
    rewrite lookup_drop in He. pose proof (lw_ents _ Hwf _ _ He) as Hei.
    destruct (Ce e) as (b & Hb & Hp); [by eapply list_elem_of_lookup_2|]. exists b. split; [|done].
    rewrite discarded_other, Hkey; [done|apply entry_key_ne..|].
    intros i Hid E'%entry_key_inj. rewrite Hei in E'. lia.
  - rewrite discarded_other, Hkey by (try intros ? _; done). exact Ch.
Qed.

(** What the loop of [append] writes, and the contexts it records. *)
Definition append_ops (ents : list RaftEntry) : list (list Z * option (list Z)) :=
  ents ≫= λ e, [(entry_key (entry_index e), entry_bytes e); (string_codes LAST_ENTRY_KEY, Some (serialize (entry_index e)))].
Definition add_contexts (ents : list RaftEntry) (ctx : gmap (list Z) Z) : gmap (list Z) Z :=
  foldl (λ ctx e, <[entry_context e := entry_index e]> ctx) ctx ents.
Definition append_contexts (ents : list RaftEntry) (ctx : gmap (list Z) Z) : gmap (list Z) Z :=
  match ents with [] => ctx | e0 :: _ => add_contexts ents (filter (λ kv, kv.2 < entry_index e0) ctx) end.

Lemma append_step_ret db e first ctx b ops : batch_at DB_COL_DEFAULT db b ops →
  ∃ b', append_step (first, ctx, b) e =
      Ret (inr (false, <[entry_context e := entry_index e]> (if first then filter (λ kv, kv.2 < entry_index e) ctx else ctx), b')) ∧
    batch_at DB_COL_DEFAULT db b' (ops ++ append_ops [e]).
Proof.
  intros Hb. unfold append_step, set_persistent_entry, set_last_persistent_entry.
  destruct (parse_entry_bytes e) as (bs & Hbs & _). rewrite Hbs. cbn [or_err rbind obind].
  destruct (batch_at_put _ _ _ _ (entry_key (entry_index e)) bs Hb) as (b1 & E1 & Hb1).
  unfold entry_key in E1. rewrite E1. cbn [ok rbind obind].
  destruct (batch_at_put _ _ _ _ (string_codes LAST_ENTRY_KEY) (serialize (entry_index e)) Hb1) as (b2 & E2 & Hb2).
  rewrite E2. cbn [ok rbind obind]. exists b2. split; [done|]. rewrite <-!app_assoc in Hb2.
  unfold append_ops. cbn. rewrite Hbs. exact Hb2.
Qed.

Lemma append_loop db ents first ctx b ops : batch_at DB_COL_DEFAULT db b ops →
  ∃ first' b', rfold append_step (first, ctx, b) ents =
      Ret (inr (first', if first then append_contexts ents ctx else add_contexts ents ctx, b')) ∧
    batch_at DB_COL_DEFAULT db b' (ops ++ append_ops ents).
Proof.
  revert first ctx b ops; induction ents as [|e ents IH]; intros first ctx b ops Hb.
  { exists first, b. rewrite app_nil_r. split; [by destruct first|done]. }
  cbn [rfold]. destruct (append_step_ret db e first ctx b ops Hb) as (b1 & E1 & Hb1). rewrite E1. cbn [rbind obind].
  destruct (IH false (<[entry_context e := entry_index e]> (if first then filter (λ kv, kv.2 < entry_index e) ctx else ctx))
    b1 _ Hb1) as (f' & b' & E3 & Hb').
  exists f', b'. split; [rewrite E3; by destruct first|].
  rewrite <-app_assoc in Hb'. exact Hb'.
Qed.

Lemma elem_of_append_ops ents k v : (k, v) ∈ append_ops ents →
  ∃ e, e ∈ ents ∧ ((k = entry_key (entry_index e) ∧ v = entry_bytes e) ∨
                   (k = string_codes LAST_ENTRY_KEY ∧ v = Some (serialize (entry_index e)))).
Proof.
  intros (e & Hin & He)%list_elem_of_bind. exists e. split; [done|].
  apply elem_of_cons in Hin as [[= -> ->]|Hin]; [by left|]. apply list_elem_of_singleton in Hin as [= -> ->]. by right.
Qed.

Lemma append_ops_last m ents e : foldl kv_op m (append_ops (ents ++ [e])) !! string_codes LAST_ENTRY_KEY =
  Some (serialize (entry_index e)).
Proof.
  unfold append_ops. rewrite bind_app, foldl_app. cbn [mbind list_bind app foldl].
  unfold kv_op at 1. cbn [fst snd]. apply lookup_insert_eq.
Qed.

(** The entries written are read back; others are not touched. *)
Lemma append_ops_entry m ents e : e ∈ ents → (∀ e1 e2, e1 ∈ ents → e2 ∈ ents → entry_index e1 = entry_index e2 → e1 = e2) →
  foldl kv_op m (append_ops ents) !! entry_key (entry_index e) = entry_bytes e.
Proof.
  intros He Hinj. destruct (kv_ops_in m (append_ops ents) (entry_key (entry_index e))) as (v & Hv & ->).
  - apply list_elem_of_fmap. exists (entry_key (entry_index e), entry_bytes e). split; [done|].
    apply list_elem_of_bind. exists e. split; [by left|done].
  - apply elem_of_append_ops in Hv as (e' & He' & [[E ->]|[E _]]); [|by apply entry_key_ne in E].
    apply entry_key_inj in E. by rewrite (Hinj e e').
Qed.

Lemma append_ops_other m ents k : k ≠ string_codes LAST_ENTRY_KEY → (∀ e, e ∈ ents → k ≠ entry_key (entry_index e)) →
  foldl kv_op m (append_ops ents) !! k = m !! k.
Proof.
  intros Hl Hk. apply kv_ops_other. intros ([k' v] & -> & Hin)%list_elem_of_fmap.
  apply elem_of_append_ops in Hin as (e & He & [[E _]|[E _]]); [by apply (Hk e)|done].
Qed.

Lemma append_represents s l ents s' : store_represents s l → appendable l ents →
  append s ents = Ret (inr s') → store_represents s' (log_append l ents).
Proof.
  intros (Hwf & Hf & m & Hm & Hc) Ha E. unfold append in E. apply rbind_ret in E as (mem & _ & E).
  rewrite Hf in E. set (es := filter _ ents) in E.
  destruct (append_loop _ es true (proposed_context s) _ _ (batch_at_writer _ _ _ Hm)) as (f' & b' & E1 & Hb).
  rewrite E1 in E. cbn [rbind obind fst snd] in E. cbn [app] in Hb.
  destruct (batch_at_write _ _ _ _ _ Hm Hb) as (db' & E2 & Hm' & _). rewrite E2 in E. cbn [obind] in E.
  injection E as [= <-]. split; [by apply log_append_wf|]. split.
  { cbn. rewrite Hf. unfold log_append. by repeat case_match. }
  eexists. split; [exact Hm'|]. clear E1 E2 Hb Hm'. destruct ents as [|el ents0 _] using rev_ind; [exact Hc|].
  set (ents := ents0 ++ [el]) in *.
  destruct (head ents) as [e0|] eqn:Eh; [|by destruct ents0].
  destruct (Ha e0 Eh) as (Hi & Hu & Hk).
  assert (Hel : entry_index el = entry_index e0 + zlen ents - 1).
  { rewrite (Hk (length ents0) el); [|by apply list_lookup_middle]. unfold ents, zlen. rewrite length_app. cbn. lia. }
  assert (Hinj : ∀ e1 e2, e1 ∈ es → e2 ∈ es → entry_index e1 = entry_index e2 → e1 = e2).
  { intros e1 e2 [_ [k1 H1k]%list_elem_of_lookup]%list_elem_of_filter [_ [k2 H2k]%list_elem_of_lookup]%list_elem_of_filter E.
    rewrite (Hk _ _ H1k), (Hk _ _ H2k) in E. assert (k1 = k2) as -> by lia. congruence. }
  unfold log_append. rewrite Eh. destruct (Z.ltb_spec (entry_index e0 + zlen ents - 1) (base_index l)) as [Hlt|Hge].
  { assert (es = []) as ->; [|exact Hc]. apply elem_of_nil_inv.
    intros e [He' [k He]%list_elem_of_lookup]%list_elem_of_filter. revert He'.
    pose proof (lookup_lt_Some _ _ _ He). rewrite (Hk _ _ He). unfold zlen in Hlt. lia. }
  assert (Hes : es = filter (λ e, base_index l ≤ entry_index e) ents0 ++ [el]).
  { unfold es, ents. rewrite filter_app, filter_cons, decide_True by lia. done. }
  destruct Hc as [Cd Cm Cl Ce Ch].
  assert (Hoth : ∀ k, (∀ i, k ≠ entry_key i) → k ≠ string_codes LAST_ENTRY_KEY →
    foldl kv_op m (append_ops es) !! k = m !! k) by (intros k Hk1 Hk2; apply append_ops_other; [done|auto]).
  split; cbn [rl_base rl_hs setter].
  - rewrite Hoth; [done|intros i E; symmetry in E; by apply entry_key_ne in E|done].
  - rewrite Hoth; [done|intros i E; symmetry in E; by apply entry_key_ne in E|done].
  - rewrite Hes, append_ops_last, deserialize_serialize. f_equal. rewrite Hel.
    pose proof (lw_base _ Hwf). unfold last_log_index, zlen, base_index in *. cbn [rl_base rl_ents setter].
    rewrite length_app, length_take, length_drop. lia.
  - intros e He. cbn [rl_ents setter] in He. apply elem_of_app in He as [He|He].
    + apply list_elem_of_lookup in He as [k He]. rewrite lookup_take in He. case_decide as D; [|done].
      destruct (Ce e) as (b & Hb & Hp); [by eapply list_elem_of_lookup_2|]. exists b. split; [|done].
      rewrite append_ops_other; [done|by apply entry_key_ne|].
      intros e1 [_ [k1 H1k]%list_elem_of_lookup]%list_elem_of_filter E%entry_key_inj.
      rewrite (lw_ents _ Hwf _ _ He), (Hk _ _ H1k) in E. lia.
    + apply list_elem_of_lookup in He as [k He]. rewrite lookup_drop in He.
      destruct (parse_entry_bytes e) as (b & Hb & Hp). exists b. split; [|done]. rewrite append_ops_entry; [done| |done].
      apply list_elem_of_filter. split; [|by eapply list_elem_of_lookup_2]. rewrite (Hk _ _ He). lia.
  - rewrite Hoth; [done|intros i E; symmetry in E; by apply entry_key_ne in E|done].
Qed.

(** ** Restarting *)

(** The store that a log stands for, built with the operations of the memory. *)
Definition restore (presistent : SimpleDb) (init_cs : ConfState) l : RaftError + RaftStore :=
  let mem := mem_set_conf_state mem_new init_cs in
  match match rl_base l with
        | Some (data, idx, term) => mem_apply_snapshot mem (new_snapshot data init_cs idx term)
        | None => inr mem
        end with
  | inl e => inl (ErrCrate e)
  | inr mem =>
      match mem_append mem (rl_ents l) with
      | inl e => inl (ErrCrate e)
      | inr mem => inr (mkRaftStore (mem_set_hardstate mem (default (hs_of_commit (base_index l)) (rl_hs l)))
                          presistent (base_index l) ∅)
      end
  end.

Lemma load_entries_log db m l k : db_at DB_COL_DEFAULT db m → log_wf l → content_log m l → (k <= length (rl_ents l))%nat →
  load_entries db (seqZ (base_index l + 1 + Z.of_nat k) (zlen (rl_ents l) - Z.of_nat k)) =
    Ret (inr (drop k (rl_ents l), false)).
Proof.
  intros Hm Hwf Hc Hk. remember (length (rl_ents l) - k)%nat as n eqn:En.
  revert k Hk En; induction n as [|n IH]; intros k Hk En.
  - rewrite drop_ge by lia. unfold zlen. replace (_ - Z.of_nat k) with 0 by lia. done.
  - destruct (lookup_lt_is_Some_2 (rl_ents l) k) as [e He]; [lia|].
    rewrite seqZ_cons by (unfold zlen; lia). cbn [load_entries]. unfold get_persistent_entry at 1.
    rewrite (db_at_get _ _ _ _ Hm). cbn [ok rbind obind].
    destruct (cl_ents _ _ Hc e) as (b & Hb & Hp); [by eapply list_elem_of_lookup_2|].
    rewrite (lw_ents _ Hwf _ _ He) in Hb. unfold entry_key in Hb. rewrite Hb, Hp. cbn [or_err rbind obind].
    replace (Z.succ (base_index l + 1 + Z.of_nat k)) with (base_index l + 1 + Z.of_nat (S k)) by lia.
    replace (Z.pred (zlen (rl_ents l) - Z.of_nat k)) with (zlen (rl_ents l) - Z.of_nat (S k)) by lia.
    rewrite IH by lia. cbn. by rewrite (drop_S _ _ _ He).
Qed.

Lemma load_log_ret db m l mem : db_at DB_COL_DEFAULT db m → log_wf l → content_log m l →
  load_log (mkRaftStore mem db (base_index l) ∅) =
    Ret (match mem_append mem (rl_ents l) with
         | inl e => inl (ErrCrate e) | inr mem => inr (mkRaftStore mem db (base_index l) ∅) end).
Proof.
  intros Hm Hwf Hc. pose proof (load_entries_log db m l 0 Hm Hwf Hc (Nat.le_0_l _)) as Hle.
  rewrite drop_0, Z.add_0_r, Z.sub_0_r in Hle. pose proof (cl_last _ _ Hc) as Cl.
  pose proof (lw_base _ Hwf) as Hb0. pose proof (lw_last _ Hwf) as Hb1. unfold last_log_index, zlen in Hb1.
  unfold load_log, get_last_persistent_entry. cbn [presistent persistent_first_entry in_memory].
  rewrite (db_at_get _ _ _ _ Hm). cbn [ok rbind obind].
  destruct (m !! string_codes LAST_ENTRY_KEY) as [b|]; [|rewrite Cl, mem_append_nil; done].
  rewrite Cl. cbn [or_err rbind obind]. cbv zeta. unfold last_log_index.
  rewrite !wrap64_id by (unfold is_u64, U64_MOD, zlen in *; lia). rewrite Z.min_l by (unfold zlen; lia).
  replace (base_index l + zlen (rl_ents l) + 1 - (base_index l + 1)) with (zlen (rl_ents l)) by lia.
  rewrite Hle. cbn [rbind obind fst snd]. unfold from_crate, rbind, obind. by destruct (mem_append mem (rl_ents l)).
Qed.

Lemma load_hardstate_ret db m l mem : db_at DB_COL_DEFAULT db m → content_log m l →
  load_hardstate (mkRaftStore mem db (base_index l) ∅) =
    Ret (inr (mkRaftStore (mem_set_hardstate mem (default (hs_of_commit (base_index l)) (rl_hs l))) db (base_index l) ∅)).
Proof.
  intros Hm Hc. unfold load_hardstate, get_persistent_hardstate. cbn [presistent].
  rewrite (db_at_get _ _ _ _ Hm). cbn [ok rbind obind]. pose proof (cl_hs _ _ Hc) as Ch.
  destruct (m !! string_codes HARDSTATE_KEY) as [b|]; [|by rewrite Ch]. by destruct Ch as (h & -> & ->).
Qed.

Lemma load_represents db m l init_cs : db_at DB_COL_DEFAULT db m → log_wf l → content_log m l →
  load_in_memory_or_default (RaftStore_new db) init_cs = Ret (restore db init_cs l).
Proof.
  intros Hm Hwf Hc. pose proof (load_log_ret db m l) as Hll. pose proof (load_hardstate_ret db m l) as Hlh.
  unfold load_in_memory_or_default, restore, get_persistent_snapshot. cbn [presistent RaftStore_new in_memory].
  rewrite !(db_at_get _ _ _ _ Hm), (cl_data _ _ Hc), (cl_meta _ _ Hc). cbn [ok rbind obind].
  assert (Hrest : ∀ mem, (let? s := load_log (mkRaftStore mem db (base_index l) ∅) in load_hardstate s) =
    Ret (match mem_append mem (rl_ents l) with
         | inl e => inl (ErrCrate e)
         | inr mem => inr (mkRaftStore (mem_set_hardstate mem (default (hs_of_commit (base_index l)) (rl_hs l)))
                             db (base_index l) ∅) end)).
  { intros mem. rewrite Hll by done. destruct (mem_append mem (rl_ents l)); cbn [rbind obind]; [done|by apply Hlh]. }
  unfold base_index in Hrest |- *.
  destruct (rl_base l) as [[[d i] t]|]; cbn [fmap option_fmap option_map fst snd]; [|apply Hrest].
  rewrite deserialize_serialize. cbn [or_err rbind obind sm_index sm_term].
  destruct (mem_apply_snapshot _ _) as [e|mem]; [done|]. cbn [from_crate rbind obind].
  rewrite new_snapshot_index. apply Hrest.
Qed.

(** ** Stores in use *)

(** The stores a node goes through, and the log each stands for: the start on a
    database without a log, loading, and the operations of the raft loop, on
    indices as raft gives them. *)
Inductive store_run : RaftStore → RLog → Prop :=
  | run_new db m : db_at DB_COL_DEFAULT db m →
      m !! string_codes SNAPSHOT_DATA_KEY = None → m !! string_codes SNAPSHOT_META_KEY = None →
      m !! string_codes LAST_ENTRY_KEY = None → m !! string_codes HARDSTATE_KEY = None →
      store_run (RaftStore_new db) (mkRLog None [] None)
  | run_load s l init_cs s' : store_run s l →
      load_in_memory_or_default (RaftStore_new (presistent s)) init_cs = Ret (inr s') → store_run s' l
  | run_hardstate s l hs s' : store_run s l → set_hardstate s hs = Ret (inr s') →
      store_run s' (l <| rl_hs := Some hs |>)
  | run_snapshot s l snap s' : store_run s l → 0 ≤ snap_index snap < U64_MOD - 1 →
      store_apply_snapshot s snap = Ret (inr s') → store_run s' (log_apply_snapshot l snap)
  | run_create s l idx cs cc data snap mem s' : store_run s l →
      mem_create_snapshot (in_memory s) idx cs cc data = inr (snap, mem) → base_index l ≤ idx ≤ last_log_index l →
      store_create_snapshot s idx cs cc data = Ret (inr s') → store_run s' (log_create_snapshot l snap)
  | run_compact s l idx s' : store_run s l → compact s idx = Ret (inr s') → store_run s' l
  | run_append s l ents s' : store_run s l → appendable l ents → append s ents = Ret (inr s') →
      store_run s' (log_append l ents).

Lemma restore_represents db m init_cs l s : db_at DB_COL_DEFAULT db m → log_wf l → content_log m l →
  restore db init_cs l = inr s → store_represents s l.
Proof.
  intros Hm Hwf Hc. unfold restore. cbv zeta.
  do 2 match goal with |- match ?x with inl _ => _ | inr _ => _ end = _ → _ => destruct x; [by intros|] end.
  intros [= <-]. split; [done|]. split; [done|]. by exists m.
Qed.

Lemma run_represents s l : store_run s l → store_represents s l.
Proof.
  induction 1 as [db m Hm D1 D2 D3 D4|s l cs s' _ IH E|s l hs s' _ IH E|s l snap s' _ IH Hi E
    |s l idx cs cc data snap mem s' _ IH Em Hi E|s l idx s' _ IH E|s l ents s' _ IH Ha E].
  - split; [|split; [done|]].
    + split; unfold last_log_index, base_index, zlen, U64_MOD; cbn; [lia|by intros k e; rewrite lookup_nil|lia].
    + exists m. split; [done|]. split; [done|done|by rewrite D3| |by rewrite D4].
      by intros e ?%elem_of_nil.
  - destruct IH as (Hwf & _ & m & Hm & Hc). rewrite (load_represents _ m l) in E by done. injection E as E.
    by eapply restore_represents.
  - by eapply set_hardstate_represents.
  - by eapply apply_snapshot_represents.
  - by eapply create_snapshot_represents.
  - unfold compact in E. apply rbind_ret in E as (mem & _ & [= <-]). destruct IH as (? & ? & ?). done.
  - by eapply append_represents.
Qed.

(** C6: a restart at any moment reads back exactly the log of the node: whatever
    snapshots were taken or received, entries appended or overwritten, and
    hard states saved, loading the database gives the store built from the
    last snapshot, precisely the entries after it, and the last hard state; no
    discarded or overwritten entry comes back and none is missing. *)
Theorem restart_restores_log s l init_cs : store_run s l →
  load_in_memory_or_default (RaftStore_new (presistent s)) init_cs = Ret (restore (presistent s) init_cs l) ∧
  get_presistent_committed (presistent s) = Ret (inr
    (match rl_hs l, rl_base l with
     | Some h, _ => Some (mkCommittedIndex (hs_commit h) (hs_term h))
     | None, Some (_, i, t) => Some (mkCommittedIndex i t)
     | None, None => None
     end)).
Proof.
  intros (Hwf & _ & m & Hm & Hc)%run_represents. split; [by eapply load_represents|].
  unfold get_presistent_committed, get_persistent_hardstate. rewrite !(db_at_get _ _ _ _ Hm). cbn [ok rbind obind].
  pose proof (cl_hs _ _ Hc) as Ch. rewrite (cl_meta _ _ Hc). destruct (m !! string_codes HARDSTATE_KEY) as [b|].
  - destruct Ch as (h & -> & ->). done.
  - rewrite Ch. cbn [rbind obind]. destruct (rl_base l) as [[[d i] t]|]; cbn; [by rewrite deserialize_serialize|done].
Qed.
End represents.

Module RaftStoreExamples.
(** Entries are an index and a context, snapshots their data, index and term,
    hard states a commit index and a term; the memory keeps the last of each. *)
Definition Mem : Type := option (list Z * Z * Z) * list (Z * list Z) * option (Z * Z).
#[export] Instance crate : RaftCrate := {|
  RaftEntry := Z * list Z; RaftSnapshot := list Z * Z * Z; HardState := Z * Z; ConfState := list Z; ConfChange := unit;
  MemStorage := Mem; InitialState := unit; CrateError := unit;
  entry_index := fst; entry_context := snd;
  entry_bytes e := Some (e.1 :: e.2);
  parse_entry l := match l with i :: c => Some (i, c) | [] => None end;
  snap_data s := s.1.1; snap_index s := s.1.2; snap_term s := s.2;
  new_snapshot d _ i t := (d, i, t);
  hs_commit := fst; hs_term := snd; hs_of_commit c := (c, 0);
  hs_bytes h := Some [h.1; h.2];
  parse_hs l := match l with [c; t] => Some (c, t) | _ => None end;
  mem_new := (None, [], None);
  mem_set_conf_state m _ := m;
  mem_set_hardstate m h := (m.1, Some h);
  mem_apply_snapshot m s := inr (Some s, [], m.2);
  mem_create_snapshot m idx _ _ d := inr ((d, idx, 1), m);
  mem_compact m i := inr (m.1.1, filter (λ e, i ≤ e.1) m.1.2, m.2);
  mem_append m es := inr (m.1.1, m.1.2 ++ es, m.2);
  mem_initial_state _ := inl (); mem_entries _ _ _ _ := inl (); mem_term _ _ := inl ();
  mem_first_index _ := inl (); mem_last_index _ := inl (); mem_snapshot _ := inl ()
|}.
#[export] Instance crate_laws : RaftCrateLaws.
Proof.
  constructor; cbn.
  - intros [i c]. by eexists.
  - intros [c t]. by eexists.
  - done.
  - intros [[? ?] ?]. by rewrite app_nil_r.
  - by intros m idx cs cc d s m' [= <- _].
Qed.
#[export] Instance bc_Z : Bincode Z := {| serialize z := [z]; deserialize := head |}.
#[export] Instance bc_Z_laws : BincodeLaws Z.
Proof. by intros z. Qed.
#[export] Instance bc_meta : Bincode SnapMetadata := {|
  serialize s := [sm_index s; sm_term s];
  deserialize l := match l with [i; t] => Some (mkSnapMetadata i t) | _ => None end |}.
#[export] Instance bc_meta_laws : BincodeLaws SnapMetadata.
Proof. by intros []. Qed.

Definition db0 : SimpleDb := mkSimpleDb {[DB_COL_DEFAULT := 0%nat]} [∅].
Lemma db0_at : db_at DB_COL_DEFAULT db0 ∅.
Proof.
  split; [|by vm_compute]. split; cbn [columns key_values db0].
  - intros cf i [_ <-]%lookup_singleton_Some. cbn. lia.
  - intros cf1 cf2 i [<- _]%lookup_singleton_Some [<- _]%lookup_singleton_Some. done.
Qed.

Definition e1 : RaftEntry := (1, [7]).
Definition e2 : RaftEntry := (2, [8]).
Definition e3 : RaftEntry := (3, [9]).
Definition e4 : RaftEntry := (3, [10]).
Definition h1 : HardState := (2, 1).
Definition snap1 : RaftSnapshot := ([5], 1, 1).
Definition ok_store (m : outcome (RaftError + RaftStore)) : RaftStore :=
  match m with Ret (inr s) => s | _ => RaftStore_new db0 end.
Definition s1 : RaftStore := ok_store (append (RaftStore_new db0) [e1; e2; e3]).
Definition s2 : RaftStore := ok_store (set_hardstate s1 h1).
Definition s3 : RaftStore := ok_store (store_create_snapshot s2 1 None None [5]).
(** The last entry is overwritten. *)
Definition s4 : RaftStore := ok_store (append s3 [e4]).

Lemma s4_run : store_run s4 (mkRLog (Some ([5], 1, 1)) [e2; e4] (Some h1)).
Proof.
  assert (R0 : store_run (RaftStore_new db0) (mkRLog (E := RaftEntry) (H := HardState) None [] None)) by (by apply (run_new db0 ∅ db0_at)).
  assert (R1 : store_run s1 (mkRLog (E := RaftEntry) (H := HardState) None [e1; e2; e3] None)).
  { apply (run_append _ _ [e1; e2; e3] s1 R0); [|vm_compute; reflexivity].
    intros e0 [= <-]. split; [by vm_compute|]. split; [by vm_compute|].
    intros [|[|[|k]]] e; cbn; intros [= <-]; done. }
  assert (R2 : store_run s2 (mkRLog (E := RaftEntry) (H := HardState) None [e1; e2; e3] (Some h1))).
  { apply (run_hardstate _ _ h1 s2 R1). vm_compute. reflexivity. }
  assert (R3 : store_run s3 (mkRLog (Some ([5], 1, 1)) [e2; e3] (Some h1))).
  { apply (run_create _ _ 1 None None [5] snap1 (in_memory s2) s3 R2); [vm_compute; reflexivity|by vm_compute|].
    vm_compute. reflexivity. }
  apply (run_append _ _ [e4] s4 R3); [|vm_compute; reflexivity].
  intros e0 [= <-]. split; [by vm_compute|]. split; [by vm_compute|]. intros [|k] e; cbn; intros [= <-]; done.
Qed.

Lemma restart_restores_log_witness :
  ∃ s, load_in_memory_or_default (RaftStore_new (presistent s4)) [] = Ret (inr s) ∧
    in_memory s = (Some ([5], 1, 1), [e2; e4], Some h1) ∧
    get_presistent_committed (presistent s4) = Ret (inr (Some (mkCommittedIndex 2 1))).
Proof.
  destruct (restart_restores_log s4 _ [] s4_run) as [E1 E2].
  eexists. split; [exact E1|]. split; [reflexivity|exact E2].
Defined.
End RaftStoreExamples.
