(* ===== verification/RaftLoop.v ===== *)
(** * The raft loop: [src/raft.rs]

    The loop takes commands, messages and ticks, drives the raft crate, keeps
    the store up to date with what the crate asks for, sends its messages and
    hands the committed entries to the node. *)
From S2P Require Import Prelude Externals DbUtils ActiveRaft RaftStore.

(** ** The raft crate's node

    [Ready] is what the crate asks the application to do; its snapshot is
    [None] when [is_empty_snap] holds.  [RawNode] reads the store through the
    [Storage] trait and the loop writes it. *)
Record ReadyOf (M E S H R : Type) := mkReady {
  rd_messages : list M;
  rd_snapshot : option S;
  rd_entries : list E;
  rd_hs : option H;
  rd_committed : option (list E);
  rd_rest : R;
}.
Arguments mkReady {M E S H R}. Arguments rd_messages {M E S H R}. Arguments rd_snapshot {M E S H R}.
Arguments rd_entries {M E S H R}. Arguments rd_hs {M E S H R}. Arguments rd_committed {M E S H R}.
Arguments rd_rest {M E S H R}.
#[export] Instance eta_Ready M E S H R : Eta (ReadyOf M E S H R) := λ r,
  mkReady (rd_messages r) (rd_snapshot r) (rd_entries r) (rd_hs r) (rd_committed r) (rd_rest r).

Class RawNodeCrate `{RaftCrate} := {
  RawNode : Type;
  RaftMessage : Type;
  ReadyRest : Type;
  ready_rest_default : ReadyRest;
  cfg_peers_to_conf_state : list Z → ConfState;
  (** configuration: the id of the node *)
  raw_node_new : Z → RaftStore → option RawNode;
  elect_at_next_tick : RawNode → RawNode;
  node_store : RawNode → RaftStore;
  set_node_store : RawNode → RaftStore → RawNode;
  node_id : RawNode → Z;
  leader_id : RawNode → Z;
  INVALID_ID : Z;
  node_step : RawNode → RaftMessage → option RawNode;
  node_tick : RawNode → RawNode;
  node_propose : RawNode → list Z → list Z → option RawNode;
  has_ready : RawNode → bool;
  node_ready : RawNode → ReadyOf RaftMessage RaftEntry RaftSnapshot HardState ReadyRest * RawNode;
  node_advance : RawNode → ReadyOf RaftMessage RaftEntry RaftSnapshot HardState ReadyRest → RawNode;
  msg_from : RaftMessage → Z;
  (** the data and contexts of a [MsgPropose] *)
  msg_proposals : RaftMessage → option (list (list Z * list Z));
  entry_is_normal : RaftEntry → bool;
  entry_term : RaftEntry → Z;
  entry_data : RaftEntry → list Z;
}.
Notation Ready := (ReadyOf RaftMessage RaftEntry RaftSnapshot HardState ReadyRest).

Record RaftNodeOf (N M : Type) := mkRaftNode {
  rn_node : N;
  propose_data_backlog : list (list Z * list Z * Z);
  cmd_rx : list (RaftCmd M);
  committed_tx : list (list RaftCommit);
  msg_out_tx : list M;
  committed_entries_and_groups_count : Z * Z;
  outgoing_msgs_and_groups_count : Z * Z;
  incoming_msgs_count : Z;
  total_tick_count : Z;
  previous_snapshot_idx : Z * bool;
}.
Arguments mkRaftNode {N M}. Arguments rn_node {N M}. Arguments propose_data_backlog {N M}. Arguments cmd_rx {N M}.
Arguments committed_tx {N M}. Arguments msg_out_tx {N M}. Arguments committed_entries_and_groups_count {N M}.
Arguments outgoing_msgs_and_groups_count {N M}. Arguments incoming_msgs_count {N M}. Arguments total_tick_count {N M}.
Arguments previous_snapshot_idx {N M}.
Notation RaftNode := (RaftNodeOf RawNode RaftMessage).
#[export] Instance eta_RaftNode N M : Eta (RaftNodeOf N M) := λ r,
  mkRaftNode (rn_node r) (propose_data_backlog r) (cmd_rx r) (committed_tx r) (msg_out_tx r)
    (committed_entries_and_groups_count r) (outgoing_msgs_and_groups_count r) (incoming_msgs_count r)
    (total_tick_count r) (previous_snapshot_idx r).

Section raft_loop.
Context `{RawNodeCrate, Bincode SnapMetadata, Bincode Z}.
Implicit Types (n : RaftNode) (rd : Ready).

Definition unwrap_ok {E A : Type} (m : outcome (E + A)) : outcome A :=
  let! r := m in match r with inl _ => Panic | inr a => Ret a end.

Definition ready_default : Ready := mkReady [] None [] None None ready_rest_default.

Definition storage_and_config (peers : list Z) (db : SimpleDb) : outcome RaftStore :=
  unwrap_ok (load_in_memory_or_default (RaftStore_new db) (cfg_peers_to_conf_state peers)).

(** The node of id [id]: the first one starts an election at once. *)
Definition RaftNode_new (id : Z) (peers : list Z) (raft_db : SimpleDb) (cmd_rx : list (RaftCmd RaftMessage)) :
    outcome RaftNode :=
  let! storage := storage_and_config peers raft_db in
  let! node := unwrap (raw_node_new id storage) in
  let node := if id =? 1 then elect_at_next_tick node else node in
  Ret (mkRaftNode node [] cmd_rx [] [] (0, 0) (0, 0) 0 0 (0, false)).

Definition take_closed_persistent_store n : SimpleDb * RaftNode :=
  let t := take_persistent (node_store (rn_node n)) in
  (t.1, n <| rn_node ::= λ d, set_node_store d t.2 |>).

(** *** The commits *)
Definition commit_of_entry (entry : RaftEntry) : RaftCommit :=
  mkRaftCommit (entry_term entry) (entry_index entry)
    (if bool_decide (entry_data entry = []) then NewLeader else Proposed (entry_data entry) (entry_context entry)).

Definition commit_of_snapshot (snapshot : RaftSnapshot) : RaftCommit :=
  mkRaftCommit (snap_term snapshot) (snap_index snapshot) (Snapshot (snap_data snapshot)).

(** [ready.committed_entries] is taken. *)
Definition apply_committed_entries n rd (snap_overwrite : option RaftSnapshot) : RaftNode * Ready :=
  let snapshot := match snap_overwrite with Some s => Some s | None => rd_snapshot rd end in
  let committed := match snapshot with Some s => [commit_of_snapshot s] | None => [] end in
  let committed := committed ++ match rd_committed rd with
                                | Some entries => map commit_of_entry (filter (λ e, entry_is_normal e = true) entries)
                                | None => []
                                end in
  let rd := rd <| rd_committed := None |> in
  match committed with
  | [] => (n, rd)
  | _ => (n <| committed_entries_and_groups_count ::= λ c, (wrap64 (c.1 + zlen committed), wrap64 (c.2 + 1)) |>
            <| committed_tx ::= λ l, l ++ [committed] |>, rd)
  end.

(** *** The messages; [ready.messages] is drained. *)
Definition send_messages_to_peers n rd : RaftNode * Ready :=
  let msgs := rd_messages rd in
  (n <| outgoing_msgs_and_groups_count ::= λ c,
          (wrap64 (c.1 + zlen msgs), wrap64 (c.2 + match msgs with [] => 0 | _ => 1 end)) |>
     <| msg_out_tx ::= λ l, l ++ msgs |>,
   rd <| rd_messages := [] |>).

(** *** The store *)
Definition update_ready_mut_store n rd : outcome RaftNode :=
  let s := node_store (rn_node n) in
  let! sp := match rd_snapshot rd with
             | Some snapshot =>
                 let! s := unwrap_ok (store_apply_snapshot s snapshot) in
                 Ret (s, (snap_index snapshot, false))
             | None => Ret (s, previous_snapshot_idx n)
             end in
  let! s := match rd_entries rd with [] => Ret sp.1 | ents => unwrap_ok (append sp.1 ents) end in
  let! s := match rd_hs rd with Some hs => unwrap_ok (set_hardstate s hs) | None => Ret s end in
  Ret (n <| rn_node ::= λ d, set_node_store d s |> <| previous_snapshot_idx := sp.2 |>).

(** A leader sends before it persists, a follower after. *)
Definition process_ready n : outcome RaftNode :=
  if negb (has_ready (rn_node n)) then Ret n
  else
    let rn := node_ready (rn_node n) in
    let rd := rn.1 in
    let n := n <| rn_node := rn.2 |> in
    let is_leader := leader_id (rn_node n) =? node_id (rn_node n) in
    let! nr := if is_leader then
                 let nr := send_messages_to_peers n rd in
                 let! n := update_ready_mut_store nr.1 nr.2 in Ret (n, nr.2)
               else
                 let! n := update_ready_mut_store n rd in Ret (send_messages_to_peers n rd) in
    let nr := apply_committed_entries nr.1 nr.2 None in
    Ret (nr.1 <| rn_node ::= λ d, node_advance d nr.2 |>).

(** *** Events *)

(** One proposal of the backlog. *)
Definition propose_one (is_leader : bool) (d : RawNode) (p : list Z * list Z * Z) : outcome RawNode :=
  let '(data, context, from) := p in
  let can_propose := is_leader || (from =? node_id d) in
  if can_propose && negb (is_context_in_log (node_store d) context)
  then unwrap (node_propose d context data) else Ret d.

Definition propose_backlog n : outcome RaftNode :=
  let d := rn_node n in
  if leader_id d =? INVALID_ID then Ret n
  else
    let is_leader := leader_id d =? node_id d in
    let! d := ofold (propose_one is_leader) d (propose_data_backlog n) in
    Ret (n <| rn_node := d |> <| propose_data_backlog := [] |>).

Definition snapshot_cmd n (idx : Z) (data : list Z) : outcome RaftNode :=
  let s := node_store (rn_node n) in
  let '(prev_idx, need_compact) := previous_snapshot_idx n in
  let! s := if decide (idx ≠ prev_idx) then unwrap_ok (store_create_snapshot s idx None None data) else Ret s in
  let! s := if need_compact : bool then unwrap_ok (compact s prev_idx) else Ret s in
  Ret (n <| rn_node ::= λ d, set_node_store d s |>
         <| previous_snapshot_idx := (idx, bool_decide (idx ≠ prev_idx)) |>).

Definition message_cmd n (m : RaftMessage) : outcome RaftNode :=
  let n := n <| incoming_msgs_count ::= λ c, wrap64 (c + 1) |> in
  match msg_proposals m with
  | Some l => Ret (n <| propose_data_backlog ::= λ b, b ++ map (λ dc, (dc.1, dc.2, msg_from m)) l |>)
  | None => let! d := unwrap (node_step (rn_node n) m) in Ret (n <| rn_node := d |>)
  end.

(** The first half of an event: the tick, or the next command.  [None] when the
    loop ends.  [timed_out] says that the tick comes before the next command; a
    receive on an empty channel is its closing. *)
Definition take_command n (timed_out : bool) : outcome (option RaftNode) :=
  if timed_out then
    Ret (Some (n <| total_tick_count ::= λ c, wrap64 (c + 1) |> <| rn_node ::= node_tick |>))
  else
    match cmd_rx n with
    | [] => Ret None
    | cmd :: cmds =>
        let n := n <| cmd_rx := cmds |> in
        match cmd with
        | CmdPropose data context =>
            Ret (Some (n <| propose_data_backlog ::= λ b, b ++ [(data, context, node_id (rn_node n))] |>))
        | CmdSnapshot idx data _ => let! n := snapshot_cmd n idx data in Ret (Some n)
        | CmdRaft m => let! n := message_cmd n m in Ret (Some n)
        | CmdClose => Ret None
        end
    end.

Definition next_event n (timed_out : bool) : outcome (option RaftNode) :=
  let! step := take_command n timed_out in
  match step with
  | None => Ret None
  | Some n => let! n := propose_backlog n in let! n := process_ready n in Ret (Some n)
  end.

(** The loop on the events of [timeouts]; whether it ended. *)
Fixpoint raft_events n (timeouts : list bool) : outcome (RaftNode * bool) :=
  match timeouts with
  | [] => Ret (n, false)
  | t :: timeouts =>
      let! r := next_event n t in
      match r with None => Ret (n, true) | Some n => raft_events n timeouts end
  end.

Definition run_raft_loop n (timeouts : list bool) : outcome (RaftNode * bool) :=
  let! snapshot := match store_snapshot (node_store (rn_node n)) with inl _ => Panic | inr s => Ret s end in
  let nr := apply_committed_entries n ready_default (Some snapshot) in
  raft_events nr.1 timeouts.
End raft_loop.

(** ** What the crate promises about the store and its [Ready] *)

(** The log once everything a [Ready] holds is persisted. *)
Definition ready_log `{RawNodeCrate} (l : RLog) (rd : Ready) : RLog :=
  let l := match rd_snapshot rd with Some s => log_apply_snapshot l s | None => l end in
  let l := log_append l (rd_entries rd) in
  match rd_hs rd with Some h => l <| rl_hs := Some h |> | None => l end.

(** The crate only reads the store, and the entries of a [Ready] continue or
    overwrite the log after its snapshot. *)
Class RawNodeLaws `{RawNodeCrate, Bincode SnapMetadata, Bincode Z} : Prop := {
  store_set d s : node_store (set_node_store d s) = s;
  store_step d m d' : node_step d m = Some d' → node_store d' = node_store d;
  store_tick d : node_store (node_tick d) = node_store d;
  store_propose d c x d' : node_propose d c x = Some d' → node_store d' = node_store d;
  store_ready d : node_store (node_ready d).2 = node_store d;
  store_advance d rd : node_store (node_advance d rd) = node_store d;
  ready_fits d l : has_ready d = true → store_run (node_store d) l →
    let rd := (node_ready d).1 in
    match rd_snapshot rd with
    | Some s => 0 ≤ snap_index s < U64_MOD - 1 ∧ appendable (log_apply_snapshot l s) (rd_entries rd)
    | None => appendable l (rd_entries rd)
    end;
}.

Section loop_theorems.
Context `{RawNodeCrate, !RaftCrateLaws}.
Context `{Bincode SnapMetadata, !BincodeLaws SnapMetadata, Bincode Z, !BincodeLaws Z, !RawNodeLaws}.
Implicit Types (n : RaftNode) (rd : Ready) (l : RLog).

Lemma unwrap_ok_ret {E A : Type} (m : outcome (E + A)) a : unwrap_ok m = Ret a ↔ m = Ret (inr a).
Proof. unfold unwrap_ok. destruct m as [[|]|]; cbn; naive_solver. Qed.

Lemma log_append_nil l : log_append l [] = l.
Proof. done. Qed.

(** The store after an update stands for the log of the [Ready]. *)
Lemma update_store_log n rd l n1 : store_run (node_store (rn_node n)) l →
  match rd_snapshot rd with
  | Some s => 0 ≤ snap_index s < U64_MOD - 1 ∧ appendable (log_apply_snapshot l s) (rd_entries rd)
  | None => appendable l (rd_entries rd)
  end →
  update_ready_mut_store n rd = Ret n1 →
  store_run (node_store (rn_node n1)) (ready_log l rd) ∧
  msg_out_tx n1 = msg_out_tx n ∧ committed_tx n1 = committed_tx n ∧ cmd_rx n1 = cmd_rx n ∧
  propose_data_backlog n1 = propose_data_backlog n.
Proof.
  intros Hs Hfit E. unfold update_ready_mut_store in E. cbv zeta in E.
  apply obind_ret in E as ([s sp] & E1 & E). cbn [fst snd] in E.
  set (l1 := match rd_snapshot rd with Some s => log_apply_snapshot l s | None => l end).
  assert (Hs1 : store_run s l1 ∧ appendable l1 (rd_entries rd)).
  { subst l1. destruct (rd_snapshot rd) as [snap|].
    - apply obind_ret in E1 as (s1 & Ea%unwrap_ok_ret & [= -> _]). destruct Hfit as [Hi Ha].
      split; [by eapply run_snapshot|done].
    - by injection E1 as [= <- _]. }
  destruct Hs1 as [Hs1 Ha]. apply obind_ret in E as (s2 & E2 & E).
  assert (Hs2 : store_run s2 (log_append l1 (rd_entries rd))).
  { destruct (rd_entries rd) as [|e es] eqn:Ee; [injection E2 as <-; by rewrite log_append_nil|].
    apply unwrap_ok_ret in E2. by eapply run_append. }
  apply obind_ret in E as (s3 & E3 & [= <-]). cbn. rewrite store_set. split; [|done].
  unfold ready_log. cbv zeta. fold l1. destruct (rd_hs rd) as [h|]; [|by injection E3 as <-].
  apply unwrap_ok_ret in E3. by eapply run_hardstate.
Qed.

(** The commits a [Ready] gives to the node. *)
Definition ready_commits rd : list RaftCommit :=
  match rd_snapshot rd with Some s => [commit_of_snapshot s] | None => [] end ++
  match rd_committed rd with
  | Some entries => map commit_of_entry (filter (λ e, entry_is_normal e = true) entries)
  | None => []
  end.
Definition commit_batch (c : list RaftCommit) : list (list RaftCommit) := match c with [] => [] | _ => [c] end.

Lemma apply_committed_spec n rd : let nr := apply_committed_entries n rd None in
  rn_node nr.1 = rn_node n ∧ msg_out_tx nr.1 = msg_out_tx n ∧
  committed_tx nr.1 = committed_tx n ++ commit_batch (ready_commits rd).
Proof.
  unfold apply_committed_entries, ready_commits, commit_batch. cbv zeta.
  destruct (match rd_snapshot rd with Some s => _ | None => _ end ++ _); cbn; [by rewrite app_nil_r|done].
Qed.

(** What [process_ready] does to the log, the messages and the commits. *)
Definition ready_done n l n1 : Prop :=
  let rd := (node_ready (rn_node n)).1 in
  if has_ready (rn_node n) then
    store_run (node_store (rn_node n1)) (ready_log l rd) ∧
    msg_out_tx n1 = msg_out_tx n ++ rd_messages rd ∧
    committed_tx n1 = committed_tx n ++ commit_batch (ready_commits rd)
  else n1 = n.

Lemma process_ready_spec n l n1 : store_run (node_store (rn_node n)) l → process_ready n = Ret n1 → ready_done n l n1.
Proof.
  intros Hs E. unfold process_ready in E. unfold ready_done. destruct (has_ready (rn_node n)) eqn:Eh; [|by injection E as [= <-]].
  cbn [negb] in E. cbv zeta in E |- *. pose proof (ready_fits (rn_node n) l Eh Hs) as Hfit. cbv zeta in Hfit.
  pose proof (store_ready (rn_node n)) as Hsr. destruct (node_ready (rn_node n)) as [rd d]. cbn [fst snd] in *.
  rewrite <-Hsr in Hs. set (n0 := n <| rn_node := d |>) in E.
  apply obind_ret in E as ([n2 rd2] & E2 & [= <-]).
  assert (Hn2 : store_run (node_store (rn_node n2)) (ready_log l rd) ∧ msg_out_tx n2 = msg_out_tx n ++ rd_messages rd ∧
    committed_tx n2 = committed_tx n ∧ rd2 = rd <| rd_messages := [] |>).
  { destruct (leader_id _ =? node_id _).
    - apply obind_ret in E2 as (n3 & E3 & [= <- <-]). cbn [fst snd send_messages_to_peers] in E3.
      apply (update_store_log _ _ l) in E3 as (Hs' & Hmsg & Hc & _); [|exact Hs|exact Hfit].
      split; [exact Hs'|]. by rewrite Hmsg, Hc.
    - apply obind_ret in E2 as (n3 & E3 & E4). injection E4 as [= <- <-].
      apply (update_store_log _ _ l) in E3 as (Hs' & Hmsg & Hc & _); [|exact Hs|exact Hfit].
      split; [exact Hs'|]. cbn. by rewrite Hmsg, Hc. }
  destruct Hn2 as (Hs2 & Hm2 & Hc2 & ->).
  destruct (apply_committed_spec n2 (rd <| rd_messages := [] |>)) as (Hd & Hm & Hc).
  destruct (apply_committed_entries n2 _ None) as [n3 rd3]. cbn [fst snd] in *. cbn.
  rewrite store_advance, Hd, Hm, Hc, Hm2, Hc2. done.
Qed.

(** A snapshot command names an entry of the log, or repeats the last one. *)
Definition snapshot_fits n l : Prop :=
  match cmd_rx n with
  | CmdSnapshot idx _ _ :: _ => idx = (previous_snapshot_idx n).1 ∨ base_index l ≤ idx ≤ last_log_index l
  | _ => True
  end.

Lemma propose_backlog_store n n1 : propose_backlog n = Ret n1 →
  node_store (rn_node n1) = node_store (rn_node n) ∧
  propose_data_backlog n1 = (if leader_id (rn_node n) =? INVALID_ID then propose_data_backlog n else []) ∧
  msg_out_tx n1 = msg_out_tx n ∧ committed_tx n1 = committed_tx n.
Proof.
  unfold propose_backlog. cbv zeta. case_match; [by intros [= <-]|]. intros (d & Hd & [= <-])%obind_ret. cbn.
  split; [|done].
  apply (ofold_inv _ (λ d, node_store d = node_store (rn_node n))) in Hd; [done| |done].
  intros [[data ctx] from] d1 d2 _ IH. unfold propose_one. case_match; [|by intros [= <-]].
  intros Hp%unwrap_ret. by rewrite (store_propose _ _ _ _ Hp).
Qed.

(** The log after a snapshot command: cut at the snapshot that the store makes of
    it, or as it was when the command repeats the last one. *)
Definition snapshot_log n (idx : Z) (data : list Z) l : RLog :=
  if decide (idx ≠ (previous_snapshot_idx n).1) then
    match mem_create_snapshot (in_memory (node_store (rn_node n))) idx None None data with
    | inr (snap, _) => log_create_snapshot l snap
    | inl _ => l
    end
  else l.
(** The log after the first half of an event. *)
Definition command_log n (timed_out : bool) l : RLog :=
  if timed_out then l
  else match cmd_rx n with CmdSnapshot idx data _ :: _ => snapshot_log n idx data l | _ => l end.

Lemma snapshot_cmd_log n idx data l n1 : store_run (node_store (rn_node n)) l →
  idx = (previous_snapshot_idx n).1 ∨ base_index l ≤ idx ≤ last_log_index l →
  snapshot_cmd n idx data = Ret n1 → store_run (node_store (rn_node n1)) (snapshot_log n idx data l) ∧
    msg_out_tx n1 = msg_out_tx n ∧ committed_tx n1 = committed_tx n.
Proof.
  intros Hs Hi E. unfold snapshot_cmd in E. unfold snapshot_log. destruct (previous_snapshot_idx n) as [prev nc]. cbn [fst] in *.
  apply obind_ret in E as (s1 & E1 & E). set (l1 := if decide _ then _ else l).
  assert (H1s : store_run s1 l1).
  { subst l1. case_decide as D; [|by injection E1 as <-]. apply unwrap_ok_ret in E1. destruct Hi as [|Hi]; [done|].
    destruct (mem_create_snapshot _ idx None None data) as [e|[snap mem]] eqn:Em.
    - unfold store_create_snapshot in E1. by rewrite Em in E1.
    - by eapply run_create. }
  apply obind_ret in E as (s2 & E2 & [= <-]). cbn. rewrite store_set. split; [|done].
  destruct nc; [|by injection E2 as <-]. apply unwrap_ok_ret in E2. by eapply run_compact.
Qed.

Lemma take_command_log n timed_out l n2 : store_run (node_store (rn_node n)) l → snapshot_fits n l →
  take_command n timed_out = Ret (Some n2) → store_run (node_store (rn_node n2)) (command_log n timed_out l) ∧
    msg_out_tx n2 = msg_out_tx n ∧ committed_tx n2 = committed_tx n.
Proof.
  intros Hs Hf. unfold take_command, command_log. destruct timed_out; [intros [= <-]; cbn; by rewrite store_tick|].
  unfold snapshot_fits in Hf. destruct (cmd_rx n) as [|cmd cmds]; [done|]. destruct cmd as [data ctx|idx data b|m|]; [| | |done].
  - by intros [= <-].
  - intros (n5 & E1 & [= <-])%obind_ret. by eapply snapshot_cmd_log in E1.
  - intros (n5 & E1 & [= <-])%obind_ret. unfold message_cmd in E1.
    destruct (msg_proposals m); [by injection E1 as <-|]. apply obind_ret in E1 as (d & Hd%unwrap_ret & [= <-]).
    cbn. by rewrite (store_step _ _ _ Hd).
Qed.

(** C35: no event of the loop loses the log, and every event persists exactly what
    it should: after any tick, message, proposal or snapshot command that the loop
    survives, the database stands for the log that was there before, cut at the
    new snapshot if the event was a snapshot command, and then extended by the
    snapshot, the entries and the hard state of the work that the crate has ready
    once it was given the event and the backlog of proposals; if it has none, the
    log is as it was.  A restart loads exactly this log.  The messages of that work
    are sent, and its committed entries are handed over behind its snapshot, once. *)
Theorem loop_event_restart n timed_out l n1 init_cs : store_run (node_store (rn_node n)) l → snapshot_fits n l →
  next_event n timed_out = Ret (Some n1) →
  ∃ n2 n3, take_command n timed_out = Ret (Some n2) ∧ propose_backlog n2 = Ret n3 ∧
    let l2 := command_log n timed_out l in
    let ready := has_ready (rn_node n3) in
    let rd := (node_ready (rn_node n3)).1 in
    let l1 := if ready then ready_log l2 rd else l2 in
    store_run (node_store (rn_node n1)) l1 ∧
    load_in_memory_or_default (RaftStore_new (presistent (node_store (rn_node n1)))) init_cs =
      Ret (restore (presistent (node_store (rn_node n1))) init_cs l1) ∧
    msg_out_tx n1 = msg_out_tx n ++ (if ready then rd_messages rd else []) ∧
    committed_tx n1 = committed_tx n ++ (if ready then commit_batch (ready_commits rd) else []).
Proof.
  intros Hs Hf E. unfold next_event in E. apply obind_ret in E as ([n2|] & E1 & E); [|done].
  apply obind_ret in E as (n3 & E2 & E). apply obind_ret in E as (n4 & E3 & [= <-]). exists n2, n3. split; [done|]. split; [done|].
  destruct (take_command_log _ _ _ _ Hs Hf E1) as (H2s & Hm2 & Hc2).
  destruct (propose_backlog_store _ _ E2) as (H3s & _ & Hm3 & Hc3). rewrite <-H3s in H2s.
  pose proof (process_ready_spec _ _ _ H2s E3) as Hd. unfold ready_done in Hd. cbv zeta in Hd |- *.
  rewrite <-Hm2, <-Hc2, <-Hm3, <-Hc3.
  set (l1 := if has_ready (rn_node n3) then _ else _).
  assert (H4s : store_run (node_store (rn_node n4)) l1 ∧
    msg_out_tx n4 = msg_out_tx n3 ++ (if has_ready (rn_node n3) then rd_messages (node_ready (rn_node n3)).1 else []) ∧
    committed_tx n4 = committed_tx n3 ++ (if has_ready (rn_node n3) then commit_batch (ready_commits (node_ready (rn_node n3)).1) else [])).
  { subst l1. destruct (has_ready (rn_node n3)); [exact Hd|]. subst n4. by rewrite !app_nil_r. }
  destruct H4s as (H4s & Hm4 & Hc4). split; [done|]. split; [|done].
  apply run_represents in H4s as (Hwf & _ & m & Hm & Hc). by eapply load_represents.
Qed.

(** When the raft crate has work ready, it is all done when the loop goes
    on: the messages are sent, the committed entries are handed over in one
    batch behind the snapshot, and the database stands for the log that the
    snapshot, the entries and the hard state of the work make of the log
    before, so that a restart restores it. *)
Theorem process_ready_persists n l n1 init_cs : store_run (node_store (rn_node n)) l → has_ready (rn_node n) = true →
  process_ready n = Ret n1 →
  let rd := (node_ready (rn_node n)).1 in
  msg_out_tx n1 = msg_out_tx n ++ rd_messages rd ∧
  committed_tx n1 = committed_tx n ++ commit_batch (ready_commits rd) ∧
  load_in_memory_or_default (RaftStore_new (presistent (node_store (rn_node n1)))) init_cs =
    Ret (restore (presistent (node_store (rn_node n1))) init_cs (ready_log l rd)).
Proof.
  intros Hs Eh E. pose proof (process_ready_spec n l n1 Hs E) as Hd. unfold ready_done in Hd. rewrite Eh in Hd.
  destruct Hd as (H1s & Hm & Hc). split; [done|]. split; [done|].
  apply run_represents in H1s as (Hwf & _ & m & Hm' & Hcl). by eapply load_represents.
Qed.
End loop_theorems.

Module RaftLoopExamples.
Import RaftStoreExamples.

(** A node that is its own leader: it appends and commits what is proposed. *)
Definition Node : Type := RaftStore * list (list Z).
Definition node_last (s : RaftStore) : option Z :=
  match get_last_persistent_entry (presistent s) with
  | Ret (inr (Some i)) => Some i
  | Ret (inr None) => Some (persistent_first_entry s)
  | _ => None
  end.
Definition mk_entry (i : Z) (c : list Z) : RaftEntry := (i, c).
Lemma mk_entry_index i c : entry_index (mk_entry i c) = i.
Proof. done. Qed.
Definition new_entries (d : Node) : list RaftEntry :=
  match node_last d.1 with
  | Some i => if (0 <=? i) && (i + 1 + zlen d.2 <? U64_MOD) then imap (λ k c, mk_entry (i + 1 + Z.of_nat k) c) d.2 else []
  | None => []
  end.
#[export] Instance node_crate : RawNodeCrate := {|
  RawNode := Node; RaftMessage := Z; ReadyRest := unit; ready_rest_default := ();
  cfg_peers_to_conf_state l := l;
  raw_node_new _ s := Some (s, []);
  elect_at_next_tick d := d;
  node_store := fst;
  set_node_store d s := (s, d.2);
  node_id _ := 1; leader_id _ := 1; INVALID_ID := 0;
  node_step d _ := Some d;
  node_tick d := d;
  node_propose d c _ := Some (d.1, d.2 ++ [c]);
  has_ready d := match new_entries d with [] => false | _ => true end;
  node_ready d := (mkReady [zlen d.2] None (new_entries d) (Some (2, 1)) (Some (new_entries d)) (), d);
  node_advance d _ := (d.1, []);
  msg_from m := m; msg_proposals _ := None;
  entry_is_normal _ := true; entry_term _ := 1; entry_data e := e.2;
|}.
#[export] Instance node_laws : RawNodeLaws.
Proof.
  constructor; try done.
  - intros d m d' [= <-]. done.
  - intros d c x d' [= <-]. done.
  - intros [s pend] l _ (Hwf & Hf & m & Hm & Hc)%run_represents. cbv zeta.
    change (appendable l (new_entries (s, pend))).
    assert (Hlast : node_last s = Some (last_log_index l)).
    { unfold node_last, get_last_persistent_entry. rewrite (db_at_get _ _ _ _ Hm). cbn [ok rbind obind].
      pose proof (cl_last _ _ Hc) as Cl. destruct (m !! string_codes LAST_ENTRY_KEY) as [b|]; [by rewrite Cl|].
      unfold last_log_index. rewrite Cl. f_equal. change (zlen []) with 0. rewrite Z.add_0_r. exact Hf. }
    unfold new_entries. cbn [fst snd]. rewrite Hlast.
    destruct (Z.leb_spec 0 (last_log_index l)); cbn [andb]; [|by intros e0].
    destruct (Z.ltb_spec (last_log_index l + 1 + zlen pend) U64_MOD); [|by intros e0].
    intros e0 He0. destruct pend as [|c pend]; [done|]. injection He0 as <-.
    rewrite mk_entry_index, Z.add_0_r.
    split; [lia|]. split; [unfold zlen in *; rewrite length_imap; lia|].
    intros k e (c' & Hk & ->)%list_lookup_imap_Some. rewrite mk_entry_index. lia.
Qed.

Definition dummy_node : RaftNode := mkRaftNode (RaftStore_new db0, []) [] [] [] [] (0, 0) (0, 0) 0 0 (0, false).
Definition node0 : RaftNode :=
  match RaftNode_new 1 [1] db0 [CmdPropose [7] [8]; CmdClose] with Ret n => n | Panic => dummy_node end.
(** The node with the proposal handed to the crate. *)
Definition node1 : RaftNode := node0 <| rn_node ::= λ d, (d.1, [[8]]) |>.
Definition after (m : outcome RaftNode) : RaftNode := match m with Ret n => n | Panic => dummy_node end.
Definition node2 : RaftNode := after (process_ready node1).
Definition node3 : RaftNode := match next_event node0 false with Ret (Some n) => n | _ => dummy_node end.

Definition cs1 : ConfState := [1].
Lemma node0_run : store_run (node_store (rn_node node0)) (mkRLog None [] None).
Proof.
  apply (run_load (RaftStore_new db0) _ cs1); [by apply (run_new db0 ∅ db0_at)|vm_compute; reflexivity].
Qed.

Lemma process_ready_persists_witness :
  committed_tx node2 = [[mkRaftCommit 1 1 (Proposed [8] [8])]] ∧ msg_out_tx node2 = [1 : RaftMessage] ∧
  ∃ s, load_in_memory_or_default (RaftStore_new (presistent (node_store (rn_node node2)))) cs1 = Ret (inr s) ∧
    in_memory s = (None, [(1, [8])], Some (2, 1)).
Proof.
  destruct (process_ready_persists node1 (mkRLog None [] None) node2 cs1) as (Hm & Hc & Hl).
  - exact node0_run.
  - vm_compute. reflexivity.
  - vm_compute. reflexivity.
  - split; [rewrite Hc; vm_compute; reflexivity|]. split; [rewrite Hm; vm_compute; reflexivity|].
    eexists. split; [exact Hl|vm_compute; reflexivity].
Defined.

(** The proposal in the queue of commands becomes the first entry of the log, and is
    there after a restart. *)
Lemma loop_event_restart_witness : committed_tx node3 = [[mkRaftCommit 1 1 (Proposed [8] [8])]] ∧
  ∃ s, load_in_memory_or_default (RaftStore_new (presistent (node_store (rn_node node3)))) cs1 = Ret (inr s) ∧
    in_memory s = (None, [(1, [8])], Some (2, 1)).
Proof.
  destruct (loop_event_restart node0 false (mkRLog None [] None) node3 cs1) as (n2 & n3 & E2 & E3 & _ & Hl & _ & Hc);
    [exact node0_run|exact I|vm_compute; reflexivity|].
  assert (En2 : n2 = match take_command node0 false with Ret (Some n) => n | _ => dummy_node end) by (rewrite E2; reflexivity).
  subst n2. assert (En3 : n3 = after (propose_backlog (match take_command node0 false with Ret (Some n) => n | _ => dummy_node end)))
    by (rewrite E3; reflexivity).
  subst n3. clear E2 E3. split.
  - rewrite Hc. vm_compute. reflexivity.
  - eexists. split; [exact Hl|vm_compute; reflexivity].
Defined.
End RaftLoopExamples.
