(* ===== verification/FundStore.v ===== *)
(** * The fund store of [src/wallet/fund_store.rs]

    The unspent and spent outputs of a wallet, the running total, and the
    pages that show the unspent ones.  [fund_wf] ties the four together, and
    every operation keeps it. *)
From S2P Require Import Prelude Externals.

Notation LockedCoinbase := (option (gmap string Z)) (only parsing).

Definition ENTRIES_PER_PAGE : nat := 25.

(** The type of the running total is naom's [AssetValues]. *)
Record FundStoreOf (AV : Type) := mkFundStore {
  fs_running_total : AV;
  fs_transactions : gmap OutPoint Asset;
  fs_pages : list (gmap OutPoint Asset);
  fs_spent : gmap OutPoint Asset;
}.
Arguments mkFundStore {AV}. Arguments fs_running_total {AV}. Arguments fs_transactions {AV}.
Arguments fs_pages {AV}. Arguments fs_spent {AV}.
Notation FundStore := (FundStoreOf AssetValues).
#[export] Instance eta_FundStore AV : Eta (FundStoreOf AV) := λ r,
  mkFundStore (fs_running_total r) (fs_transactions r) (fs_pages r) (fs_spent r).

Section fund_store.
Context `{NaomAssets}.
Implicit Types fs : FundStore.

(** The derived [Default]: no page yet, unlike [new]. *)
Definition FundStore_default : FundStore := mkFundStore AssetValues_default ∅ [] ∅.

Definition FundStore_new (running_total : AssetValues) (transactions : gmap OutPoint Asset)
    (transaction_pages : list (gmap OutPoint Asset)) (spent_transactions : gmap OutPoint Asset) : FundStore :=
  mkFundStore running_total transactions
    (match transaction_pages with [] => [∅] | _ => transaction_pages end) spent_transactions.

(** The body of the loop of [filter_locked_coinbase]. *)
Definition filter_locked_step (locked_coinbase : gmap string Z) (acc : option Z * FundStore) (out_p : OutPoint) :
    option Z * FundStore :=
  let '(count, fs) := acc in
  if bool_decide (is_Some (locked_coinbase !! t_hash out_p)) then
    match fs_transactions fs !! out_p with
    | Some asset_locked =>
        (Some (wrap64 (default 0 count + 1)),
         fs <| fs_transactions ::= delete out_p |>
            <| fs_running_total ::= λ t, update_sub t asset_locked |>)
    | None => (count, fs)
    end
  else (count, fs).

Definition fs_filter_locked_coinbase fs (locked_coinbase : LockedCoinbase) : option Z * FundStore :=
  match locked_coinbase with
  | Some locked => foldl (filter_locked_step locked) (None, fs) (bt_keys (fs_transactions fs))
  | None => (None, fs)
  end.

Definition transaction_page fs (page : nat) : outcome (gmap OutPoint Asset) :=
  match fs_pages fs !! page with
  | Some p => Ret p
  | None =>
      if (length (fs_pages fs) <? page)%nat then
        match last (fs_pages fs) with Some p => Ret p | None => unwrap (head (fs_pages fs)) end
      else unwrap (head (fs_pages fs))
  end.

Definition transaction_pages_len fs : nat := length (fs_pages fs).

Definition add_transaction_pages fs : FundStore := fs <| fs_pages ::= λ l, l ++ [∅] |>.

Definition remove_spent_transactions fs : gmap OutPoint Asset * FundStore :=
  (fs_spent fs, fs <| fs_spent := ∅ |>).

(** [last_mut] *)
Definition update_last {A : Type} (f : A → A) (l : list A) : list A :=
  match last l with Some x => <[pred (length l) := f x]> l | None => l end.

Definition page_is_full (l : list (gmap OutPoint Asset)) : bool :=
  match last l with Some p => Nat.eqb (size p) ENTRIES_PER_PAGE | None => true end.

Definition store_tx fs (out_p : OutPoint) (amount : Asset) : outcome FundStore :=
  let asset_to_save := with_fixed_hash amount out_p in
  let fs := if page_is_full (fs_pages fs) then add_transaction_pages fs else fs in
  let old := fs_transactions fs !! out_p in
  let fs := fs <| fs_transactions ::= <[out_p := asset_to_save]> |> in
  match old with
  | Some old_amount => if decide (old_amount ≠ amount) then Panic else Ret fs
  | None =>
      Ret (fs <| fs_pages ::= update_last (<[out_p := asset_to_save]>) |>
              <| fs_running_total ::= λ t, update_add t asset_to_save |>)
  end.

(** One round of the loop over the pages; its range is the number of pages
    before the first removal. *)
Definition spend_page (out_p : OutPoint) (pages : list (gmap OutPoint Asset)) (i : nat) :
    list (gmap OutPoint Asset) :=
  match pages !! i with
  | Some page =>
      let page := delete out_p page in
      let pages := <[i := page]> pages in
      if decide (page = ∅ ∧ i ≠ 0%nat) then delete i pages else pages
  | None => pages
  end.

Definition spend_tx fs (out_p : OutPoint) : outcome FundStore :=
  match fs_transactions fs !! out_p with
  | None => Ret fs
  | Some amount =>
      let fs := fs <| fs_transactions ::= delete out_p |>
                   <| fs_pages ::= λ l, foldl (spend_page out_p) l (seq 0 (length l)) |>
                   <| fs_running_total ::= λ t, update_sub t amount |> in
      let old := fs_spent fs !! out_p in
      let fs := fs <| fs_spent ::= <[out_p := amount]> |> in
      match old with Some _ => Panic | None => Ret fs end
  end.
End fund_store.

(** ** Pages *)

(** The pages split the entries of [m] between them; only the first and the
    last one may be empty, and none has more than [ENTRIES_PER_PAGE] entries. *)
Definition page_entries (pages : list (gmap OutPoint Asset)) : list (OutPoint * Asset) :=
  pages ≫= map_to_list.
Record pages_wf (pages : list (gmap OutPoint Asset)) : Prop := {
  pages_mid i p : pages !! i = Some p → (0 < i)%nat → (S i < length pages)%nat → p ≠ ∅;
  pages_small : Forall (λ p, size p <= ENTRIES_PER_PAGE)%nat pages;
}.

Lemma page_entries_app l1 l2 : page_entries (l1 ++ l2) = page_entries l1 ++ page_entries l2.
Proof. apply bind_app. Qed.

Lemma page_entries_split l1 p l2 :
  page_entries (l1 ++ p :: l2) = page_entries l1 ++ map_to_list p ++ page_entries l2.
Proof. by rewrite page_entries_app. Qed.

Lemma pages_wf_split l1 p l2 : pages_wf (l1 ++ p :: l2) →
  (l1 ≠ [] → l2 ≠ [] → p ≠ ∅) ∧ (size p <= ENTRIES_PER_PAGE)%nat.
Proof.
  intros [Hm Hs]. apply Forall_app in Hs as [_ [Hs _]%Forall_cons]. split; [|done].
  intros H1 H2. apply (Hm (length l1)); [by apply list_lookup_middle| |].
  - destruct l1; [done|cbn; lia].
  - rewrite length_app. destruct l2; [done|cbn; lia].
Qed.

(** Replacing a page, and dropping one. *)
Lemma pages_wf_replace l1 p p' l2 : pages_wf (l1 ++ p :: l2) → (size p' <= ENTRIES_PER_PAGE)%nat →
  (l1 = [] ∨ l2 = [] ∨ p' ≠ ∅) → pages_wf (l1 ++ p' :: l2).
Proof.
  intros [Hm Hs] Hp' He. apply Forall_app in Hs as [Hs1 [_ Hs2]%Forall_cons]. split.
  - intros i q Hq Hi Hl. rewrite length_app in Hl; cbn in Hl.
    destruct (decide (i = length l1)) as [->|Hne].
    + rewrite list_lookup_middle in Hq by done. simplify_eq.
      destruct He as [->|[->|?]]; [cbn in Hi; lia|cbn in Hl; lia|done].
    + apply (Hm i); [|done|rewrite length_app; cbn; lia].
      destruct (decide (i < length l1)%nat).
      * by rewrite lookup_app_l in Hq |- * by lia.
      * rewrite lookup_app_r in Hq |- * by lia. rewrite lookup_cons_ne_0 in Hq |- * by lia. done.
  - apply Forall_app; split; [done|]. by apply Forall_cons.
Qed.

Lemma pages_wf_drop l1 p l2 : pages_wf (l1 ++ p :: l2) → pages_wf (l1 ++ l2).
Proof.
  intros [Hm Hs]. apply Forall_app in Hs as [Hs1 [_ Hs2]%Forall_cons]. split; [|by apply Forall_app].
  intros i q Hq Hi Hl. rewrite length_app in Hl. destruct (decide (i < length l1)%nat).
  - apply (Hm i); [|done|rewrite length_app; cbn; lia]. by rewrite lookup_app_l in Hq |- * by lia.
  - apply (Hm (S i)); [|lia|rewrite length_app; cbn; lia].
    rewrite lookup_app_r in Hq by lia. rewrite lookup_app_r by lia.
    by replace (S i - length l1)%nat with (S (i - length l1)) by lia.
Qed.

(** A round that visits the page of [out_p] removes the entry; one that does
    not leaves the entries alone, and skips no page that could hold it. *)
Lemma spend_page_app out_p l1 p l2 : spend_page out_p (l1 ++ p :: l2) (length l1) =
  if decide (delete out_p p = ∅ ∧ l1 ≠ []) then l1 ++ l2 else l1 ++ delete out_p p :: l2.
Proof.
  unfold spend_page. rewrite list_lookup_middle by done. cbv zeta.
  replace (<[length l1 := delete out_p p]> (l1 ++ p :: l2)) with (l1 ++ delete out_p p :: l2)
    by (by rewrite <-(Nat.add_0_r (length l1)), insert_app_r).
  assert (Hl : length l1 ≠ 0%nat ↔ l1 ≠ []) by (destruct l1; cbn; split; congruence).
  destruct (decide (delete out_p p = ∅ ∧ l1 ≠ [])) as [D|D].
  - rewrite decide_True by naive_solver. apply delete_middle.
  - by rewrite decide_False by naive_solver.
Qed.

Lemma delete_absent {A : Type} (m : gmap OutPoint A) k : k ∉ (map_to_list m).*1 → delete k m = m.
Proof.
  intros Hk. apply delete_id. destruct (m !! k) as [a|] eqn:E; [|done].
  destruct Hk. apply list_elem_of_fmap. exists (k, a). by rewrite elem_of_map_to_list.
Qed.

Lemma spend_page_absent out_p pages i : out_p ∉ (page_entries pages).*1 → pages_wf pages →
  page_entries (spend_page out_p pages i) = page_entries pages ∧ pages_wf (spend_page out_p pages i).
Proof.
  intros Hn Hwf. destruct (pages !! i) as [p|] eqn:Hp; [|unfold spend_page; by rewrite Hp].
  apply list_elem_of_split_length in Hp as (l1 & l2 & -> & ->).
  rewrite page_entries_split, !fmap_app, !not_elem_of_app in Hn. destruct Hn as (_ & Hn & _).
  rewrite spend_page_app, (delete_absent p) by done.
  case_decide as D; [|done]. destruct D as [-> _]. split; [|by eapply pages_wf_drop].
  by rewrite page_entries_split, page_entries_app, map_to_list_empty.
Qed.

Lemma spend_pages_absent out_p l pages : out_p ∉ (page_entries pages).*1 → pages_wf pages →
  page_entries (foldl (spend_page out_p) pages l) = page_entries pages ∧
  pages_wf (foldl (spend_page out_p) pages l).
Proof.
  revert pages; induction l as [|i l IH]; intros pages Hn Hwf; [done|]. cbn [foldl].
  destruct (spend_page_absent out_p pages i Hn Hwf) as [E Hwf'].
  rewrite <-E. apply IH; [by rewrite E|done].
Qed.

Lemma size_delete_le {A : Type} (m : gmap OutPoint A) k : (size (delete k m) <= size m)%nat.
Proof. apply map_subseteq_size, delete_subseteq. Qed.

(** The page that holds the entry is emptied of it. *)
Lemma spend_page_present out_p a l1 p l2 : pages_wf (l1 ++ p :: l2) → p !! out_p = Some a →
  let pages := spend_page out_p (l1 ++ p :: l2) (length l1) in
  page_entries (l1 ++ p :: l2) ≡ₚ (out_p, a) :: page_entries pages ∧ pages_wf pages.
Proof.
  intros Hwf Ha. cbv zeta. rewrite spend_page_app, page_entries_split, <-(map_to_list_delete p out_p a Ha).
  pose proof (pages_wf_split _ _ _ Hwf) as [_ Hsz]. pose proof (size_delete_le p out_p).
  destruct (decide (delete out_p p = ∅ ∧ l1 ≠ [])) as [D|D].
  - destruct D as [-> _]. rewrite map_to_list_empty, page_entries_app. cbn [app]. split; [|by eapply pages_wf_drop].
    symmetry. apply (Permutation_middle (page_entries l1) (page_entries l2)).
  - rewrite page_entries_split. split; [symmetry; apply Permutation_middle|].
    eapply pages_wf_replace; [done|lia|]. destruct l1; [by left|]. right; right. intros E. by apply D.
Qed.

(** The loop over the pages removes the entry and nothing else. *)
Lemma spend_pages_present out_p a rest l1 : pages_wf (l1 ++ rest) → NoDup (page_entries (l1 ++ rest)).*1 →
  (out_p, a) ∈ page_entries rest →
  let pages := foldl (spend_page out_p) (l1 ++ rest) (seq (length l1) (length rest)) in
  page_entries (l1 ++ rest) ≡ₚ (out_p, a) :: page_entries pages ∧ pages_wf pages.
Proof.
  revert l1; induction rest as [|p rest IH]; intros l1 Hwf Hnd Hin; [by apply elem_of_nil in Hin|].
  cbn [length seq foldl]. destruct (p !! out_p) as [b|] eqn:Hb.
  - destruct (spend_page_present out_p b l1 p rest Hwf Hb) as [HP Hwf'].
    assert (b = a) as ->.
    { apply (NoDup_fst_inj (page_entries (l1 ++ p :: rest)) out_p); [done| |].
      - rewrite page_entries_split, !elem_of_app. right; left. by apply elem_of_map_to_list.
      - rewrite page_entries_app. by apply elem_of_app; right. }
    rewrite HP in Hnd. apply NoDup_cons in Hnd as [Hn _].
    destruct (spend_pages_absent out_p (seq (S (length l1)) (length rest)) _ Hn Hwf') as [E Hwf2].
    cbv zeta. rewrite E. done.
  - assert (Hin' : (out_p, a) ∈ page_entries rest).
    { apply (elem_of_app (map_to_list p)) in Hin as [Hin%elem_of_map_to_list|Hin]; [congruence|done]. }
    assert (Hr : rest ≠ []) by (intros ->; by apply elem_of_nil in Hin').
    assert (E : spend_page out_p (l1 ++ p :: rest) (length l1) = (l1 ++ [p]) ++ rest).
    { rewrite spend_page_app, (delete_id p) by done. rewrite decide_False; [by rewrite <-app_assoc|].
      intros [-> Hl1]. by apply (proj1 (pages_wf_split _ _ _ Hwf)). }
    rewrite E. replace (l1 ++ p :: rest) with ((l1 ++ [p]) ++ rest) in * by by rewrite <-app_assoc.
    replace (S (length l1)) with (length (l1 ++ [p])) by (rewrite length_app; cbn; lia).
    by apply IH.
Qed.

(** ** The sum of the assets of a kind *)
Section sums.
Context `{NaomAssets, !AssetMeasure}.

Definition kind_qty (k : AssetKind) (a : Asset) : Z := if decide (asset_kind a = k) then asset_qty a else 0.
Definition asset_sum (k : AssetKind) (m : gmap OutPoint Asset) : Z :=
  map_fold (λ _ a s, kind_qty k a + s) 0 m.

Lemma asset_sum_empty k : asset_sum k ∅ = 0.
Proof. apply map_fold_empty. Qed.

Lemma asset_sum_insert k m op a : m !! op = None → asset_sum k (<[op := a]> m) = kind_qty k a + asset_sum k m.
Proof. intros Hn. unfold asset_sum. rewrite map_fold_insert_L; [done| |done]. intros; lia. Qed.

Lemma asset_sum_delete k m op a : m !! op = Some a → asset_sum k m = kind_qty k a + asset_sum k (delete op m).
Proof.
  intros Ha. rewrite <-(insert_delete_id m op a Ha) at 1. apply asset_sum_insert, lookup_delete_eq.
Qed.

Lemma kind_qty_nonneg `{!NaomAssetsLaws} k a : 0 ≤ kind_qty k a.
Proof. unfold kind_qty. case_decide; [apply asset_qty_nonneg|lia]. Qed.

Lemma asset_sum_nonneg `{!NaomAssetsLaws} k m : 0 ≤ asset_sum k m.
Proof.
  unfold asset_sum. apply (map_fold_weak_ind (λ s _, 0 ≤ s)); [lia|].
  intros i a m' s _ Hs. pose proof (kind_qty_nonneg k a). lia.
Qed.

(** ** The invariant *)
Record fund_wf (fs : FundStore) : Prop := {
  wf_total k : held (fs_running_total fs) k = asset_sum k (fs_transactions fs);
  wf_bound k : is_u64 (asset_sum k (fs_transactions fs));
  wf_parts : page_entries (fs_pages fs) ≡ₚ map_to_list (fs_transactions fs);
  wf_pages : pages_wf (fs_pages fs);
  wf_fixed op a : fs_transactions fs !! op = Some a → fixed a;
}.

(** The total of the kind of a new asset stays within 64 bits. *)
Definition fits (fs : FundStore) (out_p : OutPoint) (amount : Asset) : Prop :=
  fs_transactions fs !! out_p = None →
  let a := with_fixed_hash amount out_p in is_u64 (asset_sum (asset_kind a) (fs_transactions fs) + asset_qty a).
End sums.

Lemma pages_wf_add l : pages_wf l → page_is_full l = true → pages_wf (l ++ [∅]).
Proof.
  intros [Hm Hs] Hf. split; [|apply Forall_app; split; [done|]; repeat constructor; cbn; lia].
  intros i p Hp Hi Hl. rewrite length_app in Hl; cbn in Hl. rewrite lookup_app_l in Hp by lia.
  destruct (decide (S i < length l)%nat) as [|Hge]; [by apply (Hm i)|].
  unfold page_is_full in Hf. rewrite last_lookup in Hf.
  replace (pred (length l)) with i in Hf by lia. rewrite Hp in Hf.
  apply Nat.eqb_eq in Hf. intros ->. by rewrite map_size_empty in Hf.
Qed.

Lemma page_entries_add l : page_entries (l ++ [∅]) = page_entries l.
Proof. rewrite page_entries_split, map_to_list_empty. cbn. by rewrite !app_nil_r. Qed.

(** Putting a new entry into the last page, which is there and not full. *)
Lemma update_last_insert l op a : pages_wf l → page_is_full l = false → op ∉ (page_entries l).*1 →
  pages_wf (update_last (<[op := a]>) l) ∧
  page_entries (update_last (<[op := a]>) l) ≡ₚ (op, a) :: page_entries l.
Proof.
  intros Hwf Hf Hn. destruct l as [|p l _] using rev_ind; [done|].
  unfold page_is_full in Hf. unfold update_last. rewrite last_snoc in Hf |- *.
  apply Nat.eqb_neq in Hf. pose proof (pages_wf_split _ _ _ Hwf) as [_ Hsz].
  replace (pred (length (l ++ [p]))) with (length l + 0)%nat by (rewrite length_app; cbn; lia).
  rewrite insert_app_r. cbn. rewrite page_entries_split, !fmap_app, !not_elem_of_app in Hn.
  assert (Hp : p !! op = None).
  { destruct (p !! op) as [b|] eqn:E; [|done]. destruct Hn as (_ & [] & _).
    apply list_elem_of_fmap. exists (op, b). by rewrite elem_of_map_to_list. }
  split.
  - eapply pages_wf_replace; [done| |by right; left]. rewrite map_size_insert_None by done. unfold ENTRIES_PER_PAGE in *. lia.
  - rewrite !page_entries_split, map_to_list_insert by done. symmetry. apply Permutation_middle.
Qed.

Section invariant.
Context `{NaomAssets, !AssetMeasure, !NaomAssetsLaws}.
Implicit Types fs : FundStore.

Lemma fund_wf_default : fund_wf FundStore_default.
Proof.
  split; cbn.
  - intros k. by rewrite held_default, asset_sum_empty.
  - intros k. rewrite asset_sum_empty. unfold is_u64, U64_MOD. lia.
  - by rewrite map_to_list_empty.
  - split; [done|constructor].
  - intros op a Ha. by rewrite lookup_empty in Ha.
Qed.

Lemma fund_wf_add_page fs : fund_wf fs → page_is_full (fs_pages fs) = true → fund_wf (add_transaction_pages fs).
Proof. intros [? ? ? ? ?] Hf. split; cbn; [done..|by rewrite page_entries_add|by apply pages_wf_add|done]. Qed.

Lemma page_is_full_add l : page_is_full (l ++ [∅]) = false.
Proof. unfold page_is_full. by rewrite last_snoc. Qed.

Lemma not_in_pages fs op : fund_wf fs → fs_transactions fs !! op = None → op ∉ (page_entries (fs_pages fs)).*1.
Proof.
  intros Hwf Hn ([op' a] & -> & Hin)%list_elem_of_fmap. rewrite (wf_parts _ Hwf), elem_of_map_to_list in Hin.
  cbn in Hn. congruence.
Qed.

(** A new output enters the last page and the total. *)
Lemma store_new_wf fs op a : fund_wf fs → page_is_full (fs_pages fs) = false →
  fs_transactions fs !! op = None → fixed a → is_u64 (asset_sum (asset_kind a) (fs_transactions fs) + asset_qty a) →
  fund_wf (fs <| fs_transactions ::= <[op := a]> |> <| fs_pages ::= update_last (<[op := a]>) |>
              <| fs_running_total ::= λ t, update_add t a |>).
Proof.
  intros Hwf Hf Hn Hfx Hu. pose proof Hwf as [Ht Hb Hp Hpw Hx].
  destruct (update_last_insert _ op a Hpw Hf (not_in_pages fs op Hwf Hn)) as [Hpw' Hpe].
  split; cbn.
  - intros k. rewrite held_add, Ht, asset_sum_insert by (rewrite ?Ht; done). unfold kind_qty. lia.
  - intros k. rewrite asset_sum_insert by done. unfold kind_qty. case_decide; [subst; by rewrite Z.add_comm|].
    rewrite Z.add_0_l. apply Hb.
  - rewrite Hpe, map_to_list_insert by done. by rewrite Hp.
  - done.
  - intros op' b [[<- <-]|[_ ?]]%lookup_insert_Some; [done|by eapply Hx].
Qed.

Lemma store_tx_wf fs op a fs' : fund_wf fs → fits fs op a → store_tx fs op a = Ret fs' → fund_wf fs'.
Proof.
  intros Hwf Hfit. unfold store_tx.
  set (fs1 := if page_is_full (fs_pages fs) then add_transaction_pages fs else fs).
  assert (Hwf1 : fund_wf fs1) by (subst fs1; case_match eqn:E; [by apply fund_wf_add_page|done]).
  assert (Hf1 : page_is_full (fs_pages fs1) = false) by (subst fs1; case_match eqn:E; [apply page_is_full_add|done]).
  assert (Ht1 : fs_transactions fs1 = fs_transactions fs) by (subst fs1; by case_match).
  cbv zeta. rewrite Ht1. destruct (fs_transactions fs !! op) as [old|] eqn:Eo.
  - case_decide as D; [done|]. subst old. intros [= <-].
    rewrite with_hash_idem by (eapply (wf_fixed _ Hwf1); by rewrite Ht1).
    assert (E : fs1 <| fs_transactions ::= <[op := a]> |> = fs1); [|by rewrite E].
    rewrite <-Ht1 in Eo. destruct fs1 as [t m l s]. cbv [setter]. cbn in Eo |- *. by rewrite insert_id.
  - intros [= <-]. apply store_new_wf; [done|done|by rewrite Ht1|apply fixed_with_hash|].
    rewrite Ht1. by apply Hfit.
Qed.

Lemma spend_tx_wf fs op fs' : fund_wf fs → spend_tx fs op = Ret fs' → fund_wf fs'.
Proof.
  intros Hwf. unfold spend_tx. destruct (fs_transactions fs !! op) as [a|] eqn:Ea; [|by intros [= <-]].
  cbv zeta. case_match; [done|]. intros [= <-]. pose proof Hwf as [Ht Hb Hp Hpw Hx].
  pose proof (asset_sum_delete (asset_kind a) _ _ _ Ea) as Hs.
  destruct (spend_pages_present op a (fs_pages fs) []) as [HP Hpw']; [done| | |].
  { cbn. rewrite Hp. apply NoDup_fst_map_to_list. }
  { rewrite Hp. by apply elem_of_map_to_list. }
  cbn [app length] in HP, Hpw'. split; cbn.
  - intros k. rewrite held_sub, Ht, (asset_sum_delete k _ _ _ Ea); [unfold kind_qty; lia|by eapply Hx|by rewrite Ht|].
    rewrite Ht, Hs. unfold kind_qty. rewrite decide_True by done.
    pose proof (asset_sum_nonneg (asset_kind a) (delete op (fs_transactions fs))). lia.
  - intros k. pose proof (Hb k) as Hk. rewrite (asset_sum_delete k _ _ _ Ea) in Hk.
    pose proof (asset_sum_nonneg k (delete op (fs_transactions fs))). pose proof (kind_qty_nonneg k a).
    unfold is_u64 in *. lia.
  - apply (Permutation_cons_inv (a := (op, a))). rewrite <-HP, Hp. by rewrite map_to_list_delete.
  - done.
  - intros op' b [_ ?]%lookup_delete_Some. by eapply Hx.
Qed.
End invariant.

(** ** Locked outputs *)
Definition is_locked (locked : LockedCoinbase) (op : OutPoint) : bool :=
  match locked with Some l => bool_decide (is_Some (l !! t_hash op)) | None => false end.
Definition unlocked (locked : LockedCoinbase) (m : gmap OutPoint Asset) : gmap OutPoint Asset :=
  filter (λ kv, is_locked locked kv.1 = false) m.

Section locked.
Context `{NaomAssets, !AssetMeasure, !NaomAssetsLaws}.
Implicit Types fs : FundStore.

(** The part of [fund_wf] that does not speak of the pages. *)
Definition totals_wf fs : Prop :=
  (∀ k, held (fs_running_total fs) k = asset_sum k (fs_transactions fs)) ∧
  (∀ k, is_u64 (asset_sum k (fs_transactions fs))) ∧
  (∀ op a, fs_transactions fs !! op = Some a → fixed a).

Lemma fund_wf_totals fs : fund_wf fs → totals_wf fs.
Proof. by intros [? ? _ _ ?]. Qed.

Lemma totals_wf_remove fs op a : totals_wf fs → fs_transactions fs !! op = Some a →
  totals_wf (fs <| fs_transactions ::= delete op |> <| fs_running_total ::= λ t, update_sub t a |>).
Proof.
  intros (Ht & Hb & Hx) Ea. pose proof (asset_sum_delete (asset_kind a) _ _ _ Ea) as Hs.
  pose proof (λ k, asset_sum_nonneg k (delete op (fs_transactions fs))) as Hn. split_and!; cbn.
  - intros k. rewrite held_sub, Ht, (asset_sum_delete k _ _ _ Ea); [unfold kind_qty; lia|by eapply Hx|by rewrite Ht|].
    rewrite Ht, Hs. unfold kind_qty. rewrite decide_True by done. specialize (Hn (asset_kind a)). lia.
  - intros k. specialize (Hb k). rewrite (asset_sum_delete k _ _ _ Ea) in Hb.
    specialize (Hn k). pose proof (kind_qty_nonneg k a). unfold is_u64 in *. lia.
  - intros op' b [_ ?]%lookup_delete_Some. by eapply Hx.
Qed.

Lemma filter_locked_step_spec locked acc op : totals_wf acc.2 →
  let acc' := filter_locked_step locked acc op in
  totals_wf acc'.2 ∧ fs_spent acc'.2 = fs_spent acc.2 ∧
  ∀ k, fs_transactions acc'.2 !! k =
    if decide (k = op ∧ is_Some (locked !! t_hash op)) then None else fs_transactions acc.2 !! k.
Proof.
  destruct acc as [count fs]. cbn. intros Hwf.
  case_bool_decide as D; [destruct (fs_transactions fs !! op) as [a|] eqn:Ea|]; cbn.
  - split; [by apply totals_wf_remove|]. split; [done|]. intros k. case_decide as Dk.
    + destruct Dk as [-> _]. apply lookup_delete_eq.
    + rewrite lookup_delete_ne; [done|naive_solver].
  - split_and!; [done..|]. intros k. case_decide as Dk; [by destruct Dk as [-> _]|done].
  - split_and!; [done..|]. intros k. case_decide as Dk; [by destruct Dk|done].
Qed.

(** The unlocked outputs are left, and the total is theirs. *)
Lemma filter_locked_spec fs locked : totals_wf fs →
  let fs' := (fs_filter_locked_coinbase fs locked).2 in
  totals_wf fs' ∧ fs_spent fs' = fs_spent fs ∧ fs_transactions fs' = unlocked locked (fs_transactions fs).
Proof.
  intros Hwf. cbv zeta. destruct locked as [locked|]; cbn [fs_filter_locked_coinbase].
  2: { split_and!; [done..|]. cbn. symmetry. apply map_filter_id. done. }
  assert (Hg : ∀ l acc, totals_wf acc.2 → let acc' := foldl (filter_locked_step locked) acc l in
    totals_wf acc'.2 ∧ fs_spent acc'.2 = fs_spent acc.2 ∧
    ∀ k, fs_transactions acc'.2 !! k =
      if decide (k ∈ l ∧ is_Some (locked !! t_hash k)) then None else fs_transactions acc.2 !! k).
  { induction l as [|op l IH]; intros acc Ha; cbn [foldl]; cbv zeta.
    - split_and!; [done..|]. intros k. by rewrite decide_False by (intros [[]%not_elem_of_nil _]).
    - destruct (filter_locked_step_spec locked acc op Ha) as (A1 & A2 & A3).
      destruct (IH _ A1) as (A4 & A5 & A6). split_and!; [done|by rewrite A5|]. intros k. rewrite A6, A3.
      repeat case_decide; rewrite ?elem_of_cons in *; naive_solver. }
  destruct (Hg (bt_keys (fs_transactions fs)) (None, fs) Hwf) as (A1 & A2 & A3).
  split_and!; [done..|]. apply map_eq. intros k. rewrite A3. cbn. unfold unlocked.
  rewrite map_lookup_filter. destruct (fs_transactions fs !! k) as [a|] eqn:Ea; cbn.
  - destruct (bool_decide_reflect (is_Some (locked !! t_hash k))) as [D|D].
    + rewrite decide_True by (split; [apply elem_of_bt_keys; by eexists|done]). by case_guard.
    + rewrite decide_False by naive_solver. by case_guard.
  - by case_decide.
Qed.
End locked.

(** ** Reachable stores *)
Section reachable.
Context `{NaomAssets, !AssetMeasure, !NaomAssetsLaws}.

(** The stores that receiving payments, spending and forgetting spent outputs
    lead to from the default one. *)
Inductive fund_reachable : FundStore → Prop :=
  | reach_default : fund_reachable FundStore_default
  | reach_store fs op a fs' : fund_reachable fs → fits fs op a → store_tx fs op a = Ret fs' → fund_reachable fs'
  | reach_spend fs op fs' : fund_reachable fs → spend_tx fs op = Ret fs' → fund_reachable fs'
  | reach_forget fs : fund_reachable fs → fund_reachable (remove_spent_transactions fs).2.

(** In every store that payments, spending and clean-up lead to, the running
    total of each kind of asset is the sum of the unspent outputs, and the
    pages split exactly the unspent outputs between them, none with more than
    25 and none empty in the middle. *)
Theorem fund_store_sound fs : fund_reachable fs → fund_wf fs.
Proof.
  induction 1 as [|fs op a fs' _ IH Hf Hs|fs op fs' _ IH Hs|fs _ IH].
  - apply fund_wf_default.
  - by eapply store_tx_wf.
  - by eapply spend_tx_wf.
  - by destruct IH.
Qed.

(** The wallet does not remember that an output it spent is not its own any
    more: received again (the UTXO set still has it until the payment is
    mined) it counts as new funds, and selecting it for another payment
    panics. *)
Theorem respent_output_panics fs op a fs1 : fund_wf fs → fs_transactions fs !! op = Some a →
  spend_tx fs op = Ret fs1 →
  ∃ fs2, store_tx fs1 op a = Ret fs2 ∧ fs_transactions fs2 !! op = Some a ∧ spend_tx fs2 op = Panic.
Proof.
  intros Hwf Ha. unfold spend_tx at 1. rewrite Ha. cbv zeta. case_match; [done|]. intros [= <-].
  unfold store_tx. cbv zeta.
  set (fs1 := if page_is_full _ then _ else _).
  assert (Ht : fs_transactions fs1 = delete op (fs_transactions fs)) by (subst fs1; by case_match).
  assert (Hs : fs_spent fs1 = <[op := a]> (fs_spent fs)) by (subst fs1; by case_match).
  clearbody fs1. rewrite Ht, lookup_delete_eq. eexists. split; [reflexivity|].
  rewrite with_hash_idem by (by eapply wf_fixed). cbn. rewrite Ht, lookup_insert_eq. split; [done|].
  unfold spend_tx. cbn. rewrite Ht, lookup_insert_eq. cbn. by rewrite Hs, lookup_insert_eq.
Qed.
End reachable.

Module FundExamples.
Import TestExternals.
Open Scope string_scope.
Definition op1 := mkOutPoint "tx1" 0.
Definition fs1 : FundStore := default FundStore_default
  match store_tx FundStore_default op1 (Token 7) with Ret f => Some f | Panic => None end.
Definition fs2 : FundStore := default FundStore_default
  match spend_tx fs1 op1 with Ret f => Some f | Panic => None end.

Lemma fs1_reachable : fund_reachable fs1.
Proof.
  apply (reach_store FundStore_default op1 (Token 7)); [apply reach_default| |vm_compute; reflexivity].
  intros _. unfold is_u64, U64_MOD. vm_compute. by split.
Qed.

Lemma fund_store_sound_witness : fund_wf fs2 ∧ held (fs_running_total fs2) TokenType = 0.
Proof.
  split; [|vm_compute; reflexivity]. apply fund_store_sound.
  apply (reach_spend fs1 op1); [apply fs1_reachable|vm_compute; reflexivity].
Defined.

Lemma fs1_wf : fund_wf fs1.
Proof. apply (store_tx_wf FundStore_default op1 (Token 7)); [apply fund_wf_default| |vm_compute; reflexivity].
  intros _. unfold is_u64, U64_MOD. vm_compute. by split. Qed.

Lemma respent_output_panics_witness : ∃ f, store_tx fs2 op1 (Token 7) = Ret f ∧
  fs_transactions f !! op1 = Some (Token 7) ∧ spend_tx f op1 = Panic.
Proof.
  apply (respent_output_panics fs1 op1 (Token 7) fs2); [apply fs1_wf|vm_compute; reflexivity|vm_compute; reflexivity].
Defined.

(** The doc of [transaction_pages] promises the nearest page; the index just
    after the last page gets the first one. *)
Example page_after_last :
  let fs := FundStore_new (0, ∅) ∅ [∅; {[op1 := Token 7]}] ∅ in
  transaction_page fs 2 = Ret ∅ ∧ transaction_page fs 3 = Ret {[op1 := Token 7]}.
Proof. split; vm_compute; reflexivity. Qed.
End FundExamples.
