(* ===== verification/Wallet.v ===== *)
(** * The wallet of [src/wallet/mod.rs]

    The database of addresses, keys and funds of a node, the selection of the
    inputs of a payment, and the passphrase that protects the master key. *)
From S2P Require Import Prelude Externals Utils DbUtils FundStore.

(** ** Constants *)
Definition KNOWN_ADDRESS_KEY : string := "a".
Definition FUND_KEY : string := "f".
Definition LOCKED_COINBASE_KEY : string := "LockedCoinbaseKey".
Definition MASTER_KEY_STORE_KEY : string := "MasterKeyStore".

(** ** The cryptography of naom

    Keys, salts and nonces are their bytes; what is generated at random is an
    argument of the operations. *)
Class NaomCrypto := {
  NONCE_LEN : nat;
  derive_key : list Z → list Z → list Z;
  key_from_slice : list Z → option (list Z);
  nonce_from_slice : list Z → option (list Z);
  seal : list Z → list Z → list Z → option (list Z);
  open_box : list Z → list Z → list Z → option (list Z);
  sign_detached : list Z → list Z → list Z;
  construct_address_for : list Z → option Z → string;
  construct_tx_in_signable_hash : OutPoint → string;
}.

(** ** Data *)
Inductive WalletDbError :=
  | Serialization | PassphraseError | InsufficientFundsError | MasterKeyRetrievalError | MasterKeyMissingError.

Record AddressStore := mkAddressStore {
  public_key : list Z; secret_key : list Z; address_version : option Z }.
Record TransactionStore := mkTransactionStore { key_address : string }.
Record MasterKeyStore := mkMasterKeyStore { salt : list Z; mk_nonce : list Z; enc_master_key : list Z }.
Record TxConstructor := mkTxConstructor {
  tc_previous_out : OutPoint; tc_signatures : list (list Z); tc_pub_keys : list (list Z);
  tc_address_version : option Z }.

(** naom's functions on them *)
Class NaomPayments := {
  construct_payment_tx_ins : list TxConstructor → list TxIn;
  new_asset : string → Asset → TxOut;
}.

Record WalletDb := mkWalletDb {
  wallet_db : SimpleDb;
  encryption_key : list Z;
  locked_coinbase : LockedCoinbase;
  last_generated_address : option string;
  last_locked_coinbase_filter_b_num : option Z;
}.
#[export] Instance eta_WalletDb : Eta WalletDb := λ r,
  mkWalletDb (wallet_db r) (encryption_key r) (locked_coinbase r) (last_generated_address r)
    (last_locked_coinbase_filter_b_num r).

(** ** Encryption *)
Section keys.
Context `{NaomCrypto, Bincode MasterKeyStore}.

Definition make_key (passphrase salt : list Z) : outcome (list Z) :=
  unwrap (key_from_slice (derive_key passphrase salt)).

Definition decrypt_store (store encryption_key : list Z) : outcome (list Z) :=
  if decide (length store < NONCE_LEN)%nat then Panic
  else
    let! nonce := unwrap (nonce_from_slice (take NONCE_LEN store)) in
    unwrap (open_box (drop NONCE_LEN store) nonce encryption_key).

Definition encrypt_store (nonce store encryption_key : list Z) : outcome (list Z) :=
  let! sealed := unwrap (seal store nonce encryption_key) in
  Ret (nonce ++ sealed).

(** The random salt, key and nonce. *)
Definition set_new_master_key_store (batch : WriteBatch) (passphrase : list Z)
    (salt master_key nonce : list Z) : outcome (list Z * WriteBatch) :=
  let! pass_key := make_key passphrase salt in
  let! enc_master_key := unwrap (seal master_key nonce pass_key) in
  let store := serialize (mkMasterKeyStore salt nonce enc_master_key) in
  let! batch := batch_put_cf batch DB_COL_DEFAULT (string_codes MASTER_KEY_STORE_KEY) store in
  Ret (master_key, batch).

Definition get_master_key_store (db : SimpleDb) (passphrase : list Z) : outcome (WalletDbError + list Z) :=
  let! store := get_cf db DB_COL_DEFAULT (string_codes MASTER_KEY_STORE_KEY) in
  match store with
  | None => Ret (inl MasterKeyMissingError)
  | Some store =>
      match deserialize store with
      | None => Ret (inl Serialization)
      | Some store =>
          let! pass_key := make_key passphrase (salt store) in
          Ret (match open_box (enc_master_key store) (mk_nonce store) pass_key with
               | None => inl PassphraseError
               | Some master_key =>
                   match key_from_slice master_key with
                   | None => inl MasterKeyRetrievalError
                   | Some key => inr key
                   end
               end)
      end
  end.

Definition get_or_save_master_key_store (db : SimpleDb) (batch : WriteBatch) (passphrase : list Z)
    (salt master_key nonce : list Z) : outcome ((WalletDbError + list Z) * WriteBatch) :=
  let! r := get_master_key_store db passphrase in
  match r with
  | inr key => Ret (inr key, batch)
  | inl MasterKeyMissingError =>
      let! r := set_new_master_key_store batch passphrase salt master_key nonce in
      Ret (inr r.1, r.2)
  | inl e => Ret (inl e, batch)
  end.

(** The in-memory mode; [NETWORK_VERSION_SERIALIZED] is the argument of the
    opening. *)
Definition WalletDb_new (NETWORK_VERSION_SERIALIZED : list Z) (db : option SimpleDb)
    (passphrase : option string) (salt master_key nonce : list Z) : outcome (WalletDbError + WalletDb) :=
  let! db := new_db NETWORK_VERSION_SERIALIZED [] db in
  let batch := batch_writer db in
  let! r := get_or_save_master_key_store db batch (string_codes (default "" passphrase)) salt master_key nonce in
  match r.1 with
  | inl e => Ret (inl e)
  | inr masterkey =>
      let! db := write db (batch_done r.2) in
      Ret (inr (mkWalletDb db masterkey None None None))
  end.

Definition wallet_get_master_key_store (w : WalletDb) (passphrase : string) : outcome (WalletDbError + list Z) :=
  get_master_key_store (wallet_db w) (string_codes passphrase).

Definition test_passphrase (w : WalletDb) (passphrase : string) : outcome (WalletDbError + unit) :=
  let! r := wallet_get_master_key_store w passphrase in
  Ret (match r with inl e => inl e | inr _ => inr () end).

Definition re_encrypt_master_key (w : WalletDb) (old_passphrase new_passphrase : string)
    (salt nonce : list Z) : outcome ((WalletDbError + unit) * WalletDb) :=
  let db := wallet_db w in
  let batch := batch_writer db in
  let! r := get_master_key_store db (string_codes old_passphrase) in
  match r with
  | inl e => Ret (inl e, w)
  | inr master_key =>
      let! pass_key := make_key (string_codes new_passphrase) salt in
      let! enc_master_key := unwrap (seal master_key nonce pass_key) in
      let store := serialize (mkMasterKeyStore salt nonce enc_master_key) in
      let! batch := batch_put_cf batch DB_COL_DEFAULT (string_codes MASTER_KEY_STORE_KEY) store in
      let! db := write db (batch_done batch) in
      Ret (inr (), w <| wallet_db := db |>)
  end.

Definition change_wallet_passphrase (w : WalletDb) (old_passphrase new_passphrase : string)
    (salt nonce : list Z) : outcome ((WalletDbError + unit) * WalletDb) :=
  re_encrypt_master_key w old_passphrase new_passphrase salt nonce.

Definition take_closed_persistent_store (w : WalletDb) : SimpleDb * WalletDb :=
  ((db_take (wallet_db w)).1, w <| wallet_db := (db_take (wallet_db w)).2 |>).
End keys.

(** ** The database *)
Section database.
Context `{NaomAssets, NaomCrypto, NaomPayments, Bincode (FundStoreOf AssetValues), Bincode (gset string)}.
Context `{Bincode AddressStore, Bincode TransactionStore, Bincode OutPoint}.

(** The errors of [get_cf] are those of the file variant. *)
Definition get_fund_store_err (db : SimpleDb) : outcome FundStore :=
  let! r := get_cf db DB_COL_DEFAULT (string_codes FUND_KEY) in
  match r with Some list => unwrap (deserialize list) | None => Ret FundStore_default end.

Definition get_fund_store (db : SimpleDb) : outcome FundStore := get_fund_store_err db.

Definition set_fund_store (db : WriteBatch) (fund_store : FundStore) : outcome WriteBatch :=
  batch_put_cf db DB_COL_DEFAULT (string_codes FUND_KEY) (serialize fund_store).

Definition get_known_key_address (db : SimpleDb) : outcome (gset string) :=
  let! r := get_cf db DB_COL_DEFAULT (string_codes KNOWN_ADDRESS_KEY) in
  match r with Some list => unwrap (deserialize list) | None => Ret ∅ end.

Definition set_known_key_address (db : WriteBatch) (address_store : gset string) : outcome WriteBatch :=
  batch_put_cf db DB_COL_DEFAULT (string_codes KNOWN_ADDRESS_KEY) (serialize address_store).

Definition get_address_store_encrypted (db : SimpleDb) (key_addr : string) : outcome (list Z) :=
  let! r := get_cf db DB_COL_DEFAULT (string_codes key_addr) in unwrap r.

Definition get_address_store (db : SimpleDb) (key_addr : string) (encryption_key : list Z) : outcome AddressStore :=
  let! r := get_cf db DB_COL_DEFAULT (string_codes key_addr) in
  let! store := unwrap r in
  let! decrypted := decrypt_store store encryption_key in
  unwrap (deserialize decrypted).

Definition delete_address_store (db : WriteBatch) (key_addr : string) : outcome WriteBatch :=
  batch_delete_cf db DB_COL_DEFAULT (string_codes key_addr).

Definition save_address_store_to_wallet (db : WriteBatch) (nonce : list Z) (key_addr : string)
    (store : AddressStore) (encryption_key : list Z) : outcome WriteBatch :=
  let! input := encrypt_store nonce (serialize store) encryption_key in
  batch_put_cf db DB_COL_DEFAULT (string_codes key_addr) input.

Definition get_transaction_store (db : SimpleDb) (out_p : OutPoint) : outcome TransactionStore :=
  let! r := get_cf db DB_COL_DEFAULT (serialize out_p) in
  let! store := unwrap r in
  unwrap (deserialize store).

Definition delete_transaction_store (db : WriteBatch) (out_p : OutPoint) : outcome WriteBatch :=
  batch_delete_cf db DB_COL_DEFAULT (serialize out_p).

Definition save_transaction_to_wallet (db : WriteBatch) (out_p : OutPoint) (store : TransactionStore) : outcome WriteBatch :=
  batch_put_cf db DB_COL_DEFAULT (serialize out_p) (serialize store).

(** ** Inputs of a payment *)
Definition tx_constructor_from_prev_out (db : SimpleDb) (out_p : OutPoint) (encryption_key : list Z) :
    outcome (TxConstructor * (OutPoint * string)) :=
  let! ts := get_transaction_store db out_p in
  let! needed_store := get_address_store db (key_address ts) encryption_key in
  let hash_to_sign := construct_tx_in_signable_hash out_p in
  let signature := sign_detached (string_codes hash_to_sign) (secret_key needed_store) in
  Ret (mkTxConstructor out_p [signature] [public_key needed_store] (address_version needed_store),
       (out_p, key_address ts)).

(** What the selection loops gather: [tx_cons], [amount_made], [tx_used]. *)
Definition Inputs : Type := list TxConstructor * Asset * list (OutPoint * string).

(** The body both selection loops share. *)
Definition add_input (db : SimpleDb) (encryption_key : list Z) (acc : Inputs) (tx : OutPoint * Asset) :
    outcome Inputs :=
  let '(tx_cons, amount_made, tx_used) := acc in
  let '(added, amount_made) := add_assign amount_made tx.2 in
  if added then
    let! cu := tx_constructor_from_prev_out db tx.1 encryption_key in
    Ret (tx_cons ++ [cu.1], amount_made, tx_used ++ [cu.2])
  else Ret (tx_cons, amount_made, tx_used).

Fixpoint fetch_inputs_loop (db : SimpleDb) (asset_required : Asset) (encryption_key : list Z)
    (txs : list (OutPoint * Asset)) (acc : Inputs) : outcome Inputs :=
  match txs with
  | [] => Ret acc
  | tx :: txs =>
      let! acc := add_input db encryption_key acc tx in
      match is_greater_or_equal_to acc.1.2 asset_required with
      | Some true => Ret acc
      | _ => fetch_inputs_loop db asset_required encryption_key txs acc
      end
  end.

Definition fetch_inputs_for_payment_from_db (db : SimpleDb) (asset_required : Asset)
    (encryption_key : list Z) (locked_coinbase : LockedCoinbase) : outcome (WalletDbError + Inputs) :=
  let! fund_store := get_fund_store db in
  let fund_store := (fs_filter_locked_coinbase fund_store locked_coinbase).2 in
  let amount_made := default_of_type asset_required in
  if negb (has_enough (fs_running_total fund_store) asset_required) then Ret (inl InsufficientFundsError)
  else
    let! r := fetch_inputs_loop db asset_required encryption_key (bt_iter (fs_transactions fund_store))
                ([], amount_made, []) in
    Ret (inr r).

Definition fetch_inputs_from_supplied_txs_for_payment_from_db (db : SimpleDb)
    (addresses : list (OutPoint * Asset)) (encryption_key : list Z) : outcome (WalletDbError + Inputs) :=
  let! r := ofold (add_input db encryption_key) ([], Token 0, []) addresses in
  Ret (inr r).

(** The addresses of the outputs of a map. *)
Definition key_addresses (db : SimpleDb) (txs : gmap OutPoint Asset) : outcome (gset string) :=
  ofold (λ s out_p, let! ts := get_transaction_store db out_p in Ret ({[key_address ts]} ∪ s)) ∅ (bt_keys txs).

Definition retrieve_empty_or_non_empty_addresses (addresses : gset string) (db : SimpleDb) (look_for_empty : bool) :
    outcome (gset string) :=
  let! fund_store := get_fund_store db in
  let! unspent_key_addresses := key_addresses db (fs_transactions fund_store) in
  Ret (if look_for_empty then filter (λ addr, addr ∉ unspent_key_addresses) addresses
       else filter (λ addr, addr ∈ unspent_key_addresses) addresses).

Definition retrieve_empty_addresses (addresses : gset string) (db : SimpleDb) : outcome (gset string) :=
  retrieve_empty_or_non_empty_addresses addresses db true.
Definition retrieve_non_empty_addresses (addresses : gset string) (db : SimpleDb) : outcome (gset string) :=
  retrieve_empty_or_non_empty_addresses addresses db false.

(** The outputs of an address, in the order of the store. *)
Definition txs_of_address (db : SimpleDb) (txs : gmap OutPoint Asset) (l : list (OutPoint * Asset)) (addr : string) :
    outcome (list (OutPoint * Asset)) :=
  ofold (λ l tx, let! ts := get_transaction_store db tx.1 in
                 Ret (if bool_decide (addr = key_address ts) then l ++ [tx] else l)) l (bt_iter txs).

Definition fetch_inputs_for_payment_from_supplied_input_addrs_db (db : SimpleDb) (addresses : gset string)
    (encryption_key : list Z) (locked_coinbase : LockedCoinbase) : outcome (WalletDbError + Inputs) :=
  let! addresses_to_use := retrieve_non_empty_addresses addresses db in
  let! fund_store := get_fund_store db in
  let fund_store := (fs_filter_locked_coinbase fund_store locked_coinbase).2 in
  let! txs_to_use := ofold (txs_of_address db (fs_transactions fund_store)) [] (bt_elems addresses_to_use) in
  fetch_inputs_from_supplied_txs_for_payment_from_db db txs_to_use encryption_key.

(** ** Clean-up *)
Definition destroy_spent_transactions_and_keys (db : SimpleDb) (addresses : option (gset string)) :
    outcome (gset string * gmap OutPoint Asset * SimpleDb) :=
  let! empty_addr := retrieve_empty_addresses (default ∅ addresses) db in
  let batch := batch_writer db in
  let! fund_store := get_fund_store db in
  let! address_store := get_known_key_address db in
  let '(spent_txs, fund_store) := remove_spent_transactions fund_store in
  let! unspent_key_addresses := key_addresses db (fs_transactions fund_store) in
  let! spent_addrs := key_addresses db spent_txs in
  let remove_key_addresses := filter (λ addr, addr ∉ unspent_key_addresses) spent_addrs ∪ empty_addr in
  let address_store := address_store ∖ remove_key_addresses in
  let! batch := set_fund_store batch fund_store in
  let! batch := set_known_key_address batch address_store in
  let! batch := ofold delete_address_store batch (bt_elems remove_key_addresses) in
  let! batch := ofold delete_transaction_store batch (bt_keys spent_txs) in
  let! db := write db (batch_done batch) in
  Ret (remove_key_addresses, spent_txs, db).
End database.

(** ** The wallet's operations *)
Section wallet.
Context `{NaomAssets, NaomCrypto, NaomPayments, Bincode (FundStoreOf AssetValues), Bincode (gset string)}.
Context `{Bincode AddressStore, Bincode TransactionStore, Bincode OutPoint, Bincode MasterKeyStore}.
Context `{Bincode (gmap string Z), Bincode (list (string * Z))}.
Implicit Types w : WalletDb.

Definition set_locked_coinbase w (value : LockedCoinbase) : WalletDb := w <| locked_coinbase := value |>.
Definition get_locked_coinbase w : LockedCoinbase := locked_coinbase w.

Definition get_db_value w (key : string) : outcome (option (list Z)) :=
  get_cf (wallet_db w) DB_COL_DEFAULT (string_codes key).
Definition set_db_value w (key : string) (value : list Z) : outcome WalletDb :=
  let! db := put_cf (wallet_db w) DB_COL_DEFAULT (string_codes key) value in Ret (w <| wallet_db := db |>).
Definition delete_db_value w (key : string) : outcome WalletDb :=
  let! db := delete_cf (wallet_db w) DB_COL_DEFAULT (string_codes key) in Ret (w <| wallet_db := db |>).

Definition wallet_get_fund_store w : outcome FundStore := get_fund_store (wallet_db w).
Definition wallet_get_transaction_store w (out_p : OutPoint) : outcome TransactionStore :=
  get_transaction_store (wallet_db w) out_p.
Definition wallet_get_address_store w (key_addr : string) : outcome AddressStore :=
  get_address_store (wallet_db w) key_addr (encryption_key w).
Definition wallet_get_address_store_encrypted w (key_addr : string) : outcome (list Z) :=
  get_address_store_encrypted (wallet_db w) key_addr.
Definition get_known_addresses w : outcome (list string) :=
  let! s := get_known_key_address (wallet_db w) in Ret (bt_elems s).
Definition get_transaction_address w (out_p : OutPoint) : outcome string :=
  let! ts := wallet_get_transaction_store w out_p in Ret (key_address ts).

(** *** Addresses *)
Definition save_address_to_wallet w (nonce : list Z) (address : string) (keys : AddressStore) : outcome WalletDb :=
  let db := wallet_db w in
  let batch := batch_writer db in
  let! address_list := get_known_key_address db in
  let address_list := {[address]} ∪ address_list in
  let! batch := save_address_store_to_wallet batch nonce address keys (encryption_key w) in
  let! batch := set_known_key_address batch address_list in
  let! db := write db (batch_done batch) in
  Ret (w <| wallet_db := db |>).

Definition save_encrypted_address_to_wallet w (address : string) (keys : list Z) : outcome WalletDb :=
  let db := wallet_db w in
  let batch := batch_writer db in
  let! address_list := get_known_key_address db in
  let address_list := {[address]} ∪ address_list in
  let! batch := batch_put_cf batch DB_COL_DEFAULT (string_codes address) keys in
  let! batch := set_known_key_address batch address_list in
  let! db := write db (batch_done batch) in
  Ret (w <| wallet_db := db |>).

Definition store_payment_address w (nonce public_key secret_key : list Z) (address_version : option Z) :
    outcome (string * AddressStore * WalletDb) :=
  let final_address := construct_address_for public_key address_version in
  let address_keys := mkAddressStore public_key secret_key address_version in
  let! w := save_address_to_wallet w nonce final_address address_keys in
  Ret (final_address, address_keys, w <| last_generated_address := Some final_address |>).

(** The random nonce and key pair. *)
Notation Rand := (list Z * list Z * list Z)%type (only parsing).
Definition generate_payment_address w (r : Rand) : outcome (string * AddressStore * WalletDb) :=
  store_payment_address w r.1.1 r.1.2 r.2 None.

(** *** Payments received *)
Definition wallet_save_transaction_to_wallet w (out_p : OutPoint) (key_address : string) : outcome WalletDb :=
  let! batch := save_transaction_to_wallet (batch_writer (wallet_db w)) out_p (mkTransactionStore key_address) in
  let! db := write (wallet_db w) (batch_done batch) in
  Ret (w <| wallet_db := db |>).

Definition store_locked_coinbase w (locked_coinbase : LockedCoinbase) : outcome (LockedCoinbase * WalletDb) :=
  let! w := match locked_coinbase with
            | Some cb => set_db_value w LOCKED_COINBASE_KEY (serialize cb)
            | None => delete_db_value w LOCKED_COINBASE_KEY
            end in
  Ret (locked_coinbase, w).

Notation Payment := (OutPoint * Asset * string * Z)%type (only parsing).

(** The loop over the usable payments. *)
Definition save_usable_step (current_b_num : Z) (acc : FundStore * WriteBatch * gmap string Z) (p : Payment) :
    outcome (FundStore * WriteBatch * gmap string Z) :=
  let '(fund_store, batch, locked_coinbase) := acc in
  let '(out_p, asset, key_address, locktime) := p in
  let store := mkTransactionStore key_address in
  let asset_to_store := with_fixed_hash asset out_p in
  let! fund_store := store_tx fund_store out_p asset_to_store in
  let! batch := save_transaction_to_wallet batch out_p store in
  let locked_coinbase :=
    if current_b_num <? locktime then <[t_hash out_p := locktime]> locked_coinbase else locked_coinbase in
  Ret (fund_store, batch, locked_coinbase).

Definition save_usable_payments_to_wallet w (payments : list Payment) (current_b_num : Z) :
    outcome (list Payment * WalletDb) :=
  let db := wallet_db w in
  let locked_coinbase := default ∅ (get_locked_coinbase w) in
  let batch := batch_writer db in
  let! fund_store := get_fund_store db in
  let! addresses := get_known_key_address db in
  let usable_payments := filter (λ p, p.1.2 ∈ addresses) payments in
  let! r := ofold (save_usable_step current_b_num) (fund_store, batch, locked_coinbase) usable_payments in
  let '(fund_store, batch, locked_db) := r in
  let! batch := set_fund_store batch fund_store in
  let! db := write db (batch_done batch) in
  let! r := store_locked_coinbase (w <| wallet_db := db |>) (Some locked_db) in
  Ret (usable_payments, set_locked_coinbase r.2 r.1).

Definition store_payment_transaction w (transaction : Transaction) (b_num : Z) : outcome WalletDb :=
  let hash := construct_tx_hash transaction in
  let! payments := get_paiments_for_wallet [(hash, transaction)] in
  let! r := save_usable_payments_to_wallet w payments b_num in
  Ret r.2.

(** [with_seed]: each seed has the outpoint, the keys, the amount and the
    version of a wallet transaction, already decoded, and a nonce. *)
Definition with_seed_step w (seed : list Z * (OutPoint * list Z * list Z * Z * option Z)) : outcome WalletDb :=
  let '(nonce, (tx_out_p, pk, sk, amount, v)) := seed in
  let! r := store_payment_address w nonce pk sk v in
  let '(address, _, w) := r in
  let! r := save_usable_payments_to_wallet w [(tx_out_p, Token amount, address, 0)] 0 in
  Ret r.2.

Definition with_seed w (seeds : list (list Z * (OutPoint * list Z * list Z * Z * option Z))) : outcome WalletDb :=
  let! fund_store := wallet_get_fund_store w in
  let! addresses := get_known_addresses w in
  if bool_decide (fs_transactions fund_store = ∅ ∧ fs_spent fund_store = ∅ ∧ addresses = [])
  then ofold with_seed_step w seeds else Ret w.

(** *** Payments made *)
Definition fetch_inputs_for_payment w (asset_required : Asset) : outcome (WalletDbError + Inputs) :=
  fetch_inputs_for_payment_from_db (wallet_db w) asset_required (encryption_key w) (get_locked_coinbase w).

Definition fetch_inputs_for_payment_from_supplied_input_addrs w (addresses : gset string) :
    outcome (WalletDbError + Inputs) :=
  fetch_inputs_for_payment_from_supplied_input_addrs_db (wallet_db w) addresses (encryption_key w)
    (get_locked_coinbase w).

Definition fetch_inputs_for_payment_from_supplied_txs w (txs : list (OutPoint * Asset)) :
    outcome (WalletDbError + Inputs) :=
  fetch_inputs_from_supplied_txs_for_payment_from_db (wallet_db w) txs (encryption_key w).

Definition consume_inputs_for_payment w (tx_cons : list TxConstructor) (tx_used : list (OutPoint * string)) :
    outcome (list TxIn * WalletDb) :=
  let db := wallet_db w in
  let batch := batch_writer db in
  let! fund_store := get_fund_store db in
  let! fund_store := ofold (λ fs u, spend_tx fs u.1) fund_store tx_used in
  let! batch := set_fund_store batch fund_store in
  let! db := write db (batch_done batch) in
  Ret (construct_payment_tx_ins tx_cons, w <| wallet_db := db |>).

(** The address given, or a new one. *)
Definition excess_address_or_new w (r : Rand) (excess_address : option string) : outcome (string * WalletDb) :=
  match excess_address with
  | Some a => Ret (a, w)
  | None => let! g := generate_payment_address w r in Ret (g.1.1, g.2)
  end.

Definition fetch_tx_ins_and_tx_outs_provided_excess w (r : Rand) (asset_required : Asset)
    (tx_outs : list TxOut) (excess_address : option string) :
    outcome ((WalletDbError + list TxIn * list TxOut) * WalletDb) :=
  let! res := fetch_inputs_for_payment w asset_required in
  match res with
  | inl e => Ret (inl e, w)
  | inr (tx_cons, total_amount, tx_used) =>
      let! ow := match get_excess total_amount asset_required with
                 | Some excess =>
                     let! aw := excess_address_or_new w r excess_address in
                     Ret (tx_outs ++ [new_asset aw.1 excess], aw.2)
                 | None => Ret (tx_outs, w)
                 end in
      let! iw := consume_inputs_for_payment ow.2 tx_cons tx_used in
      Ret (inr (iw.1, ow.1), iw.2)
  end.

Definition fetch_tx_ins_and_tx_outs w (r : Rand) (asset_required : Asset) (tx_outs : list TxOut) :
    outcome ((WalletDbError + list TxIn * list TxOut) * WalletDb) :=
  fetch_tx_ins_and_tx_outs_provided_excess w r asset_required tx_outs None.

Definition unwrap_result {E A : Type} (r : E + A) : outcome A :=
  match r with inl _ => Panic | inr a => Ret a end.

Definition fetch_tx_ins_and_tx_outs_merge_input_addrs w (r : Rand) (input_addresses : gset string)
    (excess_address : option string) : outcome (list TxIn * list TxOut * WalletDb) :=
  let! res := fetch_inputs_for_payment_from_supplied_input_addrs w input_addresses in
  let! res := unwrap_result res in
  let '(tx_cons, asset, tx_used) := res in
  let! aw := excess_address_or_new w r excess_address in
  let tx_outs := [new_asset aw.1 asset] in
  let! iw := consume_inputs_for_payment aw.2 tx_cons tx_used in
  Ret (iw.1, tx_outs, iw.2).

Definition fetch_tx_ins_and_tx_outs_from_supplied_txs w (txs : list (OutPoint * Asset)) :
    outcome (list TxIn * Asset * WalletDb) :=
  let! res := fetch_inputs_for_payment_from_supplied_txs w txs in
  let! res := unwrap_result res in
  let '(tx_cons, total_amount, tx_used) := res in
  let! iw := consume_inputs_for_payment w tx_cons tx_used in
  Ret (iw.1, total_amount, iw.2).

Definition wallet_destroy_spent_transactions_and_keys w (addresses : option (gset string)) :
    outcome (gset string * gmap OutPoint Asset * WalletDb) :=
  let! r := destroy_spent_transactions_and_keys (wallet_db w) addresses in
  Ret (r.1, w <| wallet_db := r.2 |>).

(** *** Locked coinbase

    The value is read as the list of the old format first, then as the map;
    what the first part leaves is overwritten by the second. *)
Definition load_locked_coinbase w : outcome ((WalletDbError + unit) * WalletDb) :=
  let! serialized_value := get_db_value w LOCKED_COINBASE_KEY in
  let old (v : list Z) : option (list (string * Z)) := deserialize v in
  let new (v : list Z) : option (gmap string Z) := deserialize v in
  let first : option WalletDb :=
    match serialized_value with
    | Some v =>
        match old v, new v with
        | Some locked_coinbase, _ => Some (set_locked_coinbase w (Some (map_extend ∅ locked_coinbase)))
        | None, Some locked_coinbase => Some (set_locked_coinbase w (Some locked_coinbase))
        | None, None => None
        end
    | None => Some w
    end in
  match first with
  | None => Ret (inl Serialization, w)
  | Some w =>
      let! serialized_value := get_db_value w LOCKED_COINBASE_KEY in
      match serialized_value with
      | None => Ret (inr (), set_locked_coinbase w None)
      | Some v =>
          match new v with
          | None => Ret (inl Serialization, w)
          | Some l => Ret (inr (), set_locked_coinbase w (Some l))
          end
      end
  end.

Definition wallet_filter_locked_coinbase w (b_num : Z) : outcome WalletDb :=
  if b_num <=? default 0 (last_locked_coinbase_filter_b_num w) then Ret w
  else
    let w := w <| last_locked_coinbase_filter_b_num := Some b_num |> in
    let locked_coinbase := filter (λ kv, b_num < kv.2) <$> get_locked_coinbase w in
    let! r := store_locked_coinbase w locked_coinbase in
    Ret (set_locked_coinbase r.2 r.1).
End wallet.

(** ** Documented behaviour of the functions called *)
Definition valid_key `{NaomCrypto} (k : list Z) : Prop := key_from_slice k = Some k.

Class NaomCryptoLaws `{NaomCrypto} : Prop := {
  nonce_slice n : length n = NONCE_LEN → nonce_from_slice n = Some n;
  key_slice l k : key_from_slice l = Some k → valid_key k;
  derive_key_length p s : is_Some (key_from_slice (derive_key p s));
  open_seal m n k : length n = NONCE_LEN → valid_key k → ∃ c, seal m n k = Some c ∧ open_box c n k = Some m;
}.

Definition reserved_keys : list string := [KNOWN_ADDRESS_KEY; FUND_KEY; LOCKED_COINBASE_KEY; MASTER_KEY_STORE_KEY].

(** A string that is no key of something else. *)
Definition addr_key `{Bincode OutPoint} (a : string) : Prop :=
  a ∉ reserved_keys ∧ ∀ op : OutPoint, string_codes a ≠ serialize op.

(** Addresses are hexadecimal hashes; a serialized outpoint starts with the
    length of its hash. *)
Class WalletKeysLaws `{NaomCrypto, Bincode OutPoint} : Prop := {
  out_point_serialize_inj :: BincodeLaws OutPoint;
  out_point_not_reserved (op : OutPoint) s : s ∈ reserved_keys → string_codes s ≠ serialize op;
  constructed_addr_key pk v : addr_key (construct_address_for pk v);
}.

(** ** Sums over lists of outputs *)
Section sums.
Context `{NaomAssets, !AssetMeasure}.

Definition list_qty (k : AssetKind) (l : list (OutPoint * Asset)) : Z :=
  foldr (λ tx s, kind_qty k tx.2 + s) 0 l.

Lemma list_qty_cons k tx l : list_qty k (tx :: l) = kind_qty k tx.2 + list_qty k l.
Proof. done. Qed.

Lemma list_qty_app k l1 l2 : list_qty k (l1 ++ l2) = list_qty k l1 + list_qty k l2.
Proof. induction l1 as [|tx l1 IH]; [done|]. cbn [app]. rewrite !list_qty_cons, IH. lia. Qed.

Lemma list_qty_perm k l1 l2 : l1 ≡ₚ l2 → list_qty k l1 = list_qty k l2.
Proof. induction 1; rewrite ?list_qty_cons; lia. Qed.

Lemma asset_sum_list k m : asset_sum k m = list_qty k (bt_iter m).
Proof.
  rewrite (list_qty_perm k _ _ (bt_iter_perm m)). unfold asset_sum. rewrite map_fold_foldr. unfold list_qty.
  induction (map_to_list m) as [|[op a] l IH]; cbn; [done|]. by rewrite IH.
Qed.

Lemma list_qty_nonneg `{!NaomAssetsLaws} k l : 0 ≤ list_qty k l.
Proof. induction l as [|tx l IH]; [done|]. rewrite list_qty_cons. pose proof (kind_qty_nonneg k tx.2). lia. Qed.

Lemma list_qty_filter k l : list_qty k (filter (λ tx, asset_kind tx.2 = k) l) = list_qty k l.
Proof.
  induction l as [|tx l IH]; [done|]. rewrite filter_cons. case_decide as D; rewrite ?list_qty_cons, IH; [done|].
  unfold kind_qty. by rewrite decide_False.
Qed.

Lemma list_qty_other k k' l : k ≠ k' → Forall (λ tx, asset_kind tx.2 = k') l → list_qty k l = 0.
Proof.
  intros Hne. induction 1 as [|tx l E _ IH]; [done|]. rewrite list_qty_cons, IH. unfold kind_qty.
  by rewrite decide_False by congruence.
Qed.
End sums.

(** ** What the database holds *)
Section contents.
Context `{NaomAssets, !AssetMeasure, !NaomAssetsLaws}.
Context `{NaomCrypto, !NaomCryptoLaws}.
Context `{Bincode (FundStoreOf AssetValues), !BincodeLaws (FundStoreOf AssetValues)}.
Context `{Bincode (gset string), !BincodeLaws (gset string)}.
Context `{Bincode AddressStore, !BincodeLaws AddressStore}.
Context `{Bincode TransactionStore, !BincodeLaws TransactionStore}.
Context `{Bincode OutPoint, !WalletKeysLaws}.
Implicit Types m : gmap (list Z) (list Z).

Definition fund_of m : option FundStore :=
  match m !! string_codes FUND_KEY with Some l => deserialize l | None => Some FundStore_default end.
Definition known_of m : option (gset string) :=
  match m !! string_codes KNOWN_ADDRESS_KEY with Some l => deserialize l | None => Some ∅ end.
Definition tx_addr m (op : OutPoint) : option string :=
  key_address <$> (m !! serialize op ≫= deserialize).
Definition readable m (ek : list Z) (a : string) (keys : AddressStore) : Prop :=
  ∃ s d, m !! string_codes a = Some s ∧ decrypt_store s ek = Ret d ∧ deserialize d = Some keys.

(** Unspent outputs belong to known addresses, whose keys can be read; the
    address of a spent output is on record until the clean-up. *)
Record content_wf (ek : list Z) m (fs : FundStore) (known : gset string) : Prop := {
  cw_fund : fund_of m = Some fs;
  cw_known : known_of m = Some known;
  cw_fund_wf : fund_wf fs;
  cw_disj : fs_transactions fs ##ₘ fs_spent fs;
  cw_tx op : is_Some (fs_transactions fs !! op) → ∃ a, tx_addr m op = Some a ∧ a ∈ known;
  cw_spent op : is_Some (fs_spent fs !! op) → ∃ a, tx_addr m op = Some a ∧ addr_key a;
  cw_addr a : a ∈ known → addr_key a ∧ ∃ keys, readable m ek a keys;
}.

(** The wallet holds the funds [fs] and the addresses [known]. *)
Definition wallet_holds (w : WalletDb) (fs : FundStore) (known : gset string) : Prop :=
  valid_key (encryption_key w) ∧
  ∃ m, db_at DB_COL_DEFAULT (wallet_db w) m ∧ content_wf (encryption_key w) m fs known.

Lemma get_fund_store_at db m : db_at DB_COL_DEFAULT db m → get_fund_store db = unwrap (fund_of m).
Proof.
  intros Hm. unfold get_fund_store, get_fund_store_err, fund_of. rewrite (db_at_get _ _ m) by done. cbn.
  by destruct (m !! _).
Qed.

Lemma get_known_at db m : db_at DB_COL_DEFAULT db m → get_known_key_address db = unwrap (known_of m).
Proof.
  intros Hm. unfold get_known_key_address, known_of. rewrite (db_at_get _ _ m) by done. cbn.
  by destruct (m !! _).
Qed.

Lemma get_transaction_store_at db m op a : db_at DB_COL_DEFAULT db m → tx_addr m op = Some a →
  get_transaction_store db op = Ret (mkTransactionStore a).
Proof.
  intros Hm Ha. unfold get_transaction_store, tx_addr in *. rewrite (db_at_get _ _ m) by done.
  destruct (m !! serialize op) as [s|]; [|done]. cbn in Ha |- *.
  destruct (deserialize s) as [[a']|]; cbn in Ha |- *; by simplify_eq.
Qed.

Lemma get_address_store_at db m ek a keys : db_at DB_COL_DEFAULT db m → readable m ek a keys →
  get_address_store db a ek = Ret keys.
Proof.
  intros Hm (s & d & Hs & Hd & Hk). unfold get_address_store. rewrite (db_at_get _ _ m), Hs by done.
  cbn. rewrite Hd. cbn. by rewrite Hk.
Qed.

(** Encrypting and decrypting under a nonce of the right length. *)
Lemma encrypt_decrypt nonce store ek : length nonce = NONCE_LEN → valid_key ek →
  ∃ s, encrypt_store nonce store ek = Ret s ∧ decrypt_store s ek = Ret store.
Proof.
  intros Hn Hk. unfold encrypt_store, decrypt_store.
  destruct (open_seal store nonce ek Hn Hk) as (c & -> & Ho). cbn. eexists. split; [reflexivity|].
  rewrite decide_False by (rewrite length_app; lia).
  rewrite <-Hn, take_app_length, drop_app_length, (nonce_slice nonce Hn). cbn. by rewrite Ho.
Qed.

(** Keys of different things differ. *)
Lemma reserved_codes s a : s ∈ reserved_keys → addr_key a → string_codes s ≠ string_codes a.
Proof. intros Hs [Ha _] E%(inj string_codes). by subst. Qed.

(** Reading after writes that touch other keys. *)
Lemma tx_addr_kv m l op : serialize op ∉ l.*1 → tx_addr (foldl kv_op m l) op = tx_addr m op.
Proof. intros Hn. unfold tx_addr. by rewrite kv_ops_other. Qed.
Lemma readable_kv m l ek a keys : string_codes a ∉ l.*1 → readable m ek a keys → readable (foldl kv_op m l) ek a keys.
Proof. intros Hn (s & d & Hs & ?). exists s, d. by rewrite kv_ops_other. Qed.

Lemma fund_reserved : FUND_KEY ∈ reserved_keys. Proof. right; left. Qed.
Lemma known_reserved : KNOWN_ADDRESS_KEY ∈ reserved_keys. Proof. left. Qed.
Lemma locked_reserved : LOCKED_COINBASE_KEY ∈ reserved_keys. Proof. right; right; left. Qed.
Lemma fund_known_codes : string_codes FUND_KEY ≠ string_codes KNOWN_ADDRESS_KEY. Proof. done. Qed.
Lemma fund_locked_codes : string_codes FUND_KEY ≠ string_codes LOCKED_COINBASE_KEY. Proof. done. Qed.
Lemma known_locked_codes : string_codes KNOWN_ADDRESS_KEY ≠ string_codes LOCKED_COINBASE_KEY. Proof. done. Qed.
Lemma fund_op (op : OutPoint) : string_codes FUND_KEY ≠ serialize op.
Proof. apply out_point_not_reserved, fund_reserved. Qed.
Lemma known_op (op : OutPoint) : string_codes KNOWN_ADDRESS_KEY ≠ serialize op.
Proof. apply out_point_not_reserved, known_reserved. Qed.
Lemma locked_op (op : OutPoint) : string_codes LOCKED_COINBASE_KEY ≠ serialize op.
Proof. apply out_point_not_reserved, locked_reserved. Qed.
End contents.
#[export] Hint Resolve fund_reserved known_reserved locked_reserved : znp.

(** ** Each operation keeps what the wallet holds *)
Section operations.
Context `{NaomAssets, !AssetMeasure, !NaomAssetsLaws}.
Context `{NaomCrypto, !NaomCryptoLaws}.
Context `{Bincode (FundStoreOf AssetValues), !BincodeLaws (FundStoreOf AssetValues)}.
Context `{Bincode (gset string), !BincodeLaws (gset string)}.
Context `{Bincode AddressStore, !BincodeLaws AddressStore}.
Context `{Bincode TransactionStore, !BincodeLaws TransactionStore}.
Context `{Bincode OutPoint, !WalletKeysLaws}.
Implicit Types (m : gmap (list Z) (list Z)) (w : WalletDb).

(** Writing only a new fund store. *)
Lemma content_wf_fund ek m fs known fs' l : content_wf ek m fs known → fund_wf fs' →
  fs_transactions fs' ##ₘ fs_spent fs' →
  Forall (λ o, ∃ op a, o = (serialize op, Some (serialize (mkTransactionStore a))) ∧ a ∈ known) l →
  (∀ op, is_Some (fs_transactions fs' !! op) → is_Some (fs_transactions fs !! op) ∨ serialize op ∈ l.*1) →
  (∀ op, is_Some (fs_spent fs' !! op) →
    is_Some (fs_spent fs !! op) ∨ is_Some (fs_transactions fs !! op) ∨ serialize op ∈ l.*1) →
  content_wf ek (foldl kv_op m (l ++ [(string_codes FUND_KEY, Some (serialize fs'))])) fs' known.
Proof.
  intros Hc Hwf Hd Hl Ht Hs.
  assert (Hk : ∀ o, o ∈ (l ++ [(string_codes FUND_KEY, Some (serialize fs'))]).*1 →
    o = string_codes FUND_KEY ∨ ∃ op : OutPoint, o = serialize op).
  { intros o. rewrite fmap_app, elem_of_app. cbn. rewrite list_elem_of_singleton.
    intros [(e & -> & He)%list_elem_of_fmap| ->]; [|by left]. right.
    rewrite Forall_forall in Hl. destruct (Hl e He) as (op & a & -> & _). by exists op. }
  assert (Hop : ∀ op : OutPoint, serialize op ∈ l.*1 →
    ∃ a, tx_addr (foldl kv_op m (l ++ [(string_codes FUND_KEY, Some (serialize fs'))])) op = Some a ∧ a ∈ known).
  { intros op Hin. destruct (kv_ops_in m l _ Hin) as (v & Hv & E). rewrite Forall_forall in Hl.
    destruct (Hl _ Hv) as (op' & a & [= _ ->] & Ha). exists a. split; [|done].
    rewrite foldl_app. unfold tx_addr. cbn [foldl]. unfold kv_op at 1. cbn [fst snd].
    rewrite lookup_insert_ne by apply fund_op. rewrite E. cbn. by rewrite deserialize_serialize. }
  assert (Hold : ∀ op a, tx_addr m op = Some a → a ∈ known →
    ∃ a, tx_addr (foldl kv_op m (l ++ [(string_codes FUND_KEY, Some (serialize fs'))])) op = Some a ∧ a ∈ known).
  { intros op a Ha Hak. destruct (decide (serialize op ∈ l.*1)) as [Hin|Hn]; [by apply Hop|]. exists a. split; [|done].
    rewrite tx_addr_kv; [done|]. rewrite fmap_app, not_elem_of_app. split; [done|]. cbn.
    intros E%list_elem_of_singleton. by apply (fund_op op). }
  destruct Hc as [Hf Hkn Hfw Hdj Htx Hsp Had]. split; [| |done|done| | |].
  - unfold fund_of. rewrite (kv_ops_last m l (string_codes FUND_KEY) (Some _) []) by by intros ?%elem_of_nil.
    apply deserialize_serialize.
  - unfold known_of in *. rewrite kv_ops_other; [done|]. intros [E|[op E]]%Hk; [done|].
    by apply (known_op op).
  - intros op [Ho|Ho]%Ht; [|by apply Hop]. destruct (Htx op Ho) as (a & Ha & Hak). by eapply Hold.
  - intros op Hop'. destruct (decide (serialize op ∈ l.*1)) as [Hin|Hn].
    { destruct (Hop op Hin) as (a & -> & Ha). exists a. split; [done|by apply Had]. }
    rewrite tx_addr_kv.
    + apply Hs in Hop' as [Ho|[Ho|Ho]]; [by apply Hsp| |done].
      destruct (Htx op Ho) as (a & -> & Ha). exists a. split; [done|by apply Had].
    + rewrite fmap_app, not_elem_of_app. split; [done|]. cbn.
      intros E%list_elem_of_singleton. by apply (fund_op op).
  - intros a Ha. destruct (Had a Ha) as (Hka & keys & Hr). split; [done|]. exists keys.
    apply readable_kv; [|done]. intros [E|(op & E)]%Hk.
    + symmetry in E. revert E. apply reserved_codes; [auto with znp|done].
    + destruct Hka as [_ Hka]. by apply (Hka op).
Qed.

(** Spending distinct unspent outputs. *)
Lemma spend_tx_ret fs op a : fs_transactions fs !! op = Some a → fs_spent fs !! op = None →
  ∃ fs', spend_tx fs op = Ret fs' ∧ fs_transactions fs' = delete op (fs_transactions fs) ∧
    fs_spent fs' = <[op := a]> (fs_spent fs).
Proof. intros Ha Hs. unfold spend_tx. rewrite Ha. cbn. rewrite Hs. by eexists. Qed.

Definition without (ops : list OutPoint) (txs : gmap OutPoint Asset) : gmap OutPoint Asset :=
  filter (λ kv, bool_decide (kv.1 ∈ ops) = false) txs.
Definition only (ops : list OutPoint) (txs : gmap OutPoint Asset) : gmap OutPoint Asset :=
  filter (λ kv, bool_decide (kv.1 ∈ ops) = true) txs.

Lemma lookup_without ops (txs : gmap OutPoint Asset) op : without ops txs !! op = if decide (op ∈ ops) then None else txs !! op.
Proof.
  unfold without. rewrite map_lookup_filter. destruct (txs !! op); cbn; [|by case_decide].
  case_decide as D; [by rewrite option_guard_False by by rewrite bool_decide_true|].
  by rewrite option_guard_True by by rewrite bool_decide_false.
Qed.
Lemma lookup_only ops (txs : gmap OutPoint Asset) op : only ops txs !! op = if decide (op ∈ ops) then txs !! op else None.
Proof.
  unfold only. rewrite map_lookup_filter. destruct (txs !! op); cbn; [|by case_decide].
  case_decide as D; [by rewrite option_guard_True by by rewrite bool_decide_true|].
  by rewrite option_guard_False by by rewrite bool_decide_false.
Qed.

Lemma spend_all_ret (ops : list OutPoint) fs : fund_wf fs → fs_transactions fs ##ₘ fs_spent fs → NoDup ops →
  (∀ op, op ∈ ops → is_Some (fs_transactions fs !! op)) →
  ∃ fs', ofold spend_tx fs ops = Ret fs' ∧ fund_wf fs' ∧
    fs_transactions fs' = without ops (fs_transactions fs) ∧
    fs_spent fs' = only ops (fs_transactions fs) ∪ fs_spent fs.
Proof.
  intros Hwf Hd Hnd. revert fs Hwf Hd. induction Hnd as [|op ops Hn Hnd IH]; intros fs Hwf Hd Hin; cbn [ofold].
  - exists fs. split_and!; [done|done|apply map_eq; intros k; by rewrite lookup_without|].
    apply map_eq. intros k. rewrite lookup_union, lookup_only. cbn. by destruct (fs_spent fs !! k).
  - destruct (Hin op) as [a Ha]; [by left|].
    assert (Hs : fs_spent fs !! op = None) by by eapply map_disjoint_Some_l.
    destruct (spend_tx_ret fs op a Ha Hs) as (fs1 & E1 & Ht1 & Hs1). rewrite E1. cbn [obind].
    destruct (IH fs1) as (fs' & E2 & Hwf' & Ht & Hsp).
    + by eapply spend_tx_wf.
    + rewrite Ht1, Hs1. apply map_disjoint_insert_r. split; [apply lookup_delete_eq|].
      by apply map_disjoint_delete_l.
    + intros op' Hop'. rewrite Ht1, lookup_delete_ne by (intros ->; done). apply Hin. by right.
    + exists fs'. split_and!; [done|done| |].
      * rewrite Ht, Ht1. apply map_eq. intros k. rewrite !lookup_without.
        destruct (decide (k = op)) as [->|Hne].
        { rewrite decide_False, (decide_True _ (P := op ∈ op :: ops)) by (done || by left). apply lookup_delete_eq. }
        rewrite lookup_delete_ne by done. repeat case_decide; rewrite ?elem_of_cons in *; naive_solver.
      * rewrite Hsp, Ht1, Hs1. apply map_eq. intros k. rewrite !lookup_union, !lookup_only.
        destruct (decide (k = op)) as [->|Hne].
        { rewrite decide_False, (decide_True _ (P := op ∈ op :: ops)) by (done || by left).
          by rewrite lookup_insert_eq, Ha, Hs. }
        rewrite lookup_delete_ne, lookup_insert_ne by done.
        repeat case_decide; rewrite ?elem_of_cons in *; naive_solver.
Qed.

Lemma ofold_fst {A B C : Type} (f : A → B → outcome A) (l : list (B * C)) a :
  ofold (λ a u, f a u.1) a l = ofold f a l.*1.
Proof. revert a; induction l as [|u l IH]; intros a; [done|]. cbn. destruct (f a u.1); [apply IH|done]. Qed.

Lemma wallet_holds_fun w fs1 fs2 kn1 kn2 : wallet_holds w fs1 kn1 → wallet_holds w fs2 kn2 → fs1 = fs2 ∧ kn1 = kn2.
Proof.
  intros (_ & m1 & Hm1 & Hc1) (_ & m2 & Hm2 & Hc2). pose proof (db_at_fun _ _ _ _ Hm1 Hm2) as ->.
  pose proof (cw_fund _ _ _ _ Hc1). pose proof (cw_fund _ _ _ _ Hc2).
  pose proof (cw_known _ _ _ _ Hc1). pose proof (cw_known _ _ _ _ Hc2). by simplify_eq.
Qed.

(** Consuming distinct unspent outputs. *)
Lemma consume_spec `{NaomPayments} w fs known tx_cons (tx_used : list (OutPoint * string)) :
  wallet_holds w fs known → NoDup tx_used.*1 → (∀ op, op ∈ tx_used.*1 → is_Some (fs_transactions fs !! op)) →
  ∃ w' fs', consume_inputs_for_payment w tx_cons tx_used = Ret (construct_payment_tx_ins tx_cons, w') ∧
    wallet_holds w' fs' known ∧ locked_coinbase w' = locked_coinbase w ∧
    fs_transactions fs' = without tx_used.*1 (fs_transactions fs) ∧
    fs_spent fs' = only tx_used.*1 (fs_transactions fs) ∪ fs_spent fs.
Proof.
  intros (Hk & m & Hm & Hc) Hnd Hin. unfold consume_inputs_for_payment.
  rewrite (get_fund_store_at _ m Hm), (cw_fund _ _ _ _ Hc). cbn [unwrap obind].
  rewrite ofold_fst.
  destruct (spend_all_ret tx_used.*1 fs) as (fs' & E1 & Hwf' & Ht & Hs); [by apply Hc|by apply Hc|done|done|].
  rewrite E1. cbn [obind]. unfold set_fund_store.
  destruct (batch_at_put _ _ _ [] (string_codes FUND_KEY) (serialize fs') (batch_at_writer _ _ _ Hm)) as (b & E2 & Hb).
  rewrite E2. cbn [obind]. destruct (batch_at_write _ _ _ _ _ Hm Hb) as (db' & E3 & Hm' & _). rewrite E3. cbn [obind].
  eexists _, fs'. split; [reflexivity|]. split; [|done]. split; [done|]. cbn. eexists. split; [exact Hm'|].
  change [(string_codes FUND_KEY, Some (serialize fs'))] with ([] ++ [(string_codes FUND_KEY, Some (serialize fs'))]).
  eapply content_wf_fund; [done|done| |done| |].
  - rewrite Ht, Hs. apply map_disjoint_spec. intros op x y. rewrite lookup_without, lookup_union, lookup_only.
    case_decide; [done|]. intros Ha Hb'. pose proof (cw_disj _ _ _ _ Hc) as Hd. rewrite map_disjoint_spec in Hd.
    destruct (fs_spent fs !! op) eqn:E; [by eapply Hd|done].
  - intros op. rewrite Ht, lookup_without. case_decide; [by intros [? ?]|by left].
  - intros op. rewrite Hs, lookup_union, lookup_only. case_decide as D.
    + right; left. by apply Hin.
    + intros [a Ha]. left. destruct (fs_spent fs !! op); [by eexists|done].
Qed.

(** A new address. *)
Lemma save_address_spec w fs known nonce address keys :
  wallet_holds w fs known → length nonce = NONCE_LEN → addr_key address →
  ∃ w', save_address_to_wallet w nonce address keys = Ret w' ∧ wallet_holds w' fs ({[address]} ∪ known) ∧
    wallet_get_address_store w' address = Ret keys ∧ locked_coinbase w' = locked_coinbase w.
Proof.
  intros (Hk & m & Hm & Hc) Hn Ha. unfold save_address_to_wallet.
  rewrite (get_known_at _ m Hm), (cw_known _ _ _ _ Hc). cbn [unwrap obind].
  unfold save_address_store_to_wallet.
  destruct (encrypt_decrypt nonce (serialize keys) (encryption_key w) Hn Hk) as (s & E0 & Hdec). rewrite E0. cbn [obind].
  destruct (batch_at_put _ _ _ [] (string_codes address) s (batch_at_writer _ _ _ Hm)) as (b & E1 & Hb).
  rewrite E1. cbn [obind]. unfold set_known_key_address. cbn [app] in Hb.
  destruct (batch_at_put _ _ _ _ (string_codes KNOWN_ADDRESS_KEY) (serialize ({[address]} ∪ known)) Hb) as (b2 & E2 & Hb2).
  rewrite E2. cbn [obind]. destruct (batch_at_write _ _ _ _ _ Hm Hb2) as (db' & E3 & Hm' & _). rewrite E3. cbn [obind].
  cbn [app] in Hm'. set (l := [(string_codes address, Some s); _]) in Hm'.
  pose proof (reserved_codes _ _ fund_reserved Ha) as Hfa. pose proof (reserved_codes _ _ known_reserved Ha) as Hka.
  assert (Hl : ∀ k, k ∈ l.*1 → k = string_codes address ∨ k = string_codes KNOWN_ADDRESS_KEY).
  { intros k. cbn. rewrite elem_of_cons, list_elem_of_singleton. done. }
  assert (Hop : ∀ op : OutPoint, serialize op ∉ l.*1).
  { intros op [E|E]%Hl; [by apply (proj2 Ha op)|by apply (known_op op)]. }
  assert (Hra : readable (foldl kv_op m l) (encryption_key w) address keys).
  { exists s, (serialize keys). split; [|split; [done|apply deserialize_serialize]].
    cbn. rewrite lookup_insert_ne by done. apply lookup_insert_eq. }
  eexists. split; [reflexivity|]. split_and!; [|by eapply get_address_store_at|done].
  split; [done|]. eexists. split; [exact Hm'|]. cbn [encryption_key]. destruct Hc as [Hf Hkn Hfw Hd Htx Hsp Had]. split; [| |done|done| | |].
  - unfold fund_of in *. rewrite kv_ops_other; [done|]. by intros [E|E]%Hl.
  - unfold known_of. cbn. rewrite lookup_insert_eq. apply deserialize_serialize.
  - intros op (a & Hta & Hin)%Htx. exists a. rewrite tx_addr_kv by apply Hop. split; [done|]. set_solver.
  - intros op Hop'. rewrite tx_addr_kv by apply Hop. by apply Hsp.
  - intros a Hin. destruct (decide (a = address)) as [->|Hne]; [split; [done|by exists keys]|].
    destruct (Had a) as (Hka' & keys' & Hr); [set_solver|]. split; [done|]. exists keys'.
    apply readable_kv; [|done]. intros [E|E]%Hl; [by apply (inj string_codes) in E|].
    symmetry in E. revert E. apply reserved_codes; [apply known_reserved|done].
Qed.

Lemma store_payment_address_spec w fs known nonce pk sk v :
  wallet_holds w fs known → length nonce = NONCE_LEN →
  let a := construct_address_for pk v in
  ∃ w', store_payment_address w nonce pk sk v = Ret (a, mkAddressStore pk sk v, w') ∧
    wallet_holds w' fs ({[a]} ∪ known) ∧
    wallet_get_address_store w' a = Ret (mkAddressStore pk sk v) ∧ locked_coinbase w' = locked_coinbase w.
Proof.
  intros Hw Hn a. unfold store_payment_address. fold a.
  destruct (save_address_spec w fs known nonce a (mkAddressStore pk sk v) Hw Hn) as (w' & E & Hw' & Hg & Hl).
  { apply constructed_addr_key. }
  rewrite E. cbn [obind]. eexists. split; [reflexivity|]. done.
Qed.
End operations.

(** ** Receiving payments *)
Notation Payment := (OutPoint * Asset * string * Z)%type (only parsing).

Section receiving.
Context `{NaomAssets, !AssetMeasure, !NaomAssetsLaws}.
Context `{NaomCrypto, !NaomCryptoLaws}.
Context `{Bincode (FundStoreOf AssetValues), !BincodeLaws (FundStoreOf AssetValues)}.
Context `{Bincode (gset string), !BincodeLaws (gset string)}.
Context `{Bincode AddressStore, !BincodeLaws AddressStore}.
Context `{Bincode TransactionStore, !BincodeLaws TransactionStore}.
Context `{Bincode OutPoint, !WalletKeysLaws}.
Context `{Bincode (gmap string Z)}.
Implicit Types (m : gmap (list Z) (list Z)) (w : WalletDb) (p : Payment).

Definition paid_asset p : Asset := with_fixed_hash p.1.1.2 p.1.1.1.

(** What one payment makes of the unspent outputs: a known output must come
    with the same asset. *)
Definition pay_one (txs : gmap OutPoint Asset) p : option (gmap OutPoint Asset) :=
  match txs !! p.1.1.1 with
  | Some old => if decide (old = paid_asset p) then Some txs else None
  | None => Some (<[p.1.1.1 := paid_asset p]> txs)
  end.
Fixpoint pay_all (txs : gmap OutPoint Asset) (payments : list Payment) : option (gmap OutPoint Asset) :=
  match payments with [] => Some txs | p :: payments => pay_one txs p ≫= λ txs, pay_all txs payments end.

Fixpoint pay_qty (k : AssetKind) (payments : list Payment) : Z :=
  match payments with [] => 0 | p :: payments => kind_qty k (paid_asset p) + pay_qty k payments end.

Lemma pay_qty_nonneg k l : 0 ≤ pay_qty k l.
Proof. induction l as [|p l IH]; cbn; [done|]. pose proof (kind_qty_nonneg k (paid_asset p)). lia. Qed.

Lemma store_tx_exact fs p : fund_wf fs →
  match pay_one (fs_transactions fs) p with
  | None => store_tx fs p.1.1.1 (paid_asset p) = Panic
  | Some txs => ∃ fs', store_tx fs p.1.1.1 (paid_asset p) = Ret fs' ∧ fs_transactions fs' = txs ∧
      fs_spent fs' = fs_spent fs
  end.
Proof.
  intros Hwf. unfold pay_one, store_tx. cbv zeta.
  set (fs1 := if page_is_full (fs_pages fs) then _ else _).
  assert (Ht : fs_transactions fs1 = fs_transactions fs) by (subst fs1; by case_match).
  assert (Hs : fs_spent fs1 = fs_spent fs) by (subst fs1; by case_match). clearbody fs1. rewrite Ht.
  rewrite (with_hash_idem (paid_asset p)) by apply fixed_with_hash.
  destruct (fs_transactions fs !! p.1.1.1) as [old|] eqn:E.
  - destruct (decide (old = paid_asset p)) as [->|Hne]; [|by rewrite decide_True].
    rewrite decide_False by auto. eexists. split; [reflexivity|]. cbn. rewrite Ht. split; [by apply insert_id|done].
  - eexists. split; [reflexivity|]. cbn. by rewrite Ht.
Qed.

Lemma paid_asset_idem p : with_fixed_hash (paid_asset p) p.1.1.1 = paid_asset p.
Proof. apply with_hash_idem, fixed_with_hash. Qed.

Lemma pay_one_sum txs p txs' k : pay_one txs p = Some txs' →
  asset_sum k txs ≤ asset_sum k txs' ≤ asset_sum k txs + kind_qty k (paid_asset p).
Proof.
  unfold pay_one. pose proof (kind_qty_nonneg k (paid_asset p)).
  destruct (txs !! p.1.1.1) eqn:E; [case_decide; intros [= <-]; lia|]. intros [= <-].
  rewrite asset_sum_insert by done. lia.
Qed.

Lemma store_payment_wf fs p fs' : fund_wf fs →
  (∀ k, is_u64 (asset_sum k (fs_transactions fs) + kind_qty k (paid_asset p))) →
  store_tx fs p.1.1.1 (paid_asset p) = Ret fs' → fund_wf fs'.
Proof.
  intros Hwf Hb. apply store_tx_wf; [done|]. intros _. rewrite paid_asset_idem. cbv zeta.
  specialize (Hb (asset_kind (paid_asset p))). unfold kind_qty in Hb. by rewrite decide_True in Hb.
Qed.

(** What the loop over the payments does. *)
Definition tx_ops (payments : list Payment) : list (list Z * option (list Z)) :=
  map (λ p, (serialize p.1.1.1, Some (serialize (mkTransactionStore p.1.2)))) payments.
Definition lock_all (b_num : Z) (lc : gmap string Z) (payments : list Payment) : gmap string Z :=
  foldl (λ lc p, if b_num <? p.2 then <[t_hash p.1.1.1 := p.2]> lc else lc) lc payments.

Lemma save_usable_loop db b_num payments fs b l lc : fund_wf fs → batch_at DB_COL_DEFAULT db b l →
  (∀ k, is_u64 (asset_sum k (fs_transactions fs) + pay_qty k payments)) →
  match pay_all (fs_transactions fs) payments with
  | None => ofold (save_usable_step b_num) (fs, b, lc) payments = Panic
  | Some txs => ∃ fs' b', ofold (save_usable_step b_num) (fs, b, lc) payments = Ret (fs', b', lock_all b_num lc payments) ∧
      fund_wf fs' ∧ fs_transactions fs' = txs ∧ fs_spent fs' = fs_spent fs ∧
      batch_at DB_COL_DEFAULT db b' (l ++ tx_ops payments)
  end.
Proof.
  revert fs b l lc. induction payments as [|p payments IH]; intros fs b l lc Hwf Hb Hq.
  { cbn. exists fs, b. by rewrite app_nil_r. }
  cbn [pay_all ofold]. pose proof (store_tx_exact fs p Hwf) as Hst.
  assert (Es : save_usable_step b_num (fs, b, lc) p =
    let! fund_store := store_tx fs p.1.1.1 (paid_asset p) in
    let! batch := save_transaction_to_wallet b p.1.1.1 (mkTransactionStore p.1.2) in
    Ret (fund_store, batch, lock_all b_num lc [p])) by by destruct p as [[[op a] ka] lt].
  rewrite Es. destruct (pay_one (fs_transactions fs) p) as [txs|] eqn:Ep; cbn [mbind option_bind]; [|by rewrite Hst].
  destruct Hst as (fs1 & E1 & Ht1 & Hs1). rewrite E1. cbn [obind].
  destruct (batch_at_put _ _ _ _ (serialize p.1.1.1) (serialize (mkTransactionStore p.1.2)) Hb) as (b1 & E2 & Hb1).
  unfold save_transaction_to_wallet. rewrite E2. cbn [obind].
  assert (Hwf1 : fund_wf fs1).
  { eapply store_payment_wf; [done| |done]. intros k. specialize (Hq k). cbn in Hq.
    pose proof (pay_qty_nonneg k payments). pose proof (kind_qty_nonneg k (paid_asset p)).
    pose proof (asset_sum_nonneg k (fs_transactions fs)). unfold is_u64 in *. lia. }
  specialize (IH fs1 b1 _ (lock_all b_num lc [p]) Hwf1 Hb1). rewrite Ht1 in IH.
  destruct (pay_all txs payments) as [txs'|] eqn:Ea.
  - destruct IH as (fs' & b' & E3 & Hwf' & Ht' & Hs' & Hb').
    { intros k. specialize (Hq k). cbn in Hq. pose proof (pay_one_sum _ _ _ k Ep).
      pose proof (pay_qty_nonneg k payments). pose proof (asset_sum_nonneg k (fs_transactions fs)).
      unfold is_u64 in *. lia. }
    exists fs', b'. rewrite E3. split; [done|]. split_and!; [done|done|by rewrite Hs'|].
    cbn [tx_ops map]. by rewrite <-app_assoc in Hb'.
  - apply IH. intros k. specialize (Hq k). cbn in Hq. pose proof (pay_one_sum _ _ _ k Ep).
    pose proof (pay_qty_nonneg k payments). pose proof (asset_sum_nonneg k (fs_transactions fs)).
    unfold is_u64 in *. lia.
Qed.

Lemma pay_all_origin txs payments txs' op : pay_all txs payments = Some txs' → is_Some (txs' !! op) →
  is_Some (txs !! op) ∨ op ∈ map (λ p, p.1.1.1) payments.
Proof.
  revert txs; induction payments as [|p payments IH]; intros txs; cbn [pay_all]; [intros [= ->]; by left|].
  destruct (pay_one txs p) as [txs1|] eqn:Ep; [|done]. cbn [mbind option_bind]. intros E Hop.
  destruct (IH txs1 E Hop) as [Ho|Ho]; [|right; by apply list_elem_of_further]. unfold pay_one in Ep.
  destruct (txs !! p.1.1.1); [case_decide; simplify_eq; by left|]. simplify_eq.
  destruct (decide (op = p.1.1.1)) as [->|Hne]; [right; apply list_elem_of_here|].
  rewrite lookup_insert_ne in Ho by done. by left.
Qed.
Lemma pay_all_kept txs payments txs' op a : pay_all txs payments = Some txs' → txs !! op = Some a → txs' !! op = Some a.
Proof.
  revert txs; induction payments as [|p payments IH]; intros txs; cbn [pay_all]; [by intros [= ->]|].
  destruct (pay_one txs p) as [txs1|] eqn:Ep; [|done]. cbn [mbind option_bind]. intros E Hop. apply (IH txs1); [done|].
  unfold pay_one in Ep. destruct (txs !! p.1.1.1) eqn:E1; [by case_decide; simplify_eq|]. simplify_eq.
  rewrite lookup_insert_ne; [done|congruence].
Qed.

(** Payments to known addresses, none of them an output already spent. *)
Lemma save_usable_spec w fs known payments b_num : wallet_holds w fs known →
  let mine := filter (λ p, p.1.2 ∈ known) payments in
  (∀ k, is_u64 (asset_sum k (fs_transactions fs) + pay_qty k mine)) →
  (∀ p, p ∈ mine → fs_spent fs !! p.1.1.1 = None) →
  match pay_all (fs_transactions fs) mine with
  | None => save_usable_payments_to_wallet w payments b_num = Panic
  | Some txs => ∃ w' fs', save_usable_payments_to_wallet w payments b_num = Ret (mine, w') ∧
      wallet_holds w' fs' known ∧ fs_transactions fs' = txs ∧ fs_spent fs' = fs_spent fs ∧
      locked_coinbase w' = Some (lock_all b_num (default ∅ (locked_coinbase w)) mine)
  end.
Proof.
  intros (Hk & m & Hm & Hc) mine Hq Hsp. unfold save_usable_payments_to_wallet.
  rewrite (get_fund_store_at _ m Hm), (cw_fund _ _ _ _ Hc), (get_known_at _ m Hm), (cw_known _ _ _ _ Hc).
  cbn [unwrap obind]. fold mine. unfold get_locked_coinbase.
  pose proof (save_usable_loop (wallet_db w) b_num mine fs (batch_writer (wallet_db w)) []
    (default ∅ (locked_coinbase w)) (cw_fund_wf _ _ _ _ Hc) (batch_at_writer _ _ _ Hm) Hq) as Hl.
  destruct (pay_all (fs_transactions fs) mine) as [txs|] eqn:Ep; [|by rewrite Hl].
  destruct Hl as (fs' & b' & E1 & Hwf' & Ht & Hs & Hb). rewrite E1. cbn [obind]. cbn [app] in Hb.
  destruct (batch_at_put _ _ _ _ (string_codes FUND_KEY) (serialize fs') Hb) as (b2 & E2 & Hb2).
  unfold set_fund_store. rewrite E2. cbn [obind].
  destruct (batch_at_write _ _ _ _ _ Hm Hb2) as (db' & E3 & Hm' & _). rewrite E3. cbn [obind].
  set (lc := lock_all b_num (default ∅ (locked_coinbase w)) mine).
  destruct (db_at_put _ _ _ (string_codes LOCKED_COINBASE_KEY) (serialize lc) Hm') as (db2 & E4 & Hm2).
  unfold store_locked_coinbase, set_db_value. cbn [wallet_db setter]. rewrite E4. cbn [obind].
  eexists _, fs'. split; [reflexivity|]. split; [|done]. split; [done|]. eexists. split; [exact Hm2|].
  assert (Hc' : content_wf (encryption_key w)
    (foldl kv_op m (tx_ops mine ++ [(string_codes FUND_KEY, Some (serialize fs'))])) fs' known).
  { assert (Hop : ∀ op, op ∈ map (λ p, p.1.1.1) mine → serialize op ∈ (tx_ops mine).*1).
    { intros op (p & -> & Hp)%list_elem_of_fmap. unfold tx_ops. rewrite <-list_fmap_compose.
      apply list_elem_of_fmap. by exists p. }
    eapply content_wf_fund; [done|done| | | |].
    - rewrite Ht, Hs. apply map_disjoint_spec. intros op x y Hx Hy.
      destruct (pay_all_origin _ _ _ op Ep) as [[z Hz]|Hin]; [by eexists| |].
      + pose proof (cw_disj _ _ _ _ Hc) as Hd. rewrite map_disjoint_spec in Hd. by eapply Hd.
      + apply list_elem_of_fmap in Hin as (p & -> & Hp). by rewrite Hsp in Hy.
    - apply Forall_forall. intros o (p & -> & Hp)%list_elem_of_fmap. eexists _, _. split; [reflexivity|].
      by apply list_elem_of_filter in Hp as [? _].
    - intros op Ho. rewrite Ht in Ho. destruct (pay_all_origin _ _ _ op Ep Ho); [by left|right; by apply Hop].
    - intros op Ho. rewrite Hs in Ho. by left. }
  clear -Hc' H10 H4. destruct Hc' as [Hf Hkn Hfw Hd Htx Hs Had]. cbn [encryption_key setter set_locked_coinbase].
  set (m' := foldl kv_op m _) in *. clearbody m'.
  assert (Hnl : ∀ op : OutPoint, tx_addr (<[string_codes LOCKED_COINBASE_KEY := serialize lc]> m') op = tx_addr m' op).
  { intros op. unfold tx_addr. by rewrite lookup_insert_ne by apply locked_op. }
  split; [| |done|done| | |].
  - unfold fund_of in *. by rewrite lookup_insert_ne by done.
  - unfold known_of in *. by rewrite lookup_insert_ne by done.
  - intros op. rewrite Hnl. apply Htx.
  - intros op. rewrite Hnl. apply Hs.
  - intros a Ha. destruct (Had a Ha) as (Hka & keys & s & d & Hr & ?). split; [done|]. exists keys, s, d.
    rewrite lookup_insert_ne; [done|]. apply reserved_codes; [apply locked_reserved|done].
Qed.
End receiving.

(** A prefix of the first elements that satisfy a condition comes from a
    prefix of the list. *)
Lemma filter_snoc_prefix {A : Type} (P : A → Prop) `{!∀ x, Decision (P x)} (l l' : list A) (x : A) :
  filter P l = l' ++ [x] → ∃ l1 l2 : list A, l = l1 ++ x :: l2 ∧ filter P l1 = l' ∧ filter P l2 = [].
Proof.
  revert l'; induction l as [|y l IH]; intros l'; [by destruct l'|]. rewrite filter_cons. case_decide as D.
  - destruct l' as [|z l']; cbn.
    + intros [= -> E]. exists [], l. by rewrite E.
    + intros [= -> E]. destruct (IH l' E) as (l1 & l2 & -> & E1 & E2). exists (z :: l1), l2.
      by rewrite filter_cons, decide_True, E1.
  - intros E. destruct (IH l' E) as (l1 & l2 & -> & E1 & E2). exists (y :: l1), l2.
    by rewrite filter_cons, decide_False.
Qed.

(** ** Selecting the inputs of a payment *)
Section selecting.
Context `{NaomAssets, !AssetMeasure, !NaomAssetsLaws}.
Context `{NaomCrypto, !NaomCryptoLaws}.
Context `{Bincode (FundStoreOf AssetValues), !BincodeLaws (FundStoreOf AssetValues)}.
Context `{Bincode (gset string), !BincodeLaws (gset string)}.
Context `{Bincode AddressStore, !BincodeLaws AddressStore}.
Context `{Bincode TransactionStore, !BincodeLaws TransactionStore}.
Context `{Bincode OutPoint, !WalletKeysLaws}.
Implicit Types (w : WalletDb) (l : list (OutPoint * Asset)).

(** The constructor signs the outpoint with the key of its address. *)
Definition signed_input w (op : OutPoint) (addr : string) (tc : TxConstructor) : Prop :=
  ∃ keys, wallet_get_address_store w addr = Ret keys ∧
    tc = mkTxConstructor op [sign_detached (string_codes (construct_tx_in_signable_hash op)) (secret_key keys)]
           [public_key keys] (address_version keys).

(** Every output of [l] gives an input. *)
Definition inputs_of w l (cons : list TxConstructor) (used : list (OutPoint * string)) : Prop :=
  used.*1 = l.*1 ∧ Forall2 (λ u tc, get_transaction_address w u.1 = Ret u.2 ∧ signed_input w u.1 u.2 tc) used cons.

Lemma inputs_of_nil w : inputs_of w [] [] [].
Proof. split; [done|constructor]. Qed.

Lemma inputs_of_snoc w l cons used tx tc a : inputs_of w l cons used →
  get_transaction_address w tx.1 = Ret a → signed_input w tx.1 a tc →
  inputs_of w (l ++ [tx]) (cons ++ [tc]) (used ++ [(tx.1, a)]).
Proof.
  intros [E F] Ha Hs. split; [by rewrite !fmap_app, E|]. apply Forall2_app; [done|]. by repeat constructor.
Qed.

Lemma input_of w fs known op : wallet_holds w fs known → is_Some (fs_transactions fs !! op) →
  ∃ tc a, tx_constructor_from_prev_out (wallet_db w) op (encryption_key w) = Ret (tc, (op, a)) ∧
    get_transaction_address w op = Ret a ∧ signed_input w op a tc.
Proof.
  intros (Hk & m & Hm & Hc) Hop. destruct (cw_tx _ _ _ _ Hc op Hop) as (a & Ha & Hin).
  destruct (cw_addr _ _ _ _ Hc a Hin) as (_ & keys & Hr).
  pose proof (get_transaction_store_at _ _ _ _ Hm Ha) as Et. pose proof (get_address_store_at _ _ _ _ _ Hm Hr) as Ea.
  unfold tx_constructor_from_prev_out. rewrite Et. cbn [obind key_address]. rewrite Ea. cbn [obind].
  eexists _, a. split; [reflexivity|]. split.
  - unfold get_transaction_address, wallet_get_transaction_store. by rewrite Et.
  - by exists keys.
Qed.

(** One round of a selection loop. *)
Lemma add_input_spec w fs known k l0 tx cons made used : wallet_holds w fs known →
  is_Some (fs_transactions fs !! tx.1) → asset_kind made = k → is_u64 (asset_qty made + kind_qty k tx.2) →
  inputs_of w l0 cons used →
  ∃ cons' made' used', add_input (wallet_db w) (encryption_key w) (cons, made, used) tx = Ret (cons', made', used') ∧
    asset_kind made' = k ∧ asset_qty made' = asset_qty made + kind_qty k tx.2 ∧
    inputs_of w (l0 ++ filter (λ tx, asset_kind tx.2 = k) [tx]) cons' used'.
Proof.
  intros Hw Hop Hk Hq Hi. unfold add_input, kind_qty in *. rewrite filter_cons.
  destruct (decide (asset_kind tx.2 = k)) as [D|D].
  - destruct (add_assign_same made tx.2) as (c & -> & Hck & Hcq); [congruence|done|].
    destruct (input_of w fs known tx.1 Hw Hop) as (tc & a & -> & Ha & Hs). cbn [obind fst snd].
    eexists _, _, _. split; [reflexivity|]. split_and!; [by rewrite Hck|by rewrite Hcq|].
    by apply inputs_of_snoc.
  - rewrite add_assign_other by congruence. eexists _, _, _. split; [reflexivity|].
    split_and!; [done|lia|]. by rewrite app_nil_r.
Qed.

(** The loop stops at the first prefix that is enough. *)
Lemma fetch_inputs_loop_spec w fs known req l l0 cons made used :
  wallet_holds w fs known → (∀ tx, tx ∈ l → is_Some (fs_transactions fs !! tx.1)) →
  asset_kind made = asset_kind req → is_u64 (asset_qty made + list_qty (asset_kind req) l) → inputs_of w l0 cons used →
  ∃ l1 l2 cons' made' used', l = l1 ++ l2 ∧
    fetch_inputs_loop (wallet_db w) req (encryption_key w) l (cons, made, used) = Ret (cons', made', used') ∧
    asset_kind made' = asset_kind req ∧ asset_qty made' = asset_qty made + list_qty (asset_kind req) l1 ∧
    inputs_of w (l0 ++ filter (λ tx, asset_kind tx.2 = asset_kind req) l1) cons' used' ∧
    (l2 = [] ∨ asset_qty req ≤ asset_qty made') ∧
    (∀ tx l1' l1'', l1 = (tx :: l1') ++ l1'' → l1'' ≠ [] →
      asset_qty made + list_qty (asset_kind req) (tx :: l1') < asset_qty req).
Proof.
  intros Hw. revert l0 cons made used. induction l as [|tx l IH]; intros l0 cons made used Hin Hk Hq Hi.
  { exists [], [], cons, made, used. cbn. rewrite app_nil_r, Z.add_0_r. split_and!; try done; by left. }
  rewrite list_qty_cons in Hq. pose proof (list_qty_nonneg (asset_kind req) l).
  pose proof (kind_qty_nonneg (asset_kind req) tx.2). pose proof (asset_qty_nonneg made).
  destruct (add_input_spec w fs known (asset_kind req) l0 tx cons made used) as (c1 & m1 & u1 & E1 & Hk1 & Hq1 & Hi1);
    [done|apply Hin; by left|done|unfold is_u64 in *; lia|done|].
  cbn [fetch_inputs_loop]. rewrite E1. cbn [obind fst snd].
  rewrite greater_or_equal_spec by done. destruct (bool_decide_reflect (asset_qty req ≤ asset_qty m1)) as [D|D].
  - exists [tx], l, c1, m1, u1. split_and!; [done|done|done| |done|by right|].
    + rewrite list_qty_cons, Hq1. cbn. lia.
    + intros tx' l1' l1'' [= <- E]. by destruct l1', l1''.
  - assert (Hin' : ∀ tx', tx' ∈ l → is_Some (fs_transactions fs !! tx'.1)) by (intros tx' ?; apply Hin; by right).
    destruct (IH (l0 ++ filter (λ tx, asset_kind tx.2 = asset_kind req) [tx]) c1 m1 u1 Hin' Hk1)
      as (l1 & l2 & c' & m' & u' & -> & E2 & Hk2 & Hq2 & Hi2 & Hstop & Hmin);
      [rewrite Hq1; unfold is_u64 in *; lia|done|].
    exists (tx :: l1), l2, c', m', u'. split_and!; [done|done|done| | |done|].
    + rewrite list_qty_cons. lia.
    + rewrite <-app_assoc, <-filter_app in Hi2. exact Hi2.
    + intros tx' l1' l1'' [= <- E] Hne. rewrite list_qty_cons. destruct l1' as [|tx2 l1'].
      * cbn. lia.
      * cbn [app] in E. pose proof (Hmin tx2 l1' l1'' E Hne) as Hm. lia.
Qed.

(** The outputs that may be spent now. *)
Definition spendable w (fs : FundStore) : gmap OutPoint Asset := unlocked (get_locked_coinbase w) (fs_transactions fs).

Lemma spendable_sub w fs op a : spendable w fs !! op = Some a →
  fs_transactions fs !! op = Some a ∧ is_locked (get_locked_coinbase w) op = false.
Proof. unfold spendable, unlocked. by rewrite map_lookup_filter_Some. Qed.

(** What a selection of inputs for [req] is: distinct spendable outputs of the
    kind asked for, worth [made]; without the last one it is not enough. *)
Record selection w (fs : FundStore) (req made : Asset) l : Prop := {
  sel_spendable : Forall (λ tx, spendable w fs !! tx.1 = Some tx.2 ∧ asset_kind tx.2 = asset_kind req) l;
  sel_distinct : NoDup l.*1;
  sel_kind : asset_kind made = asset_kind req;
  sel_qty : asset_qty made = list_qty (asset_kind req) l;
  sel_enough : asset_qty req ≤ asset_qty made;
  sel_minimal l' tx : l = l' ++ [tx] → l' ≠ [] → list_qty (asset_kind req) l' < asset_qty req;
}.

Lemma fund_of_fetch w fs known : wallet_holds w fs known →
  get_fund_store (wallet_db w) = Ret fs.
Proof. intros (_ & m & Hm & Hc). by rewrite (get_fund_store_at _ m Hm), (cw_fund _ _ _ _ Hc). Qed.

Lemma wallet_fund_wf w fs known : wallet_holds w fs known → fund_wf fs.
Proof. intros (_ & m & Hm & Hc). by eapply cw_fund_wf. Qed.

Lemma fetch_inputs_spec w fs known req : wallet_holds w fs known →
  asset_qty req ≤ asset_sum (asset_kind req) (spendable w fs) →
  ∃ l cons made used, fetch_inputs_for_payment w req = Ret (inr (cons, made, used)) ∧
    selection w fs req made l ∧ inputs_of w l cons used.
Proof.
  intros Hw Hle. unfold fetch_inputs_for_payment, fetch_inputs_for_payment_from_db.
  rewrite (fund_of_fetch w fs known Hw). cbn [obind].
  destruct (filter_locked_spec fs (get_locked_coinbase w) (fund_wf_totals _ (wallet_fund_wf _ _ _ Hw)))
    as ((Ht & Hb & _) & _ & Et).
  set (fs' := (fs_filter_locked_coinbase fs (get_locked_coinbase w)).2) in *. cbv zeta.
  change (unlocked (get_locked_coinbase w) (fs_transactions fs)) with (spendable w fs) in Et.
  rewrite has_enough_spec, Ht, Et, bool_decide_true by done. cbn [negb].
  rewrite asset_sum_list in Hle. pose proof (default_of_type_spec req) as [Ek Eq].
  destruct (fetch_inputs_loop_spec w fs known req (bt_iter (spendable w fs)) [] [] (default_of_type req) [])
    as (l1 & l2 & cons & made & used & El & E & Hk & Hq & Hi & Hstop & Hmin).
  { done. }
  { intros [op a] Hin%elem_of_bt_iter. apply spendable_sub in Hin as [? _]. by eexists. }
  { done. }
  { rewrite Eq, <-asset_sum_list, <-Et. apply Hb. }
  { apply inputs_of_nil. }
  rewrite E. cbn [obind]. rewrite Eq, Z.add_0_l in Hq. setoid_rewrite Eq in Hmin.
  eexists _, cons, made, used. split; [reflexivity|]. split; [|exact Hi]. cbn [app]. split.
  - apply Forall_forall. intros [op a] [Hka Hin]%list_elem_of_filter. split; [|done].
    apply elem_of_bt_iter. rewrite El. by apply elem_of_app; left.
  - pose proof (bt_keys_NoDup (spendable w fs)) as Hnd. unfold bt_keys in Hnd. rewrite El, fmap_app in Hnd.
    apply NoDup_app in Hnd as [Hnd _]. eapply sublist_NoDup; [exact Hnd|]. apply fmap_sublist, sublist_filter.
  - done.
  - by rewrite Hq, list_qty_filter.
  - destruct Hstop as [->|?]; [|done]. rewrite Hq. rewrite app_nil_r in El. by rewrite <-El.
  - intros l' tx Ef Hne. destruct (filter_snoc_prefix _ _ _ _ Ef) as (p1 & p2 & E1 & E2 & E3).
    rewrite <-E2, list_qty_filter. destruct p1 as [|t p1]; [by subst|].
    pose proof (Hmin t p1 (tx :: p2) E1 ltac:(done)). lia.
Qed.

Lemma fetch_inputs_short w fs known req : wallet_holds w fs known →
  ¬ asset_qty req ≤ asset_sum (asset_kind req) (spendable w fs) →
  fetch_inputs_for_payment w req = Ret (inl InsufficientFundsError).
Proof.
  intros Hw D. unfold fetch_inputs_for_payment, fetch_inputs_for_payment_from_db.
  rewrite (fund_of_fetch w fs known Hw). cbn [obind].
  destruct (filter_locked_spec fs (get_locked_coinbase w) (fund_wf_totals _ (wallet_fund_wf _ _ _ Hw)))
    as ((Ht & _) & _ & Et).
  cbv zeta in Ht, Et |- *. rewrite has_enough_spec, Ht, Et. by rewrite bool_decide_false.
Qed.

(** Paying selects inputs exactly: when the spendable outputs of the kind
    asked for are worth enough, distinct ones of them are selected, each with
    an input signed by the key of its address, worth what is reported, enough,
    and not enough without the last; otherwise the error is
    [InsufficientFundsError].  It never panics. *)
Theorem fetch_inputs_exact w fs known req : wallet_holds w fs known →
  if decide (asset_qty req ≤ asset_sum (asset_kind req) (spendable w fs)) then
    ∃ l cons made used, fetch_inputs_for_payment w req = Ret (inr (cons, made, used)) ∧
      selection w fs req made l ∧ inputs_of w l cons used
  else fetch_inputs_for_payment w req = Ret (inl InsufficientFundsError).
Proof.
  intros Hw. case_decide; [by eapply fetch_inputs_spec|by eapply fetch_inputs_short].
Qed.
End selecting.

(** ** Paying *)
Section paying.
Context `{NaomAssets, !AssetMeasure, !NaomAssetsLaws}.
Context `{NaomCrypto, !NaomCryptoLaws, NaomPayments}.
Context `{Bincode (FundStoreOf AssetValues), !BincodeLaws (FundStoreOf AssetValues)}.
Context `{Bincode (gset string), !BincodeLaws (gset string)}.
Context `{Bincode AddressStore, !BincodeLaws AddressStore}.
Context `{Bincode TransactionStore, !BincodeLaws TransactionStore}.
Context `{Bincode OutPoint, !WalletKeysLaws}.
Implicit Types (w : WalletDb).

Lemma asset_sum_without k txs (l : list (OutPoint * Asset)) : NoDup l.*1 →
  Forall (λ tx, txs !! tx.1 = Some tx.2) l →
  asset_sum k txs = asset_sum k (without l.*1 txs) + list_qty k l.
Proof.
  intros Hnd Hl. induction Hl as [|tx l Htx Hl IH].
  - cbn. rewrite Z.add_0_r. f_equal. apply map_eq. intros op. by rewrite lookup_without.
  - cbn in Hnd. apply NoDup_cons in Hnd as [Hn Hnd]. rewrite list_qty_cons, (IH Hnd).
    assert (E : without l.*1 txs !! tx.1 = Some tx.2) by (by rewrite lookup_without, decide_False).
    rewrite (asset_sum_delete k _ _ _ E).
    assert (Ed : delete tx.1 (without l.*1 txs) = without (tx :: l).*1 txs); [|rewrite Ed; lia].
    apply map_eq. intros op. rewrite lookup_delete, !lookup_without. cbn.
    repeat case_decide; rewrite ?elem_of_cons in *; naive_solver.
Qed.

(** The change of a payment: none, or one output of the kind paid. *)
Definition change_of (excess_address : option string) (known : gset string) (k : AssetKind) (q : Z)
    (change : list TxOut) : Prop :=
  (change = [] ∧ q = 0) ∨
  ∃ addr e, change = [new_asset addr e] ∧ asset_kind e = k ∧ asset_qty e = q ∧ 0 < q ∧
    match excess_address with Some a => addr = a | None => addr ∈ known end.

Lemma change_step w fs known r req made excess_address : wallet_holds w fs known → length r.1.1 = NONCE_LEN →
  asset_kind made = asset_kind req → asset_qty req ≤ asset_qty made →
  ∀ tx_outs : list TxOut, ∃ change w' known',
    match get_excess made req with
    | Some excess => let! aw := excess_address_or_new w r excess_address in
                     Ret (tx_outs ++ [new_asset aw.1 excess], aw.2)
    | None => Ret (tx_outs, w)
    end = Ret (tx_outs ++ change, w') ∧ wallet_holds w' fs known' ∧ (known ⊆ known' ∧ known' ⊆ {[construct_address_for r.1.2 None]} ∪ known) ∧
    locked_coinbase w' = locked_coinbase w ∧
    change_of excess_address known' (asset_kind req) (asset_qty made - asset_qty req) change.
Proof.
  intros Hw Hn Hk Hle tx_outs. pose proof (get_excess_spec made req Hk) as He.
  destruct (get_excess made req) as [e|].
  - destruct He as (Hek & Heq & Hlt). unfold excess_address_or_new. destruct excess_address as [a|].
    + cbn. eexists [new_asset a e], w, known. split; [reflexivity|]. split_and!; [done|done|set_solver|done|].
      right. exists a, e. split_and!; [done|congruence|done|lia|done].
    + destruct (store_payment_address_spec w fs known r.1.1 r.1.2 r.2 None Hw Hn) as (w' & E & Hw' & _ & Hl).
      unfold generate_payment_address. rewrite E. cbn [obind fst snd].
      eexists [new_asset _ e], w', _. split; [reflexivity|]. split_and!; [exact Hw'|set_solver|set_solver|done|].
      right. eexists _, e. split_and!; [reflexivity|congruence|done|lia|set_solver].
  - exists [], w, known. rewrite app_nil_r. split_and!; [done..|set_solver|done|]. left. split; [done|lia].
Qed.

(** The steps of a payment: selection, change, consumption. *)
Lemma payment_steps w fs known r req tx_outs excess_address :
  wallet_holds w fs known → length r.1.1 = NONCE_LEN →
  asset_qty req ≤ asset_sum (asset_kind req) (spendable w fs) →
  ∃ l tx_cons used change made w' fs' known',
    selection w fs req made l ∧ inputs_of w l tx_cons used ∧
    fetch_tx_ins_and_tx_outs_provided_excess w r req tx_outs excess_address =
      Ret (inr (construct_payment_tx_ins tx_cons, tx_outs ++ change), w') ∧
    wallet_holds w' fs' known' ∧ (known ⊆ known' ∧ known' ⊆ {[construct_address_for r.1.2 None]} ∪ known) ∧
    change_of excess_address known' (asset_kind req) (asset_qty made - asset_qty req) change ∧
    fs_transactions fs' = without l.*1 (fs_transactions fs) ∧
    fs_spent fs' = only l.*1 (fs_transactions fs) ∪ fs_spent fs.
Proof.
  intros Hw Hn Hle. unfold fetch_tx_ins_and_tx_outs_provided_excess.
  destruct (fetch_inputs_spec w fs known req Hw Hle) as (l & tx_cons & made & used & E1 & Hsel & Hi).
  rewrite E1. cbn [obind]. pose proof Hi as [Hu _].
  destruct (change_step w fs known r req made excess_address Hw Hn (sel_kind _ _ _ _ _ Hsel) (sel_enough _ _ _ _ _ Hsel) tx_outs)
    as (change & w1 & known' & E2 & Hw1 & Hkn & _ & Hch).
  rewrite E2. cbn [obind fst snd]. pose proof (sel_spendable _ _ _ _ _ Hsel) as Hsp. rewrite Forall_forall in Hsp.
  destruct (consume_spec w1 fs known' tx_cons used Hw1) as (w' & fs' & E3 & Hw' & _ & Ht & Hs).
  { rewrite Hu. by apply Hsel. }
  { intros op. rewrite Hu. intros (tx & -> & Hin)%list_elem_of_fmap.
    destruct (Hsp tx Hin) as [[Hx _]%spendable_sub _]. by eexists. }
  rewrite E3. cbn [obind fst snd]. rewrite Hu in Ht, Hs.
  exists l, tx_cons, used, change, made, w', fs', known'. done.
Qed.

(** C10: a payment conserves the funds.  When the spendable outputs are worth
    enough it succeeds; the outputs it consumes are exactly the previous
    outputs of the inputs built, none of them locked, and move from the unspent
    to the spent ones; for every kind the running total drops by what is paid
    plus the change, and the change is one output to the address asked for, or
    to a new address of the wallet. *)
Theorem payment_conserves w fs known r req tx_outs excess_address :
  wallet_holds w fs known → length r.1.1 = NONCE_LEN →
  asset_qty req ≤ asset_sum (asset_kind req) (spendable w fs) →
  ∃ tx_cons change q w' fs' known',
    fetch_tx_ins_and_tx_outs_provided_excess w r req tx_outs excess_address =
      Ret (inr (construct_payment_tx_ins tx_cons, tx_outs ++ change), w') ∧
    wallet_holds w' fs' known' ∧ known ⊆ known' ∧ change_of excess_address known' (asset_kind req) q change ∧
    (∀ k, held (fs_running_total fs) k =
          held (fs_running_total fs') k + (if decide (k = asset_kind req) then asset_qty req + q else 0)) ∧
    (∀ op, if decide (op ∈ map tc_previous_out tx_cons)
           then is_Some (spendable w fs !! op) ∧ fs_transactions fs' !! op = None ∧
                fs_spent fs' !! op = fs_transactions fs !! op
           else fs_transactions fs' !! op = fs_transactions fs !! op ∧ fs_spent fs' !! op = fs_spent fs !! op).
Proof.
  intros Hw Hn Hle.
  destruct (payment_steps w fs known r req tx_outs excess_address Hw Hn Hle)
    as (l & tx_cons & used & change & made & w' & fs' & known' & Hsel & [Hu Hcons] & E & Hw' & Hkn & Hch & Ht & Hs).
  exists tx_cons, change, (asset_qty made - asset_qty req), w', fs', known'.
  split; [done|]. split; [exact Hw'|]. split; [apply Hkn|]. split; [exact Hch|].
  assert (Hprev : map tc_previous_out tx_cons = l.*1).
  { rewrite <-Hu. clear -Hcons. induction Hcons as [|u tc used cons (_ & keys & _ & ->) _ IH]; cbn; [done|by rewrite IH]. }
  split.
  - intros k. rewrite (wf_total _ (wallet_fund_wf _ _ _ Hw)), (wf_total _ (wallet_fund_wf _ _ _ Hw')), Ht.
    rewrite (asset_sum_without k (fs_transactions fs) l); [|by apply Hsel|].
    + f_equal. case_decide as D; [subst k; rewrite <-(sel_qty _ _ _ _ _ Hsel); lia|].
      apply (list_qty_other k (asset_kind req)); [done|]. eapply Forall_impl; [apply Hsel|]. by intros tx [_ ?].
    + eapply Forall_impl; [apply Hsel|]. by intros tx [[? _]%spendable_sub _].
  - intros op. rewrite Hprev, Ht, Hs, lookup_union, lookup_without, lookup_only.
    case_decide as D; [|split; [done|by destruct (fs_spent fs !! op)]].
    pose proof (sel_spendable _ _ _ _ _ Hsel) as Hsp. rewrite Forall_forall in Hsp.
    apply list_elem_of_fmap in D as (tx & -> & Hin). destruct (Hsp tx Hin) as [Hx _]. split; [by eexists|].
    split; [done|]. apply spendable_sub in Hx as [Hx _]. rewrite Hx. by destruct (fs_spent fs !! tx.1).
Qed.
End paying.

(** ** The passphrase *)
Section passphrase.
Context `{NaomCrypto, !NaomCryptoLaws, Bincode MasterKeyStore, !BincodeLaws MasterKeyStore}.

Lemma make_key_ret p s : ∃ k, make_key p s = Ret k ∧ valid_key k.
Proof.
  unfold make_key. destruct (derive_key_length p s) as [k Hk]. rewrite Hk. exists k. split; [done|].
  by eapply key_slice.
Qed.

(** The stored master key opens with the passphrase and the key it was sealed
    with. *)
Lemma get_master_key_sealed db m p s n k pk c : db_at DB_COL_DEFAULT db m → make_key p s = Ret pk →
  valid_key k → open_box c n pk = Some k →
  m !! string_codes MASTER_KEY_STORE_KEY = Some (serialize (mkMasterKeyStore s n c)) →
  get_master_key_store db p = Ret (inr k).
Proof.
  intros Hm Hp Hv Hc Hs. unfold get_master_key_store. rewrite (db_at_get _ _ m), Hs by done. cbn [obind].
  rewrite deserialize_serialize. cbn [salt enc_master_key mk_nonce]. rewrite Hp. cbn [obind]. rewrite Hc.
  by rewrite Hv.
Qed.

(** Changing the passphrase with the right old one succeeds, the new one
    opens the same master key afterwards, and nothing else in the database
    changes; with a wrong old one, the error is returned and the wallet is
    left as it was. *)
Theorem change_passphrase_roundtrip w m old new salt nonce key :
  db_at DB_COL_DEFAULT (wallet_db w) m → length nonce = NONCE_LEN →
  wallet_get_master_key_store w old = Ret key →
  match key with
  | inl e => change_wallet_passphrase w old new salt nonce = Ret (inl e, w)
  | inr k => ∃ w', change_wallet_passphrase w old new salt nonce = Ret (inr (), w') ∧
      wallet_get_master_key_store w' new = Ret (inr k) ∧ test_passphrase w' new = Ret (inr ()) ∧
      encryption_key w' = encryption_key w ∧
      ∀ a, a ≠ string_codes MASTER_KEY_STORE_KEY → get_cf (wallet_db w') DB_COL_DEFAULT a = get_cf (wallet_db w) DB_COL_DEFAULT a
  end.
Proof.
  intros Hm Hn Hk. unfold change_wallet_passphrase, re_encrypt_master_key. unfold wallet_get_master_key_store in Hk.
  assert (Hv : match key with inr k => valid_key k | inl _ => True end).
  { revert Hk. unfold get_master_key_store. rewrite (db_at_get _ _ m) by done. cbn [obind].
    destruct (m !! _); [|by intros [= <-]]. destruct (deserialize _) as [st|]; [|by intros [= <-]].
    destruct (make_key_ret (string_codes old) (Wallet.salt st)) as (pk & -> & _). cbn [obind].
    destruct (open_box _ _ pk) as [b|]; [|by intros [= <-]].
    destruct (key_from_slice b) as [k|] eqn:Ek; intros [= <-]; [by eapply key_slice|done]. }
  rewrite Hk. cbn [obind]. destruct key as [e|k]; [done|].
  destruct (make_key_ret (string_codes new) salt) as (pk & Ep & Hpk). rewrite Ep. cbn [obind].
  destruct (open_seal k nonce pk Hn Hpk) as (c & -> & Hc). cbn [unwrap obind].
  set (st := serialize _).
  destruct (batch_at_put _ _ _ [] (string_codes MASTER_KEY_STORE_KEY) st (batch_at_writer _ _ _ Hm)) as (b & E1 & Hb).
  rewrite E1. cbn [obind]. destruct (batch_at_write _ _ _ _ _ Hm Hb) as (db' & E2 & Hm' & _). rewrite E2. cbn [obind].
  assert (Eg : get_master_key_store db' (string_codes new) = Ret (inr k)).
  { eapply get_master_key_sealed; [done..|]. apply lookup_insert_eq. }
  eexists. split; [reflexivity|]. split; [exact Eg|]. split; [|split; [done|]].
  - unfold test_passphrase, wallet_get_master_key_store. cbn [wallet_db setter]. by rewrite Eg.
  - intros a Ha. cbn [wallet_db setter]. rewrite (db_at_get _ _ _ _ Hm'), (db_at_get _ _ _ _ Hm).
    f_equal. cbn. by rewrite lookup_insert_ne.
Qed.
End passphrase.

(** ** Clean-up *)
Section cleanup.
Context `{NaomAssets, !AssetMeasure, !NaomAssetsLaws}.
Context `{NaomCrypto, !NaomCryptoLaws}.
Context `{Bincode (FundStoreOf AssetValues), !BincodeLaws (FundStoreOf AssetValues)}.
Context `{Bincode (gset string), !BincodeLaws (gset string)}.
Context `{Bincode AddressStore, !BincodeLaws AddressStore}.
Context `{Bincode TransactionStore, !BincodeLaws TransactionStore}.
Context `{Bincode OutPoint, !WalletKeysLaws}.
Implicit Types (m : gmap (list Z) (list Z)) (w : WalletDb).

(** [a] is the address of an output of [txs]. *)
Definition address_in m (txs : gmap OutPoint Asset) (a : string) : Prop :=
  ∃ op, is_Some (txs !! op) ∧ tx_addr m op = Some a.

Lemma key_addresses_spec db m txs : db_at DB_COL_DEFAULT db m →
  (∀ op, is_Some (txs !! op) → is_Some (tx_addr m op)) →
  ∃ s, key_addresses db txs = Ret s ∧ ∀ a, a ∈ s ↔ address_in m txs a.
Proof.
  intros Hm Htx. unfold key_addresses.
  destruct (ofold_ind (λ s out_p, let! ts := get_transaction_store db out_p in Ret ({[key_address ts]} ∪ s))
    (λ pre s, ∀ a, a ∈ s ↔ ∃ op, op ∈ pre ∧ tx_addr m op = Some a) (bt_keys txs) (∅ : gset string)) as (s & E & Hs).
  - intros a. split; [set_solver|]. by intros (op & ?%elem_of_nil & _).
  - intros pre op s Hin Hs. destruct (Htx op) as [a Ha]; [by apply elem_of_bt_keys|].
    rewrite (get_transaction_store_at _ _ _ _ Hm Ha). cbn [obind key_address]. eexists. split; [reflexivity|].
    intros a'. rewrite elem_of_union, elem_of_singleton, Hs. setoid_rewrite elem_of_app.
    setoid_rewrite list_elem_of_singleton. split; [intros [->|(op' & ? & ?)]; eauto|].
    intros (op' & [?| ->] & ?); [eauto|left; congruence].
  - exists s. split; [done|]. intros a. rewrite Hs. unfold address_in. by setoid_rewrite elem_of_bt_keys.
Qed.

Lemma address_in_dec m txs a : Decision (address_in m txs a).
Proof.
  destruct (decide (Exists (λ op, tx_addr m op = Some a) (bt_keys txs))) as [D|D]; rewrite Exists_exists in D.
  - left. destruct D as (op & ?%elem_of_bt_keys & ?). by exists op.
  - right. intros (op & ? & ?). apply D. exists op. by rewrite elem_of_bt_keys.
Qed.

(** Deleting a list of keys through a batch. *)
Lemma ofold_delete {A : Type} (f : A → list Z) db b l (ks : list A) : batch_at DB_COL_DEFAULT db b l →
  ∃ b', ofold (λ b k, batch_delete_cf b DB_COL_DEFAULT (f k)) b ks = Ret b' ∧
    batch_at DB_COL_DEFAULT db b' (l ++ map (λ k, (f k, None)) ks).
Proof.
  revert b l; induction ks as [|k ks IH]; intros b l Hb; cbn [ofold map].
  - exists b. by rewrite app_nil_r.
  - destruct (batch_at_delete _ _ _ _ (f k) Hb) as (b1 & -> & Hb1). cbn [obind].
    destruct (IH _ _ Hb1) as (b' & -> & Hb'). exists b'. split; [done|]. by rewrite <-app_assoc in Hb'.
Qed.

(** The addresses the clean-up removes: those asked for and those of spent
    outputs, when no unspent output is theirs. *)
Definition removable m (fs : FundStore) (asked : gset string) (a : string) : Prop :=
  (a ∈ asked ∨ address_in m (fs_spent fs) a) ∧ ¬ address_in m (fs_transactions fs) a.

(** What the clean-up writes. *)
Definition destroy_ops (fs : FundStore) (known removed : gset string) : list (list Z * option (list Z)) :=
  [(string_codes FUND_KEY, Some (serialize (fs <| fs_spent := ∅ |>)));
   (string_codes KNOWN_ADDRESS_KEY, Some (serialize (known ∖ removed)))] ++
  map (λ a, (string_codes a, None)) (bt_elems removed) ++
  map (λ op, (serialize op, None)) (bt_keys (fs_spent fs)).

Lemma elem_of_destroy_ops fs known removed k v : (k, v) ∈ destroy_ops fs known removed →
  (k = string_codes FUND_KEY ∧ v = Some (serialize (fs <| fs_spent := ∅ |>))) ∨
  (k = string_codes KNOWN_ADDRESS_KEY ∧ v = Some (serialize (known ∖ removed))) ∨
  (∃ a, a ∈ removed ∧ k = string_codes a ∧ v = None) ∨
  (∃ op : OutPoint, is_Some (fs_spent fs !! op) ∧ k = serialize op ∧ v = None).
Proof.
  unfold destroy_ops. rewrite !elem_of_app, elem_of_cons, list_elem_of_singleton.
  intros [[[= -> ->]|[= -> ->]]|[Hin|Hin]]; [by left|by right; left| |].
  - apply list_elem_of_fmap in Hin as (a & [= -> ->] & Ha). right; right; left. exists a. by rewrite <-elem_of_bt_elems.
  - apply list_elem_of_fmap in Hin as (op & [= -> ->] & Ha). right; right; right. exists op. by rewrite <-elem_of_bt_keys.
Qed.

Lemma destroy_ops_key fs known removed k : k ∈ (destroy_ops fs known removed).*1 →
  ∃ v, (k, v) ∈ destroy_ops fs known removed.
Proof. intros ([k' v] & -> & Hin)%list_elem_of_fmap. by exists v. Qed.

(** What is under each key afterwards. *)
Lemma destroy_lookup m fs known removed : (∀ a, a ∈ removed → addr_key a) →
  let m' := foldl kv_op m (destroy_ops fs known removed) in
  fund_of m' = Some (fs <| fs_spent := ∅ |>) ∧ known_of m' = Some (known ∖ removed) ∧
  (∀ a, a ∈ removed → m' !! string_codes a = None) ∧
  (∀ a, addr_key a → a ∉ removed → m' !! string_codes a = m !! string_codes a) ∧
  (∀ op, fs_spent fs !! op = None → tx_addr m' op = tx_addr m op).
Proof.
  intros Hak. cbv zeta. set (l := destroy_ops fs known removed).
  assert (Hin : ∀ k, k ∈ l.*1 → ∃ v, (k, v) ∈ l ∧ foldl kv_op m l !! k = v) by apply kv_ops_in.
  split; [|split; [|split; [|split]]].
  - destruct (Hin (string_codes FUND_KEY)) as (v & Hv & E); [left|]. unfold fund_of. rewrite E.
    apply elem_of_destroy_ops in Hv as [[_ ->]|[[? _]|[(a & Ha & E' & _)|(op & _ & E' & _)]]].
    + apply deserialize_serialize.
    + done.
    + by apply (reserved_codes _ _ fund_reserved (Hak a Ha)) in E'.
    + by apply fund_op in E'.
  - destruct (Hin (string_codes KNOWN_ADDRESS_KEY)) as (v & Hv & E); [right; left|]. unfold known_of. rewrite E.
    apply elem_of_destroy_ops in Hv as [[? _]|[[_ ->]|[(a & Ha & E' & _)|(op & _ & E' & _)]]].
    + done.
    + apply deserialize_serialize.
    + by apply (reserved_codes _ _ known_reserved (Hak a Ha)) in E'.
    + by apply known_op in E'.
  - intros a Ha. destruct (Hin (string_codes a)) as (v & Hv & E).
    { unfold l, destroy_ops. rewrite !fmap_app, !elem_of_app. right; left. apply list_elem_of_fmap.
      exists (string_codes a, None). split; [done|]. apply list_elem_of_fmap. exists a. by rewrite elem_of_bt_elems. }
    rewrite E. apply elem_of_destroy_ops in Hv as [[E' _]|[[E' _]|[(a' & _ & _ & ?)|(op & _ & _ & ?)]]]; [..|done|done].
    + symmetry in E'. by apply (reserved_codes _ _ fund_reserved (Hak a Ha)) in E'.
    + symmetry in E'. by apply (reserved_codes _ _ known_reserved (Hak a Ha)) in E'.
  - intros a Ha Hn. apply kv_ops_other.
    intros (v & [[E' _]|[[E' _]|[(a' & Ha' & E' & _)|(op & _ & E' & _)]]]%elem_of_destroy_ops)%destroy_ops_key.
    + symmetry in E'. by apply (reserved_codes _ _ fund_reserved Ha) in E'.
    + symmetry in E'. by apply (reserved_codes _ _ known_reserved Ha) in E'.
    + apply (inj string_codes) in E'. by subst.
    + by apply (proj2 Ha op).
  - intros op Hop. apply tx_addr_kv.
    intros (v & [[E' _]|[[E' _]|[(a & Ha & E' & _)|(op' & [x Hx] & E' & _)]]]%elem_of_destroy_ops)%destroy_ops_key.
    + by apply (fund_op op).
    + by apply (known_op op).
    + by apply (proj2 (Hak a Ha) op).
    + apply (f_equal deserialize) in E'. rewrite !deserialize_serialize in E'. by simplify_eq.
Qed.

Lemma destroy_writes w m fs known addresses : db_at DB_COL_DEFAULT (wallet_db w) m →
  content_wf (encryption_key w) m fs known →
  ∃ removed db', destroy_spent_transactions_and_keys (wallet_db w) addresses = Ret (removed, fs_spent fs, db') ∧
    (∀ a, a ∈ removed ↔ removable m fs (default ∅ addresses) a) ∧
    db_at DB_COL_DEFAULT db' (foldl kv_op m (destroy_ops fs known removed)).
Proof.
  intros Hm Hc. unfold destroy_spent_transactions_and_keys, retrieve_empty_addresses, retrieve_empty_or_non_empty_addresses.
  rewrite (get_fund_store_at _ m Hm), (cw_fund _ _ _ _ Hc), (get_known_at _ m Hm), (cw_known _ _ _ _ Hc).
  cbn [unwrap obind].
  destruct (key_addresses_spec (wallet_db w) m (fs_transactions fs) Hm) as (un & E1 & Hun).
  { intros op Hop. destruct (cw_tx _ _ _ _ Hc op Hop) as (a & -> & _). by eexists. }
  destruct (key_addresses_spec (wallet_db w) m (fs_spent fs) Hm) as (sp & E2 & Hsp).
  { intros op Hop. destruct (cw_spent _ _ _ _ Hc op Hop) as (a & -> & _). by eexists. }
  rewrite E1. cbn [obind remove_spent_transactions]. cbn [setter fs_transactions]. rewrite E1. cbn [obind].
  rewrite E2. cbn [obind].
  set (removed := filter _ sp ∪ _). unfold set_fund_store, set_known_key_address.
  destruct (batch_at_put _ _ _ [] (string_codes FUND_KEY) (serialize (fs <| fs_spent := ∅ |>)) (batch_at_writer _ _ _ Hm))
    as (b1 & E3 & Hb1). rewrite E3. cbn [obind].
  destruct (batch_at_put _ _ _ _ (string_codes KNOWN_ADDRESS_KEY) (serialize (known ∖ removed)) Hb1) as (b2 & E4 & Hb2).
  rewrite E4. cbn [obind].
  destruct (ofold_delete string_codes _ _ _ (bt_elems removed) Hb2) as (b3 & E5 & Hb3).
  unfold delete_address_store. rewrite E5. cbn [obind].
  destruct (ofold_delete (λ op : OutPoint, serialize op) _ _ _ (bt_keys (fs_spent fs)) Hb3) as (b4 & E6 & Hb4).
  unfold delete_transaction_store. rewrite E6. cbn [obind].
  destruct (batch_at_write _ _ _ _ _ Hm Hb4) as (db' & E7 & Hm' & _). rewrite E7. cbn [obind].
  exists removed, db'. split; [done|]. split; [|by rewrite <-!app_assoc in Hm'].
  intros a. unfold removed, removable. rewrite elem_of_union, !elem_of_filter, Hun, Hsp. tauto.
Qed.

(** What the clean-up leaves, when the addresses asked for are addresses. *)
Lemma destroy_spec w fs known addresses : wallet_holds w fs known →
  (∀ a, a ∈ default ∅ addresses → addr_key a) →
  ∃ removed w', wallet_destroy_spent_transactions_and_keys w addresses = Ret (removed, fs_spent fs, w') ∧
    wallet_holds w' (fs <| fs_spent := ∅ |>) (known ∖ removed) ∧ locked_coinbase w' = locked_coinbase w ∧
    (∀ op a, is_Some (fs_transactions fs !! op) → get_transaction_address w op = Ret a →
       a ∉ removed ∧ get_transaction_address w' op = Ret a ∧
       wallet_get_address_store w' a = wallet_get_address_store w a) ∧
    (∀ a, a ∈ removed → get_address_store (wallet_db w') a (encryption_key w') = Panic).
Proof.
  intros (Hk & m & Hm & Hc) Hasked.
  destruct (destroy_writes w m fs known addresses Hm Hc) as (removed & db' & E & Hrem & Hm').
  unfold wallet_destroy_spent_transactions_and_keys. rewrite E. cbn [obind fst snd].
  set (w' := w <| wallet_db := db' |>).
  assert (Hak : ∀ a, a ∈ removed → addr_key a).
  { intros a [[Ha|(op & Hop & Ha)] _]%Hrem; [by apply Hasked|].
    destruct (cw_spent _ _ _ _ Hc op Hop) as (a' & Ha' & ?). by simplify_eq. }
  destruct (destroy_lookup m fs known removed Hak) as (L1 & L2 & L3 & L4 & L5).
  set (m' := foldl kv_op m _) in *. clearbody m'.
  assert (Hdj : ∀ op, is_Some (fs_transactions fs !! op) → fs_spent fs !! op = None).
  { intros op [x Hx]. eapply map_disjoint_Some_l, Hx. apply (cw_disj _ _ _ _ Hc). }
  assert (Hn : ∀ op a, is_Some (fs_transactions fs !! op) → tx_addr m op = Some a → a ∉ removed).
  { intros op a Hop Ha [_ Hn]%Hrem. apply Hn. by exists op. }
  exists removed, w'. split; [done|]. split; [|split; [done|split]].
  - split; [done|]. exists m'. split; [done|]. cbn. pose proof Hc as [Hf Hkn Hfw _ Hctx _ Hca]. split; [done|done| | | | |].
    + by destruct Hfw.
    + apply map_disjoint_empty_r.
    + intros op Hop. destruct (Hctx op Hop) as (a & Ha & Hin). exists a. rewrite L5 by auto. split; [done|].
      apply elem_of_difference. split; [done|by eapply Hn].
    + intros op [x Hx]. cbn in Hx. by rewrite lookup_empty in Hx.
    + intros a [Ha Hnr]%elem_of_difference. destruct (Hca a Ha) as (Hka & keys & s & d & Hs & Hd). split; [done|].
      exists keys, s, d. by rewrite L4.
  - intros op a Hop Ha. destruct (cw_tx _ _ _ _ Hc op Hop) as (a' & Ha' & Hin).
    unfold get_transaction_address, wallet_get_transaction_store in *.
    rewrite (get_transaction_store_at _ _ _ _ Hm Ha') in Ha. cbn in Ha. injection Ha as [= ->].
    split; [by eapply Hn|]. split.
    + rewrite (get_transaction_store_at _ _ op a Hm'); [done|]. rewrite L5; auto.
    + unfold wallet_get_address_store, get_address_store. cbn.
      rewrite (db_at_get _ _ _ _ Hm'), (db_at_get _ _ _ _ Hm), L4; [done|by apply (cw_addr _ _ _ _ Hc)|by eapply Hn].
  - intros a Ha. unfold get_address_store. cbn. by rewrite (db_at_get _ _ _ _ Hm'), L3.
Qed.
End cleanup.

(** ** Reachable wallets *)
Section reachable.
Context `{NaomAssets, !AssetMeasure, !NaomAssetsLaws}.
Context `{NaomCrypto, !NaomCryptoLaws, NaomPayments}.
Context `{Bincode (FundStoreOf AssetValues), !BincodeLaws (FundStoreOf AssetValues)}.
Context `{Bincode (gset string), !BincodeLaws (gset string)}.
Context `{Bincode AddressStore, !BincodeLaws AddressStore}.
Context `{Bincode TransactionStore, !BincodeLaws TransactionStore}.
Context `{Bincode OutPoint, !WalletKeysLaws}.
Context `{Bincode MasterKeyStore, !BincodeLaws MasterKeyStore, Bincode (gmap string Z)}.
Implicit Types (w : WalletDb).

Lemma new_db_default NV : ∃ db, new_db NV [] None = Ret db ∧
  db_at DB_COL_DEFAULT db {[string_codes DB_VERSION_KEY := NV]}.
Proof.
  set (db0 := mkSimpleDb (map_extend ∅ (imap (λ i v, (v, i)) [DB_COL_DEFAULT])) (replicate 1 ∅)).
  assert (Hm0 : db_at DB_COL_DEFAULT db0 ∅).
  { split; [|by vm_compute]. split; cbn [columns key_values db0].
    - intros cf i E. apply (lookup_columns [DB_COL_DEFAULT] 0) in E as [_ E]; [|apply NoDup_singleton].
      apply lookup_lt_Some in E. cbn in E |- *. lia.
    - intros cf1 cf2 i E1 E2. apply (lookup_columns [DB_COL_DEFAULT] 0) in E1 as [_ E1]; [|apply NoDup_singleton].
      apply (lookup_columns [DB_COL_DEFAULT] 0) in E2 as [_ E2]; [|apply NoDup_singleton]. by simplify_eq. }
  unfold new_db, new_db_with_version, new_in_memory. fold db0. unfold with_initial_data.
  change (mkSimpleDb (map_extend ∅ (imap (λ i v, (v, i)) [DB_COL_DEFAULT])) (replicate (S (length [])) ∅)) with db0.
  rewrite (db_at_get _ _ _ _ Hm0), lookup_empty. cbn [obind].
  destruct (db_at_put _ _ _ (string_codes DB_VERSION_KEY) NV Hm0) as (db & E & Hm). rewrite E. cbn [obind].
  unfold check_version. rewrite (db_at_get _ _ _ _ Hm), lookup_insert_eq. cbn [obind]. rewrite bool_decide_true by done.
  cbn [obind]. exists db. by rewrite insert_empty in Hm.
Qed.

(** A new wallet is empty, and the passphrase opens its master key. *)
Lemma new_wallet_holds NV passphrase salt master_key nonce : valid_key master_key → length nonce = NONCE_LEN →
  ∃ w, WalletDb_new NV None passphrase salt master_key nonce = Ret (inr w) ∧
    wallet_holds w FundStore_default ∅ ∧ encryption_key w = master_key ∧
    wallet_get_master_key_store w (default "" passphrase) = Ret (inr master_key).
Proof.
  intros Hk Hn. unfold WalletDb_new. destruct (new_db_default NV) as (db & -> & Hm). cbn [obind].
  unfold get_or_save_master_key_store.
  assert (Eg : get_master_key_store db (string_codes (default "" passphrase)) = Ret (inl MasterKeyMissingError)).
  { unfold get_master_key_store. rewrite (db_at_get _ _ _ _ Hm). cbn [obind]. by rewrite lookup_singleton_ne. }
  rewrite Eg. cbn [obind]. unfold set_new_master_key_store.
  destruct (make_key_ret (string_codes (default "" passphrase)) salt) as (pk & Ep & Hpk). rewrite Ep. cbn [obind].
  destruct (open_seal master_key nonce pk Hn Hpk) as (c & -> & Hc). cbn [unwrap obind].
  set (st := serialize _).
  destruct (batch_at_put _ _ _ [] (string_codes MASTER_KEY_STORE_KEY) st (batch_at_writer _ _ _ Hm)) as (b & E1 & Hb).
  rewrite E1. cbn [obind fst snd]. destruct (batch_at_write _ _ _ _ _ Hm Hb) as (db' & E2 & Hm' & _). rewrite E2. cbn [obind].
  assert (Hmk : MASTER_KEY_STORE_KEY ∈ reserved_keys) by (right; right; right; left).
  assert (Hr : ∀ k, k ≠ string_codes MASTER_KEY_STORE_KEY → k ≠ string_codes DB_VERSION_KEY →
    foldl kv_op {[string_codes DB_VERSION_KEY := NV]} ([] ++ [(string_codes MASTER_KEY_STORE_KEY, Some st)]) !! k = None).
  { intros k Hk1 Hk2. rewrite kv_ops_other; [by apply lookup_singleton_ne|]. cbn. by rewrite list_elem_of_singleton. }
  eexists. split; [reflexivity|]. split; [|split; [done|]].
  - split; [done|]. eexists. split; [exact Hm'|]. split.
    + unfold fund_of. by rewrite Hr.
    + unfold known_of. by rewrite Hr.
    + apply fund_wf_default.
    + apply map_disjoint_empty_l.
    + intros op [x Hx]. cbn in Hx. by rewrite lookup_empty in Hx.
    + intros op [x Hx]. cbn in Hx. by rewrite lookup_empty in Hx.
    + intros a Ha. by apply not_elem_of_empty in Ha.
  - eapply get_master_key_sealed; [done..|]. apply lookup_insert_eq.
Qed.

(** The wallets that creating, receiving, paying and cleaning up lead to.
    Received outputs are new or known ones, not outputs already spent, and the
    totals stay within 64 bits; addresses are those of key pairs. *)
Inductive wallet_reachable : WalletDb → Prop :=
  | wr_new NV passphrase salt master_key nonce w : valid_key master_key → length nonce = NONCE_LEN →
      WalletDb_new NV None passphrase salt master_key nonce = Ret (inr w) → wallet_reachable w
  | wr_address w nonce pk sk v res : wallet_reachable w → length nonce = NONCE_LEN →
      store_payment_address w nonce pk sk v = Ret res → wallet_reachable res.2
  | wr_receive w fs known payments b_num res : wallet_reachable w →
      get_fund_store (wallet_db w) = Ret fs → get_known_key_address (wallet_db w) = Ret known →
      let mine := filter (λ p, p.1.2 ∈ known) payments in
      (∀ k, is_u64 (asset_sum k (fs_transactions fs) + pay_qty k mine)) →
      (∀ p, p ∈ mine → fs_spent fs !! p.1.1.1 = None) →
      save_usable_payments_to_wallet w payments b_num = Ret res → wallet_reachable res.2
  | wr_pay w r req tx_outs excess_address res : wallet_reachable w → length r.1.1 = NONCE_LEN →
      fetch_tx_ins_and_tx_outs_provided_excess w r req tx_outs excess_address = Ret res → wallet_reachable res.2
  | wr_destroy w addresses res : wallet_reachable w → (∀ a, a ∈ default ∅ addresses → addr_key a) →
      wallet_destroy_spent_transactions_and_keys w addresses = Ret res → wallet_reachable res.2
  | wr_filter w b_num w' : wallet_reachable w → wallet_filter_locked_coinbase w b_num = Ret w' → wallet_reachable w'.

Lemma filter_locked_holds w fs known b_num w' : wallet_holds w fs known →
  wallet_filter_locked_coinbase w b_num = Ret w' → wallet_holds w' fs known.
Proof.
  intros (Hk & m & Hm & Hc) E. unfold wallet_filter_locked_coinbase in E. case_match; [by simplify_eq; split; eauto|].
  set (v := filter _ <$> _) in E. unfold store_locked_coinbase in E.
  assert (Hgen : ∀ o : option (list Z), ∃ m', m' = kv_op m (string_codes LOCKED_COINBASE_KEY, o) ∧
    content_wf (encryption_key w) m' fs known).
  { intros o. eexists. split; [reflexivity|]. change (kv_op m ?e) with (foldl kv_op m [e]).
    set (m' := foldl _ _ _).
    assert (Hl : ∀ k, k ≠ string_codes LOCKED_COINBASE_KEY → m' !! k = m !! k).
    { intros k Hne. apply kv_ops_other. cbn. by rewrite list_elem_of_singleton. }
    assert (Ht : ∀ op, tx_addr m' op = tx_addr m op).
    { intros op. unfold tx_addr. rewrite Hl; [done|]. intros E'. by apply (locked_op op). }
    destruct Hc as [Hf Hkn ? ? Htx Hsp Had]. split; [| |done|done| | |].
    - unfold fund_of in *. by rewrite Hl.
    - unfold known_of in *. by rewrite Hl.
    - intros op. rewrite Ht. apply Htx.
    - intros op. rewrite Ht. apply Hsp.
    - intros a Ha. destruct (Had a Ha) as (Hka & keys & s & d & Hr & ?). split; [done|]. exists keys, s, d.
      rewrite Hl; [done|]. intros E'. symmetry in E'. revert E'. apply reserved_codes; [apply locked_reserved|done]. }
  destruct v as [lc|]; unfold set_db_value, delete_db_value in E; cbn [wallet_db setter] in E.
  - destruct (db_at_put _ _ _ (string_codes LOCKED_COINBASE_KEY) (serialize lc) Hm) as (db' & Ed & Hm').
    rewrite Ed in E. cbn in E. injection E as [= <-]. split; [done|].
    destruct (Hgen (Some (serialize lc))) as (m' & -> & Hc'). by eexists.
  - destruct (db_at_delete _ _ _ (string_codes LOCKED_COINBASE_KEY) Hm) as (db' & Ed & Hm').
    rewrite Ed in E. cbn in E. injection E as [= <-]. split; [done|].
    destruct (Hgen None) as (m' & -> & Hc'). by eexists.
Qed.

Lemma pay_holds w fs known r req tx_outs excess_address res : wallet_holds w fs known → length r.1.1 = NONCE_LEN →
  fetch_tx_ins_and_tx_outs_provided_excess w r req tx_outs excess_address = Ret res →
  ∃ fs' known', wallet_holds res.2 fs' known'.
Proof.
  intros Hw Hn E. destruct (decide (asset_qty req ≤ asset_sum (asset_kind req) (spendable w fs))) as [D|D].
  - destruct (payment_steps w fs known r req tx_outs excess_address Hw Hn D)
      as (l & tx_cons & used & change & made & w' & fs' & known' & _ & _ & E' & Hw' & _).
    rewrite E in E'. injection E' as [= ->]. by exists fs', known'.
  - unfold fetch_tx_ins_and_tx_outs_provided_excess in E. rewrite (fetch_inputs_short w fs known req) in E by done.
    cbn in E. injection E as [= <-]. by exists fs, known.
Qed.

(** C36: in every wallet that is created empty and then makes addresses, receives
    payments, pays, and cleans up, the stored totals are those of the unspent
    outputs, no output is both spent and unspent, and for every unspent output
    the address and its keys can be read: it can be spent.  The scope is what the
    steps of [wallet_reachable] ask for: nonces have their length, deleted addresses
    have the form of an address, and what is received does not take a total past
    64 bits and contains no output that the wallet has already spent.  The last
    condition is needed, and the code does not check it: receiving a spent output
    again makes it spendable once more, and a wallet where that happened is not
    covered (see [respent_output_panics]). *)
Theorem wallet_reachable_sound w : wallet_reachable w → ∃ fs known, wallet_holds w fs known.
Proof.
  induction 1 as [NV pp s mk n w Hk Hn E|w n pk sk v res _ (fs & known & Hw) Hn E
    |w fs known ps b res _ (fs' & known' & Hw) Ef Ek mine Hq Hs E|w r req outs ex res _ (fs & known & Hw) Hn E
    |w addrs res _ (fs & known & Hw) Ha E|w b w' _ (fs & known & Hw) E].
  - destruct (new_wallet_holds NV pp s mk n Hk Hn) as (w' & E' & Hw & _). rewrite E in E'. simplify_eq. eauto.
  - destruct (store_payment_address_spec w fs known n pk sk v Hw Hn) as (w' & E' & Hw' & _).
    rewrite E in E'. injection E' as [= ->]. eauto.
  - destruct Hw as (Hk & m & Hm & Hc). rewrite (get_fund_store_at _ m Hm), (cw_fund _ _ _ _ Hc) in Ef.
    rewrite (get_known_at _ m Hm), (cw_known _ _ _ _ Hc) in Ek. cbn in Ef, Ek. simplify_eq.
    pose proof (save_usable_spec w fs known ps b (conj Hk (ex_intro _ m (conj Hm Hc))) Hq Hs) as Hp.
    destruct (pay_all _ _); [|by rewrite E in Hp]. destruct Hp as (w' & fs' & E' & Hw' & _).
    rewrite E in E'. injection E' as [= ->]. eauto.
  - by eapply pay_holds.
  - destruct (destroy_spec w fs known addrs Hw Ha) as (removed & w' & E' & Hw' & _).
    rewrite E in E'. injection E' as [= ->]. eauto.
  - exists fs, known. by eapply filter_locked_holds.
Qed.
End reachable.

(** ** What the clean-up leaves to spend *)
Section cleanup_theorems.
Context `{NaomAssets, !AssetMeasure, !NaomAssetsLaws}.
Context `{NaomCrypto, !NaomCryptoLaws}.
Context `{Bincode (FundStoreOf AssetValues), !BincodeLaws (FundStoreOf AssetValues)}.
Context `{Bincode (gset string), !BincodeLaws (gset string)}.
Context `{Bincode AddressStore, !BincodeLaws AddressStore}.
Context `{Bincode TransactionStore, !BincodeLaws TransactionStore}.
Context `{Bincode OutPoint, !WalletKeysLaws}.
Implicit Types (w : WalletDb).

Lemma filter_step_spent locked s acc op :
  filter_locked_step locked (acc.1, acc.2 <| fs_spent := s |>) op =
  ((filter_locked_step locked acc op).1, (filter_locked_step locked acc op).2 <| fs_spent := s |>).
Proof.
  destruct acc as [c [t txs p sp]]. unfold filter_locked_step; cbn. case_bool_decide; [|done].
  by destruct (txs !! op).
Qed.

Lemma filter_locked_no_spent fs locked s :
  fs_filter_locked_coinbase (fs <| fs_spent := s |>) locked =
  ((fs_filter_locked_coinbase fs locked).1, (fs_filter_locked_coinbase fs locked).2 <| fs_spent := s |>).
Proof.
  destruct locked as [locked|]; [|done]. unfold fs_filter_locked_coinbase.
  change (fs_transactions (fs <| fs_spent := s |>)) with (fs_transactions fs).
  generalize (bt_keys (fs_transactions fs)) as l. intros l.
  assert (Hg : ∀ acc, foldl (filter_locked_step locked) (acc.1, acc.2 <| fs_spent := s |>) l =
    ((foldl (filter_locked_step locked) acc l).1, (foldl (filter_locked_step locked) acc l).2 <| fs_spent := s |>)).
  { induction l as [|op l IH]; intros acc; [done|]. cbn [foldl]. rewrite filter_step_spent. apply IH. }
  apply (Hg (None, fs)).
Qed.

Lemma fetch_loop_ext db db' req ek l acc :
  (∀ tx, tx ∈ l → tx_constructor_from_prev_out db' tx.1 ek = tx_constructor_from_prev_out db tx.1 ek) →
  fetch_inputs_loop db' req ek l acc = fetch_inputs_loop db req ek l acc.
Proof.
  revert acc; induction l as [|tx l IH]; intros acc Hl; [done|]. cbn [fetch_inputs_loop].
  assert (E : add_input db' ek acc tx = add_input db ek acc tx).
  { unfold add_input. destruct acc as [[c a] u]. destruct (add_assign a tx.2) as [[] a']; [|done].
    by rewrite (Hl tx (list_elem_of_here _ _)). }
  rewrite E. destruct (add_input db ek acc tx) as [acc'|]; [|done]. cbn [obind].
  rewrite IH; [done|]. intros tx' ?. apply Hl. by right.
Qed.

(** The clean-up of spent outputs takes nothing that can be spent: any later
    payment selects the same inputs with the same signatures, and the keys it
    deletes are of addresses that own no unspent output. *)
Theorem cleanup_keeps_funds w fs known addresses req : wallet_holds w fs known →
  (∀ a, a ∈ default ∅ addresses → addr_key a) →
  ∃ removed w', wallet_destroy_spent_transactions_and_keys w addresses = Ret (removed, fs_spent fs, w') ∧
    wallet_get_fund_store w' = Ret (fs <| fs_spent := ∅ |>) ∧
    get_known_addresses w' = Ret (bt_elems (known ∖ removed)) ∧
    fetch_inputs_for_payment w' req = fetch_inputs_for_payment w req ∧
    (∀ a, a ∈ removed → wallet_get_address_store w' a = Panic ∧
       ∀ op, is_Some (fs_transactions fs !! op) → get_transaction_address w op ≠ Ret a).
Proof.
  intros Hw Ha. destruct (destroy_spec w fs known addresses Hw Ha) as (removed & w' & E & Hw' & Hl & Hkeep & Hrem).
  exists removed, w'. split; [done|]. pose proof (fund_of_fetch _ _ _ Hw') as Ef. split; [exact Ef|]. split.
  { destruct Hw' as (_ & m & Hm & Hc). unfold get_known_addresses.
    by rewrite (get_known_at _ m Hm), (cw_known _ _ _ _ Hc). }
  assert (Eek : encryption_key w' = encryption_key w).
  { unfold wallet_destroy_spent_transactions_and_keys in E.
    destruct (destroy_spent_transactions_and_keys _ _); [|done]. cbn in E. by injection E as [= _ <-]. }
  split.
  - unfold fetch_inputs_for_payment, fetch_inputs_for_payment_from_db, get_locked_coinbase.
    rewrite Ef, (fund_of_fetch _ _ _ Hw), Hl, Eek. cbn [obind].
    rewrite filter_locked_no_spent. cbn [snd].
    change (fs_running_total (?f <| fs_spent := ∅ |>)) with (fs_running_total f).
    change (fs_transactions (?f <| fs_spent := ∅ |>)) with (fs_transactions f). case_match; [done|].
    rewrite (fetch_loop_ext (wallet_db w)); [done|]. intros [op a] Hin%elem_of_bt_iter.
    destruct (filter_locked_spec fs (locked_coinbase w) (fund_wf_totals _ (wallet_fund_wf _ _ _ Hw))) as (_ & _ & Et).
    rewrite Et in Hin. apply map_lookup_filter_Some in Hin as [Hin _].
    destruct Hw as (Hk & m & Hm & Hc). destruct (cw_tx _ _ _ _ Hc op) as (ad & Had & _); [by eexists|].
    assert (Eta : get_transaction_address w op = Ret ad).
    { unfold get_transaction_address, wallet_get_transaction_store. by rewrite (get_transaction_store_at _ _ _ _ Hm Had). }
    destruct (Hkeep op ad) as (_ & E1 & E2); [by eexists|done|]. unfold tx_constructor_from_prev_out. cbn [fst].
    unfold get_transaction_address, wallet_get_transaction_store in E1, Eta.
    apply obind_ret in E1 as ([a1] & -> & [= ->]). apply obind_ret in Eta as ([a2] & -> & [= ->]).
    cbn [obind key_address]. unfold wallet_get_address_store in E2. rewrite Eek in E2. by rewrite E2.
  - intros a Hin. split; [by apply Hrem|]. intros op Hop Ea. by destruct (Hkeep op a Hop Ea) as (Hn & _).
Qed.

(** The names of the other entries are not refused as addresses: deleting the
    address ["f"] deletes the record of the funds. *)
Theorem reserved_address_loses_funds w fs known : wallet_holds w fs known →
  ∃ res, wallet_destroy_spent_transactions_and_keys w (Some {[FUND_KEY]}) = Ret res ∧
    wallet_get_fund_store res.2 = Ret FundStore_default.
Proof.
  intros (Hk & m & Hm & Hc).
  destruct (destroy_writes w m fs known (Some {[FUND_KEY]}) Hm Hc) as (removed & db' & E & Hrem & Hm').
  unfold wallet_destroy_spent_transactions_and_keys. rewrite E. cbn [obind]. eexists. split; [reflexivity|].
  unfold wallet_get_fund_store. cbn [snd]. cbn [wallet_db setter]. rewrite (get_fund_store_at _ _ Hm').
  assert (Hin : FUND_KEY ∈ removed).
  { apply Hrem. split; [left; cbn; set_solver|]. intros (op & Hop & Ha).
    destruct (cw_tx _ _ _ _ Hc op Hop) as (a & Ha' & Hin). rewrite Ha in Ha'. injection Ha' as [= <-].
    destruct (cw_addr _ _ _ _ Hc _ Hin) as [[Hn _] _]. apply Hn, fund_reserved. }
  assert (Hnone : foldl kv_op m (destroy_ops fs known removed) !! string_codes FUND_KEY = None);
    [|unfold fund_of; by rewrite Hnone].
  unfold destroy_ops. rewrite app_assoc, foldl_app, kv_ops_other.
  - rewrite foldl_app. set (m1 := foldl kv_op m _).
    destruct (kv_ops_in m1 (map (λ a, (string_codes a, None)) (bt_elems removed)) (string_codes FUND_KEY)) as (v & Hv & ->).
    + rewrite <-list_fmap_compose. apply list_elem_of_fmap. exists FUND_KEY. by rewrite elem_of_bt_elems.
    + apply list_elem_of_fmap in Hv as (a' & [= _ ->] & _). done.
  - rewrite <-list_fmap_compose. intros (op & E' & _)%list_elem_of_fmap. by apply fund_op in E'.
Qed.

(** And importing a key pair under the name ["f"] replaces the record of the
    funds by the encrypted key pair. *)
Theorem reserved_address_overwrites w fs known nonce keys : wallet_holds w fs known → length nonce = NONCE_LEN →
  ∃ w' s, save_address_to_wallet w nonce FUND_KEY keys = Ret w' ∧
    get_db_value w' FUND_KEY = Ret (Some s) ∧ decrypt_store s (encryption_key w) = Ret (serialize keys).
Proof.
  intros (Hk & m & Hm & Hc) Hn. unfold save_address_to_wallet.
  rewrite (get_known_at _ m Hm), (cw_known _ _ _ _ Hc). cbn [unwrap obind].
  unfold save_address_store_to_wallet.
  destruct (encrypt_decrypt nonce (serialize keys) (encryption_key w) Hn Hk) as (s & E0 & Hdec). rewrite E0. cbn [obind].
  destruct (batch_at_put _ _ _ [] (string_codes FUND_KEY) s (batch_at_writer _ _ _ Hm)) as (b & E1 & Hb).
  rewrite E1. cbn [obind]. unfold set_known_key_address.
  destruct (batch_at_put _ _ _ _ (string_codes KNOWN_ADDRESS_KEY) (serialize ({[FUND_KEY]} ∪ known)) Hb) as (b2 & E2 & Hb2).
  rewrite E2. cbn [obind]. destruct (batch_at_write _ _ _ _ _ Hm Hb2) as (db' & E3 & Hm' & _). rewrite E3. cbn [obind].
  eexists _, s. split; [reflexivity|]. split; [|done]. unfold get_db_value. cbn [wallet_db setter].
  rewrite (db_at_get _ _ _ _ Hm'). f_equal. cbn. rewrite lookup_insert_ne by done. apply lookup_insert_eq.
Qed.
End cleanup_theorems.

Module WalletExamples.
Import TestExternals.
Open Scope string_scope.

#[export] Instance fund_store_eq_dec : EqDecision (FundStoreOf values).
Proof. solve_decision. Defined.
#[export] Instance fund_store_countable : Countable (FundStoreOf values).
Proof.
  apply (inj_countable' (λ f, (fs_running_total f, fs_transactions f, fs_pages f, fs_spent f))
    (λ c, mkFundStore c.1.1.1 c.1.1.2 c.1.2 c.2)). by intros [].
Defined.
#[export] Instance address_store_eq_dec : EqDecision AddressStore.
Proof. solve_decision. Defined.
#[export] Instance address_store_countable : Countable AddressStore.
Proof.
  apply (inj_countable' (λ a, (public_key a, secret_key a, address_version a))
    (λ c, mkAddressStore c.1.1 c.1.2 c.2)). by intros [].
Defined.

#[export] Instance b_fund : Bincode (FundStoreOf AssetValues) := bincode_countable (FundStoreOf values).
#[export] Instance b_fund_laws : BincodeLaws (FundStoreOf AssetValues) := bincode_countable_laws (FundStoreOf values).
#[export] Instance b_set : Bincode (gset string) := bincode_countable _.
#[export] Instance b_set_laws : BincodeLaws (gset string) := bincode_countable_laws _.
#[export] Instance b_addr : Bincode AddressStore := bincode_countable _.
#[export] Instance b_addr_laws : BincodeLaws AddressStore := bincode_countable_laws _.
#[export] Instance b_tx : Bincode TransactionStore := {|
  serialize t := string_codes (key_address t);
  deserialize l := Some (mkTransactionStore (String.string_of_list_ascii (map (λ z, Ascii.ascii_of_N (Z.to_N z)) l))) |}.
#[export] Instance b_tx_laws : BincodeLaws TransactionStore.
Proof.
  intros [s]. cbn. do 2 f_equal. induction s as [|c s IH]; cbn; [done|].
  rewrite N2Z.id, Ascii.ascii_N_embedding. by rewrite IH.
Qed.
#[export] Instance b_op : Bincode OutPoint := bincode_countable _.
#[export] Instance b_master : Bincode MasterKeyStore := {|
  serialize s := Z.of_nat (length (salt s)) :: Z.of_nat (length (mk_nonce s)) :: salt s ++ mk_nonce s ++ enc_master_key s;
  deserialize l := match l with
    | a :: b :: l => Some (mkMasterKeyStore (take (Z.to_nat a) l) (take (Z.to_nat b) (drop (Z.to_nat a) l))
                             (drop (Z.to_nat b) (drop (Z.to_nat a) l)))
    | _ => None end |}.
#[export] Instance b_master_laws : BincodeLaws MasterKeyStore.
Proof.
  intros [s n c]. unfold deserialize, serialize, b_master. cbn [salt mk_nonce enc_master_key].
  by rewrite !Nat2Z.id, take_app_length, drop_app_length, take_app_length, drop_app_length.
Qed.
#[export] Instance b_locked : Bincode (gmap string Z) := bincode_countable _.

(** A sealed text carries the key; an address the bytes of the public key. *)
#[export] Instance crypto : NaomCrypto := {|
  NONCE_LEN := 2;
  derive_key p s := (p ++ s)%list;
  key_from_slice := Some;
  nonce_from_slice := Some;
  seal m n k := Some (Z.of_nat (length k) :: k ++ m)%list;
  open_box c n k := match c with
    | a :: c => if decide (a = Z.of_nat (length k) ∧ take (length k) c = k) then Some (drop (length k) c) else None
    | [] => None end;
  sign_detached h k := (h ++ k)%list;
  construct_address_for pk v := "A" ++ hex_encode pk;
  construct_tx_in_signable_hash o := t_hash o;
|}.
#[export] Instance crypto_laws : NaomCryptoLaws.
Proof.
  constructor; try done. intros m n k _ _. exists (Z.of_nat (length k) :: k ++ m)%list. split; [done|].
  unfold open_box, crypto. by rewrite decide_True, drop_app_length by (split; [done|apply take_app_length]).
Qed.
#[export] Instance payments : NaomPayments := {|
  construct_payment_tx_ins := map (λ tc, mkTxIn (Some (tc_previous_out tc)) (mkScript []));
  new_asset a v := mkTxOut v 0 None (Some a);
|}.
#[export] Instance keys_laws : WalletKeysLaws.
Proof.
  split.
  - apply bincode_countable_laws.
  - intros op s. rewrite list_elem_of_In. cbn. intros [<-|[<-|[<-|[<-|[]]]]]; done.
  - intros pk v. split; [|done]. rewrite list_elem_of_In. cbn. intros [?|[?|[?|[?|[]]]]]; done.
Qed.

(** A wallet that made an address and received two outputs, one of them a
    coinbase locked until block 10. *)
Definition dummy : WalletDb := mkWalletDb (mkSimpleDb ∅ []) [] None None None.
Definition w0 : WalletDb := match WalletDb_new [1] None (Some "pass") [5] [7] [0; 0] with Ret (inr w) => w | _ => dummy end.
Definition w1 : WalletDb := match store_payment_address w0 [0; 1] [17] [34] None with Ret r => r.2 | Panic => dummy end.
Definition addr1 : string := "A" ++ hex_encode [17].
Definition opA := mkOutPoint "tx1" 0.
Definition opB := mkOutPoint "tx2" 0.
Definition received : list (OutPoint * Asset * string * Z) := [(opA, Token 7, addr1, 0); (opB, Token 100, addr1, 10)].
Definition w2 : WalletDb := match save_usable_payments_to_wallet w1 received 3 with Ret r => r.2 | Panic => dummy end.
Definition txs2 : gmap OutPoint Asset := {[opA := Token 7; opB := Token 100]}.

Lemma w0_new : WalletDb_new [1] None (Some "pass") [5] [7] [0; 0] = Ret (inr w0) ∧ wallet_holds w0 FundStore_default ∅.
Proof.
  destruct (new_wallet_holds [1] (Some "pass") [5] [7] [0; 0]) as (w & E & Hw & _); [done..|].
  unfold w0. by rewrite E.
Qed.
Lemma w1_holds : ∃ r, store_payment_address w0 [0; 1] [17] [34] None = Ret r ∧ r.2 = w1 ∧
  wallet_holds w1 FundStore_default {[addr1]}.
Proof.
  destruct w0_new as [_ Hw0].
  destruct (store_payment_address_spec w0 FundStore_default ∅ [0; 1] [17] [34] None Hw0) as (w & E & Hw & _); [done|].
  exists (construct_address_for [17] None, mkAddressStore [17] [34] None, w). unfold w1. rewrite E. split; [done|].
  split; [done|]. by rewrite union_empty_r_L in Hw.
Qed.

Lemma mine_received : filter (λ p : OutPoint * Asset * string * Z, p.1.2 ∈ ({[addr1]} : gset string)) received = received.
Proof. vm_compute. reflexivity. Qed.
Lemma received_bound k : is_u64 (asset_sum k (fs_transactions FundStore_default) + pay_qty k received).
Proof. rewrite asset_sum_empty. destruct k as [| |h]; vm_compute; by split. Qed.

Lemma w2_holds : ∃ r fs2, save_usable_payments_to_wallet w1 received 3 = Ret r ∧ r.2 = w2 ∧
  wallet_holds w2 fs2 {[addr1]} ∧ fs_transactions fs2 = txs2 ∧ fs_spent fs2 = ∅ ∧
  locked_coinbase w2 = Some {["tx2" := 10]}.
Proof.
  destruct w1_holds as (_ & _ & _ & Hw1).
  pose proof (save_usable_spec w1 FundStore_default {[addr1]} received 3 Hw1) as Hs. rewrite mine_received in Hs.
  specialize (Hs received_bound (λ p _, eq_refl)).
  assert (Ep : pay_all (fs_transactions FundStore_default) received = Some txs2) by (vm_compute; reflexivity).
  rewrite Ep in Hs. destruct Hs as (w & fs & E & Hw & Ht & Hsp & Hl).
  assert (Ew : w2 = w) by (unfold w2; by rewrite E). rewrite Ew.
  exists (received, w), fs. split; [done|]. split; [done|]. split; [done|]. split; [done|]. split; [done|].
  rewrite Hl. assert (Elc : locked_coinbase w1 = None) by (vm_compute; reflexivity). rewrite Elc. vm_compute. reflexivity.
Qed.

Lemma w2_reachable : wallet_reachable w2.
Proof.
  destruct w0_new as [E0 _]. destruct w1_holds as (r1 & E1 & Er1 & Hw1). destruct w2_holds as (r2 & fs2 & E2 & <- & _).
  assert (R1 : wallet_reachable w1).
  { rewrite <-Er1. apply (wr_address w0 [0; 1] [17] [34] None r1); [|reflexivity|exact E1].
    apply (wr_new [1] (Some "pass") [5] [7] [0; 0]); [reflexivity|reflexivity|exact E0]. }
  apply (wr_receive w1 FundStore_default {[addr1]} received 3 r2); [exact R1| | | |intros p _; reflexivity|exact E2].
  - apply (fund_of_fetch w1 FundStore_default {[addr1]} Hw1).
  - destruct Hw1 as (_ & m & Hm & Hc). by rewrite (get_known_at _ m Hm), (cw_known _ _ _ _ Hc).
  - intros k. rewrite mine_received. apply received_bound.
Qed.

Lemma wallet_reachable_sound_witness : wallet_reachable w2 ∧ ∃ fs known, wallet_holds w2 fs known.
Proof. split; [exact w2_reachable|apply wallet_reachable_sound, w2_reachable]. Defined.

(** The locked coinbase does not count: 7 tokens can be paid, 8 cannot. *)
Lemma w2_spendable fs : fs_transactions fs = txs2 → locked_coinbase w2 = Some {["tx2" := 10]} →
  asset_sum (asset_kind (Token 5)) (spendable w2 fs) = 7.
Proof. intros Ht Hl. unfold spendable, get_locked_coinbase. rewrite Ht, Hl. vm_compute. reflexivity. Qed.

Lemma fetch_inputs_exact_witness :
  (∃ l cons made used fs, fetch_inputs_for_payment w2 (Token 5) = Ret (inr (cons, made, used)) ∧
     selection w2 fs (Token 5) made l) ∧
  fetch_inputs_for_payment w2 (Token 8) = Ret (inl InsufficientFundsError).
Proof.
  destruct w2_holds as (_ & fs & _ & _ & Hw & Ht & _ & Hl). pose proof (w2_spendable fs Ht Hl) as Hs. split.
  - pose proof (fetch_inputs_exact w2 fs {[addr1]} (Token 5) Hw) as Hf. rewrite decide_True in Hf.
    + destruct Hf as (l & cons & made & used & E & Hsel & _). exists l, cons, made, used, fs. split; [exact E|exact Hsel].
    + rewrite Hs. vm_compute. intros Hle. discriminate Hle.
  - pose proof (fetch_inputs_exact w2 fs {[addr1]} (Token 8) Hw) as Hf. rewrite decide_False in Hf; [exact Hf|].
    change (asset_kind (Token 8)) with (asset_kind (Token 5)). rewrite Hs.
    intros Hle. vm_compute in Hle. apply Hle. reflexivity.
Defined.

Lemma payment_conserves_witness : ∃ (fs : FundStore) tx_cons change q w' fs' known',
  fetch_tx_ins_and_tx_outs_provided_excess w2 ([0; 2], [18], [35]) (Token 5) [] None =
    Ret (inr (construct_payment_tx_ins tx_cons, change), w') ∧
  wallet_holds w' fs' known' ∧ held (fs_running_total fs) TokenType = held (fs_running_total fs') TokenType + (5 + q).
Proof.
  destruct w2_holds as (_ & fs & _ & _ & Hw & Ht & _ & Hl). pose proof (w2_spendable fs Ht Hl) as Hs.
  destruct (payment_conserves w2 fs {[addr1]} ([0; 2], [18], [35]) (Token 5) [] None Hw)
    as (tc & change & q & w' & fs' & known' & E & Hw' & _ & _ & Hq & _).
  - reflexivity.
  - rewrite Hs. vm_compute. intros Hle. discriminate Hle.
  - exists fs, tc, change, q, w', fs', known'. split; [exact E|]. split; [exact Hw'|].
    specialize (Hq TokenType). rewrite decide_True in Hq by reflexivity. exact Hq.
Defined.

Lemma change_passphrase_witness : ∃ w', change_wallet_passphrase w0 "pass" "new" [6] [1; 1] = Ret (inr (), w') ∧
  wallet_get_master_key_store w' "new" = Ret (inr [7]).
Proof.
  destruct w0_new as [E0 (_ & m & Hm & _)].
  destruct (new_wallet_holds [1] (Some "pass") [5] [7] [0; 0]) as (w & E & _ & _ & Hk); [done..|].
  rewrite E0 in E. injection E as [= <-].
  destruct (change_passphrase_roundtrip w0 m "pass" "new" [6] [1; 1] (inr [7]) Hm) as (w' & H1w & H2w & _).
  - reflexivity.
  - exact Hk.
  - exists w'. split; [exact H1w|exact H2w].
Defined.

Lemma cleanup_keeps_funds_witness : ∃ removed (fs : FundStore) w',
  wallet_destroy_spent_transactions_and_keys w2 (Some {[addr1]}) = Ret (removed, fs_spent fs, w') ∧
  fetch_inputs_for_payment w' (Token 5) = fetch_inputs_for_payment w2 (Token 5).
Proof.
  destruct w2_holds as (_ & fs & _ & _ & Hw & _).
  destruct (cleanup_keeps_funds w2 fs {[addr1]} (Some {[addr1]}) (Token 5) Hw) as (removed & w' & E & _ & _ & Hf & _).
  - intros a Ha. change (a ∈ ({[addr1]} : gset string)) in Ha. apply elem_of_singleton in Ha as ->.
    exact (constructed_addr_key [17] None).
  - exists removed, fs, w'. split; [exact E|exact Hf].
Defined.

Lemma reserved_address_loses_funds_witness : ∃ res,
  wallet_destroy_spent_transactions_and_keys w2 (Some {[FUND_KEY]}) = Ret res ∧
  wallet_get_fund_store res.2 = Ret FundStore_default.
Proof. destruct w2_holds as (_ & fs & _ & _ & Hw & _). exact (reserved_address_loses_funds w2 fs {[addr1]} Hw). Defined.

Lemma reserved_address_overwrites_witness : ∃ w' s,
  save_address_to_wallet w2 [0; 3] FUND_KEY (mkAddressStore [1] [2] None) = Ret w' ∧
  get_db_value w' FUND_KEY = Ret (Some s) ∧ decrypt_store s (encryption_key w2) = Ret (serialize (mkAddressStore [1] [2] None)).
Proof. destruct w2_holds as (_ & fs & _ & _ & Hw & _). exact (reserved_address_overwrites w2 fs {[addr1]} [0; 3] (mkAddressStore [1] [2] None) Hw eq_refl). Defined.
End WalletExamples.
