(* ===== verification/WalletFrame.v ===== *)
(** * What the nodes keep in the wallet's database

    A miner keeps its last coinbase and its mining address, a test user the state
    of its generator, in the column where the wallet has its own records.  No
    operation of the wallet touches such a value ([holds_value]). *)
From S2P Require Import Prelude Externals Utils DbUtils FundStore Wallet.

(** A key that nothing else of the wallet is stored under. *)
Class FreeKey `{NaomCrypto, Bincode OutPoint} (key : string) : Prop := {
  free_reserved : key ∉ reserved_keys;
  free_out_point (op : OutPoint) : string_codes key ≠ serialize op;
  free_address pk v : key ≠ construct_address_for pk v;
}.

Section frame.
Context `{NaomAssets, NaomCrypto, NaomPayments, Bincode (FundStoreOf AssetValues)}.
Context `{Bincode (gset string), !BincodeLaws (gset string), Bincode AddressStore}.
Context `{Bincode TransactionStore, !BincodeLaws TransactionStore, Bincode OutPoint, !WalletKeysLaws}.
Context `{Bincode (gmap string Z), Bincode (list (string * Z))}.
Context (key : string) `{!FreeKey key}.
Implicit Types (m : gmap (list Z) (list Z)) (w : WalletDb) (l : list (list Z * option (list Z))).

(** The addresses that the record under [k] names are not the key. *)
Definition names_other (k v : list Z) : Prop :=
  (k = string_codes KNOWN_ADDRESS_KEY → ∀ known : gset string, deserialize v = Some known → key ∉ known) ∧
  (∀ op : OutPoint, k = serialize op → ∀ ts, deserialize v = Some ts → key_address ts ≠ key).
Definition content_safe m : Prop := ∀ k v, m !! k = Some v → names_other k v.
Definition op_safe (o : list Z * option (list Z)) : Prop :=
  o.1 ≠ string_codes key ∧ ∀ v, o.2 = Some v → names_other o.1 v.

Definition holds_value (v : option (list Z)) w : Prop :=
  ∃ m, db_at DB_COL_DEFAULT (wallet_db w) m ∧ content_safe m ∧ m !! string_codes key = v.

Lemma kv_op_safe m o : content_safe m → op_safe o →
  content_safe (kv_op m o) ∧ kv_op m o !! string_codes key = m !! string_codes key.
Proof.
  intros Hm [Hk Hv]. destruct o as [k [v|]]; cbn in *; unfold kv_op; cbn.
  - rewrite lookup_insert_ne by done. split; [|done]. intros k' v'.
    destruct (decide (k = k')) as [<-|]; [rewrite lookup_insert_eq; intros [= <-]; by apply Hv|].
    rewrite lookup_insert_ne by done. apply Hm.
  - rewrite lookup_delete_ne by done. split; [|done]. intros k' v' [_ Hl]%lookup_delete_Some. by apply Hm.
Qed.
Lemma kv_ops_safe m l : content_safe m → Forall op_safe l →
  content_safe (foldl kv_op m l) ∧ foldl kv_op m l !! string_codes key = m !! string_codes key.
Proof.
  intros Hm Hl. revert m Hm; induction Hl as [|o l Ho _ IH]; intros m Hm; [done|]. cbn [foldl].
  destruct (kv_op_safe m o Hm Ho) as [Hs1 <-]. by apply IH.
Qed.

(** The records that the wallet writes. *)
Lemma safe_other k v : k ≠ string_codes key → k ≠ string_codes KNOWN_ADDRESS_KEY → (∀ op : OutPoint, k ≠ serialize op) →
  op_safe (k, Some v).
Proof. intros Hk Hn Ho. split; [done|]. intros v' [= <-]. split; [by intros ?%Hn|by intros op ?%Ho]. Qed.
Lemma safe_delete k : k ≠ string_codes key → op_safe (k, None).
Proof. by split. Qed.
Lemma reserved_not_key s : s ∈ reserved_keys → string_codes s ≠ string_codes key.
Proof. intros Hs E%(inj string_codes). subst. by apply free_reserved in Hs. Qed.
Lemma safe_fund v : op_safe (string_codes FUND_KEY, Some v).
Proof. apply safe_other; [apply reserved_not_key, fund_reserved|done|intros op; apply fund_op]. Qed.
Lemma safe_locked v : op_safe (string_codes LOCKED_COINBASE_KEY, Some v).
Proof. apply safe_other; [apply reserved_not_key, locked_reserved|done|intros op; apply locked_op]. Qed.
Lemma safe_known (known : gset string) : key ∉ known → op_safe (string_codes KNOWN_ADDRESS_KEY, Some (serialize known)).
Proof.
  intros Hk. split; [apply reserved_not_key, known_reserved|]. cbn. intros v [= <-]. split; cbn.
  - intros _ known'. rewrite deserialize_serialize. by intros [= <-].
  - by intros op ?%known_op.
Qed.
Lemma safe_address pk v s : op_safe (string_codes (construct_address_for pk v), Some s).
Proof.
  apply safe_other.
  - intros E%(inj string_codes). by eapply (free_address pk v).
  - intros E%(inj string_codes). destruct (constructed_addr_key pk v) as [Hr _]. rewrite E in Hr. apply Hr, known_reserved.
  - intros op. apply constructed_addr_key.
Qed.
Lemma safe_tx (op : OutPoint) a : a ≠ key → op_safe (serialize op, Some (serialize (mkTransactionStore a))).
Proof.
  intros Ha. split; [cbn; intros E; by apply (free_out_point op)|]. cbn. intros v [= <-]. split.
  - intros E. exfalso. by apply (known_op op).
  - intros _ _ ts. rewrite deserialize_serialize. by intros [= <-].
Qed.

(** A batch of such records. *)
Lemma write_safe v w m b l : db_at DB_COL_DEFAULT (wallet_db w) m → content_safe m → m !! string_codes key = v →
  batch_at DB_COL_DEFAULT (wallet_db w) b l → Forall op_safe l →
  ∃ db, write (wallet_db w) (batch_done b) = Ret db ∧ holds_value v (w <| wallet_db := db |>).
Proof.
  intros Hm Hs Hv Hb Hl. destruct (batch_at_write _ _ _ _ _ Hm Hb) as (db & E & Hat & _). exists db. split; [done|].
  destruct (kv_ops_safe m l Hs Hl) as [Hs1 Hv1]. exists (foldl kv_op m l). split; [exact Hat|]. split; [done|]. by rewrite Hv1.
Qed.
Lemma put_safe v w k s : holds_value v w → op_safe (string_codes k, Some s) →
  okm (holds_value v) (set_db_value w k s).
Proof.
  intros (m & Hm & Hs & Hv) Ho w' Hw. unfold set_db_value in Hw.
  destruct (db_at_put _ _ _ (string_codes k) s Hm) as (db & E & Hat). rewrite E in Hw. injection Hw as <-.
  destruct (kv_op_safe m _ Hs Ho) as [Hs1 Hv1]. eexists. split; [exact Hat|]. split; [exact Hs1|]. by rewrite <-Hv, <-Hv1.
Qed.
Lemma delete_safe v w k : holds_value v w → k ≠ key → okm (holds_value v) (delete_db_value w k).
Proof.
  intros (m & Hm & Hs & Hv) Hk w' Hw. unfold delete_db_value in Hw.
  destruct (db_at_delete _ _ _ (string_codes k) Hm) as (db & E & Hat). rewrite E in Hw. injection Hw as <-.
  destruct (kv_op_safe m (string_codes k, None) Hs) as [Hs1 Hv1]; [apply safe_delete; by intros ?%(inj string_codes)|].
  eexists. split; [exact Hat|]. split; [exact Hs1|]. by rewrite <-Hv, <-Hv1.
Qed.

(** *** The key itself *)
Lemma safe_self s : names_other (string_codes key) s.
Proof.
  split; [intros E%(inj string_codes); destruct free_reserved; rewrite E; apply known_reserved|].
  by intros op ?%free_out_point.
Qed.
Lemma put_self v w s : holds_value v w → okm (holds_value (Some s)) (set_db_value w key s).
Proof.
  intros (m & Hm & Hs & _) w' Hw. unfold set_db_value in Hw.
  destruct (db_at_put _ _ _ (string_codes key) s Hm) as (db & E & Hat). rewrite E in Hw. injection Hw as <-.
  eexists. split; [exact Hat|]. rewrite lookup_insert_eq. split; [|done]. intros k v'.
  destruct (decide (k = string_codes key)) as [->|]; [intros _; apply safe_self|].
  rewrite lookup_insert_ne by done. apply Hs.
Qed.
Lemma delete_self v w : holds_value v w → okm (holds_value None) (delete_db_value w key).
Proof.
  intros (m & Hm & Hs & _) w' Hw. unfold delete_db_value in Hw.
  destruct (db_at_delete _ _ _ (string_codes key) Hm) as (db & E & Hat). rewrite E in Hw. injection Hw as <-.
  eexists. split; [exact Hat|]. rewrite lookup_delete_eq. split; [|done]. intros k v' [_ Hl]%lookup_delete_Some. by apply Hs.
Qed.
Lemma holds_get v w : holds_value v w → get_db_value w key = Ret v.
Proof. intros (m & Hm & _ & <-). unfold get_db_value. by rewrite (db_at_get _ _ m). Qed.

(** *** The operations of the wallet *)
Lemma known_safe w m known : db_at DB_COL_DEFAULT (wallet_db w) m → content_safe m →
  get_known_key_address (wallet_db w) = Ret known → key ∉ known.
Proof.
  intros Hm Hs. unfold get_known_key_address. rewrite (db_at_get _ _ m) by done. cbn [obind].
  destruct (m !! string_codes KNOWN_ADDRESS_KEY) as [s|] eqn:E; [|intros [= <-]; set_solver].
  intros Hd%unwrap_ret. by eapply (Hs _ _ E).
Qed.
Lemma tx_store_safe w m op ts : db_at DB_COL_DEFAULT (wallet_db w) m → content_safe m →
  get_transaction_store (wallet_db w) op = Ret ts → key_address ts ≠ key.
Proof.
  intros Hm Hs. unfold get_transaction_store. rewrite (db_at_get _ _ m) by done. cbn [obind].
  intros (s & E%unwrap_ret & Hd%unwrap_ret)%obind_ret. by eapply (Hs _ _ E).
Qed.

Lemma generate_payment_safe v w r : holds_value v w → okm (λ x, holds_value v x.2) (generate_payment_address w r).
Proof.
  intros (m & Hm & Hs & Hv) [[a ks] w']. unfold generate_payment_address, store_payment_address, save_address_to_wallet.
  cbv zeta. intros (w1 & (known & Hk & Hw)%obind_ret & [= _ _ <-])%obind_ret.
  assert (Hkey : key ∉ known) by by eapply known_safe.
  unfold save_address_store_to_wallet, set_known_key_address in Hw.
  apply obind_ret in Hw as (b1 & (s & _ & Hb1)%obind_ret & Hw).
  destruct (batch_at_put _ _ _ [] (string_codes (construct_address_for r.1.2 None)) s (batch_at_writer _ _ _ Hm)) as (b & E & Hb).
  rewrite E in Hb1. injection Hb1 as <-. cbn [app] in Hb.
  destruct (batch_at_put _ _ _ _ (string_codes KNOWN_ADDRESS_KEY)
    (serialize ({[construct_address_for r.1.2 None]} ∪ known)) Hb) as (b2 & E2 & Hb2).
  rewrite E2 in Hw. cbn [obind app] in Hw, Hb2.
  destruct (write_safe v w m b2 _ Hm Hs Hv Hb2) as (db & E3 & Hd).
  { constructor; [apply safe_address|]. apply Forall_singleton, safe_known, not_elem_of_union. split; [|done].
    intros E'%elem_of_singleton. by eapply free_address. }
  rewrite E3 in Hw. injection Hw as <-. exact Hd.
Qed.

Lemma save_usable_safe v w payments b : holds_value v w →
  okm (λ x, holds_value v x.2) (save_usable_payments_to_wallet w payments b).
Proof.
  intros (m & Hm & Hs & Hv) [ps w']. unfold save_usable_payments_to_wallet. cbv zeta.
  intros (fs & _ & (known & Hk & ([[fs' b'] lc] & Hloop & Hw)%obind_ret)%obind_ret)%obind_ret.
  assert (Hkey : key ∉ known) by by eapply known_safe.
  assert (Hb' : ∃ l, batch_at DB_COL_DEFAULT (wallet_db w) b' l ∧ Forall op_safe l).
  { assert (Hf : Forall (λ p : OutPoint * Asset * string * Z, p.1.2 ∈ known) (filter (λ p, p.1.2 ∈ known) payments))
      by (apply Forall_forall; intros p Hp; by apply list_elem_of_filter in Hp as [? _]).
    revert Hf Hloop. generalize (filter (λ p : OutPoint * Asset * string * Z, p.1.2 ∈ known) payments).
    assert (Hb0 : ∃ l, batch_at DB_COL_DEFAULT (wallet_db w) (batch_writer (wallet_db w)) l ∧ Forall op_safe l)
      by (exists []; split; [by eapply batch_at_writer|done]).
    revert Hb0. generalize (batch_writer (wallet_db w)) (default ∅ (get_locked_coinbase w)) fs.
    intros b0 lc0 fs0 Hb0 ps0. revert b0 lc0 fs0 Hb0. induction ps0 as [|p ps0 IH]; intros b0 lc0 fs0 Hb0 Hf; cbn [ofold].
    { intros [= _ <- _]. exact Hb0. }
    apply Forall_cons in Hf as [Hp Hf]. intros ([[fs1 b1] lc1] & Hst & Hl)%obind_ret. revert Hl. apply IH; [|done].
    unfold save_usable_step in Hst. destruct p as [[[op a] ka] lt]. cbn in Hp.
    apply obind_ret in Hst as (fs2 & _ & (b2 & Hb2 & [= _ <- _])%obind_ret).
    destruct Hb0 as (l0 & Hb0 & Hl0). unfold save_transaction_to_wallet in Hb2.
    destruct (batch_at_put _ _ _ _ (serialize op) (serialize (mkTransactionStore ka)) Hb0) as (b3 & E3 & Hb3).
    rewrite E3 in Hb2. injection Hb2 as <-. eexists. split; [exact Hb3|]. apply Forall_app. split; [done|].
    apply Forall_singleton, safe_tx. intros ->. done. }
  destruct Hb' as (l & Hb' & Hl). unfold set_fund_store in Hw.
  destruct (batch_at_put _ _ _ _ (string_codes FUND_KEY) (serialize fs') Hb') as (b2 & E2 & Hb2). rewrite E2 in Hw.
  cbn [obind] in Hw. destruct (write_safe v w m b2 _ Hm Hs Hv Hb2) as (db & E3 & Hd).
  { apply Forall_app. split; [done|]. apply Forall_singleton, safe_fund. }
  rewrite E3 in Hw. cbn [obind] in Hw. apply obind_ret in Hw as ([lc' w1] & Hlock & [= _ <-]).
  unfold store_locked_coinbase in Hlock. apply obind_ret in Hlock as (w2 & Hw2 & [= _ <-]).
  exact (put_safe v _ LOCKED_COINBASE_KEY (serialize lc) Hd (safe_locked _) _ Hw2).
Qed.

Lemma store_payment_safe v w tx b : holds_value v w → okm (holds_value v) (store_payment_transaction w tx b).
Proof.
  intros Hw w'. unfold store_payment_transaction. cbv zeta. intros (ps & _ & (x & Hx & [= <-])%obind_ret)%obind_ret.
  exact (save_usable_safe v w ps b Hw _ Hx).
Qed.

Lemma consume_safe v w cons used : holds_value v w → okm (λ x, holds_value v x.2) (consume_inputs_for_payment w cons used).
Proof.
  intros (m & Hm & Hs & Hv) [ins w']. unfold consume_inputs_for_payment. cbv zeta.
  intros (fs & _ & (fs' & _ & Hw)%obind_ret)%obind_ret. unfold set_fund_store in Hw.
  destruct (batch_at_put _ _ _ [] (string_codes FUND_KEY) (serialize fs') (batch_at_writer _ _ _ Hm)) as (b2 & E2 & Hb2).
  rewrite E2 in Hw. cbn [obind app] in Hw, Hb2. destruct (write_safe v w m b2 _ Hm Hs Hv Hb2) as (db & E3 & Hd).
  { apply Forall_singleton, safe_fund. }
  rewrite E3 in Hw. injection Hw as _ <-. exact Hd.
Qed.

Lemma excess_safe v w r a : holds_value v w → okm (λ x, holds_value v x.2) (excess_address_or_new w r a).
Proof.
  intros Hw. destruct a as [a|]; [by apply okm_ret|]. cbn.
  eapply okm_bind; [by apply generate_payment_safe|]. intros x Hx. by apply okm_ret.
Qed.

Lemma merge_safe v w r addrs a : holds_value v w →
  okm (λ x, holds_value v x.2) (fetch_tx_ins_and_tx_outs_merge_input_addrs w r addrs a).
Proof.
  intros Hw. unfold fetch_tx_ins_and_tx_outs_merge_input_addrs. apply okm_bind_any. intros res.
  apply okm_bind_any. intros [[cons total] used]. eapply okm_bind; [by apply excess_safe|]. intros aw Haw. cbv zeta.
  eapply okm_bind; [apply consume_safe, Haw|]. intros iw Hiw. by apply okm_ret.
Qed.

Lemma payment_safe v w r req outs a : holds_value v w →
  okm (λ x, holds_value v x.2) (fetch_tx_ins_and_tx_outs_provided_excess w r req outs a).
Proof.
  intros Hw. unfold fetch_tx_ins_and_tx_outs_provided_excess. apply okm_bind_any. intros [e|[[cons total] used]].
  { by apply okm_ret. }
  eapply (okm_bind (λ x, holds_value v x.2)).
  - destruct (get_excess total req); [|by apply okm_ret]. eapply okm_bind; [by apply excess_safe|]. intros aw Haw.
    by apply okm_ret.
  - intros ow How. eapply okm_bind; [apply consume_safe, How|]. intros iw Hiw. by apply okm_ret.
Qed.

Lemma key_addresses_safe w m txs s : db_at DB_COL_DEFAULT (wallet_db w) m → content_safe m →
  key_addresses (wallet_db w) txs = Ret s → key ∉ s.
Proof.
  intros Hm Hs. unfold key_addresses. assert (He : key ∉ (∅ : gset string)) by set_solver.
  revert He. generalize (∅ : gset string). induction (bt_keys txs) as [|op ops IH]; intros s0 Hs0; cbn [ofold]; [by intros [= <-]|].
  intros (s1 & (ts & Hts & [= <-])%obind_ret & Hl)%obind_ret. revert Hl. apply IH.
  apply not_elem_of_union. split; [|done]. intros E%elem_of_singleton. by eapply tx_store_safe.
Qed.

(** The clean-up, when it is not asked to remove the key as an address. *)
Lemma destroy_safe v w addresses : key ∉ default ∅ addresses → holds_value v w →
  okm (λ x, holds_value v x.2) (wallet_destroy_spent_transactions_and_keys w addresses).
Proof.
  intros Hna (m & Hm & Hs & Hv) [r w']. unfold wallet_destroy_spent_transactions_and_keys, destroy_spent_transactions_and_keys.
  cbv zeta. intros ([r' db] & Hd & [= _ <-])%obind_ret.
  apply obind_ret in Hd as (empty & Hem & (fs & _ & (known & Hk & Hd)%obind_ret)%obind_ret).
  assert (Hkey : key ∉ known) by by eapply known_safe.
  assert (Hempty : key ∉ empty).
  { unfold retrieve_empty_addresses, retrieve_empty_or_non_empty_addresses in Hem.
    apply obind_ret in Hem as (fs' & _ & (un & _ & [= <-])%obind_ret). intros [_ ?]%elem_of_filter. done. }
  destruct (remove_spent_transactions fs) as [spent fs'] eqn:Ers. cbn [setter] in Hd.
  apply obind_ret in Hd as (un & _ & (sp & Hsp & Hd)%obind_ret).
  pose proof (key_addresses_safe w m spent sp Hm Hs Hsp) as Hksp.
  revert Hd. set (removed := filter _ sp ∪ empty). intros Hd.
  assert (Hrem : key ∉ removed) by (unfold removed; rewrite not_elem_of_union, elem_of_filter; naive_solver).
  clearbody removed. unfold set_fund_store, set_known_key_address in Hd.
  destruct (batch_at_put _ _ _ [] (string_codes FUND_KEY) (serialize fs') (batch_at_writer _ _ _ Hm)) as (b1 & E1 & Hb1).
  rewrite E1 in Hd. cbn [obind app] in Hd, Hb1.
  destruct (batch_at_put _ _ _ _ (string_codes KNOWN_ADDRESS_KEY) (serialize (known ∖ removed)) Hb1) as (b2 & E2 & Hb2).
  rewrite E2 in Hd. cbn [obind] in Hd.
  destruct (ofold_delete string_codes _ _ _ (bt_elems removed) Hb2) as (b3 & E3 & Hb3).
  unfold delete_address_store in Hd. rewrite E3 in Hd. cbn [obind] in Hd.
  destruct (ofold_delete (λ op : OutPoint, serialize op) _ _ _ (bt_keys spent) Hb3) as (b4 & E4 & Hb4).
  unfold delete_transaction_store in Hd. rewrite E4 in Hd. cbn [obind] in Hd.
  destruct (write_safe v w m b4 _ Hm Hs Hv Hb4) as (db' & E5 & Hw).
  - repeat (apply Forall_app; split); [apply Forall_singleton, safe_fund| | |].
    + apply Forall_singleton, safe_known. set_solver.
    + apply Forall_map, Forall_forall. intros a Ha. apply safe_delete. intros E%(inj string_codes). subst.
      by apply elem_of_bt_elems in Ha.
    + apply Forall_map, Forall_forall. intros op _. apply safe_delete. intros E. by apply (free_out_point op).
  - rewrite E5 in Hd. injection Hd as _ <-. exact Hw.
Qed.

Lemma set_locked_safe v w (l : LockedCoinbase) : holds_value v w → holds_value v (set_locked_coinbase w l).
Proof. done. Qed.
Lemma store_locked_safe v w (l : LockedCoinbase) : holds_value v w → okm (λ x, holds_value v x.2) (store_locked_coinbase w l).
Proof.
  intros Hw. unfold store_locked_coinbase. eapply (okm_bind (holds_value v)); [|intros w' Hw'; by apply okm_ret].
  destruct l; [apply put_safe; [done|apply safe_locked]|]. apply delete_safe; [done|].
  intros E. apply (free_reserved (key := key)). rewrite <-E. apply locked_reserved.
Qed.
Lemma filter_locked_safe v w b : holds_value v w → okm (holds_value v) (wallet_filter_locked_coinbase w b).
Proof.
  intros Hw. unfold wallet_filter_locked_coinbase. destruct (_ <=? _); [by apply okm_ret|]. cbv zeta.
  eapply okm_bind; [by apply store_locked_safe|]. intros x Hx. by apply okm_ret.
Qed.
Lemma load_locked_safe v w : holds_value v w → okm (λ x, holds_value v x.2) (load_locked_coinbase w).
Proof.
  intros Hw. unfold load_locked_coinbase. apply okm_bind_any. intros stored. cbv zeta.
  destruct (match stored with Some _ => _ | None => _ end) as [w1|] eqn:E; [|by apply okm_ret].
  assert (Hw1 : holds_value v w1).
  { destruct stored; [|by simplify_eq]. repeat case_match; simplify_eq; done. }
  apply okm_bind_any. intros [s|]; [|by apply okm_ret]. clear E. case_match; by apply okm_ret.
Qed.
End frame.

(** ** Opening the wallet *)
Section opening.
Context `{NaomAssets, NaomCrypto, NaomPayments, Bincode (FundStoreOf AssetValues)}.
Context `{Bincode (gset string), !BincodeLaws (gset string), Bincode AddressStore}.
Context `{Bincode TransactionStore, !BincodeLaws TransactionStore, Bincode OutPoint, !WalletKeysLaws}.
Context `{Bincode (gmap string Z), Bincode (list (string * Z)), Bincode MasterKeyStore}.
Context (key : string) `{!FreeKey key, !FreeKey DB_VERSION_KEY} (key_not_version : key ≠ DB_VERSION_KEY).
Implicit Types (w : WalletDb) (db : SimpleDb).

Definition db_holds (v : option (list Z)) db : Prop :=
  ∃ m, db_at DB_COL_DEFAULT db m ∧ content_safe key m ∧ m !! string_codes key = v.
Lemma holds_db v w : holds_value key v w ↔ db_holds v (wallet_db w).
Proof. done. Qed.

Lemma opened_safe v db passphrase salt mk nonce (r : WalletDbError + WalletDb) : db_holds v db →
  (let batch := batch_writer db in
   let! r := get_or_save_master_key_store db batch (string_codes (default "" passphrase)) salt mk nonce in
   match r.1 with
   | inl e => Ret (inl e)
   | inr masterkey => let! db := write db (batch_done r.2) in Ret (inr (mkWalletDb db masterkey None None None))
   end) = Ret r →
  ∀ w, r = inr w → holds_value key v w.
Proof.
  intros (m & Hm & Hs & Hv) Hr w ->. cbv zeta in Hr. apply obind_ret in Hr as ([[e|mk'] b] & Hg & Hr); [done|]. cbn [fst snd] in Hr.
  set (w0 := mkWalletDb db [] None None None).
  assert (Hb : ∃ l, batch_at DB_COL_DEFAULT (wallet_db w0) b l ∧ Forall (op_safe key) l).
  { unfold get_or_save_master_key_store in Hg. apply obind_ret in Hg as ([e|k] & _ & Hg).
    2:{ injection Hg as [= _ <-]. exists []. split; [by eapply batch_at_writer|done]. }
    destruct e; try done. apply obind_ret in Hg as ([k b'] & Hk & [= <- <-]). unfold set_new_master_key_store in Hk.
    apply obind_ret in Hk as (pk & _ & (c & _ & (b1 & Hb1 & [= _ <-])%obind_ret)%obind_ret).
    set (st := serialize _) in Hb1.
    destruct (batch_at_put _ _ _ [] (string_codes MASTER_KEY_STORE_KEY) st (batch_at_writer _ _ _ Hm)) as (b2 & E2 & Hb2).
    rewrite E2 in Hb1. injection Hb1 as <-. eexists. split; [exact Hb2|]. apply Forall_singleton.
    assert (Hmk : MASTER_KEY_STORE_KEY ∈ reserved_keys) by (right; right; right; left). apply safe_other.
    - by apply reserved_not_key.
    - done.
    - intros op. by apply out_point_not_reserved. }
  destruct Hb as (l & Hb & Hl).
  destruct (write_safe key v w0 m b l Hm Hs Hv Hb Hl) as (db' & E & Hd). change (wallet_db w0) with db in E.
  rewrite E in Hr. by injection Hr as <-.
Qed.

Lemma reopen_safe v db NV passphrase salt mk nonce : db_holds v db →
  okm (λ r, ∀ w, r = inr w → holds_value key v w) (WalletDb_new NV (Some db) passphrase salt mk nonce).
Proof.
  intros Hd r. unfold WalletDb_new. intros (db1 & Hn & Hr)%obind_ret.
  assert (db1 = db) as ->; [|by eapply (opened_safe v db)].
  unfold new_db, new_db_with_version, new_in_memory in Hn.
  destruct (check_old_includes_new _ _); cbn [obind] in Hn; [done|].
  apply obind_ret in Hn as (x & (c & _ & [= <-])%obind_ret & Hx). destruct c; by simplify_eq.
Qed.
Lemma fresh_safe NV passphrase salt mk nonce :
  okm (λ r, ∀ w, r = inr w → holds_value key None w) (WalletDb_new NV None passphrase salt mk nonce).
Proof.
  intros r. unfold WalletDb_new. destruct (new_db_default NV) as (db & -> & Hm). intros Hr.
  eapply (opened_safe None db); [|exact Hr]. exists {[string_codes DB_VERSION_KEY := NV]}. split; [done|]. split.
  - intros k v [<- <-]%lookup_singleton_Some. split; [done|by intros op ?%free_out_point].
  - apply lookup_singleton_ne. by intros E%(inj string_codes).
Qed.
End opening.

(** ** The wallet does not depend on these values *)
Section holds.
Context `{NaomAssets, !AssetMeasure, !NaomAssetsLaws}.
Context `{NaomCrypto, !NaomCryptoLaws}.
Context `{Bincode (FundStoreOf AssetValues), !BincodeLaws (FundStoreOf AssetValues)}.
Context `{Bincode (gset string), !BincodeLaws (gset string)}.
Context `{Bincode AddressStore, !BincodeLaws AddressStore}.
Context `{Bincode TransactionStore, !BincodeLaws TransactionStore}.
Context `{Bincode OutPoint, !WalletKeysLaws}.
Context (key : string) `{!FreeKey key}.
Implicit Types (w : WalletDb).

Lemma free_op_holds ek m fs known v : content_wf ek m fs known → key ∉ known →
  content_wf ek (kv_op m (string_codes key, v)) fs known.
Proof.
  intros Hc Hk. change (kv_op m ?e) with (foldl kv_op m [e]). set (m' := foldl _ _ _).
  assert (Hl : ∀ k, k ≠ string_codes key → m' !! k = m !! k).
  { intros k Hne. apply kv_ops_other. cbn. by rewrite list_elem_of_singleton. }
  assert (Hr : ∀ s, s ∈ reserved_keys → string_codes s ≠ string_codes key) by by apply reserved_not_key.
  assert (Ht : ∀ op, tx_addr m' op = tx_addr m op).
  { intros op. unfold tx_addr. rewrite Hl; [done|]. intros E. by apply (free_out_point (key := key) op). }
  destruct Hc as [Hf Hkn ? ? Htx Hsp Had]. split; [| |done|done| | |].
  - unfold fund_of in *. rewrite Hl; [done|apply Hr, fund_reserved].
  - unfold known_of in *. rewrite Hl; [done|apply Hr, known_reserved].
  - intros op. rewrite Ht. apply Htx.
  - intros op. rewrite Ht. apply Hsp.
  - intros a Ha. destruct (Had a Ha) as (Hka & keys & s & d & Hs & ?). split; [done|]. exists keys, s, d.
    rewrite Hl; [done|]. intros E%(inj string_codes). by subst.
Qed.

Lemma set_value_holds w fs known v : wallet_holds w fs known → key ∉ known →
  ∃ w', set_db_value w key v = Ret w' ∧ wallet_holds w' fs known ∧ locked_coinbase w' = locked_coinbase w.
Proof.
  intros (Hv & m & Hm & Hc) Hk. unfold set_db_value.
  destruct (db_at_put _ _ _ (string_codes key) v Hm) as (db & E & Hm'). rewrite E. eexists. split; [reflexivity|].
  split; [|done]. split; [done|]. eexists. split; [exact Hm'|]. exact (free_op_holds _ _ _ _ (Some v) Hc Hk).
Qed.
Lemma delete_value_holds w fs known : wallet_holds w fs known → key ∉ known →
  ∃ w', delete_db_value w key = Ret w' ∧ wallet_holds w' fs known ∧ locked_coinbase w' = locked_coinbase w ∧
    get_db_value w' key = Ret None.
Proof.
  intros (Hv & m & Hm & Hc) Hk. unfold delete_db_value.
  destruct (db_at_delete _ _ _ (string_codes key) Hm) as (db & E & Hm'). rewrite E. eexists. split; [reflexivity|].
  split_and!; [|done|].
  - split; [done|]. eexists. split; [exact Hm'|]. exact (free_op_holds _ _ _ _ None Hc Hk).
  - unfold get_db_value. cbn [wallet_db setter]. by rewrite (db_at_get _ _ _ _ Hm'), lookup_delete_eq.
Qed.
End holds.
