(* ===== verification/Miner.v ===== *)
(** * The miner node: [MinerNode] of [src/miner.rs]

    The proof of work of the round, the coinbase it may win, the participation
    proof, pauses, and the aggregation of winnings, on top of [Wallet] and
    [Comms].  What the environment decides within one event (key pairs drawn,
    what a connection comes to) is a record of arguments, [Env].  Messages to the
    user interface and the time of a search are left out. *)
From S2P Require Import Prelude Externals Utils TrackedUtxo Unicorn Interfaces Comms ActiveRaft RaftUtil BlockPipeline ComputeConsensused Requests DbUtils FundStore Wallet.

Definition LAST_COINBASE_KEY : string := "LastCoinbaseKey".
Definition MINING_ADDRESS_KEY : string := "MiningAddressKey".

Record BlockPoWInfo := mkBlockPoWInfo { bi_peer : SocketAddr; bi_header : BlockHeader; bi_coinbase : Transaction }.
#[export] Instance eta_BlockPoWInfo : Eta BlockPoWInfo := λ r, mkBlockPoWInfo (bi_peer r) (bi_header r) (bi_coinbase r).
Record BlockPoWReceived := mkBlockPoWReceived { br_block : BlockHeader; br_reward : TokenAmount }.

Inductive MinerError :=
  | MinerConfig (s : string) | MinerNetwork (e : CommsError) | MinerSerialization | MinerAsyncTask
  | MinerWallet (e : WalletDbError).
Inductive AggregationStatus := AggregationIdle | UtxoUpdate (addr : string).

(** What the partition task starts from: peer, round, text of the address and
    random number. *)
Record PartitionInput := mkPartitionInput {
  pi_peer : SocketAddr; pi_pow_info : PowInfo; pi_address : string; pi_rand_num : option (list Z) }.

Record MinerNode (C : Type) := mkMinerNode {
  node : Node C;
  mn_wallet : WalletDb;
  local_events : list LocalEvent;
  compute_addr : SocketAddr;
  rand_num : list Z;
  pause_node : bool;
  address_aggregation_limit : option nat;
  current_block : option BlockPoWReceived;
  current_coinbase : option (string * Transaction);
  current_payment_address : option string;
  static_miner_address : option string;
  aggregation_status : AggregationStatus;
  wait_partition_task : bool;
  received_utxo_set : option UtxoSet;
  mining_partition_task : RunningTaskOrResult PartitionInput (ProofOfWork * PowInfo * SocketAddr);
  mining_block_task : RunningTaskOrResult BlockPoWInfo BlockPoWInfo;
  mining_api_key : option string;
  blockchain_item_received : option (string * BlockchainItem * SocketAddr);
}.
Arguments mkMinerNode {C}. Arguments node {C}. Arguments mn_wallet {C}. Arguments local_events {C}.
Arguments compute_addr {C}. Arguments rand_num {C}. Arguments pause_node {C}. Arguments address_aggregation_limit {C}.
Arguments current_block {C}. Arguments current_coinbase {C}. Arguments current_payment_address {C}.
Arguments static_miner_address {C}. Arguments aggregation_status {C}. Arguments wait_partition_task {C}.
Arguments received_utxo_set {C}. Arguments mining_partition_task {C}. Arguments mining_block_task {C}.
Arguments mining_api_key {C}. Arguments blockchain_item_received {C}.
#[export] Instance eta_MinerNode C : Eta (MinerNode C) := λ r,
  mkMinerNode (node r) (mn_wallet r) (local_events r) (compute_addr r) (rand_num r) (pause_node r)
    (address_aggregation_limit r) (current_block r) (current_coinbase r) (current_payment_address r)
    (static_miner_address r) (aggregation_status r) (wait_partition_task r) (received_utxo_set r)
    (mining_partition_task r) (mining_block_task r) (mining_api_key r) (blockchain_item_received r).

(** Within one event: the key pairs of a new mining address and of the
    aggregation address; what opening a connection gives, what the wait for the
    answer to the handshake comes to, with the state the reading tasks leave, and
    whether the tasks of a closed connection end well. *)
Notation Rand := (list Z * list Z * list Z)%type (only parsing).
Record Env (C : Type) := mkEnv {
  env_mining_key : Rand;
  env_aggregation_key : Rand;
  env_stream : CommsError + SocketAddr * option C;
  env_handshake : Node C → (CommsError + unit) * Node C;
  env_joined : bool;
}.
Arguments mkEnv {C}. Arguments env_mining_key {C}. Arguments env_aggregation_key {C}. Arguments env_stream {C}.
Arguments env_handshake {C}. Arguments env_joined {C}.

(** The configuration fields that [MinerNode::new] reads. *)
Record MinerNodeConfig := mkMinerNodeConfig {
  mc_miner_address : SocketAddr;
  mc_compute_nodes : list SocketAddr;
  mc_miner_compute_node_idx : nat;
  mc_socket_name_mapping : gmap SocketAddr string;
  mc_passphrase : option string;
  mc_peer_limit : Z;
  mc_static_miner_address : option string;
  mc_mining_api_key : option string;
  mc_address_aggregation_limit : option nat;
}.

(** ** Values of the wallet *)
Section values.
Context `{Bincode string, Bincode (string * Transaction), NaomAssets, NaomCrypto, NaomPayments, Bincode (FundStoreOf AssetValues),
  Bincode (gset string), Bincode AddressStore, Bincode TransactionStore, Bincode OutPoint, Bincode MasterKeyStore}.
Implicit Types w : WalletDb.

(** [None] when there is no value, an error when it cannot be read. *)
Definition load_value (T : Type) `{Bincode T} w (key : string) : outcome (MinerError + option T) :=
  let! stored := get_db_value w key in
  Ret (match stored with
       | None => inr None
       | Some v => match deserialize v with Some x => inr (Some x) | None => inl MinerSerialization end
       end).

Definition load_mining_address w : outcome (MinerError + option string) := load_value string w MINING_ADDRESS_KEY.
Definition load_last_coinbase w : outcome (MinerError + option (string * Transaction)) :=
  load_value (string * Transaction) w LAST_COINBASE_KEY.

Definition generate_mining_address w (r : Rand) : outcome (string * WalletDb) :=
  let! g := generate_payment_address w r in
  let addr := g.1.1 in
  let! w := set_db_value g.2 MINING_ADDRESS_KEY (serialize addr) in
  Ret (addr, w).

Definition store_last_coinbase w (coinbase : option (string * Transaction)) :
    outcome (option (string * Transaction) * WalletDb) :=
  let! w := match coinbase with
            | Some cb => set_db_value w LAST_COINBASE_KEY (serialize cb)
            | None => delete_db_value w LAST_COINBASE_KEY
            end in
  Ret (coinbase, w).
End values.

(** ** The node *)
Section miner.
Context `{CommsCrates, Ipv6Display, Naom, !NaomAssets, NaomReceipts, NaomCoinbase, NaomCrypto, NaomPayments, Hex}.
Context `{Bincode string, Bincode (string * Transaction), Bincode (FundStoreOf AssetValues), Bincode (gset string),
  Bincode AddressStore, Bincode TransactionStore, Bincode OutPoint, Bincode MasterKeyStore, Bincode (gmap string Z),
  Bincode (list (string * Z)), Bincode BlockHeader}.
Context {M : Type} `{Bincode (ComputeRequest.t M), Bincode (StorageRequest M), Bincode MineRequest.t}.
(** [block::build_merkle_tree] of naom, and the root of the tree. *)
Context (build_merkle_tree_root : list string → option (list Z)).
Notation MinerNode := (MinerNode TlsCertificate).
Notation Env := (Env TlsCertificate).
Implicit Types n : MinerNode.

(** *** Getters and setters *)
Definition local_address n : SocketAddr := local_listener_address (node n).
Definition public_address n : option SocketAddr := public_listener_address (node n).
Definition is_disconnected n : bool :=
  match unconnected_peers (node n) [compute_addr n] with [] => false | _ => true end.
Definition connect_info_peers n : list SocketAddr * list SocketAddr := ([compute_addr n], [compute_addr n]).
Definition force_set_paused n (paused : bool) : MinerNode := n <| pause_node := paused |>.
Definition set_static_miner_address n (address : option string) : MinerNode := n <| static_miner_address := address |>.
Definition set_mining_api_key n (api_key : option string) : MinerNode := n <| mining_api_key := api_key |>.
Definition has_aggregation_tx_active n : option string :=
  match aggregation_status n with UtxoUpdate addr => Some addr | AggregationIdle => None end.
Definition current_b_num n : option Z := (λ c, b_num (br_block c)) <$> current_block n.

(** *** Sending *)
Definition send_compute n (peer : SocketAddr) (msg : ComputeRequest.t M) : (CommsError + unit) * MinerNode :=
  let '(res, nd) := Comms.send (node n) peer (serialize msg) in (res, n <| node := nd |>).

Definition send_pow n (peer : SocketAddr) (block_num : Z) (nonce : list Z) (coinbase : Transaction) :=
  send_compute n peer (ComputeRequest.SendPoW block_num nonce coinbase).
Definition send_partition_pow n (peer : SocketAddr) (pow_info : PowInfo) (partition_entry : ProofOfWork) :=
  send_compute n peer (ComputeRequest.SendPartitionEntry pow_info partition_entry).
Definition send_partition_request n :=
  send_compute n (compute_addr n) (ComputeRequest.SendPartitionRequest (mining_api_key n)).
Definition send_startup_requests n := send_partition_request n.
Definition send_transactions_to_compute n (compute_peer : SocketAddr) (transactions : list Transaction) :=
  send_compute n compute_peer (ComputeRequest.SendTransactions transactions).
Definition send_request_utxo_set n (address_list : UtxoFetchType) (compute_addr : SocketAddr) (t : NodeType) :=
  send_compute n compute_addr (ComputeRequest.SendUtxoRequest address_list t).
Definition request_blockchain_item n (key : string) (storage_node_addr : SocketAddr) : (CommsError + unit) * MinerNode :=
  let n := n <| blockchain_item_received := None |> in
  let '(res, nd) := Comms.send (node n) storage_node_addr (serialize (GetBlockchainItem (M := M) key)) in
  (res, n <| node := nd |>).

(** *** Starting *)
Definition load_local_db n (r : Rand) : outcome (MinerError + MinerNode) :=
  let! l := load_locked_coinbase (mn_wallet n) in
  let n := n <| mn_wallet := l.2 |> in
  let! n := match l.1 with
            | inr _ => Ret n
            | inl _ =>
                let! all_known_addresses := get_known_addresses (mn_wallet n) in
                Ret (send_compute n (compute_addr n) (ComputeRequest.SendUtxoRequest (AnyOf all_known_addresses) Miner)).2
            end in
  let! cb := load_last_coinbase (mn_wallet n) in
  match cb with
  | inl e => Ret (inl e)
  | inr cb =>
      let n := n <| current_coinbase := cb |> in
      match static_miner_address n with
      | Some static_address => Ret (inr (n <| current_payment_address := Some static_address |>))
      | None =>
          let! a := load_mining_address (mn_wallet n) in
          match a with
          | inl e => Ret (inl e)
          | inr (Some addr) => Ret (inr (n <| current_payment_address := Some addr |>))
          | inr None =>
              let! g := generate_mining_address (mn_wallet n) r in
              Ret (inr (n <| mn_wallet := g.2 |> <| current_payment_address := Some g.1 |>))
          end
      end
  end.

(** The salt, key and nonces are drawn by the wallet; opening the sockets is
    assumed to succeed, and no file is restored. *)
Definition MinerNode_new (NV : list Z) (NETWORK_VERSION : Z) (config : MinerNodeConfig) (extra_wallet : option SimpleDb)
    (disable_tcp_listener : bool) (rng : nat → Z) (salt master_key nonce : list Z) (r : Rand) :
    outcome (MinerError + MinerNode) :=
  match mc_compute_nodes config !! mc_miner_compute_node_idx config with
  | None => Ret (inl (MinerConfig "Invalid compute index"))
  | Some compute_addr =>
      let! w := WalletDb_new NV extra_wallet (mc_passphrase config) salt master_key nonce in
      match w with
      | inl e => Ret (inl (MinerWallet e))
      | inr w =>
          let nd := Node_new (mc_miner_address config) (mc_socket_name_mapping config) rng (mc_peer_limit config) Miner
                      NETWORK_VERSION disable_tcp_listener false in
          load_local_db
            (mkMinerNode nd w [] compute_addr [] false (mc_address_aggregation_limit config) None None None
               (mc_static_miner_address config) AggregationIdle false None TaskNone TaskNone (mc_mining_api_key config)
               None) r
      end
  end.

(** *** Proofs of work *)

(** The two searches, on the nonces drawn so far. *)
Definition block_task (nonces : list (list Z)) (info : BlockPoWInfo) : outcome (option BlockPoWInfo) :=
  let! h := generate_pow_for_block nonces (bi_header info) in
  Ret ((λ h, info <| bi_header := h |>) <$> h).
Definition generate_pow_for_address (nonces : list (list Z)) (i : PartitionInput) :
    outcome (option (ProofOfWork * PowInfo * SocketAddr)) :=
  let! pow := generate_pow_for_address_loop nonces (pi_address i) (pi_rand_num i) in
  Ret ((λ pow, (pow, pi_pow_info i, pi_peer i)) <$> pow).

Definition start_generate_pow_for_current_block n (peer : SocketAddr) (new_block : BlockPoWReceived) : outcome MinerNode :=
  let b_num := b_num (br_block new_block) in
  let! current_payment_address := unwrap (current_payment_address n) in
  let mining_tx := construct_coinbase_tx b_num (br_reward new_block) current_payment_address in
  let mining_tx_hash := construct_tx_hash mining_tx in
  let header := apply_mining_tx (br_block new_block) [] mining_tx_hash in
  Ret (n <| mining_block_task := TaskRunning (mkBlockPoWInfo peer header mining_tx) |>
         <| current_block := Some new_block |>).

Definition start_generate_partition_pow n (peer : SocketAddr) (pow_info : PowInfo) (rand_num' : list Z) : MinerNode :=
  match public_address n with
  | Some public_addr =>
      let address_proof := format_parition_pow_address public_addr in
      n <| wait_partition_task := true |>
        <| mining_partition_task := TaskRunning (mkPartitionInput peer pow_info address_proof (Some rand_num')) |>
        <| rand_num := rand_num' |>
  | None => n
  end.

Definition process_found_block_pow n : outcome (bool * MinerNode) :=
  match completed_result (mining_block_task n) with
  | Some (Some info) =>
      let '(nonce, coinbase_hash) := nonce_and_mining_tx_hash (bi_header info) in
      if negb (pause_node n) then
        let '(res, n) := send_pow n (bi_peer info) (b_num (bi_header info)) nonce (bi_coinbase info) in
        match res with
        | inl _ => Ret (false, n)
        | inr _ =>
            let! s := store_last_coinbase (mn_wallet n) (Some (coinbase_hash, bi_coinbase info)) in
            Ret (true, n <| mn_wallet := s.2 |> <| current_coinbase := s.1 |>)
        end
      else Ret (true, n)
  | _ => Ret (false, n)
  end.

Definition process_found_partition_pow n : bool * MinerNode :=
  match completed_result (mining_partition_task n) with
  | Some (Some (partition_entry, p_info, peer)) =>
      if negb (pause_node n) then
        let '(res, n) := send_partition_pow n peer p_info partition_entry in
        match res with inl _ => (false, n) | inr _ => (true, n) end
      else (true, n)
  | _ => (false, n)
  end.

(** *** Winnings *)
Definition is_current_coinbase_found n (win_coinbases : list string) : bool :=
  match current_coinbase n with Some (tx_hash, _) => bool_decide (tx_hash ∈ win_coinbases) | None => false end.

(** [unwrap_or] evaluates its argument: a new mining address is generated even
    when there is a static one.  The file back-up is not modelled. *)
Definition commit_found_coinbase n (r : Rand) : outcome MinerNode :=
  let! g := generate_mining_address (mn_wallet n) r in
  let n := n <| mn_wallet := g.2 |> <| current_payment_address := Some (default g.1 (static_miner_address n)) |> in
  let! s := store_last_coinbase (mn_wallet n) None in
  let taken := current_coinbase n in
  let n := n <| mn_wallet := s.2 |> <| current_coinbase := s.1 |> in
  let! won := unwrap taken in
  let! payments := get_paiments_for_wallet [won] in
  let b_num := default 0 (current_b_num n) in
  let! p := save_usable_payments_to_wallet (mn_wallet n) payments b_num in
  Ret (n <| mn_wallet := p.2 |>).

Definition check_for_threshold_and_send_aggregation_tx n (r : Rand) : outcome MinerNode :=
  match address_aggregation_limit n with
  | None => Ret n
  | Some limit =>
      match aggregation_status n with
      | AggregationIdle =>
          let! known_addresses := get_known_addresses (mn_wallet n) in
          if Nat.leb limit (length known_addresses) then
            let addresses_to_aggregate : gset string := list_to_set (take limit known_addresses) in
            let! f := fetch_tx_ins_and_tx_outs_merge_input_addrs (mn_wallet n) r addresses_to_aggregate None in
            let '(tx_ins, tx_outs, w) := f in
            let n := n <| mn_wallet := w |> in
            let! aggregating_addr := unwrap (last_generated_address w) in
            let aggregating_tx := construct_tx_core tx_ins tx_outs in
            match send_transactions_to_compute n (compute_addr n) [aggregating_tx] with
            | (inl _, n) => Ret n
            | (inr _, n) =>
                let b_num := default 0 (current_b_num n) in
                let! w := store_payment_transaction (mn_wallet n) aggregating_tx b_num in
                let! d := wallet_destroy_spent_transactions_and_keys w None in
                Ret (n <| mn_wallet := d.2 |> <| aggregation_status := UtxoUpdate aggregating_addr |>)
            end
          else Ret n
      | UtxoUpdate aggregation_addr =>
          Ret (send_request_utxo_set n (AnyOf [aggregation_addr]) (compute_addr n) Miner).2
      end
  end.

(** *** The messages of a round *)
Definition receive_random_number n (r : Rand) (peer : SocketAddr) (pow_info : PowInfo) (rand_num' : list Z)
    (win_coinbases : list string) : outcome (bool * MinerNode) :=
  if negb (bool_decide (peer = compute_addr n)) then Ret (false, n)
  else if bool_decide (rand_num n = rand_num') then Ret (false, (process_found_partition_pow n).2)
  else
    let! n := if is_current_coinbase_found n win_coinbases then commit_found_coinbase n r else Ret n in
    Ret (true, start_generate_partition_pow n peer pow_info rand_num').

(** [<=] of options: [None] is the least. *)
Definition receive_pre_block n (peer : SocketAddr) (pre_block : BlockHeader) (reward : TokenAmount) :
    outcome (bool * MinerNode) :=
  if negb (bool_decide (peer = compute_addr n)) then Ret (false, n)
  else
    let new_block := mkBlockPoWReceived pre_block reward in
    let new_b_num := b_num pre_block in
    match current_b_num n with
    | Some current =>
        if new_b_num <? current then Ret (false, n)
        else if new_b_num =? current then let! p := process_found_block_pow n in Ret (false, p.2)
        else let! n := start_generate_pow_for_current_block n peer new_block in Ret (true, n)
    | None => let! n := start_generate_pow_for_current_block n peer new_block in Ret (true, n)
    end.

Definition receive_pre_block_and_random n (e : Env) (peer : SocketAddr) (pow_info : PowInfo) (rand_num' : list Z)
    (win_coinbases : list string) (reward : TokenAmount) (pre_block : option BlockHeader) (b_num' : Z) :
    outcome (option Response * MinerNode) :=
  let! x := receive_random_number n (env_mining_key e) peer pow_info rand_num' win_coinbases in
  let '(process_rnd, n) := x in
  let! x := match pre_block with
            | Some pre_block => receive_pre_block n peer pre_block reward
            | None => Ret (false, n)
            end in
  let '(process_block, n) := x in
  let! w := wallet_filter_locked_coinbase (mn_wallet n) b_num' in
  let n := n <| mn_wallet := w |> in
  let! n := check_for_threshold_and_send_aggregation_tx n (env_aggregation_key e) in
  Ret (match process_rnd, process_block with
       | true, false => Some (ok "Received random number successfully")
       | _, true => Some (ok "Pre-block received successfully")
       | false, false => None
       end, n).

Definition receive_trans_verification n (tx_merkle_verification : list string) : outcome (option Response) :=
  let! current_block_info := unwrap (current_block n) in
  let merkle_root := (txs_merkle_root_and_hash (br_block current_block_info)).1 in
  let! valid :=
    if bool_decide (merkle_root ≠ "") then
      let! root := unwrap (build_merkle_tree_root tx_merkle_verification) in
      Ret (bool_decide (hex_encode root = merkle_root))
    else Ret true in
  Ret (Some (if valid : bool then ok "Block is valid" else failed "Block is not valid")).

(** *** Other messages *)
Definition receive_blockchain_item n (peer : SocketAddr) (key : string) (item : BlockchainItem) : Response * MinerNode :=
  (ok "Blockchain item received",
   n <| blockchain_item_received := match item_data item with [] => None | _ => Some (key, item, peer) end |>).

Definition receive_utxo_set n (utxo_set : UtxoSet) : Response * MinerNode :=
  (ok "Received UTXO set", n <| received_utxo_set := Some utxo_set |> <| aggregation_status := AggregationIdle |>).

Definition update_running_total n : outcome MinerNode :=
  let utxo_set := received_utxo_set n in
  let n := n <| received_utxo_set := None |> in
  let! payments := get_paiments_for_wallet_from_utxo (default [] (bt_iter <$> utxo_set)) in
  let! b_num := unwrap (current_b_num n) in
  let! p := save_usable_payments_to_wallet (mn_wallet n) payments b_num in
  Ret (n <| mn_wallet := p.2 |>).

Definition receive_closing n (peer : SocketAddr) : option Response :=
  if negb (bool_decide (peer = compute_addr n)) then None else Some (ok "Shutdown").

Definition handle_receive_miner_removed_ack n (peer : SocketAddr) : Response * MinerNode :=
  if bool_decide (compute_addr n = peer) then (ok "Node is paused", n <| pause_node := true |>)
  else (failed "Received miner removed ack from non-compute peer", n).

Definition handle_receive_miner_not_authorized n (peer : SocketAddr) : Response * MinerNode :=
  if bool_decide (compute_addr n = peer) then (failed "Miner not authorized", n <| pause_node := true |>)
  else (failed "Received miner unauthorized notification from non-compute peer", n).

(** *** Internal requests *)
Definition handle_disconnect_from_compute n (e : Env) : Response * MinerNode :=
  let connected := bool_decide (is_Some (peers (node n) !! compute_addr n)) in
  let n := n <| node ::= λ nd, disconnect_all nd (Some [compute_addr n]) |> in
  if negb connected then (failed "Already disconnected from compute", n)
  else if negb (env_joined e) then (failed "Failed to disconnect from compute", n)
  else (ok "Disconnected from compute", n).

Definition connect_to n (e : Env) (peer : SocketAddr) : (CommsError + unit) * MinerNode :=
  match Comms.connect_to (node n) peer (env_stream e) with
  | (inl err, nd) => (inl err, n <| node := nd |>)
  | (inr _, nd) => let '(res, nd) := env_handshake e nd in (res, n <| node := nd |>)
  end.

Definition handle_connect_to_compute n (e : Env) : Response * MinerNode :=
  match connect_to n e (compute_addr n) with
  | (inl _, n) => (failed "Failed to connect to compute", n)
  | (inr _, n) => (ok "Connected to compute", n)
  end.

Definition receive_pause_node_request n (pause : bool) : Response * MinerNode :=
  if is_disconnected n then (failed "Node is disconnected", n)
  else if pause then (ok "Initiate pause node", n)
  else
    match send_startup_requests n with
    | (inl _, n) => (failed "Failed to send startup requests on reconnection", n)
    | (inr _, n) => (ok "Node is resumed", n <| pause_node := false |>)
    end.

Definition receive_get_mining_status_request n : Response :=
  if is_disconnected n || pause_node n then ok "Node is not mining" else ok "Node is mining".
Definition receive_connection_status_request n : Response :=
  if is_disconnected n then ok "Node is disconnected" else ok "Node is connected".

Definition handle_miner_api n (e : Env) (peer : SocketAddr) (api_request : MineApiRequest.t) : option Response * MinerNode :=
  if negb (bool_decide (local_address n = peer)) then (None, n)
  else
    let some (x : Response * MinerNode) := (Some x.1, x.2) in
    match api_request with
    | MineApiRequest.GetConnectionStatus => (Some (receive_connection_status_request n), n)
    | MineApiRequest.GetMiningStatus => (Some (receive_get_mining_status_request n), n)
    | MineApiRequest.InitiatePauseMining => some (receive_pause_node_request n true)
    | MineApiRequest.InitiateResumeMining => some (receive_pause_node_request n false)
    | MineApiRequest.ConnectToCompute => some (handle_connect_to_compute n e)
    | MineApiRequest.DisconnectFromCompute => some (handle_disconnect_from_compute n e)
    | MineApiRequest.RequestUTXOSet addrs =>
        match send_request_utxo_set n addrs (compute_addr n) Miner with
        | (inl _, n) => (None, n)
        | (inr _, n) => (Some (ok "Sent UTXO Request"), n)
        end
    | MineApiRequest.SetStaticMinerAddress address => (Some (ok "Static miner address set"), set_static_miner_address n address)
    | MineApiRequest.GetStaticMinerAddress => (None, n)
    end.

(** *** Dispatch *)
Definition handle_request n (e : Env) (peer : SocketAddr) (req : MineRequest.t) : outcome (option Response * MinerNode) :=
  let some (x : Response * MinerNode) := Ret (Some x.1, x.2) in
  match req with
  | MineRequest.SendBlockchainItem key item => some (receive_blockchain_item n peer key item)
  | MineRequest.SendBlock pow_info rnum win_coinbases reward block b_num =>
      receive_pre_block_and_random n e peer pow_info rnum win_coinbases reward block b_num
  | MineRequest.SendTransactions tx_merkle_verification =>
      let! r := receive_trans_verification n tx_merkle_verification in Ret (r, n)
  | MineRequest.SendUtxoSet utxo_set => some (receive_utxo_set n utxo_set)
  | MineRequest.Closing => Ret (receive_closing n peer, n)
  | MineRequest.MinerRemovedAck => some (handle_receive_miner_removed_ack n peer)
  | MineRequest.MinerNotAuthorized => some (handle_receive_miner_not_authorized n peer)
  | MineRequest.MinerApi api_request => Ret (handle_miner_api n e peer api_request)
  end.

Definition handle_new_frame n (e : Env) (peer : SocketAddr) (frame : list Z) :
    outcome ((MinerError + option Response) * MinerNode) :=
  match deserialize (T := MineRequest.t) frame with
  | None => Ret (inl MinerSerialization, n)
  | Some req => let! x := handle_request n e peer req in Ret (inr x.1, x.2)
  end.

Definition handle_local_event n (event : LocalEvent) : option Response * MinerNode :=
  match event with
  | Exit reason => (Some (ok reason), n)
  | ReconnectionComplete =>
      match send_startup_requests n with
      | (inl _, n) => (Some (failed "Failed to send startup requests on reconnection"), n)
      | (inr _, n) => (Some (ok "Sent startup requests on reconnection"), n)
      end
  | CoordinatedShutdown _ | Ignore => (None, n)
  end.

(** The branches of the event loop; a search is given the nonces it drew. *)
Inductive Selected :=
  | SelEvent (e : Env)
  | SelPartition (nonces : list (list Z))
  | SelBlock (nonces : list (list Z))
  | SelLocal
  | SelCall (f : MinerNode → outcome MinerNode)
  | SelExit (reason : string).

(** [None] when the branch is not enabled or has nothing to do yet; otherwise
    the response that ends the loop, if any. *)
Definition handle_next_event n (sel : Selected) : outcome (option (option (MinerError + Response) * MinerNode)) :=
  match sel with
  | SelEvent e =>
      match next_event (node n) with
      | None => Ret None
      | Some (NewFrame peer frame, nd) =>
          let! x := handle_new_frame (n <| node := nd |>) e peer frame in
          Ret (Some (match x.1 with inl err => Some (inl err) | inr r => inr <$> r end, x.2))
      end
  | SelPartition nonces =>
      match task_wait (generate_pow_for_address nonces) (mining_partition_task n) with
      | None => Ret None
      | Some t =>
          Ret (Some (Some (inr (ok "Partition PoW complete")),
                     n <| mining_partition_task := t |> <| wait_partition_task := false |>))
      end
  | SelBlock nonces =>
      if negb (wait_partition_task n) then
        match task_wait (block_task nonces) (mining_block_task n) with
        | None => Ret None
        | Some t => Ret (Some (Some (inr (ok "Block PoW complete")), n <| mining_block_task := t |>))
        end
      else Ret None
  | SelLocal =>
      match local_events n with
      | [] => Ret None
      | event :: rest =>
          let '(r, n) := handle_local_event (n <| local_events := rest |>) event in Ret (Some (inr <$> r, n))
      end
  | SelCall f => let! n := f n in Ret (Some (None, n))
  | SelExit reason => Ret (Some (Some (inr (ok reason)), n))
  end.

(** The reasons with no case here are only logged. *)
Definition handle_next_event_response n (response : MinerError + Response) : outcome (ResponseResult * MinerNode) :=
  match response with
  | inr (mkResponse true reason) =>
      if String.eqb reason "Shutdown" then Ret (ResultExit, n)
      else if String.eqb reason "Partition PoW complete" then Ret (ResultContinue, (process_found_partition_pow n).2)
      else if String.eqb reason "Block PoW complete" then
        let! x := process_found_block_pow n in Ret (ResultContinue, x.2)
      else if String.eqb reason "Received UTXO set" then let! n := update_running_total n in Ret (ResultContinue, n)
      else if String.eqb reason "Initiate pause node" then
        Ret (ResultContinue, (send_compute n (compute_addr n) ComputeRequest.RequestRemoveMiner).2)
      else Ret (ResultContinue, n)
  | inr (mkResponse false reason) =>
      if String.eqb reason "Miner not authorized" then Ret (ResultExit, n) else Ret (ResultContinue, n)
  | inl _ => Ret (ResultContinue, n)
  end.

Definition take_closed_extra_params n : SimpleDb * MinerNode :=
  let '(db, w) := take_closed_persistent_store (mn_wallet n) in (db, n <| mn_wallet := w |>).
End miner.
