(* ===== verification/MinerWallet.v ===== *)
(** * The miner and its wallet

    What a committed coinbase adds to the wallet, what reaches the wallet of a
    miner from peers that are not its compute node, and messages that come too
    early. *)
From S2P Require Import Prelude Externals Utils TrackedUtxo Unicorn Interfaces Comms ActiveRaft RaftUtil BlockPipeline ComputeConsensused Requests DbUtils FundStore Wallet WalletFrame Miner.

Section miner.
Context `{CommsCrates, Ipv6Display, Naom, !NaomLaws, !NaomAssets, !AssetMeasure, !NaomAssetsLaws, NaomReceipts, NaomCoinbase,
  !NaomCoinbaseLaws, NaomCrypto, !NaomCryptoLaws, NaomPayments, Hex}.
Context `{Bincode string, Bincode (string * Transaction), Bincode (FundStoreOf AssetValues),
  !BincodeLaws (FundStoreOf AssetValues), Bincode (gset string), !BincodeLaws (gset string), Bincode AddressStore,
  !BincodeLaws AddressStore, Bincode TransactionStore, !BincodeLaws TransactionStore, Bincode OutPoint, !WalletKeysLaws,
  Bincode MasterKeyStore, Bincode (gmap string Z), Bincode (list (string * Z)), Bincode BlockHeader}.
Context `{!FreeKey LAST_COINBASE_KEY, !FreeKey MINING_ADDRESS_KEY}.
Context {M : Type} `{Bincode (ComputeRequest.t M), Bincode (StorageRequest M), Bincode MineRequest.t}.
Context (build_merkle_tree_root : list string → option (list Z)).
Notation MinerNode := (MinerNode TlsCertificate).
Notation handle_request := (Miner.handle_request (M := M) build_merkle_tree_root).
Implicit Types n : MinerNode.

(** The one output of a coinbase. *)
Lemma coinbase_payments h b reward addr :
  get_paiments_for_wallet [(h, construct_coinbase_tx b reward addr)] =
  Ret [(mkOutPoint h 0, Externals.Token reward, addr, wrap64 (b + COINBASE_MATURITY))].
Proof.
  unfold get_paiments_for_wallet. rewrite (single_out_point _ _ (mkTxOut (Externals.Token reward) (wrap64 (b + COINBASE_MATURITY)) None (Some addr))).
  - done.
  - unfold construct_coinbase_tx. by rewrite tx_core_outputs.
Qed.

(** Committing the coinbase that won credits exactly its reward: the wallet
    gains the output of the coinbase and a new address, and nothing else; the
    output is locked until the coinbase matures; the coinbase is forgotten, in
    the state and in the database, so that it cannot be credited twice; and the
    next coinbase pays the static address if there is one, else the new one. *)
Theorem commit_credits n r fs known h b reward addr :
  let tx := construct_coinbase_tx b reward addr in
  let op := mkOutPoint h 0 in
  let mature := wrap64 (b + COINBASE_MATURITY) in
  let paid := with_fixed_hash (Externals.Token reward) op in
  current_coinbase n = Some (h, tx) → wallet_holds (mn_wallet n) fs known → length r.1.1 = NONCE_LEN →
  addr ∈ known → LAST_COINBASE_KEY ∉ known → MINING_ADDRESS_KEY ∉ known →
  fs_transactions fs !! op = None → fs_spent fs !! op = None →
  (∀ k, is_u64 (asset_sum k (fs_transactions fs) + kind_qty k paid)) →
  let new := construct_address_for r.1.2 None in
  ∃ n' fs', commit_found_coinbase n r = Ret n' ∧
    wallet_holds (mn_wallet n') fs' ({[new]} ∪ known) ∧
    fs_transactions fs' = <[op := paid]> (fs_transactions fs) ∧ fs_spent fs' = fs_spent fs ∧
    locked_coinbase (mn_wallet n') = Some (let locked := default ∅ (locked_coinbase (mn_wallet n)) in
      if default 0 (current_b_num n) <? mature then <[h := mature]> locked else locked) ∧
    current_coinbase n' = None ∧ current_payment_address n' = Some (default new (static_miner_address n)).
Proof.
  intros tx op mature paid Hcb Hw Hn Ha Hk1 Hk2 Ht Hs Hu new. unfold commit_found_coinbase, generate_mining_address, generate_payment_address.
  destruct (store_payment_address_spec (mn_wallet n) fs known r.1.1 r.1.2 r.2 None Hw Hn) as (w1 & E1 & Hw1 & _ & Hl1).
  fold new in E1, Hw1. rewrite E1. cbn [obind fst snd]. cbv zeta.
  assert (Hfree : ∀ k, FreeKey k → k ∉ known → k ∉ ({[new]} ∪ known : gset string)).
  { intros k Hk Hkn. rewrite not_elem_of_union, elem_of_singleton. split; [apply free_address|done]. }
  destruct (set_value_holds MINING_ADDRESS_KEY w1 _ _ (serialize new) Hw1 ltac:(by apply Hfree)) as (w2 & E2 & Hw2 & Hl2).
  rewrite E2. cbn [obind fst snd]. unfold store_last_coinbase. cbn [mn_wallet setter].
  destruct (delete_value_holds LAST_COINBASE_KEY w2 _ _ Hw2 ltac:(by apply Hfree)) as (w3 & E3 & Hw3 & Hl3 & _).
  rewrite E3. cbn [obind fst snd]. cbn [current_coinbase setter]. rewrite Hcb. cbn [unwrap obind]. unfold tx.
  rewrite coinbase_payments. cbn [obind]. fold mature op. set (p := (op, Externals.Token reward, addr, mature)).
  pose proof (save_usable_spec w3 fs _ [p] (default 0 (current_b_num n)) Hw3) as Hsave.
  assert (Hmine : filter (λ p : OutPoint * Asset * string * Z, p.1.2 ∈ ({[new]} ∪ known : gset string)) [p] = [p]).
  { rewrite filter_cons_True; [done|]. cbn. set_solver. }
  rewrite Hmine in Hsave. cbv zeta in Hsave.
  destruct (pay_all (fs_transactions fs) [p]) as [txs|] eqn:Ep.
  2:{ cbn in Ep. unfold pay_one in Ep. cbn in Ep. by rewrite Ht in Ep. }
  cbn in Ep. unfold pay_one in Ep. cbn in Ep. rewrite Ht in Ep. injection Ep as <-.
  destruct Hsave as (w4 & fs' & E4 & Hw4 & Ht4 & Hs4 & Hl4).
  - intros k. specialize (Hu k). unfold pay_qty, paid_asset. cbn [fst snd]. fold paid. by rewrite Z.add_0_r.
  - intros p' ->%list_elem_of_singleton. done.
  - unfold current_b_num in E4. cbn [current_block setter]. unfold current_b_num. cbn [current_block setter mn_wallet]. rewrite E4. cbn [obind].
    eexists _, fs'. split; [reflexivity|]. split; [exact Hw4|]. split; [exact Ht4|]. split; [done|]. split; [|done].
    etrans; [exact Hl4|]. rewrite Hl3, Hl2, Hl1. done.
Qed.

(** A miner that has no block yet, as every miner that just started, stops
    when any peer sends it transactions to verify, or a UTXO set: neither
    message is checked to come from the compute node. *)
Theorem early_messages_panic n e peer txs utxo : current_block n = None →
  handle_request n e peer (MineRequest.SendTransactions txs) = Panic ∧
  ∃ n', handle_request n e peer (MineRequest.SendUtxoSet utxo) = Ret (Some (ok "Received UTXO set"), n') ∧
    Miner.handle_next_event_response (M := M) n' (inr (ok "Received UTXO set")) = Panic.
Proof.
  intros Hb. cbn. unfold receive_trans_verification. rewrite Hb. split; [done|]. eexists. split; [reflexivity|].
  unfold update_running_total, current_b_num. cbn [received_utxo_set setter current_block]. rewrite Hb. cbn.
  by destruct (get_paiments_for_wallet_from_utxo _).
Qed.

(** The round message of any peer, not only of the compute node, unlocks the
    coinbases of the wallet: with a large enough block number all outputs count
    as spendable before they are mature, and the round messages of the compute
    node do not lock them again. *)
Theorem foreign_round_unlocks n e peer info num wins reward blk b m lc :
  peer ≠ compute_addr n → address_aggregation_limit n = None → db_at DB_COL_DEFAULT (wallet_db (mn_wallet n)) m →
  locked_coinbase (mn_wallet n) = Some lc → (∀ h l, lc !! h = Some l → l ≤ b) →
  default 0 (last_locked_coinbase_filter_b_num (mn_wallet n)) < b →
  ∃ n', handle_request n e peer (MineRequest.SendBlock info num wins reward blk b) = Ret (None, n') ∧
    locked_coinbase (mn_wallet n') = Some ∅ ∧ (∀ fs, spendable (mn_wallet n') fs = fs_transactions fs) ∧
    ∀ b', b' ≤ b → wallet_filter_locked_coinbase (mn_wallet n') b' = Ret (mn_wallet n').
Proof.
  intros Hp Hagg Hm Hl Hlc Hb. cbn [Miner.handle_request]. unfold receive_pre_block_and_random, receive_random_number.
  assert (E : match blk with Some h => receive_pre_block (M := M) n peer h reward | None => Ret (false, n) end = Ret (false, n)).
  { destruct blk; [|done]. unfold receive_pre_block. by rewrite bool_decide_false. }
  rewrite bool_decide_false by done. cbn [negb obind].
  rewrite E. cbn [obind]. unfold wallet_filter_locked_coinbase at 1. rewrite (proj2 (Z.leb_gt _ _)) by lia. cbv zeta.
  unfold get_locked_coinbase. cbn [locked_coinbase setter]. rewrite Hl. cbn [fmap option_fmap option_map].
  assert (Ef : filter (λ kv : string * Z, b < kv.2) lc = ∅).
  { apply map_eq. intros h. rewrite lookup_empty, map_lookup_filter_None. right. intros l Hh. cbn. specialize (Hlc h l Hh). lia. }
  rewrite Ef. unfold store_locked_coinbase, set_db_value. cbn [wallet_db setter].
  destruct (db_at_put _ _ _ (string_codes LOCKED_COINBASE_KEY) (serialize (∅ : gmap string Z)) Hm) as (db & Ed & _).
  rewrite Ed. cbn [obind]. unfold check_for_threshold_and_send_aggregation_tx. cbn [address_aggregation_limit setter]. rewrite Hagg.
  cbn [obind]. eexists. split; [reflexivity|]. split_and!.
  - done.
  - intros fs. unfold spendable, get_locked_coinbase, unlocked. cbn [locked_coinbase mn_wallet setter set_locked_coinbase fst snd].
    apply map_filter_id. intros op a _. unfold is_locked. cbn. by rewrite lookup_empty.
  - intros b' Hb'. unfold wallet_filter_locked_coinbase. cbn [mn_wallet setter last_locked_coinbase_filter_b_num set_locked_coinbase default fst snd].
    by rewrite (proj2 (Z.leb_le _ _)).
Qed.
End miner.

(** ** Examples *)
Module MinerExamples.
Import TestExternals CommsExamples WalletExamples.
Open Scope string_scope.

Definition miner_addr : SocketAddr := AddrV4 7 1000.
Definition compute_node : SocketAddr := AddrV4 1 100.
Definition stranger : SocketAddr := AddrV4 9 900.

(** The nonce comes first; blocks and messages are known by their position. *)
#[export] Instance be_header : Bincode BlockHeader :=
  {| serialize h := ((nonce_and_mining_tx_hash h).1 ++ string_codes (nonce_and_mining_tx_hash h).2 ++ [b_num h])%list;
     deserialize _ := None |}.
#[export] Instance b_string : Bincode string := bincode_countable _.
#[export] Instance b_string_laws : BincodeLaws string := bincode_countable_laws _.
#[export] Instance b_coinbase : Bincode (string * Transaction) := bincode_countable _.
#[export] Instance b_coinbase_laws : BincodeLaws (string * Transaction) := bincode_countable_laws _.
#[export] Instance b_old_locked : Bincode (list (string * Z)) := {| serialize l := []; deserialize _ := None |}.
#[export] Instance b_compute : Bincode (ComputeRequest.t unit) := {| serialize _ := [1]; deserialize _ := None |}.
#[export] Instance b_storage : Bincode (StorageRequest unit) := {| serialize _ := [2]; deserialize _ := None |}.
Definition round_header : BlockHeader := mkBlockHeader 0 0 ([], EmptyString) 0 [45] None (EmptyString, "g").
Definition round_message : MineRequest.t :=
  MineRequest.SendBlock (mkPowInfo false 0) [1] [] 7450580596 (Some round_header) 0.
#[export] Instance b_mine : Bincode MineRequest.t := {| serialize _ := [3]; deserialize _ := Some round_message |}.

#[export] Instance free_last : FreeKey LAST_COINBASE_KEY.
Proof. split; [rewrite list_elem_of_In; cbn; intros [?|[?|[?|[?|[]]]]]; done|done|done]. Qed.
#[export] Instance free_mining : FreeKey MINING_ADDRESS_KEY.
Proof. split; [rewrite list_elem_of_In; cbn; intros [?|[?|[?|[?|[]]]]]; done|done|done]. Qed.
#[export] Instance free_version : FreeKey DB_VERSION_KEY.
Proof. split; [rewrite list_elem_of_In; cbn; intros [?|[?|[?|[?|[]]]]]; done|done|done]. Qed.

Definition no_merkle (l : list string) : option (list Z) := None.
Definition config : MinerNodeConfig :=
  mkMinerNodeConfig miner_addr [compute_node] 0 ∅ (Some "pass") 10 None None None.
Definition run_new (extra : option SimpleDb) : outcome (MinerError + MinerNode TlsCertificate) :=
  MinerNode_new (M := unit) [1] 6 config extra true Z.of_nat [5] [7] [0; 0] ([0; 1], [17], [34]).
Definition dummy_node : MinerNode TlsCertificate :=
  mkMinerNode (Node_new miner_addr ∅ Z.of_nat 1 Miner 6 true false) WalletExamples.dummy [] compute_node [] false None None
    None None None AggregationIdle false None TaskNone TaskNone None None.
Definition n0 : MinerNode TlsCertificate := match run_new None with Ret (inr n) => n | _ => dummy_node end.
Lemma n0_ret : run_new None = Ret (inr n0).
Proof. vm_compute. reflexivity. Qed.
Definition env : Env TlsCertificate := mkEnv ([0; 1], [18], [35]) ([0; 1], [19], [36]) (inl IoError) (λ nd, (inr (), nd)) true.

Lemma early_messages_panic_witness :
  Miner.handle_request (M := unit) no_merkle n0 env stranger (MineRequest.SendTransactions []) = Panic.
Proof.
  refine (proj1 (early_messages_panic (M := unit) no_merkle n0 env stranger [] ∅ _)). vm_compute. reflexivity.
Defined.

(** The wallet [w2] has a coinbase locked until block 10. *)
Definition n_locked : MinerNode TlsCertificate := n0 <| mn_wallet := w2 |>.
Lemma foreign_round_unlocks_witness : ∃ n',
  Miner.handle_request (M := unit) no_merkle n_locked env stranger
    (MineRequest.SendBlock (mkPowInfo false 0) [] [] 0 None 100) = Ret (None, n') ∧
  locked_coinbase (mn_wallet n') = Some ∅.
Proof.
  destruct w2_holds as (_ & fs & _ & _ & (_ & m & Hm & _) & _ & _ & Hl).
  destruct (foreign_round_unlocks (M := unit) no_merkle n_locked env stranger (mkPowInfo false 0) [] [] 0 None 100 m {["tx2" := 10]})
    as (n' & E & Hn' & _).
  - done.
  - vm_compute. reflexivity.
  - exact Hm.
  - exact Hl.
  - intros h l. destruct (decide (h = "tx2")) as [->|Hne].
    + rewrite lookup_singleton_eq. intros [= <-]. lia.
    + by rewrite lookup_singleton_ne.
  - vm_compute. reflexivity.
  - exists n'. split; [exact E|exact Hn'].
Defined.

(** The wallet [w1] knows one address; the coinbase of block 4 pays it 50. *)
Definition n_won : MinerNode TlsCertificate :=
  n0 <| mn_wallet := w1 |> <| current_coinbase := Some ("cb", construct_coinbase_tx 4 50 addr1) |>.
Lemma commit_credits_witness : ∃ n' fs' known',
  commit_found_coinbase n_won ([0; 1], [18], [35]) = Ret n' ∧ wallet_holds (mn_wallet n') fs' known' ∧
  fs_transactions fs' = {[mkOutPoint "cb" 0 := Externals.Token 50]} ∧ current_coinbase n' = None.
Proof.
  destruct w1_holds as (_ & _ & _ & Hw).
  destruct (commit_credits n_won ([0; 1], [18], [35]) FundStore_default {[addr1]} "cb" 4 50 addr1 eq_refl Hw)
    as (n' & fs' & E & Hw' & Ht & _ & _ & Hc & _).
  - reflexivity.
  - set_solver.
  - by apply not_elem_of_singleton.
  - by apply not_elem_of_singleton.
  - reflexivity.
  - reflexivity.
  - intros k. rewrite asset_sum_empty. destruct k as [| |h]; vm_compute; by split.
  - exists n', fs', ({[construct_address_for [18] None]} ∪ {[addr1]}). split; [exact E|]. split; [exact Hw'|]. split; [|exact Hc].
    rewrite Ht. reflexivity.
Defined.
End MinerExamples.
