(* ===== verification/MinerRounds.v ===== *)
(** * Mining rounds seen from the miner

    The invariant of [Miner] over every branch of its event loop: its searches
    are for the block and the random number of the round, and the coinbase it may
    still win is the one its database has.  With it, what a miner sends is what
    [ComputeMining] accepts. *)
From S2P Require Import Prelude Externals Utils TrackedUtxo Unicorn Interfaces Comms ActiveRaft RaftUtil BlockPipeline ComputeConsensused Requests ComputeRaft DbUtils Compute ComputeMining FundStore Wallet WalletFrame Miner MinerWallet.

(** ** The two searches *)
Section searches.
Context `{NaomLaws, Hex, Bincode BlockHeader}.

Lemma generate_pow_block_spec nonces h h' : generate_pow_for_block nonces h = Ret (Some h') →
  ∃ nonce, nonce ∈ nonces ∧ h' = apply_mining_tx h nonce (nonce_and_mining_tx_hash h).2 ∧ validate_pow_block h' = Ret true.
Proof.
  revert h; induction nonces as [|nonce nonces IH]; intros h; [done|]. cbn [generate_pow_for_block]. cbv zeta.
  intros ([|] & Hv & Hr)%obind_ret.
  - injection Hr as <-. exists nonce. split; [left|]. split; [done|exact Hv].
  - destruct (IH _ Hr) as (nonce' & Hin & -> & Hv'). exists nonce'. split; [by right|]. split; [done|exact Hv'].
Qed.
Lemma generate_pow_address_spec nonces a r pow : generate_pow_for_address_loop nonces a r = Ret (Some pow) →
  address pow = a ∧ nonce pow ∈ nonces ∧ validate_pow_for_address pow r = Ret true.
Proof.
  induction nonces as [|nonce nonces IH]; [done|]. cbn [generate_pow_for_address_loop]. cbv zeta.
  intros ([|] & Hv & Hr)%obind_ret.
  - injection Hr as <-. split; [done|]. split; [left|exact Hv].
  - destruct (IH Hr) as (-> & Hin & Hv'). split_and!; [done|by right|done].
Qed.
End searches.

(** ** The invariant *)
Section miner.
Context `{CommsCrates, Ipv6Display, Naom, !NaomLaws, !NaomAssets, NaomReceipts, NaomCoinbase, !NaomCoinbaseLaws,
  NaomCrypto, NaomPayments, Hex}.
Context `{Bincode string, Bincode (string * Transaction), !BincodeLaws (string * Transaction),
  Bincode (FundStoreOf AssetValues), Bincode (gset string), !BincodeLaws (gset string),
  Bincode AddressStore, Bincode TransactionStore, !BincodeLaws TransactionStore, Bincode OutPoint, !WalletKeysLaws,
  Bincode MasterKeyStore, Bincode (gmap string Z), Bincode (list (string * Z)), Bincode BlockHeader}.
Context `{!FreeKey LAST_COINBASE_KEY, !FreeKey MINING_ADDRESS_KEY}.
Context {M : Type} `{Bincode (ComputeRequest.t M), Bincode (StorageRequest M), Bincode MineRequest.t}.
Context (build_merkle_tree_root : list string → option (list Z)).
Notation MinerNode := (MinerNode TlsCertificate).
Implicit Types n : MinerNode.

(** The search is for the current block, with a coinbase that pays its reward;
    what was found has a valid proof of work. *)
Definition search_ok (blk : option BlockPoWReceived) (peer : SocketAddr) (found : bool) (info : BlockPoWInfo) : Prop :=
  ∃ b addr nonce, blk = Some b ∧ bi_peer info = peer ∧
    bi_coinbase info = construct_coinbase_tx (b_num (br_block b)) (br_reward b) addr ∧
    bi_header info = apply_mining_tx (br_block b) nonce (construct_tx_hash (bi_coinbase info)) ∧
    (found = true → validate_pow_block (bi_header info) = Ret true).
Definition work_ok n : Prop :=
  match mining_block_task n with
  | TaskRunning info => search_ok (current_block n) (compute_addr n) false info
  | TaskCompleted (Some info) => search_ok (current_block n) (compute_addr n) true info
  | _ => True
  end.
Definition partition_ok n : Prop :=
  match mining_partition_task n with
  | TaskRunning i => pi_peer i = compute_addr n ∧ pi_rand_num i = Some (rand_num n)
  | TaskCompleted (Some (pow, _, peer)) =>
      peer = compute_addr n ∧ validate_pow_for_address pow (Some (rand_num n)) = Ret true
  | _ => True
  end.
(** The database has the coinbase: a restart reads the value that the node has. *)
Definition reads (v : option (list Z)) : option (option (string * Transaction)) :=
  match v with None => Some None | Some s => Some <$> deserialize s end.
Definition holds_coinbase (cb : option (string * Transaction)) (w : WalletDb) : Prop :=
  ∃ v, holds_value LAST_COINBASE_KEY v w ∧ reads v = Some cb.
Definition coinbase_ok n : Prop := holds_coinbase (current_coinbase n) (mn_wallet n).
Definition miner_ok n : Prop := work_ok n ∧ partition_ok n ∧ coinbase_ok n.
Notation okn := (okm miner_ok).
Notation okn2 := (okm (λ x, miner_ok x.2)).

Lemma miner_ok_node n nd : miner_ok n → miner_ok (n <| node := nd |>).
Proof. done. Qed.
Lemma miner_ok_wallet n w : miner_ok n →
  holds_coinbase (current_coinbase n) w → miner_ok (n <| mn_wallet := w |>).
Proof. by intros (? & ? & _). Qed.
(** An operation of the wallet. *)
Lemma coinbase_op {A : Type} (f : A → WalletDb) cb w (m : outcome A) : holds_coinbase cb w →
  (∀ v, holds_value LAST_COINBASE_KEY v w → okm (λ x, holds_value LAST_COINBASE_KEY v (f x)) m) →
  okm (λ x, holds_coinbase cb (f x)) m.
Proof. intros (v & Hv & Hr) Hm x Hx. exists v. split; [|done]. by eapply Hm. Qed.
Lemma okn_wallet {A : Type} n (m : outcome (A * WalletDb)) (k : A * WalletDb → outcome MinerNode) : miner_ok n →
  okm (λ x, holds_coinbase (current_coinbase n) x.2) m →
  (∀ x, miner_ok (n <| mn_wallet := x.2 |>) → okn (k x)) → okn (obind m k).
Proof. intros Hn Hm Hk. eapply okm_bind; [exact Hm|]. intros x Hx. apply Hk. by apply miner_ok_wallet. Qed.

Lemma miner_send_ok n peer msg : miner_ok n → miner_ok (Miner.send_compute (M := M) n peer msg).2.
Proof. unfold Miner.send_compute. destruct (Comms.send _ _ _). by intros. Qed.
Lemma send_compute_ok n peer (msg : ComputeRequest.t M) res n' : Miner.send_compute n peer msg = (res, n') →
  miner_ok n → miner_ok n'.
Proof. intros E Hn. pose proof (miner_send_ok n peer msg Hn) as Hs. by rewrite E in Hs. Qed.

(** *** Proofs of work *)
Lemma block_task_ok n nonces t : miner_ok n → task_wait (block_task nonces) (mining_block_task n) = Some t →
  miner_ok (n <| mining_block_task := t |>).
Proof.
  intros (Hw & Hp & Hc) Ht. split; [|done]. unfold work_ok in Hw |- *. cbn [mining_block_task setter].
  unfold task_wait in Ht. destruct (mining_block_task n) as [|info|]; [done| |done].
  unfold block_task in Ht. destruct (generate_pow_for_block nonces (bi_header info)) as [[h|]|] eqn:E; cbn in Ht; simplify_eq.
  - apply generate_pow_block_spec in E as (nonce' & _ & -> & Hv).
    destruct Hw as (b & addr & nonce & Hb & Hpeer & Hcb & Hh & _). exists b, addr, nonce'. cbn. split_and!; try done.
    by rewrite Hh.
  - done.
Qed.
Lemma partition_task_ok n nonces t : miner_ok n →
  task_wait (generate_pow_for_address nonces) (mining_partition_task n) = Some t →
  miner_ok (n <| mining_partition_task := t |> <| wait_partition_task := false |>).
Proof.
  intros (Hw & Hp & Hc) Ht. split; [done|]. split; [|done]. unfold partition_ok in Hp |- *. cbn [mining_partition_task setter].
  unfold task_wait in Ht. destruct (mining_partition_task n) as [|i|]; [done| |done].
  unfold generate_pow_for_address in Ht.
  destruct (generate_pow_for_address_loop nonces (pi_address i) (pi_rand_num i)) as [[pow|]|] eqn:E; cbn in Ht; simplify_eq; [|done].
  apply generate_pow_address_spec in E as (_ & _ & Hv). destruct Hp as [-> Hr]. rewrite Hr in Hv. done.
Qed.

Lemma start_block_ok n b : miner_ok n → okn (start_generate_pow_for_current_block n (compute_addr n) b).
Proof.
  intros (_ & Hp & Hc) n' (addr & _ & [= <-])%obind_ret. split; [|done]. unfold work_ok. cbn.
  exists b, addr, []. by split_and!.
Qed.
Lemma start_partition_ok n info r : miner_ok n → miner_ok (start_generate_partition_pow n (compute_addr n) info r).
Proof.
  intros (Hw & Hp & Hc). unfold start_generate_partition_pow. destruct (public_address n); [|done]. split; [done|].
  split; [|done]. done.
Qed.

Lemma store_coinbase_ok n cb : miner_ok n → okm (λ s, miner_ok (n <| mn_wallet := s.2 |> <| current_coinbase := s.1 |>))
  (store_last_coinbase (mn_wallet n) cb).
Proof.
  intros (Hw & Hp & Hc). unfold store_last_coinbase. eapply (okm_bind (holds_value LAST_COINBASE_KEY (serialize <$> cb))).
  - destruct Hc as (v & Hv & _). destruct cb; cbn [fmap option_fmap option_map]; [by eapply put_self|by eapply delete_self].
  - intros w Hw'. apply okm_ret. cbn. split_and!; [done..|]. exists (serialize <$> cb). split; [exact Hw'|].
    destruct cb as [cb|]; [|done]. cbn. by rewrite deserialize_serialize.
Qed.

Lemma found_block_ok n : miner_ok n → okn2 (process_found_block_pow (M := M) n).
Proof.
  intros Hn. unfold process_found_block_pow. destruct (completed_result _) as [[info|]|]; [|by apply okm_ret..].
  destruct (nonce_and_mining_tx_hash _) as [nonce hash]. destruct (pause_node n); cbn [negb]; [by apply okm_ret|].
  destruct (send_pow n _ _ _ _) as [res n1] eqn:E. apply send_compute_ok in E; [|done].
  destruct res; [by apply okm_ret|]. eapply okm_bind; [by apply store_coinbase_ok|]. intros s Hs. by apply okm_ret.
Qed.
Lemma found_partition_ok n : miner_ok n → miner_ok (process_found_partition_pow (M := M) n).2.
Proof.
  intros Hn. unfold process_found_partition_pow. destruct (completed_result _) as [[[[pow info] peer]|]|]; [|done..].
  destruct (pause_node n); cbn [negb]; [done|]. destruct (send_partition_pow n _ _ _) as [res n1] eqn:E.
  apply send_compute_ok in E; [|done]. by destruct res.
Qed.

(** *** Winnings *)
Lemma mining_address_ok n r : miner_ok n →
  okm (λ x, holds_coinbase (current_coinbase n) x.2) (generate_mining_address (mn_wallet n) r).
Proof.
  intros (_ & _ & Hc). apply (coinbase_op snd _ _ _ Hc). clear Hc. intros v Hc. unfold generate_mining_address.
  eapply okm_bind; [exact (generate_payment_safe LAST_COINBASE_KEY _ _ r Hc)|]. intros g Hg. cbv zeta.
  eapply okm_bind; [|intros w Hw; apply okm_ret; exact Hw]. apply put_safe; [exact Hg|]. apply safe_other.
  - done.
  - done.
  - apply free_out_point.
Qed.
Lemma commit_coinbase_ok n r : miner_ok n → okn (commit_found_coinbase n r).
Proof.
  intros Hn. unfold commit_found_coinbase. eapply okm_bind; [by apply mining_address_ok|]. intros g Hg. cbv zeta.
  match goal with |- okm _ (obind (store_last_coinbase (mn_wallet ?m) _) _) => assert (Hn1 : miner_ok m) by (split; [apply Hn|split; [apply Hn|exact Hg]]);
    set (n1 := m) in *; clearbody n1 end.
  eapply okm_bind; [by apply store_coinbase_ok|]. intros s Hs.
  apply okm_bind_any. intros won. apply okm_bind_any. intros payments.
  eapply (okn_wallet (n1 <| mn_wallet := s.2 |> <| current_coinbase := s.1 |>)); [exact Hs|apply (coinbase_op snd _ s.2); [apply Hs|intros v Hv; exact (save_usable_safe LAST_COINBASE_KEY v _ _ _ Hv)]|].
  intros p Hp. by apply okm_ret.
Qed.
Lemma aggregation_ok n r : miner_ok n → okn (check_for_threshold_and_send_aggregation_tx (M := M) n r).
Proof.
  intros Hn. unfold check_for_threshold_and_send_aggregation_tx. destruct (address_aggregation_limit n) as [limit|]; [|by apply okm_ret].
  destruct (aggregation_status n) as [|addr]; [|apply okm_ret; unfold send_request_utxo_set; by apply miner_send_ok].
  apply okm_bind_any. intros known. destruct (Nat.leb _ _); [|by apply okm_ret]. cbv zeta.
  eapply okm_bind; [apply (coinbase_op snd (current_coinbase n) (mn_wallet n)); [apply Hn|intros v Hv; exact (merge_safe LAST_COINBASE_KEY v _ _ _ _ Hv)]|]. intros [[ins outs] w] Hw. cbn [snd] in Hw.
  apply (miner_ok_wallet n w) in Hw; [|done]. apply okm_bind_any. intros a.
  destruct (send_transactions_to_compute _ _ _) as [[e|[]] n1] eqn:E; apply send_compute_ok in E; try done; [by apply okm_ret|].
  eapply okm_bind; [apply (coinbase_op id (current_coinbase n1) (mn_wallet n1)); [apply E|intros v Hv; exact (store_payment_safe LAST_COINBASE_KEY v _ _ _ Hv)]|]. intros w2 Hw2.
  eapply okm_bind; [apply (coinbase_op snd (current_coinbase n1) w2); [exact Hw2|intros v Hv; apply (destroy_safe LAST_COINBASE_KEY v); [apply not_elem_of_empty|exact Hv]]|].
  intros d Hd. apply okm_ret. destruct E as (? & ? & _). by split_and!.
Qed.

(** *** Messages *)
Lemma random_number_ok n r peer info num wins : miner_ok n →
  okn2 (receive_random_number (M := M) n r peer info num wins).
Proof.
  intros Hn. unfold receive_random_number. destruct (bool_decide_reflect (peer = compute_addr n)) as [->|]; cbn [negb]; [|by apply okm_ret].
  case_bool_decide; [apply okm_ret; by apply found_partition_ok|].
  eapply (okm_bind (λ n', miner_ok n' ∧ compute_addr n' = compute_addr n)).
  - destruct (is_current_coinbase_found n wins); [|by apply okm_ret]. intros n' Hc. split; [by eapply commit_coinbase_ok|].
    unfold commit_found_coinbase in Hc. cbv zeta in Hc.
    by apply obind_ret in Hc as (g & _ & (s & _ & (won & _ & (ps & _ & (p & _ & [= <-])%obind_ret)%obind_ret)%obind_ret)%obind_ret).
  - intros n' [Hn' Ha]. apply okm_ret. cbn [snd]. rewrite <-Ha. by apply start_partition_ok.
Qed.
Lemma pre_block_ok n peer h reward : miner_ok n → okn2 (receive_pre_block (M := M) n peer h reward).
Proof.
  intros Hn. unfold receive_pre_block. destruct (bool_decide_reflect (peer = compute_addr n)) as [->|]; cbn [negb]; [|by apply okm_ret].
  cbv zeta. assert (Hstart : okn2 (let! n' := start_generate_pow_for_current_block n (compute_addr n) (mkBlockPoWReceived h reward) in
    Ret (true, n'))) by (eapply okm_bind; [by apply start_block_ok|]; intros n' Hn'; by apply okm_ret).
  destruct (current_b_num n) as [c|]; [|done]. destruct (_ <? c); [by apply okm_ret|]. destruct (_ =? c); [|done].
  eapply okm_bind; [by apply found_block_ok|]. intros x Hx. by apply okm_ret.
Qed.
Lemma round_message_ok n e peer info num wins reward blk b : miner_ok n →
  okn2 (receive_pre_block_and_random (M := M) n e peer info num wins reward blk b).
Proof.
  intros Hn. unfold receive_pre_block_and_random.
  eapply okm_bind; [by apply random_number_ok|]. intros [rnd n1] Hn1. cbn [snd] in Hn1.
  eapply (okm_bind (λ x, miner_ok x.2)).
  { destruct blk; [by apply pre_block_ok|by apply okm_ret]. }
  intros [done n2] Hn2. cbn [snd] in Hn2.
  eapply okm_bind; [apply (coinbase_op id (current_coinbase n2) (mn_wallet n2)); [apply Hn2|intros v Hv; exact (filter_locked_safe LAST_COINBASE_KEY v _ _ Hv)]|]. intros w Hw. cbv zeta.
  eapply okm_bind; [apply aggregation_ok; by apply miner_ok_wallet|]. intros n3 Hn3. by apply okm_ret.
Qed.

Lemma running_total_ok n : miner_ok n → okn (update_running_total n).
Proof.
  intros Hn. unfold update_running_total. cbv zeta. apply okm_bind_any. intros payments. apply okm_bind_any. intros b.
  eapply (okn_wallet (n <| received_utxo_set := None |>)); [exact Hn|apply (coinbase_op snd _ (mn_wallet n)); [apply Hn|intros v Hv; exact (save_usable_safe LAST_COINBASE_KEY v _ _ _ Hv)]|].
  intros p Hp. by apply okm_ret.
Qed.

Lemma connect_ok n e peer res n' : miner_ok n → Miner.connect_to n e peer = (res, n') → miner_ok n'.
Proof.
  intros Hn. unfold Miner.connect_to. destruct (Comms.connect_to _ _ _) as [[err|c] nd]; [by intros [= _ <-]|].
  destruct (env_handshake e nd) as [r nd']. by intros [= _ <-].
Qed.

Lemma miner_api_ok n e peer req : miner_ok n → miner_ok (handle_miner_api (M := M) n e peer req).2.
Proof.
  intros Hn. unfold handle_miner_api. destruct (negb _); [done|]. destruct req; cbn [fst snd]; try done.
  - unfold receive_pause_node_request. by destruct (is_disconnected n).
  - unfold receive_pause_node_request. destruct (is_disconnected n); [done|].
    destruct (send_startup_requests n) as [[e'|[]] n1] eqn:E; by apply send_compute_ok in E.
  - unfold handle_connect_to_compute. destruct (Miner.connect_to _ _ _) as [[e'|[]] n1] eqn:E; by eapply connect_ok in E.
  - unfold handle_disconnect_from_compute. cbv zeta. destruct (negb _); [done|]. by destruct (negb _).
  - destruct (send_request_utxo_set n _ _ _) as [[e'|[]] n1] eqn:E; by apply send_compute_ok in E.
Qed.

Lemma miner_request_ok n e peer req : miner_ok n →
  okn2 (Miner.handle_request (M := M) build_merkle_tree_root n e peer req).
Proof.
  intros Hn. destruct req; cbn [Miner.handle_request].
  - by apply round_message_ok.
  - by apply okm_ret.
  - apply okm_bind_any. intros r. by apply okm_ret.
  - by apply okm_ret.
  - apply okm_ret. unfold handle_receive_miner_removed_ack. by case_bool_decide.
  - apply okm_ret. unfold handle_receive_miner_not_authorized. by case_bool_decide.
  - apply okm_ret. by apply miner_api_ok.
  - by apply okm_ret.
Qed.

(** A call made from the threads of the API is one of the requests. *)
Definition miner_call (f : MinerNode → outcome MinerNode) : Prop :=
  ∃ e req, ∀ n, f n = Ret (handle_miner_api (M := M) n e (Miner.local_address n) req).2.
Definition chosen_ok (sel : Miner.Selected) : Prop :=
  match sel with Miner.SelCall f => miner_call f | _ => True end.

Lemma miner_event_ok n sel o n' : miner_ok n → chosen_ok sel →
  Miner.handle_next_event (M := M) build_merkle_tree_root n sel = Ret (Some (o, n')) → miner_ok n'.
Proof.
  intros Hn Hs. destruct sel as [e|nonces|nonces| |f|reason]; cbn [Miner.handle_next_event].
  - destruct (next_event _) as [[[peer frame] nd]|]; [|done]. unfold Miner.handle_new_frame.
    destruct (deserialize frame) as [req|]; [|by intros [= _ <-]].
    intros ([r n1] & ([r1 n2] & Hq & [= <- <-])%obind_ret & [= _ <-])%obind_ret.
    exact (miner_request_ok _ _ _ _ (miner_ok_node n nd Hn) _ Hq).
  - destruct (task_wait _ _) as [t|] eqn:E; [|done]. intros [= _ <-]. by eapply partition_task_ok.
  - destruct (negb _); [|done]. destruct (task_wait _ _) as [t|] eqn:E; [|done]. intros [= _ <-]. by eapply block_task_ok.
  - destruct (Miner.local_events n) as [|ev rest]; [done|]. destruct (Miner.handle_local_event _ _) as [r n1] eqn:E.
    intros [= _ <-]. revert E. unfold Miner.handle_local_event. destruct ev; try by intros [= _ <-].
    destruct (send_startup_requests _) as [[e'|[]] n2] eqn:E; apply send_compute_ok in E; try done; by intros [= _ <-].
  - intros (n1 & Hf & [= _ <-])%obind_ret. destruct Hs as (e & req & Hf'). rewrite Hf' in Hf. injection Hf as <-.
    by apply miner_api_ok.
  - by intros [= _ <-].
Qed.
Lemma miner_response_ok n resp : miner_ok n → okn2 (Miner.handle_next_event_response (M := M) n resp).
Proof.
  intros Hn. unfold Miner.handle_next_event_response. destruct resp as [e|[[] reason]]; [by apply okm_ret| |].
  - repeat (destruct (String.eqb _ _); [|]); try (by apply okm_ret).
    + apply okm_ret. by apply found_partition_ok.
    + eapply okm_bind; [by apply found_block_ok|]. intros x Hx. by apply okm_ret.
    + eapply okm_bind; [by apply running_total_ok|]. intros x Hx. by apply okm_ret.
    + apply okm_ret. by apply miner_send_ok.
  - destruct (String.eqb _ _); by apply okm_ret.
Qed.

(** *** Runs of the miner

    Besides the event loop, the reading tasks of the connections change the
    state they share with the node, and events are queued. *)
Inductive miner_step : relation MinerNode :=
  | miner_network n nd : miner_step n (n <| node := nd |>)
  | miner_local n evs : miner_step n (n <| Miner.local_events := evs |>)
  | miner_event n sel o n' : chosen_ok sel →
      Miner.handle_next_event (M := M) build_merkle_tree_root n sel = Ret (Some (o, n')) → miner_step n n'
  | miner_response n response res n' :
      Miner.handle_next_event_response (M := M) n response = Ret (res, n') → miner_step n n'.

Lemma miner_run_ok n n' : miner_ok n → rtc miner_step n n' → miner_ok n'.
Proof.
  intros Hn Hrun. revert Hn. induction Hrun as [|n1 n2 n3 Hs _ IH]; [done|]. intros Hn1. apply IH. inversion Hs; subst; [done|done| |].
  - by eapply miner_event_ok.
  - by eapply (miner_response_ok n1 response Hn1 (res, n2)).
Qed.

(** *** The coinbase that a proof of work promises

    A proof of work goes out when the search has found one, the node is not
    paused, and its compute node is connected; from then on its coinbase is
    awaited.  It is not awaited any more once a new round of the compute node
    lists it with the winners. *)
Definition pow_sent n : option BlockPoWInfo :=
  match mining_block_task n with
  | TaskCompleted (Some info) => if pause_node n then None else (λ _, info) <$> peers (node n) !! bi_peer info
  | _ => None
  end.
Definition pow_awaited n (c : option (string * Transaction)) : option (string * Transaction) :=
  match pow_sent n with Some info => Some (construct_tx_hash (bi_coinbase info), bi_coinbase info) | None => c end.
Definition round_awaited n (peer : SocketAddr) (num : list Z) (wins : list string) (blk : option BlockHeader)
    (c : option (string * Transaction)) : option (string * Transaction) :=
  if negb (bool_decide (peer = compute_addr n)) then c
  else
    let c := match c with
             | Some (h, _) => if negb (bool_decide (rand_num n = num)) && bool_decide (h ∈ wins) then None else c
             | None => None
             end in
    match blk with
    | Some b => if bool_decide (current_b_num n = Some (b_num b)) then pow_awaited n c else c
    | None => c
    end.
Definition event_awaited n (sel : Miner.Selected) (c : option (string * Transaction)) : option (string * Transaction) :=
  match sel with
  | Miner.SelEvent _ =>
      match next_event (node n) with
      | Some (NewFrame peer frame, nd) =>
          match deserialize frame with
          | Some (MineRequest.SendBlock _ num wins _ blk _) => round_awaited (n <| node := nd |>) peer num wins blk c
          | _ => c
          end
      | None => c
      end
  | _ => c
  end.
Definition response_awaited n (response : MinerError + Response) (c : option (string * Transaction)) :
    option (string * Transaction) :=
  match response with
  | inr (mkResponse true reason) => if String.eqb reason "Block PoW complete" then pow_awaited n c else c
  | _ => c
  end.

Notation keeps n := (okm (λ n', current_coinbase n' = current_coinbase n)).
(** What decides whether a proof of work goes out. *)
Definition same_work n n' : Prop :=
  mining_block_task n' = mining_block_task n ∧ pause_node n' = pause_node n ∧ peers (node n') = peers (node n) ∧
  current_block n' = current_block n ∧ compute_addr n' = compute_addr n.

Lemma send_compute_frame n peer (msg : ComputeRequest.t M) res n' : Miner.send_compute n peer msg = (res, n') →
  same_work n n' ∧ current_coinbase n' = current_coinbase n ∧ mn_wallet n' = mn_wallet n ∧
  match peers (node n) !! peer with
  | Some _ => res = inr () ∧ ∃ id, sent (node n') = sent (node n) ++ [(peer, Direct (serialize msg) id)]
  | None => (∃ e, res = inl e) ∧ sent (node n') = sent (node n)
  end.
Proof.
  unfold Miner.send_compute, Comms.send, gen, send_message. cbn [peers setter].
  destruct (peers (Miner.node n) !! peer); intros [= <- <-]; split_and!; cbn; eauto; by split_and!.
Qed.
Lemma work_hash n info : work_ok n → mining_block_task n = TaskCompleted (Some info) →
  bi_peer info = compute_addr n ∧ (nonce_and_mining_tx_hash (bi_header info)).2 = construct_tx_hash (bi_coinbase info).
Proof.
  unfold work_ok. intros Hw E. rewrite E in Hw. destruct Hw as (b & addr & nonce & _ & Hpeer & _ & Hh & _). by rewrite Hh.
Qed.

(** The search that found a proof of work sends it, once, and its coinbase is the
    one that is awaited; otherwise nothing goes out. *)
Lemma found_block_coinbase n x n' : miner_ok n → process_found_block_pow (M := M) n = Ret (x, n') →
  current_coinbase n' = pow_awaited n (current_coinbase n) ∧
  match pow_sent n with
  | Some info => ∃ nonce id, sent (node n') = sent (node n) ++
      [(compute_addr n, Direct (serialize (ComputeRequest.SendPoW (M := M) (b_num (bi_header info)) nonce (bi_coinbase info))) id)]
  | None => sent (node n') = sent (node n)
  end.
Proof.
  intros [Hw _]. unfold process_found_block_pow, pow_awaited, pow_sent.
  destruct (mining_block_task n) as [| |[info|]] eqn:Et; cbn [completed_result]; try by intros [= <- <-].
  destruct (work_hash n info Hw Et) as [Hpeer Hhash].
  destruct (nonce_and_mining_tx_hash _) as [nonce hash]. cbn [snd] in Hhash. subst hash.
  destruct (pause_node n); cbn [negb]; [by intros [= <- <-]|]. rewrite Hpeer.
  destruct (send_pow n _ _ _ _) as [res n1] eqn:E. apply send_compute_frame in E as (_ & Ec & _ & Es).
  destruct (peers (node n) !! _); cbn [fmap option_fmap option_map].
  - destruct Es as (-> & id & Es). intros (s & Hs & [= <- <-])%obind_ret. split; [by apply obind_ret in Hs as (w & _ & [= <-])|].
    exists nonce, id. exact Es.
  - destruct Es as ([e ->] & Es). by intros [= <- <-].
Qed.

Lemma commit_coinbase_clears n r n' : commit_found_coinbase n r = Ret n' → current_coinbase n' = None ∧ same_work n n'.
Proof.
  unfold commit_found_coinbase. cbv zeta.
  intros (g & _ & (s & Hs & (won & _ & (ps & _ & (p & _ & [= <-])%obind_ret)%obind_ret)%obind_ret)%obind_ret)%obind_ret.
  apply obind_ret in Hs as (w & _ & [= <-]). by split_and!.
Qed.
Lemma found_partition_frame n : same_work n (process_found_partition_pow (M := M) n).2 ∧
  current_coinbase (process_found_partition_pow (M := M) n).2 = current_coinbase n.
Proof.
  unfold process_found_partition_pow. destruct (completed_result _) as [[[[pow info] peer]|]|]; [|done..].
  destruct (pause_node n) eqn:Ep; cbn [negb]; [done|]. destruct (send_partition_pow n _ _ _) as [res n1] eqn:E.
  apply send_compute_frame in E as (Ew & Ec & _). by destruct res.
Qed.
Lemma start_partition_frame n peer info r : same_work n (start_generate_partition_pow n peer info r) ∧
  current_coinbase (start_generate_partition_pow n peer info r) = current_coinbase n.
Proof. unfold start_generate_partition_pow. by destruct (public_address n). Qed.

Lemma random_number_coinbase n r peer info num wins x n' :
  receive_random_number (M := M) n r peer info num wins = Ret (x, n') →
  same_work n n' ∧ (peer = compute_addr n ∨ n' = n) ∧
  (peer = compute_addr n → current_coinbase n' =
    match current_coinbase n with
    | Some (h, t) => if negb (bool_decide (rand_num n = num)) && bool_decide (h ∈ wins) then None else Some (h, t)
    | None => None
    end).
Proof.
  unfold receive_random_number. destruct (bool_decide_reflect (peer = compute_addr n)) as [->|Hne]; cbn [negb];
    [|intros [= <- <-]; split_and!; [by split_and!|by right|done]].
  case_bool_decide as Er.
  { intros [= <- <-]. destruct (found_partition_frame n) as [Hw ->]. split_and!; [exact Hw|by left|]. intros _. cbn [negb andb].
    by destruct (current_coinbase n) as [[h t]|]. }
  cbn [negb andb]. unfold is_current_coinbase_found. intros (n1 & Hc & [= <- <-])%obind_ret.
  destruct (start_partition_frame n1 (compute_addr n) info num) as [Hw ->].
  assert (Hc' : same_work n n1 ∧ current_coinbase n1 = match current_coinbase n with
    | Some (h, t) => if bool_decide (h ∈ wins) then None else Some (h, t) | None => None end).
  { destruct (current_coinbase n) as [[h t]|] eqn:E; [case_bool_decide|];
      [by apply commit_coinbase_clears in Hc as [-> ?]|injection Hc as <-; split; [by split_and!|done]..]. }
  destruct Hc' as [Hw1 ->]. split_and!; [|by left|done].
  destruct Hw as (E1 & E2 & E3 & E4 & E5), Hw1 as (F1 & F2 & F3 & F4 & F5). unfold same_work. by rewrite E1, E2, E3, E4, E5.
Qed.
Lemma pow_awaited_same n n' c : same_work n n' → pow_awaited n' c = pow_awaited n c.
Proof. intros (E1 & E2 & E3 & _). unfold pow_awaited, pow_sent. by rewrite E1, E2, E3. Qed.
Lemma pre_block_coinbase n peer h reward x n' : miner_ok n → receive_pre_block (M := M) n peer h reward = Ret (x, n') →
  current_coinbase n' = if bool_decide (peer = compute_addr n) && bool_decide (current_b_num n = Some (b_num h))
                        then pow_awaited n (current_coinbase n) else current_coinbase n.
Proof.
  intros Hn. unfold receive_pre_block. destruct (bool_decide_reflect (peer = compute_addr n)) as [->|]; cbn [negb andb]; [|by intros [= <- <-]].
  cbv zeta. assert (Hstart : ∀ b, (let! n' := start_generate_pow_for_current_block n (compute_addr n) b in Ret (true, n')) = Ret (x, n') →
    current_coinbase n' = current_coinbase n) by (intros b (n1 & (a & _ & [= <-])%obind_ret & [= _ <-])%obind_ret; done).
  destruct (current_b_num n) as [c|]; [|rewrite bool_decide_false by done; apply Hstart].
  destruct (_ <? c) eqn:E1; [intros [= <- <-]; rewrite bool_decide_false; [done|intros [= ->]; lia]|].
  destruct (_ =? c) eqn:E2.
  - intros ([y n1] & Hf & [= _ <-])%obind_ret. apply found_block_coinbase in Hf as [-> _]; [|done].
    rewrite bool_decide_true; [done|]. f_equal. lia.
  - rewrite bool_decide_false by (intros [= ->]; lia). apply Hstart.
Qed.

Lemma aggregation_keeps n r : keeps n (check_for_threshold_and_send_aggregation_tx (M := M) n r).
Proof.
  unfold check_for_threshold_and_send_aggregation_tx. destruct (address_aggregation_limit n) as [limit|]; [|by apply okm_ret].
  destruct (aggregation_status n) as [|addr].
  2:{ apply okm_ret. unfold send_request_utxo_set. by destruct (Miner.send_compute n _ _) as [res n1] eqn:E; apply send_compute_frame in E as (_ & Ec & _). }
  apply okm_bind_any. intros known. destruct (Nat.leb _ _); [|by apply okm_ret]. cbv zeta. apply okm_bind_any. intros [[ins outs] w].
  apply okm_bind_any. intros a. destruct (send_transactions_to_compute _ _ _) as [[e|[]] n1] eqn:E; apply send_compute_frame in E as (_ & Ec & _).
  - by apply okm_ret.
  - apply okm_bind_any. intros w2. apply okm_bind_any. intros d. by apply okm_ret.
Qed.
Lemma round_message_coinbase n e peer info num wins reward blk b x n' : miner_ok n →
  receive_pre_block_and_random (M := M) n e peer info num wins reward blk b = Ret (x, n') →
  current_coinbase n' = round_awaited n peer num wins blk (current_coinbase n).
Proof.
  intros Hn. unfold receive_pre_block_and_random, round_awaited.
  intros ([rnd n1] & Hr & Hk)%obind_ret. pose proof (random_number_ok _ _ _ _ _ _ Hn _ Hr) as Hn1.
  apply random_number_coinbase in Hr as (Hw & Hp & Hc). cbn [snd] in Hn1.
  apply obind_ret in Hk as ([dn n2] & Hb & (w & _ & (n3 & Ha & [= _ <-])%obind_ret)%obind_ret).
  apply aggregation_keeps in Ha. rewrite Ha. change (current_coinbase (n2 <| mn_wallet := w |>)) with (current_coinbase n2).
  assert (Hblk : current_coinbase n2 = match blk with
    | Some h => if bool_decide (peer = compute_addr n1) && bool_decide (current_b_num n1 = Some (b_num h))
                then pow_awaited n1 (current_coinbase n1) else current_coinbase n1
    | None => current_coinbase n1 end).
  { destruct blk; [by eapply pre_block_coinbase|by injection Hb as _ <-]. }
  rewrite Hblk. pose proof Hw as (_ & _ & _ & Eb & Ea). unfold current_b_num. rewrite Ea, Eb.
  destruct (bool_decide_reflect (peer = compute_addr n)) as [Heq|Hne]; cbn [negb andb].
  - rewrite Hc by done. rewrite (pow_awaited_same n n1) by done. by destruct blk, (current_coinbase n) as [[]|].
  - destruct Hp as [?| ->]; [done|]. by destruct blk.
Qed.
Lemma running_total_keeps n : keeps n (update_running_total n).
Proof.
  unfold update_running_total. cbv zeta. apply okm_bind_any. intros ps. apply okm_bind_any. intros b. apply okm_bind_any. intros p.
  by apply okm_ret.
Qed.
Lemma miner_api_keeps n e peer req : current_coinbase (handle_miner_api (M := M) n e peer req).2 = current_coinbase n.
Proof.
  unfold handle_miner_api. destruct (negb _); [done|]. destruct req; cbn [fst snd]; try done.
  - unfold receive_pause_node_request. by destruct (is_disconnected n).
  - unfold receive_pause_node_request. destruct (is_disconnected n); [done|].
    destruct (send_startup_requests n) as [[e'|[]] n1] eqn:E; by apply send_compute_frame in E as (_ & ? & _).
  - unfold handle_connect_to_compute, Miner.connect_to. destruct (Comms.connect_to _ _ _) as [[err|c] nd]; [done|].
    by destruct (env_handshake e nd) as [[] nd'].
  - unfold handle_disconnect_from_compute. cbv zeta. destruct (negb _); [done|]. by destruct (negb _).
  - destruct (send_request_utxo_set n _ _ _) as [[e'|[]] n1] eqn:E; by apply send_compute_frame in E as (_ & ? & _).
Qed.
Lemma miner_event_coinbase n sel o n' : miner_ok n → chosen_ok sel →
  Miner.handle_next_event (M := M) build_merkle_tree_root n sel = Ret (Some (o, n')) →
  current_coinbase n' = event_awaited n sel (current_coinbase n).
Proof.
  intros Hn Hs. destruct sel as [e|nonces|nonces| |f|reason]; cbn [Miner.handle_next_event event_awaited].
  - destruct (next_event _) as [[[peer frame] nd]|]; [|done]. unfold Miner.handle_new_frame.
    destruct (deserialize frame) as [req|]; [|by intros [= _ <-]].
    intros ([r n1] & ([r1 n2] & Hq & [= <- <-])%obind_ret & [= _ <-])%obind_ret. revert Hq.
    destruct req; cbn [Miner.handle_request]; try by intros [= _ <-].
    + intros Hq. by apply (round_message_coinbase (n <| node := nd |>)) in Hq.
    + by intros (r' & _ & [= _ <-])%obind_ret.
    + unfold handle_receive_miner_removed_ack. case_bool_decide; by intros [= _ <-].
    + unfold handle_receive_miner_not_authorized. case_bool_decide; by intros [= _ <-].
    + intros [= E]. match type of E with handle_miner_api _ _ _ ?q = _ => pose proof (miner_api_keeps (n <| node := nd |>) e peer q) as Hk end.
      by rewrite E in Hk.
  - destruct (task_wait _ _) as [t|]; [|done]. by intros [= _ <-].
  - destruct (negb _); [|done]. destruct (task_wait _ _) as [t|]; [|done]. by intros [= _ <-].
  - destruct (Miner.local_events n) as [|ev rest]; [done|]. destruct (Miner.handle_local_event _ _) as [r n1] eqn:E.
    intros [= _ <-]. revert E. unfold Miner.handle_local_event. destruct ev; try by intros [= _ <-].
    destruct (send_startup_requests _) as [[e'|[]] n2] eqn:E; apply send_compute_frame in E as (_ & ? & _); by intros [= _ <-].
  - intros (n1 & Hf & [= _ <-])%obind_ret. destruct Hs as (e & req & Hf'). rewrite Hf' in Hf. injection Hf as <-.
    apply miner_api_keeps.
  - by intros [= _ <-].
Qed.
Lemma miner_response_coinbase n resp res n' : miner_ok n →
  Miner.handle_next_event_response (M := M) n resp = Ret (res, n') → current_coinbase n' = response_awaited n resp (current_coinbase n).
Proof.
  intros Hn. unfold Miner.handle_next_event_response, response_awaited. destruct resp as [e|[[] reason]]; [by intros [= _ <-]| |].
  - destruct (String.eqb_spec reason "Shutdown") as [->|_]; [by intros [= _ <-]|].
    destruct (String.eqb_spec reason "Partition PoW complete") as [->|_].
    { intros [= _ <-]. apply found_partition_frame. }
    destruct (String.eqb reason "Block PoW complete").
    { intros ([y n1] & Hf & [= _ <-])%obind_ret. by apply found_block_coinbase in Hf as [-> _]. }
    destruct (String.eqb _ _); [intros (n1 & Hf & [= _ <-])%obind_ret; by apply running_total_keeps in Hf|].
    destruct (String.eqb _ _); [|by intros [= _ <-]].
    intros [= _ <-]. by destruct (Miner.send_compute n _ _) as [r n1] eqn:E; apply send_compute_frame in E as (_ & Ec & _).
  - destruct (String.eqb _ _); by intros [= _ <-].
Qed.

(** *** Starting, and starting again *)
Context `{!FreeKey DB_VERSION_KEY}.

Lemma load_db_coinbase n v r : mining_block_task n = TaskNone → mining_partition_task n = TaskNone →
  holds_value LAST_COINBASE_KEY v (mn_wallet n) →
  okm (λ x, ∀ n', x = inr n' → miner_ok n' ∧ reads v = Some (current_coinbase n')) (Miner.load_local_db (M := M) n r).
Proof.
  intros Hb Hp Hv. unfold Miner.load_local_db.
  eapply okm_bind; [exact (load_locked_safe LAST_COINBASE_KEY v _ Hv)|]. intros [l w] Hw. cbn [snd] in Hw. cbv zeta. cbn [fst snd].
  set (idle := λ n : MinerNode, mining_block_task n = TaskNone ∧ mining_partition_task n = TaskNone ∧
    holds_value LAST_COINBASE_KEY v (mn_wallet n)).
  eapply (okm_bind idle).
  { destruct l as [e|u]; [|by apply okm_ret]. apply okm_bind_any. intros known. apply okm_ret.
    unfold Miner.send_compute. by destruct (Comms.send _ _ _). }
  intros n1 (Hb1 & Hp1 & Hv1). clear idle. unfold load_last_coinbase, load_value. rewrite (holds_get LAST_COINBASE_KEY v) by done.
  cbn [obind].
  assert (Hdone : ∀ cb n2, reads v = Some cb → mining_block_task n2 = TaskNone → mining_partition_task n2 = TaskNone →
    current_coinbase n2 = cb → holds_value LAST_COINBASE_KEY v (mn_wallet n2) →
    miner_ok n2 ∧ reads v = Some (current_coinbase n2)).
  { intros cb n2 Hr Hb2 Hp2 Hcb Hw2. split; [|by rewrite Hcb]. unfold miner_ok, work_ok, partition_ok. rewrite Hb2, Hp2.
    split_and!; [done..|]. exists v. by rewrite Hcb. }
  assert (Hrd : ∀ cb, match v with Some s => match deserialize s with Some x => inr (Some x) | None => inl MinerSerialization end
    | None => inr None end = inr cb → reads v = Some cb).
  { intros cb. destruct v as [s|]; cbn; [|by intros [= <-]]. destruct (deserialize s); [|done]. by intros [= <-]. }
  destruct (match v with Some _ => _ | None => _ end) as [e|cb]; [by apply okm_ret|]. specialize (Hrd cb eq_refl).
  cbn [static_miner_address setter]. destruct (static_miner_address n1).
  { apply okm_ret. intros n' [= <-]. by apply (Hdone cb). }
  apply okm_bind_any. intros [e|[a|]]; [by apply okm_ret|apply okm_ret; intros n' [= <-]; by apply (Hdone cb)|].
  eapply (okm_bind (λ g, holds_value LAST_COINBASE_KEY v g.2)).
  - unfold generate_mining_address. eapply okm_bind; [exact (generate_payment_safe LAST_COINBASE_KEY _ _ r Hv1)|]. intros g Hg. cbv zeta.
    eapply okm_bind; [|intros w' Hw'; apply okm_ret; exact Hw']. apply put_safe; [exact Hg|]. apply safe_other; [done..|].
    apply free_out_point.
  - intros g Hg. apply okm_ret. intros n' [= <-]. by apply (Hdone cb).
Qed.

Section starts.
Context (NV : list Z) (NETWORK_VERSION : Z).

(** What opening the wallet gives, in a start or a restart. *)
Lemma start_ok config extra listener rng salt mk nonce r n v :
  okm (λ x, ∀ w, x = inr w → holds_value LAST_COINBASE_KEY v w)
    (WalletDb_new NV extra (mc_passphrase config) salt mk nonce) →
  MinerNode_new (M := M) NV NETWORK_VERSION config extra listener rng salt mk nonce r = Ret (inr n) →
  miner_ok n ∧ reads v = Some (current_coinbase n).
Proof.
  intros Hw. unfold MinerNode_new. destruct (mc_compute_nodes config !! _); [|done].
  intros ([e|w] & Hx & Hl)%obind_ret; [done|]. cbv zeta in Hl.
  match type of Hl with Miner.load_local_db ?n0 _ = _ => refine (load_db_coinbase n0 v r _ _ _ _ Hl n eq_refl) end; [done..|].
  exact (Hw _ Hx _ eq_refl).
Qed.

Inductive miner_reachable : MinerNode → Prop :=
  | mr_start config listener rng salt mk nonce r n :
      MinerNode_new (M := M) NV NETWORK_VERSION config None listener rng salt mk nonce r = Ret (inr n) → miner_reachable n
  | mr_step n n' : miner_reachable n → miner_step n n' → miner_reachable n'
  | mr_restart n config listener rng salt mk nonce r n' : miner_reachable n →
      MinerNode_new (M := M) NV NETWORK_VERSION config (Some (take_closed_extra_params n).1) listener rng salt mk nonce r =
        Ret (inr n') → miner_reachable n'.

Lemma restart_ok n config listener rng salt mk nonce r n' : miner_ok n →
  MinerNode_new (M := M) NV NETWORK_VERSION config (Some (take_closed_extra_params n).1) listener rng salt mk nonce r = Ret (inr n') →
  miner_ok n' ∧ current_coinbase n' = current_coinbase n.
Proof.
  intros (_ & _ & v & Hv & Hr) Hnew. apply (start_ok _ _ _ _ _ _ _ _ _ v) in Hnew as [Hok Hr'].
  - split; [done|]. rewrite Hr in Hr'. by injection Hr'.
  - exact (reopen_safe LAST_COINBASE_KEY ltac:(done) v _ _ _ _ _ _ Hv).
Qed.
Lemma reachable_ok n : miner_reachable n → miner_ok n.
Proof.
  induction 1 as [config listener rng salt mk nonce r n Hnew|n n' _ IH Hs|n config listener rng salt mk nonce r n' _ IH Hnew].
  - eapply start_ok, Hnew. apply (fresh_safe LAST_COINBASE_KEY); done.
  - eapply miner_run_ok; [exact IH|by apply rtc_once].
  - by eapply restart_ok.
Qed.

(** The histories of a miner, with the coinbase that is awaited after each. *)
Inductive awaiting : MinerNode → option (string * Transaction) → Prop :=
  | aw_start config listener rng salt mk nonce r n :
      MinerNode_new (M := M) NV NETWORK_VERSION config None listener rng salt mk nonce r = Ret (inr n) → awaiting n None
  | aw_network n c nd : awaiting n c → awaiting (n <| node := nd |>) c
  | aw_local n c evs : awaiting n c → awaiting (n <| Miner.local_events := evs |>) c
  | aw_event n c sel o n' : awaiting n c → chosen_ok sel →
      Miner.handle_next_event (M := M) build_merkle_tree_root n sel = Ret (Some (o, n')) → awaiting n' (event_awaited n sel c)
  | aw_response n c response res n' : awaiting n c →
      Miner.handle_next_event_response (M := M) n response = Ret (res, n') → awaiting n' (response_awaited n response c)
  | aw_restart n c config listener rng salt mk nonce r n' : awaiting n c →
      MinerNode_new (M := M) NV NETWORK_VERSION config (Some (take_closed_extra_params n).1) listener rng salt mk nonce r =
        Ret (inr n') → awaiting n' c.

Lemma awaiting_coinbase n c : awaiting n c → miner_ok n ∧ current_coinbase n = c.
Proof.
  induction 1 as [config listener rng salt mk nonce r n Hnew|n c nd _ [Hn Hc]|n c evs _ [Hn Hc]|n c sel o n' _ [Hn <-] Hs He|
    n c response res n' _ [Hn <-] Hr|n c config listener rng salt mk nonce r n' _ [Hn <-] Hnew].
  - apply (start_ok _ _ _ _ _ _ _ _ _ None) in Hnew as [Hok Hr]; [split; [done|]|apply (fresh_safe LAST_COINBASE_KEY); done].
    by injection Hr.
  - done.
  - done.
  - split; [by eapply miner_event_ok|by eapply miner_event_coinbase].
  - split; [by eapply (miner_response_ok n response Hn (res, n'))|by eapply miner_response_coinbase].
  - by eapply restart_ok.
Qed.

(** C8: the coinbase that a miner may still win is never lost between two events,
    whatever peers send: after any history of branches of the event loop,
    responses and restarts, it is the one of the last proof of work that went
    out, if no later round of the compute node has listed it with the winners;
    and a miner started again on the database has the same.  The link to what is
    sent: the proof of work of a search that is done goes out once, to the compute
    node, when the node is not paused and is connected, and its coinbase is then
    the one that is kept; otherwise nothing goes out and nothing changes.  The
    link to what is won: once a coinbase is committed it is forgotten, also by a
    restart, so that it cannot be credited twice. *)
Theorem coinbase_survives_restart n c : awaiting n c →
  let restarts n c := ∀ config listener rng salt mk nonce r n',
    MinerNode_new (M := M) NV NETWORK_VERSION config (Some (take_closed_extra_params n).1) listener rng salt mk nonce r =
      Ret (inr n') → current_coinbase n' = c in
  current_coinbase n = c ∧ restarts n c ∧
  (∀ x n', process_found_block_pow (M := M) n = Ret (x, n') →
     current_coinbase n' = pow_awaited n c ∧ restarts n' (pow_awaited n c) ∧
     match pow_sent n with
     | Some info => ∃ nonce id, sent (node n') = sent (node n) ++
         [(compute_addr n, Direct (serialize (ComputeRequest.SendPoW (M := M) (b_num (bi_header info)) nonce (bi_coinbase info))) id)]
     | None => sent (node n') = sent (node n)
     end) ∧
  (∀ r n', commit_found_coinbase n r = Ret n' → current_coinbase n' = None ∧ restarts n' None).
Proof.
  intros [Hn Hc]%awaiting_coinbase restarts.
  assert (Hre : ∀ n, miner_ok n → restarts n (current_coinbase n)) by (intros m Hm; red; intros; by eapply restart_ok).
  split_and!; [done|rewrite <-Hc; by apply Hre| |].
  - intros x n' Hf. pose proof (found_block_ok n Hn _ Hf) as Hn'. apply found_block_coinbase in Hf as [E Hs]; [|done].
    rewrite Hc in E. split_and!; [done|rewrite <-E; by apply Hre|done].
  - intros r n' Hf. pose proof (commit_coinbase_ok n r Hn _ Hf) as Hn'. apply commit_coinbase_clears in Hf as [E _].
    split; [done|rewrite <-E; by apply Hre].
Qed.

(** *** What the compute node makes of it *)
Lemma miner_sent_compute n peer (msg : ComputeRequest.t M) res n' : Miner.send_compute n peer msg = (res, n') →
  match res with
  | inr _ => ∃ id, sent (node n') = sent (node n) ++ [(peer, Direct (serialize msg) id)]
  | inl _ => sent (node n') = sent (node n)
  end.
Proof.
  unfold Miner.send_compute, Comms.send, gen, send_message. cbn [peers setter].
  destruct (peers (Miner.node n) !! peer); intros [= <- <-]; cbn; [by eexists|done].
Qed.

Context {Rug0 : Rug} {KeccakPrime0 : KeccakPrime}.

(** C7: every proof of work that a miner sends is for its current block, and a
    compute node that is mining this block with this reward, and has selected
    the miner, accepts it: the coinbase pays the reward, and the header with the
    nonce and the coinbase passes the check.  The coinbase is remembered. *)
Theorem sent_pow_accepted n n' : miner_reachable n → pause_node n = false →
  process_found_block_pow (M := M) n = Ret (true, n') →
  ∃ b nonce cb id, current_block n = Some b ∧
    sent (node n') = sent (node n) ++
      [(compute_addr n, Direct (serialize (ComputeRequest.SendPoW (M := M) (b_num (br_block b)) nonce cb)) id)] ∧
    current_coinbase n' = Some (construct_tx_hash cb, cb) ∧
    ∀ (c : ComputeNode TlsCertificate M) blk address, get_mining_block (node_raft c) = Some blk → header blk = br_block b →
      get_current_reward (node_raft c) = br_reward b → is_u64 (br_reward b) →
      address ∈ lookup (cr_get_mining_participants (node_raft c)) →
      pow_acceptable c address (b_num (br_block b)) nonce cb.
Proof.
  intros [Hw _]%reachable_ok Hpause. unfold process_found_block_pow. unfold work_ok in Hw.
  destruct (mining_block_task n) as [| |[info|]]; cbn [completed_result]; try done.
  destruct Hw as (b & addr & nonce & Hb & Hpeer & Hcb & Hh & Hv). specialize (Hv eq_refl).
  rewrite Hh. unfold apply_mining_tx. cbn [nonce_and_mining_tx_hash setter b_num]. rewrite Hpause, Hpeer. cbn [negb].
  destruct (send_pow n _ _ _ _) as [res n1] eqn:E. apply miner_sent_compute in E. destruct res as [|[]]; [done|]. destruct E as [id E].
  intros (s & Hs & [= <-])%obind_ret. exists b, nonce, (bi_coinbase info), id. split; [done|]. split; [exact E|].
  split; [by apply obind_ret in Hs as (w & _ & [= <-])|].
  intros c blk address Hblk Hhead Hrew Hu Hin. set (out := mkTxOut (Externals.Token (br_reward b)) (wrap64 (b_num (br_block b) + COINBASE_MATURITY)) None (Some addr)).
  exists blk, out. rewrite Hcb at 1 2. unfold construct_coinbase_tx. fold out. rewrite tx_core_outputs, coinbase_recognised, Hhead.
  split_and!; try done.
  - cbn. by rewrite token_amount_token.
  - unfold pow_ok. cbn. rewrite Hh in Hv. unfold validate_pow_block in Hv.
    apply obind_ret in Hv as (d & Hd & [= Hv]). apply bool_decide_eq_true in Hv as [d' ->]. exists d'. exact Hd.
Qed.
End starts.
End miner.

(** ** Examples *)
Module MinerRoundsExamples.
Import TestExternals ComputeExamples MiningExamples CommsExamples WalletExamples MinerExamples.
Open Scope string_scope.
Notation step := (miner_step (M := unit) no_merkle).
Notation reachable := (miner_reachable (M := unit) no_merkle [1] 6).

(** The round message arrives from the compute node; the second nonce is found
    and sent. *)
Definition with_message (n : MinerNode TlsCertificate) : MinerNode TlsCertificate :=
  n <| node ::= λ nd, nd <| peers := {[compute_node := mkPeer (Some 6) compute_node (Some NodeCompute) (Some compute_node) false RxNone 0]} |>
    <| event_queue := [NewFrame compute_node [3]] |> |>.
Definition run (n : MinerNode TlsCertificate) (sel : Miner.Selected) : MinerNode TlsCertificate :=
  match Miner.handle_next_event (M := unit) no_merkle n sel with Ret (Some (_, n)) => n | _ => dummy_node end.
Definition n1 := with_message n0.
Definition n2 := run n1 (Miner.SelEvent env).
Definition n3 := run n2 (Miner.SelBlock [[5]; [0; 8]]).
Definition n4 := match process_found_block_pow (M := unit) n3 with Ret (_, n) => n | Panic => dummy_node end.
Definition n5 := match MinerNode_new (M := unit) [1] 6 config (Some (take_closed_extra_params n4).1) true Z.of_nat [5] [7] [0; 0]
                         ([0; 1], [20], [37]) with Ret (inr n) => n | _ => dummy_node end.

Lemma n2_step : Miner.handle_next_event (M := unit) no_merkle n1 (Miner.SelEvent env) =
  Ret (Some (Some (inr (ok "Pre-block received successfully")), n2)).
Proof. vm_compute. reflexivity. Qed.
Lemma n3_step : Miner.handle_next_event (M := unit) no_merkle n2 (Miner.SelBlock [[5]; [0; 8]]) =
  Ret (Some (Some (inr (ok "Block PoW complete")), n3)).
Proof. vm_compute. reflexivity. Qed.
Lemma n4_step : Miner.handle_next_event_response (M := unit) n3 (inr (ok "Block PoW complete")) = Ret (ResultContinue, n4).
Proof. vm_compute. reflexivity. Qed.
Lemma n3_reachable : reachable n3.
Proof.
  eapply mr_step; [|exact (miner_event no_merkle n2 (Miner.SelBlock [[5]; [0; 8]]) _ n3 I n3_step)].
  eapply mr_step; [|exact (miner_event no_merkle n1 (Miner.SelEvent env) _ n2 I n2_step)].
  eapply mr_step; [|apply miner_network]. exact (mr_start _ _ _ _ _ _ _ _ _ _ _ n0_ret).
Qed.

Lemma sent_pow_accepted_witness : ∃ nonce cb, pow_acceptable m3 miner_a 0 nonce cb.
Proof.
  destruct (sent_pow_accepted (M := unit) no_merkle [1] 6 n3 n4 n3_reachable eq_refl) as (b & nonce & cb & id & Hb & _ & _ & Hc).
  - vm_compute. reflexivity.
  - exists nonce, cb.
    assert (Eb : current_block n3 = Some (mkBlockPoWReceived round_header 7450580596)) by (vm_compute; reflexivity).
    rewrite Eb in Hb. injection Hb as <-.
    apply (Hc m3 (mkBlock round_header ["g"]) miner_a).
    + vm_compute. reflexivity.
    + reflexivity.
    + vm_compute. reflexivity.
    + vm_compute. split; [discriminate|reflexivity].
    + apply (bool_decide_eq_true _). vm_compute. reflexivity.
Defined.

Lemma n3_awaiting : awaiting (M := unit) no_merkle [1] 6 n3 None.
Proof.
  refine (aw_event _ _ _ n2 None (Miner.SelBlock [[5]; [0; 8]]) _ n3 _ I n3_step).
  assert (E : event_awaited n1 (Miner.SelEvent env) None = None) by (vm_compute; reflexivity).
  rewrite <-E. refine (aw_event _ _ _ n1 None (Miner.SelEvent env) _ n2 _ I n2_step).
  apply aw_network. exact (aw_start _ _ _ _ _ _ _ _ _ _ _ n0_ret).
Qed.
Lemma coinbase_survives_restart_witness : ∃ h cb nonce id,
  sent (node n4) = [(compute_node, Direct (serialize (ComputeRequest.SendPoW (M := unit) 0 nonce cb)) id)] ∧
  current_coinbase n4 = Some (h, cb) ∧ current_coinbase n5 = Some (h, cb).
Proof.
  destruct (coinbase_survives_restart (M := unit) no_merkle [1] 6 n3 None n3_awaiting) as (_ & _ & Hf & _).
  assert (E4 : process_found_block_pow (M := unit) n3 = Ret (true, n4)) by (vm_compute; reflexivity).
  destruct (Hf _ _ E4) as (Hc & Hr & Hs).
  assert (Eb : (b_num ∘ bi_header) <$> pow_sent n3 = Some 0) by (vm_compute; reflexivity).
  assert (E3 : sent (node n3) = []) by (vm_compute; reflexivity).
  assert (E3' : compute_addr n3 = compute_node) by (vm_compute; reflexivity).
  unfold pow_awaited in Hc, Hr. destruct (pow_sent n3) as [info|]; [|discriminate Eb]. injection Eb as Eb. cbn in Eb.
  destruct Hs as (nonce & id & Hs). rewrite E3, E3', Eb in Hs.
  eexists _, (bi_coinbase info), nonce, id. split_and!; [exact Hs|exact Hc|].
  apply (Hr config true Z.of_nat [5] [7] [0; 0] ([0; 1], [20], [37])). vm_compute. reflexivity.
Defined.
End MinerRoundsExamples.
