(* ===== verification/TransactionGen.v ===== *)
(** * Generated transactions: [src/transaction_gen.rs]

    A test user keeps the outputs it can spend ([ready], by address) and the
    transactions that wait for a block ([pending], with the outputs they spend),
    and moves everything from each of its addresses to the next one. *)
From Stdlib Require Import Ascii.
From S2P Require Import Prelude Externals Utils FundStore Wallet.

Record WalletTxSpec := mkWalletTxSpec {
  ws_out_point : string; ws_secret_key : string; ws_public_key : string; ws_amount : Z; ws_address_version : option Z }.

Notation PendingMap := (gmap string (Transaction * list (string * OutPoint * TokenAmount))).
Notation ReadyMap := (gmap string (list (OutPoint * TokenAmount))).

Record TransactionsKeys := mkTransactionsKeys {
  tk_pk : list Z; tk_sk : list Z; tk_address : string; tk_version : option Z }.

Record TransactionGen := mkTransactionGen {
  addr_to_keys : gmap string TransactionsKeys;
  up_to_date_with_snapshot : bool;
  pending : PendingMap;
  ready : ReadyMap;
  from_to_address : list (string * string);
}.
#[export] Instance eta_TransactionGen : Eta TransactionGen := λ r,
  mkTransactionGen (addr_to_keys r) (up_to_date_with_snapshot r) (pending r) (ready r) (from_to_address r).

(** [l.zip(elems.cycle().skip(1))]; a cycle of nothing is empty. *)
Definition zip_cycle (l elems : list string) : list (string * string) :=
  match elems with
  | [] => []
  | d :: _ => imap (λ i a, (a, nth (S i mod length elems) elems d)) l
  end.

Section generator.
Context `{Naom, NaomReceipts, NaomSigning, NaomCrypto, NaomPayments}.
Context `{Bincode (PendingMap * ReadyMap)}.
(** [NETWORK_VERSION], set by the build. *)
Context (NETWORK_VERSION : Z).
Implicit Types g : TransactionGen.

(** ** Building a transaction *)
Definition make_wallet_tx_info (seed : WalletTxSpec) : outcome (OutPoint * list Z * list Z * TokenAmount * option Z) :=
  let! tx_out_p := decode_wallet_out_point (ws_out_point seed) in
  let! sk := unwrap (decode_secret_key (ws_secret_key seed)) in
  let! pk := unwrap (decode_pub_key (ws_public_key seed)) in
  Ret (tx_out_p, pk, sk, ws_amount seed, ws_address_version seed).

Definition create_valid_transaction_with_ins_outs (tx_in : list (Z * string)) (receiver_addr_hexs : list string)
    (pub_key secret_key : list Z) (amount : TokenAmount) (address_version : option Z) : string * Transaction :=
  let tx_in_cons := map (λ '(prev_n, t_hash_hex),
    let signable := mkOutPoint t_hash_hex prev_n in
    let signature := sign_detached (string_codes (construct_tx_in_signable_hash signable)) secret_key in
    mkTxConstructor signable [signature] [pub_key] address_version) tx_in in
  let tx_ins := construct_payment_tx_ins tx_in_cons in
  let tx_outs := map (λ addr, mkTxOut (Token amount) 0 None (Some addr)) receiver_addr_hexs in
  let payment_tx := construct_tx_core tx_ins tx_outs in
  (construct_tx_hash payment_tx, payment_tx).

Definition create_valid_transaction (t_hash_hex : string) (prev_n : Z) (receiver_addr_hex : string)
    (pub_key secret_key : list Z) : string * Transaction :=
  create_valid_transaction_with_ins_outs [(prev_n, t_hash_hex)] [receiver_addr_hex] pub_key secret_key 1 None.

(** ** A new generator

    An output of an address of an old version also makes the address of the same
    key in the current version known. *)
Record NewGen := mkNewGen {
  ng_keys : gmap string TransactionsKeys; ng_ready : ReadyMap; ng_old : gset string; ng_new : gset string }.

Definition new_gen_step (acc : NewGen) (info : OutPoint * list Z * list Z * TokenAmount * option Z) : NewGen :=
  let '(out_p, pk, sk, amount, version) := info in
  let address := construct_address_for pk version in
  let acc :=
    match version with
    | Some _ =>
        let address := construct_address pk in
        mkNewGen (<[address := mkTransactionsKeys pk sk address None]> (ng_keys acc))
          (<[address := default [] (ng_ready acc !! address)]> (ng_ready acc)) (ng_old acc) ({[address]} ∪ ng_new acc)
    | None => acc
    end in
  mkNewGen (<[address := mkTransactionsKeys pk sk address version]> (ng_keys acc))
    (<[address := default [] (ng_ready acc !! address) ++ [(out_p, amount)]]> (ng_ready acc))
    (match version with Some _ => {[address]} ∪ ng_old acc | None => ng_old acc end)
    (match version with Some _ => ng_new acc | None => {[address]} ∪ ng_new acc end).

Definition TransactionGen_new (tx_specs : list WalletTxSpec) : outcome TransactionGen :=
  let! infos := ofold (λ l seed, let! i := make_wallet_tx_info seed in Ret (l ++ [i])) [] tx_specs in
  let n := foldl new_gen_step (mkNewGen ∅ ∅ ∅ ∅) infos in
  let new_address := bt_elems (ng_new n) in
  Ret (mkTransactionGen (ng_keys n) false ∅ (ng_ready n)
         (zip_cycle new_address new_address ++ zip_cycle (bt_elems (ng_old n)) new_address)).

Definition pending_txs g : PendingMap := pending g.
Definition is_up_to_date_with_snapshot g : bool := up_to_date_with_snapshot g.

(** ** Snapshots *)
Definition snapshot_state g : list Z * TransactionGen :=
  (serialize (pending g, ready g), g <| up_to_date_with_snapshot := true |>).

(** [get_mut(&address).unwrap().push(..)] *)
Definition push_ready (ready : ReadyMap) (src : string * OutPoint * TokenAmount) : outcome ReadyMap :=
  let '(address, out_p, amount) := src in
  let! l := unwrap (ready !! address) in
  Ret (<[address := l ++ [(out_p, amount)]]> ready).

(** Transactions of another version cannot be mined any more: what they spend is
    ready again. *)
Definition restore_pending (acc : PendingMap * ReadyMap)
    (entry : string * (Transaction * list (string * OutPoint * TokenAmount))) : outcome (PendingMap * ReadyMap) :=
  let '(tx_hash, (tx, src)) := entry in
  if tx_version tx =? NETWORK_VERSION then Ret (<[tx_hash := (tx, src)]> acc.1, acc.2)
  else let! ready := ofold push_ready acc.2 src in Ret (acc.1, ready).

Definition apply_snapshot_state g (snapshot : list Z) : outcome TransactionGen :=
  let! s := unwrap (deserialize (T := PendingMap * ReadyMap) snapshot) in
  let! s := ofold restore_pending (∅, s.2) (bt_iter s.1) in
  Ret (g <| pending := s.1 |> <| ready := s.2 |> <| up_to_date_with_snapshot := true |>).

(** ** Mined transactions *)
Definition remove_pending (acc : PendingMap * list (string * Transaction)) (hash : string) :
    PendingMap * list (string * Transaction) :=
  match acc.1 !! hash with
  | Some (tx, _) => (delete hash acc.1, acc.2 ++ [(hash, tx)])
  | None => acc
  end.
(** The outputs that pay an address. *)
Definition outputs_to (addr : string) (outs : list (OutPoint * TxOut)) : list (OutPoint * TokenAmount) :=
  omap (λ o, if bool_decide (script_public_key o.2 = Some addr) then Some (o.1, token_amount (value o.2)) else None) outs.

Definition commit_transactions g (hashes : list string) : TransactionGen :=
  let '(still, txs) := foldl remove_pending (pending g, []) hashes in
  let outs := get_tx_out_with_out_point txs in
  g <| pending := still |> <| ready ::= map_imap (λ addr l, Some (l ++ outputs_to addr outs)) |>.

(** ** New transactions *)
Definition make_transaction g (from to : string) (input_len : Z) : outcome (option (string * Transaction) * TransactionGen) :=
  match ready g !! from with
  | None => Ret (None, g)
  | Some inputs =>
      let input_len := Z.min (zlen inputs) input_len in
      if input_len =? 0 then Ret (None, g)
      else
        let taken := take (Z.to_nat input_len) inputs in
        let g := g <| ready ::= <[from := drop (Z.to_nat input_len) inputs]> |> in
        let ouputs := wrap64 (foldr Z.add 0 taken.*2) in
        let tx_ins := map (λ i : OutPoint * TokenAmount, (op_n i.1, t_hash i.1)) taken in
        let receiver_addr_hexs := replicate (Z.to_nat ouputs) to in
        let! keys := unwrap (addr_to_keys g !! from) in
        let '(hash, tx) := create_valid_transaction_with_ins_outs tx_ins receiver_addr_hexs (tk_pk keys) (tk_sk keys) 1
                             (tk_version keys) in
        Ret (Some (hash, tx), g <| pending ::= <[hash := (tx, map (λ i, (from, i.1, i.2)) taken)]> |>)
  end.

(** The loop over one address: each transaction takes at least one output, so
    one round more than there are outputs is enough.  Running out of rounds
    would count as a panic ([make_all_conserves]: it does not happen). *)
Fixpoint make_from (fuel : nat) g (from to : string) (input_len total_tx : Z) (all_txs : list (string * Transaction)) :
    outcome (list (string * Transaction) * TransactionGen) :=
  match fuel with
  | O => Panic
  | S fuel =>
      let! r := make_transaction g from to input_len in
      match r with
      | (None, g) => Ret (all_txs, g)
      | (Some tx, g) =>
          let all_txs := all_txs ++ [tx] in
          if total_tx <=? zlen all_txs then Ret (all_txs, g) else make_from fuel g from to input_len total_tx all_txs
      end
  end.

Fixpoint make_all (pairs : list (string * string)) g (chunk_size : option Z) (total_tx : Z)
    (all_txs : list (string * Transaction)) : outcome (list (string * Transaction) * TransactionGen) :=
  match pairs with
  | [] => Ret (all_txs, g)
  | (from, to) :: pairs =>
      if total_tx <=? zlen all_txs then Ret (all_txs, g)
      else
        let input_len := default (total_tx - zlen all_txs) chunk_size in
        let! r := make_from (S (length (default [] (ready g !! from)))) g from to input_len total_tx all_txs in
        make_all pairs r.2 chunk_size total_tx r.1
  end.

Definition make_all_transactions g (chunk_size : option Z) (total_tx : Z) :
    outcome (list (string * Transaction) * TransactionGen) :=
  make_all (from_to_address g) g chunk_size total_tx [].
End generator.

(** ** The outputs that the generator holds *)
Notation coin := (string * OutPoint * TokenAmount)%type.
Definition coin_op (c : coin) : OutPoint := c.1.2.
Definition tagged (addr : string) (l : list (OutPoint * TokenAmount)) : list coin := (λ x, (addr, x.1, x.2)) <$> l.
Definition ready_coins (r : ReadyMap) : list coin := flat tagged r.
Definition pending_coins (p : PendingMap) : list coin := flat (λ _ e, e.2) p.
Definition coins (g : TransactionGen) : list coin := ready_coins (ready g) ++ pending_coins (pending g).
Definition supply (l : list coin) : Z := foldr Z.add 0 l.*2.

#[export] Instance supply_perm : Proper ((≡ₚ) ==> (=)) supply.
Proof. intros l1 l2 E. unfold supply. induction E; cbn; lia. Qed.
Lemma supply_app l1 l2 : supply (l1 ++ l2) = supply l1 + supply l2.
Proof. unfold supply. induction l1 as [|c l1 IH]; cbn in *; lia. Qed.
Lemma supply_nonneg (l : list coin) : Forall (λ c, 0 ≤ c.2) l → 0 ≤ supply l.
Proof. unfold supply. induction 1; cbn; lia. Qed.
Lemma supply_tagged a l : supply (tagged a l) = foldr Z.add 0 l.*2.
Proof. unfold supply, tagged. by rewrite <-list_fmap_compose. Qed.

(** What is relied on: the hash of a transaction has no collision, and inputs
    built for outputs name them. *)
Class NaomGenLaws `{Naom, NaomReceipts, NaomCrypto, NaomPayments} : Prop := {
  tx_hash_inj tx tx' : construct_tx_hash tx = construct_tx_hash tx' → tx = tx';
  core_inputs ins outs : inputs (construct_tx_core ins outs) = ins;
  core_outputs ins outs : outputs (construct_tx_core ins outs) = outs;
  payment_previous l : previous_out <$> construct_payment_tx_ins l = Some ∘ tc_previous_out <$> l;
}.

Section conservation.
Context `{Naom, NaomReceipts, NaomSigning, NaomCrypto, NaomPayments, !NaomGenLaws}.
Context `{Bincode (PendingMap * ReadyMap)}.
Context (NETWORK_VERSION : Z).
Implicit Types g : TransactionGen.

(** A transaction that spends [src] for [to]: one output of one token for each
    token. *)
Definition pays (to : string) (src : list coin) (h : string) (tx : Transaction) : Prop :=
  h = construct_tx_hash tx ∧ previous_out <$> inputs tx = Some ∘ coin_op <$> src ∧
  outputs tx = replicate (Z.to_nat (supply src)) (mkTxOut (Token 1) 0 None (Some to)).

Record gen_ok g : Prop := {
  go_keys : Forall (λ p, is_Some (addr_to_keys g !! p.1) ∧ is_Some (ready g !! p.2)) (from_to_address g);
  go_pending h tx src : pending g !! h = Some (tx, src) →
    (∃ to, is_Some (ready g !! to) ∧ pays to src h tx) ∧ Forall (λ c, is_Some (ready g !! c.1.1)) src;
  go_distinct : NoDup (coin_op <$> coins g);
  go_amounts : Forall (λ c, 0 ≤ c.2) (coins g);
  go_supply : supply (coins g) < U64_MOD;
}.

Lemma ready_split (r : ReadyMap) a taken rest : r !! a = Some (taken ++ rest) →
  ready_coins r ≡ₚ tagged a taken ++ ready_coins (<[a:=rest]> r).
Proof.
  intros Ha. unfold ready_coins. rewrite (flat_delete _ _ _ _ Ha), flat_update. unfold tagged. by rewrite fmap_app, (assoc_L (++)).
Qed.

(** What one call does, when it takes something. *)
Lemma make_transaction_spec g from to len : gen_ok g → (from, to) ∈ from_to_address g → 0 ≤ len →
  (make_transaction g from to len = Ret (None, g) ∧ (len = 0 ∨ default [] (ready g !! from) = [])) ∨
  ∃ taken rest h tx, taken ≠ [] ∧ ready g !! from = Some (taken ++ rest) ∧ pays to (tagged from taken) h tx ∧
    let g' := g <| ready ::= <[from := rest]> |> <| pending ::= <[h := (tx, tagged from taken)]> |> in
    make_transaction g from to len = Ret (Some (h, tx), g') ∧ coins g' ≡ₚ coins g ∧ gen_ok g' ∧
    ready_coins (ready g) ≡ₚ tagged from taken ++ ready_coins (ready g').
Proof.
  intros Hg Hin Hlen. unfold make_transaction. destruct (ready g !! from) as [l|] eqn:Er; [|left; eauto].
  destruct (Z.eqb_spec (Z.min (zlen l) len) 0) as [Ez|Ez].
  { left. split; [done|]. unfold zlen in Ez. destruct l; [by right|left; cbn in Ez; lia]. }
  right. set (k := Z.to_nat (Z.min (zlen l) len)). cbv zeta.
  rewrite <-(take_drop k l) in Er. set (taken := take k l) in *. set (rest := drop k l) in *.
  destruct (proj1 (Forall_forall _ _) (go_keys g Hg) _ Hin) as [[keys Ek] Hto]. cbn in Ek, Hto.
  cbn [addr_to_keys setter]. rewrite Ek. cbn [unwrap obind].
  assert (Hne : taken ≠ []).
  { intros E%(f_equal length). unfold taken in E. rewrite length_take in E. unfold k, zlen in *. cbn in E. lia. }
  pose proof (ready_split _ _ _ _ Er) as Hsplit.
  pose proof (go_amounts g Hg) as Ham. pose proof (go_supply g Hg) as Hsup.
  assert (Hcoins : coins g ≡ₚ tagged from taken ++ ready_coins (<[from:=rest]> (ready g)) ++ pending_coins (pending g)).
  { unfold coins. by rewrite Hsplit, <-(assoc_L (++)). }
  assert (Hsum : wrap64 (foldr Z.add 0 taken.*2) = supply (tagged from taken)).
  { rewrite <-(supply_tagged from). apply wrap64_id. rewrite Hcoins in Ham, Hsup. rewrite supply_app in Hsup.
    apply Forall_app in Ham as [Hn1%supply_nonneg Hn2%supply_nonneg]. unfold is_u64. lia. }
  unfold create_valid_transaction_with_ins_outs. rewrite Hsum.
  set (tx := construct_tx_core _ _). set (h := construct_tx_hash tx). exists taken, rest, h, tx.
  assert (Hpay : pays to (tagged from taken) h tx).
  { split; [done|]. subst tx. rewrite core_inputs, core_outputs, payment_previous. split.
    - unfold tagged. change (@map) with (λ A B f l, @fmap list _ A B f l). cbv beta.
      rewrite <-!list_fmap_compose. apply list_fmap_ext. by intros _ [[hh nn] v] _.
    - change (@map) with (λ A B f l, @fmap list _ A B f l). cbv beta. by rewrite fmap_replicate. }
  assert (Hfresh : pending g !! h = None).
  { destruct (pending g !! h) as [[tx0 src0]|] eqn:E0; [exfalso|done].
    destruct (go_pending g Hg _ _ _ E0) as [(to0 & _ & Eh & Hi & _) _]. apply tx_hash_inj in Eh. subst tx0.
    destruct Hpay as (_ & Hi' & _). rewrite Hi' in Hi. rewrite !list_fmap_compose in Hi. apply list_fmap_eq_inj in Hi; [|congruence].
    pose proof (go_distinct g Hg) as Hd. rewrite Hcoins, fmap_app, NoDup_app in Hd. destruct Hd as (_ & Hd & _).
    destruct taken as [|[op v] taken']; [done|]. apply (Hd op); [by left|]. rewrite fmap_app, elem_of_app. right.
    assert (Hop : op ∈ coin_op <$> src0) by (rewrite <-Hi; by left).
    apply list_elem_of_fmap in Hop as (c & -> & Hc). apply list_elem_of_fmap_2. apply elem_of_flat. eauto. }
  set (g' := g <| ready ::= <[from := rest]> |> <| pending ::= <[h := (tx, tagged from taken)]> |>).
  assert (Hcoins' : coins g' ≡ₚ coins g).
  { unfold coins at 1, g'. cbn [ready pending setter]. unfold pending_coins at 1. rewrite flat_insert by done. cbn [snd].
    rewrite Hcoins, !(assoc_L (++)). apply Permutation_app; [apply Permutation_app_comm|done]. }
  refine (conj Hne (conj (f_equal Some (eq_sym (take_drop k l))) (conj Hpay _))). split; [reflexivity|]. split; [done|]. split; [|done].
  assert (Hdom : ∀ a, is_Some (ready g !! a) → is_Some (ready g' !! a)).
  { intros a Ha. unfold g'. cbn [ready setter]. apply lookup_insert_is_Some'. by right. }
  split; [|  |rewrite Hcoins'; apply Hg..].
  { eapply Forall_impl; [exact (go_keys g Hg)|]. intros p [? ?]. eauto. }
  intros h' tx' src'. unfold g' at 1. cbn [pending setter]. intros [[<- [= <- <-]]|[_ E']]%lookup_insert_Some.
  - split; [eauto 6|]. apply Forall_fmap, Forall_forall. intros x _. cbn. apply Hdom. eauto.
  - destruct (go_pending g Hg _ _ _ E') as [(to' & Hto' & Hp') Hs]. split; [eauto|]. eapply Forall_impl; [exact Hs|]. intros c. apply Hdom.
Qed.

(** What making transactions comes to: [srcs] are the outputs they spend. *)
Definition made (pairs : list (string * string)) (p : string * Transaction) (src : list coin) : Prop :=
  src ≠ [] ∧ ∃ from to, (from, to) ∈ pairs ∧ Forall (λ c, c.1.1 = from) src ∧ pays to src p.1 p.2.
Definition emptied g (a : string) : Prop := default [] (ready g !! a) = [].
Record run g (txs : list (string * Transaction)) (srcs : list (list coin)) g' : Prop := {
  run_ok : gen_ok g';
  run_pairs : from_to_address g' = from_to_address g;
  run_made : Forall2 (made (from_to_address g)) txs srcs;
  run_coins : coins g' ≡ₚ coins g;
  run_spent : ready_coins (ready g) ≡ₚ concat srcs ++ ready_coins (ready g');
  run_emptied a : emptied g a → emptied g' a;
}.

Lemma run_refl g : gen_ok g → run g [] [] g.
Proof. intros Hg. by split. Qed.
Lemma run_trans g1 g2 g3 txs1 txs2 srcs1 srcs2 : run g1 txs1 srcs1 g2 → run g2 txs2 srcs2 g3 →
  run g1 (txs1 ++ txs2) (srcs1 ++ srcs2) g3.
Proof.
  intros R1 R2. pose proof (run_made _ _ _ _ R2) as Hm. rewrite (run_pairs _ _ _ _ R1) in Hm. split.
  - apply R2.
  - etrans; [apply R2|apply R1].
  - apply Forall2_app; [apply R1|done].
  - etrans; [apply R2|apply R1].
  - rewrite concat_app, <-(assoc_L (++)), <-(run_spent _ _ _ _ R2). apply R1.
  - intros a Ha. by apply (run_emptied _ _ _ _ R2), (run_emptied _ _ _ _ R1).
Qed.

Lemma make_from_spec fuel g from to len total txs : gen_ok g → (from, to) ∈ from_to_address g → 0 ≤ len →
  zlen txs < total → (length (default [] (ready g !! from)) < fuel)%nat →
  ∃ txs' srcs g', make_from fuel g from to len total txs = Ret (txs ++ txs', g') ∧ run g txs' srcs g' ∧
    zlen (txs ++ txs') ≤ total ∧ (zlen (txs ++ txs') < total → len = 0 ∨ emptied g' from).
Proof.
  revert g txs. induction fuel as [|fuel IH]; intros g txs Hg Hin Hlen Htot Hf; [lia|]. cbn [make_from].
  destruct (make_transaction_spec g from to len Hg Hin Hlen) as [[-> Hd]|(taken & rest & h & tx & Hne & Er & Hp & S)].
  { exists [], [], g. cbn [obind]. rewrite app_nil_r. split; [done|]. split; [by apply run_refl|]. split; [lia|]. by intros _. }
  cbv zeta in S. set (g1 := g <| ready ::= _ |> <| pending ::= _ |>) in S. destruct S as (-> & Hc & Hg1 & Hs). cbn [obind].
  assert (R1 : run g [(h, tx)] [tagged from taken] g1).
  { split; [done|done| |done|by rewrite concat_cons, app_nil_r|].
    - constructor; [|constructor]. split; [by destruct taken|]. exists from, to. split; [done|]. split; [|done].
      by apply Forall_fmap, Forall_forall.
    - intros a. unfold emptied, g1. cbn [ready setter]. destruct (decide (a = from)) as [->|]; [|by rewrite lookup_insert_ne].
      rewrite Er, lookup_insert_eq. cbn. intros [_ E]%app_eq_nil. done. }
  assert (Hl : zlen (txs ++ [(h, tx)]) = zlen txs + 1) by (unfold zlen; rewrite length_app; cbn; lia).
  destruct (Z.leb_spec total (zlen (txs ++ [(h, tx)]))) as [Hle|Hlt].
  { exists [(h, tx)], [tagged from taken], g1. split; [done|]. split; [done|]. split; lia. }
  destruct (IH g1 (txs ++ [(h, tx)])) as (txs' & srcs & g' & E & R & Hz & Hdone); [done|done|done|done| |].
  { unfold g1. cbn [ready setter]. rewrite lookup_insert_eq. rewrite Er in Hf. cbn in *. rewrite length_app in Hf.
    destruct taken; [done|cbn in *; lia]. }
  exists ((h, tx) :: txs'), (tagged from taken :: srcs), g'. rewrite E, <-(assoc_L (++)). cbn [app].
  rewrite <-(assoc_L (++)) in Hz, Hdone. split; [done|]. split; [|done]. exact (run_trans _ _ _ _ _ _ _ R1 R).
Qed.

Lemma make_all_spec pairs g chunk total txs : gen_ok g → pairs ⊆ from_to_address g → (∀ c, chunk = Some c → 0 ≤ c) →
  zlen txs ≤ total →
  ∃ txs' srcs g', make_all pairs g chunk total txs = Ret (txs ++ txs', g') ∧ run g txs' srcs g' ∧
    zlen (txs ++ txs') ≤ total ∧
    (zlen (txs ++ txs') < total → chunk ≠ Some 0 → ∀ from to, (from, to) ∈ pairs → emptied g' from).
Proof.
  revert g txs. induction pairs as [|[from to] pairs IH]; intros g txs Hg Hsub Hc Hz; cbn [make_all].
  { exists [], [], g. rewrite app_nil_r. split; [done|]. split; [by apply run_refl|]. split; [done|]. intros _ _ from to []%not_elem_of_nil. }
  destruct (Z.leb_spec total (zlen txs)) as [Hle|Hlt].
  { exists [], [], g. rewrite app_nil_r. split; [done|]. split; [by apply run_refl|]. split; [done|]. lia. }
  set (len := default (total - zlen txs) chunk). cbv zeta.
  assert (Hlen : 0 ≤ len) by (unfold len; destruct chunk; cbn; [by apply Hc|lia]).
  destruct (make_from_spec (S (length (default [] (ready g !! from)))) g from to len total txs)
    as (txs1 & srcs1 & g1 & -> & R1 & Hz1 & Hd1); [done|apply Hsub; by left|done|done|lia|]. cbn [obind fst snd].
  destruct (IH g1 (txs ++ txs1)) as (txs2 & srcs2 & g2 & -> & R2 & Hz2 & Hd2);
    [apply R1|rewrite (run_pairs _ _ _ _ R1); intros p Hp; apply Hsub; by right|done|done|].
  rewrite <-(assoc_L (++)) in Hz2, Hd2 |- *. exists (txs1 ++ txs2), (srcs1 ++ srcs2), g2. split; [done|].
  split; [exact (run_trans _ _ _ _ _ _ _ R1 R2)|]. split; [done|].
  intros Hlt2 Hc0 f t [[= -> ->]|Hin]%elem_of_cons; [|by eapply Hd2].
  apply (run_emptied _ _ _ _ R2). destruct Hd1 as [E0|]; [|exfalso|done].
  { unfold zlen in *. rewrite !length_app in Hlt2. rewrite length_app. lia. }
  unfold len in E0. destruct chunk; cbn in E0; [by subst|lia].
Qed.

(** C23: generating transactions terminates within the fuel of the model and
    never panics: what it returns are at most [total_tx] transactions, each of
    which spends outputs that were ready and pays all their tokens to the next
    address; no output is spent by two of them or lost (what was ready is what is
    left and what they spend, and all that the generator holds is conserved); when
    fewer are made than asked for, nothing is left. *)
Theorem make_all_conserves g chunk total : gen_ok g → (∀ c, chunk = Some c → 0 ≤ c) → 0 ≤ total →
  ∃ txs srcs g', make_all_transactions g chunk total = Ret (txs, g') ∧ zlen txs ≤ total ∧
    Forall2 (made (from_to_address g)) txs srcs ∧ ready_coins (ready g) ≡ₚ concat srcs ++ ready_coins (ready g') ∧
    coins g' ≡ₚ coins g ∧ gen_ok g' ∧
    (zlen txs < total → chunk ≠ Some 0 → ∀ from to, (from, to) ∈ from_to_address g → default [] (ready g' !! from) = []).
Proof.
  intros Hg Hc Ht. destruct (make_all_spec (from_to_address g) g chunk total []) as (txs & srcs & g' & E & R & Hz & Hd); [done..|].
  exists txs, srcs, g'. split_and!; [exact E|done|apply R|apply R|apply R|apply R|exact Hd].
Qed.
End conservation.

(** ** Snapshots and mined transactions *)
Section rounds.
Context `{Naom, NaomReceipts, NaomSigning, NaomCrypto, NaomPayments, !NaomGenLaws}.
Context `{Bincode (PendingMap * ReadyMap), !BincodeLaws (PendingMap * ReadyMap)}.
Context (NETWORK_VERSION : Z).
Implicit Types (g : TransactionGen) (p : PendingMap) (r : ReadyMap).

Lemma push_ready_spec r src : Forall (λ c, is_Some (r !! c.1.1)) src →
  ∃ r', ofold push_ready r src = Ret r' ∧ ready_coins r' ≡ₚ src ++ ready_coins r ∧ dom r' = dom r.
Proof.
  revert r. induction src as [|[[a op] v] src IH]; intros r; cbn; [eauto|]. intros [[l Hl] Hs]%Forall_cons. cbn in Hl. rewrite Hl. cbn.
  destruct (IH (<[a := l ++ [(op, v)]]> r)) as (r' & E & Hc & Hd).
  { eapply Forall_impl; [exact Hs|]. intros c Hx. apply lookup_insert_is_Some'. by right. }
  exists r'. split; [done|]. split.
  - rewrite Hc. unfold ready_coins. rewrite flat_update, (flat_delete _ r _ _ Hl). unfold tagged. rewrite fmap_app. cbn.
    rewrite <-(assoc_L (++)). cbn. by rewrite <-!Permutation_middle.
  - rewrite Hd, dom_insert_L. apply elem_of_dom_2 in Hl. set_solver.
Qed.

Definition of_version (tx : Transaction) : bool := tx_version tx =? NETWORK_VERSION.

Lemma restore_spec (l : list (string * (Transaction * list coin))) p r : NoDup l.*1 → (∀ h, h ∈ l.*1 → p !! h = None) →
  Forall (λ e, Forall (λ c, is_Some (r !! c.1.1)) e.2.2) l →
  ∃ p' r', ofold (restore_pending NETWORK_VERSION) (p, r) l = Ret (p', r') ∧
    ready_coins r' ++ pending_coins p' ≡ₚ (l ≫= λ e, e.2.2) ++ ready_coins r ++ pending_coins p ∧ dom r' = dom r ∧
    (∀ h e, p' !! h = Some e ↔ p !! h = Some e ∨ ((h, e) ∈ l ∧ of_version e.1 = true)) ∧
    (Forall (λ e, of_version e.2.1 = true) l → r' = r).
Proof.
  revert p r. induction l as [|[h [tx src]] l IH]; intros p r; cbn [fmap list_fmap].
  { intros _ _ _. exists p, r. split; [done|]. split; [done|]. split; [done|]. split; [|done]. intros h e.
    split; [by left|]. intros [?|[[]%not_elem_of_nil _]]; done. }
  intros [Hn Hnd]%NoDup_cons Hfr [Hsrc Hl]%Forall_cons. cbn [fst snd] in *. cbn [ofold foldl restore_pending fst snd].
  fold (of_version tx). destruct (of_version tx) eqn:Ev.
  - destruct (IH (<[h:=(tx, src)]> p) r) as (p' & r' & E & Hc & Hd & Hp & Hr); [done| |done|].
    { intros h' Hh'. rewrite lookup_insert_ne by (intros ->; done). apply Hfr. by right. }
    exists p', r'. split; [exact E|]. split; [|split; [done|split]].
    + rewrite Hc. unfold pending_coins. rewrite flat_insert by (apply Hfr; by left). cbn [snd].
      cbn. rewrite <-(assoc_L (++)). by rewrite (Permutation_app_swap_app (ready_coins r) src), (Permutation_app_swap_app _ src).
    + intros h' e. rewrite Hp. rewrite lookup_insert_Some, elem_of_cons. split.
      * intros [[[-> <-]|[Hne ?]]|[? ?]]; [right; split; [by left|done]|by left|right; split; [by right|done]].
      * intros [Hh'|[[[= -> ->]|?] ?]]; [|by left; left|by right]. left. right. split; [|done]. intros <-.
        by rewrite (Hfr h) in Hh' by left.
    + intros [_ Hv]%Forall_cons. by apply Hr.
  - destruct (push_ready_spec r src Hsrc) as (r1 & E1 & Hc1 & Hd1). rewrite E1. cbn [obind].
    destruct (IH p r1) as (p' & r' & E & Hc & Hd & Hp & Hr); [done|intros h' Hh'; apply Hfr; by right| |].
    { eapply Forall_impl; [exact Hl|]. intros e He. eapply Forall_impl; [exact He|]. intros c. by rewrite <-!elem_of_dom, Hd1. }
    exists p', r'. split; [exact E|]. split; [|split; [by rewrite Hd|split]].
    + rewrite Hc, Hc1. cbn. rewrite !(assoc_L (++)). apply Permutation_app; [|done]. apply Permutation_app; [apply Permutation_app_comm|done].
    + intros h' e. rewrite Hp, elem_of_cons. split; [naive_solver|]. intros [?|[[[= -> ->]|?] ?]]; [by left|cbn in *; congruence|by right].
    + intros [Hv _]%Forall_cons. cbn in Hv. congruence.
Qed.

(** A generator that is started again from the snapshot of its state, with the
    same keys, holds the same outputs: nothing is lost or doubled, the
    transactions of the running version wait as before, what the others spend is
    ready again, and if there are no others the state is the one of the
    snapshot. *)
Theorem generator_roundtrip g g0 : gen_ok g → addr_to_keys g0 = addr_to_keys g → from_to_address g0 = from_to_address g →
  ∃ g', apply_snapshot_state NETWORK_VERSION g0 (snapshot_state g).1 = Ret g' ∧ gen_ok g' ∧ coins g' ≡ₚ coins g ∧
    up_to_date_with_snapshot g' = true ∧ (∀ h e, pending g' !! h = Some e ↔ pending g !! h = Some e ∧ of_version e.1 = true) ∧
    (map_Forall (λ _ e, of_version e.1 = true) (pending g) → g' = (snapshot_state g).2).
Proof.
  intros Hg Hk Hft. unfold apply_snapshot_state, snapshot_state. cbn [fst snd]. rewrite deserialize_serialize. cbn [unwrap obind fst snd].
  destruct (restore_spec (bt_iter (pending g)) ∅ (ready g)) as (p' & r' & -> & Hc & Hd & Hp & Hr).
  { apply bt_keys_NoDup. }
  { done. }
  { apply Forall_forall. intros [h [tx src]] Hin%elem_of_bt_iter. by apply (go_pending g Hg) in Hin as [_ ?]. }
  cbn [obind fst snd]. eexists. split; [reflexivity|].
  set (g' := g0 <| pending := _ |> <| ready := _ |> <| up_to_date_with_snapshot := true |>).
  assert (Hp' : ∀ h e, p' !! h = Some e ↔ pending g !! h = Some e ∧ of_version e.1 = true).
  { intros h e. rewrite Hp, lookup_empty, elem_of_bt_iter. naive_solver. }
  assert (Hcoins : coins g' ≡ₚ coins g).
  { unfold coins at 1, g'. cbn [ready pending setter]. rewrite Hc. unfold coins.
    replace (pending_coins (∅ : PendingMap)) with (@nil coin) by done. rewrite app_nil_r, Permutation_app_comm.
    apply Permutation_app; [done|]. unfold pending_coins, flat. by rewrite bt_iter_perm. }
  assert (Hdom : ∀ a, is_Some (ready g' !! a) ↔ is_Some (ready g !! a)) by (intros a; by rewrite <-!elem_of_dom, <-Hd).
  split; [|split; [done|split; [done|split; [done|]]]].
  - split; [| |rewrite Hcoins; apply Hg..].
    + unfold g'. cbn [addr_to_keys from_to_address ready setter]. rewrite Hk, Hft. eapply Forall_impl; [apply (go_keys g Hg)|].
      intros q [? ?]. split; [done|]. by apply Hdom.
    + intros h tx src. unfold g' at 1. cbn [pending setter]. rewrite Hp'. intros [Hh _].
      destruct (go_pending g Hg _ _ _ Hh) as [(to & Hto & Hpay) Hs]. split; [exists to; by rewrite Hdom|].
      eapply Forall_impl; [exact Hs|]. intros c. by rewrite Hdom.
  - intros Hall.
    assert (E : p' = pending g).
    { apply map_eq. intros h. apply option_eq. intros e. rewrite Hp'. split; [by intros [? _]|]. intros Hh. split; [done|exact (Hall _ _ Hh)]. }
    assert (Er : r' = ready g).
    { apply Hr, Forall_forall. intros [h e] Hin%elem_of_bt_iter. exact (Hall _ _ Hin). }
    unfold g'. rewrite E, Er. destruct g, g0. cbn in *. by subst.
Qed.
End rounds.

(** The outputs of a transaction, in order; their index is an [i32]. *)
Definition outs_of (h : string) (tx : Transaction) : list (OutPoint * TxOut) :=
  imap (λ i o, (mkOutPoint h (Z.of_nat i), o)) (outputs tx).
Class NaomOutsLaws `{Naom} : Prop := {
  outs_nil : get_tx_out_with_out_point [] = [];
  outs_cons h tx l : zlen (outputs tx) ≤ 2 ^ 31 →
    get_tx_out_with_out_point ((h, tx) :: l) = outs_of h tx ++ get_tx_out_with_out_point l;
  token_amount_one : token_amount (Token 1) = 1;
}.

Section mined.
Context `{Naom, NaomReceipts, NaomSigning, NaomCrypto, NaomPayments, !NaomGenLaws, !NaomOutsLaws}.
Implicit Types (g : TransactionGen) (p : PendingMap) (r : ReadyMap).

Definition coin_of (o : OutPoint * TxOut) : option coin :=
  (λ a, (a, o.1, token_amount (value o.2))) <$> script_public_key o.2.

Lemma paid_coins r outs : Forall (λ o, ∃ a, script_public_key o.2 = Some a ∧ is_Some (r !! a)) outs →
  flat (λ a _, tagged a (outputs_to a outs)) r ≡ₚ omap coin_of outs.
Proof.
  induction 1 as [|o outs (a & Ha & Hr) _ IH]; [by rewrite flat_nil|].
  cbn [omap list_omap]. unfold coin_of at 1. rewrite Ha. cbn [fmap option_fmap option_map]. rewrite <-IH.
  change (flat (λ a _, tagged a (outputs_to a (o :: outs))) r ≡ₚ
    [(a, o.1, token_amount (value o.2))] ++ flat (λ a _, tagged a (outputs_to a outs)) r).
  rewrite <-(flat_single (a, o.1, token_amount (value o.2)) a r Hr), <-flat_app.
  erewrite flat_ext; [reflexivity|]. intros k l. unfold outputs_to. cbn [omap list_omap]. rewrite Ha.
  destruct (decide (a = k)) as [->|Hne]; [by rewrite !bool_decide_true|]. by rewrite !bool_decide_false by congruence.
Qed.

Lemma supply_ones (l : list coin) : Forall (λ c, c.2 = 1) l → supply l = zlen l.
Proof. unfold supply, zlen. induction 1 as [|c l Hc _ IH]; [done|]. cbn [fmap list_fmap foldr length]. rewrite IH, Hc. lia. Qed.

(** What a mined transaction gives. *)
Lemma mined_coins to src h tx : pays to src h tx → 0 ≤ supply src →
  let l := omap coin_of (outs_of h tx) in
  supply l = supply src ∧ Forall (λ c, 0 ≤ c.2 ∧ t_hash (coin_op c) = h) l ∧ NoDup (coin_op <$> l) ∧
  Forall (λ o, script_public_key o.2 = Some to) (outs_of h tx) ∧ zlen (outputs tx) = supply src.
Proof.
  intros (_ & _ & Ho) Hs. unfold outs_of. rewrite Ho, imap_replicate. set (n := Z.to_nat (supply src)).
  assert (E : omap coin_of ((λ i, (mkOutPoint h (Z.of_nat i), mkTxOut (Token 1) 0 None (Some to))) <$> seq 0 n) =
    (λ i, (to, mkOutPoint h (Z.of_nat i), 1)) <$> seq 0 n).
  { induction (seq 0 n) as [|i l IH]; [done|]. cbn. rewrite token_amount_one. f_equal. exact IH. }
  cbv zeta. rewrite E. split_and!.
  - rewrite supply_ones by (by apply Forall_fmap, Forall_forall). unfold zlen. rewrite length_fmap, length_seq. unfold n. lia.
  - by apply Forall_fmap, Forall_forall.
  - rewrite <-list_fmap_compose. apply NoDup_fmap_2; [|apply NoDup_ListNoDup, seq_NoDup]. intros i j [= E']. lia.
  - by apply Forall_fmap, Forall_forall.
  - unfold zlen. rewrite length_replicate. unfold n. lia.
Qed.

Lemma remove_pending_spec hashes p acc : ∃ p' (rem : list (string * (Transaction * list coin))),
  foldl remove_pending (p, acc) hashes = (p', acc ++ ((λ e, (e.1, e.2.1)) <$> rem)) ∧
  pending_coins p ≡ₚ (rem ≫= λ e, e.2.2) ++ pending_coins p' ∧ Forall (λ e, p !! e.1 = Some e.2 ∧ e.1 ∈ hashes) rem ∧
  NoDup rem.*1 ∧ (∀ h e, p' !! h = Some e ↔ p !! h = Some e ∧ h ∉ hashes).
Proof.
  revert p acc. induction hashes as [|h hashes IH]; intros p acc; cbn [foldl].
  { exists p, []. cbn. rewrite app_nil_r. split_and!; [done..|constructor|]. set_solver. }
  unfold remove_pending at 2. cbn [fst snd]. destruct (p !! h) as [[tx src]|] eqn:Eh.
  - destruct (IH (delete h p) (acc ++ [(h, tx)])) as (p' & rem & E & Hc & Hr & Hn & Hp).
    exists p', ((h, (tx, src)) :: rem). rewrite E, <-(assoc_L (++)). split; [done|]. split_and!.
    + unfold pending_coins at 1. rewrite (flat_delete _ _ _ _ Eh). cbn. rewrite <-(assoc_L (++)). by rewrite <-Hc.
    + constructor; [split; [done|by left]|]. eapply Forall_impl; [exact Hr|]. intros e [[_ ?]%lookup_delete_Some ?]. split; [done|by right].
    + cbn. constructor; [|done]. intros (e & -> & He)%list_elem_of_fmap. rewrite Forall_forall in Hr.
      destruct (Hr _ He) as [[? _]%lookup_delete_Some _]. done.
    + intros h' e. rewrite Hp, lookup_delete_Some, not_elem_of_cons. naive_solver.
  - destruct (IH p acc) as (p' & rem & E & Hc & Hr & Hn & Hp). exists p', rem. split; [done|]. split; [done|]. split; [|split; [done|]].
    + eapply Forall_impl; [exact Hr|]. intros e [? ?]. split; [done|by right].
    + intros h' e. rewrite Hp, not_elem_of_cons. split; [intros [? ?]; split; [done|]; split; [congruence|done]|naive_solver].
Qed.

Definition names_tx (e : string * (Transaction * list coin)) : string * Transaction := (e.1, e.2.1).
Lemma mined_all r rem : Forall (λ e, (∃ to, is_Some (r !! to) ∧ pays to e.2.2 e.1 e.2.1) ∧ 0 ≤ supply e.2.2 ≤ 2 ^ 31) rem →
  NoDup rem.*1 →
  let outs := get_tx_out_with_out_point (names_tx <$> rem) in let l := omap coin_of outs in
  supply l = supply (rem ≫= λ e, e.2.2) ∧ Forall (λ c, 0 ≤ c.2 ∧ t_hash (coin_op c) ∈ rem.*1) l ∧ NoDup (coin_op <$> l) ∧
  Forall (λ o, ∃ a, script_public_key o.2 = Some a ∧ is_Some (r !! a)) outs.
Proof.
  cbv zeta. induction 1 as [|[h [tx src]] rem [(to & Hto & Hp) [Hs0 Hs]] _ IH]; cbn [fmap list_fmap fst snd] in *.
  { intros _. rewrite outs_nil. cbn. split_and!; [done|done|constructor|done]. }
  intros [Hn Hnd]%NoDup_cons. destruct (IH Hnd) as (IHs & IHa & IHd & IHo).
  destruct (mined_coins to src h tx Hp Hs0) as (Es & Ha & Hd & Ho & Hz).
  unfold names_tx at 1 3 5 7. cbn [fst snd]. rewrite outs_cons by (rewrite Hz; lia). rewrite omap_app. split_and!.
  - by rewrite supply_app, Es, IHs, bind_cons, supply_app.
  - apply Forall_app. split; [eapply Forall_impl; [exact Ha|]|eapply Forall_impl; [exact IHa|]]; intros c [? Hc]; (split; [done|]).
    + rewrite Hc. by left.
    + by right.
  - rewrite fmap_app. apply NoDup_app. split; [done|]. split; [|done]. intros op (c & -> & Hc)%list_elem_of_fmap (c' & E & Hc')%list_elem_of_fmap.
    rewrite Forall_forall in Ha, IHa. destruct (Ha _ Hc) as [_ Eh]. destruct (IHa _ Hc') as [_ Hh].
    rewrite <-E, Eh in Hh. done.
  - apply Forall_app. split; [|done]. eapply Forall_impl; [exact Ho|]. intros o Hso. by exists to.
Qed.

Lemma commit_ready r outs : Forall (λ o, ∃ a, script_public_key o.2 = Some a ∧ is_Some (r !! a)) outs →
  ready_coins (map_imap (λ addr l, Some (l ++ outputs_to addr outs)) r) ≡ₚ ready_coins r ++ omap coin_of outs.
Proof.
  intros Ho. rewrite <-(paid_coins r outs Ho). unfold ready_coins.
  rewrite (flat_map_imap tagged (λ addr l, l ++ outputs_to addr outs)), <-flat_app.
  erewrite flat_ext; [reflexivity|]. intros a l. unfold tagged. by rewrite fmap_app.
Qed.

(** A mined block makes the outputs of the pending transactions it contains
    ready, for the addresses they pay, and forgets what they spent: the tokens
    that the generator holds stay the same, whatever else is in the block, and no
    output is held twice. *)
Lemma commit_keeps_supply g hashes : gen_ok g → supply (coins g) ≤ 2 ^ 31 →
  Forall (λ c, t_hash (coin_op c) ∉ hashes) (coins g) →
  let g' := commit_transactions g hashes in
  gen_ok g' ∧ supply (coins g') = supply (coins g) ∧
  ∀ h e, pending g' !! h = Some e ↔ pending g !! h = Some e ∧ h ∉ hashes.
Proof.
  intros Hg Hsup Hnew. unfold commit_transactions.
  destruct (remove_pending_spec hashes (pending g) []) as (p' & rem & E & Hc & Hr & Hn & Hp). rewrite E. cbn [app].
  change (λ e : string * (Transaction * list coin), (e.1, e.2.1)) with names_tx. cbv zeta.
  set (outs := get_tx_out_with_out_point (names_tx <$> rem)). set (g' := g <| pending := p' |> <| ready ::= _ |>).
  pose proof (go_amounts g Hg) as Ham. assert (Hold : coins g ≡ₚ ready_coins (ready g) ++ (rem ≫= λ e, e.2.2) ++ pending_coins p').
  { unfold coins. by rewrite Hc. }
  destruct (mined_all (ready g) rem) as (Hs & Ha & Hd & Ho); [|done|].
  { apply Forall_forall. intros [h [tx src]] Hin. rewrite Forall_forall in Hr. destruct (Hr _ Hin) as [Eh _]. cbn in Eh.
    destruct (go_pending g Hg _ _ _ Eh) as [? _]. split; [done|]. cbn [fst snd].
    unfold coins, pending_coins in Ham, Hsup. rewrite (flat_delete _ _ _ _ Eh) in Ham, Hsup. cbn in Ham, Hsup.
    rewrite !supply_app in Hsup. rewrite !Forall_app in Ham. destruct Ham as (A1%supply_nonneg & A2%supply_nonneg & A3%supply_nonneg). lia. }
  assert (Hcoins : coins g' ≡ₚ omap coin_of outs ++ ready_coins (ready g) ++ pending_coins p').
  { unfold coins, g'. cbn [ready pending setter]. etrans; [apply Permutation_app; [exact (commit_ready _ _ Ho)|done]|].
    rewrite <-(assoc_L (++)). apply Permutation_app_swap_app. }
  assert (Hsupply : supply (coins g') = supply (coins g)).
  { rewrite Hcoins, Hold, !supply_app. unfold outs. rewrite Hs. lia. }
  assert (Hdom : ∀ a, is_Some (ready g !! a) → is_Some (ready g' !! a)).
  { intros a [l Hl]. unfold g'. cbn [ready setter]. rewrite map_lookup_imap, Hl. by eexists. }
  split; [|split; [done|exact Hp]]. rewrite Hold in Ham, Hnew. rewrite !Forall_app in Ham, Hnew.
  destruct Ham as (A1 & A2 & A3), Hnew as (N1 & _ & N3).
  pose proof (go_distinct g Hg) as Hnd. rewrite Hold, !fmap_app, !NoDup_app in Hnd. split.
  - eapply Forall_impl; [apply (go_keys g Hg)|]. intros q [? ?]. eauto.
  - intros h tx src [Hh _]%Hp. destruct (go_pending g Hg _ _ _ Hh) as [(to & Hto & Hpay) Hsrc]. split; [eauto|].
    eapply Forall_impl; [exact Hsrc|]. intros c. apply Hdom.
  - rewrite Hcoins, !fmap_app. apply NoDup_app. split; [exact Hd|]. split.
    + rewrite Forall_forall in Ha. rewrite Forall_forall in N1. rewrite Forall_forall in N3.
      intros op (c & -> & Hc')%list_elem_of_fmap. destruct (Ha _ Hc') as [_ (e & Eh & He)%list_elem_of_fmap].
      rewrite elem_of_app, !list_elem_of_fmap. intros [(c' & E' & Hin)|(c' & E' & Hin)];
        [apply (N1 _ Hin)|apply (N3 _ Hin)]; rewrite <-E', Eh; by apply (proj1 (Forall_forall _ _) Hr _ He).
    + apply NoDup_app. destruct Hnd as (D1 & D2 & D3 & D4 & D5). split; [done|]. split; [|done].
      intros op Hop Hop'. apply (D2 op Hop). rewrite elem_of_app. by right.
  - rewrite Hcoins. rewrite !Forall_app. split; [|done]. eapply Forall_impl; [exact Ha|]. by intros c [? _].
  - rewrite Hsupply. apply Hg.
Qed.
End mined.

(** ** A new generator *)
Section start.
Context `{Naom, NaomReceipts, NaomSigning, NaomCrypto, NaomPayments}.

Lemma elem_of_zip_cycle l elems a b : (a, b) ∈ zip_cycle l elems → a ∈ l ∧ b ∈ elems.
Proof.
  unfold zip_cycle. destruct elems as [|d rest]; [by intros ?%not_elem_of_nil|]. set (elems := d :: rest).
  rewrite elem_of_lookup_imap. intros (i & x & E & Hx%list_elem_of_lookup_2).
  pose proof (f_equal fst E) as Ea. pose proof (f_equal snd E) as Eb. cbn [fst snd] in Ea, Eb. rewrite Ea, Eb. split; [done|].
  apply list_elem_of_In, nth_In. apply Nat.mod_upper_bound. done.
Qed.

Notation Info := (OutPoint * list Z * list Z * TokenAmount * option Z)%type.
Definition info_coin (i : Info) : coin :=
  let '(op, pk, _, amount, v) := i in (construct_address_for pk v, op, amount).
Record new_gen_ok (n : NewGen) (l : list Info) : Prop := {
  ngo_coins : ready_coins (ng_ready n) ≡ₚ info_coin <$> l;
  ngo_addr a : a ∈ ng_new n ∪ ng_old n → is_Some (ng_keys n !! a) ∧ is_Some (ng_ready n !! a);
}.

Lemma put_ready r a l : ready_coins (<[a := default [] (r !! a) ++ l]> r) ≡ₚ ready_coins r ++ tagged a l.
Proof.
  unfold ready_coins. rewrite flat_update. unfold tagged. rewrite fmap_app, <-(assoc_L (++)).
  destruct (r !! a) as [l0|] eqn:E; cbn.
  - rewrite (flat_delete _ _ _ _ E), <-(assoc_L (++)). by rewrite (Permutation_app_comm _ (flat _ _)).
  - rewrite delete_id by done. apply Permutation_app_comm.
Qed.

Lemma new_gen_step_ok n l i : new_gen_ok n l → new_gen_ok (new_gen_step n i) (l ++ [i]).
Proof.
  destruct i as [[[[op pk] sk] amount] v]. intros [Hc Ha]. unfold new_gen_step.
  set (n1 := match v with Some _ => _ | None => n end).
  assert (Hn1 : new_gen_ok n1 l).
  { unfold n1. destruct v; [|by split]. split; cbn [ng_ready ng_new ng_old ng_keys].
    - rewrite <-(app_nil_r (default [] _)). by rewrite put_ready, app_nil_r.
    - intros a Hin. destruct (decide (a = construct_address pk)) as [->|]; [rewrite !lookup_insert_eq; eauto|].
      rewrite !lookup_insert_ne by done. apply Ha. set_solver. }
  assert (En : ng_new n1 ∪ ng_old n1 ⊆ dom (ng_ready n1)).
  { intros a Hin. apply elem_of_dom. by apply (ngo_addr _ _ Hn1). }
  destruct Hn1 as [Hc1 Ha1]. split; cbn [ng_ready ng_new ng_old ng_keys].
  - rewrite put_ready, Hc1, fmap_app. done.
  - intros a Hin. destruct (decide (a = construct_address_for pk v)) as [->|]; [rewrite !lookup_insert_eq; eauto|].
    rewrite !lookup_insert_ne by done. apply Ha1. destruct v; set_solver.
Qed.

Lemma decoded_amounts specs (l infos : list Info) :
  ofold (λ l seed, let! i := make_wallet_tx_info seed in Ret (l ++ [i])) l specs = Ret infos →
  (λ i : Info, i.1.2) <$> infos = ((λ i : Info, i.1.2) <$> l) ++ (ws_amount <$> specs).
Proof.
  revert l. induction specs as [|s specs IH]; intros l; cbn [ofold].
  { intros [= ->]. cbn. by rewrite app_nil_r. }
  destruct (make_wallet_tx_info s) as [i|] eqn:Ei; [|done]. cbn [obind]. intros ->%IH.
  rewrite fmap_app, <-(assoc_L (++)). do 2 f_equal. revert Ei. unfold make_wallet_tx_info.
  destruct (decode_wallet_out_point _); [|done]. cbn. destruct (decode_secret_key _); [|done]. cbn.
  destruct (decode_pub_key _); [|done]. cbn. by intros [= <-].
Qed.

(** What the configuration gives is well formed when no output is configured
    twice. *)
Lemma new_ok specs g : TransactionGen_new specs = Ret g → Forall (λ s, 0 ≤ ws_amount s) specs →
  foldr Z.add 0 (ws_amount <$> specs) < U64_MOD → NoDup (coin_op <$> coins g) →
  gen_ok g ∧ supply (coins g) = foldr Z.add 0 (ws_amount <$> specs) ∧ pending g = ∅.
Proof.
  unfold TransactionGen_new. intros E Ham Hsum Hnd. destruct (ofold _ [] specs) as [infos|] eqn:Ei; [|done]. cbn [obind] in E.
  apply decoded_amounts in Ei. cbn [fmap list_fmap app] in Ei.
  assert (Hn : new_gen_ok (foldl new_gen_step (mkNewGen ∅ ∅ ∅ ∅) infos) ([] ++ infos)).
  { assert (Hn0 : new_gen_ok (mkNewGen ∅ ∅ ∅ ∅) []) by (split; cbn; [done|set_solver]).
    clear -Hn0. revert Hn0. generalize (mkNewGen ∅ ∅ ∅ ∅) (@nil Info). induction infos as [|i infos IH]; intros n l Hn; cbn.
    - by rewrite app_nil_r.
    - apply new_gen_step_ok with (i := i) in Hn. apply IH in Hn. by rewrite <-(assoc_L (++)) in Hn. }
  set (n := foldl _ _ _) in E, Hn. injection E as <-. set (g := mkTransactionGen _ _ _ _ _) in *.
  destruct Hn as [Hc Ha]. assert (Hcoins : coins g ≡ₚ info_coin <$> infos).
  { unfold coins, g. cbn [ready pending]. rewrite Hc. replace (pending_coins ∅) with (@nil coin) by done. by rewrite app_nil_r. }
  assert (Hval : (info_coin <$> infos).*2 = ws_amount <$> specs).
  { rewrite <-Ei, <-list_fmap_compose. apply list_fmap_ext. by intros _ [[[[op pk] sk] v] ver] _. }
  assert (Hs : supply (coins g) = foldr Z.add 0 (ws_amount <$> specs)).
  { rewrite Hcoins. unfold supply. by rewrite Hval. }
  split; [|done]. split.
  - apply Forall_forall. intros [a b] Hin. unfold g in Hin. cbn [from_to_address] in Hin. rewrite elem_of_app in Hin.
    destruct Hin as [[Hx Hy]%elem_of_zip_cycle|[Hx Hy]%elem_of_zip_cycle]; rewrite elem_of_bt_elems in Hx, Hy; cbn;
      (split; [apply Ha; set_solver|apply (Ha b); set_solver]).
  - intros h tx src. cbn. by rewrite lookup_empty.
  - done.
  - rewrite Hcoins. assert (Hv : Forall (λ v, 0 ≤ v) (info_coin <$> infos).*2) by (rewrite Hval; by apply Forall_fmap).
    rewrite Forall_forall in Hv. apply Forall_forall. intros c Hin. apply Hv. by apply list_elem_of_fmap_2.
  - by rewrite Hs.
Qed.
End start.

(** ** Examples *)
Module GenExamples.
Import TestExternals WalletExamples.
Open Scope string_scope.

(** A hash without collisions: the serialized transaction itself, eight bits to a
    character, closed with a one and zeros. *)
Fixpoint bits (p : positive) : list bool :=
  match p with xH => [] | xO p => false :: bits p | xI p => true :: bits p end.
Fixpoint pack (l : list bool) : string :=
  match l with
  | b1 :: b2 :: b3 :: b4 :: b5 :: b6 :: b7 :: b8 :: l => String (Ascii b1 b2 b3 b4 b5 b6 b7 b8) (pack l)
  | _ => ""
  end.
Fixpoint unpack (s : string) : list bool :=
  match s with EmptyString => [] | String (Ascii b1 b2 b3 b4 b5 b6 b7 b8) s => [b1; b2; b3; b4; b5; b6; b7; b8] ++ unpack s end%list.
Definition strip (l : list bool) : list bool :=
  reverse (tail ((fix go (l : list bool) := match l with false :: l => go l | _ => l end) (reverse l))).
Definition full (l : list bool) : list bool := l ++ true :: replicate (7 - length l mod 8) false.
Definition injective_hash (p : positive) : string := pack (full (bits p)).

Lemma bits_inj p q : bits p = bits q → p = q.
Proof. revert q. induction p as [p IH|p IH|]; intros [q|q|] E; cbn in E; try done; injection E as E; f_equal; by apply IH. Qed.
Lemma unpack_pack k l : length l = (8 * k)%nat → unpack (pack l) = l.
Proof.
  revert l. induction k as [|k IH]; intros l Hl; [by destruct l|].
  do 8 (destruct l as [|? l]; [cbn in Hl; lia|]). cbn. rewrite IH by (cbn in Hl; lia). done.
Qed.
Lemma strip_full l : strip (full l) = l.
Proof.
  unfold strip, full. rewrite reverse_app, reverse_cons, reverse_replicate, <-(assoc_L (++)).
  induction (7 - _)%nat as [|n IH]; cbn; [apply reverse_involutive|done].
Qed.
Lemma full_length l : length (full l) = (8 * S (length l / 8))%nat.
Proof.
  unfold full. rewrite length_app. cbn [length]. rewrite length_replicate.
  pose proof (Nat.div_mod_eq (length l) 8). pose proof (Nat.mod_upper_bound (length l) 8). lia.
Qed.
Lemma injective_hash_inj p q : injective_hash p = injective_hash q → p = q.
Proof.
  intros E%(f_equal unpack). unfold injective_hash in E. rewrite !(unpack_pack _ _ (full_length _)) in E.
  apply (f_equal strip) in E. rewrite !strip_full in E. by apply bits_inj.
Qed.

#[export] Instance gen_naom : Naom := {|
  sha3_256 := @sha3_256 naom; TOTAL_TOKENS := @TOTAL_TOKENS naom; token_add := @token_add naom; token_sum := @token_sum naom;
  token_div := @token_div naom; token_amount := @token_amount naom; AssetValues := @AssetValues naom;
  AssetValues_default := @AssetValues_default naom; update_add := @update_add naom; with_fixed_hash := @with_fixed_hash naom;
  Block_new := @Block_new naom; set_txs_merkle_root_and_hash := @set_txs_merkle_root_and_hash naom;
  build_hex_txs_hash := @build_hex_txs_hash naom; get_tx_out_with_out_point := tx_outs;
  get_tx_out_with_out_point_cloned := tx_outs; get_inputs_previous_out_point := tx_ins;
  construct_tx_hash tx := injective_hash (encode (enc tx)); is_coinbase := @is_coinbase naom |}.
#[export] Instance gen_assets : @NaomAssets gen_naom :=
  @Build_NaomAssets gen_naom (@update_sub naom naom_assets) (@has_enough naom naom_assets) (@default_of_type naom naom_assets)
    (@add_assign naom naom_assets) (@is_greater_or_equal_to naom naom_assets) (@get_excess naom naom_assets).
#[export] Instance gen_laws : NaomGenLaws.
Proof.
  split; try done.
  - intros tx tx' E. by apply enc_inj, (inj encode), injective_hash_inj.
  - intros l. induction l as [|tc l IH]; [done|]. cbn. f_equal. exact IH.
Qed.
#[export] Instance gen_outs : NaomOutsLaws.
Proof. split; [done|done|done]. Qed.
#[export] Instance b_state : Bincode (PendingMap * ReadyMap) := bincode_codec _.
#[export] Instance b_state_laws : BincodeLaws (PendingMap * ReadyMap) := bincode_codec_laws _.

Definition specs : list WalletTxSpec :=
  [mkWalletTxSpec "0-aa" "s1" "k1" 2 None; mkWalletTxSpec "1-aa" "s1" "k1" 1 None; mkWalletTxSpec "0-bb" "s2" "k2" 3 (Some 0)].
Definition empty_gen : TransactionGen := mkTransactionGen ∅ false ∅ ∅ [].
Definition g0 : TransactionGen := match TransactionGen_new specs with Ret g => g | Panic => empty_gen end.
Lemma g0_new : TransactionGen_new specs = Ret g0.
Proof. vm_compute. reflexivity. Qed.
Lemma g0_ok : gen_ok g0 ∧ supply (coins g0) = 6.
Proof.
  destruct (new_ok specs g0) as (Hg & Hs & _); [apply g0_new| |done| |by split].
  - repeat constructor; done.
  - apply (bool_decide_eq_true _). vm_compute. reflexivity.
Qed.
(** Two transactions, of at most two outputs each, wait for a block. *)
Definition made2 := match make_all_transactions g0 (Some 2) 5 with Ret r => r | Panic => ([], empty_gen) end.
Definition g1 : TransactionGen := made2.2.
Lemma g1_ok : gen_ok g1.
Proof.
  destruct (make_all_spec (from_to_address g0) g0 (Some 2) 5 []) as (txs & srcs & g & E & R & _);
    [apply g0_ok|done|by intros c [= <-]|done|].
  assert (Eg : g = g1); [|rewrite <-Eg; apply R].
  change (make_all (from_to_address g0) g0 (Some 2) 5 []) with (make_all_transactions g0 (Some 2) 5) in E. unfold g1, made2. by rewrite E.
Qed.

Lemma make_all_conserves_witness : ∃ txs srcs g', make_all_transactions g0 (Some 2) 5 = Ret (txs, g') ∧ (zlen txs ≤ 5)%Z ∧
  Forall2 (made (from_to_address g0)) txs srcs ∧ coins g' ≡ₚ coins g0.
Proof.
  destruct (make_all_conserves g0 (Some 2) 5) as (txs & srcs & g' & E & Hz & Hm & _ & Hc & _);
    [apply g0_ok|by intros c [= <-]|done|].
  exists txs, srcs, g'. split; [exact E|]. split; [exact Hz|]. split; [exact Hm|exact Hc].
Defined.

(** The transactions that wait are of version 0, not of the running version 6. *)
Lemma generator_roundtrip_witness : ∃ g', apply_snapshot_state 6 g0 (snapshot_state g1).1 = Ret g' ∧ coins g' ≡ₚ coins g1 ∧
  ∀ h e, pending g' !! h = Some e ↔ pending g1 !! h = Some e ∧ of_version 6 e.1 = true.
Proof.
  destruct (generator_roundtrip 6 g1 g0) as (g' & E & _ & Hc & _ & Hp & _);
    [apply g1_ok|vm_compute; reflexivity|vm_compute; reflexivity|].
  exists g'. split; [exact E|]. split; [exact Hc|exact Hp].
Defined.
End GenExamples.
