(* ===== verification/User.v ===== *)
(** * The user node: [UserNode] of [src/user.rs]

    Payments and their addresses, donations, exchanges of tokens for receipts
    between two users, the notifications of blocks and the transactions generated
    for tests, on top of [Wallet], [TransactionGen] and [Comms].  What the
    environment decides within one event (key pairs drawn, what a connection comes
    to) is a record of arguments, [Env].  Messages to the user interface are left
    out. *)
From Stdlib Require Import Ascii.
From S2P Require Import Prelude Externals Utils TrackedUtxo Unicorn Interfaces Comms ActiveRaft RaftUtil BlockPipeline ComputeConsensused Requests DbUtils FundStore Wallet TransactionGen.

Definition TX_GENERATOR_KEY : string := "TxGeneratorKey".

Inductive UserError :=
  | UserConfig (s : string) | UserNetwork (e : CommsError) | UserSerialization | UserAsyncTask
  | UserWallet (e : WalletDbError).

Record AutoGenTx := mkAutoGenTx {
  tx_generator : TransactionGen; tx_chunk_size : option Z; tx_in_per_tx : option Z; tx_max_count : Z }.
#[export] Instance eta_AutoGenTx : Eta AutoGenTx := λ r,
  mkAutoGenTx (tx_generator r) (tx_chunk_size r) (tx_in_per_tx r) (tx_max_count r).

Record PendingPayment := mkPendingPayment { pp_amount : TokenAmount; pp_locktime : option Z }.
Inductive AutoDonate := DonateDisabled | DonateEnabled (amount : TokenAmount).

Record UserNode (C : Type) := mkUserNode {
  node : Node C;
  un_wallet : WalletDb;
  local_events : list LocalEvent;
  compute_addr : SocketAddr;
  trading_peer : option SocketAddr;
  next_payment : option (option SocketAddr * Transaction);
  last_block_notified : Block;
  test_auto_gen_tx : option AutoGenTx;
  received_utxo_set : option UtxoSet;
  pending_payments : gmap SocketAddr PendingPayment * AutoDonate;
  next_rb_payment_response : option (SocketAddr * option RbPaymentResponseData);
  next_rb_payment_data : option RbPaymentData;
  next_rb_payment : option (option SocketAddr * Transaction);
}.
Arguments mkUserNode {C}. Arguments node {C}. Arguments un_wallet {C}. Arguments local_events {C}.
Arguments compute_addr {C}. Arguments trading_peer {C}. Arguments next_payment {C}. Arguments last_block_notified {C}.
Arguments test_auto_gen_tx {C}. Arguments received_utxo_set {C}. Arguments pending_payments {C}.
Arguments next_rb_payment_response {C}. Arguments next_rb_payment_data {C}. Arguments next_rb_payment {C}.
#[export] Instance eta_UserNode C : Eta (UserNode C) := λ r,
  mkUserNode (node r) (un_wallet r) (local_events r) (compute_addr r) (trading_peer r) (next_payment r)
    (last_block_notified r) (test_auto_gen_tx r) (received_utxo_set r) (pending_payments r)
    (next_rb_payment_response r) (next_rb_payment_data r) (next_rb_payment r).

(** Within one event: the key pair of a new address, the one of an address for
    the excess, and the public key of a half druid; what opening a connection
    gives, what the wait for the answer to the handshake comes to, and whether
    the tasks of a closed connection end well. *)
Notation Rand := (list Z * list Z * list Z)%type (only parsing).
Record Env (C : Type) := mkEnv {
  env_address_key : Rand;
  env_excess_key : Rand;
  env_druid_key : list Z;
  env_stream : CommsError + SocketAddr * option C;
  env_handshake : Node C → (CommsError + unit) * Node C;
  env_joined : bool;
}.
Arguments mkEnv {C}. Arguments env_address_key {C}. Arguments env_excess_key {C}. Arguments env_druid_key {C}.
Arguments env_stream {C}. Arguments env_handshake {C}. Arguments env_joined {C}.

(** The transactions of naom for exchanges and receipts. *)
Class NaomExchange := {
  Block_default : Block;
  construct_tx_ins_address : list TxIn → string;
  construct_rb_payments_send_tx : list TxIn → list TxOut → string → TokenAmount → Z → string → list DruidExpectation →
    Transaction;
  construct_rb_receive_payment_tx : list TxIn → list TxOut → string → Z → string → list DruidExpectation →
    option string → Transaction;
  construct_receipt_create_tx : Z → list Z → list Z → Z → DrsTxHashSpec → option string → Transaction;
}.

(** The configuration fields that [UserNode::new] reads. *)
Record UserAutoGenTxSetup := mkUserAutoGenTxSetup {
  user_initial_transactions : list WalletTxSpec;
  user_setup_tx_chunk_size : option Z;
  user_setup_tx_in_per_tx : option Z;
  user_setup_tx_max_count : Z;
}.
Record UserNodeConfig := mkUserNodeConfig {
  uc_user_address : SocketAddr;
  uc_compute_nodes : list SocketAddr;
  uc_user_compute_node_idx : nat;
  uc_socket_name_mapping : gmap SocketAddr string;
  uc_passphrase : option string;
  uc_peer_limit : Z;
  uc_user_wallet_seeds : list WalletTxSpec;
  uc_user_auto_donate : Z;
  uc_user_test_auto_gen_setup : UserAutoGenTxSetup;
}.

(** [Asset::receipt]. *)
Definition asset_receipt (amount : Z) (drs_tx_hash metadata : option string) : Asset :=
  Receipt (mkReceiptAsset amount drs_tx_hash metadata).

(** ** The two sides of an exchange *)
Section exchange.
Context `{Naom, NaomSigning, NaomExchange}.

Definition generate_half_druid (pk : list Z) : string := construct_address pk.

Definition make_rb_payment_send_tx_and_request (sender_asset : Asset) (tx_ins : list TxIn) (tx_outs : list TxOut)
    (sender_half_druid sender_address : string) (sender_drs_tx_expectation : option string) :
    RbPaymentData * RbPaymentRequestData :=
  let sender_from_addr := construct_tx_ins_address tx_ins in
  (mkRbPaymentData sender_asset sender_half_druid tx_ins tx_outs,
   mkRbPaymentRequestData sender_address sender_half_druid sender_from_addr sender_asset sender_drs_tx_expectation).

Definition make_rb_payment_receipt_tx_and_response (req : RbPaymentRequestData) (tx_ins : list TxIn) (tx_outs : list TxOut)
    (receiver_half_druid receiver_address : string) : Transaction * RbPaymentResponseData :=
  let druid := rq_sender_half_druid req +:+ receiver_half_druid in
  let receiver_from_addr := construct_tx_ins_address tx_ins in
  let sender_druid_expectation :=
    mkDruidExpectation receiver_from_addr (rq_sender_address req)
      (asset_receipt 1 (rq_sender_drs_tx_expectation req) None) in
  let receiver_druid_expectation :=
    mkDruidExpectation (rq_sender_from_addr req) receiver_address (rq_sender_asset req) in
  (construct_rb_receive_payment_tx tx_ins tx_outs (rq_sender_address req) 0 druid [receiver_druid_expectation]
     (rq_sender_drs_tx_expectation req),
   mkRbPaymentResponseData receiver_address receiver_half_druid sender_druid_expectation).

Definition make_rb_payment_send_transaction (resp : RbPaymentResponseData) (data : RbPaymentData) : Transaction :=
  let druid := rd_sender_half_druid data +:+ rr_receiver_half_druid resp in
  construct_rb_payments_send_tx (rd_tx_ins data) (rd_tx_outs data) (rr_receiver_address resp)
    (token_amount (rd_sender_asset data)) 0 druid [rr_sender_druid_expectation resp].
End exchange.

(** ** The node *)
Section user.
Context `{CommsCrates, Ipv6Display, Naom, !NaomAssets, NaomReceipts, NaomSigning, NaomExchange, NaomCrypto, NaomPayments}.
Context `{Bincode (FundStoreOf AssetValues), Bincode (gset string), Bincode AddressStore, Bincode TransactionStore,
  Bincode OutPoint, Bincode MasterKeyStore, Bincode (gmap string Z), Bincode (PendingMap * ReadyMap)}.
Context {M : Type} `{Bincode (ComputeRequest.t M), Bincode UserRequest.t}.
Context (NETWORK_VERSION : Z).
Notation UserNode := (UserNode TlsCertificate).
Notation Env := (Env TlsCertificate).
Notation Res := (UserError + unit)%type.
Implicit Types n : UserNode.

(** *** Getters *)
Definition local_address n : SocketAddr := local_listener_address (node n).
Definition public_address n : option SocketAddr := public_listener_address (node n).
Definition is_disconnected n : bool :=
  match unconnected_peers (node n) [compute_addr n] with [] => false | _ => true end.
Definition is_test_auto_gen_tx_active n : bool := bool_decide (is_Some (test_auto_gen_tx n)).
Definition get_last_generated_address n : option string := last_generated_address (un_wallet n).
Definition connect_info_peers n : list SocketAddr * list SocketAddr := ([compute_addr n], [compute_addr n]).
Definition get_next_payment_transaction n : option (option SocketAddr * Transaction) := next_payment n.
Definition get_received_utxo n : option UtxoSet := received_utxo_set n.
Definition pending_test_auto_gen_txs n : option PendingMap := (λ a, pending_txs (tx_generator a)) <$> test_auto_gen_tx n.

(** *** Sending *)
Definition send_compute n (peer : SocketAddr) (msg : ComputeRequest.t M) : Res * UserNode :=
  let '(res, nd) := Comms.send (node n) peer (serialize msg) in
  (match res with inl e => inl (UserNetwork e) | inr _ => inr tt end, n <| node := nd |>).
Definition send_user n (peer : SocketAddr) (msg : UserRequest.t) : Res * UserNode :=
  let '(res, nd) := Comms.send (node n) peer (serialize msg) in
  (match res with inl e => inl (UserNetwork e) | inr _ => inr tt end, n <| node := nd |>).

Definition send_transactions_to_compute n (compute_peer : SocketAddr) (transactions : list Transaction) : Res * UserNode :=
  send_compute n compute_peer (ComputeRequest.SendTransactions transactions).
Definition send_request_utxo_set n (address_list : UtxoFetchType) (compute_addr : SocketAddr) (t : NodeType) : Res * UserNode :=
  send_compute n compute_addr (ComputeRequest.SendUtxoRequest address_list t).
Definition send_block_notification_request n : Res * UserNode :=
  send_compute n (compute_addr n) ComputeRequest.SendUserBlockNotificationRequest.
Definition send_startup_requests n : Res * UserNode :=
  if is_test_auto_gen_tx_active n then send_block_notification_request n else (inr tt, n).
Definition send_payment_to_receiver n (peer : SocketAddr) (transaction : Transaction) : Res * UserNode :=
  send_user n peer (UserRequest.SendPaymentTransaction transaction).
Definition send_address_request n (peer : SocketAddr) (amount : TokenAmount) (locktime : option Z) : Res * UserNode :=
  send_user (n <| pending_payments ::= λ p, (<[peer := mkPendingPayment amount locktime]> p.1, p.2) |>) peer
    UserRequest.SendAddressRequest.

Definition connect_to n (e : Env) (peer : SocketAddr) : Res * UserNode :=
  match Comms.connect_to (node n) peer (env_stream e) with
  | (inl err, nd) => (inl (UserNetwork err), n <| node := nd |>)
  | (inr _, nd) =>
      let '(res, nd) := env_handshake e nd in
      (match res with inl err => inl (UserNetwork err) | inr _ => inr tt end, n <| node := nd |>)
  end.

(** *** Starting *)
Definition make_transaction_gen (setup : UserAutoGenTxSetup) : outcome (option AutoGenTx) :=
  match user_initial_transactions setup with
  | [] => Ret None
  | specs =>
      let! g := TransactionGen_new specs in
      Ret (Some (mkAutoGenTx g (user_setup_tx_chunk_size setup) (user_setup_tx_in_per_tx setup)
                   (user_setup_tx_max_count setup)))
  end.

(** The seeds are only decoded for a wallet that is empty; each of them is given
    the nonce of its key's encryption. *)
Definition with_wallet_seeds (w : WalletDb) (nonces : list (list Z)) (seeds : list WalletTxSpec) : outcome WalletDb :=
  let! fund_store := wallet_get_fund_store w in
  let! addresses := get_known_addresses w in
  if bool_decide (fs_transactions fund_store = ∅ ∧ fs_spent fund_store = ∅ ∧ addresses = []) then
    let! infos := ofold (λ l seed, let! i := make_wallet_tx_info seed in Ret (l ++ [i])) [] seeds in
    with_seed w (zip nonces infos)
  else Ret w.

(** The salt, key and nonces are drawn by the wallet; opening the sockets is
    assumed to succeed. *)
Definition UserNode_new (NV : list Z) (config : UserNodeConfig) (shared_wallet_db : option WalletDb)
    (extra_wallet : option SimpleDb) (disable_tcp_listener : bool) (rng : nat → Z) (salt master_key nonce : list Z)
    (seed_nonces : list (list Z)) : outcome (UserError + UserNode) :=
  match uc_compute_nodes config !! uc_user_compute_node_idx config with
  | None => Ret (inl (UserConfig "Invalid compute index"))
  | Some compute_addr =>
      let nd := Node_new (uc_user_address config) (uc_socket_name_mapping config) rng (uc_peer_limit config) User
                  NETWORK_VERSION disable_tcp_listener false in
      let! w := match shared_wallet_db with
                | Some w => Ret (inr w)
                | None => WalletDb_new NV extra_wallet (uc_passphrase config) salt master_key nonce
                end in
      match w with
      | inl e => Ret (inl (UserWallet e))
      | inr w =>
          let! w := with_wallet_seeds w seed_nonces (uc_user_wallet_seeds config) in
          let donate := if uc_user_auto_donate config =? 0 then DonateDisabled
                        else DonateEnabled (uc_user_auto_donate config) in
          let! auto_gen := make_transaction_gen (uc_user_test_auto_gen_setup config) in
          Ret (inr (mkUserNode nd w [] compute_addr None None Block_default auto_gen None (∅, donate) None None None))
      end
  end.

Definition take_closed_extra_params n : SimpleDb * UserNode :=
  let '(db, w) := take_closed_persistent_store (un_wallet n) in (db, n <| un_wallet := w |>).

(** *** Payments *)
Definition notified_b_num n : Z := b_num (header (last_block_notified n)).

Definition store_payment n (tx : Transaction) : outcome UserNode :=
  let! w := store_payment_transaction (un_wallet n) tx (notified_b_num n) in Ret (n <| un_wallet := w |>).

Definition make_payment_transactions_provided_excess n (e : Env) (peer : option SocketAddr) (address : string)
    (amount : TokenAmount) (excess_address : option string) (locktime' : option Z) : outcome (Response * UserNode) :=
  let tx_out := new_token_amount address amount in
  let tx_out := mkTxOut (value tx_out) (default 0 locktime') (drs_block_hash tx_out) (script_public_key tx_out) in
  let! f := fetch_tx_ins_and_tx_outs_provided_excess (un_wallet n) (env_excess_key e) (Externals.Token amount) [tx_out] excess_address in
  let n := n <| un_wallet := f.2 |> in
  match f.1 with
  | inl _ => Ret (failed "Insufficient funds for payment", n)
  | inr (tx_ins, tx_outs) =>
      Ret (ok "Next payment transaction ready", n <| next_payment := Some (peer, construct_tx_core tx_ins tx_outs) |>)
  end.

Definition make_payment_transactions n (e : Env) (peer : option SocketAddr) (address : string) (amount : TokenAmount)
    (locktime : option Z) : outcome (Response * UserNode) :=
  make_payment_transactions_provided_excess n e peer address amount None locktime.

(** [fetch_tx_ins_and_tx_outs_merge_input_addrs] has no error to return. *)
Definition make_merged_payment_transaction_from_input_addrs n (e : Env) (input_addresses : gset string)
    (excess_address : option string) : outcome (Response * UserNode) :=
  let! f := fetch_tx_ins_and_tx_outs_merge_input_addrs (un_wallet n) (env_excess_key e) input_addresses excess_address in
  let '(tx_ins, tx_outs, w) := f in
  Ret (ok "Next payment transaction ready",
       n <| un_wallet := w |> <| next_payment := Some (None, construct_tx_core tx_ins tx_outs) |>).

Definition send_next_payment_to_destinations n (compute_peer : SocketAddr) : outcome (Res * UserNode) :=
  let! p := unwrap (next_payment n) in
  let '(peer, tx) := p in
  let n := n <| next_payment := None |> in
  match send_transactions_to_compute n compute_peer [tx] with
  | (inl e, n) => Ret (inl e, n)
  | (inr _, n) =>
      let! n := store_payment n tx in
      Ret (match peer with Some peer => send_payment_to_receiver n peer tx | None => (inr tt, n) end)
  end.

Definition receive_payment_transaction n (transaction : Transaction) : outcome (Response * UserNode) :=
  let! n := store_payment n transaction in Ret (ok "Payment transaction received", n).

Definition process_pending_payment_transactions n (e : Env) (peer : SocketAddr) (address : string) :
    outcome (Response * UserNode) :=
  let found := (pending_payments n).1 !! peer in
  let donate := (pending_payments n).2 in
  let n := n <| pending_payments ::= λ p, (delete peer p.1, p.2) |> in
  match found, donate with
  | Some p, _ => make_payment_transactions n e (Some peer) address (pp_amount p) (pp_locktime p)
  | None, DonateEnabled amount => make_payment_transactions n e (Some peer) address amount None
  | None, DonateDisabled => Ret (failed "Ignore unexpected transaction", n)
  end.

Definition request_utxo_set_for_wallet_update n (address_list : UtxoFetchType) : option Response * UserNode :=
  match send_request_utxo_set n address_list (compute_addr n) User with
  | (inl _, n) => (None, n)
  | (inr _, n) => (Some (ok "Request UTXO set"), n)
  end.

Definition receive_payment_address_request n (peer : SocketAddr) : Response * UserNode :=
  (ok "New address ready to be sent", n <| trading_peer := Some peer |>).

Definition send_address_to_trading_peer n (e : Env) : outcome (Res * UserNode) :=
  let! peer := unwrap (trading_peer n) in
  let n := n <| trading_peer := None |> in
  let! g := generate_payment_address (un_wallet n) (env_address_key e) in
  Ret (send_user (n <| un_wallet := g.2 |>) peer (UserRequest.SendPaymentAddress g.1.1)).

Definition send_donation_address_to_peer n (e : Env) (peer : SocketAddr) : outcome (Res * UserNode) :=
  send_address_to_trading_peer (n <| trading_peer := Some peer |>) e.

Definition request_donation_from_peer n (e : Env) (payment_peer : SocketAddr) : outcome (option Response * UserNode) :=
  match connect_to n e payment_peer with
  | (inl _, n) => Ret (None, n)
  | (inr _, n) =>
      let! s := send_donation_address_to_peer n e payment_peer in
      Ret (match s.1 with inl _ => None | inr _ => Some (ok "Donation Requested") end, s.2)
  end.

Definition request_payment_address_for_peer n (payment_peer : SocketAddr) (amount : TokenAmount) (locktime : option Z) :
    option Response * UserNode :=
  match send_address_request n payment_peer amount locktime with
  | (inl _, n) => (None, n)
  | (inr _, n) => (Some (ok "Request Payment Address"), n)
  end.

Definition generate_new_address n (e : Env) : outcome (Response * UserNode) :=
  let! g := generate_payment_address (un_wallet n) (env_address_key e) in
  Ret (ok "New address generated", n <| un_wallet := g.2 |>).

Definition delete_addresses_from_wallet n (addresses : gset string) : outcome (Response * UserNode) :=
  let! d := wallet_destroy_spent_transactions_and_keys (un_wallet n) (Some addresses) in
  Ret (ok "Addresses deleted", n <| un_wallet := d.2 |>).

(** *** Receipts and exchanges *)
Definition generate_receipt_asset_tx n (e : Env) (receipt_amount : Z) (drs_tx_hash_spec : DrsTxHashSpec)
    (metadata : option string) : outcome (Response * UserNode) :=
  let! g := generate_payment_address (un_wallet n) (env_address_key e) in
  let keys := g.1.2 in
  let receipt_asset_tx := construct_receipt_create_tx (notified_b_num n) (public_key keys) (secret_key keys)
                            receipt_amount drs_tx_hash_spec metadata in
  Ret (ok "Receipt asset create transaction ready",
       n <| un_wallet := g.2 |> <| next_payment := Some (None, receipt_asset_tx) |>).

Definition send_rb_payment_request n (e : Env) (peer : SocketAddr) (sender_asset : Asset) (drs_tx_hash : option string) :
    outcome (Res * UserNode) :=
  let! g := generate_payment_address (un_wallet n) (env_address_key e) in
  let sender_address := g.1.1 in
  let sender_half_druid := generate_half_druid (env_druid_key e) in
  let! f := fetch_tx_ins_and_tx_outs g.2 (env_excess_key e) sender_asset [] in
  let n := n <| un_wallet := f.2 |> in
  match f.1 with
  | inl err => Ret (inl (UserWallet err), n)
  | inr (tx_ins, tx_outs) =>
      let '(data, req) := make_rb_payment_send_tx_and_request sender_asset tx_ins tx_outs sender_half_druid sender_address
                            drs_tx_hash in
      Ret (send_user (n <| next_rb_payment_data := Some data |>) peer (UserRequest.SendRbPaymentRequest req))
  end.

Definition receive_rb_payment_request n (e : Env) (peer : SocketAddr) (req : RbPaymentRequestData) :
    outcome (Response * UserNode) :=
  let receiver_half_druid := generate_half_druid (env_druid_key e) in
  let! g := generate_payment_address (un_wallet n) (env_address_key e) in
  let receiver_address := g.1.1 in
  let asset_required := asset_receipt 1 (rq_sender_drs_tx_expectation req) None in
  let! f := fetch_tx_ins_and_tx_outs g.2 (env_excess_key e) asset_required [] in
  let n := n <| un_wallet := f.2 |> in
  match f.1 with
  | inl _ => Ret (failed "Insufficient funds for payment", n)
  | inr (tx_ins, tx_outs) =>
      let '(rb_receive_tx, rb_payment_response) :=
        make_rb_payment_receipt_tx_and_response req tx_ins tx_outs receiver_half_druid receiver_address in
      Ret (ok "Received receipt-based payment request",
           n <| next_rb_payment := Some (Some peer, rb_receive_tx) |>
             <| next_rb_payment_response := Some (peer, Some rb_payment_response) |>)
  end.

Definition send_rb_payment_response n : outcome (Res * UserNode) :=
  let! r := unwrap (next_rb_payment_response n) in
  Ret (send_user (n <| next_rb_payment_response := None |>) r.1 (UserRequest.SendRbPaymentResponse r.2)).

Definition receive_rb_payment_response n (peer : SocketAddr) (resp : option RbPaymentResponseData) :
    outcome (Response * UserNode) :=
  let! data := unwrap (next_rb_payment_data n) in
  let n := n <| next_rb_payment_data := None |> in
  let n := match resp with
           | Some resp => n <| next_rb_payment := Some (Some peer, make_rb_payment_send_transaction resp data) |>
           | None => n
           end in
  Ret (ok "Received receipt-based payment response", n).

Definition send_next_rb_transaction_to_destinations n (compute_peer : SocketAddr) : outcome (Res * UserNode) :=
  let! p := unwrap (next_rb_payment n) in
  let '(peer, transaction) := p in
  let! n := store_payment (n <| next_rb_payment := None |>) transaction in
  match send_compute n compute_peer (ComputeRequest.SendTransactions [transaction]) with
  | (inl e, n) => Ret (inl e, n)
  | (inr _, n) =>
      Ret (match peer with Some peer => send_payment_to_receiver n peer transaction | None => (inr tt, n) end)
  end.

(** *** The UTXO set *)
Definition receive_utxo_set n (utxo_set : UtxoSet) : Response * UserNode :=
  (ok "Received UTXO set", n <| received_utxo_set := Some utxo_set |>).

Definition update_running_total n : outcome UserNode :=
  let utxo_set := received_utxo_set n in
  let n := n <| received_utxo_set := None |> in
  let! payments := get_paiments_for_wallet_from_utxo (default [] (bt_iter <$> utxo_set)) in
  let! p := save_usable_payments_to_wallet (un_wallet n) payments (notified_b_num n) in
  Ret (n <| un_wallet := p.2 |>).

(** *** Blocks *)
Definition filter_locked_coinbase n (b_num : Z) : outcome UserNode :=
  let! w := wallet_filter_locked_coinbase (un_wallet n) b_num in Ret (n <| un_wallet := w |>).

Definition notified_block_mining n (peer : SocketAddr) (block : Block) : outcome (Response * UserNode) :=
  if bool_decide (peer = compute_addr n) then
    let! n := filter_locked_coinbase n (b_num (header block)) in
    Ret (ok "Block mining notified", n <| last_block_notified := block |>)
  else Ret (failed "Invalid block mining notifier", n).

(** The transactions of a round, in chunks: every chunk that is not empty uses
    outputs that were ready, so one chunk more than there are such outputs is
    enough.  Running out of rounds would count as a panic ([generation_total]: it
    does not happen).  A chunk that could not be sent is only logged. *)
Fixpoint send_generated (fuel : nat) n (a : AutoGenTx) (total_txs : Z) : outcome (UserNode * AutoGenTx) :=
  match fuel with
  | O => Panic
  | S fuel =>
      let txs_chunk_len := Z.min (default USIZE_MAX (tx_chunk_size a)) (Z.max 0 (tx_max_count a - total_txs)) in
      let! r := make_all_transactions (tx_generator a) (tx_in_per_tx a) txs_chunk_len in
      let txs_chunk := r.1.*2 in
      let a := a <| tx_generator := r.2 |> in
      match txs_chunk with
      | [] => Ret (n, a)
      | _ =>
          let n := (send_transactions_to_compute n (compute_addr n) txs_chunk).2 in
          send_generated fuel n a (total_txs + zlen txs_chunk)
      end
  end.

Definition ready_outputs (g : TransactionGen) : nat := length (flat (λ _ l, l) (ready g)).

(** "Load any data after restart". *)
Definition load_generator n (g : TransactionGen) : outcome TransactionGen :=
  if is_up_to_date_with_snapshot g then Ret g
  else
    let! v := get_db_value (un_wallet n) TX_GENERATOR_KEY in
    match v with
    | Some v => apply_snapshot_state NETWORK_VERSION g v
    | None => Ret g
    end.

Definition process_mining_notified n : outcome UserNode :=
  match test_auto_gen_tx n with
  | None => Ret n
  | Some a =>
      let! g := load_generator n (tx_generator a) in
      let g := commit_transactions g (transactions (last_block_notified n)) in
      let! r := send_generated (S (ready_outputs g)) n (a <| tx_generator := g |>) 0 in
      let '(n, a) := r in
      let '(v, g) := snapshot_state (tx_generator a) in
      let! w := set_db_value (un_wallet n) TX_GENERATOR_KEY v in
      Ret (n <| un_wallet := w |> <| test_auto_gen_tx := Some (a <| tx_generator := g |>) |>)
  end.

(** *** Connection to the compute node *)
Definition handle_disconnect_from_compute n (e : Env) : Response * UserNode :=
  let connected := bool_decide (is_Some (peers (node n) !! compute_addr n)) in
  let n := n <| node ::= λ nd, disconnect_all nd (Some [compute_addr n]) |> in
  if negb connected then (failed "Already disconnected from compute", n)
  else if negb (env_joined e) then (failed "Failed to disconnect from compute", n)
  else (ok "Disconnected from compute", n).

Definition handle_connect_to_compute n (e : Env) : Response * UserNode :=
  match connect_to n e (compute_addr n) with
  | (inl _, n) => (failed "Failed to connect to compute", n)
  | (inr _, n) =>
      match send_block_notification_request n with
      | (inl _, n) => (failed "Failed to send startup requests on reconnection", n)
      | (inr _, n) => (ok "Connected to compute", n)
      end
  end.

Definition receive_connection_status_request n : Response :=
  if is_disconnected n then ok "Node is disconnected" else ok "Node is connected".

Definition receive_closing n (peer : SocketAddr) : option Response :=
  if negb (bool_decide (peer = compute_addr n)) then None else Some (ok "Shutdown").

(** *** Dispatch *)
Definition handle_api_request n (e : Env) (peer : SocketAddr) (req : UserApiRequest.t) :
    outcome (option Response * UserNode) :=
  if negb (bool_decide (peer = local_address n)) then Ret (None, n)
  else
    let some (m : outcome (Response * UserNode)) := let! x := m in Ret (Some x.1, x.2) in
    match req with
    | UserApiRequest.UpdateWalletFromUtxoSet address_list => Ret (request_utxo_set_for_wallet_update n address_list)
    | UserApiRequest.RequestDonation paying_peer => request_donation_from_peer n e paying_peer
    | UserApiRequest.MakeIpPayment payment_peer amount locktime =>
        Ret (request_payment_address_for_peer n payment_peer amount locktime)
    | UserApiRequest.MakePayment address amount locktime => some (make_payment_transactions n e None address amount locktime)
    | UserApiRequest.SendCreateReceiptRequest receipt_amount drs_tx_hash_spec metadata =>
        some (generate_receipt_asset_tx n e receipt_amount drs_tx_hash_spec metadata)
    | UserApiRequest.MakePaymentWithExcessAddress address amount excess_address locktime =>
        some (make_payment_transactions_provided_excess n e None address amount (Some excess_address) locktime)
    | UserApiRequest.GenerateNewAddress => some (generate_new_address n e)
    | UserApiRequest.GetConnectionStatus => Ret (Some (receive_connection_status_request n), n)
    | UserApiRequest.ConnectToCompute => some (Ret (handle_connect_to_compute n e))
    | UserApiRequest.DisconnectFromCompute => some (Ret (handle_disconnect_from_compute n e))
    | UserApiRequest.DeleteAddresses addresses => some (delete_addresses_from_wallet n addresses)
    | UserApiRequest.MergeAddresses addresses excess_address =>
        some (make_merged_payment_transaction_from_input_addrs n e addresses excess_address)
    end.

Definition handle_request n (e : Env) (peer : SocketAddr) (req : UserRequest.t) : outcome (option Response * UserNode) :=
  let some (m : outcome (Response * UserNode)) := let! x := m in Ret (Some x.1, x.2) in
  match req with
  | UserRequest.UserApi req => handle_api_request n e peer req
  | UserRequest.SendUtxoSet utxo_set => some (Ret (receive_utxo_set n utxo_set))
  | UserRequest.SendAddressRequest => some (Ret (receive_payment_address_request n peer))
  | UserRequest.SendPaymentTransaction transaction => some (receive_payment_transaction n transaction)
  | UserRequest.SendPaymentAddress address => some (process_pending_payment_transactions n e peer address)
  | UserRequest.SendRbPaymentRequest data => some (receive_rb_payment_request n e peer data)
  | UserRequest.SendRbPaymentResponse resp => some (receive_rb_payment_response n peer resp)
  | UserRequest.BlockMining block => some (notified_block_mining n peer block)
  | UserRequest.Closing => Ret (receive_closing n peer, n)
  end.

Definition handle_new_frame n (e : Env) (peer : SocketAddr) (frame : list Z) :
    outcome ((UserError + option Response) * UserNode) :=
  match deserialize (T := UserRequest.t) frame with
  | None => Ret (inl UserSerialization, n)
  | Some req => let! x := handle_request n e peer req in Ret (inr x.1, x.2)
  end.

Definition handle_local_event n (event : LocalEvent) : option Response * UserNode :=
  match event with
  | Exit reason => (Some (ok reason), n)
  | ReconnectionComplete =>
      match send_startup_requests n with
      | (inl _, n) => (Some (failed "Failed to send startup requests on reconnection"), n)
      | (inr _, n) => (Some (ok "Sent startup requests on reconnection"), n)
      end
  | CoordinatedShutdown _ | Ignore => (None, n)
  end.

(** The branches of the event loop. *)
Inductive Selected :=
  | SelEvent (e : Env)
  | SelLocal
  | SelCall (f : UserNode → outcome UserNode)
  | SelExit (reason : string).

(** [None] when the branch has nothing to do yet; otherwise the response that
    ends the loop, if any. *)
Definition handle_next_event n (sel : Selected) : outcome (option (option (UserError + Response) * UserNode)) :=
  match sel with
  | SelEvent e =>
      match next_event (node n) with
      | None => Ret None
      | Some (NewFrame peer frame, nd) =>
          let! x := handle_new_frame (n <| node := nd |>) e peer frame in
          Ret (Some (match x.1 with inl err => Some (inl err) | inr r => inr <$> r end, x.2))
      end
  | SelLocal =>
      match local_events n with
      | [] => Ret None
      | event :: rest =>
          let '(r, n) := handle_local_event (n <| local_events := rest |>) event in Ret (Some (inr <$> r, n))
      end
  | SelCall f => let! n := f n in Ret (Some (None, n))
  | SelExit reason => Ret (Some (Some (inr (ok reason)), n))
  end.

(** [.await.unwrap()] *)
Definition unwrap_sent (m : outcome (Res * UserNode)) : outcome UserNode :=
  let! x := m in let! _ := unwrap_result x.1 in Ret x.2.

(** The reasons with no case here are only logged. *)
Definition handle_next_event_response n (e : Env) (response : UserError + Response) : outcome (ResponseResult * UserNode) :=
  let continue (m : outcome UserNode) := let! n := m in Ret (ResultContinue, n) in
  match response with
  | inr (mkResponse true reason) =>
      if String.eqb reason "Shutdown" then Ret (ResultExit, n)
      else if String.eqb reason "Receipt asset create transaction ready" then
        continue (unwrap_sent (send_next_payment_to_destinations n (compute_addr n)))
      else if String.eqb reason "Received receipt-based payment request" then
        let! n := unwrap_sent (send_rb_payment_response n) in
        continue (unwrap_sent (send_next_rb_transaction_to_destinations n (compute_addr n)))
      else if String.eqb reason "Received receipt-based payment response" then
        continue (unwrap_sent (send_next_rb_transaction_to_destinations n (compute_addr n)))
      else if String.eqb reason "New address ready to be sent" then
        continue (unwrap_sent (send_address_to_trading_peer n e))
      else if String.eqb reason "Next payment transaction ready" then
        continue (unwrap_sent (send_next_payment_to_destinations n (compute_addr n)))
      else if String.eqb reason "Block mining notified" then continue (process_mining_notified n)
      else if String.eqb reason "Received UTXO set" then continue (update_running_total n)
      else Ret (ResultContinue, n)
  | _ => Ret (ResultContinue, n)
  end.
End user.
