(* ===== verification/UserPayments.v ===== *)
(** * Payments and generated transactions of a user

    A payment from the request to the wallet after it was sent, the round of
    generated transactions at a block, and the messages that stop a user. *)
From S2P Require Import Prelude Externals Utils TrackedUtxo Unicorn Interfaces Comms ActiveRaft RaftUtil BlockPipeline ComputeConsensused Requests DbUtils FundStore Wallet WalletFrame TransactionGen User.

(** The outputs that naom and the wallet build. *)
Class NaomOutputLaws `{Naom, !NaomAssets, !AssetMeasure, NaomReceipts, NaomSigning, NaomPayments} : Prop := {
  token_out a v : new_token_amount a v = mkTxOut (Externals.Token v) 0 None (Some a);
  asset_out a v : new_asset a v = mkTxOut v 0 None (Some a);
  core_outs ins outs : outputs (construct_tx_core ins outs) = outs;
  cloned_outs h tx : zlen (outputs tx) ≤ 2 ^ 31 → get_tx_out_with_out_point_cloned [(h, tx)] = outs_of h tx;
  token_fixed a v : asset_kind a = asset_kind (Externals.Token v) → fixed a;
}.

(** ** The generated transactions *)
Section generation.
Context `{CommsCrates, Ipv6Display, Naom, !NaomAssets, NaomReceipts, NaomSigning, NaomExchange, NaomCrypto, NaomPayments,
  !NaomGenLaws, !NaomOutsLaws}.
Context `{Bincode (FundStoreOf AssetValues), Bincode (gset string), Bincode AddressStore, Bincode TransactionStore,
  Bincode OutPoint, Bincode MasterKeyStore, Bincode (gmap string Z), Bincode (PendingMap * ReadyMap),
  !BincodeLaws (PendingMap * ReadyMap)}.
Context {M : Type} `{Bincode (ComputeRequest.t M), Bincode UserRequest.t}.
Context (NETWORK_VERSION : Z).
Notation UserNode := (UserNode TlsCertificate).
Implicit Types (n : UserNode) (g : TransactionGen) (a : AutoGenTx).

Lemma ready_coins_length g : length (ready_coins (ready g)) = ready_outputs g.
Proof.
  unfold ready_outputs, ready_coins, flat. induction (map_to_list (ready g)) as [|[k l] r IH]; [done|].
  rewrite !bind_cons, !length_app, IH. unfold tagged. by rewrite length_fmap.
Qed.

(** The chunks of a round. *)
Record round_ok g g' : Prop := {
  ro_ok : gen_ok g';
  ro_coins : coins g' ≡ₚ coins g;
  ro_keys : from_to_address g' = from_to_address g;
}.

Lemma make_all_fewer g chunk total txs g' : gen_ok g → (∀ c, chunk = Some c → 0 ≤ c) → 0 ≤ total →
  make_all_transactions g chunk total = Ret (txs, g') →
  round_ok g g' ∧ (txs ≠ [] → (ready_outputs g' < ready_outputs g)%nat).
Proof.
  intros Hg Hc Ht E. destruct (make_all_spec (from_to_address g) g chunk total []) as (txs' & srcs & g1 & E1 & R & _); [done..|].
  unfold make_all_transactions in E. rewrite E1 in E. cbn [app] in E. injection E as -> ->.
  split; [by split; apply R|]. intros Hne. pose proof (run_spent _ _ _ _ R) as Hs. apply Permutation_length in Hs.
  rewrite length_app, !ready_coins_length in Hs. pose proof (run_made _ _ _ _ R) as Hm.
  destruct Hm as [|tx src txs srcs [Hsrc _] _]; [done|]. cbn [concat] in Hs. rewrite length_app in Hs. destruct src; [done|cbn in Hs; lia].
Qed.
Lemma make_all_ret g chunk total : gen_ok g → (∀ c, chunk = Some c → 0 ≤ c) → 0 ≤ total →
  ∃ txs g', make_all_transactions g chunk total = Ret (txs, g').
Proof.
  intros Hg Hc Ht. destruct (make_all_spec (from_to_address g) g chunk total []) as (txs & srcs & g1 & E1 & _); [done..|]. eauto.
Qed.

Definition limits_ok a : Prop :=
  (∀ c, tx_in_per_tx a = Some c → 0 ≤ c) ∧ (∀ c, tx_chunk_size a = Some c → 0 ≤ c).

Lemma send_generated_spec fuel n a total : gen_ok (tx_generator a) → limits_ok a → (ready_outputs (tx_generator a) < fuel)%nat →
  ∃ nd g', send_generated (M := M) fuel n a total = Ret (n <| node := nd |>, a <| tx_generator := g' |>) ∧ round_ok (tx_generator a) g'.
Proof.
  revert n a total. induction fuel as [|fuel IH]; intros n a total Hg Hl Hf; [lia|]. cbn [send_generated].
  set (len := Z.min _ _). assert (Hlen : 0 ≤ len).
  { unfold len. destruct Hl as [_ Hl]. destruct (tx_chunk_size a); cbn [default from_option id]; [specialize (Hl _ eq_refl); lia|].
    unfold USIZE_MAX, U64_MOD. lia. }
  destruct (make_all_ret (tx_generator a) (tx_in_per_tx a) len) as (txs & g1 & E); [done|apply Hl|done|]. rewrite E. cbn [obind fst snd].
  apply make_all_fewer in E as [[Hg1 Hc1 Hk1] Hless]; [|done|apply Hl|done]. destruct txs as [|tx txs]; cbn [fmap list_fmap].
  { exists (node n), g1. split; [by destruct n|by split]. }
  set (n1 := (send_transactions_to_compute _ _ _).2).
  assert (En : ∃ nd, n1 = n <| node := nd |>).
  { unfold n1, send_transactions_to_compute, send_compute. destruct (Comms.send _ _ _). by eexists. }
  destruct En as [nd1 En]. destruct (IH n1 (a <| tx_generator := g1 |>) (total + zlen ((tx :: txs).*2))) as (nd & g' & E' & [Hg' Hc' Hk']);
    [done|done|cbn; specialize (Hless ltac:(done)); lia|].
  exists nd, g'. cbn [fmap list_fmap] in E'. rewrite E'. split; [by rewrite En|]. split; [done|by rewrite Hc'|by rewrite Hk'].
Qed.

(** The round of generated transactions at a block always ends, whatever is
    sent or cannot be sent: when the generator that is running or was stored is
    well formed, and none of its outputs comes from a transaction of the block
    already, all that it holds is worth the same afterwards and well formed, and
    the state that a restarted node will load is the one it goes on with. *)
Theorem generation_total n a g m : test_auto_gen_tx n = Some a → load_generator NETWORK_VERSION n (tx_generator a) = Ret g →
  gen_ok g → limits_ok a → supply (coins g) ≤ 2 ^ 31 →
  Forall (λ c, t_hash (coin_op c) ∉ transactions (last_block_notified n)) (coins g) →
  db_at DB_COL_DEFAULT (wallet_db (un_wallet n)) m →
  ∃ n' a', process_mining_notified (M := M) NETWORK_VERSION n = Ret n' ∧ test_auto_gen_tx n' = Some a' ∧
    gen_ok (tx_generator a') ∧ supply (coins (tx_generator a')) = supply (coins g) ∧
    is_up_to_date_with_snapshot (tx_generator a') = true ∧
    get_db_value (un_wallet n') TX_GENERATOR_KEY = Ret (Some (snapshot_state (tx_generator a')).1).
Proof.
  intros Ha Hload Hg Hl Hsup Hnew Hm. unfold process_mining_notified. rewrite Ha, Hload. cbn [obind].
  destruct (commit_keeps_supply g (transactions (last_block_notified n)) Hg Hsup Hnew) as (Hg1 & Hs1 & _).
  set (g1 := commit_transactions g _) in *. set (a1 := a <| tx_generator := g1 |>).
  destruct (send_generated_spec (S (ready_outputs g1)) n a1 0) as (nd & g2 & E & [Hg2 Hc2 _]); [exact Hg1|exact Hl|cbn; lia|].
  rewrite E. cbn [obind]. unfold snapshot_state. cbn [un_wallet setter tx_generator]. unfold set_db_value.
  destruct (db_at_put _ _ _ (string_codes TX_GENERATOR_KEY) (serialize (pending g2, ready g2)) Hm) as (db & Ed & Hat).
  rewrite Ed. cbn [obind]. eexists _, _. split; [reflexivity|]. split; [reflexivity|]. cbn [tx_generator setter un_wallet].
  split; [|split; [|split; [done|]]].
  - by destruct Hg2.
  - change (supply (coins g2) = supply (coins g)). rewrite Hc2. exact Hs1.
  - unfold get_db_value. cbn [wallet_db setter]. rewrite (db_at_get _ _ _ _ Hat). by rewrite lookup_insert_eq.
Qed.
End generation.

(** ** A payment *)
Section payment.
Context `{CommsCrates, Ipv6Display, Naom, !NaomAssets, !AssetMeasure, !NaomAssetsLaws, NaomReceipts, NaomSigning, NaomExchange,
  NaomCrypto, !NaomCryptoLaws, NaomPayments, !NaomOutputLaws}.
Context `{Bincode (FundStoreOf AssetValues), !BincodeLaws (FundStoreOf AssetValues)}.
Context `{Bincode (gset string), !BincodeLaws (gset string), Bincode AddressStore, !BincodeLaws AddressStore}.
Context `{Bincode TransactionStore, !BincodeLaws TransactionStore, Bincode OutPoint, !WalletKeysLaws}.
Context `{Bincode MasterKeyStore, Bincode (gmap string Z), Bincode (PendingMap * ReadyMap)}.
Context {M : Type} `{Bincode (ComputeRequest.t M), Bincode UserRequest.t}.
Context (NETWORK_VERSION : Z).
Notation UserNode := (UserNode TlsCertificate).
Implicit Types (n : UserNode) (tx : Transaction).
Notation Tok := Externals.Token.

(** The payments that a transaction with one output for another and the change
    makes to a wallet. *)
Lemma change_payments known h address amount lt excess_address q change tx :
  outputs tx = mkTxOut (Tok amount) lt None (Some address) :: change → address ∉ known →
  change_of excess_address known (asset_kind (Tok amount)) q change →
  ∃ payments, get_paiments_for_wallet [(h, tx)] = Ret payments ∧
    match filter (λ p : OutPoint * Asset * string * Z, p.1.2 ∈ known) payments with
    | [] => q = 0 ∨ excess_address ≠ None
    | [p] => p.1.1.1 = mkOutPoint h 1 ∧ asset_kind (paid_asset p) = asset_kind (Tok amount) ∧ asset_qty (paid_asset p) = q
    | _ => False
    end.
Proof.
  intros Ho Ha Hch. unfold get_paiments_for_wallet.
  assert (Hz : zlen (outputs tx) ≤ 2 ^ 31).
  { rewrite Ho. unfold zlen. destruct Hch as [[-> _]|(? & ? & -> & _)]; cbn; lia. }
  rewrite (cloned_outs _ _ Hz). unfold outs_of. rewrite Ho.
  destruct Hch as [[-> ->]|(addr & e & -> & Hk & Hq & _ & Hkn)].
  - eexists. split; [reflexivity|]. rewrite filter_cons_False by done. cbn. by left.
  - rewrite asset_out. eexists. split; [reflexivity|]. rewrite filter_cons_False by done.
    destruct (decide (addr ∈ known)) as [Hin|Hin].
    + rewrite filter_cons_True by done. rewrite filter_nil. cbn. split; [done|]. unfold paid_asset. cbn.
      rewrite (with_hash_idem e) by (eapply token_fixed; exact Hk). done.
    + rewrite filter_cons_False by done. cbn. right. destruct excess_address; [done|contradiction].
Qed.

(** What the wallet makes of a transaction of its own: the change comes back. *)
Lemma store_change w fs known tx excess_address b_num q amount lt address change : wallet_holds w fs known →
  outputs tx = mkTxOut (Tok amount) lt None (Some address) :: change → address ∉ known →
  change_of excess_address known (asset_kind (Tok amount)) q change → excess_address = None →
  let op := mkOutPoint (construct_tx_hash tx) 1 in
  fs_transactions fs !! op = None → fs_spent fs !! op = None →
  (∀ k, is_u64 (asset_sum k (fs_transactions fs) + if decide (k = asset_kind (Tok amount)) then q else 0)) →
  ∃ w' fs', store_payment_transaction w tx b_num = Ret w' ∧ wallet_holds w' fs' known ∧
    ∀ k, asset_sum k (fs_transactions fs') =
      asset_sum k (fs_transactions fs) + if decide (k = asset_kind (Tok amount)) then q else 0.
Proof.
  intros Hw Ho Ha Hch -> op Ht Hs Hu. unfold store_payment_transaction.
  destruct (change_payments known (construct_tx_hash tx) address amount lt None q change tx Ho Ha Hch) as (ps & Eps & Hps).
  rewrite Eps. cbn [obind]. pose proof (save_usable_spec w fs known ps b_num Hw) as Hsave. cbv zeta in Hsave.
  destruct (filter (λ p : OutPoint * Asset * string * Z, p.1.2 ∈ known) ps) as [|p [|]] eqn:Ef; [| |done].
  - destruct Hps as [->|]; [|done]. destruct Hsave as (w' & fs' & E & Hw' & Ht' & _).
    + intros k. specialize (Hu k). cbn. case_decide; done.
    + by intros p ?%not_elem_of_nil.
    + rewrite E. cbn [obind]. exists w', fs'. split; [done|]. split; [done|]. intros k. rewrite Ht'. case_decide; lia.
  - destruct Hps as (Eop & Ek & Eq). fold op in Eop. cbn [pay_all pay_one] in Hsave. unfold pay_one in Hsave. rewrite Eop, Ht in Hsave.
    cbn [mbind option_bind] in Hsave. assert (Hkq : ∀ k, kind_qty k (paid_asset p) = if decide (k = asset_kind (Tok amount)) then q else 0).
    { intros k. unfold kind_qty. rewrite Ek, Eq. by repeat case_decide; subst. }
    destruct Hsave as (w' & fs' & E & Hw' & Ht' & _).
    + intros k. cbn. rewrite Hkq, Z.add_0_r. apply Hu.
    + intros p' ->%list_elem_of_singleton. by rewrite Eop.
    + rewrite E. cbn [obind]. exists w', fs'. split; [done|]. split; [done|]. intros k. rewrite Ht', asset_sum_insert by done. rewrite Hkq. lia.
Qed.

Lemma response_to_payment n e : User.handle_next_event_response (M := M) NETWORK_VERSION n e (inr (ok "Next payment transaction ready")) =
  (let! n := unwrap_sent (send_next_payment_to_destinations (M := M) n (compute_addr n)) in Ret (ResultContinue, n)).
Proof. reflexivity. Qed.

(** C22: a payment asked for by the API: when the spendable outputs are worth the
    amount, a transaction is made whose first output pays it to the address; once
    it is sent to the compute node (the address being of somebody else), the
    wallet is worth less by exactly the amount, in the database too: the inputs
    are spent and the change is back among the outputs it can use. *)
Theorem payment_round n e e' address amount lt fs known :
  wallet_holds (un_wallet n) fs known → length (env_excess_key e).1.1 = NONCE_LEN →
  asset_qty (Tok amount) ≤ asset_sum (asset_kind (Tok amount)) (spendable (un_wallet n) fs) →
  is_Some (peers (node n) !! compute_addr n) →
  ∃ n1 tx fs1 known1, handle_api_request (M := M) n e (local_address n) (UserApiRequest.MakePayment address amount lt) =
      Ret (Some (ok "Next payment transaction ready"), n1) ∧
    wallet_holds (un_wallet n1) fs1 known1 ∧ known ⊆ known1 ∧
    (∃ change, outputs tx = mkTxOut (Tok amount) (default 0 lt) None (Some address) :: change) ∧
    let op := mkOutPoint (construct_tx_hash tx) 1 in
    (address ∉ known → address ≠ construct_address_for (env_excess_key e).1.2 None → fs_transactions fs !! op = None → fs_spent fs !! op = None →
     ∃ n2 fs2 id, User.handle_next_event_response (M := M) NETWORK_VERSION n1 e' (inr (ok "Next payment transaction ready")) = Ret (ResultContinue, n2) ∧
       sent (node n2) = sent (node n) ++ [(compute_addr n, Direct (serialize (ComputeRequest.SendTransactions (M := M) [tx])) id)] ∧
       wallet_holds (un_wallet n2) fs2 known1 ∧
       ∀ k, held (fs_running_total fs2) k =
         held (fs_running_total fs) k - if decide (k = asset_kind (Tok amount)) then asset_qty (Tok amount) else 0).
Proof.
  intros Hw Hn Hle Hpeer. set (out := mkTxOut (Tok amount) (default 0 lt) None (Some address)).
  destruct (payment_steps (un_wallet n) fs known (env_excess_key e) (Tok amount) [out] None Hw Hn Hle)
    as (l & cons & used & change & made & w1 & fs1 & known1 & Hsel & _ & E1 & Hw1 & Hkn & Hch & Ht1 & Hs1).
  set (tx := construct_tx_core (construct_payment_tx_ins cons) ([out] ++ change)).
  set (n1 := n <| un_wallet := w1 |> <| next_payment := Some (None, tx) |>). exists n1, tx, fs1, known1.
  split; [|split; [exact Hw1|split; [apply Hkn|split; [exists change; unfold tx; by rewrite core_outs|]]]].
  { unfold handle_api_request. rewrite bool_decide_true by done. cbn [negb]. unfold make_payment_transactions, make_payment_transactions_provided_excess.
    rewrite token_out. cbn [value drs_block_hash script_public_key]. fold out. rewrite E1. done. }
  intros op Ha0 Ha1 Ht Hs. assert (Ha : address ∉ known1) by (destruct Hkn as [_ Hkn]; set_solver). rewrite response_to_payment. unfold send_next_payment_to_destinations. cbn [next_payment n1 setter unwrap obind].
  unfold send_transactions_to_compute, send_compute, Comms.send, gen, send_message. cbn [peers node setter n1].
  destruct Hpeer as [p Hp]. change (compute_addr n1) with (compute_addr n). rewrite Hp.
  unfold store_payment. cbn [un_wallet setter].
  assert (Hsum : ∀ k, asset_sum k (fs_transactions fs) = asset_sum k (fs_transactions fs1) + if decide (k = asset_kind (Tok amount)) then asset_qty made else 0).
  { intros k. rewrite Ht1. rewrite (asset_sum_without k (fs_transactions fs) l); [|by apply Hsel|].
    - f_equal. case_decide as D; [subst k; symmetry; apply Hsel|]. apply (list_qty_other k (asset_kind (Tok amount))); [done|].
      eapply Forall_impl; [apply Hsel|]. by intros t [_ ?].
    - eapply Forall_impl; [apply Hsel|]. by intros t [[? _]%spendable_sub _]. }
  destruct (store_change w1 fs1 known1 tx None (notified_b_num n) (asset_qty made - asset_qty (Tok amount)) amount (default 0 lt) address change)
    as (w2 & fs2 & E2 & Hw2 & Hsum2); [exact Hw1|unfold tx; by rewrite core_outs|exact Ha|exact Hch|done| | | |].
  { rewrite Ht1, lookup_without. by case_decide. }
  { rewrite Hs1, lookup_union, lookup_only. fold op. rewrite Ht, Hs. by case_decide. }
  { intros k. pose proof (wf_bound _ (wallet_fund_wf _ _ _ Hw) k) as Hb. rewrite Hsum in Hb. pose proof (asset_sum_nonneg k (fs_transactions fs1)).
    pose proof (asset_qty_nonneg (Tok amount)). pose proof (sel_enough _ _ _ _ _ Hsel). unfold is_u64 in *. case_decide; lia. }
  match goal with |- context [store_payment_transaction ?w tx ?b] => change w with w1; change b with (notified_b_num n) end.
  rewrite E2. cbn [obind unwrap_sent unwrap_result fst snd].
  eexists _, fs2, _. split; [reflexivity|]. split; [reflexivity|]. split; [exact Hw2|].
  intros k. rewrite (wf_total _ (wallet_fund_wf _ _ _ Hw2)), (wf_total _ (wallet_fund_wf _ _ _ Hw)), Hsum2, Hsum. case_decide; lia.
Qed.

(** A payment made while the compute node is not connected stops the user,
    after its inputs were recorded as spent: the wallet that the user starts again
    with is worth less by at least the amount, and no transaction was sent. *)
Theorem unsent_payment_panics n e e' address amount lt fs known :
  wallet_holds (un_wallet n) fs known → length (env_excess_key e).1.1 = NONCE_LEN →
  asset_qty (Tok amount) ≤ asset_sum (asset_kind (Tok amount)) (spendable (un_wallet n) fs) →
  peers (node n) !! compute_addr n = None →
  ∃ n1 fs1 known1, handle_api_request (M := M) n e (local_address n) (UserApiRequest.MakePayment address amount lt) =
      Ret (Some (ok "Next payment transaction ready"), n1) ∧
    wallet_holds (un_wallet n1) fs1 known1 ∧ sent (node n1) = sent (node n) ∧
    held (fs_running_total fs1) (asset_kind (Tok amount)) ≤ held (fs_running_total fs) (asset_kind (Tok amount)) - asset_qty (Tok amount) ∧
    User.handle_next_event_response (M := M) NETWORK_VERSION n1 e' (inr (ok "Next payment transaction ready")) = Panic.
Proof.
  intros Hw Hn Hle Hpeer. set (out := mkTxOut (Tok amount) (default 0 lt) None (Some address)).
  destruct (payment_steps (un_wallet n) fs known (env_excess_key e) (Tok amount) [out] None Hw Hn Hle)
    as (l & cons & used & change & made & w1 & fs1 & known1 & Hsel & _ & E1 & Hw1 & _ & _ & Ht1 & _).
  set (tx := construct_tx_core (construct_payment_tx_ins cons) ([out] ++ change)).
  exists (n <| un_wallet := w1 |> <| next_payment := Some (None, tx) |>), fs1, known1.
  split; [|split; [exact Hw1|split; [done|split]]].
  - unfold handle_api_request. rewrite bool_decide_true by done. cbn [negb]. unfold make_payment_transactions, make_payment_transactions_provided_excess.
    rewrite token_out. cbn [value drs_block_hash script_public_key]. fold out. rewrite E1. done.
  - rewrite (wf_total _ (wallet_fund_wf _ _ _ Hw)), (wf_total _ (wallet_fund_wf _ _ _ Hw1)), Ht1.
    rewrite (asset_sum_without _ (fs_transactions fs) l); [|by apply Hsel|].
    + rewrite <-(sel_qty _ _ _ _ _ Hsel). pose proof (sel_enough _ _ _ _ _ Hsel). lia.
    + eapply Forall_impl; [apply Hsel|]. by intros t [[? _]%spendable_sub _].
  - rewrite response_to_payment. unfold send_next_payment_to_destinations. cbn [next_payment setter unwrap obind].
    unfold send_transactions_to_compute, send_compute, Comms.send, gen, send_message. cbn [peers node setter compute_addr].
    by rewrite Hpeer.
Qed.

(** A receipt exchange can be used to stop a user: the response to a request
    that the user did not make, of any peer, stops it; so does a rejection of the
    request it made, when no other exchange is under way. *)
Theorem exchange_messages_panic n e e' peer resp : next_rb_payment n = None →
  (next_rb_payment_data n = None → handle_request (M := M) n e peer (UserRequest.SendRbPaymentResponse resp) = Panic) ∧
  (is_Some (next_rb_payment_data n) →
   ∃ n', handle_request (M := M) n e peer (UserRequest.SendRbPaymentResponse None) =
       Ret (Some (ok "Received receipt-based payment response"), n') ∧
     User.handle_next_event_response (M := M) NETWORK_VERSION n' e' (inr (ok "Received receipt-based payment response")) = Panic).
Proof.
  intros Hn. cbn [handle_request]. unfold receive_rb_payment_response. split.
  - intros ->. done.
  - intros [d ->]. cbn [unwrap obind fst snd]. eexists. split; [reflexivity|].
    change (User.handle_next_event_response (M := M) NETWORK_VERSION ?n e' _) with
      (let! m := unwrap_sent (send_next_rb_transaction_to_destinations (M := M) n (compute_addr n)) in Ret (ResultContinue, m)).
    unfold send_next_rb_transaction_to_destinations. cbn [next_rb_payment setter]. by rewrite Hn.
Qed.
End payment.

(** ** Examples *)
Module PaymentExamples.
Import TestExternals CommsExamples WalletExamples.
Open Scope string_scope.

#[export] Instance output_laws : NaomOutputLaws.
Proof.
  split; try done.
  - intros h tx _. cbn. by rewrite app_nil_r.
  - by intros [].
Qed.
#[export] Instance no_exchange : NaomExchange := {|
  Block_default := mkBlock empty_header [];
  construct_tx_ins_address _ := "";
  construct_rb_payments_send_tx ins outs _ _ _ _ _ := mkTransaction ins outs 6 None;
  construct_rb_receive_payment_tx ins outs _ _ _ _ _ := mkTransaction ins outs 6 None;
  construct_receipt_create_tx _ _ _ _ _ _ := mkTransaction [] [] 6 None |}.
#[export] Instance b_compute : Bincode (ComputeRequest.t unit) := {| serialize _ := [1%Z]; deserialize _ := None |}.
#[export] Instance b_user : Bincode UserRequest.t := {| serialize _ := [2%Z]; deserialize _ := None |}.
#[export] Instance b_generator : Bincode (PendingMap * ReadyMap) := bincode_codec _.

Definition compute_node : SocketAddr := AddrV4 1 100.
Definition peer_of (a : SocketAddr) := mkPeer (Some 6%Z) a (Some NodeCompute) (Some a) false RxNone 0.
(** The wallet [w2] can use 7 of its tokens. *)
Definition user_with (w : WalletDb) (connected : bool) (a : option AutoGenTx) : UserNode TlsCertificate :=
  mkUserNode (Node_new (AddrV4 7 1000) ∅ Z.of_nat 8 User 6 true false
      <| peers := if connected then {[compute_node := peer_of compute_node]} else ∅ |>)
    w [] compute_node None None (mkBlock empty_header ["zz"]) a None (∅, DonateDisabled) None None None.
Definition env : Env TlsCertificate :=
  mkEnv ([0; 1], [17], [34])%Z ([0; 2], [18], [35])%Z [19%Z] (inl IoError) (λ nd, (inr (), nd)) true.

Lemma w2_enough fs : fs_transactions fs = txs2 → locked_coinbase w2 = Some {["tx2" := 10%Z]} →
  (asset_qty (Externals.Token 5) ≤ asset_sum (asset_kind (Externals.Token 5)) (spendable w2 fs))%Z.
Proof. intros Ht Hl. rewrite (w2_spendable fs Ht Hl). vm_compute. intros Hle. discriminate Hle. Qed.

(** 5 tokens are paid; a change of 2 comes back. *)
Lemma payment_round_witness : ∃ n1 tx fs1 known1, handle_api_request (M := unit) (user_with w2 true None) env (AddrV4 7 1000)
    (UserApiRequest.MakePayment "Bob" 5 None) = Ret (Some (ok "Next payment transaction ready"), n1) ∧
  wallet_holds (un_wallet n1) fs1 known1 ∧
  (∃ change, outputs tx = mkTxOut (Externals.Token 5) 0 None (Some "Bob") :: change) ∧
  ∃ n2, User.handle_next_event_response (M := unit) 6 n1 env (inr (ok "Next payment transaction ready")) = Ret (ResultContinue, n2).
Proof.
  destruct w2_holds as (_ & fs & _ & _ & Hw & Ht & Hsp & Hl).
  destruct (payment_round (M := unit) 6 (user_with w2 true None) env env "Bob" 5 None fs {[addr1]} Hw)
    as (n1 & tx & fs1 & known1 & E & Hw1 & _ & Ho & Hr); [reflexivity|exact (w2_enough fs Ht Hl)|by eexists|].
  exists n1, tx, fs1, known1. split; [exact E|]. split; [exact Hw1|]. split; [exact Ho|].
  destruct Hr as (n2 & _ & _ & E2 & _); [| | | |exists n2; exact E2].
  - intros Hin. apply elem_of_singleton in Hin. vm_compute in Hin. discriminate Hin.
  - vm_compute. discriminate.
  - rewrite Ht. unfold txs2. rewrite lookup_insert_ne; [|intros E1; discriminate E1]. apply lookup_singleton_ne. intros E1; discriminate E1.
  - rewrite Hsp. reflexivity.
Defined.
Lemma unsent_payment_panics_witness : ∃ n1, handle_api_request (M := unit) (user_with w2 false None) env (AddrV4 7 1000)
    (UserApiRequest.MakePayment "Bob" 5 None) = Ret (Some (ok "Next payment transaction ready"), n1) ∧
  User.handle_next_event_response (M := unit) 6 n1 env (inr (ok "Next payment transaction ready")) = Panic.
Proof.
  destruct w2_holds as (_ & fs & _ & _ & Hw & Ht & _ & Hl).
  destruct (unsent_payment_panics (M := unit) 6 (user_with w2 false None) env env "Bob" 5 None fs {[addr1]} Hw)
    as (n1 & fs1 & known1 & E & _ & _ & _ & Hp); [reflexivity|exact (w2_enough fs Ht Hl)|reflexivity|].
  exists n1. split; [exact E|exact Hp].
Defined.
Lemma exchange_messages_panic_witness :
  handle_request (M := unit) (user_with w2 true None) env compute_node (UserRequest.SendRbPaymentResponse None) = Panic.
Proof. apply (exchange_messages_panic (M := unit) 6 (user_with w2 true None) env env compute_node None); reflexivity. Defined.
End PaymentExamples.

Module GenerationExamples.
Import TestExternals CommsExamples WalletExamples GenExamples PaymentExamples.
Definition running : AutoGenTx := mkAutoGenTx (snapshot_state g1).2 (Some 1%Z) (Some 1%Z) 5.
Definition user_gen : UserNode TlsCertificate := user_with w2 true (Some running).

Lemma generation_total_witness : ∃ n' a', process_mining_notified (M := unit) 6 user_gen = Ret n' ∧ test_auto_gen_tx n' = Some a' ∧
  supply (coins (tx_generator a')) = 6%Z.
Proof.
  destruct w2_holds as (_ & fs & _ & _ & (_ & m & Hm & _) & _).
  destruct (generation_total (M := unit) 6 user_gen running (tx_generator running) m) as (n' & a' & E & Ha & _ & Hs & _).
  - reflexivity.
  - reflexivity.
  - destruct g1_ok. by split.
  - split; by intros c [= <-].
  - vm_compute. discriminate.
  - apply (bool_decide_eq_true _). vm_compute. reflexivity.
  - exact Hm.
  - exists n', a'. split; [exact E|]. split; [exact Ha|]. rewrite Hs. vm_compute. reflexivity.
Defined.
End GenerationExamples.
