(* ===== verification/UserExchange.v ===== *)
(** * Exchanges between two users

    The three steps of an exchange of tokens for a receipt, run on the two nodes
    through the frames they send each other, and what the compute node makes of
    the two transactions. *)
From S2P Require Import Prelude Externals Utils TrackedUtxo Unicorn Interfaces Comms ActiveRaft RaftUtil BlockPipeline ComputeConsensused Requests ComputeRaft DbUtils Compute ComputePool FundStore Wallet TransactionGen User.

(** What the constructors of naom put into a transaction, and when expectations
    are met: each is matched by an output of a transaction of the druid. *)
Class NaomExchangeLaws `{Naom, !NaomScripts, NaomExchange} : Prop := {
  rb_send_tx ins outs addr amount lt d exps :
    let tx := construct_rb_payments_send_tx ins outs addr amount lt d exps in
    inputs tx = ins ∧ outputs tx = outs ++ [mkTxOut (Externals.Token amount) lt None (Some addr)] ∧
    druid_info tx = Some (mkDdeValues d 2 exps);
  rb_receive_tx ins outs addr lt d exps drs :
    let tx := construct_rb_receive_payment_tx ins outs addr lt d exps drs in
    inputs tx = ins ∧ outputs tx = outs ++ [mkTxOut (asset_receipt 1 drs None) lt None (Some addr)] ∧
    druid_info tx = Some (mkDdeValues d 2 exps);
  expectations_met d txs : druid_expectations_are_met d txs = true ↔
    ∀ tx info ex, tx ∈ txs → druid_info tx = Some info → druid info = d → ex ∈ expectations info →
    ∃ tx' info' o, tx' ∈ txs ∧ druid_info tx' = Some info' ∧ druid info' = d ∧
      construct_tx_ins_address (inputs tx') = de_from ex ∧ o ∈ outputs tx' ∧
      script_public_key o = Some (de_to ex) ∧ value o = de_asset ex;
}.

Section exchange.
Context `{CommsCrates, Ipv6Display, Naom, !NaomAssets, !NaomScripts, NaomReceipts, NaomSigning, NaomExchange, NaomCrypto,
  NaomPayments, !NaomExchangeLaws, !NaomGenLaws}.
Context `{Bincode (FundStoreOf AssetValues), Bincode (gset string), Bincode AddressStore, Bincode TransactionStore,
  Bincode OutPoint, Bincode MasterKeyStore, Bincode (gmap string Z), Bincode (PendingMap * ReadyMap)}.
Context {M : Type} `{Bincode (ComputeRequest.t M), Bincode UserRequest.t, !BincodeLaws UserRequest.t}.
(** For the compute node. *)
Context `{Bincode RaftContextKey, Bincode ComputeRaftItem, Bincode Transaction, Bincode BlockHeader, Bincode (gset SocketAddr),
  Bincode MineRequest.t}.
Context (NETWORK_VERSION : Z).
Notation UserNode := (UserNode TlsCertificate).
Notation Env := (User.Env TlsCertificate).
Implicit Types (n : UserNode) (tx : Transaction).

(** *** What is sent *)
Lemma sent_user n peer msg res n' : send_user n peer msg = (res, n') →
  ∃ nd, n' = n <| node := nd |> ∧ (res = inr tt → ∃ id, sent nd = sent (node n) ++ [(peer, Direct (serialize msg) id)]).
Proof.
  unfold send_user, Comms.send, gen, send_message. cbn [peers setter].
  destruct (peers (node n) !! peer); intros [= <- <-]; cbn; (eexists; split; [reflexivity|]); [eauto|done].
Qed.
Lemma user_sent_compute n peer (msg : ComputeRequest.t M) res n' : User.send_compute n peer msg = (res, n') →
  ∃ nd, n' = n <| node := nd |> ∧ (res = inr tt → ∃ id, sent nd = sent (node n) ++ [(peer, Direct (serialize msg) id)]).
Proof.
  unfold User.send_compute, Comms.send, gen, send_message. cbn [peers setter].
  destruct (peers (node n) !! peer); intros [= <- <-]; cbn; (eexists; split; [reflexivity|]); [eauto|done].
Qed.

Notation frame msg id := (Direct (serialize msg) id).

Lemma sent_transaction n peer compute tx n' : next_rb_payment n = Some (Some peer, tx) →
  send_next_rb_transaction_to_destinations (M := M) n compute = Ret (inr tt, n') →
  ∃ i1 i2, sent (node n') = sent (node n) ++
    [(compute, frame (ComputeRequest.SendTransactions (M := M) [tx]) i1); (peer, frame (UserRequest.SendPaymentTransaction tx) i2)].
Proof.
  intros Hn. unfold send_next_rb_transaction_to_destinations. rewrite Hn. cbn [unwrap obind].
  intros (n1 & Hs & Hr)%obind_ret. unfold store_payment in Hs. apply obind_ret in Hs as (w & _ & [= <-]).
  destruct (User.send_compute _ _ _) as [res n2] eqn:E. apply user_sent_compute in E as (nd & -> & E).
  destruct res as [|[]]; [done|]. destruct (E eq_refl) as [i1 E1]. unfold send_payment_to_receiver in Hr.
  destruct (send_user _ peer _) as [res n3] eqn:E2. apply sent_user in E2 as (nd2 & -> & E2). injection Hr as -> <-.
  destruct (E2 eq_refl) as [i2 E3]. exists i1, i2. cbn [node setter] in *. rewrite E3, E1, <-(assoc_L (++)). done.
Qed.

(** The cases of [handle_next_event_response] for an exchange. *)
Lemma response_to_request n e : User.handle_next_event_response (M := M) NETWORK_VERSION n e (inr (ok "Received receipt-based payment request")) =
  (let! n := unwrap_sent (send_rb_payment_response n) in
   let! n := unwrap_sent (send_next_rb_transaction_to_destinations (M := M) n (compute_addr n)) in Ret (ResultContinue, n)).
Proof. reflexivity. Qed.
Lemma response_to_response n e : User.handle_next_event_response (M := M) NETWORK_VERSION n e (inr (ok "Received receipt-based payment response")) =
  (let! n := unwrap_sent (send_next_rb_transaction_to_destinations (M := M) n (compute_addr n)) in Ret (ResultContinue, n)).
Proof. reflexivity. Qed.
Lemma unwrap_sent_ret (m : outcome ((UserError + unit) * UserNode)) n : unwrap_sent m = Ret n → m = Ret (inr tt, n).
Proof. unfold unwrap_sent. destruct m as [[[|[]] n']|]; cbn; [done| |done]. by intros [= ->]. Qed.

(** *** The pair of transactions

    [a] pays [amount] tokens to an address of the receiver, [b] a receipt to an
    address of the sender; each is conditional on the other. *)
Record exchanged (d : string) (amount : TokenAmount) (drs : option string) (a b : Transaction) : Prop := {
  ex_pays_a : ∃ addr_b outs, outputs a = outs ++ [mkTxOut (Externals.Token amount) 0 None (Some addr_b)] ∧
    druid_info b = Some (mkDdeValues d 2 [mkDruidExpectation (construct_tx_ins_address (inputs a)) addr_b (Externals.Token amount)]);
  ex_pays_b : ∃ addr_a outs, outputs b = outs ++ [mkTxOut (asset_receipt 1 drs None) 0 None (Some addr_a)] ∧
    druid_info a = Some (mkDdeValues d 2 [mkDruidExpectation (construct_tx_ins_address (inputs b)) addr_a (asset_receipt 1 drs None)]);
}.

(** What the two nodes build from the data they exchange. *)
Lemma exchange_pair amount drs ins_a outs_a half_a addr_a ins_b outs_b half_b addr_b :
  token_amount (Externals.Token amount) = amount →
  let sr := make_rb_payment_send_tx_and_request (Externals.Token amount) ins_a outs_a half_a addr_a drs in
  let br := make_rb_payment_receipt_tx_and_response sr.2 ins_b outs_b half_b addr_b in
  exchanged (half_a +:+ half_b) amount drs (make_rb_payment_send_transaction br.2 sr.1) br.1.
Proof.
  intros Ht sr br. unfold make_rb_payment_send_transaction. cbn. rewrite Ht.
  destruct (rb_send_tx ins_a outs_a addr_b amount 0 (half_a +:+ half_b)
    [mkDruidExpectation (construct_tx_ins_address ins_b) addr_a (asset_receipt 1 drs None)]) as (Hia & Hoa & Hda).
  destruct (rb_receive_tx ins_b outs_b addr_a 0 (half_a +:+ half_b)
    [mkDruidExpectation (construct_tx_ins_address ins_a) addr_b (Externals.Token amount)] drs) as (Hib & Hob & Hdb).
  split; [exists addr_b, outs_a|exists addr_a, outs_b]; (split; [done|]); [by rewrite Hia|by rewrite Hib].
Qed.

(** *** The compute node's pool of druids *)
Definition pair_ready (d : string) (a b : Transaction) : Prop := ∀ pool, pool !! d = None →
  let ha := construct_tx_hash a in let hb := construct_tx_hash b in
  ∃ pool', validate_dde_step (pool, []) (ha, a) = (pool', []) ∧
    validate_dde_step (pool', []) (hb, b) = (pool, [(true, {[ha := a; hb := b]})]).

Lemma pair_valid d a b : a ≠ b → (∃ ea, druid_info a = Some (mkDdeValues d 2 ea)) → (∃ eb, druid_info b = Some (mkDdeValues d 2 eb)) →
  druid_expectations_are_met d (bt_values {[construct_tx_hash a := a; construct_tx_hash b := b]}) = true → pair_ready d a b.
Proof.
  intros Hab [ea Ha] [eb Hb] Hm pool Hp. cbv zeta.
  assert (Hne : construct_tx_hash a ≠ construct_tx_hash b) by (by intros ?%tx_hash_inj).
  unfold validate_dde_step at 1. cbn [snd fst]. rewrite Ha. cbn [druid dde_participants]. rewrite Hp. cbn [default from_option id].
  change (txs (DruidDroplet_new 2 <| txs ::= <[construct_tx_hash a := a]> |>)) with ({[construct_tx_hash a := a]} : gmap string Transaction).
  unfold zsize at 1. rewrite map_size_singleton. change (participants (DruidDroplet_new 2 <| txs ::= _ |>)) with 2.
  change (Z.of_nat 1 =? 2) with false. cbv iota zeta. eexists. split; [reflexivity|].
  unfold validate_dde_step. cbn [snd fst]. rewrite Hb. cbn [druid dde_participants]. rewrite lookup_insert_eq. cbn [default from_option id].
  set (dr := DruidDroplet_new 2 <| txs ::= _ |> <| txs ::= _ |>).
  assert (Et : txs dr = {[construct_tx_hash a := a; construct_tx_hash b := b]}).
  { change (txs dr) with (<[construct_tx_hash b := b]> {[construct_tx_hash a := a]} : gmap string Transaction).
    apply (insert_insert_ne (∅ : gmap string Transaction)). by symmetry. }
  change (participants dr) with 2. rewrite Et. unfold zsize. rewrite map_size_insert_None by (by rewrite lookup_singleton_ne).
  rewrite map_size_singleton. change (Z.of_nat 2 =? 2) with true. cbv iota. rewrite Hm. cbn [andb app].
  rewrite insert_insert_eq, delete_insert_id by done. do 3 f_equal.
  unfold check_druid_participants. rewrite Et. apply forallb_forall. intros tx Hin%list_elem_of_In.
  apply elem_of_bt_values in Hin as [h [[<- <-]|[_ [<- <-]%lookup_singleton_Some]]%lookup_insert_Some];
    apply bool_decide_eq_true; change (participants dr) with 2; [by rewrite Ha|by rewrite Hb].
Qed.

Lemma pair_values a b t : a ≠ b →
  t ∈ bt_values ({[construct_tx_hash a := a; construct_tx_hash b := b]} : gmap string Transaction) ↔ t = a ∨ t = b.
Proof.
  intros Hab. assert (Hne : construct_tx_hash a ≠ construct_tx_hash b) by (by intros ?%tx_hash_inj).
  rewrite elem_of_bt_values. setoid_rewrite lookup_insert_Some. setoid_rewrite lookup_singleton_Some. naive_solver.
Qed.

Lemma exchanged_ready d amount drs a b : exchanged d amount drs a b → pair_ready d a b ∧ pair_ready d b a.
Proof.
  intros [(addr_b & outs_a & Ha & Hdb) (addr_a & outs_b & Hb & Hda)].
  assert (Hab : a ≠ b).
  { intros <-. rewrite Ha in Hb. apply app_inj_tail in Hb as [_ [=]]. }
  assert (Hm : ∀ l : list Transaction, a ∈ l → b ∈ l → (∀ t, t ∈ l → t = a ∨ t = b) → druid_expectations_are_met d l = true).
  { intros l Hla Hlb Hl. apply expectations_met. intros tx info ex Hin Hi _ Hex. destruct (Hl _ Hin) as [->| ->].
    - rewrite Hda in Hi. injection Hi as <-. apply list_elem_of_singleton in Hex as ->.
      eexists b, _, _. split; [done|]. split; [exact Hdb|]. split; [done|]. split; [done|]. rewrite Hb. split; [apply elem_of_app; right; by left|done].
    - rewrite Hdb in Hi. injection Hi as <-. apply list_elem_of_singleton in Hex as ->.
      eexists a, _, _. split; [done|]. split; [exact Hda|]. split; [done|]. split; [done|]. rewrite Ha. split; [apply elem_of_app; right; by left|done]. }
  split; (apply pair_valid; [congruence|by eexists|by eexists|]);
    (apply Hm; [apply pair_values; [congruence|tauto]..|intros t Hin; apply pair_values in Hin; [tauto|congruence]]).
Qed.

(** A compute node with room for a transaction, whose database of local
    transactions is in order, gets the one and then the other; it takes both, and
    proposes them together as one set. *)
Definition takes_pair (c : ComputeNode TlsCertificate M) (q1 : SocketAddr) (x : Transaction) (q2 : SocketAddr) (y : Transaction) : Prop :=
  ∃ c1 c2, Compute.handle_request c q1 (ComputeRequest.SendTransactions [x]) = Ret (Some (ok "Transactions added to tx pool"), c1) ∧
    Compute.handle_request c1 q2 (ComputeRequest.SendTransactions [y]) = Ret (Some (ok "Transactions added to tx pool"), c2) ∧
    druid_pool c2 = druid_pool c ∧ local_tx_pool (node_raft c2) = local_tx_pool (node_raft c) ∧
    local_tx_druid_pool (node_raft c2) =
      local_tx_druid_pool (node_raft c) ++ [{[construct_tx_hash x := x; construct_tx_hash y := y]}].

Lemma pair_received d x y c m q1 q2 : pair_ready d x y → is_Some (druid_info x) → is_Some (druid_info y) →
  druid_pool c !! d = None → local_at (db c) m → tx_pool_can_accept (node_raft c) 1 = true →
  transactions_validator c x = Ret true → transactions_validator c y = Ret true → takes_pair c q1 x q2 y.
Proof.
  intros Hr Hx Hy Hd Hdb Hcan Hvx Hvy. destruct (Hr _ Hd) as (pool & S1 & S2).
  destruct (receive_one_druid c m x pool [] Hx Hdb Hcan Hvx S1) as (d1 & Hd1 & E1); [constructor|]. cbn [foldl] in E1.
  set (c1 := c <| db := d1 |> <| druid_pool := pool |>) in *. change (local_at (db c1) m) in Hd1.
  destruct (receive_one_druid c1 m y (druid_pool c) _ Hy Hd1 Hcan Hvy S2) as (d2 & _ & E2).
  { by constructor; [|constructor]. }
  exists c1. eexists. cbn [Compute.handle_request]. rewrite E1. split; [reflexivity|]. rewrite E2. split; [reflexivity|]. by split_and!.
Qed.

(** *** The steps of the two nodes *)
Lemma alice_asks n e peer amount drs n1 : send_rb_payment_request n e peer (Externals.Token amount) drs = Ret (inr tt, n1) →
  ∃ ins outs half addr id,
    let sr := make_rb_payment_send_tx_and_request (Externals.Token amount) ins outs half addr drs in
    next_rb_payment_data n1 = Some sr.1 ∧ last (sent (node n1)) = Some (peer, frame (UserRequest.SendRbPaymentRequest sr.2) id).
Proof.
  unfold send_rb_payment_request. intros (g & _ & Hr)%obind_ret. cbv zeta in Hr. apply obind_ret in Hr as (f & _ & Hr).
  destruct f as [[err|[ins outs]] w]; cbn [fst snd] in Hr; [by injection Hr|].
  unfold make_rb_payment_send_tx_and_request in Hr. cbv beta iota zeta in Hr.
  destruct (send_user _ _ _) as [res n2] eqn:E. apply sent_user in E as (nd & -> & E). injection Hr as -> <-.
  destruct (E eq_refl) as [id Es]. exists ins, outs, (generate_half_druid (env_druid_key e)), g.1.1, id.
  cbn [node setter next_rb_payment_data]. split; [done|]. by rewrite Es, last_snoc.
Qed.

Lemma bob_answers n e peer req r n1 : receive_rb_payment_request n e peer req = Ret (r, n1) →
  r = ok "Received receipt-based payment request" →
  ∃ ins outs half addr, let br := make_rb_payment_receipt_tx_and_response req ins outs half addr in
    next_rb_payment n1 = Some (Some peer, br.1) ∧ next_rb_payment_response n1 = Some (peer, Some br.2).
Proof.
  unfold receive_rb_payment_request. intros (g & _ & Hr)%obind_ret Hok. cbv zeta in Hr. apply obind_ret in Hr as (f & _ & Hr).
  destruct f as [[err|[ins outs]] w]; cbn [fst snd] in Hr; [by injection Hr as <- _|].
  unfold make_rb_payment_receipt_tx_and_response in Hr. cbv beta iota zeta in Hr. injection Hr as _ <-.
  by exists ins, outs, (generate_half_druid (env_druid_key e)), g.1.1.
Qed.

(** C21: an exchange that both users carry through gives two transactions that the
    compute node accepts together, in whichever order they come.  From Alice's
    request on, each step takes what the frame of the step before it carries; the
    states in between may be any, as long as Alice still has the data of her
    request.  Both transactions are sent to the compute node and to the other user;
    one pays the tokens, the other the receipt, under one druid, and each is
    conditional on the other.  A compute node that has nothing under this druid
    yet, has room, can write its database, and finds each of the two valid by
    itself (signatures, inputs that can be spent), answers each of the two
    messages with success, and after the second one, whichever it is, has exactly
    this pair as one more set to propose, and nothing left to wait for. *)
Theorem exchange_accepted na ea bob amount drs na1 fa ida nb eb alice nb1 eb' nb2 fb idb rest na1' ea1 na2 ea2 na3 :
  token_amount (Externals.Token amount) = amount →
  send_rb_payment_request na ea bob (Externals.Token amount) drs = Ret (inr tt, na1) →
  last (sent (node na1)) = Some (bob, Direct fa ida) →
  User.handle_new_frame nb eb alice fa = Ret (inr (Some (ok "Received receipt-based payment request")), nb1) →
  User.handle_next_event_response (M := M) NETWORK_VERSION nb1 eb' (inr (ok "Received receipt-based payment request")) = Ret (ResultContinue, nb2) →
  sent (node nb2) = sent (node nb1) ++ (alice, Direct fb idb) :: rest →
  next_rb_payment_data na1' = next_rb_payment_data na1 →
  User.handle_new_frame na1' ea1 bob fb = Ret (inr (Some (ok "Received receipt-based payment response")), na2) →
  User.handle_next_event_response (M := M) NETWORK_VERSION na2 ea2 (inr (ok "Received receipt-based payment response")) = Ret (ResultContinue, na3) →
  ∃ d a b i1 i2 i3 i4, exchanged d amount drs a b ∧ pair_ready d a b ∧ pair_ready d b a ∧
    (∀ c m qa qb, druid_pool c !! d = None → local_at (db c) m → tx_pool_can_accept (node_raft c) 1 = true →
       transactions_validator c a = Ret true → transactions_validator c b = Ret true →
       takes_pair c qa a qb b ∧ takes_pair c qb b qa a) ∧
    rest = [(compute_addr nb1, frame (ComputeRequest.SendTransactions (M := M) [b]) i1); (alice, frame (UserRequest.SendPaymentTransaction b) i2)] ∧
    sent (node na3) = sent (node na2) ++
      [(compute_addr na2, frame (ComputeRequest.SendTransactions (M := M) [a]) i3); (bob, frame (UserRequest.SendPaymentTransaction a) i4)].
Proof.
  intros Ht Hask Hlast Hreq Hresp Hsent Hdata Hframe Hfin.
  apply alice_asks in Hask as (ins_a & outs_a & half_a & addr_a & id & Hd & Hl). cbv zeta in Hd, Hl.
  rewrite Hl in Hlast. injection Hlast as <- <-.
  unfold User.handle_new_frame in Hreq. rewrite deserialize_serialize in Hreq. apply obind_ret in Hreq as ([o n'] & Hreq & [= -> ->]).
  cbn [User.handle_request] in Hreq. apply obind_ret in Hreq as ([r n'] & Hreq & [= -> ->]).
  apply bob_answers in Hreq as (ins_b & outs_b & half_b & addr_b & Hpay & Hres); [|done]. cbv zeta in Hpay, Hres.
  rewrite response_to_request in Hresp. apply obind_ret in Hresp as (nb' & Hs%unwrap_sent_ret & Hresp).
  apply obind_ret in Hresp as (nb'' & Hs2%unwrap_sent_ret & [= <-]).
  unfold send_rb_payment_response in Hs. rewrite Hres in Hs. cbn [unwrap obind fst snd] in Hs.
  destruct (send_user _ _ _) as [res n'] eqn:E. apply sent_user in E as (nd & -> & E). injection Hs as -> <-.
  destruct (E eq_refl) as [i0 E0].
  eapply sent_transaction in Hs2 as (i1 & i2 & Es2); [|exact Hpay]. cbn [node setter] in Es2, E0. rewrite E0, <-(assoc_L (++)) in Es2.
  rewrite Es2 in Hsent. apply (inj (app _)) in Hsent. cbn [app] in Hsent. injection Hsent as <- <- <-.
  unfold User.handle_new_frame in Hframe. rewrite deserialize_serialize in Hframe. apply obind_ret in Hframe as ([o n'] & Hframe & [= -> ->]).
  cbn [User.handle_request] in Hframe. apply obind_ret in Hframe as ([r n'] & Hframe & [= -> ->]).
  unfold receive_rb_payment_response in Hframe. rewrite Hdata, Hd in Hframe. cbn [unwrap obind] in Hframe. injection Hframe as <-.
  rewrite response_to_response in Hfin. apply obind_ret in Hfin as (na3' & Hs3%unwrap_sent_ret & [= <-]).
  eapply sent_transaction in Hs3 as (i3 & i4 & Es3); [|reflexivity].
  pose proof (exchange_pair amount drs ins_a outs_a half_a addr_a ins_b outs_b half_b addr_b Ht) as Hex. cbv zeta in Hex.
  destruct (exchanged_ready _ _ _ _ _ Hex) as [R1 R2].
  eexists _, _, _, i1, i2, i3, i4. split; [exact Hex|]. split; [exact R1|]. split; [exact R2|]. split; [|split; [done|exact Es3]].
  pose proof Hex as [(? & ? & _ & Hb) (? & ? & _ & Ha)]. apply mk_is_Some in Ha, Hb.
  intros c m qa qb Hd' Hdb Hcan Hva Hvb. split; by eapply pair_received.
Qed.
End exchange.

(** ** Examples *)
Module UserExamples.
Import TestExternals CommsExamples WalletExamples GenExamples.
Open Scope string_scope.

(** *** A codec of the requests of a user *)
Definition api_code (r : UserApiRequest.t) : Z * list Z * list string * option string * option Z * gset string * list SocketAddr :=
  match r with
  | UserApiRequest.SendCreateReceiptRequest a DrsDefault m => (0, [a], [], m, None, ∅, [])
  | UserApiRequest.SendCreateReceiptRequest a DrsCreate m => (1, [a], [], m, None, ∅, [])
  | UserApiRequest.UpdateWalletFromUtxoSet All => (2, [], [], None, None, ∅, [])
  | UserApiRequest.UpdateWalletFromUtxoSet (AnyOf l) => (3, [], l, None, None, ∅, [])
  | UserApiRequest.RequestDonation p => (4, [], [], None, None, ∅, [p])
  | UserApiRequest.MakeIpPayment p a l => (5, [a], [], None, l, ∅, [p])
  | UserApiRequest.MakePayment s a l => (6, [a], [s], None, l, ∅, [])
  | UserApiRequest.MakePaymentWithExcessAddress s a x l => (7, [a], [s; x], None, l, ∅, [])
  | UserApiRequest.GenerateNewAddress => (8, [], [], None, None, ∅, [])
  | UserApiRequest.GetConnectionStatus => (9, [], [], None, None, ∅, [])
  | UserApiRequest.ConnectToCompute => (10, [], [], None, None, ∅, [])
  | UserApiRequest.DisconnectFromCompute => (11, [], [], None, None, ∅, [])
  | UserApiRequest.DeleteAddresses s => (12, [], [], None, None, s, [])
  | UserApiRequest.MergeAddresses s x => (13, [], [], x, None, s, [])
  end%Z.
Definition api_decode (c : Z * list Z * list string * option string * option Z * gset string * list SocketAddr) : UserApiRequest.t :=
  match c with
  | (0, [a], _, m, _, _, _) => UserApiRequest.SendCreateReceiptRequest a DrsDefault m
  | (1, [a], _, m, _, _, _) => UserApiRequest.SendCreateReceiptRequest a DrsCreate m
  | (2, _, _, _, _, _, _) => UserApiRequest.UpdateWalletFromUtxoSet All
  | (3, _, l, _, _, _, _) => UserApiRequest.UpdateWalletFromUtxoSet (AnyOf l)
  | (4, _, _, _, _, _, [p]) => UserApiRequest.RequestDonation p
  | (5, [a], _, _, l, _, [p]) => UserApiRequest.MakeIpPayment p a l
  | (6, [a], [s], _, l, _, _) => UserApiRequest.MakePayment s a l
  | (7, [a], [s; x], _, l, _, _) => UserApiRequest.MakePaymentWithExcessAddress s a x l
  | (8, _, _, _, _, _, _) => UserApiRequest.GenerateNewAddress
  | (9, _, _, _, _, _, _) => UserApiRequest.GetConnectionStatus
  | (10, _, _, _, _, _, _) => UserApiRequest.ConnectToCompute
  | (11, _, _, _, _, _, _) => UserApiRequest.DisconnectFromCompute
  | (12, _, _, _, _, s, _) => UserApiRequest.DeleteAddresses s
  | (_, _, _, x, _, s, _) => UserApiRequest.MergeAddresses s x
  end%Z.
Definition rq_code (r : RbPaymentRequestData) :=
  (rq_sender_address r, rq_sender_half_druid r, rq_sender_from_addr r, rq_sender_asset r, rq_sender_drs_tx_expectation r).
Definition rr_code (r : RbPaymentResponseData) :=
  (rr_receiver_address r, rr_receiver_half_druid r, rr_sender_druid_expectation r).

#[export] Instance codec_api : Codec UserApiRequest.t.
Proof. apply (codec_iso api_code api_decode). by intros [? []| [] | | | | | | | | | | ]. Defined.
#[export] Instance codec_rq : Codec RbPaymentRequestData.
Proof. apply (codec_iso rq_code (λ c, mkRbPaymentRequestData c.1.1.1.1 c.1.1.1.2 c.1.1.2 c.1.2 c.2)). by intros []. Defined.
#[export] Instance codec_rr : Codec RbPaymentResponseData.
Proof. apply (codec_iso rr_code (λ c, mkRbPaymentResponseData c.1.1 c.1.2 c.2)). by intros []. Defined.

Definition request_code (r : UserRequest.t) :
    UserApiRequest.t + RbPaymentRequestData + option RbPaymentResponseData + string + Transaction + gmap OutPoint TxOut + Block + bool :=
  match r with
  | UserRequest.UserApi q => inl (inl (inl (inl (inl (inl (inl q))))))
  | UserRequest.SendRbPaymentRequest q => inl (inl (inl (inl (inl (inl (inr q))))))
  | UserRequest.SendRbPaymentResponse q => inl (inl (inl (inl (inl (inr q)))))
  | UserRequest.SendPaymentAddress q => inl (inl (inl (inl (inr q))))
  | UserRequest.SendPaymentTransaction q => inl (inl (inl (inr q)))
  | UserRequest.SendUtxoSet q => inl (inl (inr q))
  | UserRequest.BlockMining q => inl (inr q)
  | UserRequest.SendAddressRequest => inr true
  | UserRequest.Closing => inr false
  end.
Definition request_decode c : UserRequest.t :=
  match c with
  | inl (inl (inl (inl (inl (inl (inl q)))))) => UserRequest.UserApi q
  | inl (inl (inl (inl (inl (inl (inr q)))))) => UserRequest.SendRbPaymentRequest q
  | inl (inl (inl (inl (inl (inr q))))) => UserRequest.SendRbPaymentResponse q
  | inl (inl (inl (inl (inr q)))) => UserRequest.SendPaymentAddress q
  | inl (inl (inl (inr q))) => UserRequest.SendPaymentTransaction q
  | inl (inl (inr q)) => UserRequest.SendUtxoSet q
  | inl (inr q) => UserRequest.BlockMining q
  | inr true => UserRequest.SendAddressRequest
  | inr false => UserRequest.Closing
  end.
#[export] Instance codec_request : Codec UserRequest.t.
Proof. apply (codec_iso request_code request_decode). by intros []. Defined.
#[export] Instance b_request : Bincode UserRequest.t := bincode_codec _.
#[export] Instance b_request_laws : BincodeLaws UserRequest.t := bincode_codec_laws _.
#[export] Instance codec_fund : Codec (FundStoreOf values).
Proof.
  apply (codec_iso (λ f : FundStoreOf values, (fs_running_total f, fs_transactions f, fs_pages f, fs_spent f))
    (λ c, mkFundStore c.1.1.1 c.1.1.2 c.1.2 c.2)). by intros [].
Defined.
#[export] Instance u_set : Bincode (gset string) := bincode_codec _.
#[export] Instance u_op : Bincode OutPoint := bincode_codec _.
#[export] Instance u_locked : Bincode (gmap string Z) := bincode_codec _.
#[export] Instance b_compute : Bincode (ComputeRequest.t unit) := {| serialize _ := [1]; deserialize _ := None |}.

(** *** The transactions and checks of naom *)
#[export] Instance gen_fund : Bincode (FundStoreOf (@AssetValues gen_naom)) := bincode_codec (FundStoreOf values).
Definition tx_addr (ins : list TxIn) : string := String.concat "+" (map t_hash (omap previous_out ins)).
#[export] Instance exchange_tx : NaomExchange := {|
  Block_default := mkBlock empty_header [];
  construct_tx_ins_address := tx_addr;
  construct_rb_payments_send_tx ins outs addr amount lt d exps :=
    mkTransaction ins (outs ++ [mkTxOut (Externals.Token amount) lt None (Some addr)])%list 6 (Some (mkDdeValues d 2 exps));
  construct_rb_receive_payment_tx ins outs addr lt d exps drs :=
    mkTransaction ins (outs ++ [mkTxOut (asset_receipt 1 drs None) lt None (Some addr)])%list 6 (Some (mkDdeValues d 2 exps));
  construct_receipt_create_tx b pk sk amount spec meta :=
    mkTransaction [mkTxIn None (mkScript [Op OP_CREATE; Num b])]
      [mkTxOut (asset_receipt amount (get_drs_tx_hash spec) meta) 0 None (Some ("A" ++ hex_encode pk))] 6 None;
|}.
Definition of_druid (d : string) (tx : Transaction) : bool := bool_decide (druid <$> druid_info tx = Some d).
Definition is_met (d : string) (txs : list Transaction) (ex : DruidExpectation) : bool :=
  existsb (λ tx, of_druid d tx && bool_decide (tx_addr (inputs tx) = de_from ex) &&
    existsb (λ o, bool_decide (script_public_key o = Some (de_to ex) ∧ value o = de_asset ex)) (outputs tx)) txs.
#[export] Instance gen_scripts : NaomScripts := {|
  is_create_tx tx := bool_decide (inputs tx = []);
  tx_has_valid_create_script _ _ := true;
  tx_is_valid _ _ := true;
  druid_expectations_are_met d txs :=
    forallb (λ tx, negb (of_druid d tx) || forallb (is_met d txs) (default [] (expectations <$> druid_info tx))) txs;
|}.
Lemma of_druid_spec d tx : of_druid d tx = true ↔ ∃ info, druid_info tx = Some info ∧ druid info = d.
Proof.
  unfold of_druid. rewrite bool_decide_eq_true. destruct (druid_info tx) as [i|]; cbn; [|naive_solver].
  split; [intros [= <-]; eauto|]. intros (i' & [= ->] & ->). done.
Qed.
Lemma is_met_spec d txs ex : is_met d txs ex = true ↔ ∃ tx' info' o, tx' ∈ txs ∧ druid_info tx' = Some info' ∧ druid info' = d ∧
  construct_tx_ins_address (inputs tx') = de_from ex ∧ o ∈ outputs tx' ∧ script_public_key o = Some (de_to ex) ∧ value o = de_asset ex.
Proof.
  unfold is_met. rewrite existsb_exists. split.
  - intros (tx & Hin%list_elem_of_In & Hb). rewrite !andb_true_iff in Hb. destruct Hb as [[Hd Ha%bool_decide_eq_true] Ho].
    apply of_druid_spec in Hd as (info & Hi & Hd). apply existsb_exists in Ho as (o & Ho%list_elem_of_In & Hv%bool_decide_eq_true).
    exists tx, info, o. tauto.
  - intros (tx & info & o & Hin & Hi & Hd & Ha & Ho & Hv). exists tx. split; [by apply list_elem_of_In|].
    rewrite !andb_true_iff. split; [split; [apply of_druid_spec; eauto|by apply bool_decide_eq_true]|].
    apply existsb_exists. exists o. split; [by apply list_elem_of_In|by apply bool_decide_eq_true].
Qed.
#[export] Instance exchange_laws : NaomExchangeLaws.
Proof.
  split; [done|done|]. intros d txs. cbn [druid_expectations_are_met gen_scripts]. rewrite forallb_forall. split.
  - intros Hall tx info ex Hin Hi Hd Hex. rewrite list_elem_of_In in Hin. specialize (Hall _ Hin).
    rewrite (proj2 (of_druid_spec d tx)) in Hall by eauto. cbn in Hall. rewrite Hi, forallb_forall in Hall. apply is_met_spec, Hall.
    by apply list_elem_of_In.
  - intros Hall tx Hin. apply list_elem_of_In in Hin. destruct (of_druid d tx) eqn:E; [|done]. apply of_druid_spec in E as (info & Hi & Hd).
    cbn. rewrite Hi. apply forallb_forall. intros ex Hex. apply is_met_spec. eapply Hall; [done|done|done|]. by apply list_elem_of_In.
Qed.

(** *** Two users

    Alice is configured with 10 tokens; Bob has made an address and was sent a
    receipt. *)
Definition compute_node : SocketAddr := AddrV4 1 100.
Definition alice : SocketAddr := AddrV4 7 1000.
Definition bob : SocketAddr := AddrV4 8 1000.
Definition no_gen : UserAutoGenTxSetup := mkUserAutoGenTxSetup [] None None 0.
Definition config_of (addr : SocketAddr) (seeds : list WalletTxSpec) : UserNodeConfig :=
  mkUserNodeConfig addr [compute_node] 0 ∅ (Some "pass") 8 seeds 0 no_gen.
Definition dummy_user : UserNode TlsCertificate :=
  mkUserNode (Node_new alice ∅ Z.of_nat 8 User 6 true false) dummy [] compute_node None None Block_default None None (∅, DonateDisabled)
    None None None.
Definition connect (l : list SocketAddr) (n : UserNode TlsCertificate) : UserNode TlsCertificate :=
  n <| node ::= λ nd, nd <| peers := list_to_map ((λ a, (a, mkPeer (Some 6%Z) a (Some User) (Some a) false RxNone 0)) <$> l) |> |>.
Definition new_user addr seeds : UserNode TlsCertificate :=
  match UserNode_new 6 [1%Z] (config_of addr seeds) None None true Z.of_nat [5%Z] [7%Z] [0; 0]%Z [[0; 1]%Z] with Ret (inr n) => n | _ => dummy_user end.
Definition env (key excess druid : Z) : User.Env TlsCertificate :=
  mkEnv ([0; 1], [key], [35])%Z ([0; 1], [excess], [36])%Z [druid] (inl IoError) (λ nd, (inr (), nd)) true.
Definition frame_run n (e : User.Env TlsCertificate) peer f : UserNode TlsCertificate :=
  match User.handle_new_frame n e peer f with Ret (_, n) => n | Panic => dummy_user end.
Definition response_run n (e : User.Env TlsCertificate) r : UserNode TlsCertificate :=
  match User.handle_next_event_response (M := unit) 6 n e (inr (ok r)) with Ret (_, n) => n | Panic => dummy_user end.
(** The first message that is still to be delivered. *)
Definition first_frame (n : UserNode TlsCertificate) : list Z :=
  match head (sent (node n)) with Some (_, Direct f _) => f | _ => [] end.
Definition first_id (n : UserNode TlsCertificate) : Z :=
  match head (sent (node n)) with Some (_, Direct _ id) => id | _ => 0%Z end.

Definition alice0 := connect [compute_node; bob] (new_user alice [mkWalletTxSpec "0-aa" "s1" "k1" 10 None]).
Definition bob0 := connect [compute_node; alice] (new_user bob []).
Definition bob1 := match generate_new_address bob0 (env 60 61 62) with Ret (_, n) => n | Panic => dummy_user end.
Definition receipt_tx : Transaction :=
  mkTransaction [mkTxIn (Some (mkOutPoint "cc" 0)) (mkScript [])] [mkTxOut (asset_receipt 1 (Some "drs") None) 0 None (Some ("A" ++ hex_encode [60%Z]))] 6 None.
Definition bob2 := frame_run bob1 (env 60 61 62) compute_node (serialize (UserRequest.SendPaymentTransaction receipt_tx)).
Definition alice1 := match send_rb_payment_request alice0 (env 40 41 42) bob (Externals.Token 4) (Some "drs") with Ret (_, n) => n | Panic => dummy_user end.
Definition bob3 := frame_run bob2 (env 63 64 65) alice (first_frame alice1).
Definition bob4 := response_run bob3 (env 66 67 68) "Received receipt-based payment request".
Definition alice2 := frame_run alice1 (env 43 44 45) bob (first_frame bob4).
Definition alice3 := response_run alice2 (env 46 47 48) "Received receipt-based payment response".

(** A step is known by what it returns and a message by its receiver; the states
    are not compared. *)
Lemma stepped {A B} (m : outcome (A * B)) (r : A) (d n : B) :
  match m with Ret (r, _) => Some r | Panic => None end = Some r →
  n = match m with Ret (_, n) => n | Panic => d end → m = Ret (r, n).
Proof. destruct m as [[]|]; [intros [= ->]|discriminate]; by intros ->. Qed.
Lemma first_message (n : UserNode TlsCertificate) peer :
  match head (sent (node n)) with Some (q, Direct _ _) => Some q | _ => None end = Some peer →
  sent (node n) = (peer, Direct (first_frame n) (first_id n)) :: tail (sent (node n)).
Proof. unfold first_frame, first_id. by destruct (sent (node n)) as [|[q []] ?]; intros [= ->]. Qed.
Lemma nil_of_length {A} (l : list A) : length l = 0%nat → l = [].
Proof. by destruct l. Qed.
Lemma last_only {A} (l : list A) x : head l = Some x → length l = 1%nat → last l = Some x.
Proof. by destruct l as [|? []]; intros [= ->]. Qed.

#[local] Strategy expand [alice1 bob3 bob4 alice2 alice3 frame_run response_run].
Ltac by_vm := match goal with |- ?a = ?b => vm_cast_no_check (@eq_refl _ b) end.

Lemma alice1_run : send_rb_payment_request alice0 (env 40 41 42) bob (Externals.Token 4) (Some "drs") = Ret (inr tt, alice1).
Proof. apply (stepped _ _ dummy_user); [by_vm|reflexivity]. Qed.
Lemma bob3_run : User.handle_new_frame bob2 (env 63 64 65) alice (first_frame alice1) =
  Ret (inr (Some (ok "Received receipt-based payment request")), bob3).
Proof. apply (stepped _ _ dummy_user); [by_vm|reflexivity]. Qed.
Lemma bob4_run : User.handle_next_event_response (M := unit) 6 bob3 (env 66 67 68) (inr (ok "Received receipt-based payment request")) =
  Ret (ResultContinue, bob4).
Proof. apply (stepped _ _ dummy_user); [by_vm|reflexivity]. Qed.
Lemma alice2_run : User.handle_new_frame alice1 (env 43 44 45) bob (first_frame bob4) =
  Ret (inr (Some (ok "Received receipt-based payment response")), alice2).
Proof. apply (stepped _ _ dummy_user); [by_vm|reflexivity]. Qed.
Lemma alice3_run : User.handle_next_event_response (M := unit) 6 alice2 (env 46 47 48) (inr (ok "Received receipt-based payment response")) =
  Ret (ResultContinue, alice3).
Proof. apply (stepped _ _ dummy_user); [by_vm|reflexivity]. Qed.
Lemma alice1_sent : last (sent (node alice1)) = Some (bob, Direct (first_frame alice1) (first_id alice1)).
Proof. apply last_only; [rewrite (first_message alice1 bob) by by_vm; done|by_vm]. Qed.
Lemma bob4_sent : sent (node bob4) = (sent (node bob3) ++ (alice, Direct (first_frame bob4) (first_id bob4)) :: tail (sent (node bob4)))%list.
Proof. rewrite (nil_of_length (sent (node bob3))) by by_vm. apply first_message. by_vm. Qed.

(** *** A compute node that just started *)
#[export] Instance x_key : Bincode RaftContextKey := RaftUtilExamples.bincode_key.
#[export] Instance x_item : Bincode ComputeRaftItem := ComputeExamples.be_item.
#[export] Instance x_tx : Bincode Transaction := ComputeExamples.be_tx.
#[export] Instance x_header : Bincode BlockHeader := ComputeExamples.be_header.
#[export] Instance x_addrs : Bincode (gset SocketAddr) := ComputeExamples.be_addr_set.
#[export] Instance x_mine : Bincode MineRequest.t := ComputeExamples.be_mine.
Definition compute0 : ComputeNode TlsCertificate unit := ComputeExamples.n_new.
(** The transaction that a user told the other one last. *)
Definition last_told (n : UserNode TlsCertificate) : option Transaction :=
  match last (sent (node n)) with
  | Some (_, Direct f _) => match deserialize f with Some (UserRequest.SendPaymentTransaction tx) => Some tx | _ => None end
  | _ => None
  end.
Definition last_valid (n : UserNode TlsCertificate) : outcome bool :=
  match last_told n with Some tx => transactions_validator compute0 tx | None => Panic end.
Lemma told_valid n q tx id : last (sent (node n)) = Some (q, Direct (serialize (UserRequest.SendPaymentTransaction tx)) id) →
  last_valid n = Ret true → transactions_validator compute0 tx = Ret true.
Proof. intros E. unfold last_valid, last_told. rewrite E, deserialize_serialize. done. Qed.
Lemma alice_valid : last_valid alice3 = Ret true.
Proof. by_vm. Qed.
Lemma bob_valid : last_valid bob4 = Ret true.
Proof. by_vm. Qed.

Lemma exchange_accepted_witness : ∃ d a b, exchanged d 4 (Some "drs") a b ∧ takes_pair compute0 bob b alice a.
Proof.
  destruct (exchange_accepted (M := unit) 6 alice0 (env 40 41 42) bob 4 (Some "drs") alice1 (first_frame alice1) (first_id alice1)
    bob2 (env 63 64 65) alice bob3 (env 66 67 68) bob4 (first_frame bob4) (first_id bob4) (tail (sent (node bob4)))
    alice1 (env 43 44 45) alice2 (env 46 47 48) alice3) as (d & a & b & i1 & i2 & i3 & i4 & Hex & _ & _ & Hc & Hb & Ha);
    [reflexivity|exact alice1_run|exact alice1_sent|exact bob3_run|exact bob4_run|exact bob4_sent|reflexivity|exact alice2_run
    |exact alice3_run|].
  exists d, a, b. split; [exact Hex|].
  apply (Hc compute0 ∅ alice bob).
  - assert (Ed : druid_pool compute0 = ∅) by by_vm. rewrite Ed. apply lookup_empty.
  - exact PoolExamples.d_new_empty.
  - by_vm.
  - apply (told_valid alice3 bob a i4); [|exact alice_valid]. rewrite Ha, last_app. reflexivity.
  - apply (told_valid bob4 alice b i2); [|exact bob_valid]. rewrite bob4_sent, Hb, last_app. reflexivity.
Defined.
End UserExamples.
