(* ===== verification/StorageFetch.v ===== *)
(** * Catching up missing blocks: [src/storage_fetch.rs]

    A storage node that lags behind asks its peers for the items of the missing
    blocks, one at a time: the block, then its transactions.  Of the time-outs
    only the flag of a retry is kept; the instants are not modelled.  The keys
    are the indexed keys of [src/storage.rs]. *)
From S2P Require Import Prelude Externals Utils Unicorn Interfaces.

(** ** Indexed keys *)
Definition INDEXED_BLOCK_HASH_PREFIX_KEY : string := "nIndexedBlockHashKey_".
Definition INDEXED_TX_HASH_PREFIX_KEY : string := "nIndexedTxHashKey_".

Definition hex_digit (z : Z) : Ascii.ascii :=
  Ascii.ascii_of_N (Z.to_N (if z <? 10 then 48 + z else 87 + z)).
(** [{z:0nx}] for [z < 16^n]: exactly [n] digits. *)
Fixpoint hex_fixed (n : nat) (z : Z) : string :=
  match n with
  | O => EmptyString
  | S n => hex_fixed n (z / 16) +:+ String (hex_digit (z mod 16)) EmptyString
  end.

Definition indexed_block_hash_key (b_num : Z) : string :=
  INDEXED_BLOCK_HASH_PREFIX_KEY +:+ hex_fixed 16 b_num.
Definition indexed_tx_hash_key (b_num tx_num : Z) : string :=
  INDEXED_TX_HASH_PREFIX_KEY +:+ hex_fixed 16 b_num +:+ "_" +:+ hex_fixed 8 tx_num.

(** ** Receiving the items of a range of blocks *)
Inductive FetchStatus := Contiguous (b_num : Z) | NotContiguous (b_num : Z).
#[export] Instance FetchStatus_eq_dec : EqDecision FetchStatus.
Proof. solve_decision. Defined.

(** [WaitTxs b_num start end_]: the range of transactions still to receive. *)
Inductive FetchReceiveState :=
  | NoWait
  | WaitBlock (b_num : Z)
  | WaitTxs (b_num : Z) (start end_ : Z)
  | DoneBlock (b_num : Z).

Definition get_key (s : FetchReceiveState) : option string :=
  match s with
  | WaitBlock b_num => Some (indexed_block_hash_key b_num)
  | WaitTxs b_num start end_ => if start <? end_ then Some (indexed_tx_hash_key b_num start) else None
  | NoWait | DoneBlock _ => None
  end.

Record FetchReceive := mkFetchReceive {
  target_b_num : Z;
  state : FetchReceiveState;
  is_retry : bool;
  blockchain_items : list BlockchainItem;
}.
#[export] Instance eta_FetchReceive : Eta FetchReceive := λ r,
  mkFetchReceive (target_b_num r) (state r) (is_retry r) (blockchain_items r).

Definition new_block_fetch (start_b_num target_b_num : Z) : FetchReceive :=
  mkFetchReceive target_b_num (WaitBlock start_b_num) false [].

Definition fr_increase_running_target (r : FetchReceive) (b_num : Z) : FetchReceive :=
  r <| target_b_num ::= λ t, Z.max t b_num |>.

(** The match on the item and the state. *)
Definition next_state (m : BlockchainItemMeta) (s : FetchReceiveState) : option FetchReceiveState :=
  match m, s with
  | MetaBlock block_num tx_len, WaitBlock b_num =>
      if block_num =? b_num then
        if 0 <? tx_len then Some (WaitTxs b_num 0 tx_len) else Some (DoneBlock b_num)
      else None
  | MetaTx block_num tx_num, WaitTxs b_num start end_ =>
      if (block_num =? b_num) && (tx_num =? start) then
        if 1 <? Z.max 0 (end_ - start) then Some (WaitTxs b_num (start + 1) end_) else Some (DoneBlock b_num)
      else None
  | _, _ => None
  end.

Definition fr_receive_blockchain_items (r : FetchReceive) (item : BlockchainItem) :
    option (Z * list BlockchainItem) * FetchReceive :=
  let r := match next_state (item_meta item) (state r) with
           | Some new_state => r <| blockchain_items ::= λ l, l ++ [item] |> <| state := new_state |>
           | None => r
           end in
  match state r with
  | DoneBlock b_num =>
      (Some (b_num, blockchain_items r),
       r <| state := if b_num <? target_b_num r then WaitBlock (wrap64 (b_num + 1)) else NoWait |>
         <| blockchain_items := [] |>)
  | _ => (None, r)
  end.

Definition fr_is_complete (r : FetchReceive) : bool :=
  match state r with NoWait => true | _ => false end.

(** ** The catch-up of a storage node *)
Record StorageFetch := mkStorageFetch {
  storage_nodes : list SocketAddr;
  fetch_peer_idx : nat;
  last_contiguous_block_num : option Z;
  to_receive : option FetchReceive;
}.
#[export] Instance eta_StorageFetch : Eta StorageFetch := λ r,
  mkStorageFetch (storage_nodes r) (fetch_peer_idx r) (last_contiguous_block_num r) (to_receive r).

Definition StorageFetch_new (nodes : list SocketAddr) (addr : SocketAddr) : StorageFetch :=
  mkStorageFetch (filter (λ a, a ≠ addr) nodes) 0 None None.

Definition set_initial_last_contiguous_block_key (f : StorageFetch) (n : option Z) : StorageFetch :=
  f <| last_contiguous_block_num := n |>.

Definition increase_running_target (f : StorageFetch) (block_num : Z) : StorageFetch :=
  f <| to_receive ::= fmap (λ r, fr_increase_running_target r block_num) |>.

(** [None] is below every block number. *)
Definition up_to_date (last : option Z) (block_num : Z) : bool :=
  match last with Some n => block_num <=? n | None => false end.

Definition next_contiguous (f : StorageFetch) : Z :=
  match last_contiguous_block_num f with Some v => wrap64 (v + 1) | None => 0 end.

Definition fetch_missing_blockchain_items (f : StorageFetch) (block_num : Z) : bool * StorageFetch :=
  match to_receive f with
  | Some r => (false, f <| to_receive := Some (fr_increase_running_target r block_num) |>)
  | None =>
      if up_to_date (last_contiguous_block_num f) block_num then (false, f)
      else (true, f <| to_receive := Some (new_block_fetch (next_contiguous f) block_num) |>)
  end.

Definition set_retry_timeout (f : StorageFetch) : bool * StorageFetch :=
  match to_receive f with
  | Some r => (is_retry r, f <| to_receive := Some (r <| is_retry := true |>) |>)
  | None => (false, f)
  end.

Definition set_first_timeout (f : StorageFetch) : StorageFetch :=
  f <| to_receive ::= fmap (λ r, r <| is_retry := false |>) |>.

Definition get_fetch_peer_and_key (f : StorageFetch) : option (SocketAddr * string) :=
  let key := r ← to_receive f; get_key (state r) in
  peer ← storage_nodes f !! fetch_peer_idx f; k ← key; Some (peer, k).

Definition change_to_next_fetch_peer (f : StorageFetch) : StorageFetch :=
  let next := S (fetch_peer_idx f) in
  f <| fetch_peer_idx := if Nat.ltb next (length (storage_nodes f)) then next else 0%nat |>.

Definition is_complete (f : StorageFetch) : bool :=
  match to_receive f with None => true | Some _ => false end.

Definition receive_blockchain_items (f : StorageFetch) (item : BlockchainItem) :
    option (Z * list BlockchainItem) * StorageFetch :=
  if negb (is_complete f) && BlockchainItem_is_empty item then (None, change_to_next_fetch_peer f)
  else
    match to_receive f with
    | Some r =>
        let '(block, r) := fr_receive_blockchain_items r item in
        (block, f <| to_receive := if fr_is_complete r then None else Some r |>)
    | None => (None, f)
    end.

Definition check_contiguous_block_num (f : StorageFetch) (block_num : Z) : FetchStatus :=
  if block_num =? next_contiguous f then Contiguous block_num else NotContiguous block_num.

Definition update_contiguous_block_num (f : StorageFetch) (status : FetchStatus) : StorageFetch :=
  match status with
  | Contiguous block_num => f <| last_contiguous_block_num := Some block_num |>
  | NotContiguous _ => f
  end.

(** ** The keys are injective *)
Lemma hex_digit_inj a b : 0 ≤ a < 16 → 0 ≤ b < 16 → hex_digit a = hex_digit b → a = b.
Proof.
  intros Ha Hb E. unfold hex_digit in E.
  assert (Hc : ∀ z : Z, 0 ≤ z < 16 →
    (Z.to_N (if z <? 10 then 48 + z else 87 + z)%Z < 256)%N) by (intros z ?; destruct (z <? 10); lia).
  apply (f_equal Ascii.N_of_ascii) in E. rewrite !Ascii.N_ascii_embedding in E by (by apply Hc).
  destruct (Z.ltb_spec a 10), (Z.ltb_spec b 10); lia.
Qed.

Lemma string_length_app (s t : string) : String.length (s +:+ t) = (String.length s + String.length t)%nat.
Proof. induction s as [|c s IH]; [done|]. simpl. by rewrite <-IH. Qed.

Lemma length_hex_fixed n z : String.length (hex_fixed n z) = n.
Proof. revert z; induction n as [|n IH]; intros z; cbn; [done|]. rewrite string_length_app, IH. cbn. lia. Qed.

Lemma string_app_inj_r (s t u v : string) : String.length u = String.length v →
  s +:+ u = t +:+ v → s = t ∧ u = v.
Proof.
  intros Hl E. assert (Hst : String.length s = String.length t).
  { apply (f_equal String.length) in E. rewrite !string_length_app in E. lia. }
  revert t E Hst. induction s as [|c s IH]; intros [|d t] E Hst; cbn in *; try done.
  injection E as -> E. injection Hst as Hst. by destruct (IH t E Hst) as [-> ->].
Qed.

Lemma hex_fixed_inj n a b : 0 ≤ a < 16 ^ Z.of_nat n → 0 ≤ b < 16 ^ Z.of_nat n →
  hex_fixed n a = hex_fixed n b → a = b.
Proof.
  revert a b. induction n as [|n IH]; intros a b Ha Hb E; [cbn in Ha, Hb; lia|].
  cbn [hex_fixed] in E. apply string_app_inj_r in E as [E1 E2]; [|done]. injection E2 as E2.
  rewrite Nat2Z.inj_succ, Z.pow_succ_r in Ha, Hb by lia.
  pose proof (Z.mod_pos_bound a 16 ltac:(done)). pose proof (Z.mod_pos_bound b 16 ltac:(done)).
  apply hex_digit_inj in E2; [|done..].
  assert (Hdiv : ∀ z, 0 ≤ z < 16 * 16 ^ Z.of_nat n → 0 ≤ z / 16 < 16 ^ Z.of_nat n).
  { intros z Hz. split; [apply Z.div_pos; lia|]. apply Z.div_lt_upper_bound; lia. }
  apply IH in E1; [|by apply Hdiv..].
  rewrite (Z.div_mod a 16), (Z.div_mod b 16) by done. lia.
Qed.

Lemma indexed_block_hash_key_inj b1 b2 : is_u64 b1 → is_u64 b2 →
  indexed_block_hash_key b1 = indexed_block_hash_key b2 → b1 = b2.
Proof.
  intros H1 H2 E. unfold indexed_block_hash_key in E.
  apply string_app_inj_r in E as [_ E]; [|by rewrite !length_hex_fixed].
  by apply hex_fixed_inj in E.
Qed.

Lemma indexed_tx_hash_key_inj b1 b2 t1 t2 : is_u64 b1 → is_u64 b2 → 0 ≤ t1 < 2 ^ 32 → 0 ≤ t2 < 2 ^ 32 →
  indexed_tx_hash_key b1 t1 = indexed_tx_hash_key b2 t2 → b1 = b2 ∧ t1 = t2.
Proof.
  intros H1 H2 H3 H4 E. unfold indexed_tx_hash_key in E.
  apply string_app_inj_r in E as [_ E]; [|by rewrite !string_length_app, !length_hex_fixed].
  apply string_app_inj_r in E as [E1 E]; [|by rewrite !string_length_app, !length_hex_fixed].
  apply string_app_inj_r in E as [_ E2]; [|by rewrite !length_hex_fixed].
  by apply hex_fixed_inj in E1, E2.
Qed.

Lemma indexed_keys_ne b b' t : indexed_block_hash_key b ≠ indexed_tx_hash_key b' t.
Proof. intros E. by apply (f_equal (String.get 8)) in E. Qed.

(** ** What the node does with the answers of its peers *)

(** [serve peer key] is the item [peer] answers to a request of [key]. *)
Fixpoint catch_up (serve : SocketAddr → string → BlockchainItem) (n : nat) (f : StorageFetch) :
    list (Z * list BlockchainItem) * StorageFetch :=
  match n with
  | O => ([], f)
  | S n =>
      match get_fetch_peer_and_key f with
      | None => ([], f)
      | Some (peer, key) =>
          let '(block, f) := receive_blockchain_items f (serve peer key) in
          let '(blocks, f) := catch_up serve n f in
          (option_list block ++ blocks, f)
      end
  end.

(** Any sequence of items, asked for or not. *)
Fixpoint receive_all (f : StorageFetch) (items : list BlockchainItem) :
    list (Z * list BlockchainItem) * StorageFetch :=
  match items with
  | [] => ([], f)
  | item :: items =>
      let '(block, f) := receive_blockchain_items f item in
      let '(blocks, f) := receive_all f items in
      (option_list block ++ blocks, f)
  end.

(** *** Safety: whatever is received, what is stored is whole blocks in order *)
Definition chain_wf (c : Z * list BlockchainItem) : Prop :=
  ∃ len blk txs, c.2 = blk :: txs ∧ item_meta blk = MetaBlock c.1 len ∧
    map item_meta txs = map (MetaTx c.1) (seqZ 0 len).

(** The state of a fetch that will next complete block [b]. *)
Definition receive_wf (r : FetchReceive) (b : Z) : Prop :=
  is_u64 (target_b_num r) ∧ 0 ≤ b ≤ target_b_num r ∧
  match state r with
  | WaitBlock b' => b' = b ∧ blockchain_items r = []
  | WaitTxs b' start end_ => b' = b ∧ 0 ≤ start < end_ ∧
      ∃ blk txs, blockchain_items r = blk :: txs ∧ item_meta blk = MetaBlock b end_ ∧
        map item_meta txs = map (MetaTx b) (seqZ 0 start)
  | NoWait | DoneBlock _ => False
  end.

Lemma fr_receive_wf r b item : receive_wf r b →
  let '(block, r') := fr_receive_blockchain_items r item in
  target_b_num r' = target_b_num r ∧
  match block with
  | None => receive_wf r' b
  | Some c => c.1 = b ∧ chain_wf c ∧
      if b <? target_b_num r then receive_wf r' (b + 1) else state r' = NoWait
  end.
Proof.
  intros (Ht & Hb & Hs). unfold fr_receive_blockchain_items.
  destruct (next_state (item_meta item) (state r)) as [s'|] eqn:En; cycle 1.
  { destruct (state r) eqn:Es; try done; (split; [done|]); unfold receive_wf; by rewrite Es. }
  assert (Hnext : b <? target_b_num r = true → wrap64 (b + 1) = b + 1).
  { intros ?%Z.ltb_lt. apply wrap64_id. unfold is_u64 in *. lia. }
  destruct (item_meta item) as [bn tl|bn tn] eqn:Em, (state r) as [|b'|b' st en|b'] eqn:Es; cbn in En; try done.
  - destruct Hs as [-> Hi]. destruct (Z.eqb_spec bn b) as [->|]; [|done].
    destruct (Z.ltb_spec 0 tl); injection En as <-; cbn.
    + split; [done|]. unfold receive_wf. cbn. rewrite Hi. split_and!; try done; try lia. by exists item, [].
    + split; [done|]. split; [done|]. split.
      * exists tl, item, []. rewrite Hi, seqZ_nil by lia. done.
      * destruct (b <? target_b_num r) eqn:El; [|done]. rewrite Hnext by done. apply Z.ltb_lt in El.
        unfold receive_wf. cbn. split_and!; try done; lia.
  - destruct Hs as (-> & Hse & blk & txs & Hi & Hblk & Htxs).
    destruct (Z.eqb_spec bn b) as [->|], (Z.eqb_spec tn st) as [->|]; cbn in En; try done.
    assert (Happ : map item_meta (txs ++ [item]) = map (MetaTx b) (seqZ 0 (st + 1))).
    { rewrite seqZ_app, !map_app, Htxs by lia. cbn. by rewrite Em. }
    rewrite Z.max_r in En by lia.
    destruct (Z.ltb_spec 1 (en - st)); injection En as <-; cbn.
    + split; [done|]. unfold receive_wf. cbn. rewrite Hi. split_and!; try done; try lia.
      exists blk, (txs ++ [item]). done.
    + split; [done|]. split; [done|]. split.
      * exists en, blk, (txs ++ [item]). cbn. rewrite Hi. split_and!; [done..|].
        rewrite Happ. by replace (st + 1) with en by lia.
      * destruct (b <? target_b_num r) eqn:El; [|done]. rewrite Hnext by done. apply Z.ltb_lt in El.
        unfold receive_wf. cbn. split_and!; try done; lia.
Qed.

(** One answer in the node: only an empty item changes the peer. *)
Lemma receive_blockchain_items_wf f r b item : to_receive f = Some r → receive_wf r b →
  let '(block, f') := receive_blockchain_items f item in
  match block with
  | None => ∃ r', to_receive f' = Some r' ∧ target_b_num r' = target_b_num r ∧ receive_wf r' b
  | Some c => c.1 = b ∧ chain_wf c ∧
      if b <? target_b_num r
      then ∃ r', to_receive f' = Some r' ∧ target_b_num r' = target_b_num r ∧ receive_wf r' (b + 1)
      else to_receive f' = None
  end.
Proof.
  intros Hr Hwf. unfold receive_blockchain_items, is_complete. rewrite Hr. cbn [negb andb].
  destruct (BlockchainItem_is_empty item); [by exists r|].
  pose proof (fr_receive_wf r b item Hwf) as H. destruct (fr_receive_blockchain_items r item) as [[c|] r'] eqn:E.
  - destruct H as (Ht & Hc & Hcw & H). split; [done|]. split; [done|].
    destruct (b <? target_b_num r); cbn; unfold fr_is_complete.
    + pose proof H as (_ & _ & Hs). exists r'. destruct (state r'); done.
    + by rewrite H.
  - destruct H as (Ht & H). pose proof H as (_ & _ & Hs). exists r'. cbn; unfold fr_is_complete.
    destruct (state r'); done.
Qed.

Lemma receive_all_done f items : to_receive f = None → receive_all f items = ([], f).
Proof.
  intros Hr. induction items as [|i items IH]; cbn; [done|].
  unfold receive_blockchain_items, is_complete. rewrite Hr. cbn. by rewrite IH.
Qed.

Lemma receive_all_wf items f r b : to_receive f = Some r → receive_wf r b →
  let '(blocks, f') := receive_all f items in
  ∃ n, 0 ≤ n ∧ blocks.*1 = seqZ b n ∧ Forall chain_wf blocks ∧ b + n ≤ target_b_num r + 1 ∧
    (is_complete f' = true ↔ b + n = target_b_num r + 1).
Proof.
  revert f r b. induction items as [|item items IH]; intros f r b Hr Hwf; cbn.
  { exists 0. destruct Hwf as (_ & ? & _). unfold is_complete. rewrite Hr. split_and!; try done; lia. }
  pose proof (receive_blockchain_items_wf f r b item Hr Hwf) as H.
  destruct (receive_blockchain_items f item) as [[[b' c]|] f1].
  - destruct H as (Hb & Hcw & H). cbn in Hb. subst b'. destruct (Z.ltb_spec b (target_b_num r)).
    + destruct H as (r1 & Hr1 & Ht & Hwf1). specialize (IH f1 r1 (b + 1) Hr1 Hwf1).
      destruct (receive_all f1 items) as [blocks f2]. destruct IH as (n & Hn & Hbs & Hall & Hle & Hc).
      exists (n + 1). cbn. rewrite Hbs, Ht in *. split; [lia|]. split.
      { rewrite (seqZ_cons b (n + 1)) by lia. f_equal. f_equal; lia. }
      split; [by constructor|]. split; [lia|]. rewrite Hc. lia.
    + rewrite receive_all_done by done. exists 1. destruct Hwf as (_ & ? & _). cbn.
      split; [lia|]. split; [done|]. split; [by repeat constructor|]. split; [lia|].
      unfold is_complete. rewrite H. split; [lia|done].
  - destruct H as (r1 & Hr1 & Ht & Hwf1). specialize (IH f1 r1 b Hr1 Hwf1).
    destruct (receive_all f1 items) as [blocks f2]. cbn. by rewrite Ht in IH.
Qed.

Definition last_is_u64 (f : StorageFetch) : Prop :=
  match last_contiguous_block_num f with Some n => is_u64 n | None => True end.

Lemma fetch_started f target f1 : is_u64 target → last_is_u64 f →
  fetch_missing_blockchain_items f target = (true, f1) →
  to_receive f1 = Some (new_block_fetch (next_contiguous f) target) ∧
  receive_wf (new_block_fetch (next_contiguous f) target) (next_contiguous f) ∧
  fetch_peer_idx f1 = fetch_peer_idx f ∧ storage_nodes f1 = storage_nodes f ∧
  last_contiguous_block_num f1 = last_contiguous_block_num f.
Proof.
  intros Ht Hl. unfold fetch_missing_blockchain_items, last_is_u64 in *.
  destruct (to_receive f); [done|].
  destruct (up_to_date (last_contiguous_block_num f) target) eqn:Eu; [done|]. intros [= <-]. cbn.
  split; [done|]. split; [|done]. unfold receive_wf. cbn. split; [done|]. split; [|done].
  unfold next_contiguous. unfold is_u64 in *. destruct (last_contiguous_block_num f) as [v|]; cbn in Eu; [|lia].
  apply Z.leb_gt in Eu. rewrite wrap64_id by (unfold is_u64; lia). lia.
Qed.

(** C11: safety of the catch-up.  Whatever items are received after a fetch
    started, requested or not, from whichever peer, the chains handed to the
    database are those of consecutive block numbers from the first missing one,
    none beyond the target; each is the block's item followed by exactly the
    transactions its meta data announces, in order; and the fetch is over
    exactly when the target is reached. *)
Theorem fetched_chains_wf (f f1 f2 : StorageFetch) (target : Z) (items : list BlockchainItem) blocks :
  is_u64 target → last_is_u64 f → fetch_missing_blockchain_items f target = (true, f1) →
  receive_all f1 items = (blocks, f2) →
  ∃ n, 0 ≤ n ∧ blocks.*1 = seqZ (next_contiguous f) n ∧ Forall chain_wf blocks ∧
    next_contiguous f + n ≤ target + 1 ∧
    (is_complete f2 = true ↔ next_contiguous f + n = target + 1).
Proof.
  intros Ht Hl Hf Hall. destruct (fetch_started f target f1 Ht Hl Hf) as (Hr & Hwf & _).
  pose proof (receive_all_wf items f1 _ _ Hr Hwf) as H. by rewrite Hall in H.
Qed.

(** How far peer [j0] is from peer [i] in the order the peers are tried. *)
Definition peer_dist (len j0 i : nat) : nat := if Nat.leb i j0 then j0 - i else len - i + j0.
Definition next_peer (len i : nat) : nat := if Nat.ltb (S i) len then S i else 0.

Lemma peer_dist_bound len j0 i : (i < len → j0 < len → peer_dist len j0 i < len)%nat.
Proof. unfold peer_dist. destruct (Nat.leb_spec i j0); lia. Qed.

Lemma peer_dist_next len j0 i : (i < len → j0 < len → i ≠ j0 →
  peer_dist len j0 (next_peer len i) < peer_dist len j0 i ∧ next_peer len i < len)%nat.
Proof.
  unfold peer_dist, next_peer. intros ? ? ?.
  destruct (Nat.ltb_spec (S i) len), (Nat.leb_spec i j0);
    repeat match goal with |- context [Nat.leb ?a ?b] => destruct (Nat.leb_spec a b) end; lia.
Qed.

(** *** Liveness: the fetch completes when every item is at some peer *)
Section catch_up.
Context (serve : SocketAddr → string → BlockchainItem).
Context (nodes : list SocketAddr) (block_item : Z → BlockchainItem) (tx_item : Z → Z → BlockchainItem)
  (tx_len : Z → Z).

(** Each peer has the item of a key or answers the empty item, and one has it. *)
Definition served (key : string) (item : BlockchainItem) : Prop :=
  BlockchainItem_is_empty item = false ∧
  (∀ p, p ∈ nodes → serve p key = item ∨ BlockchainItem_is_empty (serve p key) = true) ∧
  (∃ p, p ∈ nodes ∧ serve p key = item).

Definition block_served (b : Z) : Prop :=
  served (indexed_block_hash_key b) (block_item b) ∧ item_meta (block_item b) = MetaBlock b (tx_len b) ∧
  0 ≤ tx_len b ∧
  ∀ i, 0 ≤ i < tx_len b →
    served (indexed_tx_hash_key b i) (tx_item b i) ∧ item_meta (tx_item b i) = MetaTx b i.

Definition block_chain (b : Z) : Z * list BlockchainItem :=
  (b, block_item b :: map (tx_item b) (seqZ 0 (tx_len b))).

(** [m] requests take [f] to [f'] and yield [blocks]. *)
Definition runs (f : StorageFetch) (m : nat) blocks (f' : StorageFetch) : Prop :=
  ∀ n, catch_up serve (m + n) f =
    let '(blocks', f'') := catch_up serve n f' in (blocks ++ blocks', f'').

Lemma runs_trans f m1 b1 f1 m2 b2 f2 :
  runs f m1 b1 f1 → runs f1 m2 b2 f2 → runs f (m1 + m2) (b1 ++ b2) f2.
Proof.
  intros H1 H2 n. rewrite <-Nat.add_assoc, H1, H2. destruct (catch_up serve n f2). by rewrite app_assoc.
Qed.

Definition at_peer (f : StorageFetch) (r : FetchReceive) : Prop :=
  storage_nodes f = nodes ∧ (fetch_peer_idx f < length nodes)%nat ∧ to_receive f = Some r.

(** One item: the peers are asked in turn until one has it. *)
Lemma run_item f r key item : at_peer f r → get_key (state r) = Some key → served key item →
  ∃ m j, (1 ≤ m ≤ length nodes)%nat ∧ (j < length nodes)%nat ∧
    let '(block, r') := fr_receive_blockchain_items r item in
    runs f m (option_list block)
      (f <| fetch_peer_idx := j |> <| to_receive := if fr_is_complete r' then None else Some r' |>).
Proof.
  intros Hat Hk (Hne & Hall & (p0 & Hp0 & Hs0)).
  apply list_elem_of_lookup in Hp0 as [j0 Hj0]. pose proof (lookup_lt_Some _ _ _ Hj0) as Hlt0.
  assert (Hg : ∀ d f, peer_dist (length nodes) j0 (fetch_peer_idx f) = d → at_peer f r →
    ∃ m j, (1 ≤ m ≤ S d)%nat ∧ (j < length nodes)%nat ∧
      let '(block, r') := fr_receive_blockchain_items r item in
      runs f m (option_list block)
        (f <| fetch_peer_idx := j |> <| to_receive := if fr_is_complete r' then None else Some r' |>)).
  { clear f Hat. induction d as [d IH] using lt_wf_ind. intros f Hd (Hn & Hi & Hr).
    destruct (lookup_lt_is_Some_2 nodes (fetch_peer_idx f) Hi) as [p Hp].
    assert (Hkey : get_fetch_peer_and_key f = Some (p, key)).
    { unfold get_fetch_peer_and_key. rewrite Hr, Hn, Hp. cbn. by rewrite Hk. }
    assert (Hp' : p ∈ nodes) by by apply list_elem_of_lookup_2 in Hp.
    destruct (decide (serve p key = item)) as [E|E].
    - exists 1%nat, (fetch_peer_idx f). split; [lia|]. split; [done|].
      destruct (fr_receive_blockchain_items r item) as [block r'] eqn:Er. intros n. cbn [catch_up Nat.add].
      rewrite Hkey, E. unfold receive_blockchain_items, is_complete. rewrite Hr, Hne. cbn [negb andb].
      rewrite Er. by destruct f.
    - assert (Hempty : BlockchainItem_is_empty (serve p key) = true) by (destruct (Hall p Hp'); done).
      assert (Hne0 : fetch_peer_idx f ≠ j0) by (intros Hi0; rewrite Hi0, Hj0 in Hp; congruence).
      pose proof (peer_dist_next (length nodes) j0 (fetch_peer_idx f) Hi Hlt0 Hne0) as [Hdlt Hlt].
      destruct (IH (peer_dist (length nodes) j0 (next_peer (length nodes) (fetch_peer_idx f)))
        ltac:(lia) (change_to_next_fetch_peer f)) as (m & j & Hm & Hj & Hrun).
      { unfold change_to_next_fetch_peer, next_peer. cbn. by rewrite Hn. }
      { split_and!; [done| |done]. unfold change_to_next_fetch_peer. cbn. by rewrite Hn. }
      exists (S m), j. split; [lia|]. split; [done|].
      destruct (fr_receive_blockchain_items r item) as [block r'] eqn:Er. intros n.
      cbn [catch_up Nat.add]. rewrite Hkey. unfold receive_blockchain_items, is_complete. rewrite Hr, Hempty.
      cbn [negb andb option_list app]. rewrite Hrun.
      replace (change_to_next_fetch_peer f <| fetch_peer_idx := j |>) with (f <| fetch_peer_idx := j |>)
        by by destruct f.
      by destruct (catch_up serve n _). }
  destruct (Hg _ f eq_refl Hat) as (m & j & Hm & Hj & Hrun). exists m, j. split; [|done].
  destruct Hat as (_ & Hi & _). pose proof (peer_dist_bound (length nodes) j0 (fetch_peer_idx f) Hi Hlt0). lia.
Qed.

(** What is left of the fetch after block [b]. *)
Definition after_block (r : FetchReceive) (b : Z) : option FetchReceive :=
  if b <? target_b_num r
  then Some (r <| state := WaitBlock (wrap64 (b + 1)) |> <| blockchain_items := [] |>) else None.

Lemma fr_receive_done r item b : next_state (item_meta item) (state r) = Some (DoneBlock b) →
  ∃ r', fr_receive_blockchain_items r item = (Some (b, blockchain_items r ++ [item]), r') ∧
    (if fr_is_complete r' then None else Some r') = after_block r b.
Proof.
  intros Hn. unfold fr_receive_blockchain_items. rewrite Hn. eexists. split; [reflexivity|].
  unfold fr_is_complete, after_block. destruct r. cbn. by destruct (b <? _).
Qed.

Lemma fr_receive_more r item b st en : next_state (item_meta item) (state r) = Some (WaitTxs b st en) →
  let r' := r <| blockchain_items ::= λ l, l ++ [item] |> <| state := WaitTxs b st en |> in
  fr_receive_blockchain_items r item = (None, r') ∧ (if fr_is_complete r' then None else Some r') = Some r'.
Proof. intros Hn. unfold fr_receive_blockchain_items. by rewrite Hn. Qed.

Lemma run_txs k f r b st en : (k = Z.to_nat (en - st)) → 0 ≤ st < en → en = tx_len b →
  at_peer f r → state r = WaitTxs b st en → block_served b →
  ∃ m j, (m ≤ length nodes * k)%nat ∧ (j < length nodes)%nat ∧
    runs f m [(b, blockchain_items r ++ map (tx_item b) (seqZ st (en - st)))]
      (f <| fetch_peer_idx := j |> <| to_receive := after_block r b |>).
Proof.
  revert f r st. induction k as [|k IH]; intros f r st Hk Hst Hen Hat Hs Hb; [lia|].
  destruct Hb as (Hb1 & Hm & Hlen & Htxs). destruct (Htxs st ltac:(lia)) as [Hserved Hmeta].
  destruct (run_item f r (indexed_tx_hash_key b st) (tx_item b st)) as (m & j & Hm1 & Hj & Hrun); [done| |done|].
  { rewrite Hs. cbn. by rewrite (proj2 (Z.ltb_lt st en)) by lia. }
  destruct (Z.ltb_spec 1 (en - st)) as [Hgt|Hle].
  - assert (Hn : next_state (item_meta (tx_item b st)) (state r) = Some (WaitTxs b (st + 1) en)).
    { rewrite Hmeta, Hs. cbn [next_state]. rewrite !Z.eqb_refl, Z.max_r by lia. cbn [andb].
      by rewrite (proj2 (Z.ltb_lt 1 (en - st))). }
    destruct (fr_receive_more _ _ _ _ _ Hn) as [Er Ec]. rewrite Er, Ec in Hrun. clear Er Ec Hn.
    set (r1 := r <| blockchain_items ::= _ |> <| state := _ |>) in Hrun.
    destruct (IH (f <| fetch_peer_idx := j |> <| to_receive := Some r1 |>) r1 (st + 1)) as (m2 & j2 & Hm2 & Hj2 & Hrun2);
      [lia|lia|done|by destruct Hat|done|by split_and!|].
    exists (m + m2)%nat, j2. split; [lia|]. split; [done|].
    pose proof (runs_trans _ _ _ _ _ _ _ Hrun Hrun2) as H. cbn [app option_list] in H.
    rewrite (seqZ_cons st) by lia. cbn [map].
    replace (Z.succ st) with (st + 1) by lia. replace (Z.pred (en - st)) with (en - (st + 1)) by lia.
    change (blockchain_items r1) with (blockchain_items r ++ [tx_item b st]) in H. rewrite <-app_assoc in H.
    exact H.
  - assert (Hn : next_state (item_meta (tx_item b st)) (state r) = Some (DoneBlock b)).
    { rewrite Hmeta, Hs. cbn [next_state]. rewrite !Z.eqb_refl, Z.max_r by lia. cbn [andb].
      by rewrite (proj2 (Z.ltb_ge 1 (en - st))). }
    destruct (fr_receive_done _ _ _ Hn) as (r' & Er & Ec). rewrite Er, Ec in Hrun.
    exists m, j. split; [lia|]. split; [done|]. replace (en - st) with 1 by lia. exact Hrun.
Qed.

(** One block: its item, then its transactions. *)
Lemma run_block f r b : at_peer f r → state r = WaitBlock b → blockchain_items r = [] → block_served b →
  ∃ m j, (m ≤ length nodes * S (Z.to_nat (tx_len b)))%nat ∧ (j < length nodes)%nat ∧
    runs f m [block_chain b] (f <| fetch_peer_idx := j |> <| to_receive := after_block r b |>).
Proof.
  intros Hat Hs Hi Hb. pose proof Hb as (Hb1 & Hm & Hlen & _).
  destruct (run_item f r (indexed_block_hash_key b) (block_item b)) as (m & j & Hm1 & Hj & Hrun);
    [done|by rewrite Hs|done|].
  destruct (Z.ltb_spec 0 (tx_len b)) as [Hgt|Hle].
  - assert (Hn : next_state (item_meta (block_item b)) (state r) = Some (WaitTxs b 0 (tx_len b))).
    { rewrite Hm, Hs. cbn [next_state]. rewrite Z.eqb_refl. by rewrite (proj2 (Z.ltb_lt 0 (tx_len b))). }
    destruct (fr_receive_more _ _ _ _ _ Hn) as [Er Ec]. rewrite Er, Ec in Hrun. clear Er Ec Hn.
    set (r1 := r <| blockchain_items ::= _ |> <| state := _ |>) in Hrun.
    destruct (run_txs (Z.to_nat (tx_len b)) (f <| fetch_peer_idx := j |> <| to_receive := Some r1 |>) r1 b 0 (tx_len b))
      as (m2 & j2 & Hm2 & Hj2 & Hrun2); [lia|lia|done|by destruct Hat|done|done|].
    exists (m + m2)%nat, j2. split; [lia|]. split; [done|].
    pose proof (runs_trans _ _ _ _ _ _ _ Hrun Hrun2) as H. cbn [app option_list] in H.
    change (blockchain_items r1) with (blockchain_items r ++ [block_item b]) in H.
    rewrite Hi, Z.sub_0_r in H. exact H.
  - assert (Hn : next_state (item_meta (block_item b)) (state r) = Some (DoneBlock b)).
    { rewrite Hm, Hs. cbn [next_state]. rewrite Z.eqb_refl. by rewrite (proj2 (Z.ltb_ge 0 (tx_len b))). }
    destruct (fr_receive_done _ _ _ Hn) as (r' & Er & Ec). rewrite Er, Ec in Hrun.
    exists m, j. split; [lia|]. split; [done|]. unfold block_chain. rewrite seqZ_nil by lia.
    rewrite Hi in Hrun. exact Hrun.
Qed.

(** Items of [k] blocks from [b] on. *)
Definition n_items (b : Z) (k : nat) : nat :=
  foldr (λ b acc, S (Z.to_nat (tx_len b)) + acc)%nat 0%nat (seqZ b (Z.of_nat k)).

Lemma run_blocks k f r b : at_peer f r → state r = WaitBlock b → blockchain_items r = [] →
  target_b_num r = b + Z.of_nat k → 0 ≤ b → is_u64 (target_b_num r) →
  (∀ b', b ≤ b' ≤ target_b_num r → block_served b') →
  ∃ m j, (m ≤ length nodes * n_items b (S k))%nat ∧ (j < length nodes)%nat ∧
    runs f m (map block_chain (seqZ b (Z.of_nat (S k))))
      (f <| fetch_peer_idx := j |> <| to_receive := None |>).
Proof.
  revert f r b. induction k as [|k IH]; intros f r b Hat Hs Hi Ht Hb0 Hu Hall;
    (destruct (run_block f r b Hat Hs Hi ltac:(apply Hall; lia)) as (m & j & Hm & Hj & Hrun)).
  - exists m, j. unfold n_items, after_block in *. rewrite seqZ_cons, seqZ_nil by lia. cbn [foldr map].
    rewrite (proj2 (Z.ltb_ge b _)) in Hrun by lia. split; [lia|]. by split.
  - unfold after_block in Hrun. rewrite (proj2 (Z.ltb_lt b _)) in Hrun by lia.
    rewrite wrap64_id in Hrun by (unfold is_u64 in *; lia).
    set (r1 := r <| state := _ |> <| blockchain_items := _ |>) in Hrun.
    destruct (IH (f <| fetch_peer_idx := j |> <| to_receive := Some r1 |>) r1 (b + 1))
      as (m2 & j2 & Hm2 & Hj2 & Hrun2); [by destruct Hat|done|done|cbn; lia|lia|done| |].
    { intros b' Hb'. apply Hall. cbn in Hb'. lia. }
    exists (m + m2)%nat, j2.
    assert (Hseq : seqZ b (Z.of_nat (S (S k))) = b :: seqZ (b + 1) (Z.of_nat (S k))).
    { rewrite (seqZ_cons b) by lia. f_equal. f_equal; lia. }
    split; [unfold n_items in *; rewrite Hseq; cbn [foldr]; lia|]. split; [done|].
    pose proof (runs_trans _ _ _ _ _ _ _ Hrun Hrun2) as H. rewrite Hseq. exact H.
Qed.
End catch_up.

Lemma catch_up_done serve f n : to_receive f = None → catch_up serve n f = ([], f).
Proof.
  intros Hr. destruct n; [done|]. cbn. unfold get_fetch_peer_and_key. rewrite Hr. cbn.
  by destruct (storage_nodes f !! fetch_peer_idx f).
Qed.

(** C9: liveness of the catch-up.  When every item of the missing blocks is held
    by at least one peer, the others answering with the same item or an empty
    one, then asking for the next key of the first peer, and turning to the
    next peer on an empty answer, completes the fetch within one request per
    peer and item, and hands over every missing block, in order, with all its
    transactions.  The peers are then as before but for the one asked. *)
Theorem catch_up_complete (serve : SocketAddr → string → BlockchainItem)
    (block_item : Z → BlockchainItem) (tx_item : Z → Z → BlockchainItem) (tx_len : Z → Z)
    (f f1 : StorageFetch) (target : Z) :
  is_u64 target → last_is_u64 f → (fetch_peer_idx f < length (storage_nodes f))%nat →
  fetch_missing_blockchain_items f target = (true, f1) →
  (∀ b, next_contiguous f ≤ b ≤ target → block_served serve (storage_nodes f) block_item tx_item tx_len b) →
  let missing := Z.to_nat (target + 1 - next_contiguous f) in
  ∀ n, (length (storage_nodes f) * n_items tx_len (next_contiguous f) missing <= n)%nat →
  ∃ f2, catch_up serve n f1 =
      (map (block_chain block_item tx_item tx_len) (seqZ (next_contiguous f) (Z.of_nat missing)), f2) ∧
    is_complete f2 = true ∧ storage_nodes f2 = storage_nodes f ∧
    last_contiguous_block_num f2 = last_contiguous_block_num f.
Proof.
  intros Ht Hl Hi Hf Hall missing n Hn.
  destruct (fetch_started f target f1 Ht Hl Hf) as (Hr & (_ & Hb & _) & Hidx & Hnodes & Hlast). cbn in Hb.
  assert (Hmis : missing = S (Z.to_nat (target - next_contiguous f))) by (unfold missing; lia).
  destruct (run_blocks serve (storage_nodes f) block_item tx_item tx_len (Z.to_nat (target - next_contiguous f))
    f1 (new_block_fetch (next_contiguous f) target) (next_contiguous f)) as (m & j & Hm & Hj & Hrun);
    [by unfold at_peer; rewrite Hidx|done|done|cbn; lia|lia|done|intros b' Hb'; apply Hall; cbn in Hb'; lia|].
  rewrite Hmis in *. specialize (Hrun (n - m)%nat). replace (m + (n - m))%nat with n in Hrun by lia.
  rewrite (catch_up_done serve _ (n - m)%nat) in Hrun by done. rewrite app_nil_r in Hrun.
  eexists. split; [exact Hrun|]. by split_and!.
Qed.

(** The key asked for identifies the item: no two requests share a key. *)
Lemma get_key_identifies s1 s2 k : get_key s1 = Some k → get_key s2 = Some k →
  match s1 with WaitBlock b => is_u64 b | WaitTxs b st en => is_u64 b ∧ 0 ≤ st ∧ en < 2 ^ 32 | _ => True end →
  match s2 with WaitBlock b => is_u64 b | WaitTxs b st en => is_u64 b ∧ 0 ≤ st ∧ en < 2 ^ 32 | _ => True end →
  match s1, s2 with
  | WaitBlock b1, WaitBlock b2 => b1 = b2
  | WaitTxs b1 st1 _, WaitTxs b2 st2 _ => b1 = b2 ∧ st1 = st2
  | _, _ => False
  end.
Proof.
  destruct s1 as [|b1|b1 st1 en1|b1], s2 as [|b2|b2 st2 en2|b2]; cbn; try done;
    repeat match goal with |- context [?x <? ?y] => destruct (Z.ltb_spec x y); try done end; intros E1 E2 H1 H2;
    rewrite <-E2 in E1; apply (inj Some) in E1.
  - by apply indexed_block_hash_key_inj.
  - by apply indexed_keys_ne in E1.
  - symmetry in E1. by apply indexed_keys_ne in E1.
  - destruct H1 as (? & ? & ?), H2 as (? & ? & ?). apply indexed_tx_hash_key_inj; (done || lia).
Qed.

Module FetchExamples.
Definition p1 : SocketAddr := AddrV4 1 1.
Definition p2 : SocketAddr := AddrV4 2 2.
Definition blk (b : Z) : BlockchainItem := mkBlockchainItem 5 (MetaBlock b 1) [b + 1] [] [].
Definition tx (b i : Z) : BlockchainItem := mkBlockchainItem 5 (MetaTx b i) [b + 1; i] [] [].
(** [p1] has the block, [p2] its transaction. *)
Definition serve (p : SocketAddr) (k : string) : BlockchainItem :=
  if decide (p = p1 ∧ k = indexed_block_hash_key 0) then blk 0
  else if decide (p = p2 ∧ k = indexed_tx_hash_key 0 0) then tx 0 0
  else BlockchainItem_default.
Definition f0 : StorageFetch := StorageFetch_new [p1; p2; AddrV4 3 3] (AddrV4 3 3).

Lemma block_0_served : block_served serve (storage_nodes f0) blk tx (λ _, 1) 0.
Proof.
  assert (Hin : ∀ p, p ∈ storage_nodes f0 → p = p1 ∨ p = p2).
  { intros p Hp. cbn in Hp. repeat (apply elem_of_cons in Hp as [->|Hp]; [auto|]). by apply elem_of_nil in Hp. }
  assert (H1 : p1 ∈ storage_nodes f0) by (cbn; left). assert (H2 : p2 ∈ storage_nodes f0) by (cbn; right; left).
  split; [|split; [done|split; [done|]]].
  - split; [done|]. split; [|by exists p1]. intros p [->| ->]%Hin; [by left|by right].
  - intros i Hi. assert (i = 0) as -> by lia. split; [|done]. split; [done|]. split; [|by exists p2].
    intros p [->| ->]%Hin; [by right|by left].
Qed.

Lemma catch_up_complete_witness :
  ∃ f1 f2, fetch_missing_blockchain_items f0 0 = (true, f1) ∧
    catch_up serve 4 f1 = ([(0, [blk 0; tx 0 0])], f2) ∧ is_complete f2 = true.
Proof.
  eexists. destruct (catch_up_complete serve blk tx (λ _, 1) f0 (fetch_missing_blockchain_items f0 0).2 0)
    with (n := 4%nat) as (f2 & H1 & H2 & _).
  - by split.
  - exact I.
  - apply Nat.ltb_lt. reflexivity.
  - reflexivity.
  - intros b Hb. assert (b = 0) as -> by (cbn in Hb; lia). exact block_0_served.
  - apply Nat.leb_le. vm_compute. reflexivity.
  - exists f2. split; [reflexivity|]. split; [exact H1|exact H2].
Defined.

Lemma fetched_chains_wf_witness :
  ∃ n, 0 ≤ n ∧ [(0, [blk 0; tx 0 0])].*1 = seqZ (next_contiguous f0) n ∧ Forall chain_wf [(0, [blk 0; tx 0 0])].
Proof.
  destruct (fetched_chains_wf f0 (fetch_missing_blockchain_items f0 0).2
    (receive_all (fetch_missing_blockchain_items f0 0).2 [tx 0 0; blk 0; blk 0; tx 0 0]).2 0
    [tx 0 0; blk 0; blk 0; tx 0 0] [(0, [blk 0; tx 0 0])]) as (n & H1 & H2 & H3 & _).
  - by split.
  - exact I.
  - reflexivity.
  - reflexivity.
  - exists n. split; [exact H1|]. split; [exact H2|exact H3].
Defined.
End FetchExamples.
