(* ===== verification/StorageRaft.v ===== *)
(** * The storage node's consensus: [StorageRaft] of [src/storage_raft.rs]

    Compute nodes send the block each of them mined; the storage nodes commit
    these parts through raft and store the block that a majority of them sent.
    The names are those of the source; the compute node's counterparts of the
    same name are in [ComputeRaft]. *)
From S2P Require Import Prelude Externals Utils Unicorn Interfaces ActiveRaft RaftUtil.

#[export] Instance MinedBlockExtraInfo_eq_dec : EqDecision MinedBlockExtraInfo.
Proof. solve_decision. Defined.

(** Mined block received. *)
Record ReceivedBlock := mkReceivedBlock {
  rb_peer : SocketAddr; rb_common : CommonBlockInfo; rb_per_node : MinedBlockExtraInfo }.
Inductive StorageRaftItem := PartBlock (block : ReceivedBlock).
Inductive CommittedItem := CommittedBlock | CommittedSnapshot.

Record CompleteBlock := mkCompleteBlock { common : CommonBlockInfo; extra_info : MinedBlockExtraInfo }.
Record CompleteBlockBuilder := mkCompleteBlockBuilder {
  cbb_common : CommonBlockInfo; per_node : gmap Z MinedBlockExtraInfo }.
#[export] Instance eta_CompleteBlockBuilder : Eta CompleteBlockBuilder := λ r,
  mkCompleteBlockBuilder (cbb_common r) (per_node r).

Record StorageConsensused := mkStorageConsensused {
  sufficient_majority : Z;
  current_block_num : Z;
  current_block_completed_parts : gmap (list Z) CompleteBlockBuilder;
  last_committed_raft_idx_and_term : Z * Z;
  last_block_stored : option BlockStoredInfo;
}.
#[export] Instance eta_StorageConsensused : Eta StorageConsensused := λ r,
  mkStorageConsensused (sufficient_majority r) (current_block_num r) (current_block_completed_parts r)
    (last_committed_raft_idx_and_term r) (last_block_stored r).
Definition StorageConsensused_default : StorageConsensused := mkStorageConsensused 0 0 ∅ (0, 0) None.

Record StorageConsensusedImport := mkStorageConsensusedImport {
  import_sufficient_majority : Z;
  import_current_block_num : Z;
  import_last_committed_raft_idx_and_term : Z * Z;
  import_last_block_stored : option BlockStoredInfo;
}.

Record StorageRaft (M : Type) := mkStorageRaft {
  first_raft_peer : bool;
  raft_active : ActiveRaft M;
  consensused : StorageConsensused;
  consensused_snapshot_applied : bool;
  in_flight : RaftInFlightProposals;
  shutdown_no_commit_process : bool;
  backup_check : BackupCheck;
}.
Arguments mkStorageRaft {M}. Arguments first_raft_peer {M}. Arguments raft_active {M}.
Arguments consensused {M}. Arguments consensused_snapshot_applied {M}. Arguments in_flight {M}.
Arguments shutdown_no_commit_process {M}. Arguments backup_check {M}.
#[export] Instance eta_StorageRaft M : Eta (StorageRaft M) := λ r,
  mkStorageRaft (first_raft_peer r) (raft_active r) (consensused r) (consensused_snapshot_applied r)
    (in_flight r) (shutdown_no_commit_process r) (backup_check r).

(** The configuration fields that [StorageRaft::new] reads. *)
Record StorageRaftConfig := mkStorageRaftConfig {
  storage_raft : Z;
  storage_node_idx : nat;
  config_storage_nodes : list SocketAddr;
  storage_backup_block_modulo : option Z;
}.

(** ** The consensused fields *)
Section consensused.
Context `{Naom, Bincode CommonBlockInfo}.
Implicit Types c : StorageConsensused.

Definition with_peers_len c (peers_len : Z) : StorageConsensused :=
  c <| sufficient_majority := peers_len / 2 + 1 |>.

Definition from_import (i : StorageConsensusedImport) : StorageConsensused :=
  mkStorageConsensused (import_sufficient_majority i) (import_current_block_num i) ∅
    (import_last_committed_raft_idx_and_term i) (import_last_block_stored i).
Definition into_import c : StorageConsensusedImport :=
  mkStorageConsensusedImport (sufficient_majority c) (current_block_num c)
    (last_committed_raft_idx_and_term c) (last_block_stored c).

Definition is_current_block c (block_num : Z) : bool := block_num =? current_block_num c.

Definition has_block_ready_to_store c : bool :=
  let completed_blocks_len :=
    Z.of_nat (max_or_0 (map (λ v, size (per_node v)) (bt_values (current_block_completed_parts c)))) in
  sufficient_majority c <=? completed_blocks_len.

Definition common_hash (common : CommonBlockInfo) : list Z := sha3_256 (serialize common).

Definition append_received_block c (key : RaftContextKey) (block : ReceivedBlock) : StorageConsensused :=
  let block_hash := common_hash (rb_common block) in
  c <| current_block_completed_parts ::= λ m,
    let builder := default (mkCompleteBlockBuilder (rb_common block) ∅) (m !! block_hash) in
    <[block_hash := builder <| per_node ::= <[proposer_id key := rb_per_node block]> |>]> m |>.

Definition generate_complete_block c : outcome (CompleteBlock * StorageConsensused) :=
  let completed_parts := current_block_completed_parts c in
  let c := c <| current_block_num ::= λ n, wrap64 (n + 1) |> <| current_block_completed_parts := ∅ |> in
  let! parts := unwrap (max_by_key (λ kv, size (per_node kv.2)) (bt_iter completed_parts)) in
  Ret (mkCompleteBlock (cbb_common parts.2)
         (mkMinedBlockExtraInfo (forallb extra_shutdown (bt_values (per_node parts.2)))), c).

Definition get_last_block_stored c : option BlockStoredInfo := last_block_stored c.
End consensused.

(** ** The node *)
Section storage_raft.
Context `{Naom, Bincode CommonBlockInfo, Bincode RaftContextKey, Bincode StorageRaftItem,
  Bincode StorageConsensused}.
Context {M : Type}.
Implicit Types r : StorageRaft M.

Definition StorageRaft_new (config : StorageRaftConfig) : outcome (StorageRaft M) :=
  let use := negb (storage_raft config =? 0) in
  let! ra := ActiveRaft_new (storage_node_idx config) (config_storage_nodes config) use in
  let first_raft_peer := (Nat.eqb (storage_node_idx config) 0) || negb use in
  Ret (mkStorageRaft first_raft_peer ra (with_peers_len StorageConsensused_default (peers_len ra)) (negb use)
    RaftInFlightProposals_default false (mkBackupCheck (storage_backup_block_modulo config))).

Definition sr_set_key_run r (key_run : Z) : StorageRaft M := r <| in_flight ::= λ p, set_key_run p key_run |>.
Definition need_initial_state r : bool := negb (consensused_snapshot_applied r).
Definition sr_next_commit r : option (RaftCommit * StorageRaft M) :=
  '(c, ra) ← next_commit (raft_active r); Some (c, r <| raft_active := ra |>).
Definition sr_received_message r (msg : M) : StorageRaft M :=
  r <| raft_active ::= λ ra, received_message ra msg |>.

Definition propose_item_dedup r (item : StorageRaftItem) (b_num : Z) :
    outcome (option RaftContextKey * StorageRaft M) :=
  let! x := propose_item (in_flight r) (raft_active r) item (Some b_num) in
  Ret (x.1.1, r <| in_flight := x.1.2 |> <| raft_active := x.2 |>).

Definition propose_received_part_block r (peer : SocketAddr) (common : CommonBlockInfo)
    (mined_info : MinedBlockExtraInfo) : outcome (bool * StorageRaft M) :=
  let b := b_num (header (cb_block common)) in
  let! x := propose_item_dedup r (PartBlock (mkReceivedBlock peer common mined_info)) b in
  Ret (bool_decide (is_Some x.1), x.2).

Definition sr_re_propose_uncommitted_current_b_num r : StorageRaft M :=
  r <| raft_active ::= λ ra,
    re_propose_uncommitted_current_b_num (in_flight r) ra (current_block_num (consensused r)) |>.

Definition set_ignore_dedeup_b_num_less_than_current r : StorageRaft M :=
  r <| in_flight ::= λ p, ignore_dedeup_b_num_less_than p (current_block_num (consensused r)) |>.

Definition sr_need_backup r : outcome bool :=
  match get_last_block_stored (consensused r) with
  | Some b => need_backup (backup_check r) (bs_block_num b)
  | None => Ret false
  end.

Definition event_processed_generate_snapshot r (block_stored : BlockStoredInfo) : outcome (StorageRaft M) :=
  let r := set_ignore_dedeup_b_num_less_than_current r in
  let shutdown := bs_shutdown block_stored in
  let r := r <| consensused ::= λ c, c <| last_block_stored := Some block_stored |> |> in
  let consensused_ser := serialize (consensused r) in
  let snapshot_idx := (last_committed_raft_idx_and_term (consensused r)).1 in
  let! backup := sr_need_backup r in
  let r := r <| raft_active ::= λ ra, create_snapshot ra snapshot_idx consensused_ser backup |> in
  Ret (if shutdown then r <| shutdown_no_commit_process := true |> else r).

Definition sr_generate_complete_block r : outcome (CompleteBlock * StorageRaft M) :=
  let! x := generate_complete_block (consensused r) in
  Ret (x.1, r <| consensused := x.2 |>).

Definition is_shutdown_commit_processed r : bool := shutdown_no_commit_process r.

(** *** Processing of the log *)
Definition apply_snapshot r (consensused_ser : list Z) : outcome (option CommittedItem * StorageRaft M) :=
  let r := r <| consensused_snapshot_applied := true |> in
  match consensused_ser with
  | [] => Ret (None, r)
  | _ =>
      let! c := unwrap (deserialize consensused_ser) in
      Ret (Some CommittedSnapshot, set_ignore_dedeup_b_num_less_than_current (r <| consensused := c |>))
  end.

Definition commit_item r (key : RaftContextKey) (item : StorageRaftItem) : option CommittedItem * StorageRaft M :=
  let r := match item with
           | PartBlock block =>
               if is_current_block (consensused r) (b_num (header (cb_block (rb_common block))))
               then r <| consensused ::= λ c, append_received_block c key block |>
               else r
           end in
  (if has_block_ready_to_store (consensused r) then Some CommittedBlock else None, r).

Definition sr_received_commit_proposal r (raft_data raft_ctx : list Z) : option CommittedItem * StorageRaft M :=
  let '(committed, p) := received_commit_proposal (Item := StorageRaftItem) (in_flight r) raft_data raft_ctx in
  let r := r <| in_flight := p |> in
  match committed with
  | None => (None, r)
  | Some (key, item, _) => commit_item r key item
  end.

Definition received_commit r (commit : RaftCommit) : outcome (option CommittedItem * StorageRaft M) :=
  let r := r <| consensused ::= λ c, c <| last_committed_raft_idx_and_term := (index commit, term commit) |> |> in
  match commit_data commit with
  | Proposed data context => Ret (sr_received_commit_proposal r data context)
  | Snapshot data => apply_snapshot r data
  | NewLeader => Ret (None, r <| raft_active ::= λ ra, re_propose_all_items (in_flight r) ra |>)
  end.
End storage_raft.

(** ** The parts of the current block *)
Section parts.
Context `{Naom, Bincode CommonBlockInfo}.
Implicit Types (c : StorageConsensused) (l : list (RaftContextKey * ReceivedBlock)).

Definition append_all c l : StorageConsensused := foldl (λ c kb, append_received_block c kb.1 kb.2) c l.
Definition same_block (h : list Z) (kb : RaftContextKey * ReceivedBlock) : Prop := common_hash (rb_common kb.2) = h.
#[local] Instance same_block_dec h kb : Decision (same_block h kb).
Proof. unfold same_block. apply _. Defined.
Definition node_infos l : gmap Z MinedBlockExtraInfo :=
  map_extend ∅ (map (λ kb, (proposer_id kb.1, rb_per_node kb.2)) l).

Lemma append_parts c key block h :
  current_block_completed_parts (append_received_block c key block) !! h =
    if decide (common_hash (rb_common block) = h)
    then let builder := default (mkCompleteBlockBuilder (rb_common block) ∅) (current_block_completed_parts c !! h) in
      Some (builder <| per_node ::= <[proposer_id key := rb_per_node block]> |>)
    else current_block_completed_parts c !! h.
Proof. unfold append_received_block. cbn. rewrite lookup_insert. case_decide; [by subst|done]. Qed.

(** Whatever the order of the parts, the builder of a hash holds the first
    block of this hash and, for each node that sent it, its last extra info. *)
Lemma parts_exact c l h : current_block_completed_parts c = ∅ →
  current_block_completed_parts (append_all c l) !! h =
    match filter (same_block h) l with
    | [] => None
    | (kb :: _) as votes => Some (mkCompleteBlockBuilder (rb_common kb.2) (node_infos votes))
    end.
Proof.
  intros Hc. induction l as [|[key b] l IH] using rev_ind; [cbn; by rewrite Hc|].
  unfold append_all. rewrite foldl_snoc. fold (append_all c l). cbn [fst snd]. rewrite append_parts, filter_app, IH.
  clear IH. case_decide as Eh.
  - rewrite (filter_cons_True _ (key, b)) by exact Eh.
    destruct (filter (same_block h) l) as [|kb votes]; cbn [app default]; [done|].
    change (node_infos (kb :: votes ++ (key, b) :: filter (same_block h) [])) with
      (map_extend ∅ (map (λ kb, (proposer_id kb.1, rb_per_node kb.2)) ((kb :: votes) ++ [(key, b)]))).
    unfold map_extend. rewrite map_app, foldl_app. reflexivity.
  - rewrite (filter_cons_False _ (key, b)) by exact Eh. by rewrite app_nil_r.
Qed.

Lemma node_infos_dom l : dom (node_infos l) = list_to_set (map (λ kb, proposer_id kb.1) l).
Proof.
  unfold node_infos. induction l as [|kb l IH] using rev_ind; [done|].
  unfold map_extend in *. rewrite !map_app, foldl_app. cbn. rewrite dom_insert_L, IH.
  rewrite list_to_set_app_L. cbn. set_solver.
Qed.

(** Nodes that sent a block of hash [h]. *)
Definition senders l (h : list Z) : gset Z := list_to_set (map (λ kb, proposer_id kb.1) (filter (same_block h) l)).

Lemma parts_senders c l h builder : current_block_completed_parts c = ∅ →
  current_block_completed_parts (append_all c l) !! h = Some builder →
  common_hash (cbb_common builder) = h ∧ size (per_node builder) = size (senders l h) ∧
  per_node builder = node_infos (filter (same_block h) l).
Proof.
  intros Hc. rewrite (parts_exact c l h Hc). unfold senders.
  destruct (filter (same_block h) l) as [|kb votes] eqn:Ef; [done|]. intros [= <-]. cbn [cbb_common per_node].
  assert (Hkb : kb ∈ filter (same_block h) l) by (rewrite Ef; left). apply list_elem_of_filter in Hkb as [Hkb _].
  split; [exact Hkb|]. split; [|done]. by rewrite <-size_dom, node_infos_dom.
Qed.

Lemma append_all_fields c l : sufficient_majority (append_all c l) = sufficient_majority c ∧
  current_block_num (append_all c l) = current_block_num c ∧ last_block_stored (append_all c l) = last_block_stored c.
Proof. revert c. induction l as [|kb l IH]; intros c; [done|]. apply (IH (append_received_block c kb.1 kb.2)). Qed.

(** When a block is ready to be stored, one is produced: the one most nodes
    sent, sent by at least a majority, each node counted once however often it
    sent it.  The node moves to the next block number and drops all parts, and
    the block asks for a shutdown exactly when the last part of every node
    that sent it did. *)
Theorem complete_block_majority c l :
  1 ≤ sufficient_majority c → current_block_completed_parts c = ∅ →
  has_block_ready_to_store (append_all c l) = true →
  ∃ block c', generate_complete_block (append_all c l) = Ret (block, c') ∧
    let h := common_hash (common block) in
    sufficient_majority c ≤ zcard (senders l h) ∧
    (∀ h', zcard (senders l h') ≤ zcard (senders l h)) ∧
    (extra_shutdown (extra_info block) = true ↔
      ∀ p i, node_infos (filter (same_block h) l) !! p = Some i → extra_shutdown i = true) ∧
    current_block_num c' = wrap64 (current_block_num c + 1) ∧ current_block_completed_parts c' = ∅.
Proof.
  intros Hmaj Hc Hready. unfold has_block_ready_to_store in Hready. apply Z.leb_le in Hready.
  destruct (append_all_fields c l) as (Hm & Hn & _). rewrite Hm in Hready.
  set (parts := current_block_completed_parts (append_all c l)) in *.
  destruct (max_or_0_spec (map (λ v, size (per_node v)) (bt_values parts))
    (max_or_0 (map (λ v, size (per_node v)) (bt_values parts)))) as [Hmax _].
  destruct (Hmax ltac:(lia)) as [?|(x & Hx & Hle)]; [lia|].
  apply list_elem_of_fmap in Hx as (v & -> & Hv). apply elem_of_bt_values in Hv as [h0 Hh0].
  assert (Hne : bt_iter parts ≠ []) by (intros E; apply bt_iter_nil in E; rewrite E in Hh0; by apply lookup_empty_Some in Hh0).
  destruct (max_by_key_is_Some (λ kv, size (per_node kv.2)) _ Hne) as [[h b] Hb].
  destruct (max_by_key_spec _ _ _ Hb) as [Hin Hall]. apply elem_of_bt_iter in Hin.
  destruct (parts_senders c l h b Hc Hin) as (Hh & Hs & Hp).
  exists (mkCompleteBlock (cbb_common b) (mkMinedBlockExtraInfo (forallb extra_shutdown (bt_values (per_node b))))).
  eexists. split; [unfold generate_complete_block; fold parts; rewrite Hb; reflexivity|]. cbn [common extra_info extra_shutdown].
  cbv zeta. rewrite Hh. split_and!.
  - specialize (Hall (h0, v)). rewrite elem_of_bt_iter in Hall. specialize (Hall Hh0). cbn in Hall. unfold zcard. lia.
  - intros h'. destruct (parts !! h') as [b'|] eqn:E'.
    + destruct (parts_senders c l h' b' Hc E') as (_ & Hs' & _).
      specialize (Hall (h', b')). rewrite elem_of_bt_iter in Hall. specialize (Hall E'). cbn in Hall. unfold zcard. lia.
    + unfold parts in E'. rewrite (parts_exact c l h' Hc) in E'. unfold senders at 1.
      destruct (filter (same_block h') l); [|done]. unfold zcard. cbn. rewrite size_empty. lia.
  - rewrite forallb_forall, <-Hp. split.
    + intros Hf p i Hpi. apply Hf, list_elem_of_In, elem_of_bt_values. by exists p.
    + intros Hf i Hi. apply list_elem_of_In, elem_of_bt_values in Hi as [p Hpi]. by eapply Hf.
  - cbn. by rewrite Hn.
  - done.
Qed.
End parts.

(** ** One block per block number, in order *)
Definition block_number (c : CommonBlockInfo) : Z := b_num (header (cb_block c)).

(** Between two commits: parts of the current block only, none with a majority. *)
Definition consensused_wf (c : StorageConsensused) : Prop :=
  1 ≤ sufficient_majority c ∧
  ∀ h b, current_block_completed_parts c !! h = Some b →
    block_number (cbb_common b) = current_block_num c ∧ Z.of_nat (size (per_node b)) < sufficient_majority c.

Section sequence.
Context `{Naom, Bincode CommonBlockInfo, Bincode RaftContextKey, Bincode StorageRaftItem,
  Bincode StorageConsensused}.
Context {M : Type}.
Implicit Types (r : StorageRaft M) (c : StorageConsensused).

Lemma ready_iff c : 1 ≤ sufficient_majority c →
  has_block_ready_to_store c = true ↔
  ∃ h b, current_block_completed_parts c !! h = Some b ∧ sufficient_majority c ≤ Z.of_nat (size (per_node b)).
Proof.
  intros Hm. unfold has_block_ready_to_store. rewrite Z.leb_le. set (parts := current_block_completed_parts c).
  set (sizes := map (λ v, size (per_node v)) (bt_values parts)).
  pose proof (max_or_0_spec sizes (Z.to_nat (sufficient_majority c))) as Hmax. split.
  - intros Hle. destruct (proj1 Hmax ltac:(lia)) as [?|(x & Hx & Hxle)]; [lia|].
    apply list_elem_of_fmap in Hx as (v & -> & Hv). apply elem_of_bt_values in Hv as [h Hh].
    exists h, v. split; [done|]. lia.
  - intros (h & b & Hh & Hle). enough (Z.to_nat (sufficient_majority c) <= max_or_0 sizes)%nat by lia.
    apply Hmax. right. exists (size (per_node b)). split; [|lia].
    apply list_elem_of_fmap. exists b. split; [done|]. apply elem_of_bt_values. by exists h.
Qed.

(** A part of the current block: still below the majority, or a block is ready. *)
Lemma append_received_wf c key block : consensused_wf c → block_number (rb_common block) = current_block_num c →
  let c' := append_received_block c key block in
  (∀ h b, current_block_completed_parts c' !! h = Some b → block_number (cbb_common b) = current_block_num c) ∧
  (has_block_ready_to_store c' = false → consensused_wf c').
Proof.
  intros [Hm Hwf] Hb c'.
  assert (Hnum : ∀ h b, current_block_completed_parts c' !! h = Some b → block_number (cbb_common b) = current_block_num c).
  { intros h b. unfold c'. rewrite append_parts. case_decide as E; [|by intros [? _]%Hwf].
    intros [= <-]. cbn. destruct (current_block_completed_parts c !! h) as [b0|] eqn:E0; cbn; [by apply (Hwf h b0)|done]. }
  split; [done|]. intros Hr. split; [done|]. intros h b Hh. split; [by apply (Hnum h)|].
  destruct (Z.lt_ge_cases (Z.of_nat (size (per_node b))) (sufficient_majority c')) as [?|Hge]; [done|].
  enough (has_block_ready_to_store c' = true) by congruence. apply ready_iff; [done|]. by exists h, b.
Qed.

Lemma generate_ready c n : 1 ≤ sufficient_majority c → has_block_ready_to_store c = true →
  (∀ h b, current_block_completed_parts c !! h = Some b → block_number (cbb_common b) = n) →
  ∃ block c', generate_complete_block c = Ret (block, c') ∧ consensused_wf c' ∧ block_number (common block) = n ∧
    current_block_num c' = wrap64 (current_block_num c + 1) ∧ current_block_completed_parts c' = ∅ ∧
    last_committed_raft_idx_and_term c' = last_committed_raft_idx_and_term c ∧
    ∃ h b, current_block_completed_parts c !! h = Some b ∧ common block = cbb_common b.
Proof.
  intros Hm Hr Hn. apply ready_iff in Hr as (h0 & b0 & Hh0 & _); [|done]. unfold generate_complete_block.
  assert (Hne : bt_iter (current_block_completed_parts c) ≠ []).
  { intros E; apply bt_iter_nil in E. rewrite E in Hh0. by apply lookup_empty_Some in Hh0. }
  destruct (max_by_key_is_Some (λ kv, size (per_node kv.2)) _ Hne) as [[h b] Hb]. rewrite Hb. cbn [unwrap obind].
  destruct (max_by_key_spec _ _ _ Hb) as [Hin _]. apply elem_of_bt_iter in Hin.
  eexists _, _. split; [reflexivity|]. split.
  { split; [done|]. cbn. intros h' b' Hb'. by apply lookup_empty_Some in Hb'. }
  split; [by apply (Hn h)|]. split_and!; [done..|]. by exists h, b.
Qed.

(** A committed part, for a property [P] that the blocks of the parts have. *)
Definition parts_all (P : CommonBlockInfo → Prop) c : Prop :=
  ∀ h b, current_block_completed_parts c !! h = Some b → P (cbb_common b).

Lemma append_parts_all P c key block : parts_all P c → P (rb_common block) →
  parts_all P (append_received_block c key block).
Proof.
  intros Hall Hb h b. rewrite append_parts. case_decide; [|apply Hall]. intros [= <-]. cbn.
  destruct (current_block_completed_parts c !! h) as [b0|] eqn:E0; cbn; [by apply (Hall h)|done].
Qed.

Lemma commit_item_cases P r key block : consensused_wf (consensused r) → parts_all P (consensused r) →
  P (rb_common block) →
  let '(res, r') := commit_item r key (PartBlock block) in
  in_flight r' = in_flight r ∧ backup_check r' = backup_check r ∧ raft_active r' = raft_active r ∧
  shutdown_no_commit_process r' = shutdown_no_commit_process r ∧
  match res with
  | None => consensused_wf (consensused r') ∧ parts_all P (consensused r') ∧
      current_block_num (consensused r') = current_block_num (consensused r) ∧
      last_block_stored (consensused r') = last_block_stored (consensused r) ∧
      last_committed_raft_idx_and_term (consensused r') = last_committed_raft_idx_and_term (consensused r)
  | Some CommittedBlock =>
      ∃ b c', sr_generate_complete_block r' = Ret (b, r' <| consensused := c' |>) ∧ consensused_wf c' ∧
        current_block_completed_parts c' = ∅ ∧ block_number (common b) = current_block_num (consensused r) ∧
        P (common b) ∧ current_block_num c' = wrap64 (current_block_num (consensused r) + 1) ∧
        last_committed_raft_idx_and_term c' = last_committed_raft_idx_and_term (consensused r)
  | Some CommittedSnapshot => False
  end.
Proof.
  intros Hwf Hall HP. unfold commit_item.
  destruct (is_current_block (consensused r) (b_num (header (cb_block (rb_common block))))) eqn:Ec.
  - apply Z.eqb_eq in Ec. destruct (append_received_wf (consensused r) key block Hwf Ec) as [Hnum Hnr].
    pose proof (append_parts_all P (consensused r) key block Hall HP) as Hall'.
    set (r1 := r <| consensused ::= λ c, append_received_block c key block |>).
    change (consensused r1) with (append_received_block (consensused r) key block).
    split_and!; [done..|].
    destruct (has_block_ready_to_store (append_received_block (consensused r) key block)) eqn:Er.
    + destruct (generate_ready _ (current_block_num (consensused r)) (proj1 Hwf : 1 ≤ sufficient_majority
        (append_received_block (consensused r) key block)) Er Hnum)
        as (b & c' & Hg & Hwf' & Hbn & Hcn & Hemp & Hi & h0 & b0 & Hb0 & Hbc).
      exists b, c'. unfold sr_generate_complete_block.
      change (consensused r1) with (append_received_block (consensused r) key block).
      rewrite Hg. cbn [obind fst snd]. split_and!; try done. rewrite Hbc. by apply (Hall' h0).
    + split; [by apply Hnr|done].
  - cbv iota zeta. split_and!; [done..|]. destruct (has_block_ready_to_store (consensused r)) eqn:Er; [|done].
    apply ready_iff in Er as (h & b & Hh & Hle); [|apply Hwf]. apply Hwf in Hh as [_ Hlt]. lia.
Qed.

(** Processing the log never panics and stores the blocks in sequence.  A
    committed proposal either changes neither the block number nor the block
    stored, or makes exactly the block of the current number available and
    moves to the next number; a part of any other block is dropped. *)
Theorem commit_in_sequence r (i t : Z) (data ctx : list Z) :
  consensused_wf (consensused r) →
  match received_commit r (mkRaftCommit t i (Proposed data ctx)) with
  | Panic => False
  | Ret (None, r') =>
      consensused_wf (consensused r') ∧ current_block_num (consensused r') = current_block_num (consensused r) ∧
      last_block_stored (consensused r') = last_block_stored (consensused r) ∧
      last_committed_raft_idx_and_term (consensused r') = (i, t)
  | Ret (Some CommittedSnapshot, _) => False
  | Ret (Some CommittedBlock, r') =>
      ∃ block r'', sr_generate_complete_block r' = Ret (block, r'') ∧ consensused_wf (consensused r'') ∧
        block_number (common block) = current_block_num (consensused r) ∧
        current_block_num (consensused r'') = wrap64 (current_block_num (consensused r) + 1) ∧
        last_committed_raft_idx_and_term (consensused r'') = (i, t)
  end.
Proof.
  intros Hwf. unfold received_commit. cbn [commit_data index term]. unfold sr_received_commit_proposal.
  set (r0 := r <| consensused ::= _ |>).
  assert (Hwf0 : consensused_wf (consensused r0)) by exact Hwf.
  destruct (received_commit_proposal (in_flight r0) data ctx) as [[[[key [block]] removed]|] p]; [|done].
  set (r1 := r0 <| in_flight := p |>).
  pose proof (commit_item_cases (λ _, True) r1 key block Hwf0 (λ _ _ _, I) I) as Hc.
  destruct (commit_item r1 key (PartBlock block)) as [[[]|] r'];
    destruct Hc as (_ & _ & _ & _ & Hc); [|done|].
  - destruct Hc as (b & c' & Hg & Hwf' & _ & Hn & _ & Hcn & Hi). exists b, (r' <| consensused := c' |>). done.
  - destruct Hc as (Hwf' & _ & Hc). done.
Qed.
End sequence.

Module StorageRaftExamples.
Import TestExternals.
#[export] Instance bc_common : Bincode CommonBlockInfo := {| serialize c := [b_num (header (cb_block c))]; deserialize _ := None |}.
#[export] Instance bc_key : Bincode RaftContextKey :=
  {| serialize := RaftContextKey_code; deserialize := RaftContextKey_decode |}.
Definition block7 (n : Z) : CommonBlockInfo :=
  mkCommonBlockInfo (mkBlock (empty_header <| b_num := n |>) []) ∅ 0 0 (mkUnicorn 0 0 0 1) 0.
#[export] Instance bc_item : Bincode StorageRaftItem :=
  {| serialize '(PartBlock b) := [block_number (rb_common b)];
     deserialize l := n ← head l; Some (PartBlock (mkReceivedBlock (AddrV4 1 1) (block7 n) (mkMinedBlockExtraInfo false))) |}.
#[export] Instance bc_cons : Bincode StorageConsensused := {| serialize c := [current_block_num c]; deserialize _ := None |}.

Definition c7 : StorageConsensused := mkStorageConsensused 2 7 ∅ (0, 0) None.
Definition part (p : Z) (s : bool) : RaftContextKey * ReceivedBlock :=
  (mkRaftContextKey p 0 0, mkReceivedBlock (AddrV4 1 1) (block7 7) (mkMinedBlockExtraInfo s)).

Lemma complete_block_majority_witness :
  ∃ block c', generate_complete_block (append_all c7 [part 1 true; part 1 true; part 2 false]) = Ret (block, c') ∧
    2 ≤ zcard (senders [part 1 true; part 1 true; part 2 false] (common_hash (common block))).
Proof.
  destruct (complete_block_majority c7 [part 1 true; part 1 true; part 2 false]) as (b & c' & H1 & H2 & _).
  - apply Z.leb_le. reflexivity.
  - reflexivity.
  - vm_compute. reflexivity.
  - exists b, c'. split; [exact H1|exact H2].
Defined.

(** One vote already held; a second node's part completes the block. *)
Definition r7 : StorageRaft unit :=
  mkStorageRaft true (mkActiveRaft false 1 [] [] [] [] ∅ [] [] true) (append_all c7 [part 1 false]) true
    (set_key_run RaftInFlightProposals_default 0) false (mkBackupCheck None).
Lemma r7_wf : consensused_wf (consensused r7).
Proof.
  split; [by apply Z.leb_le|]. intros h b. cbn [consensused r7]. rewrite parts_exact by done.
  destruct (decide (common_hash (block7 7) = h)) as [<-|Hne].
  - vm_compute. by intros [= <-].
  - rewrite filter_cons_False by done. done.
Qed.
Lemma commit_in_sequence_witness :
  match received_commit r7 (mkRaftCommit 1 9 (Proposed [7] [2; 0; 0])) with
  | Ret (Some CommittedBlock, r') => ∃ block r'', sr_generate_complete_block r' = Ret (block, r'') ∧
      block_number (common block) = 7 ∧ current_block_num (consensused r'') = 8
  | _ => False
  end.
Proof.
  pose proof (commit_in_sequence r7 9 1 [7] [2; 0; 0] r7_wf) as H.
  destruct (received_commit r7 _) as [[[[]|] r']|] eqn:E; [|exact H| |exact H].
  - destruct H as (b & r'' & H1 & _ & H2 & H3 & _). exists b, r''. split; [exact H1|]. split; [exact H2|exact H3].
  - exfalso. vm_compute in E. discriminate E.
Defined.
End StorageRaftExamples.
