(* ===== verification/BlockStore.v ===== *)
(** * The block chain in the database of a storage node: [src/storage.rs]

    Columns, version pointers, the items of a block and how they are read back.
    Keys and pointers are the bytes of the strings of the source. *)
From S2P Require Import Prelude Externals Utils Unicorn Interfaces DbUtils StorageFetch StorageRaft.

(** ** Columns *)
Definition RAFT_KEY_RUN : string := "RaftKeyRun".
Definition LAST_CONTIGUOUS_BLOCK_KEY : string := "LastContiguousBlockKey".
Definition LAST_BLOCK_HASH_KEY : string := "nLastBlockHashKey".

Definition DB_COL_INTERNAL : string := "internal".
Definition DB_COL_BC_ALL : string := "block_chain_all".
Definition DB_COL_BC_NAMED : string := "block_chain_named".
Definition DB_COL_BC_META : string := "block_chain_meta".
Definition DB_COL_BC_JSON : string := "block_chain_json".
Definition DB_COL_BC_NOW : string := "block_chain_v0.7.0".
Definition DB_COL_BC_V0_6_0 : string := "block_chain_v0.6.0".
Definition DB_COL_BC_V0_5_0 : string := "block_chain_v0.5.0".
Definition DB_COL_BC_V0_4_0 : string := "block_chain_v0.4.0".
Definition DB_COL_BC_V0_3_0 : string := "block_chain_v0.3.0".
Definition DB_COL_BC_V0_2_0 : string := "block_chain_v0.2.0".

Definition DB_COLS_BC : list (string * Z) :=
  [(DB_COL_BC_NOW, 5); (DB_COL_BC_V0_6_0, 4); (DB_COL_BC_V0_5_0, 3);
   (DB_COL_BC_V0_4_0, 2); (DB_COL_BC_V0_3_0, 1); (DB_COL_BC_V0_2_0, 0)].
Definition DB_POINTER_SEPARATOR : Z := 58.

(** The columns of [DB_SPEC]. *)
Definition DB_SPEC_columns : list string :=
  [DB_COL_INTERNAL; DB_COL_BC_ALL; DB_COL_BC_NAMED; DB_COL_BC_META; DB_COL_BC_JSON; DB_COL_BC_NOW;
   DB_COL_BC_V0_6_0; DB_COL_BC_V0_5_0; DB_COL_BC_V0_4_0; DB_COL_BC_V0_3_0; DB_COL_BC_V0_2_0].

(** ** Version pointers *)
Definition version_pointer (cf : string) (key : list Z) : list Z :=
  string_codes cf ++ [DB_POINTER_SEPARATOR] ++ key.

(** [slice::split]: the parts between the separators, at least one. *)
Fixpoint split_at (sep : Z) (l : list Z) : list (list Z) :=
  match l with
  | [] => [[]]
  | c :: l =>
      if c =? sep then [] :: split_at sep l
      else match split_at sep l with
           | part :: parts => (c :: part) :: parts
           | [] => [[c]]
           end
  end.

Definition decode_version_pointer (pointer : list Z) : outcome (Z * string * list Z) :=
  let it := split_at DB_POINTER_SEPARATOR pointer in
  let! cf := unwrap (it !! 0%nat) in
  let! cf_version := unwrap (list_find (λ cv, string_codes cv.1 = cf) DB_COLS_BC) in
  let! key := unwrap (it !! 1%nat) in
  Ret (cf_version.2.2, cf_version.2.1, key).

(** ** Writing *)
Inductive StorageError := ConfigError (s : string) | SerializationError.

Definition all_ordered_stored_block_tx_hashes (transactions : list string)
    (nonce_and_mining_tx_hash : list (list Z * string)) : list (Z * string) :=
  imap (λ idx v, (Z.of_nat idx mod 2 ^ 32, v)) (transactions ++ nonce_and_mining_tx_hash.*2).

Definition get_genesis_tx_in_display (tx : Transaction) : string :=
  match inputs tx with
  | tx_in :: _ => match stack (script_signature tx_in) with Bytes v :: _ => v | _ => EmptyString end
  | [] => EmptyString
  end.

Section block_store.
Context `{Naom, Hex, Bincode BlockHeader, Bincode StoredSerializingBlock, Bincode Transaction,
  Bincode BlockchainItemMeta, Bincode Z, SerdeJson StoredSerializingBlock, SerdeJson Transaction}.

Definition put_to_block_chain_at (batch : WriteBatch) (cf : string) (item_meta : BlockchainItemMeta)
    (key value value_json : list Z) : outcome (list Z * WriteBatch) :=
  let pointer := version_pointer cf key in
  let meta_key := match item_meta with
                  | MetaBlock block_num _ => indexed_block_hash_key block_num
                  | MetaTx block_num tx_num => indexed_tx_hash_key block_num tx_num
                  end in
  let meta_ser := serialize item_meta in
  let! batch := batch_put_cf batch cf key value in
  let! batch := batch_put_cf batch DB_COL_BC_JSON key value_json in
  let! batch := batch_put_cf batch DB_COL_BC_ALL key pointer in
  let! batch := batch_put_cf batch DB_COL_BC_META key meta_ser in
  let! batch := batch_put_cf batch DB_COL_BC_NAMED (string_codes meta_key) pointer in
  Ret (pointer, batch).

Definition put_to_block_chain (batch : WriteBatch) := put_to_block_chain_at batch DB_COL_BC_NOW.

Definition put_named_last_block_to_block_chain (batch : WriteBatch) (pointer : list Z) : outcome WriteBatch :=
  batch_put_cf batch DB_COL_BC_NAMED (string_codes LAST_BLOCK_HASH_KEY) pointer.

Definition put_contiguous_block_num (batch : WriteBatch) (block_num : Z) : outcome WriteBatch :=
  batch_put_cf batch DB_COL_INTERNAL (string_codes LAST_CONTIGUOUS_BLOCK_KEY) (serialize block_num).

(** The loop over the transactions of the block: a missing one is logged. *)
Definition put_block_tx (block_num : Z) (all_block_txs : gmap string Transaction)
    (st : WriteBatch * Z) (entry : Z * string) : outcome (WriteBatch * Z) :=
  let '(batch, _) := st in
  let '(tx_num, tx_hash) := entry in
  let tx_len := (tx_num + 1) mod 2 ^ 32 in
  match all_block_txs !! tx_hash with
  | Some tx_value =>
      let! pb := put_to_block_chain batch (MetaTx block_num tx_num) (string_codes tx_hash)
                   (serialize tx_value) (to_json tx_value) in
      Ret (pb.2, tx_len)
  | None => Ret (batch, tx_len)
  end.

(** "Celebrate genesis block": only logs, but looks every transaction up. *)
Definition celebrate_genesis (transactions : list string) (all_block_txs : gmap string Transaction) :
    outcome (list string) :=
  ofold (λ log hash, let! tx := unwrap (all_block_txs !! hash) in Ret (log ++ [get_genesis_tx_in_display tx]))
    [] transactions.

Definition stored_info (block_hash : string) (c : CommonBlockInfo) (shutdown : bool) : BlockStoredInfo :=
  let '(nonce, mining_tx_hash) := nonce_and_mining_tx_hash (header (cb_block c)) in
  mkBlockStoredInfo block_hash (b_num (header (cb_block c))) nonce
    (match cb_block_txs c !! mining_tx_hash with Some tx => {[mining_tx_hash := tx]} | None => ∅ end) shutdown.

Definition store_complete_block (self_db : SimpleDb) (status : FetchStatus) (complete : CompleteBlock) :
    outcome (BlockStoredInfo * SimpleDb) :=
  let c := common complete in
  let block := cb_block c in
  let block_num := b_num (header block) in
  let stored_block := mkStoredSerializingBlock block in
  let all_block_txs := cb_block_txs c in
  let! res := construct_valid_block_pow_hash block in
  match res with
  | inl _ => Panic
  | inr block_hash =>
      let info := stored_info block_hash c (extra_shutdown (extra_info complete)) in
      let all_txs := all_ordered_stored_block_tx_hashes (transactions block)
                       [nonce_and_mining_tx_hash (header block)] in
      let! st := ofold (put_block_tx block_num all_block_txs) (batch_writer self_db, 0) all_txs in
      let! pb := put_to_block_chain st.1 (MetaBlock block_num st.2) (string_codes block_hash)
                   (serialize stored_block) (to_json stored_block) in
      let! batch := put_named_last_block_to_block_chain pb.2 pb.1 in
      let! batch := if bool_decide (Contiguous block_num = status)
                    then put_contiguous_block_num batch block_num else Ret batch in
      let! self_db := write self_db (batch_done batch) in
      let! _ := if block_num =? 0 then celebrate_genesis (transactions block) all_block_txs else Ret [] in
      Ret (info, self_db)
  end.

(** One fetched item: the batch and, for the block's own item, its pointer. *)
Fixpoint put_fetched_items (b_num : Z) (items : list BlockchainItem) (batch : WriteBatch)
    (block_pointer : option (list Z)) : outcome (StorageError + (WriteBatch * option (list Z))) :=
  match items with
  | [] => Ret (inr (batch, block_pointer))
  | item :: items =>
      if valid_utf8 (item_key item) then
        let! pb := put_to_block_chain batch (item_meta item) (item_key item) (item_data item) (item_data_json item) in
        let block_pointer := match item_meta item with
                             | MetaBlock block_num _ => if block_num =? b_num then Some pb.1 else block_pointer
                             | MetaTx _ _ => block_pointer
                             end in
        put_fetched_items b_num items pb.2 block_pointer
      else Ret (inl (ConfigError "Non UTF-8 blockchain key"))
  end.

Definition store_fetched_complete_block (self_db : SimpleDb) (last_block_stored : BlockStoredInfo)
    (status : FetchStatus) (fetched : Z * list BlockchainItem) :
    outcome ((StorageError + FetchStatus) * SimpleDb) :=
  let '(b_num, items) := fetched in
  let! res := put_fetched_items b_num items (batch_writer self_db) None in
  match res with
  | inl e => Ret (inl e, self_db)
  | inr (batch, Some block_pointer) =>
      let! batch := if bs_block_num last_block_stored =? b_num
                    then put_named_last_block_to_block_chain batch block_pointer else Ret batch in
      let! batch := if bool_decide (Contiguous b_num = status)
                    then put_contiguous_block_num batch b_num else Ret batch in
      let! self_db := write self_db (batch_done batch) in
      Ret (inr status, self_db)
  | inr (batch, None) => Ret (inl (ConfigError "Block not specified"), self_db)
  end.

(** ** Reading *)
Definition get_stored_value_from_db (db : SimpleDb) (key : list Z) : outcome (option BlockchainItem) :=
  let col_all := if bool_decide (head key = Some NAMED_CONSTANT_PREPEND) then DB_COL_BC_NAMED else DB_COL_BC_ALL in
  let! pointer := get_cf db col_all key in
  match pointer with
  | None => Ret None
  | Some pointer =>
      let! vck := decode_version_pointer pointer in
      let '(version, cf, key) := vck in
      let! data := get_cf db cf key in
      match data with
      | None => Ret None
      | Some data =>
          let! data_json := get_cf db DB_COL_BC_JSON key in
          match data_json with
          | None => Ret None
          | Some data_json =>
              let! meta := get_cf db DB_COL_BC_META key in
              Ret (meta ← meta; item_meta ← deserialize meta;
                   Some (mkBlockchainItem version item_meta key data data_json))
          end
      end
  end.
End block_store.

(** ** Version pointers read back *)
Lemma split_at_no_sep sep l : sep ∉ l → split_at sep l = [l].
Proof.
  induction l as [|c l IH]; cbn; [done|]. rewrite not_elem_of_cons. intros [Hc Hl].
  rewrite (proj2 (Z.eqb_neq c sep)) by done. by rewrite IH.
Qed.

Lemma split_at_app sep l1 l2 : sep ∉ l1 → split_at sep (l1 ++ sep :: l2) = l1 :: split_at sep l2.
Proof.
  induction l1 as [|c l IH]; cbn; [by rewrite Z.eqb_refl|]. rewrite not_elem_of_cons. intros [Hc Hl].
  rewrite (proj2 (Z.eqb_neq c sep)) by done. by rewrite IH.
Qed.

Lemma split_at_head sep l : ∃ part parts, split_at sep l = part :: parts ∧ (part = l ↔ sep ∉ l).
Proof.
  induction l as [|c l (part & parts & E & IH)]; cbn.
  - exists [], []. split; [done|]. split; [intros _; apply not_elem_of_nil|done].
  - destruct (Z.eqb_spec c sep) as [->|Hc]; [exists [], (split_at sep l)|rewrite E; exists (c :: part), parts];
      (split; [done|]); rewrite not_elem_of_cons; [naive_solver|].
    rewrite <-IH. split; [intros [= ->]; done|by intros [_ ->]].
Qed.

Lemma DB_COLS_BC_spec cf v : (cf, v) ∈ DB_COLS_BC →
  DB_POINTER_SEPARATOR ∉ string_codes cf ∧
  ∃ i, list_find (λ cv, string_codes cv.1 = string_codes cf) DB_COLS_BC = Some (i, (cf, v)).
Proof.
  unfold DB_COLS_BC. intros Hin.
  repeat (apply elem_of_cons in Hin as [[= -> ->]|Hin];
    [split; [by apply (bool_decide_unpack (_ ∉ _))|by eexists; vm_compute]|]).
  by apply elem_of_nil in Hin.
Qed.

(** The pointer stored for a key gives back the version and the column, for
    every version of the block chain, and the key exactly when it holds no
    separator; decoding a stored pointer never panics. *)
Theorem pointer_roundtrip (cf : string) (v : Z) (key : list Z) : (cf, v) ∈ DB_COLS_BC →
  ∃ key', decode_version_pointer (version_pointer cf key) = Ret (v, cf, key') ∧
    (key' = key ↔ DB_POINTER_SEPARATOR ∉ key).
Proof.
  intros [Hcf [i Hi]]%DB_COLS_BC_spec. unfold decode_version_pointer, version_pointer. cbn [app].
  rewrite split_at_app by done. destruct (split_at_head DB_POINTER_SEPARATOR key) as (part & parts & E & Hp).
  exists part. rewrite E. cbn [lookup list_lookup unwrap obind]. rewrite Hi. done.
Qed.

Lemma decode_version_pointer_ok cf v key : (cf, v) ∈ DB_COLS_BC → DB_POINTER_SEPARATOR ∉ key →
  decode_version_pointer (version_pointer cf key) = Ret (v, cf, key).
Proof.
  intros [Hcf [i Hi]]%DB_COLS_BC_spec Hk. unfold decode_version_pointer, version_pointer. cbn [app].
  rewrite split_at_app, split_at_no_sep by done. cbn [lookup list_lookup unwrap obind]. by rewrite Hi.
Qed.

(** ** The operations of a batch *)
Lemma ofold_app {A B : Type} (f : A → B → outcome A) a l1 l2 :
  ofold f a (l1 ++ l2) = let! a' := ofold f a l1 in ofold f a' l2.
Proof. revert a. induction l1 as [|x l1 IH]; intros a; cbn; [done|]. destruct (f a x); cbn; [apply IH|done]. Qed.

(** The last action on a key, when all actions on it agree, decides what is read. *)
Lemma apply_ops_lookup (l : list op) c cf key v m : c cf = Some m →
  (cf, key, Some v) ∈ l → (∀ a, (cf, key, a) ∈ l → a = Some v) →
  ∃ m', foldl apply_op c l cf = Some m' ∧ m' !! key = Some v.
Proof.
  intros Hm Hin Hall.
  assert (Hg : ∀ l c m, c cf = Some m → (∀ a, (cf, key, a) ∈ l → a = Some v) →
    (m !! key = Some v ∨ (cf, key, Some v) ∈ l) → ∃ m', foldl apply_op c l cf = Some m' ∧ m' !! key = Some v).
  { clear. induction l as [|[[cf' k'] a'] l IH]; intros c m Hm Hall Hor; cbn [foldl].
    - exists m. split; [done|]. destruct Hor as [?|Hin]; [done|by apply elem_of_nil in Hin].
    - destruct (decide (cf = cf')) as [<-|Hne].
      + assert (Hm' : apply_op c (cf, k', a') cf =
          Some (match a' with Some v => <[k' := v]> m | None => delete k' m end)).
        { unfold apply_op. cbn. rewrite decide_True, Hm by done. done. }
        apply (IH _ _ Hm'); [intros a Ha; apply Hall; by right|].
        destruct (decide (k' = key)) as [->|Hk].
        * left. assert (a' = Some v) as -> by (apply Hall; left). apply lookup_insert_eq.
        * destruct Hor as [Hor|Hor]; [|right; by apply elem_of_cons in Hor as [[= -> ->]|?]].
          left. destruct a'; [by rewrite lookup_insert_ne|by rewrite lookup_delete_ne].
      + apply (IH _ m); [unfold apply_op; by rewrite decide_False|intros a Ha; apply Hall; by right|].
        destruct Hor as [?|Hor]; [by left|right]. by apply elem_of_cons in Hor as [[= -> ->]|?]. }
  apply (Hg l c m); auto.
Qed.

(** Keys that no operation touches keep their value. *)
Lemma apply_ops_untouched (l : list op) c cf key m : c cf = Some m → (∀ a, (cf, key, a) ∉ l) →
  ∃ m', foldl apply_op c l cf = Some m' ∧ m' !! key = m !! key.
Proof.
  revert c m. induction l as [|[[cf' k'] a'] l IH]; intros c m Hm Hno; cbn [foldl]; [by exists m|].
  assert (Hno' : ∀ a, (cf, key, a) ∉ l) by (intros a Ha; apply (Hno a); by right).
  destruct (decide (cf = cf')) as [<-|Hne].
  - destruct (IH (apply_op c (cf, k', a')) (match a' with Some v => <[k' := v]> m | None => delete k' m end))
      as (m' & H1 & H2); [|done|].
    { unfold apply_op. cbn. rewrite decide_True, Hm by done. done. }
    exists m'. split; [done|]. rewrite H2.
    assert (k' ≠ key) by (intros ->; apply (Hno a'); left).
    destruct a'; [by rewrite lookup_insert_ne|by rewrite lookup_delete_ne].
  - apply IH; [unfold apply_op; by rewrite decide_False|done].
Qed.

(** ** Items written and read back *)

(** The columns of the storage node's database are open. *)
Definition db_ready (db : SimpleDb) : Prop :=
  db_wf db ∧ ∀ cf, cf ∈ DB_SPEC_columns → is_Some (columns db !! cf).

Definition meta_key (m : BlockchainItemMeta) : list Z :=
  string_codes (match m with
                | MetaBlock block_num _ => indexed_block_hash_key block_num
                | MetaTx block_num tx_num => indexed_tx_hash_key block_num tx_num
                end).
Definition now_pointer (key : list Z) : list Z := version_pointer DB_COL_BC_NOW key.

Section items.
Context `{Bincode BlockchainItemMeta, !BincodeLaws BlockchainItemMeta}.
Context `{Bincode Z}.
Implicit Types (it : BlockchainItem) (items : list BlockchainItem).

Definition item_ops it : list op :=
  [(DB_COL_BC_NOW, item_key it, Some (item_data it));
   (DB_COL_BC_JSON, item_key it, Some (item_data_json it));
   (DB_COL_BC_ALL, item_key it, Some (now_pointer (item_key it)));
   (DB_COL_BC_META, item_key it, Some (serialize (item_meta it)));
   (DB_COL_BC_NAMED, meta_key (item_meta it), Some (now_pointer (item_key it)))].

(** After the items: the last block's pointer and the contiguous number. *)
Definition final_ops (last : option (list Z)) (contiguous : option Z) : list op :=
  match last with Some p => [(DB_COL_BC_NAMED, string_codes LAST_BLOCK_HASH_KEY, Some p)] | None => [] end ++
  match contiguous with
  | Some n => [(DB_COL_INTERNAL, string_codes LAST_CONTIGUOUS_BLOCK_KEY, Some (serialize n))]
  | None => []
  end.
Definition store_ops items last contiguous : list op := (items ≫= item_ops) ++ final_ops last contiguous.

Lemma put_to_block_chain_ops b it :
  put_to_block_chain b (item_meta it) (item_key it) (item_data it) (item_data_json it) =
  let! b' := ofold batch_op b (item_ops it) in Ret (now_pointer (item_key it), b').
Proof.
  unfold put_to_block_chain, put_to_block_chain_at, item_ops. cbn [ofold]. unfold batch_op at 1. cbn [fst snd].
  destruct (batch_put_cf b DB_COL_BC_NOW _ _) as [b1|]; cbn [obind]; [|done]. unfold batch_op at 1. cbn [fst snd].
  destruct (batch_put_cf b1 _ _ _) as [b2|]; cbn [obind]; [|done]. unfold batch_op at 1. cbn [fst snd].
  destruct (batch_put_cf b2 _ _ _) as [b3|]; cbn [obind]; [|done]. unfold batch_op at 1. cbn [fst snd].
  destruct (batch_put_cf b3 _ _ _) as [b4|]; cbn [obind]; [|done]. unfold batch_op at 1. cbn [fst snd].
  unfold meta_key, now_pointer. by destruct (batch_put_cf b4 _ _ _).
Qed.

Lemma item_ops_columns it o : o ∈ item_ops it → o.1.1 ∈ DB_SPEC_columns.
Proof.
  unfold item_ops. intros Hin.
  repeat (apply elem_of_cons in Hin as [->|Hin]; [by apply (bool_decide_unpack (_ ∈ DB_SPEC_columns))|]).
  by apply elem_of_nil in Hin.
Qed.

Lemma store_ops_open db items last contiguous : db_ready db →
  Forall (λ o : op, is_Some (columns db !! o.1.1)) (store_ops items last contiguous).
Proof.
  intros [_ Hcols]. apply Forall_forall. intros o Ho. apply Hcols. unfold store_ops in Ho.
  apply elem_of_app in Ho as [Ho|Ho].
  - apply list_elem_of_bind in Ho as (it & Ho & _). by eapply item_ops_columns.
  - unfold final_ops in Ho. apply elem_of_app in Ho as [Ho|Ho]; [destruct last|destruct contiguous];
      (apply list_elem_of_singleton in Ho as -> || by apply elem_of_nil in Ho);
      by apply (bool_decide_unpack (_ ∈ DB_SPEC_columns)).
Qed.

(** Who writes a given column. *)
Lemma elem_of_store_ops items last contiguous cf key a :
  (cf, key, a) ∈ store_ops items last contiguous ↔
  (∃ it, it ∈ items ∧ (cf, key, a) ∈ item_ops it) ∨
  (cf = DB_COL_BC_NAMED ∧ key = string_codes LAST_BLOCK_HASH_KEY ∧ ∃ p, last = Some p ∧ a = Some p) ∨
  (cf = DB_COL_INTERNAL ∧ key = string_codes LAST_CONTIGUOUS_BLOCK_KEY ∧
    ∃ n, contiguous = Some n ∧ a = Some (serialize n)).
Proof.
  unfold store_ops, final_ops. rewrite !elem_of_app, list_elem_of_bind.
  destruct last, contiguous; rewrite ?list_elem_of_singleton, ?elem_of_nil; naive_solver.
Qed.

(** What an item writes in each column. *)
Lemma elem_of_item_ops it cf key a : (cf, key, a) ∈ item_ops it ↔
  (cf = DB_COL_BC_NOW ∧ key = item_key it ∧ a = Some (item_data it)) ∨
  (cf = DB_COL_BC_JSON ∧ key = item_key it ∧ a = Some (item_data_json it)) ∨
  (cf = DB_COL_BC_ALL ∧ key = item_key it ∧ a = Some (now_pointer (item_key it))) ∨
  (cf = DB_COL_BC_META ∧ key = item_key it ∧ a = Some (serialize (item_meta it))) ∨
  (cf = DB_COL_BC_NAMED ∧ key = meta_key (item_meta it) ∧ a = Some (now_pointer (item_key it))).
Proof. unfold item_ops. rewrite !elem_of_cons, elem_of_nil. intuition congruence. Qed.

End items.

Ltac item_op_cases H :=
  apply elem_of_item_ops in H as [(? & ? & ?)|[(? & ? & ?)|[(? & ? & ?)|[(? & ? & ?)|(? & ? & ?)]]]].

Section read_back.
Context `{Bincode BlockchainItemMeta, !BincodeLaws BlockchainItemMeta}.
Context `{Bincode Z}.
Implicit Types (it : BlockchainItem) (items : list BlockchainItem).

(** The item as it is read back: always of the current version. *)
Definition read_item it : BlockchainItem :=
  mkBlockchainItem 5 (item_meta it) (item_key it) (item_data it) (item_data_json it).

(** [db'] is [db] with the items, the last block and the contiguous number written. *)
Definition stored db db' items last contiguous : Prop :=
  db_ready db' ∧ columns db' = columns db ∧
  ∀ cf, content db' cf = foldl apply_op (content db) (store_ops items last contiguous) cf.

(** One column of one key, when all writers of the key agree. *)
Lemma stored_get db db' items last contiguous cf key v :
  db_ready db → stored db db' items last contiguous → cf ∈ DB_SPEC_columns →
  (cf, key, Some v) ∈ store_ops items last contiguous →
  (∀ a, (cf, key, a) ∈ store_ops items last contiguous → a = Some v) →
  get_cf db' cf key = Ret (Some v).
Proof.
  intros [Hwf Hcols] ([Hwf' _] & Hc & Hcont) Hcf Hin Hall.
  destruct (Hcols cf Hcf) as [i Hi].
  assert (Hm : ∃ m, content db cf = Some m).
  { unfold content. rewrite Hi. cbn. destruct Hwf as [Hlt _]. destruct (lookup_lt_is_Some_2 _ _ (Hlt _ _ Hi)) as [m Hm]. by exists m. }
  destruct Hm as [m Hm].
  destruct (apply_ops_lookup _ _ _ _ _ _ Hm Hin Hall) as (m' & Hm' & Hv).
  rewrite get_cf_content, Hcont, Hm' by done. by rewrite Hv.
Qed.

Lemma stored_get_untouched db db' items last contiguous cf key :
  db_ready db → stored db db' items last contiguous → cf ∈ DB_SPEC_columns →
  (∀ a, (cf, key, a) ∉ store_ops items last contiguous) → get_cf db' cf key = get_cf db cf key.
Proof.
  intros [Hwf Hcols] ([Hwf' _] & Hc & Hcont) Hcf Hno. rewrite !get_cf_content, Hcont by done.
  destruct (Hcols cf Hcf) as [i Hi].
  assert (Hm : ∃ m, content db cf = Some m).
  { unfold content. rewrite Hi. cbn. destruct Hwf as [Hlt _]. destruct (lookup_lt_is_Some_2 _ _ (Hlt _ _ Hi)) as [m Hm]. by exists m. }
  destruct Hm as [m Hm]. destruct (apply_ops_untouched _ _ cf key m Hm Hno) as (m' & -> & ->). by rewrite Hm.
Qed.

Lemma get_via_pointer db key it :
  get_cf db (if bool_decide (head key = Some NAMED_CONSTANT_PREPEND) then DB_COL_BC_NAMED else DB_COL_BC_ALL) key =
    Ret (Some (now_pointer (item_key it))) →
  DB_POINTER_SEPARATOR ∉ item_key it →
  get_cf db DB_COL_BC_NOW (item_key it) = Ret (Some (item_data it)) →
  get_cf db DB_COL_BC_JSON (item_key it) = Ret (Some (item_data_json it)) →
  get_cf db DB_COL_BC_META (item_key it) = Ret (Some (serialize (item_meta it))) →
  get_stored_value_from_db db key = Ret (Some (read_item it)).
Proof.
  intros Hp Hk Hd Hj Hm. unfold get_stored_value_from_db. rewrite Hp. cbn [obind].
  unfold now_pointer. rewrite (decode_version_pointer_ok _ 5) by (done || left). cbn [obind].
  rewrite Hd. cbn [obind]. rewrite Hj. cbn [obind]. rewrite Hm. cbn [obind].
  cbn [mbind option_bind]. by rewrite deserialize_serialize.
Qed.

(** Each item is read back by its key, by its index, and by the name of the
    last block if it is the one. *)
Lemma stored_read db db' items last contiguous it :
  db_ready db → stored db db' items last contiguous →
  NoDup (map item_key items) → it ∈ items → DB_POINTER_SEPARATOR ∉ item_key it →
  (head (item_key it) ≠ Some NAMED_CONSTANT_PREPEND →
    get_stored_value_from_db db' (item_key it) = Ret (Some (read_item it))) ∧
  (NoDup (map (λ it, meta_key (item_meta it)) items) →
    get_stored_value_from_db db' (meta_key (item_meta it)) = Ret (Some (read_item it))) ∧
  (last = Some (now_pointer (item_key it)) →
    get_stored_value_from_db db' (string_codes LAST_BLOCK_HASH_KEY) = Ret (Some (read_item it))).
Proof.
  intros Hr Hs Hnd Hin Hk.
  assert (Hlast : ∀ m, meta_key m ≠ string_codes LAST_BLOCK_HASH_KEY).
  { intros m E. apply (f_equal (lookup 1%nat)) in E. by destruct m. }
  assert (Hcol : ∀ cf v, cf ∈ DB_SPEC_columns → (cf, item_key it, Some v) ∈ item_ops it →
    (∀ it' a, (cf, item_key it, a) ∈ item_ops it' → item_key it' = item_key it) →
    cf ≠ DB_COL_BC_NAMED → cf ≠ DB_COL_INTERNAL → get_cf db' cf (item_key it) = Ret (Some v)).
  { intros cf v Hcf Hop Hown Hn1 Hn2. apply (stored_get db db' items last contiguous); [done..| |].
    - apply elem_of_store_ops. left. by exists it.
    - intros a [(it' & Hit' & Ha)|[(-> & _)|(-> & _)]]%elem_of_store_ops; [|done..].
      assert (it' = it) as -> by (eapply (NoDup_map_inj item_key items); eauto).
      item_op_cases Ha; item_op_cases Hop; subst; try done; congruence. }
  assert (Hd : get_cf db' DB_COL_BC_NOW (item_key it) = Ret (Some (item_data it))).
  { apply Hcol; try done; [by apply (bool_decide_unpack (_ ∈ DB_SPEC_columns))|apply elem_of_item_ops; by left|].
    intros it' a Ha. by item_op_cases Ha. }
  assert (Hj : get_cf db' DB_COL_BC_JSON (item_key it) = Ret (Some (item_data_json it))).
  { apply Hcol; try done; [by apply (bool_decide_unpack (_ ∈ DB_SPEC_columns))|apply elem_of_item_ops; by right; left|].
    intros it' a Ha. by item_op_cases Ha. }
  assert (Hm : get_cf db' DB_COL_BC_META (item_key it) = Ret (Some (serialize (item_meta it)))).
  { apply Hcol; try done; [by apply (bool_decide_unpack (_ ∈ DB_SPEC_columns))|apply elem_of_item_ops; by do 3 right; left|].
    intros it' a Ha. by item_op_cases Ha. }
  split_and!.
  - intros Hh. apply (get_via_pointer db' _ it); [|done..]. rewrite bool_decide_eq_false_2 by done.
    apply Hcol; try done; [by apply (bool_decide_unpack (_ ∈ DB_SPEC_columns))|apply elem_of_item_ops; by do 2 right; left|].
    intros it' a Ha. by item_op_cases Ha.
  - intros Hnm. apply (get_via_pointer db' _ it); [|done..].
    rewrite bool_decide_eq_true_2 by by destruct (item_meta it).
    apply (stored_get db db' items last contiguous); [done..|by apply (bool_decide_unpack (_ ∈ DB_SPEC_columns))| |].
    + apply elem_of_store_ops. left. exists it. split; [done|]. apply elem_of_item_ops. by do 4 right.
    + intros a [(it' & Hit' & Ha)|[(_ & E & _)|(E & _)]]%elem_of_store_ops; [|by apply Hlast in E|done].
      item_op_cases Ha; try done.
      assert (it' = it) as -> by (eapply (NoDup_map_inj (λ it, meta_key (item_meta it)) items); eauto). done.
  - intros Hl. apply (get_via_pointer db' _ it); [|done..]. rewrite bool_decide_eq_true_2 by done.
    apply (stored_get db db' items last contiguous); [done..|by apply (bool_decide_unpack (_ ∈ DB_SPEC_columns))| |].
    + apply elem_of_store_ops. right; left. split_and!; [done..|]. by eexists.
    + intros a [(it' & Hit' & Ha)|[(_ & _ & p & Hp & ->)|(E & _)]]%elem_of_store_ops; [|by simplify_eq|done].
      item_op_cases Ha; try done.
      by exfalso; eapply Hlast; symmetry; eassumption.
Qed.
End read_back.

(** ** Storing a complete block *)
Lemma obind_assoc {A B C : Type} (m : outcome A) (k : A → outcome B) (h : B → outcome C) :
  obind (obind m k) h = obind m (λ x, obind (k x) h).
Proof. by destruct m. Qed.

Section complete.
Context `{Naom, Hex, Bincode BlockHeader, Bincode StoredSerializingBlock, Bincode Transaction,
  !Bincode BlockchainItemMeta, !BincodeLaws BlockchainItemMeta, Bincode Z,
  SerdeJson StoredSerializingBlock, SerdeJson Transaction}.

Definition block_hashes (c : CommonBlockInfo) : list string :=
  transactions (cb_block c) ++ [(nonce_and_mining_tx_hash (header (cb_block c))).2].
Definition tx_blockchain_item (c : CommonBlockInfo) (e : Z * string) : option BlockchainItem :=
  tx ← cb_block_txs c !! e.2;
  Some (mkBlockchainItem 5 (MetaTx (block_number c) e.1) (string_codes e.2) (serialize tx) (to_json tx)).
Definition block_blockchain_item (c : CommonBlockInfo) (hash : string) : BlockchainItem :=
  mkBlockchainItem 5 (MetaBlock (block_number c) (zlen (block_hashes c))) (string_codes hash)
    (serialize (mkStoredSerializingBlock (cb_block c))) (to_json (mkStoredSerializingBlock (cb_block c))).
(** What a block consists of in the database. *)
Definition block_items (c : CommonBlockInfo) (hash : string) : list BlockchainItem :=
  omap (tx_blockchain_item c) (imap (λ i h, (Z.of_nat i, h)) (block_hashes c)) ++ [block_blockchain_item c hash].

Lemma put_block_txs c l b t :
  ofold (put_block_tx (block_number c) (cb_block_txs c)) (b, t) l =
  let! b' := ofold batch_op b (omap (tx_blockchain_item c) l ≫= item_ops) in
  Ret (b', foldl (λ _ e, (e.1 + 1) mod 2 ^ 32) t l).
Proof.
  revert b t. induction l as [|[i h] l IH]; intros b t; cbn [ofold foldl omap list_omap]; [done|].
  unfold put_block_tx at 1, tx_blockchain_item at 1. cbn [fst snd].
  destruct (cb_block_txs c !! h) as [tx|]; cbn [mbind option_bind].
  - set (it := mkBlockchainItem 5 (MetaTx (block_number c) i) (string_codes h) (serialize tx) (to_json tx)).
    change (put_to_block_chain b (MetaTx (block_number c) i) (string_codes h) (serialize tx) (to_json tx)) with
      (put_to_block_chain b (item_meta it) (item_key it) (item_data it) (item_data_json it)).
    rewrite put_to_block_chain_ops, bind_cons, ofold_app, !obind_assoc.
    destruct (ofold batch_op b (item_ops it)); cbn [obind snd]; [apply IH|done].
  - cbn [obind]. apply IH.
Qed.

Lemma celebrate_genesis_ret c : Forall (λ h, is_Some (cb_block_txs c !! h)) (transactions (cb_block c)) →
  ∃ log, celebrate_genesis (transactions (cb_block c)) (cb_block_txs c) = Ret log.
Proof.
  unfold celebrate_genesis. set (f := λ _ _, _).
  enough (Hg : ∀ l log, Forall (λ h, is_Some (cb_block_txs c !! h)) l → ∃ log', ofold f log l = Ret log') by apply Hg.
  intros l log Hall. revert log. induction Hall as [|h l [tx Htx] _ IH]; intros log; cbn [ofold]; [by eexists|].
  unfold f at 1. rewrite Htx. cbn [unwrap obind]. apply IH.
Qed.

Definition contiguous_num (status : FetchStatus) (n : Z) : option Z :=
  if bool_decide (Contiguous n = status) then Some n else None.

(** The writes that follow the items. *)
Lemma final_ops_batch {A : Type} b p status n (k : WriteBatch → outcome A) :
  (let! b := put_named_last_block_to_block_chain b p in
   let! b := if bool_decide (Contiguous n = status) then put_contiguous_block_num b n else Ret b in k b) =
  let! b := ofold batch_op b (final_ops (Some p) (contiguous_num status n)) in k b.
Proof.
  unfold final_ops, contiguous_num, put_named_last_block_to_block_chain, put_contiguous_block_num.
  destruct (bool_decide _); cbn [app ofold]; unfold batch_op; cbn [fst snd];
    (destruct (batch_put_cf b _ _ _) as [b1|]; cbn [obind]; [|done]); [|done].
  by destruct (batch_put_cf b1 _ _ _).
Qed.

Lemma store_complete_block_ops db status complete bh : db_ready db →
  let c := common complete in
  construct_valid_block_pow_hash (cb_block c) = Ret (inr bh) →
  zlen (block_hashes c) < 2 ^ 32 →
  (block_number c = 0 → Forall (λ h, is_Some (cb_block_txs c !! h)) (transactions (cb_block c))) →
  ∃ db', store_complete_block db status complete =
      Ret (stored_info bh c (extra_shutdown (extra_info complete)), db') ∧
    stored db db' (block_items c bh) (Some (now_pointer (string_codes bh))) (contiguous_num status (block_number c)).
Proof.
  intros Hr c Hbh Hlen Hgen.
  pose proof (store_ops_open db (block_items c bh) (Some (now_pointer (string_codes bh)))
    (contiguous_num status (block_number c)) Hr) as Hopen.
  destruct (batch_spec db _ (proj1 Hr) Hopen) as (b & db' & Hb & Hw & Hwf' & Hcol & Hcont).
  exists db'. split; [|split; [|by split]].
  2:{ split; [done|]. intros cf Hcf. rewrite Hcol. by apply Hr. }
  unfold store_complete_block. fold c. rewrite Hbh. cbn [obind]. fold (block_number c).
  assert (Hhashes : all_ordered_stored_block_tx_hashes (transactions (cb_block c))
      [nonce_and_mining_tx_hash (header (cb_block c))] = imap (λ i h, (Z.of_nat i, h)) (block_hashes c)).
  { unfold all_ordered_stored_block_tx_hashes. apply imap_ext. intros i h Hi. apply lookup_lt_Some in Hi.
    change (fmap snd _) with [(nonce_and_mining_tx_hash (header (cb_block c))).2] in Hi.
    fold (block_hashes c) in Hi. rewrite Z.mod_small; [done|]. unfold zlen in Hlen. lia. }
  rewrite Hhashes, put_block_txs, obind_assoc. cbn [obind fst snd].
  assert (Htl : foldl (λ _ e, (e.1 + 1) mod 2 ^ 32) 0 (imap (λ i h, (Z.of_nat i, h)) (block_hashes c)) =
    zlen (block_hashes c)).
  { unfold block_hashes. rewrite imap_app, foldl_app. cbn. unfold zlen, block_hashes in *.
    rewrite length_app in *. cbn in *. rewrite Z.mod_small; lia. }
  rewrite Htl. unfold store_ops, block_items in Hb. rewrite bind_app, <-app_assoc, ofold_app in Hb.
  destruct (ofold batch_op (batch_writer db) (omap _ _ ≫= item_ops)) as [b1|]; cbn [obind] in Hb |- *; [|done].
  cbn [mbind list_bind] in Hb. rewrite app_nil_r, ofold_app in Hb.
  pose proof (put_to_block_chain_ops b1 (block_blockchain_item c bh)) as Hput.
  unfold block_blockchain_item at 1 2 3 4 in Hput. cbn [item_meta item_key item_data item_data_json] in Hput.
  rewrite Hput, obind_assoc. cbn [obind].
  destruct (ofold batch_op b1 (item_ops (block_blockchain_item c bh))) as [b2|]; cbn [obind] in Hb |- *; [|done].
  cbn [fst snd]. rewrite final_ops_batch.
  change (now_pointer (item_key (block_blockchain_item c bh))) with (now_pointer (string_codes bh)).
  rewrite Hb. cbn [obind]. rewrite Hw. cbn [obind].
  destruct (Z.eqb_spec (block_number c) 0) as [E|]; [|done].
  by destruct (celebrate_genesis_ret c (Hgen E)) as [log ->].
Qed.

(** Every item of the block has a key of its own, which is not a name. *)
Definition block_keys_ok (c : CommonBlockInfo) (bh : string) : Prop :=
  NoDup (bh :: block_hashes c) ∧
  Forall (λ h, DB_POINTER_SEPARATOR ∉ string_codes h ∧ head (string_codes h) ≠ Some NAMED_CONSTANT_PREPEND)
    (bh :: block_hashes c).

Lemma tx_blockchain_item_fields c e it : tx_blockchain_item c e = Some it →
  item_key it = string_codes e.2 ∧ item_meta it = MetaTx (block_number c) e.1.
Proof. unfold tx_blockchain_item. destruct (cb_block_txs c !! e.2); cbn; [|done]. by intros [= <-]. Qed.

Lemma elem_of_indexed (l : list string) i h : (i, h) ∈ imap (λ i h, (Z.of_nat i, h)) l ↔
  ∃ n, i = Z.of_nat n ∧ l !! n = Some h.
Proof. rewrite elem_of_lookup_imap. naive_solver. Qed.

Lemma imap_indexed_snd (l : list string) : map snd (imap (λ i h, (Z.of_nat i, h)) l) = l.
Proof. rewrite fmap_imap. apply list_eq. intros i. rewrite list_lookup_imap. by destruct (l !! i). Qed.

Lemma block_items_keys c bh : NoDup (bh :: block_hashes c) → NoDup (map item_key (block_items c bh)).
Proof.
  intros Hnd. apply (sublist_NoDup _ (map string_codes (block_hashes c ++ [bh]))).
  - apply (NoDup_fmap_2 string_codes). by rewrite Permutation_app_comm.
  - unfold block_items. rewrite !map_app. apply sublist_app; [|done].
    rewrite <-(imap_indexed_snd (block_hashes c)) at 2. rewrite map_map.
    apply map_omap_sublist. intros e it He. by apply tx_blockchain_item_fields in He as [-> _].
Qed.

Lemma block_items_meta_keys c bh : is_u64 (block_number c) → zlen (block_hashes c) < 2 ^ 32 →
  NoDup (map (λ it, meta_key (item_meta it)) (block_items c bh)).
Proof.
  intros Hn Hlen. set (indexed := imap (λ i h, (Z.of_nat i, h)) (block_hashes c)).
  apply (sublist_NoDup _ (map (λ e, meta_key (MetaTx (block_number c) e.1)) indexed ++
    [meta_key (MetaBlock (block_number c) (zlen (block_hashes c)))])).
  - apply NoDup_app. split_and!; [|intros k (e & -> & _)%list_elem_of_fmap E|apply NoDup_singleton].
    + apply NoDup_map_inj_on.
      * intros [i h] [j h'] (ni & -> & Hi)%elem_of_indexed (nj & -> & Hj)%elem_of_indexed E.
        pose proof (lookup_lt_Some _ _ _ Hi). pose proof (lookup_lt_Some _ _ _ Hj). unfold zlen in Hlen.
        unfold meta_key in E. apply (inj string_codes) in E. cbn [fst] in E.
        apply indexed_tx_hash_key_inj in E as [_ E]; [|done|done|lia|lia].
        apply Nat2Z.inj in E as ->. by simplify_eq.
      * apply (NoDup_fmap_1 fst). unfold indexed. rewrite fmap_imap.
        replace (imap _ (block_hashes c)) with (Z.of_nat <$> seq 0 (length (block_hashes c))).
        { apply (NoDup_fmap_2 Z.of_nat), NoDup_seq. }
        apply list_eq. intros i. rewrite list_lookup_fmap, list_lookup_imap.
        destruct (block_hashes c !! i) as [h|] eqn:Eh; cbn.
        -- by rewrite lookup_seq_lt by by apply lookup_lt_Some in Eh.
        -- by rewrite lookup_seq_ge by by apply lookup_ge_None in Eh.
    + apply list_elem_of_singleton in E. unfold meta_key in E. apply (inj string_codes) in E.
      symmetry in E. by apply indexed_keys_ne in E.
  - unfold block_items. rewrite map_app. apply sublist_app; [|done].
    apply map_omap_sublist. intros e it He. by apply tx_blockchain_item_fields in He as [_ ->].
Qed.

(** C5: storing a complete block makes it readable.  With distinct, well-formed
    hashes, the whole block is written at once: its item is read back by its
    hash, by its number and as the last block, each of its transactions by its
    hash and by its index in the block (first the transactions in order, then
    the mining transaction), with the meta data under which other nodes fetch
    them; the contiguous block number is recorded exactly when the block is
    contiguous; and what is reported to the compute nodes is the block's hash,
    number, nonce and mining transaction. *)
Theorem store_complete_block_readable db status complete bh : db_ready db →
  let c := common complete in
  let n := block_number c in
  construct_valid_block_pow_hash (cb_block c) = Ret (inr bh) →
  is_u64 n → zlen (block_hashes c) < 2 ^ 32 → block_keys_ok c bh →
  (n = 0 → Forall (λ h, is_Some (cb_block_txs c !! h)) (transactions (cb_block c))) →
  ∃ db', store_complete_block db status complete =
      Ret (stored_info bh c (extra_shutdown (extra_info complete)), db') ∧ db_ready db' ∧
    (∀ k, k ∈ [bh; indexed_block_hash_key n; LAST_BLOCK_HASH_KEY] →
      get_stored_value_from_db db' (string_codes k) = Ret (Some (block_blockchain_item c bh))) ∧
    (∀ i h tx, block_hashes c !! i = Some h → cb_block_txs c !! h = Some tx →
      ∀ k, k ∈ [h; indexed_tx_hash_key n (Z.of_nat i)] →
      get_stored_value_from_db db' (string_codes k) =
        Ret (Some (mkBlockchainItem 5 (MetaTx n (Z.of_nat i)) (string_codes h) (serialize tx) (to_json tx)))) ∧
    get_cf db' DB_COL_INTERNAL (string_codes LAST_CONTIGUOUS_BLOCK_KEY) =
      (if decide (status = Contiguous n) then Ret (Some (serialize n))
       else get_cf db DB_COL_INTERNAL (string_codes LAST_CONTIGUOUS_BLOCK_KEY)).
Proof.
  intros Hr c n Hbh Hn Hlen [Hnd Hok] Hgen.
  destruct (store_complete_block_ops db status complete bh Hr Hbh Hlen Hgen) as (db' & Hs & Hst).
  fold c n in Hs, Hst. exists db'. split; [exact Hs|]. split; [apply Hst|].
  pose proof (block_items_keys c bh Hnd) as Hk. pose proof (block_items_meta_keys c bh Hn Hlen) as Hmk.
  rewrite Forall_cons in Hok. destruct Hok as [[Hb1 Hb2] Hok]. rewrite Forall_forall in Hok.
  split_and!.
  - intros k Hin. assert (Hit : block_blockchain_item c bh ∈ block_items c bh).
    { unfold block_items. apply elem_of_app. right. by left. }
    destruct (stored_read db db' _ _ _ _ Hr Hst Hk Hit Hb1) as (R1 & R2 & R3).
    repeat (apply elem_of_cons in Hin as [->|Hin]; [auto|]). by apply elem_of_nil in Hin.
  - intros i h tx Hi Htx k Hin. set (it := mkBlockchainItem 5 _ _ _ _).
    assert (Hh : h ∈ block_hashes c) by by eapply list_elem_of_lookup_2.
    assert (Hit : it ∈ block_items c bh).
    { unfold block_items. apply elem_of_app. left. apply list_elem_of_omap. exists (Z.of_nat i, h).
      split; [apply elem_of_indexed; by exists i|]. unfold tx_blockchain_item. cbn. by rewrite Htx. }
    destruct (Hok h Hh) as [Hh1 Hh2].
    destruct (stored_read db db' _ _ _ _ Hr Hst Hk Hit Hh1) as (R1 & R2 & R3).
    repeat (apply elem_of_cons in Hin as [->|Hin]; [auto|]). by apply elem_of_nil in Hin.
  - assert (Hint : DB_COL_INTERNAL ∈ DB_SPEC_columns) by left.
    assert (Hitem : ∀ it key a, (DB_COL_INTERNAL, key, a) ∉ item_ops it).
    { intros it key a Ha. by item_op_cases Ha. }
    case_decide as E.
    + apply (stored_get db db' _ _ _ _ _ _ Hr Hst Hint).
      * apply elem_of_store_ops. right; right. split_and!; [done..|]. exists n.
        unfold contiguous_num. by rewrite bool_decide_eq_true_2.
      * intros a [(it & _ & Ha)|[(E' & _)|(_ & _ & m & Hm & ->)]]%elem_of_store_ops; [by apply Hitem in Ha|done|].
        unfold contiguous_num in Hm. rewrite bool_decide_eq_true_2 in Hm by done. by simplify_eq.
    + apply (stored_get_untouched db db' _ _ _ _ _ Hr Hst Hint).
      intros a [(it & _ & Ha)|[(E' & _)|(_ & _ & m & Hm & ->)]]%elem_of_store_ops; [by apply Hitem in Ha|done|].
      unfold contiguous_num in Hm. by rewrite bool_decide_eq_false_2 in Hm by congruence.
Qed.
End complete.

(** ** Storing a fetched block *)
Section fetched.
Context `{!Bincode BlockchainItemMeta, !BincodeLaws BlockchainItemMeta, Bincode Z}.
Implicit Types (items : list BlockchainItem).

Definition block_pointer_of (n : Z) (p : option (list Z)) (it : BlockchainItem) : option (list Z) :=
  match item_meta it with
  | MetaBlock m _ => if m =? n then Some (now_pointer (item_key it)) else p
  | MetaTx _ _ => p
  end.

Lemma put_fetched_items_ops n items b p : Forall (λ it, valid_utf8 (item_key it) = true) items →
  put_fetched_items n items b p =
  let! b' := ofold batch_op b (items ≫= item_ops) in Ret (inr (b', foldl (block_pointer_of n) p items)).
Proof.
  intros Hall. revert b p. induction Hall as [|it items Hit _ IH]; intros b p; cbn [put_fetched_items foldl]; [done|].
  rewrite Hit, put_to_block_chain_ops, bind_cons, ofold_app, !obind_assoc.
  destruct (ofold batch_op b (item_ops it)); cbn [obind fst snd]; [apply IH|done].
Qed.

(** A key that is not valid UTF-8 stops the storing with an error. *)
Lemma put_fetched_items_invalid n items b p r : ¬ Forall (λ it, valid_utf8 (item_key it) = true) items →
  put_fetched_items n items b p = Ret r → r = inl (ConfigError "Non UTF-8 blockchain key").
Proof.
  intros Hall. revert b p. induction items as [|it items IH]; intros b p; [by destruct Hall|].
  cbn [put_fetched_items]. destruct (valid_utf8 (item_key it)) eqn:E; [|congruence].
  intros (pb & _ & Hput)%obind_ret. eapply IH, Hput. intros Hf. apply Hall. by constructor.
Qed.

Lemma chain_block_pointer n items : chain_wf (n, items) →
  ∃ blk, blk ∈ items ∧ (∃ len, item_meta blk = MetaBlock n len) ∧
    foldl (block_pointer_of n) None items = Some (now_pointer (item_key blk)).
Proof.
  intros (len & blk & txs & Hi & Hm & Htxs). cbn in Hi, Hm, Htxs. subst items. exists blk.
  split; [left|]. split; [by exists len|]. cbn [foldl]. unfold block_pointer_of at 2. rewrite Hm, Z.eqb_refl.
  assert (Hall : Forall (λ it, ∃ i, item_meta it = MetaTx n i) txs).
  { apply Forall_forall. intros it Hit. assert (Hin : item_meta it ∈ map item_meta txs) by (apply list_elem_of_fmap; by exists it).
    rewrite Htxs in Hin. apply list_elem_of_fmap in Hin as (i & -> & _). by exists i. }
  clear -Hall. induction Hall as [|it txs [i Hit] _ IH]; cbn [foldl]; [done|].
  unfold block_pointer_of at 2. by rewrite Hit.
Qed.

Lemma chain_meta_keys n items : is_u64 n → zlen items ≤ 2 ^ 32 → chain_wf (n, items) →
  NoDup (map (λ it, meta_key (item_meta it)) items).
Proof.
  intros Hn Hlen (len & blk & txs & Hi & Hm & Htxs). cbn in Hi, Hm, Htxs. subst items. cbn [map].
  assert (Hl : Z.of_nat (length txs) = Z.max 0 len).
  { apply (f_equal length) in Htxs. rewrite !length_map, length_seqZ in Htxs. lia. }
  unfold zlen in Hlen. cbn [length] in Hlen.
  replace (map (λ it, meta_key (item_meta it)) txs) with (map meta_key (map item_meta txs)) by apply map_map.
  rewrite Htxs, map_map. constructor.
  - intros (i & E & _)%list_elem_of_fmap. rewrite Hm in E. unfold meta_key in E.
    apply (inj string_codes) in E. by apply indexed_keys_ne in E.
  - apply NoDup_map_inj_on; [|apply NoDup_seqZ].
    intros i j Hi%elem_of_seqZ Hj%elem_of_seqZ E. unfold meta_key in E. apply (inj string_codes) in E.
    apply indexed_tx_hash_key_inj in E as [_ ->]; (done || lia).
Qed.

(** Storing a fetched block copies it.  For a chain as the catch-up hands it
    over, with distinct well-formed keys, every item is read back by its key and
    by its index with the fetched meta data, value and JSON, always as an item
    of the current version; the block becomes the last block when it is the
    last one stored in consensus, and the contiguous number is recorded when
    the block is contiguous. *)
Theorem store_fetched_readable db last status n items : db_ready db → is_u64 n → zlen items ≤ 2 ^ 32 →
  chain_wf (n, items) → NoDup (map item_key items) →
  Forall (λ it, valid_utf8 (item_key it) = true ∧ DB_POINTER_SEPARATOR ∉ item_key it ∧
                head (item_key it) ≠ Some NAMED_CONSTANT_PREPEND) items →
  ∃ db', store_fetched_complete_block db last status (n, items) = Ret (inr status, db') ∧ db_ready db' ∧
    (∀ it, it ∈ items → ∀ k, k ∈ [item_key it; meta_key (item_meta it)] →
      get_stored_value_from_db db' k = Ret (Some (read_item it))) ∧
    (bs_block_num last = n → ∃ it len, it ∈ items ∧ item_meta it = MetaBlock n len ∧
      get_stored_value_from_db db' (string_codes LAST_BLOCK_HASH_KEY) = Ret (Some (read_item it))) ∧
    (status = Contiguous n →
      get_cf db' DB_COL_INTERNAL (string_codes LAST_CONTIGUOUS_BLOCK_KEY) = Ret (Some (serialize n))).
Proof.
  intros Hr Hn Hlen Hwf Hk Hok. pose proof (chain_meta_keys n items Hn Hlen Hwf) as Hmk.
  destruct (chain_block_pointer n items Hwf) as (blk & Hblk & [len Hlb] & Hptr).
  set (lastp := if bs_block_num last =? n then Some (now_pointer (item_key blk)) else None).
  pose proof (store_ops_open db items lastp (contiguous_num status n) Hr) as Hopen.
  destruct (batch_spec db _ (proj1 Hr) Hopen) as (b & db' & Hb & Hw & Hwf' & Hcol & Hcont).
  assert (Hst : stored db db' items lastp (contiguous_num status n)).
  { split; [|by split]. split; [done|]. intros cf Hcf. rewrite Hcol. by apply Hr. }
  exists db'. split_and!.
  - unfold store_fetched_complete_block. rewrite put_fetched_items_ops, Hptr.
    2:{ eapply Forall_impl; [exact Hok|]. by intros it [? _]. }
    unfold store_ops in Hb. rewrite ofold_app in Hb.
    destruct (ofold batch_op (batch_writer db) (items ≫= item_ops)) as [b1|]; cbn [obind] in Hb |- *; [|done].
    unfold lastp in Hb. destruct (bs_block_num last =? n).
    + rewrite final_ops_batch, Hb. cbn [obind]. by rewrite Hw.
    + unfold final_ops, contiguous_num in Hb. unfold put_contiguous_block_num. cbn [obind].
      destruct (bool_decide _); cbn [app ofold] in Hb; unfold batch_op in Hb; cbn [fst snd] in Hb.
      * destruct (batch_put_cf b1 _ _ _); cbn [obind] in Hb |- *; [|done]. injection Hb as ->. by rewrite Hw.
      * injection Hb as ->. cbn [obind]. by rewrite Hw.
  - apply Hst.
  - intros it Hit k Hkin. rewrite Forall_forall in Hok. destruct (Hok it Hit) as (_ & Hsep & Hhd).
    destruct (stored_read db db' _ _ _ _ Hr Hst Hk Hit Hsep) as (R1 & R2 & _).
    repeat (apply elem_of_cons in Hkin as [->|Hkin]; [auto|]). by apply elem_of_nil in Hkin.
  - intros Hlast. exists blk, len. split; [done|]. split; [done|].
    rewrite Forall_forall in Hok. destruct (Hok blk Hblk) as (_ & Hsep & _).
    destruct (stored_read db db' _ _ _ _ Hr Hst Hk Hblk Hsep) as (_ & _ & R3). apply R3.
    unfold lastp. by rewrite (proj2 (Z.eqb_eq _ _) Hlast).
  - intros ->. assert (Hint : DB_COL_INTERNAL ∈ DB_SPEC_columns) by left.
    apply (stored_get db db' _ _ _ _ _ _ Hr Hst Hint).
    + apply elem_of_store_ops. right; right. split_and!; [done..|]. exists n. unfold contiguous_num.
      by rewrite bool_decide_eq_true_2.
    + intros a [(it & _ & Ha)|[(E' & _)|(_ & _ & m & Hm & ->)]]%elem_of_store_ops; [by item_op_cases Ha|done|].
      unfold contiguous_num in Hm. rewrite bool_decide_eq_true_2 in Hm by done. by simplify_eq.
Qed.
End fetched.

Module BlockStoreExamples.
Import TestExternals.
#[export] Instance bc_header : Bincode BlockHeader := {| serialize h := [0; b_num h]; deserialize _ := None |}.
#[export] Instance bc_block : Bincode StoredSerializingBlock :=
  {| serialize b := [b_num (header (stored_block b))]; deserialize _ := None |}.
#[export] Instance bc_tx : Bincode Transaction := {| serialize t := [tx_version t]; deserialize _ := None |}.
#[export] Instance bc_meta : Bincode BlockchainItemMeta := {|
  serialize m := match m with MetaBlock b l => [0; b; l] | MetaTx b t => [1; b; t] end;
  deserialize l := match l with [0; b; l] => Some (MetaBlock b l) | [1; b; t] => Some (MetaTx b t) | _ => None end |}.
#[export] Instance bc_meta_laws : BincodeLaws BlockchainItemMeta.
Proof. by intros []. Qed.
#[export] Instance bc_Z : Bincode Z := {| serialize z := [z]; deserialize := head |}.
#[export] Instance js_block : SerdeJson StoredSerializingBlock := {| to_json b := [1; b_num (header (stored_block b))] |}.
#[export] Instance js_tx : SerdeJson Transaction := {| to_json t := [2; tx_version t] |}.

Definition db0 : SimpleDb :=
  match new_in_memory [0] DB_SPEC_columns None with Ret (inr db) => db | _ => mkSimpleDb ∅ [] end.
Lemma db0_ready : db_ready db0.
Proof.
  split.
  - apply (new_in_memory_wf [0] DB_SPEC_columns); [(apply (bool_decide_unpack (NoDup _)); vm_compute; exact I)|]. by vm_compute.
  - apply Forall_forall. (apply (bool_decide_unpack (Forall _ _)); vm_compute; exact I).
Qed.

Definition tx0 (v : Z) : Transaction := mkTransaction [] [] v None.
Definition block3 : CommonBlockInfo :=
  mkCommonBlockInfo
    (mkBlock (empty_header <| b_num := 3 |> <| nonce_and_mining_tx_hash := ([7], "m1"%string) |>
               <| txs_merkle_root_and_hash := (EmptyString, "a1"%string) |>) ["a1"%string])
    {["a1"%string := tx0 8; "m1"%string := tx0 9]} 0 0 (mkUnicorn 0 0 0 1) 0.
Definition complete3 : CompleteBlock := mkCompleteBlock block3 (mkMinedBlockExtraInfo false).
Definition bh3 : string :=
  match construct_valid_block_pow_hash (cb_block block3) with Ret (inr h) => h | _ => EmptyString end.

Lemma store_complete_block_readable_witness :
  ∃ db', store_complete_block db0 (Contiguous 3) complete3 = Ret (stored_info bh3 block3 false, db') ∧
    get_stored_value_from_db db' (string_codes "m1") =
      Ret (Some (mkBlockchainItem 5 (MetaTx 3 1) (string_codes "m1") [9] [2; 9])).
Proof.
  destruct (store_complete_block_readable db0 (Contiguous 3) complete3 bh3 db0_ready)
    as (db' & H1 & _ & _ & H2 & _).
  - vm_compute. reflexivity.
  - split; [by apply Z.leb_le|by apply Z.ltb_lt].
  - apply Z.ltb_lt. reflexivity.
  - split; [(apply (bool_decide_unpack (NoDup _)); vm_compute; exact I)|(apply (bool_decide_unpack (Forall _ _)); vm_compute; exact I)].
  - intros E. vm_compute in E. discriminate E.
  - exists db'. split; [exact H1|]. apply (H2 1%nat "m1"%string (tx0 9)); [reflexivity|vm_compute; reflexivity|left].
Defined.

Definition blk3 : BlockchainItem := mkBlockchainItem 4 (MetaBlock 3 1) [98; 1] [5] [6].
Definition txi3 : BlockchainItem := mkBlockchainItem 4 (MetaTx 3 0) [97; 1] [7] [8].
Definition last3 : BlockStoredInfo := mkBlockStoredInfo EmptyString 3 [] ∅ false.
Lemma store_fetched_readable_witness :
  ∃ db', store_fetched_complete_block db0 last3 (Contiguous 3) (3, [blk3; txi3]) = Ret (inr (Contiguous 3), db') ∧
    get_stored_value_from_db db' [97; 1] = Ret (Some (read_item txi3)).
Proof.
  destruct (store_fetched_readable db0 last3 (Contiguous 3) 3 [blk3; txi3] db0_ready) as (db' & H1 & _ & H2 & _).
  - split; [by apply Z.leb_le|by apply Z.ltb_lt].
  - apply Z.leb_le. reflexivity.
  - exists 1, blk3, [txi3]. repeat split; reflexivity.
  - (apply (bool_decide_unpack (NoDup _)); vm_compute; exact I).
  - (apply (bool_decide_unpack (Forall _ _)); vm_compute; exact I).
  - exists db'. split; [exact H1|]. apply (H2 txi3); [right; left|left].
Defined.

Lemma pointer_roundtrip_witness :
  ∃ key', decode_version_pointer (version_pointer DB_COL_BC_NOW [98; 58; 1]) = Ret (5, DB_COL_BC_NOW, key') ∧
    key' ≠ [98; 58; 1].
Proof.
  destruct (pointer_roundtrip DB_COL_BC_NOW 5 [98; 58; 1]) as (key' & H1 & H2); [left|].
  exists key'. split; [exact H1|]. rewrite H2. intros Hn. apply Hn. right; left.
Defined.
End BlockStoreExamples.
