(* ===== verification/Storage.v ===== *)
(** * The storage node: [StorageNode] of [src/storage.rs]

    Requests, committed data, catch-up, shutdown.  The communication layer is a
    list of the messages handed to it ([outbox]); a failed sending is only
    logged by the source.  The database is behind a mutex that the node holds
    for the length of an operation, so it is a field. *)
From S2P Require Import Prelude Externals Utils Unicorn Interfaces ActiveRaft RaftUtil DbUtils StorageFetch StorageRaft BlockStore Requests.

(** What the node sends: [ComputeRequest], [MineRequest] and [StorageRequest]. *)
Inductive Sent (M : Type) :=
  | ComputeSendBlockStored (info : BlockStoredInfo)
  | ComputeClosing
  | MineSendBlockchainItem (key : string) (item : BlockchainItem)
  | StorageSend (req : StorageRequest M).
Arguments ComputeSendBlockStored {M}. Arguments ComputeClosing {M}. Arguments MineSendBlockchainItem {M}.
Arguments StorageSend {M}.

Record StorageNode (M : Type) := mkStorageNode {
  node_raft : StorageRaft M;
  catchup_fetch : StorageFetch;
  db : SimpleDb;
  local_events : list LocalEvent;
  compute_addr : SocketAddr;
  whitelisted : gmap SocketAddr bool;
  shutdown_group : gset SocketAddr;
  blockchain_item_fetched : option (string * BlockchainItem * SocketAddr);
  outbox : list (SocketAddr * Sent M);
}.
Arguments mkStorageNode {M}. Arguments node_raft {M}. Arguments catchup_fetch {M}. Arguments db {M}.
Arguments local_events {M}. Arguments compute_addr {M}. Arguments whitelisted {M}. Arguments shutdown_group {M}.
Arguments blockchain_item_fetched {M}. Arguments outbox {M}.
#[export] Instance eta_StorageNode M : Eta (StorageNode M) := λ r,
  mkStorageNode (node_raft r) (catchup_fetch r) (db r) (local_events r) (compute_addr r) (whitelisted r)
    (shutdown_group r) (blockchain_item_fetched r) (outbox r).

(** The configuration fields that [StorageNode::new] reads. *)
Record StorageNodeConfig := mkStorageNodeConfig {
  cfg_compute_nodes : list SocketAddr;
  cfg_raft : StorageRaftConfig;
}.

Section storage.
Context `{Naom, Hex, Bincode BlockHeader, Bincode StoredSerializingBlock, Bincode Transaction,
  Bincode BlockchainItemMeta, Bincode Z, SerdeJson StoredSerializingBlock, SerdeJson Transaction}.
Context `{Bincode CommonBlockInfo, Bincode RaftContextKey, Bincode StorageRaftItem, Bincode StorageConsensused}.
Context {M : Type} `{Bincode (StorageRequest M)}.
Implicit Types n : StorageNode M.

Definition send n (peer : SocketAddr) (msg : Sent M) : StorageNode M := n <| outbox ::= λ l, l ++ [(peer, msg)] |>.

(** *** Construction *)
Definition load_local_db n : outcome (StorageError + StorageNode M) :=
  let! stored := get_cf (db n) DB_COL_INTERNAL (string_codes RAFT_KEY_RUN) in
  match match stored with
        | Some key_run => (λ k, wrap64 (k + 1)) <$> deserialize (T := Z) key_run
        | None => Some 0
        end with
  | None => Ret (inl SerializationError)
  | Some key_run =>
      let! db' := put_cf (db n) DB_COL_INTERNAL (string_codes RAFT_KEY_RUN) (serialize key_run) in
      let n := n <| db := db' |> <| node_raft ::= λ r, sr_set_key_run r key_run |> in
      let! last := get_cf (db n) DB_COL_INTERNAL (string_codes LAST_CONTIGUOUS_BLOCK_KEY) in
      match last with
      | None => Ret (inr (n <| catchup_fetch ::= λ f, set_initial_last_contiguous_block_key f None |>))
      | Some b_num =>
          match deserialize (T := Z) b_num with
          | None => Ret (inl SerializationError)
          | Some b_num =>
              Ret (inr (n <| catchup_fetch ::= λ f, set_initial_last_contiguous_block_key f (Some b_num) |>))
          end
      end
  end.

(** [NV] is the serialized network version that [new_db] checks. *)
Definition StorageNode_new (NV : list Z) (config : StorageNodeConfig) (extra_db : option SimpleDb) :
    outcome (StorageError + StorageNode M) :=
  let rc := cfg_raft config in
  match config_storage_nodes rc !! storage_node_idx rc, cfg_compute_nodes config !! storage_node_idx rc with
  | None, _ => Ret (inl (ConfigError "Invalid storage index"))
  | _, None => Ret (inl (ConfigError "Invalid compute index"))
  | Some addr, Some compute_addr =>
      let! raft := StorageRaft_new rc in
      let! db := new_db NV DB_SPEC_columns extra_db in
      load_local_db (mkStorageNode raft (StorageFetch_new (config_storage_nodes rc) addr) db [] compute_addr ∅
        (list_to_set (raft_peer_addrs (raft_active raft) ++ [compute_addr])) None [])
  end.

(** *** Sending *)
Definition get_stored_value n (key : string) : outcome (option BlockchainItem) :=
  get_stored_value_from_db (db n) (string_codes key).

Definition send_stored_block n : StorageNode M :=
  match get_last_block_stored (consensused (node_raft n)) with
  | Some block => send n (compute_addr n) (ComputeSendBlockStored block)
  | None => n
  end.
Definition resend_trigger_message n : StorageNode M := send_stored_block n.

Definition catchup_fetch_blockchain_item n : StorageNode M :=
  match get_fetch_peer_and_key (catchup_fetch n) with
  | Some (peer, key) => send n peer (StorageSend (GetBlockchainItem key))
  | None => n
  end.

Definition flood_closing_events n : bool * StorageNode M :=
  let n := send n (compute_addr n) ComputeClosing in
  let n := foldl (λ n peer, send n peer (StorageSend Closing)) n (raft_peer_addrs (raft_active (node_raft n))) in
  (bool_decide (shutdown_group n = ∅), n).

(** [peer_type] is the type under which a peer is connected. *)
Definition send_blockchain_item (peer_type : SocketAddr → option NodeType) n : StorageNode M :=
  match blockchain_item_fetched n with
  | Some (key, item, peer) =>
      let n := n <| blockchain_item_fetched := None |> in
      match peer_type peer with
      | Some Miner => send n peer (MineSendBlockchainItem key item)
      | Some NodeStorage => send n peer (StorageSend (SendBlockchainItem key item))
      | _ => n
      end
  | None => n
  end.

(** *** Requests *)
Definition get_blockchain_item n (peer : SocketAddr) (key : string) : outcome (Response * StorageNode M) :=
  let! item := get_stored_value n key in
  Ret (ok "Blockchain item fetched from storage",
       n <| blockchain_item_fetched := Some (key, default BlockchainItem_default item, peer) |>).

Definition receive_blockchain_item n (item : BlockchainItem) : outcome (Response * StorageNode M) :=
  let '(to_store, f) := receive_blockchain_items (catchup_fetch n) item in
  let n := n <| catchup_fetch := f |> in
  let is_complete := is_complete f in
  match to_store with
  | Some block =>
      let b_num := block.1 in
      let! res := match get_last_block_stored (consensused (node_raft n)) with
                  | Some last_stored =>
                      if b_num <=? bs_block_num last_stored then
                        store_fetched_complete_block (db n) last_stored
                          (check_contiguous_block_num (catchup_fetch n) b_num) block
                      else Ret (inl (ConfigError "Expect only block less than block stored"), db n)
                  | None => Ret (inl (ConfigError "Expect only block less than block stored"), db n)
                  end in
      let n := n <| db := res.2 |> in
      match res.1 with
      | inr status =>
          let n := n <| catchup_fetch ::= λ f, set_first_timeout (update_contiguous_block_num f status) |> in
          Ret (ok (if is_complete then "Blockchain item received: Block stored(Done)"
                   else "Blockchain item received: Block stored"), n)
      | inl _ => Ret (failed "Blockchain item received: Block failed", n)
      end
  | None =>
      Ret (ok "Blockchain item received",
           if is_complete then n else n <| catchup_fetch ::= set_first_timeout |>)
  end.

Definition whitelist n (address : SocketAddr) : Response * StorageNode M :=
  (ok "Address added to whitelist", n <| whitelisted ::= <[address := true]> |>).

Definition receive_closing n (peer : SocketAddr) : option Response * StorageNode M :=
  if negb (bool_decide (peer ∈ shutdown_group n)) then (None, n)
  else
    let n := n <| shutdown_group ::= λ g, g ∖ {[peer]} |> in
    if bool_decide (peer = compute_addr n) then (Some (ok "Compute Shutdown"), n)
    else if negb (bool_decide (shutdown_group n = ∅)) then (Some (ok "Shutdown pending"), n)
    else (Some (ok "Shutdown"), n).

Definition receive_block n (peer : SocketAddr) (mined_block : option MinedBlock) :
    outcome (option Response * StorageNode M) :=
  match mined_block with
  | None => Ret (None, resend_trigger_message n)
  | Some (mkMinedBlock common extra_info) =>
      let! res := construct_valid_block_pow_hash (cb_block common) in
      match res with
      | inl _ => Ret (Some (failed "Block received not added. PoW invalid"), n)
      | inr _ =>
          let! x := propose_received_part_block (node_raft n) peer common extra_info in
          let n := n <| node_raft := x.2 |> in
          if x.1 then Ret (Some (ok "Block received to be added"), n)
          else Ret (None, resend_trigger_message (n <| node_raft ::= sr_re_propose_uncommitted_current_b_num |>))
      end
  end.

Definition handle_request n (peer : SocketAddr) (req : StorageRequest M) :
    outcome (option Response * StorageNode M) :=
  match req with
  | GetBlockchainItem key => let! x := get_blockchain_item n peer key in Ret (Some x.1, x.2)
  | SendBlockchainItem key item => let! x := receive_blockchain_item n item in Ret (Some x.1, x.2)
  | GetHistory _ _ | GetUnicornTable _ | SendPow _ | Store => Ret (Some (failed "Not implemented yet"), n)
  | SendBlock mined_block => receive_block n peer mined_block
  | Closing => Ret (receive_closing n peer)
  | SendRaftCmd msg => Ret (None, n <| node_raft ::= λ r, sr_received_message r msg |>)
  end.

Definition handle_new_frame n (peer : SocketAddr) (frame : list Z) :
    outcome ((StorageError + option Response) * StorageNode M) :=
  match deserialize (T := StorageRequest M) frame with
  | None => Ret (inl SerializationError, n)
  | Some req => let! x := handle_request n peer req in Ret (inr x.1, x.2)
  end.

(** *** Committed data *)
Definition handle_committed_data n (commit_data : RaftCommit) : outcome (option Response * StorageNode M) :=
  let! x := received_commit (node_raft n) commit_data in
  let n := n <| node_raft := x.2 |> in
  match x.1 with
  | Some CommittedBlock =>
      let! y := sr_generate_complete_block (node_raft n) in
      let '(block, raft) := y in
      let b_num := b_num (header (cb_block (common block))) in
      let contiguous := check_contiguous_block_num (catchup_fetch n) b_num in
      let! z := store_complete_block (db n) contiguous block in
      let '(block_stored, db') := z in
      let! raft := event_processed_generate_snapshot raft block_stored in
      Ret (Some (ok "Block complete stored"),
           n <| node_raft := raft |> <| db := db' |>
             <| catchup_fetch ::= λ f, increase_running_target (update_contiguous_block_num f contiguous) b_num |>)
  | Some CommittedSnapshot =>
      match get_last_block_stored (consensused (node_raft n)) with
      | Some stored =>
          let '(fetch, f) := fetch_missing_blockchain_items (catchup_fetch n) (bs_block_num stored) in
          Ret (Some (ok (if fetch then "Snapshot applied: Fetch missing blocks" else "Snapshot applied")),
               n <| catchup_fetch := f |>)
      | None => Ret (Some (ok "Snapshot applied"), n)
      end
  | None => Ret (None, n)
  end.

(** *** The event loop *)
Definition handle_local_event (event : LocalEvent) : option Response :=
  match event with
  | Exit reason => Some (ok reason)
  | ReconnectionComplete => Some (ok "Sent startup requests on reconnection")
  | CoordinatedShutdown _ | Ignore => None
  end.

(** The branches of the [select!], each with what it receives. *)
Inductive Selected :=
  | SelEvent (peer : SocketAddr) (frame : list Z)
  | SelCommit
  | SelMsg
  | SelTimeout
  | SelLocal
  | SelExit (reason : string).

(** One branch: [None] when it is not enabled or nothing is there for it;
    otherwise the response that ends the loop, if any. *)
Definition handle_next_event (msg_to : M → Z) n (sel : Selected) :
    outcome (option (option (StorageError + Response) * StorageNode M)) :=
  let ready := negb (need_initial_state (node_raft n)) in
  let shutdown := is_shutdown_commit_processed (node_raft n) in
  match sel with
  | SelEvent peer frame =>
      if ready then
        let! x := handle_new_frame n peer frame in
        Ret (Some (match x.1 with inl e => Some (inl e) | inr r => inr <$> r end, x.2))
      else Ret None
  | SelCommit =>
      if shutdown then Ret None
      else
        match sr_next_commit (node_raft n) with
        | None => Ret None
        | Some (commit, raft) =>
            let! x := handle_committed_data (n <| node_raft := raft |>) commit in
            Ret (Some (inr <$> x.1, x.2))
        end
  | SelMsg =>
      if ready then
        let! x := next_msg msg_to (raft_active (node_raft n)) in
        match x with
        | None => Ret None
        | Some (addr, msg, ra) =>
            Ret (Some (None, send (n <| node_raft ::= λ r, r <| raft_active := ra |> |>) addr
                               (StorageSend (SendRaftCmd msg))))
        end
      else Ret None
  | SelTimeout =>
      if ready && bool_decide (is_Some (to_receive (catchup_fetch n))) then
        let '(retrying, f) := set_retry_timeout (catchup_fetch n) in
        Ret (Some (Some (inr (ok "Catch up stored blocks")),
                   n <| catchup_fetch := if retrying then change_to_next_fetch_peer f else f |>))
      else Ret None
  | SelLocal =>
      if ready then
        match local_events n with
        | [] => Ret None
        | event :: rest => Ret (Some (inr <$> handle_local_event event, n <| local_events := rest |>))
        end
      else Ret None
  | SelExit reason => Ret (Some (Some (inr (ok reason)), n))
  end.

(** The reasons with no case here are only logged. *)
Definition handle_next_event_response (peer_type : SocketAddr → option NodeType) n
    (response : StorageError + Response) : ResponseResult * StorageNode M :=
  match response with
  | inr (mkResponse true reason) =>
      if String.eqb reason "Blockchain item fetched from storage" then
        (ResultContinue, send_blockchain_item peer_type n)
      else if String.eqb reason "Shutdown" then (ResultExit, n)
      else if String.eqb reason "Compute Shutdown" then
        let '(b, n) := flood_closing_events n in ((if b then ResultExit else ResultContinue), n)
      else if String.eqb reason "Block complete stored" then (ResultContinue, send_stored_block n)
      else if String.eqb reason "Catch up stored blocks" then (ResultContinue, catchup_fetch_blockchain_item n)
      else (ResultContinue, n)
  | _ => (ResultContinue, n)
  end.
End storage.

(** ** Committed blocks are stored *)
Lemma need_backup_ret c b : modulo_block_num c ≠ Some 0 → ∃ r, need_backup c b = Ret r.
Proof.
  intros Hm. unfold need_backup. destruct (modulo_block_num c) as [m|]; [|by eexists].
  destruct (b =? 0); [by eexists|]. destruct (Z.eqb_spec m 0) as [->|]; [done|by eexists].
Qed.

Lemma stored_info_fields bh c s : bs_block_hash (stored_info bh c s) = bh ∧
  bs_block_num (stored_info bh c s) = block_number c ∧ bs_shutdown (stored_info bh c s) = s.
Proof. unfold stored_info. by destruct (nonce_and_mining_tx_hash (header (cb_block c))). Qed.

Section committed.
Context `{Naom, Hex, Bincode BlockHeader, Bincode StoredSerializingBlock, Bincode Transaction,
  !Bincode BlockchainItemMeta, !BincodeLaws BlockchainItemMeta, Bincode Z,
  SerdeJson StoredSerializingBlock, SerdeJson Transaction}.
Context `{Bincode CommonBlockInfo, Bincode RaftContextKey, Bincode StorageRaftItem, Bincode StorageConsensused}.
Context {M : Type} `{Bincode (StorageRequest M)}.
Implicit Types n : StorageNode M.

(** What [receive_block] checked of a block, and the form of its hashes. *)
Definition block_valid (c : CommonBlockInfo) : Prop :=
  (∃ bh, construct_valid_block_pow_hash (cb_block c) = Ret (inr bh) ∧ block_keys_ok c bh) ∧
  is_u64 (block_number c) ∧ zlen (block_hashes c) < 2 ^ 32 ∧
  (block_number c = 0 → Forall (λ h, is_Some (cb_block_txs c !! h)) (transactions (cb_block c))).

Definition node_ok n : Prop :=
  consensused_wf (consensused (node_raft n)) ∧ parts_all block_valid (consensused (node_raft n)) ∧
  db_ready (db n) ∧ modulo_block_num (backup_check (node_raft n)) ≠ Some 0.

Lemma snapshot_ret (r : StorageRaft M) info : modulo_block_num (backup_check r) ≠ Some 0 →
  ∃ r', event_processed_generate_snapshot r info = Ret r' ∧
    consensused r' = consensused r <| last_block_stored := Some info |> ∧ backup_check r' = backup_check r ∧
    shutdown_no_commit_process r' = shutdown_no_commit_process r || bs_shutdown info.
Proof.
  intros Hm. unfold event_processed_generate_snapshot, sr_need_backup. cbn.
  destruct (need_backup_ret (backup_check r) (bs_block_num info) Hm) as [b ->]. cbn [obind].
  eexists. split; [reflexivity|]. destruct (bs_shutdown info); cbn; by rewrite ?orb_true_r, ?orb_false_r.
Qed.

(** C4: a committed part of a valid block is processed without panic and keeps
    the node well formed.  Either nothing is stored and the block number stays,
    or exactly the block of the current number is stored: it is then read back
    by its hash, its number and as the last block, it is what will be reported
    to the compute node, the contiguous number advances when it is the next
    one, and commits stop when its nodes asked for a shutdown. *)
Theorem commit_stores_block n (i t : Z) (data ctx : list Z) (block : ReceivedBlock) (key : RaftContextKey) :
  node_ok n → deserialize data = Some (PartBlock block) → deserialize ctx = Some key →
  block_valid (rb_common block) →
  let cur := current_block_num (consensused (node_raft n)) in
  ∃ res n', handle_committed_data n (mkRaftCommit t i (Proposed data ctx)) = Ret (res, n') ∧ node_ok n' ∧
    match res with
    | None => db n' = db n ∧ catchup_fetch n' = catchup_fetch n ∧
        current_block_num (consensused (node_raft n')) = cur ∧
        last_block_stored (consensused (node_raft n')) = last_block_stored (consensused (node_raft n))
    | Some r => r = ok "Block complete stored" ∧
        current_block_num (consensused (node_raft n')) = wrap64 (cur + 1) ∧
        ∃ info c, last_block_stored (consensused (node_raft n')) = Some info ∧ bs_block_num info = cur ∧
          block_number c = cur ∧
          (∀ k, k ∈ [bs_block_hash info; indexed_block_hash_key cur; LAST_BLOCK_HASH_KEY] →
            get_stored_value n' k = Ret (Some (block_blockchain_item c (bs_block_hash info)))) ∧
          last_contiguous_block_num (catchup_fetch n') =
            (if cur =? next_contiguous (catchup_fetch n) then Some cur
             else last_contiguous_block_num (catchup_fetch n)) ∧
          is_shutdown_commit_processed (node_raft n') =
            is_shutdown_commit_processed (node_raft n) || bs_shutdown info
    end.
Proof.
  intros (Hwf & Hall & Hdb & Hbk) Hdata Hctx Hvalid cur. unfold handle_committed_data, received_commit.
  cbn [commit_data index term]. unfold sr_received_commit_proposal.
  set (r0 := node_raft n <| consensused ::= _ |>).
  unfold received_commit_proposal. rewrite Hdata, Hctx. cbn [obind fst snd].
  set (p := in_flight r0 <| _ ::= _ |> <| _ ::= _ |>). set (r1 := r0 <| in_flight := p |>).
  pose proof (commit_item_cases block_valid r1 key block Hwf Hall Hvalid) as Hc.
  destruct (commit_item r1 key (PartBlock block)) as [[[]|] r']; cbn [fst snd].
  - destruct Hc as (_ & Hb & _ & Hsh & b & c' & Hg & Hwf' & Hemp & Hnum & ((bh & Hbh & Hkeys) & Hu & Hlen & Hgen) & Hcn & Hi).
    change (node_raft (n <| node_raft := r' |>)) with r'. rewrite Hg. cbn [obind].
    fold (block_number (common b)).
    destruct (store_complete_block_readable (db n) (check_contiguous_block_num (catchup_fetch n) (block_number (common b)))
      b bh Hdb Hbh Hu Hlen Hkeys Hgen) as (db' & Hst & Hdb' & Hread & _ & _).
    change (catchup_fetch (n <| node_raft := r' |>)) with (catchup_fetch n).
    change (db (n <| node_raft := r' |>)) with (db n). rewrite Hst. cbn [obind].
    set (info := stored_info bh (common b) (extra_shutdown (extra_info b))) in *.
    destruct (stored_info_fields bh (common b) (extra_shutdown (extra_info b))) as (Hib & Hin & His). fold info in Hib, Hin, His.
    destruct (snapshot_ret (r' <| consensused := c' |>) info) as (r'' & Hsn & Hcons & Hbk' & Hsh').
    { cbn. by rewrite Hb. }
    rewrite Hsn. cbn [obind]. eexists _, _. split; [reflexivity|].
    change (consensused (r' <| consensused := c' |>)) with c' in Hcons.
    change (backup_check (r' <| consensused := c' |>)) with (backup_check r') in Hbk'.
    change (shutdown_no_commit_process (r' <| consensused := c' |>)) with (shutdown_no_commit_process r') in Hsh'.
    change (current_block_num (consensused r1)) with cur in Hnum, Hcn.
    match goal with |- node_ok ?x ∧ _ => set (n2 := x) end.
    assert (Hr2 : node_raft n2 = r'') by reflexivity. assert (Hd2 : db n2 = db') by reflexivity.
    assert (Hf2 : last_contiguous_block_num (catchup_fetch n2) =
      (if cur =? next_contiguous (catchup_fetch n) then Some cur else last_contiguous_block_num (catchup_fetch n))).
    { unfold n2. rewrite Hnum. cbn. unfold check_contiguous_block_num. by destruct (_ =? _). }
    clearbody n2. unfold node_ok, get_stored_value, is_shutdown_commit_processed. rewrite Hr2, Hd2, Hf2, Hcons, Hbk', Hb, Hsh', Hsh.
    split; [split_and!|].
    + split; [exact (proj1 Hwf')|]. cbn. rewrite Hemp. intros h b' Hb'. by apply lookup_empty_Some in Hb'.
    + intros h b' Hb'. cbn in Hb'. rewrite Hemp in Hb'. by apply lookup_empty_Some in Hb'.
    + exact Hdb'.
    + exact Hbk.
    + split; [done|]. split; [exact Hcn|]. exists info, (common b).
      split; [done|]. split; [by rewrite Hin|]. split; [done|]. split; [|split; [done|]].
      * intros k Hk. rewrite Hib in Hk |- *. apply Hread. by rewrite Hnum.
      * by rewrite His.
  - by destruct Hc as (_ & _ & _ & _ & []).
  - destruct Hc as (_ & Hb & _ & Hsh & Hwf' & Hall' & Hcn & Hls & Hi). eexists _, _. split; [reflexivity|]. split.
    + split; [done|]. split; [done|]. split; [done|]. cbn. by rewrite Hb.
    + split_and!; [done|done|exact Hcn|exact Hls].
Qed.
End committed.

(** ** Shutdown *)
Section shutdown.
Context {M : Type} (peer_type : SocketAddr → option NodeType).
Implicit Types n : StorageNode M.

(** A closing event and its response, as the event loop processes them. *)
Definition closing_step n (peer : SocketAddr) : ResponseResult * StorageNode M :=
  match receive_closing n peer with
  | (Some response, n) => handle_next_event_response peer_type n (inr response)
  | (None, n) => (ResultContinue, n)
  end.
Fixpoint closing_run n (peers : list SocketAddr) : ResponseResult * StorageNode M :=
  match peers with
  | [] => (ResultContinue, n)
  | peer :: peers =>
      match closing_step n peer with
      | (ResultExit, n) => (ResultExit, n)
      | (ResultContinue, n) => closing_run n peers
      end
  end.

Lemma flood_closing_events_fields n : let '(b, n') := flood_closing_events n in
  b = bool_decide (shutdown_group n = ∅) ∧ shutdown_group n' = shutdown_group n.
Proof.
  unfold flood_closing_events. set (l := raft_peer_addrs _).
  assert (Hg : ∀ l n, shutdown_group (foldl (λ n peer, send n peer (StorageSend Closing)) n l) = shutdown_group n).
  { clear. induction l as [|p l IH]; intros n; cbn [foldl]; [done|]. by rewrite IH. }
  by rewrite Hg.
Qed.

(** Facts on removing one element. *)
Lemma difference_empty_sub (g l : gset SocketAddr) p : g ∖ {[p]} = ∅ → g ⊆ {[p]} ∪ l.
Proof. intros Hg x Hx. destruct (decide (x = p)) as [->|]; set_solver. Qed.
Lemma difference_empty_notin (g : gset SocketAddr) p : g ∖ {[p]} = ∅ → p ∉ g → g = ∅.
Proof. set_solver. Qed.
Lemma difference_sub (g l : gset SocketAddr) p : g ∖ {[p]} ⊆ l ↔ g ⊆ {[p]} ∪ l.
Proof.
  split; [|set_solver]. intros Hs x Hx. destruct (decide (x = p)) as [->|]; set_solver.
Qed.

Lemma closing_step_spec n peer :
  shutdown_group (closing_step n peer).2 = shutdown_group n ∖ {[peer]} ∧
  ((closing_step n peer).1 = ResultExit ↔ peer ∈ shutdown_group n ∧ shutdown_group n ∖ {[peer]} = ∅).
Proof.
  unfold closing_step, receive_closing.
  destruct (bool_decide_reflect (peer ∈ shutdown_group n)) as [Hin|Hnin]; cbn [negb].
  2:{ cbn. split; [set_solver|]. split; [done|by intros [? _]]. }
  set (n1 := n <| shutdown_group ::= λ g, g ∖ {[peer]} |>).
  change (shutdown_group n ∖ {[peer]}) with (shutdown_group n1).
  change (compute_addr n1) with (compute_addr n).
  destruct (bool_decide_reflect (peer = compute_addr n)) as [_|_].
  - change (handle_next_event_response peer_type n1 (inr (ok "Compute Shutdown"))) with
      (let '(b, n) := flood_closing_events n1 in ((if b then ResultExit else ResultContinue), n)).
    pose proof (flood_closing_events_fields n1) as Hf. destruct (flood_closing_events n1) as [b n2].
    destruct Hf as [-> Hg]. cbn [fst snd]. split; [done|].
    destruct (bool_decide_reflect (shutdown_group n1 = ∅)); naive_solver.
  - destruct (bool_decide_reflect (shutdown_group n1 = ∅)) as [He|He]; cbn [negb].
    + change (handle_next_event_response peer_type n1 (inr (ok "Shutdown"))) with (ResultExit, n1). cbn. done.
    + change (handle_next_event_response peer_type n1 (inr (ok "Shutdown pending"))) with (ResultContinue, n1).
      cbn. split; [done|]. split; [done|by intros [_ ?]].
Qed.

(** Coordinated shutdown: whatever the order and the repetition of the
    closing events, the node exits once the compute node and every other
    storage node have closed, and not before. *)
Theorem closing_exit n peers : shutdown_group n ≠ ∅ →
  (closing_run n peers).1 = ResultExit ↔ shutdown_group n ⊆ list_to_set peers.
Proof.
  revert n. induction peers as [|peer peers IH]; intros n Hne; cbn [closing_run].
  - cbn. split; [done|set_solver].
  - destruct (closing_step_spec n peer) as [Hg He]. destruct (closing_step n peer) as [[] n1]; cbn [fst snd] in *.
    + split; [intros _|done]. destruct He as [He _]. destruct (He eq_refl) as [_ Hemp]. by apply difference_empty_sub.
    + destruct (decide (shutdown_group n1 = ∅)) as [Hemp|Hne1].
      * exfalso. assert (peer ∉ shutdown_group n) as Hp.
        { intros Hin. enough (ResultContinue = ResultExit) by done. apply He. split; [done|]. by rewrite <-Hg. }
       
        rewrite Hg in Hemp. by apply Hne, (difference_empty_notin _ peer).
      * rewrite (IH n1 Hne1), Hg. apply difference_sub.
Qed.
End shutdown.

(** ** Restart *)
Section restart.
Context `{Bincode Z, !BincodeLaws Z}.
Context {M : Type}.
Implicit Types n : StorageNode M.

Lemma put_internal db key v : db_ready db → ∃ db', put_cf db DB_COL_INTERNAL key v = Ret db' ∧ db_ready db' ∧
  get_cf db' DB_COL_INTERNAL key = Ret (Some v) ∧
  ∀ key', key' ≠ key → get_cf db' DB_COL_INTERNAL key' = get_cf db DB_COL_INTERNAL key'.
Proof.
  intros [Hwf Hcols]. destruct (Hcols DB_COL_INTERNAL ltac:(left)) as [i Hi].
  assert (Hopen : Forall (λ o : op, is_Some (columns db !! o.1.1)) [(DB_COL_INTERNAL, key, Some v)]) by (repeat constructor; by exists i).
  pose proof (db_op_write db (DB_COL_INTERNAL, key, Some v) i Hwf Hi) as Hop. unfold db_op in Hop. cbn [fst snd] in Hop.
  destruct (write_entries db [(DB_COL_INTERNAL, key, Some v)] [entry_of i (DB_COL_INTERNAL, key, Some v)] Hwf)
    as (db' & Hw & Hwf' & Hcol & Hcont); [by repeat constructor; exists i|].
  exists db'. rewrite Hop. split; [done|]. split.
  { split; [done|]. intros cf Hcf. rewrite Hcol. by apply Hcols. }
  pose proof (column_map_content db DB_COL_INTERNAL Hwf) as Hm.
  destruct (content db DB_COL_INTERNAL) as [m|] eqn:Em; [|by destruct Hm as [Hm _]; rewrite Hi in Hm].
  assert (Hc : content db' DB_COL_INTERNAL = Some (<[key := v]> m)).
  { rewrite Hcont. cbn [foldl]. unfold apply_op. cbn [fst snd]. rewrite decide_True by done. by rewrite Em. }
  split; [|intros key' Hne]; rewrite !get_cf_content, Hc by done; [by rewrite lookup_insert_eq|].
  by rewrite lookup_insert_ne, Em.
Qed.

(** Every start of a node uses a run of its own: the run proposed with is one
    more than the stored one (zero at the first start) and is stored, so that
    the next start takes the next one, and the keys of proposals made in
    different runs differ; the contiguous block number is restored. *)
Theorem restart_fresh_run n (run last : option Z) : db_ready (db n) →
  get_cf (db n) DB_COL_INTERNAL (string_codes RAFT_KEY_RUN) = Ret (serialize <$> run) →
  get_cf (db n) DB_COL_INTERNAL (string_codes LAST_CONTIGUOUS_BLOCK_KEY) = Ret (serialize <$> last) →
  let run' := match run with Some k => wrap64 (k + 1) | None => 0 end in
  ∃ n', load_local_db n = Ret (inr n') ∧ db_ready (db n') ∧
    proposed_key_run (in_flight (node_raft n')) = Some run' ∧
    get_cf (db n') DB_COL_INTERNAL (string_codes RAFT_KEY_RUN) = Ret (Some (serialize run')) ∧
    last_contiguous_block_num (catchup_fetch n') = last.
Proof.
  intros Hdb Hrun Hlast run'. unfold load_local_db. rewrite Hrun. cbn [obind].
  assert (Hk : match serialize <$> run with
               | Some key_run => (λ k, wrap64 (k + 1)) <$> deserialize (T := Z) key_run
               | None => Some 0 end = Some run').
  { unfold run'. destruct run as [k|]; cbn; [|done]. by rewrite deserialize_serialize. }
  rewrite Hk. destruct (put_internal (db n) (string_codes RAFT_KEY_RUN) (serialize run') Hdb)
    as (db' & Hput & Hdb' & Hget & Hother). rewrite Hput. cbn [obind].
  change (db (n <| db := db' |> <| node_raft ::= λ r, sr_set_key_run r run' |>)) with db'.
  rewrite Hother, Hlast by done. cbn [obind].
  destruct last as [b|]; cbn [fmap option_fmap option_map].
  - rewrite deserialize_serialize. eexists. split; [reflexivity|]. done.
  - eexists. split; [reflexivity|]. done.
Qed.
End restart.

(** ** Catching up *)
Section catching_up.
Context `{!Bincode BlockchainItemMeta, !BincodeLaws BlockchainItemMeta, Bincode Z}.
Context {M : Type}.
Implicit Types n : StorageNode M.

(** When the item received completes a block that consensus has already
    stored, the block is stored: every item of it is then served under its key
    and its index, and the contiguous block number advances when the block is
    the next one.  A block that consensus has not stored is refused and
    nothing is written. *)
Theorem fetched_block_stored n (r : FetchReceive) (item : BlockchainItem) (b : Z) items f last :
  db_ready (db n) → to_receive (catchup_fetch n) = Some r → receive_wf r b →
  receive_blockchain_items (catchup_fetch n) item = (Some (b, items), f) →
  get_last_block_stored (consensused (node_raft n)) = Some last →
  zlen items ≤ 2 ^ 32 → NoDup (map item_key items) →
  Forall (λ it, valid_utf8 (item_key it) = true ∧ DB_POINTER_SEPARATOR ∉ item_key it ∧
                head (item_key it) ≠ Some NAMED_CONSTANT_PREPEND) items →
  ∃ response n', receive_blockchain_item n item = Ret (response, n') ∧
    if b <=? bs_block_num last then
      success response = true ∧ db_ready (db n') ∧
      (∀ it, it ∈ items → ∀ k, string_codes k ∈ [item_key it; meta_key (item_meta it)] →
        get_stored_value n' k = Ret (Some (read_item it))) ∧
      last_contiguous_block_num (catchup_fetch n') =
        (if b =? next_contiguous (catchup_fetch n) then Some b else last_contiguous_block_num (catchup_fetch n))
    else success response = false ∧ db n' = db n.
Proof.
  intros Hdb Hr Hwf Hrec Hlast Hlen Hnd Hok. unfold receive_blockchain_item. rewrite Hrec. cbn [fst snd].
  change (node_raft (n <| catchup_fetch := f |>)) with (node_raft n). rewrite Hlast.
  change (db (n <| catchup_fetch := f |>)) with (db n). change (catchup_fetch (n <| catchup_fetch := f |>)) with f.
  destruct (Z.leb_spec b (bs_block_num last)) as [Hle|Hgt]; [|by eexists _, _].
  pose proof (receive_blockchain_items_wf _ r b item Hr Hwf) as Hc. rewrite Hrec in Hc. destruct Hc as (_ & Hchain & _).
  assert (Hu : is_u64 b) by (destruct Hwf as (? & ? & _); unfold is_u64 in *; lia).
  assert (Hf : last_contiguous_block_num f = last_contiguous_block_num (catchup_fetch n)).
  { unfold receive_blockchain_items in Hrec. rewrite Hr in Hrec.
    destruct (negb _ && _); [done|]. destruct (fr_receive_blockchain_items r item). by simplify_eq. }
  set (status := check_contiguous_block_num f b).
  destruct (store_fetched_readable (db n) last status b items Hdb Hu Hlen Hchain Hnd Hok)
    as (db' & Hst & Hdb' & Hread & _). rewrite Hst. cbn [obind fst snd].
  eexists _, _. split; [reflexivity|]. split; [done|]. split; [exact Hdb'|]. split.
  - intros it Hit k Hk. by apply (Hread it Hit).
  - unfold status, check_contiguous_block_num, next_contiguous. rewrite Hf. cbn.
    destruct (b =? _); cbn; [done|exact Hf].
Qed.
End catching_up.

Module StorageExamples.
Import TestExternals StorageRaftExamples BlockStoreExamples.
#[export] Instance bc_Z_laws : BincodeLaws Z.
Proof. done. Qed.

(** A node on its own, about to store block 3. *)
Definition a1 : SocketAddr := AddrV4 1 1.
Definition a2 : SocketAddr := AddrV4 2 2.
Definition r3 : StorageRaft unit :=
  mkStorageRaft true (mkActiveRaft false 1 [] [] [] [] ∅ [] [] true) (mkStorageConsensused 1 3 ∅ (0, 0) (Some last3)) true
    (set_key_run RaftInFlightProposals_default 0) false (mkBackupCheck None).
Definition n3 : StorageNode unit :=
  mkStorageNode r3 (StorageFetch_new [] a1) db0 [] a2 ∅ {[a1; a2]} None [].

Lemma block7_valid : block_valid (block7 3).
Proof.
  split; [|split; [|split]].
  - exists (match construct_valid_block_pow_hash (cb_block (block7 3)) with Ret (inr h) => h | _ => EmptyString end).
    split; [by vm_compute|]. split; [apply (bool_decide_unpack (NoDup _))|apply (bool_decide_unpack (Forall _ _))];
      vm_compute; exact I.
  - by split; [apply Z.leb_le|apply Z.ltb_lt].
  - by apply Z.ltb_lt.
  - by intros ?.
Qed.

Lemma n3_ok : node_ok n3.
Proof.
  split; [split; [by apply Z.leb_le|]|split; [|split; [exact db0_ready|done]]];
    intros h b Hb; change ((∅ : gmap (list Z) CompleteBlockBuilder) !! h = Some b) in Hb; by rewrite lookup_empty in Hb.
Qed.

Lemma commit_stores_block_witness :
  ∃ res n', handle_committed_data n3 (mkRaftCommit 1 9 (Proposed [3] [1; 0; 0])) = Ret (res, n') ∧ node_ok n' ∧
    res = Some (ok "Block complete stored") ∧ current_block_num (consensused (node_raft n')) = 4.
Proof.
  destruct (commit_stores_block n3 9 1 [3] [1; 0; 0]
    (mkReceivedBlock (AddrV4 1 1) (block7 3) (mkMinedBlockExtraInfo false)) (mkRaftContextKey 1 0 0) n3_ok)
    as (res & n' & H1 & H2 & H3); [reflexivity|reflexivity|exact block7_valid|].
  exists res, n'. split; [exact H1|]. split; [exact H2|].
  destruct res as [resp|].
  - destruct H3 as (H3 & H4 & _). split; [by rewrite H3|exact H4].
  - exfalso. vm_compute in H1. discriminate H1.
Defined.

Lemma closing_exit_witness :
  (closing_run (λ _, None) n3 [a1; a1; AddrV4 9 9; a2]).1 = ResultExit.
Proof.
  apply (closing_exit (λ _, None) n3).
  - intros E. apply (f_equal (λ s, bool_decide (a1 ∈ s))) in E. vm_compute in E. discriminate E.
  - apply (bool_decide_unpack (_ ⊆ _)). vm_compute. exact I.
Defined.

Lemma restart_fresh_run_witness :
  ∃ n', load_local_db n3 = Ret (inr n') ∧ proposed_key_run (in_flight (node_raft n')) = Some 0.
Proof.
  destruct (restart_fresh_run n3 None None db0_ready) as (n' & H1 & _ & H2 & _).
  - vm_compute. reflexivity.
  - vm_compute. reflexivity.
  - exists n'. split; [exact H1|exact H2].
Defined.

(** Fetching block 3 after its item was received. *)
Definition fr3 : FetchReceive := mkFetchReceive 3 (WaitTxs 3 0 1) false [blk3].
Definition n3_fetching : StorageNode unit :=
  n3 <| catchup_fetch := mkStorageFetch [a2] 0 (Some 2) (Some fr3) |>.
Lemma fetched_block_stored_witness :
  ∃ response n', receive_blockchain_item n3_fetching txi3 = Ret (response, n') ∧ success response = true ∧
    last_contiguous_block_num (catchup_fetch n') = Some 3.
Proof.
  destruct (fetched_block_stored n3_fetching fr3 txi3 3 [blk3; txi3] (mkStorageFetch [a2] 0 (Some 2) None) last3)
    as (response & n' & H1 & H2).
  - exact db0_ready.
  - reflexivity.
  - split; [split; [by apply Z.leb_le|by apply Z.ltb_lt]|]. split; [split; by apply Z.leb_le|].
    split; [done|]. split; [split; [by apply Z.leb_le|by apply Z.ltb_lt]|]. by exists blk3, [].
  - reflexivity.
  - reflexivity.
  - by apply Z.leb_le.
  - apply (bool_decide_unpack (NoDup _)). vm_compute. exact I.
  - apply (bool_decide_unpack (Forall _ _)). vm_compute. exact I.
  - exists response, n'. split; [exact H1|]. destruct H2 as (H2 & _ & _ & H3). split; [exact H2|exact H3].
Defined.
End StorageExamples.
