(* ===== verification/PreLaunch.v ===== *)
(** * The pre-launch node: [src/pre_launch.rs]

    Before a raft group starts again from saved databases, its nodes run once as
    pre-launch nodes: the first one sends the whole of its raft database to the
    others, which import it; each announces that it closes when it is done, and
    exits once everybody has.  The definitions come first, then the run of a
    receiving node over the messages it gets, in any order. *)
From S2P Require Import Prelude Externals Utils DbUtils RaftStore Interfaces Comms StorageFetch Compute BlockStore.

(** ** Data *)
(** [interfaces.rs] *)
Record DbItem := mkDbItem { di_column : string; di_key : list Z; di_data : list Z }.
Module PreLaunchRequest.
Inductive t := SendDbItems (committed : CommittedIndex) (items : list DbItem) | Closing.
End PreLaunchRequest.

(** [configurations.rs] *)
Inductive PreLaunchNodeType := PreLaunchCompute | PreLaunchStorage.
Record PreLaunchNodeConfig := mkPreLaunchNodeConfig {
  plc_node_type : PreLaunchNodeType;
  plc_compute_node_idx : nat;
  plc_storage_node_idx : nat;
  plc_socket_name_mapping : gmap SocketAddr string;
  plc_compute_nodes : list SocketAddr;
  plc_storage_nodes : list SocketAddr;
  plc_peer_limit : Z;
}.

Inductive PreLaunchError := PreLaunchConfig (e : string) | PreLaunchNetwork (e : CommsError) | PreLaunchSerialization.

Record PreLaunchNodeConfigSelected := mkSelected {
  pre_launch_node_idx : nat;
  sel_socket_name_mapping : gmap SocketAddr string;
  sel_pre_launch_nodes : list SocketAddr;
  db_spec : list string;
  raft_db_spec : list string;
  sel_peer_limit : Z;
}.

Definition PreLaunchNodeConfigSelected_new (c : PreLaunchNodeConfig) : PreLaunchNodeConfigSelected :=
  match plc_node_type c with
  | PreLaunchCompute =>
      mkSelected (plc_compute_node_idx c) (plc_socket_name_mapping c) (plc_compute_nodes c)
        [Compute.DB_COL_INTERNAL; DB_COL_LOCAL_TXS] [] (plc_peer_limit c)
  | PreLaunchStorage =>
      mkSelected (plc_storage_node_idx c) (plc_socket_name_mapping c) (plc_storage_nodes c)
        DB_SPEC_columns [] (plc_peer_limit c)
  end.

Record PreLaunchNode (C : Type) := mkPreLaunchNode {
  pl_node : Node C;
  pl_db : SimpleDb;
  pl_raft_db : SimpleDb;
  pl_local_events : list LocalEvent;
  pre_launch_nodes : list SocketAddr;
  pl_shutdown_group : gset SocketAddr;
  raft_db_send : option PreLaunchRequest.t;
}.
Arguments mkPreLaunchNode {C}. Arguments pl_node {C}. Arguments pl_db {C}. Arguments pl_raft_db {C}.
Arguments pl_local_events {C}. Arguments pre_launch_nodes {C}. Arguments pl_shutdown_group {C}. Arguments raft_db_send {C}.
#[export] Instance eta_PreLaunchNode C : Eta (PreLaunchNode C) := λ r,
  mkPreLaunchNode (pl_node r) (pl_db r) (pl_raft_db r) (pl_local_events r) (pre_launch_nodes r) (pl_shutdown_group r)
    (raft_db_send r).

Section pre_launch.
Context `{CommsCrates, Ipv6Display, RaftCrate}.
Context `{Bincode PreLaunchRequest.t, Bincode SnapMetadata}.
(** [NETWORK_VERSION] and its serialized form, set by the build. *)
Context (NETWORK_VERSION : Z) (NV : list Z).
Notation PreLaunchNode := (PreLaunchNode TlsCertificate).
Implicit Types n : PreLaunchNode.

(** ** Start *)
Definition db_items (db : SimpleDb) : outcome (list DbItem) :=
  let! all := iter_all_cf_clone db in
  Ret (c ← all; (λ kv : list Z * list Z, mkDbItem c.1 kv.1 kv.2) <$> c.2).

(** Opening the sockets is assumed to succeed. *)
Definition PreLaunchNode_new (config : PreLaunchNodeConfig) (extra_db extra_raft_db : option SimpleDb) (rng : nat → Z) :
    outcome (PreLaunchError + PreLaunchNode) :=
  let config := PreLaunchNodeConfigSelected_new config in
  match sel_pre_launch_nodes config !! pre_launch_node_idx config with
  | None => Ret (inl (PreLaunchConfig "Invalid pre-launch index"))
  | Some addr =>
      let nd := Node_new addr (sel_socket_name_mapping config) rng (sel_peer_limit config) PreLaunch NETWORK_VERSION false false in
      let! db := new_db NV (db_spec config) extra_db in
      let! raft_db := new_db NV (raft_db_spec config) extra_raft_db in
      let shutdown_group := (list_to_set (sel_pre_launch_nodes config) : gset SocketAddr) in
      let pre_launch_nodes := filter (λ a, a ≠ addr) (sel_pre_launch_nodes config) in
      let mk raft_db_send := mkPreLaunchNode nd db raft_db [] pre_launch_nodes shutdown_group raft_db_send in
      if Nat.eqb (pre_launch_node_idx config) 0 then
        let! committed := get_presistent_committed raft_db in
        match committed with
        | inl _ => Ret (inl (PreLaunchConfig "Invalid pre-launch index"))
        | inr committed =>
            let! items := db_items raft_db in
            Ret (inr (mk (Some (PreLaunchRequest.SendDbItems (default (mkCommittedIndex 0 0) committed) items))))
        end
      else Ret (inr (mk None))
  end.

Definition local_address n : SocketAddr := local_listener_address (pl_node n).
Definition public_address n : option SocketAddr := public_listener_address (pl_node n).
Definition connect_info_peers n : list SocketAddr * list SocketAddr := (pre_launch_nodes n, pre_launch_nodes n).

Definition take_closed_extra_params n : (SimpleDb * SimpleDb) * PreLaunchNode :=
  let '(db, rest) := db_take (pl_db n) in
  let '(raft_db, raft_rest) := db_take (pl_raft_db n) in
  ((db, raft_db), n <| pl_db := rest |> <| pl_raft_db := raft_rest |>).

(** ** Messages *)
Definition send_all n (req : PreLaunchRequest.t) : PreLaunchNode :=
  n <| pl_node ::= λ nd, (send_to_all nd (pre_launch_nodes n) (serialize req)).2 |>.

Definition flood_closing_events n : bool * PreLaunchNode :=
  let n := n <| pl_shutdown_group ::= λ g, g ∖ {[local_address n]} |> in
  let n := send_all n PreLaunchRequest.Closing in
  (bool_decide (pl_shutdown_group n = ∅), n).

Definition send_startup_requests n : PreLaunchNode :=
  let n := if bool_decide (is_Some (raft_db_send n)) then (flood_closing_events n).2 else n in
  match raft_db_send n with Some r => send_all n r | None => n end.

Definition receive_db_items n (peer : SocketAddr) (committed : CommittedIndex) (items : list DbItem) :
    outcome (option Response * PreLaunchNode) :=
  let! x := import_items (pl_raft_db n) ((λ i, (di_column i, di_key i, di_data i)) <$> items) in
  let n := n <| pl_raft_db := x.2 |> in
  match x.1 with
  | inl _ => Ret (Some (failed "Received Invalid Db Items"), n)
  | inr _ => Ret (Some (ok "Received Db Items"), n)
  end.

Definition receive_closing n (peer : SocketAddr) : option Response * PreLaunchNode :=
  if negb (bool_decide (peer ∈ pl_shutdown_group n)) then (None, n)
  else
    let n := n <| pl_shutdown_group ::= λ g, g ∖ {[peer]} |> in
    if negb (bool_decide (pl_shutdown_group n = ∅)) then (Some (ok "Shutdown pending"), n)
    else (Some (ok "Shutdown"), n).

Definition handle_request n (peer : SocketAddr) (req : PreLaunchRequest.t) : outcome (option Response * PreLaunchNode) :=
  match req with
  | PreLaunchRequest.SendDbItems committed items => receive_db_items n peer committed items
  | PreLaunchRequest.Closing => Ret (receive_closing n peer)
  end.

Definition handle_new_frame n (peer : SocketAddr) (frame : list Z) :
    outcome ((PreLaunchError + option Response) * PreLaunchNode) :=
  match deserialize (T := PreLaunchRequest.t) frame with
  | None => Ret (inl PreLaunchSerialization, n)
  | Some req => let! x := handle_request n peer req in Ret (inr x.1, x.2)
  end.

(** The sending of the start-up requests does not fail. *)
Definition handle_local_event n (event : LocalEvent) : option Response * PreLaunchNode :=
  match event with
  | Exit reason => (Some (ok reason), n)
  | ReconnectionComplete => (Some (ok "Sent startup requests on reconnection"), send_startup_requests n)
  | CoordinatedShutdown _ | Ignore => (None, n)
  end.

(** The branches of the event loop. *)
Inductive Selected := SelEvent | SelLocal | SelExit (reason : string).

(** [None] when the branch has nothing to do yet. *)
Definition handle_next_event n (sel : Selected) : outcome (option (option (PreLaunchError + Response) * PreLaunchNode)) :=
  match sel with
  | SelEvent =>
      match next_event (pl_node n) with
      | None => Ret None
      | Some (NewFrame peer frame, nd) =>
          let! x := handle_new_frame (n <| pl_node := nd |>) peer frame in
          Ret (Some (match x.1 with inl err => Some (inl err) | inr r => inr <$> r end, x.2))
      end
  | SelLocal =>
      match pl_local_events n with
      | [] => Ret None
      | event :: rest =>
          let '(r, n) := handle_local_event (n <| pl_local_events := rest |>) event in Ret (Some (inr <$> r, n))
      end
  | SelExit reason => Ret (Some (Some (inr (ok reason)), n))
  end.

(** The reasons with no case here are only logged. *)
Definition handle_next_event_response n (response : PreLaunchError + Response) : ResponseResult * PreLaunchNode :=
  match response with
  | inr (mkResponse true reason) =>
      if String.eqb reason "Shutdown" then (ResultExit, n)
      else if String.eqb reason "Received Db Items" then
        let '(b, n) := flood_closing_events n in ((if b then ResultExit else ResultContinue), n)
      else (ResultContinue, n)
  | _ => (ResultContinue, n)
  end.
End pre_launch.

(** ** What is sent and imported *)
Definition di_op (i : DbItem) : op := (di_column i, di_key i, Some (di_data i)).

(** The entries of a map, put over another one. *)
Lemma put_all_entries (m mr : gmap (list Z) (list Z)) :
  foldl kv_op mr ((λ kv : list Z * list Z, (kv.1, Some kv.2)) <$> bt_iter m) = m ∪ mr.
Proof.
  apply map_eq. intros k. set (l := _ <$> bt_iter m).
  assert (Hl : ∀ k v, (k, v) ∈ l ↔ ∃ x, v = Some x ∧ m !! k = Some x).
  { intros k' v. unfold l. rewrite list_elem_of_fmap. split.
    - intros ([k2 x] & [= -> ->] & Hin%elem_of_bt_iter). eauto.
    - intros (x & -> & Hx%elem_of_bt_iter). by exists (k', x). }
  destruct (decide (k ∈ l.*1)) as [Hin|Hn].
  - destruct (kv_ops_in mr l k Hin) as (v & Hv & ->). apply Hl in Hv as (x & -> & Hx). by rewrite (lookup_union_Some_l _ _ _ _ Hx).
  - rewrite kv_ops_other by done. rewrite lookup_union_r; [done|]. destruct (m !! k) as [x|] eqn:E; [|done].
    exfalso. apply Hn, list_elem_of_fmap. exists (k, Some x). split; [done|]. apply Hl. eauto.
Qed.

Lemma ops_column cf (l : list (list Z * option (list Z))) c cf' :
  foldl apply_op c ((λ o, (cf, o.1, o.2)) <$> l) cf' = if decide (cf' = cf) then (λ m, foldl kv_op m l) <$> c cf else c cf'.
Proof.
  case_decide as D; [subst cf'|].
  - destruct (c cf) as [m|] eqn:E.
    + change ((λ o : list Z * option (list Z), (cf, o.1, o.2)) <$> l) with (map (λ o : list Z * option (list Z), (cf, o.1, o.2)) l).
      by rewrite (apply_op_column cf l c m E).
    + cbn. revert c E. induction l as [|o l IH]; intros c E; [done|]. cbn. apply IH. unfold apply_op. cbn. by rewrite decide_True, E.
  - revert c. induction l as [|o l IH]; intros c; [done|]. cbn. rewrite IH. unfold apply_op. cbn. by rewrite decide_False.
Qed.

Lemma iter_all_spec db : db_wf db →
  iter_all_cf_clone db = Ret ((λ cf, (cf, bt_iter (default ∅ (content db cf)))) <$> open_columns db).
Proof.
  intros Hwf. unfold iter_all_cf_clone.
  assert (Hg : ∀ cols acc, (∀ cf, cf ∈ cols → is_Some (content db cf)) →
    ofold (λ l cf, let! it := iter_cf_clone db cf in Ret (l ++ [(cf, it)])) acc cols =
    Ret (acc ++ ((λ cf, (cf, bt_iter (default ∅ (content db cf)))) <$> cols))).
  { induction cols as [|cf cols IH]; intros acc Hc; cbn [ofold fmap list_fmap]; [by rewrite app_nil_r|].
    pose proof (column_map_content db cf Hwf) as Hm. destruct (Hc cf) as [m Em]; [apply list_elem_of_here|]. rewrite Em in Hm |- *.
    destruct Hm as (i & _ & Ei). unfold iter_cf_clone. rewrite Ei. cbn [obind snd default from_option].
    rewrite IH; [by rewrite <-(assoc_L (++))|]. intros cf' Hin. apply Hc. by apply list_elem_of_further. }
  rewrite Hg; [done|]. intros cf Hin. unfold open_columns in Hin. apply elem_of_bt_keys in Hin as [i Hi].
  destruct Hwf as [Hlt _]. unfold content. rewrite Hi. cbn. apply lookup_lt_is_Some, (Hlt cf i Hi).
Qed.

(** Importing all the items of a database puts each of its columns over the one
    of the same name. *)
Lemma db_items_spec db : db_wf db → ∃ items, db_items db = Ret items ∧ (∀ i, i ∈ items → is_Some (columns db !! di_column i)) ∧
  ∀ c cf, foldl apply_op c (di_op <$> items) cf = match content db cf with Some m => (λ mr, m ∪ mr) <$> c cf | None => c cf end.
Proof.
  intros Hwf. unfold db_items. rewrite (iter_all_spec db Hwf). cbn [obind].
  set (part cf := (λ kv : list Z * list Z, mkDbItem cf kv.1 kv.2) <$> bt_iter (default ∅ (content db cf))).
  assert (Hb : ∀ cols : list string, (c ← (λ cf, (cf, bt_iter (default ∅ (content db cf)))) <$> cols;
      (λ kv : list Z * list Z, mkDbItem c.1 kv.1 kv.2) <$> c.2) = cols ≫= part).
  { induction cols as [|cf cols IH]; [done|]. rewrite fmap_cons, !bind_cons. by rewrite IH. }
  rewrite Hb. eexists. split; [reflexivity|]. split.
  - intros i (cf & Hi & Hin)%list_elem_of_bind. unfold part in Hi. apply list_elem_of_fmap in Hi as (kv & -> & _).
    cbn. unfold open_columns in Hin. by apply elem_of_bt_keys in Hin.
  - assert (Hg : ∀ cols c cf, NoDup cols → foldl apply_op c (di_op <$> (cols ≫= part)) cf =
      if decide (cf ∈ cols) then (λ mr, default ∅ (content db cf) ∪ mr) <$> c cf else c cf).
    { clear Hb. induction cols as [|cf' cols IH]; intros c cf Hnd; cbn [mbind list_bind fmap list_fmap foldl].
      - by rewrite decide_False by set_solver.
      - apply NoDup_cons in Hnd as [Hn Hnd]. rewrite fmap_app, foldl_app, IH by done.
        assert (Ep : di_op <$> part cf' = (λ o : list Z * option (list Z), (cf', o.1, o.2)) <$>
          ((λ kv : list Z * list Z, (kv.1, Some kv.2)) <$> bt_iter (default ∅ (content db cf')))).
        { unfold part. by rewrite <-!list_fmap_compose. }
        rewrite Ep, !ops_column. destruct (decide (cf = cf')) as [->|Hne].
        + rewrite decide_False by done. rewrite decide_True by apply list_elem_of_here.
          destruct (c cf') as [mr|]; [|done]. cbn. f_equal. apply put_all_entries.
        + destruct (decide (cf ∈ cols)).
          * by rewrite decide_True by by apply list_elem_of_further.
          * rewrite decide_False; [done|]. rewrite elem_of_cons. naive_solver. }
    intros c cf. rewrite Hg by apply bt_keys_NoDup. unfold content at 2. case_decide as D.
    + unfold open_columns in D. apply elem_of_bt_keys in D as [i Hi]. destruct Hwf as [Hlt _].
      unfold content. rewrite Hi. cbn. destruct (lookup_lt_is_Some_2 _ _ (Hlt cf i Hi)) as [m ->]. done.
    + destruct (columns db !! cf) as [i|] eqn:E; [|done]. exfalso. apply D, elem_of_bt_keys. by eexists.
Qed.

(** ** The run of a node over the messages it gets *)
Section runs.
Context `{CommsCrates, Ipv6Display, RaftCrate}.
Context `{Bincode PreLaunchRequest.t, !BincodeLaws PreLaunchRequest.t, Bincode SnapMetadata}.
Context (NETWORK_VERSION : Z) (NV : list Z).
Notation PreLaunchNode := (PreLaunchNode TlsCertificate).
Implicit Types n : PreLaunchNode.

(** The loop of the main program on the events that have arrived; whether the
    node stopped. *)
Fixpoint event_loop (fuel : nat) n : outcome (bool * PreLaunchNode) :=
  match fuel with
  | O => Ret (false, n)
  | S fuel =>
      let! x := handle_next_event n SelEvent in
      match x with
      | None => Ret (false, n)
      | Some (None, n) => event_loop fuel n
      | Some (Some r, n) =>
          match handle_next_event_response n r with
          | (ResultExit, n) => Ret (true, n)
          | (ResultContinue, n) => event_loop fuel n
          end
      end
  end.

Definition queued n (msgs : list (SocketAddr * list Z)) : Prop :=
  event_queue (pl_node n) = (λ m, NewFrame m.1 m.2) <$> msgs.
Definition says (m : SocketAddr * list Z) : option PreLaunchRequest.t := deserialize m.2.
Definition closing_from (p : SocketAddr) (msgs : list (SocketAddr * list Z)) : Prop :=
  ∃ f, (p, f) ∈ msgs ∧ deserialize f = Some PreLaunchRequest.Closing.
Definition has_items (msgs : list (SocketAddr * list Z)) : Prop :=
  ∃ m c items, m ∈ msgs ∧ says m = Some (PreLaunchRequest.SendDbItems c items).

(** The items of [msgs] can be imported. *)
Definition importable (cols : gmap string nat) (msgs : list (SocketAddr * list Z)) : Prop :=
  ∀ m c items, m ∈ msgs → says m = Some (PreLaunchRequest.SendDbItems c items) → ∀ i, i ∈ items → is_Some (cols !! di_column i).

(** What the messages still have to bring before a node with the group [g] stops. *)
Definition all_done (self : SocketAddr) (g : gset SocketAddr) (msgs : list (SocketAddr * list Z)) : Prop :=
  (∀ p, p ∈ g → p ≠ self → closing_from p msgs) ∧ (self ∈ g → has_items msgs).

Lemma import_all db items : db_wf db → (∀ i, i ∈ items → is_Some (columns db !! di_column i)) →
  ∃ db', import_items db ((λ i, (di_column i, di_key i, di_data i)) <$> items) = Ret (inr (), db') ∧ db_wf db' ∧
    columns db' = columns db ∧ ∀ cf, content db' cf = foldl apply_op (content db) (di_op <$> items) cf.
Proof.
  intros Hwf Hcol. unfold import_items. set (l := _ <$> items).
  assert (El : map item_op l = di_op <$> items) by (unfold l; clear; induction items as [|i items IH]; [done|]; cbn; by rewrite IH).
  pose proof (put_items_checked_spec (batch_writer db) l) as Hs. destruct (put_items_checked _ _) as [e|b].
  { exfalso. destruct Hs as (t & Hin & Hn & _). unfold l in Hin. apply list_elem_of_fmap in Hin as (i & -> & Hi).
    cbn in Hn. destruct (Hcol i Hi) as [? E]. congruence. }
  destruct Hs as [Hf Ho]. rewrite El in Ho.
  destruct (batch_spec db (di_op <$> items) Hwf) as (b' & db' & Hb & Hw & Hwf' & Hc & Hx).
  { apply Forall_fmap, Forall_forall. intros i Hi. by apply Hcol. }
  rewrite Ho in Hb. injection Hb as <-. rewrite Hw. cbn [obind]. by exists db'.
Qed.

(** Sending changes neither the queue, the address nor the peers; the message
    goes to every connected address. *)
Definition only_sends (nd nd' : Node TlsCertificate) : Prop :=
  event_queue nd' = event_queue nd ∧ local_listener_address nd' = local_listener_address nd ∧ peers nd' = peers nd ∧
  ∀ e, e ∈ sent nd → e ∈ sent nd'.

Lemma send_multicast_keeps (nd : Node TlsCertificate) l msg : let nd' := (send_multicast nd l msg).2 in
  only_sends nd nd' ∧ ∀ a, a ∈ l → is_Some (peers nd !! a) → (a, msg) ∈ sent nd'.
Proof.
  revert nd; induction l as [|a l IH]; intros nd; cbn.
  { split; [by split_and!|]. by intros a ?%not_elem_of_nil. }
  destruct (send_message nd a msg) as [res nd1] eqn:E.
  destruct (IH nd1) as [(E1 & E2 & E3 & E4) Hs]. destruct (send_multicast nd1 l msg) as [un nd2]. cbn in E1, E2, E3, E4, Hs |- *.
  assert (only_sends nd nd1 ∧ (is_Some (peers nd !! a) → (a, msg) ∈ sent nd1)) as [(F1 & F2 & F3 & F4) Ha].
  { revert E. unfold send_message. destruct (peers nd !! a); intros [= _ <-].
    - split; [split_and!; [done..|]; intros e He|intros _]; cbn; apply elem_of_app; [by left|right; by left].
    - split; [by split_and!|]. by intros [? ?]. }
  split.
  - unfold only_sends. rewrite E1, E2, E3. split_and!; [done..|]. auto.
  - intros q [->|Hin]%elem_of_cons Hp; [auto|]. apply Hs; [done|]. by rewrite F3.
Qed.

(** The peers that the launch waits for are connected, and have all got a message. *)
Definition all_connected n : Prop := ∀ p, p ∈ pre_launch_nodes n → is_Some (peers (pl_node n) !! p).
Definition told n (req : PreLaunchRequest.t) : Prop :=
  ∀ p, p ∈ pre_launch_nodes n → ∃ id, (p, Direct (serialize req) id) ∈ sent (pl_node n).

Lemma send_all_spec n req : ∃ nd, send_all n req = n <| pl_node := nd |> ∧ only_sends (pl_node n) nd ∧
  (all_connected n → told (n <| pl_node := nd |>) req).
Proof.
  exists (send_to_all (pl_node n) (pre_launch_nodes n) (serialize req)).2. split; [done|]. unfold told, send_to_all, gen.
  cbn [pre_launch_nodes pl_node setter].
  match goal with |- context [send_multicast ?a ?l ?m] => destruct (send_multicast_keeps a l m) as [Ho Hs] end.
  split; [exact Ho|]. intros Hc p Hp. eexists. apply Hs; [exact Hp|]. exact (Hc p Hp).
Qed.

Lemma flood_spec n : ∃ nd, flood_closing_events n = (bool_decide (pl_shutdown_group n ∖ {[local_address n]} = ∅),
    n <| pl_shutdown_group ::= λ g, g ∖ {[local_address n]} |> <| pl_node := nd |>) ∧ only_sends (pl_node n) nd ∧
  (all_connected n → told (n <| pl_node := nd |>) PreLaunchRequest.Closing).
Proof.
  unfold flood_closing_events.
  match goal with |- context [send_all ?m _] => destruct (send_all_spec m PreLaunchRequest.Closing) as (nd & E & Ho & Ht) end.
  exists nd. rewrite E. split; [done|]. by split.
Qed.

(** What a run leaves as it is; a node that is out of its own group has told the
    others that it closes. *)
Definition announced n : Prop := all_connected n ∧ (local_address n ∉ pl_shutdown_group n → told n PreLaunchRequest.Closing).
Definition run_frame n n' : Prop :=
  pre_launch_nodes n' = pre_launch_nodes n ∧ local_address n' = local_address n ∧
  (∀ e, e ∈ sent (pl_node n) → e ∈ sent (pl_node n')) ∧ (announced n → announced n').

Lemma told_more n n' req : pre_launch_nodes n' = pre_launch_nodes n → (∀ e, e ∈ sent (pl_node n) → e ∈ sent (pl_node n')) →
  told n req → told n' req.
Proof. intros E Hs Ht p Hp. rewrite E in Hp. destruct (Ht p Hp) as [id ?]. exists id. auto. Qed.
Lemma run_frame_trans n1 n2 n3 : run_frame n1 n2 → run_frame n2 n3 → run_frame n1 n3.
Proof. intros (E1 & E2 & E3 & E4) (F1 & F2 & F3 & F4). unfold run_frame. rewrite F1, F2. split_and!; auto. Qed.

(** One message: the group afterwards, and the database. *)
Definition group_after (self p : SocketAddr) (f : list Z) (g : gset SocketAddr) : gset SocketAddr :=
  match deserialize f with
  | Some PreLaunchRequest.Closing => g ∖ {[p]}
  | Some (PreLaunchRequest.SendDbItems _ _) => g ∖ {[self]}
  | None => g
  end.

Lemma message_step n p f msgs : queued n ((p, f) :: msgs) → db_wf (pl_raft_db n) → pl_shutdown_group n ≠ ∅ →
  importable (columns (pl_raft_db n)) ((p, f) :: msgs) →
  let g' := group_after (local_address n) p f (pl_shutdown_group n) in
  ∃ n', (∀ fuel, event_loop (S fuel) n = if bool_decide (g' = ∅) then Ret (true, n') else event_loop fuel n') ∧
    queued n' msgs ∧ pl_shutdown_group n' = g' ∧ local_address n' = local_address n ∧
    db_wf (pl_raft_db n') ∧ columns (pl_raft_db n') = columns (pl_raft_db n) ∧
    (∀ cf, content (pl_raft_db n') cf = match deserialize f with
      | Some (PreLaunchRequest.SendDbItems _ items) => foldl apply_op (content (pl_raft_db n)) (di_op <$> items) cf
      | _ => content (pl_raft_db n) cf
      end) ∧ (p ≠ local_address n → run_frame n n').
Proof.
  intros Hq Hwf Hne Himp g'. cbn [event_loop]. unfold handle_next_event, next_event. unfold queued in Hq. rewrite Hq.
  cbn [fmap list_fmap fst snd]. unfold handle_new_frame. subst g'. unfold group_after.
  destruct (deserialize f) as [[c items|]|] eqn:Ef; cbv iota; cbn [handle_request].
  - unfold receive_db_items. cbn [pl_raft_db setter].
    destruct (import_all (pl_raft_db n) items Hwf) as (db' & E & Hwf' & Hc & Hx).
    { apply (Himp (p, f) c items); [apply list_elem_of_here|exact Ef]. }
    rewrite E. cbn [obind fst snd fmap option_fmap option_map handle_next_event_response ok].
    match goal with |- context [flood_closing_events ?m] => destruct (flood_spec m) as (nd & Efl & (Eq & Ea & Ep & Es) & Ht) end.
    eexists. split; [intros fuel; cbn -[flood_closing_events]; rewrite Efl; cbn; by destruct (bool_decide _)|].
    split; [exact Eq|]. split; [done|]. split; [exact Ea|]. split_and!; [done..|]. intros _. split_and!; [done|exact Ea|exact Es|].
    intros [Hcn _]. split; [|intros _; by apply Ht]. intros q Hin. cbn. rewrite Ep. by apply Hcn.
  - unfold receive_closing. cbn [pl_shutdown_group setter].
    destruct (bool_decide (p ∈ pl_shutdown_group n)) eqn:Ep; cbn [negb].
    + eexists. split.
      * intros fuel. cbn. destruct (bool_decide (pl_shutdown_group n ∖ {[p]} = ∅)); cbn; reflexivity.
      * split_and!; [done..|]. intros Hpl. split_and!; [done..|]. intros [Hcn Hcl]. split; [done|].
        change (local_address n ∉ pl_shutdown_group n ∖ {[p]} → told n PreLaunchRequest.Closing). set_solver.
    + apply bool_decide_eq_false in Ep. eexists. split.
      * intros fuel. rewrite bool_decide_false; [cbn; reflexivity|]. intros He. apply Hne. set_solver.
      * split; [done|]. split; [cbn; set_solver|]. split_and!; [done..|]. intros _. by split_and!.
  - eexists. split; [intros fuel; rewrite bool_decide_false by done; cbn; reflexivity|]. split_and!; [done..|]. intros _. by split_and!.
Qed.
Lemma all_done_step self p f msgs g : p ≠ self → group_after self p f g ≠ ∅ →
  all_done self g ((p, f) :: msgs) ↔ all_done self (group_after self p f g) msgs.
Proof.
  intros Hp Hne. unfold all_done, group_after. unfold closing_from, has_items, says. cbn [fst snd].
  assert (Hci : ∀ q, (∃ f0, (q, f0) ∈ (p, f) :: msgs ∧ deserialize f0 = Some PreLaunchRequest.Closing) ↔
      (q = p ∧ deserialize f = Some PreLaunchRequest.Closing) ∨ ∃ f0, (q, f0) ∈ msgs ∧ deserialize f0 = Some PreLaunchRequest.Closing).
  { intros q. setoid_rewrite elem_of_cons. naive_solver. }
  assert (Hit : (∃ m c items, m ∈ (p, f) :: msgs ∧ deserialize m.2 = Some (PreLaunchRequest.SendDbItems c items)) ↔
      (∃ c items, deserialize f = Some (PreLaunchRequest.SendDbItems c items)) ∨
      ∃ m c items, m ∈ msgs ∧ deserialize m.2 = Some (PreLaunchRequest.SendDbItems c items)).
  { split.
    - intros (m & c & items & [->|Hin]%elem_of_cons & E); [left; cbn in E; eauto|right; eauto 6].
    - intros [(c & items & E)|(m & c & items & Hin & E)]; [exists (p, f), c, items|exists m, c, items];
        (split; [rewrite elem_of_cons; naive_solver|exact E]). }
  setoid_rewrite Hci. rewrite Hit.
  destruct (deserialize f) as [[c items|]|] eqn:Ef.
  - split.
    + intros [Hall _]. split; [|set_solver]. intros q Hq Hs. destruct (Hall q) as [[_ [=]]|]; [set_solver|done|done].
    + intros [Hall _]. split; [|eauto]. intros q Hq Hs. right. apply Hall; set_solver.
  - split; intros [Hall Hi]; split.
    + intros q Hq Hs. destruct (Hall q) as [[-> _]|]; [set_solver|done|set_solver|done].
    + intros Hself. destruct Hi as [(c & items & [=])|]; [set_solver|done].
    + intros q Hq Hs. destruct (decide (q = p)) as [->|]; [by left|right; apply Hall; set_solver].
    + intros Hself. right. apply Hi. set_solver.
  - split; intros [Hall Hi]; split.
    + intros q Hq Hs. destruct (Hall q Hq Hs) as [[_ [=]]|Hq']; exact Hq'.
    + intros Hself. destruct (Hi Hself) as [(c & items & [=])|Hi']; exact Hi'.
    + intros q Hq Hs. right. by apply Hall.
    + intros Hself. right. by apply Hi.
Qed.

Lemma all_done_last self p f msgs g : p ≠ self → g ≠ ∅ → group_after self p f g = ∅ → all_done self g ((p, f) :: msgs).
Proof.
  intros Hp Hne. unfold group_after. destruct (deserialize f) as [[c items|]|] eqn:Ef; [| |done]; intros Hg.
  - split; [|intros _; exists (p, f), c, items; split; [apply list_elem_of_here|exact Ef]].
    intros q Hq Hs. exfalso. assert (q ∈ g ∖ {[self]}) by set_solver. set_solver.
  - assert (Hq : ∀ q, q ∈ g → q = p) by (intros q Hq; destruct (decide (q = p)); [done|exfalso; assert (q ∈ g ∖ {[p]}) by set_solver; set_solver]).
    split; [|intros Hin%Hq; congruence]. intros q ->%Hq _. exists f. split; [apply list_elem_of_here|exact Ef].
Qed.

Lemma apply_ops_ext (ops : list op) c1 c2 : (∀ cf, c1 cf = c2 cf) → ∀ cf, foldl apply_op c1 ops cf = foldl apply_op c2 ops cf.
Proof.
  revert c1 c2; induction ops as [|o ops IH]; intros c1 c2 Hc cf; cbn; [done|]. apply IH. intros cf'. unfold apply_op. by rewrite Hc.
Qed.

(** The whole run; [ops] are the operations that import the items, the same in
    every message that has some.  The content is [c0] until they are imported. *)
Definition imported (ops : list op) (c0 : string → option (gmap (list Z) (list Z))) n : Prop :=
  (local_address n ∈ pl_shutdown_group n → ∀ cf, content (pl_raft_db n) cf = c0 cf) ∧
  (local_address n ∉ pl_shutdown_group n → ∀ cf, content (pl_raft_db n) cf = foldl apply_op c0 ops cf).

Lemma loop_spec (ops : list op) c0 n msgs : queued n msgs → db_wf (pl_raft_db n) → pl_shutdown_group n ≠ ∅ →
  importable (columns (pl_raft_db n)) msgs → (∀ m, m ∈ msgs → m.1 ≠ local_address n) →
  ∃ b n', event_loop (length msgs) n = Ret (b, n') ∧
    (b = true ↔ all_done (local_address n) (pl_shutdown_group n) msgs) ∧ db_wf (pl_raft_db n') ∧
    ((∀ m c items, m ∈ msgs → says m = Some (PreLaunchRequest.SendDbItems c items) → di_op <$> items = ops) →
     (∀ c cf, foldl apply_op (foldl apply_op c ops) ops cf = foldl apply_op c ops cf) → imported ops c0 n →
     b = true → ∀ cf, content (pl_raft_db n') cf = foldl apply_op c0 ops cf).
Proof.
  revert n; induction msgs as [|[p f] msgs IH]; intros n Hq Hwf Hne Himp Hself.
  - exists false, n. split; [done|]. split; [|done]. split; [done|]. intros [Hall Hi]. exfalso.
    destruct (decide (local_address n ∈ pl_shutdown_group n)) as [D|D].
    + destruct (Hi D) as (m & c & items & Hin & _). by apply elem_of_nil in Hin.
    + apply Hne. apply set_eq. intros q. split; [|set_solver]. intros Hin. destruct (Hall q Hin) as (f & Hf & _); [by intros ->|].
      by apply elem_of_nil in Hf.
  - assert (Hp : p ≠ local_address n) by apply (Hself (p, f)), list_elem_of_here.
    destruct (message_step n p f msgs Hq Hwf Hne Himp) as (n1 & Hrun & Hq1 & Hg1 & Ha1 & Hwf1 & Hc1 & Hx1 & _).
    assert (Himp1 : importable (columns (pl_raft_db n1)) msgs).
    { rewrite Hc1. intros m c items Hin. apply (Himp m c items). by apply list_elem_of_further. }
    assert (Hi1 : (∀ m c items, m ∈ (p, f) :: msgs → says m = Some (PreLaunchRequest.SendDbItems c items) → di_op <$> items = ops) →
        (∀ c cf, foldl apply_op (foldl apply_op c ops) ops cf = foldl apply_op c ops cf) → imported ops c0 n → imported ops c0 n1).
    { intros Hops Hid [Hw1 Hw2]. unfold imported. rewrite Ha1, Hg1. unfold group_after in *.
      destruct (deserialize f) as [[c items|]|] eqn:Ef.
      - assert (E : di_op <$> items = ops) by (apply (Hops (p, f) c); [apply list_elem_of_here|exact Ef]). rewrite E in Hx1.
        split; [set_solver|]. intros _ cf. rewrite Hx1. destruct (decide (local_address n ∈ pl_shutdown_group n)) as [D|D].
        + by apply apply_ops_ext, Hw1.
        + rewrite <-(Hid c0 cf). by apply apply_ops_ext, Hw2.
      - split; intros D cf; rewrite Hx1; [apply Hw1|apply Hw2]; set_solver.
      - split; intros D cf; rewrite Hx1; [apply Hw1|apply Hw2]; set_solver. }
    cbn [length]. rewrite Hrun. case_bool_decide as Hg.
    + exists true, n1. split; [done|]. split; [split; [intros _; by apply all_done_last|done]|]. split; [done|].
      intros Hops Hid Him _. destruct (Hi1 Hops Hid Him) as [_ Hw2]. apply Hw2. rewrite Ha1, Hg1, Hg. set_solver.
    + destruct (IH n1) as (b & n' & E & Hb & Hwf' & Hc'); [done|done|by rewrite Hg1|done| |].
      { intros m Hin. rewrite Ha1. apply Hself. by apply list_elem_of_further. }
      exists b, n'. split; [exact E|]. split; [rewrite Hb, Ha1, Hg1; symmetry; by apply all_done_step|]. split; [done|].
      intros Hops Hid Him Hbt. apply Hc'; [|done|by apply Hi1|done]. intros m c items Hin. apply (Hops m c). by apply list_elem_of_further.
Qed.

(** Whatever the order in which the messages arrive, and whatever else arrives in
    between, a node stops exactly when all the nodes of its group have announced
    that they close and, if it waits for the database of the first node, that
    database has arrived. *)
Theorem launch_exit_iff n msgs : queued n msgs → db_wf (pl_raft_db n) → pl_shutdown_group n ≠ ∅ →
  importable (columns (pl_raft_db n)) msgs → (∀ m, m ∈ msgs → m.1 ≠ local_address n) →
  ∃ b n', event_loop (length msgs) n = Ret (b, n') ∧
    (b = true ↔ (∀ p, p ∈ pl_shutdown_group n → p ≠ local_address n → closing_from p msgs) ∧
                (local_address n ∈ pl_shutdown_group n → has_items msgs)).
Proof.
  intros Hq Hwf Hne Himp Hself. destruct (loop_spec [] (content (pl_raft_db n)) n msgs) as (b & n' & E & Hb & _); [done..|]. by exists b, n'.
Qed.

(** A node that stopped, or that got the items, has told the others. *)
Lemma loop_announces n msgs : queued n msgs → db_wf (pl_raft_db n) → pl_shutdown_group n ≠ ∅ →
  importable (columns (pl_raft_db n)) msgs → (∀ m, m ∈ msgs → m.1 ≠ local_address n) →
  ∃ b n', event_loop (length msgs) n = Ret (b, n') ∧ run_frame n n' ∧
    (b = true ∨ has_items msgs ∨ local_address n ∉ pl_shutdown_group n → local_address n ∉ pl_shutdown_group n').
Proof.
  revert n; induction msgs as [|[p f] msgs IH]; intros n Hq Hwf Hne Himp Hself.
  - exists false, n. split; [done|]. split; [by split_and!|]. intros [?|[(m & c & items & ?%not_elem_of_nil & _)|?]]; done.
  - assert (Hp : p ≠ local_address n) by apply (Hself (p, f)), list_elem_of_here.
    destruct (message_step n p f msgs Hq Hwf Hne Himp) as (n1 & Hrun & Hq1 & Hg1 & Ha1 & Hwf1 & Hc1 & _ & Hfr).
    specialize (Hfr Hp). cbn [length]. rewrite Hrun. case_bool_decide as Hg.
    + exists true, n1. split; [done|]. split; [done|]. rewrite Hg1, Hg. set_solver.
    + destruct (IH n1) as (b & n' & E & Hf & Hb); [done|done|by rewrite Hg1| | |].
      { rewrite Hc1. intros m c items Hin. apply (Himp m c items). by apply list_elem_of_further. }
      { intros m Hin. rewrite Ha1. apply Hself. by apply list_elem_of_further. }
      exists b, n'. split; [exact E|]. split; [by eapply run_frame_trans|]. rewrite Ha1, Hg1 in Hb.
      intros [Hbt|[(m & c & items & [->|Hin]%elem_of_cons & Hs)|Hl]]; apply Hb; [by left| | |].
      * right; right. unfold says in Hs. cbn in Hs. unfold group_after. rewrite Hs. set_solver.
      * right; left. by exists m, c, items.
      * right; right. unfold group_after. destruct (deserialize f) as [[]|]; set_solver.
Qed.

(** *** A group of nodes *)
Lemma new_db_opened cols db db' : new_db NV cols (Some db) = Ret db' → db' = db.
Proof.
  unfold new_db, new_db_with_version, new_in_memory. destruct (check_old_includes_new _ _); [done|]. cbn [obind].
  intros ([|d] & Hd & Hr)%obind_ret; [done|]. injection Hr as [= <-]. apply obind_ret in Hd as ([|] & _ & [= <-]); done.
Qed.

Lemma node_starts config db raft_db rng n : PreLaunchNode_new NETWORK_VERSION NV config db (Some raft_db) rng = Ret (inr n) →
  let sel := PreLaunchNodeConfigSelected_new config in
  sel_pre_launch_nodes sel !! pre_launch_node_idx sel = Some (local_address n) ∧ pl_raft_db n = raft_db ∧
  pl_shutdown_group n = list_to_set (sel_pre_launch_nodes sel) ∧
  pre_launch_nodes n = filter (λ a, a ≠ local_address n) (sel_pre_launch_nodes sel) ∧
  if Nat.eqb (pre_launch_node_idx sel) 0 then ∃ c items, raft_db_send n = Some (PreLaunchRequest.SendDbItems c items)
  else raft_db_send n = None.
Proof.
  unfold PreLaunchNode_new. intros Hf. cbv zeta. destruct (sel_pre_launch_nodes _ !! _) as [addr|] eqn:Ea; [|done].
  apply obind_ret in Hf as (d & _ & Hf). apply obind_ret in Hf as (rd & ->%new_db_opened & Hf).
  destruct (Nat.eqb _ _); [|by injection Hf as <-].
  apply obind_ret in Hf as ([|cm] & _ & Hf); [done|]. apply obind_ret in Hf as (it & _ & Hf). injection Hf as <-.
  split_and!; [done..|]. by eexists _, _.
Qed.

(** A node that was started and is connected sends its start-up requests, and
    then handles the messages that arrive. *)
Definition start_run n (nd : Node TlsCertificate) (msgs : list (SocketAddr * list Z)) : PreLaunchNode :=
  send_startup_requests (n <| pl_node := nd |>)
    <| pl_node ::= λ nd, nd <| event_queue := (λ m, NewFrame m.1 m.2) <$> msgs |> |>.
Definition launched n (nd : Node TlsCertificate) (msgs : list (SocketAddr * list Z)) : PreLaunchNode :=
  match event_loop (length msgs) (start_run n nd msgs) with Ret x => x.2 | Panic => n end.

Lemma startup_spec n nd msgs : local_listener_address nd = local_address n → local_address n ∈ pl_shutdown_group n →
  all_connected (n <| pl_node := nd |>) → let n1 := start_run n nd msgs in
  queued n1 msgs ∧ pl_raft_db n1 = pl_raft_db n ∧ local_address n1 = local_address n ∧ pre_launch_nodes n1 = pre_launch_nodes n ∧
  announced n1 ∧
  match raft_db_send n with
  | Some r => pl_shutdown_group n1 = pl_shutdown_group n ∖ {[local_address n]} ∧ told n1 r
  | None => pl_shutdown_group n1 = pl_shutdown_group n
  end.
Proof.
  intros Ha Hin Hc. unfold start_run, send_startup_requests. cbn [raft_db_send setter].
  destruct (raft_db_send n) as [r|] eqn:Er.
  2:{ rewrite bool_decide_false by by intros []. cbn [raft_db_send setter]. rewrite Er. split_and!; try done.
      split; [exact Hc|]. intros Hn. exfalso. apply Hn. unfold local_address at 1. cbn. by rewrite Ha. }
  rewrite bool_decide_true by done. set (n0 := n <| pl_node := nd |>) in *.
  destruct (flood_spec n0) as (nd1 & E1 & (_ & A1 & P1 & S1) & T1). rewrite E1. cbn [snd].
  set (n1 := n0 <| pl_shutdown_group ::= _ |> <| pl_node := nd1 |>).
  assert (Er1 : raft_db_send n1 = Some r) by exact Er. rewrite Er1.
  destruct (send_all_spec n1 r) as (nd2 & E2 & (_ & A2 & P2 & S2) & T2). rewrite E2.
  assert (Hc1 : all_connected n1) by (intros p Hp; cbn; rewrite P1; exact (Hc p Hp)).
  assert (Ha0 : local_address n0 = local_address n) by exact Ha.
  split_and!; try done.
  - unfold local_address. cbn. by rewrite A2; cbn; rewrite A1.
  - split; [intros p Hp; cbn; rewrite P2; exact (Hc1 p Hp)|]. intros _. apply (told_more n1); [done|exact S2|exact (T1 Hc)].
  - cbn. by rewrite Ha0.
  - exact (T2 Hc1).
Qed.

(** The node at place [i] of the group [G]: it was started there, is connected to
    the others, and can import what it is sent. *)
Record launch_node (G : list SocketAddr) (i : nat) (a : SocketAddr) n (nd : Node TlsCertificate)
    (msgs : list (SocketAddr * list Z)) : Prop := {
  ln_place : G !! i = Some a;
  ln_started : ∃ config db raft_db rng, PreLaunchNode_new NETWORK_VERSION NV config db (Some raft_db) rng = Ret (inr n) ∧
    sel_pre_launch_nodes (PreLaunchNodeConfigSelected_new config) = G ∧
    pre_launch_node_idx (PreLaunchNodeConfigSelected_new config) = i;
  ln_db : db_wf (pl_raft_db n);
  ln_address : local_listener_address nd = a;
  ln_connected : ∀ p, p ∈ G → p ≠ a → is_Some (peers nd !! p);
  ln_importable : importable (columns (pl_raft_db n)) msgs;
  ln_others : ∀ m, m ∈ msgs → m.1 ≠ a;
}.

(** Such a node, after its start-up requests. *)
Lemma launch_node_start G i a n nd msgs : NoDup G → (2 <= length G)%nat → launch_node G i a n nd msgs →
  let n1 := start_run n nd msgs in
  queued n1 msgs ∧ db_wf (pl_raft_db n1) ∧ pl_shutdown_group n1 ≠ ∅ ∧ importable (columns (pl_raft_db n1)) msgs ∧
  local_address n1 = a ∧ (∀ p, p ∈ pre_launch_nodes n1 ↔ p ∈ G ∧ p ≠ a) ∧ announced n1 ∧
  (∀ p, p ∈ pl_shutdown_group n1 ↔ p ∈ G ∧ (p = a → i ≠ 0%nat)) ∧
  (i = 0%nat → ∃ c items, told n1 (PreLaunchRequest.SendDbItems c items)).
Proof.
  intros Hnd Hlen [Hpl (config & db & raft_db & rng & Hnew & HG & Hi) Hwf Ha Hcn Himp Hoth].
  destruct (node_starts _ _ _ _ _ Hnew) as (Ea & _ & Eg & Ep & Er). rewrite HG, Hi in *. rewrite Hpl in Ea. injection Ea as Ea.
  assert (Hpre : ∀ p, p ∈ pre_launch_nodes n ↔ p ∈ G ∧ p ≠ a) by (intros p; rewrite Ep, list_elem_of_filter, <-Ea; tauto).
  assert (HaG : a ∈ G) by by eapply list_elem_of_lookup_2.
  destruct (startup_spec n nd msgs) as (Hq & Edb & Eadr & Epre & Hann & Hreq).
  { by rewrite <-Ea. }
  { rewrite Eg, elem_of_list_to_set, <-Ea. done. }
  { intros p [Hp Hne]%Hpre. by apply Hcn. }
  assert (Hother : ∃ p, p ∈ G ∧ p ≠ a).
  { destruct G as [|x [|y G]]; cbn in Hlen; [lia..|]. apply NoDup_cons in Hnd as [Hx _]. destruct (decide (x = a)) as [->|].
    - exists y. split; [set_solver|]. intros ->. apply Hx. set_solver.
    - exists x. set_solver. }
  assert (Hgr : ∀ p, p ∈ pl_shutdown_group (start_run n nd msgs) ↔ p ∈ G ∧ (p = a → i ≠ 0%nat)).
  { intros p. destruct (Nat.eqb_spec i 0) as [->|Hi0].
    - destruct Er as (c & items & Er). rewrite Er in Hreq. destruct Hreq as [-> _].
      rewrite Eg, elem_of_difference, elem_of_list_to_set, elem_of_singleton, <-Ea. naive_solver.
    - rewrite Er in Hreq. rewrite Hreq, Eg, elem_of_list_to_set. naive_solver. }
  cbv zeta. rewrite Edb, Eadr, Epre. split_and!; try done.
  - destruct Hother as (p & Hp & Hne). intros Hemp. assert (Hin : p ∈ pl_shutdown_group (start_run n nd msgs)) by (apply Hgr; naive_solver).
    rewrite Hemp in Hin. by apply elem_of_empty in Hin.
  - intros ->. destruct Er as (c & items & Er). rewrite Er in Hreq. exists c, items. apply Hreq.
Qed.

Lemma launch_node_take G i a n nd msgs k : launch_node G i a n nd msgs → launch_node G i a n nd (take k msgs).
Proof.
  intros [Hpl Hnew Hwf Ha Hcn Himp Hoth]. split; try done.
  - intros m c items Hin. apply (Himp m c items). by apply (elem_of_sublist _ _ _ Hin), sublist_take.
  - intros m Hin. apply Hoth. by apply (elem_of_sublist _ _ _ Hin), sublist_take.
Qed.

(** How far the messages [msgs] bring the node. *)
Lemma launch_node_run G i a n nd msgs : NoDup G → (2 <= length G)%nat → launch_node G i a n nd msgs →
  ∃ b, event_loop (length msgs) (start_run n nd msgs) = Ret (b, launched n nd msgs) ∧
    run_frame (start_run n nd msgs) (launched n nd msgs) ∧
    (b = true ↔ (∀ p, p ∈ G → p ≠ a → closing_from p msgs) ∧ (i ≠ 0%nat → has_items msgs)) ∧
    (i = 0%nat ∨ has_items msgs → told (launched n nd msgs) PreLaunchRequest.Closing).
Proof.
  intros Hnd Hlen Hn. destruct (launch_node_start _ _ _ _ _ _ Hnd Hlen Hn) as (Hq & Hwf & Hne & Himp & Ha & Hpre & Hann & Hgr & _).
  assert (Hoth : ∀ m, m ∈ msgs → m.1 ≠ local_address (start_run n nd msgs)) by (rewrite Ha; apply Hn).
  destruct (loop_spec [] (content (pl_raft_db (start_run n nd msgs))) _ msgs Hq Hwf Hne Himp Hoth) as (b & n' & E & Hb & _).
  destruct (loop_announces _ msgs Hq Hwf Hne Himp Hoth) as (b' & n2 & E2 & Hf & Hl).
  rewrite E in E2. injection E2 as <- <-. exists b. unfold launched. rewrite E. cbn [snd]. split_and!; [done|done| |].
  - rewrite Hb. unfold all_done. rewrite Ha. setoid_rewrite Hgr. assert (HaG : a ∈ G) by (eapply list_elem_of_lookup_2, Hn). naive_solver.
  - intros Hi. destruct Hf as (_ & Eadr & _ & Han). destruct (Han Hann) as [_ Htold]. apply Htold. rewrite Eadr, Ha. rewrite Ha in Hl. apply Hl.
    destruct Hi as [->|Hi]; [right; right|by right; left]. rewrite Hgr. naive_solver.
Qed.

(** C26: a launch ends for everybody, and for nobody too early.  The nodes of a
    group of at least two are started, each at its place, and are connected; each
    gets, in any order and with anything else in between, whatever the others
    send, and can import the items that come.  Then every node stops: the first one
    announces that it closes and sends its database when it starts, each of the
    others announces that it closes when the database has come, and these
    messages are what each waits for.  And no node stops before it has the
    announcement of every other node and, if it is not the first one, the
    database. *)
Theorem launch_ends (G : list SocketAddr) (node : SocketAddr → PreLaunchNode) (nd : SocketAddr → Node TlsCertificate)
    (msgs : SocketAddr → list (SocketAddr * list Z)) :
  NoDup G → (2 <= length G)%nat →
  (∀ i a, G !! i = Some a → launch_node G i a (node a) (nd a) (msgs a)) →
  (∀ p a f id, p ∈ G → a ∈ G → p ≠ a → (a, Direct f id) ∈ sent (pl_node (launched (node p) (nd p) (msgs p))) → (p, f) ∈ msgs a) →
  ∀ i a, G !! i = Some a →
    event_loop (length (msgs a)) (start_run (node a) (nd a) (msgs a)) = Ret (true, launched (node a) (nd a) (msgs a)) ∧
    ∀ k, let got := take k (msgs a) in
      ∃ b, event_loop (length got) (start_run (node a) (nd a) got) = Ret (b, launched (node a) (nd a) got) ∧
        (b = true ↔ (∀ p, p ∈ G → p ≠ a → closing_from p got) ∧ (i ≠ 0%nat → has_items got)).
Proof.
  intros Hnd Hlen Hn Hdel.
  assert (Hpre : ∀ i a p, G !! i = Some a → p ∈ G → p ≠ a → p ∈ pre_launch_nodes (launched (node a) (nd a) (msgs a))).
  { intros i a p Hi Hp Hne. destruct (launch_node_run _ _ _ _ _ _ Hnd Hlen (Hn i a Hi)) as (b & _ & (-> & _) & _).
    destruct (launch_node_start _ _ _ _ _ _ Hnd Hlen (Hn i a Hi)) as (_ & _ & _ & _ & _ & Hpl & _). by apply Hpl. }
  assert (Hitems : ∀ i a, G !! i = Some a → i ≠ 0%nat → has_items (msgs a)).
  { intros i a Hi Hi0. destruct (lookup_lt_is_Some_2 G 0) as [a0 Ha0]; [lia|].
    assert (Hne : a0 ≠ a) by (intros ->; apply Hi0; by eapply NoDup_lookup).
    destruct (launch_node_start _ _ _ _ _ _ Hnd Hlen (Hn 0%nat a0 Ha0)) as (_ & _ & _ & _ & _ & Hpl & _ & _ & Ht).
    destruct (Ht eq_refl) as (c & items & Htold). destruct (launch_node_run _ _ _ _ _ _ Hnd Hlen (Hn 0%nat a0 Ha0)) as (b & _ & (_ & _ & Hs & _) & _).
    destruct (Htold a) as [id Hin]; [apply Hpl; split; [by eapply list_elem_of_lookup_2|done]|].
    exists (a0, serialize (PreLaunchRequest.SendDbItems c items)), c, items. split; [|apply deserialize_serialize].
    eapply Hdel; [by eapply list_elem_of_lookup_2..|done|by apply Hs]. }
  assert (Hclose : ∀ j p a, G !! j = Some p → a ∈ G → p ≠ a → closing_from p (msgs a)).
  { intros j p a Hj Ha Hne. destruct (launch_node_run _ _ _ _ _ _ Hnd Hlen (Hn j p Hj)) as (b & _ & _ & _ & Ht).
    destruct (Ht ltac:(destruct (decide (j = 0%nat)); eauto) a) as [id Hin]; [eapply Hpre; [exact Hj|done|done]|].
    eexists. split; [|apply deserialize_serialize]. eapply Hdel; [by eapply list_elem_of_lookup_2|done|done|exact Hin]. }
  intros i a Hi. split.
  - destruct (launch_node_run _ _ _ _ _ _ Hnd Hlen (Hn i a Hi)) as (b & E & _ & Hb & _).
    assert (b = true) as ->; [|exact E]. apply Hb. split; [|by apply Hitems].
    intros p [j Hj]%list_elem_of_lookup Hne. eapply Hclose; [exact Hj|by eapply list_elem_of_lookup_2|done].
  - intros k. destruct (launch_node_run _ _ _ _ _ _ Hnd Hlen (launch_node_take _ _ _ _ _ _ k (Hn i a Hi))) as (b & E & _ & Hb & _).
    by exists b.
Qed.
End runs.

(** ** The log after a launch *)
Section launch.
Context `{CommsCrates, Ipv6Display, RaftCrate, !RaftCrateLaws}.
Context `{Bincode PreLaunchRequest.t, !BincodeLaws PreLaunchRequest.t, Bincode SnapMetadata, !BincodeLaws SnapMetadata,
  Bincode Z, !BincodeLaws Z}.
Context (NETWORK_VERSION : Z) (NV : list Z).
Notation PreLaunchNode := (PreLaunchNode TlsCertificate).

(** What the first node sends. *)
Lemma first_sends config db raft_db rng first items c it :
  PreLaunchNode_new NETWORK_VERSION NV config db (Some raft_db) rng = Ret (inr first) →
  pre_launch_node_idx (PreLaunchNodeConfigSelected_new config) = 0%nat → db_items raft_db = Ret items →
  raft_db_send first = Some (PreLaunchRequest.SendDbItems c it) → it = items.
Proof.
  unfold PreLaunchNode_new. intros Hf Hidx Eit. destruct (_ !! _); [|done].
  apply obind_ret in Hf as (d & _ & Hf). apply obind_ret in Hf as (rd & ->%new_db_opened & Hf).
  rewrite Hidx in Hf. cbn [Nat.eqb] in Hf. apply obind_ret in Hf as ([|cm] & _ & Hf); [done|].
  rewrite Eit in Hf. cbn [obind] in Hf. injection Hf as <-. by intros [= _ <-].
Qed.

(** The keys of the log; the index and the entries are found through them. *)
Definition log_keys : list (list Z) :=
  [string_codes SNAPSHOT_DATA_KEY; string_codes SNAPSHOT_META_KEY; string_codes LAST_ENTRY_KEY; string_codes HARDSTATE_KEY].

Lemma union_log (m mr : gmap (list Z) (list Z)) l : content_log m l → (∀ k, k ∈ log_keys → m !! k = None → mr !! k = None) →
  content_log (m ∪ mr) l.
Proof.
  intros Hc Hk. assert (Hu : ∀ k, k ∈ log_keys → (m ∪ mr) !! k = m !! k).
  { intros k Hin. destruct (m !! k) as [v|] eqn:E; [by apply lookup_union_Some_l|].
    rewrite lookup_union_r by done. by apply Hk. }
  destruct Hc as [H1c H2c H3c H4c H5c]. split; rewrite ?Hu by (unfold log_keys; rewrite !elem_of_cons; tauto); [done..| |done].
  intros e He. destruct (H4c e He) as (b & Hb & Hp). exists b. split; [by apply lookup_union_Some_l|done].
Qed.

(** C25: the launch spreads the log of the first node: a node of the group that
    received its database and stopped starts its raft store with the log, the
    snapshot and the hard state of the first node, whatever entries it had itself;
    only keys of the log that the first node lacks must be missing here too. *)
Theorem launch_spreads_log st l config db rng first config' db' raft_db rng' node nd msgs node' init_cs :
  store_run st l →
  PreLaunchNode_new NETWORK_VERSION NV config db (Some (presistent st)) rng = Ret (inr first) →
  pre_launch_node_idx (PreLaunchNodeConfigSelected_new config) = 0%nat →
  PreLaunchNode_new NETWORK_VERSION NV config' db' (Some raft_db) rng' = Ret (inr node) →
  db_wf raft_db → (∀ cf, is_Some (columns (presistent st) !! cf) → is_Some (columns raft_db !! cf)) →
  (∀ k, k ∈ log_keys → get_cf (presistent st) DB_COL_DEFAULT k = Ret None → get_cf raft_db DB_COL_DEFAULT k = Ret None) →
  local_listener_address nd = local_address node → queued (node <| pl_node := nd |>) msgs →
  (∀ m, m ∈ msgs → m.1 ≠ local_address node) →
  (∀ m c items, m ∈ msgs → says m = Some (PreLaunchRequest.SendDbItems c items) →
     raft_db_send first = Some (PreLaunchRequest.SendDbItems c items)) →
  event_loop (length msgs) (node <| pl_node := nd |>) = Ret (true, node') →
  let received := (take_closed_extra_params node').1.2 in
  load_in_memory_or_default (RaftStore_new received) init_cs = Ret (restore received init_cs l).
Proof.
  intros Hrun Hfirst Hidx Hnode Hwf Hcols Hkeys Haddr Hq Hself Hsame Hloop.
  apply run_represents in Hrun as (Hlwf & _ & m & [Hswf Hsm] & Hc).
  destruct (db_items_spec (presistent st) Hswf) as (items & Eit & Hicol & Hops).
  assert (Hsent : ∀ c it, raft_db_send first = Some (PreLaunchRequest.SendDbItems c it) → it = items)
    by (intros c it; exact (first_sends _ _ _ _ _ _ c it Hfirst Hidx Eit)).
  destruct (node_starts _ _ _ _ _ _ _ Hnode) as (Haddr0 & Hrdb & Hgroup & _).
  assert (Hlocal : local_address node ∈ pl_shutdown_group node).
  { rewrite Hgroup, elem_of_list_to_set. by eapply list_elem_of_lookup_2. }
  set (n := node <| pl_node := nd |>) in *.
  assert (Hla : local_address n = local_address node) by exact Haddr.
  destruct (loop_spec (di_op <$> items) (content raft_db) n msgs) as (b & n' & E & _ & Hwf' & Hx);
    [done|change (db_wf (pl_raft_db node)); by rewrite Hrdb| | |by rewrite Hla|].
  - change (pl_shutdown_group node ≠ ∅). set_solver.
  - change (importable (columns (pl_raft_db node)) msgs). rewrite Hrdb. intros mm c it Hin Hs i Hi.
    apply Hcols, Hicol. by rewrite <-(Hsent c it (Hsame _ _ _ Hin Hs)).
  - rewrite E in Hloop. injection Hloop as -> <-.
    assert (Hcr : content (pl_raft_db n') DB_COL_DEFAULT = (λ mr, m ∪ mr) <$> content raft_db DB_COL_DEFAULT).
    { rewrite Hx; [by rewrite Hops, Hsm| | |split|done].
      - intros mm c it Hin Hs. by rewrite (Hsent c it (Hsame _ _ _ Hin Hs)).
      - intros c cf. rewrite !Hops. destruct (content (presistent st) cf) as [ms|]; [|done].
        destruct (c cf) as [mr|]; [|done]. cbn. f_equal. by rewrite (assoc_L (∪)), (idemp_L (∪)).
      - intros _ cf. change (content (pl_raft_db node) cf = content raft_db cf). by rewrite Hrdb.
      - intros Hn. exfalso. apply Hn. rewrite Hla. exact Hlocal. }
    assert (Hmr : ∃ mr, content raft_db DB_COL_DEFAULT = Some mr).
    { pose proof (column_map_content raft_db DB_COL_DEFAULT Hwf) as Hcm. destruct (content raft_db _) as [mr|]; [by exists mr|].
      destruct (Hcols DB_COL_DEFAULT) as [i Hi]; [unfold content in Hsm; destruct (columns (presistent st) !! _); [by eexists|done]|].
      destruct Hcm as [Hno _]. congruence. }
    destruct Hmr as [mr Hmr]. rewrite Hmr in Hcr. cbn in Hcr. intros received.
    apply (load_represents received (m ∪ mr) l); [by split|done|]. apply union_log; [done|].
    intros k Hk Hm. specialize (Hkeys k Hk). rewrite !get_cf_content, Hsm, Hmr in Hkeys by done.
    rewrite Hm in Hkeys. by injection (Hkeys eq_refl).
Qed.
End launch.

(** ** Examples *)
Module LaunchExamples.
Import TestExternals CommsExamples RaftStoreExamples.

Definition request_code (r : PreLaunchRequest.t) : Z * Z * list (string * list Z * list Z) + bool :=
  match r with
  | PreLaunchRequest.SendDbItems c items =>
      inl (ci_index c, ci_term c, (λ i, (di_column i, di_key i, di_data i)) <$> items)
  | PreLaunchRequest.Closing => inr true
  end.
Definition request_decode (c : Z * Z * list (string * list Z * list Z) + bool) : PreLaunchRequest.t :=
  match c with
  | inl (i, t, items) => PreLaunchRequest.SendDbItems (mkCommittedIndex i t) ((λ x, mkDbItem x.1.1 x.1.2 x.2) <$> items)
  | inr _ => PreLaunchRequest.Closing
  end.
#[export] Instance codec_pre_launch : Codec PreLaunchRequest.t.
Proof.
  apply (codec_iso request_code request_decode). intros [[i t] items|]; [|done]. cbn. f_equal.
  rewrite <-list_fmap_compose. rewrite <-(list_fmap_id items) at 2. apply list_fmap_ext. by intros _ [] _.
Defined.
#[export] Instance bc_pre_launch : Bincode PreLaunchRequest.t := bincode_codec _.
#[export] Instance bc_pre_launch_laws : BincodeLaws PreLaunchRequest.t := bincode_codec_laws _.

Definition na : SocketAddr := AddrV4 1 100.
Definition nb : SocketAddr := AddrV4 2 100.
Definition nc : SocketAddr := AddrV4 3 100.
Definition config_at (i : nat) : PreLaunchNodeConfig := mkPreLaunchNodeConfig PreLaunchStorage 0 i ∅ [] [na; nb; nc] 8.

(** The raft database of the first node, with two entries; the second node has
    one that is out of date. *)
Definition fresh : SimpleDb := match new_db [1] [] None with Ret d => d | Panic => mkSimpleDb ∅ [] end.
Definition t1 : RaftStore := ok_store (append (RaftStore_new fresh) [e1; e2]).
Definition t2 : RaftStore := ok_store (set_hardstate t1 h1).
Definition e0 : RaftEntry := (1, [77]).
Definition old : RaftStore := ok_store (append (RaftStore_new fresh) [e0]).
Lemma fresh_at : db_at DB_COL_DEFAULT fresh {[string_codes DB_VERSION_KEY := [1]]}.
Proof.
  split; [|vm_compute; reflexivity]. split.
  - intros cf i E. change (columns fresh) with ({[DB_COL_DEFAULT := 0%nat]} : gmap string nat) in E.
    apply lookup_singleton_Some in E as [_ <-]. vm_compute. lia.
  - intros cf1 cf2 i E1 E2. change (columns fresh) with ({[DB_COL_DEFAULT := 0%nat]} : gmap string nat) in E1, E2.
    apply lookup_singleton_Some in E1 as [<- _], E2 as [<- _]. done.
Qed.
Lemma fresh_run : store_run (RaftStore_new fresh) (mkRLog (E := RaftEntry) (H := HardState) None [] None).
Proof. by apply (run_new fresh _ fresh_at). Qed.
Lemma t2_run : store_run t2 (mkRLog (E := RaftEntry) (H := HardState) None [e1; e2] (Some h1)).
Proof.
  assert (R1 : store_run t1 (mkRLog (E := RaftEntry) (H := HardState) None [e1; e2] None)).
  { apply (run_append _ _ [e1; e2] t1 fresh_run); [|vm_compute; reflexivity].
    intros e0 [= <-]. split; [by vm_compute|]. split; [by vm_compute|]. intros [|[|k]] e; cbn; intros [= <-]; done. }
  apply (run_hardstate _ _ h1 t2 R1). vm_compute. reflexivity.
Qed.
Lemma old_wf : db_wf (presistent old).
Proof.
  assert (R : store_run old (mkRLog (E := RaftEntry) (H := HardState) None [e0] None)).
  { apply (run_append _ _ [e0] old fresh_run); [|vm_compute; reflexivity].
    intros e [= <-]. split; [by vm_compute|]. split; [by vm_compute|]. intros [|k] e; cbn; intros [= <-]; done. }
  apply run_represents in R as (_ & _ & m & [Hwf _] & _). exact Hwf.
Qed.

Definition dummy_node : PreLaunchNode TlsCertificate :=
  mkPreLaunchNode (Node_new na ∅ Z.of_nat 8 PreLaunch 6 false false) fresh fresh [] [] ∅ None.
Definition start_at i (raft_db : SimpleDb) := PreLaunchNode_new 6 [1] (config_at i) None (Some raft_db) Z.of_nat.
Definition node_at i (raft_db : SimpleDb) : PreLaunchNode TlsCertificate :=
  match start_at i raft_db with Ret (inr n) => n | _ => dummy_node end.
Definition starts i (raft_db : SimpleDb) : bool := match start_at i raft_db with Ret (inr _) => true | _ => false end.
Lemma started i raft_db : starts i raft_db = true → start_at i raft_db = Ret (inr (node_at i raft_db)).
Proof. unfold starts, node_at. destruct (start_at i raft_db) as [[e|n]|]; [discriminate|reflexivity|discriminate]. Qed.
Definition first := node_at 0 (presistent t2).
Definition second := node_at 1 (presistent old).
Definition items_frame : list Z := match raft_db_send first with Some r => serialize r | None => [] end.
(** The third node closes before the second has the items; a frame is damaged. *)
Definition msgs : list (SocketAddr * list Z) :=
  [(na, serialize PreLaunchRequest.Closing); (nc, []); (nc, serialize PreLaunchRequest.Closing); (na, items_frame)].
Definition second_node : Node TlsCertificate := pl_node second <| event_queue := (λ m, NewFrame m.1 m.2) <$> msgs |>.
Definition waiting : PreLaunchNode TlsCertificate := second <| pl_node := second_node |>.
Lemma waiting_group : pl_shutdown_group waiting = list_to_set [na; nb; nc].
Proof. vm_compute. reflexivity. Qed.
Lemma waiting_address : local_address waiting = nb.
Proof. vm_compute. reflexivity. Qed.
Lemma waiting_cols : columns (pl_raft_db waiting) = {[DB_COL_DEFAULT := 0%nat]}.
Proof. vm_compute. reflexivity. Qed.
Lemma waiting_wf : db_wf (pl_raft_db waiting).
Proof. assert (E : pl_raft_db waiting = presistent old) by (vm_compute; reflexivity). rewrite E. exact old_wf. Qed.
Definition frame_columns (f : list Z) : list string :=
  match deserialize f with Some (PreLaunchRequest.SendDbItems _ items) => di_column <$> items | _ => [] end.
Lemma waiting_importable : importable (columns (pl_raft_db waiting)) msgs.
Proof.
  assert (Hall : Forall (λ m, Forall (λ c, c = DB_COL_DEFAULT) (frame_columns m.2)) msgs).
  { apply (bool_decide_eq_true _). vm_compute. reflexivity. }
  intros m c items Hin Hs i Hi. rewrite waiting_cols. rewrite Forall_forall in Hall. specialize (Hall m Hin).
  unfold says in Hs. unfold frame_columns in Hall. rewrite Hs, Forall_forall in Hall.
  rewrite (Hall (di_column i)) by by apply list_elem_of_fmap_2. by eexists.
Qed.
Lemma waiting_others m : m ∈ msgs → m.1 ≠ nb.
Proof. revert m. apply Forall_forall. apply (bool_decide_eq_true _). vm_compute. reflexivity. Qed.

Lemma first_items : match raft_db_send first with Some (PreLaunchRequest.SendDbItems _ _) => true | _ => false end = true.
Proof. vm_compute. reflexivity. Qed.
Lemma items_frame_says : ∃ c items, raft_db_send first = Some (PreLaunchRequest.SendDbItems c items) ∧
  deserialize items_frame = Some (PreLaunchRequest.SendDbItems c items).
Proof.
  pose proof first_items as Hf. unfold items_frame. destruct (raft_db_send first) as [[c items|]|]; [|discriminate Hf..].
  exists c, items. split; [reflexivity|apply deserialize_serialize].
Qed.

Lemma launch_exit_iff_witness : ∃ n', event_loop (length msgs) waiting = Ret (true, n').
Proof.
  destruct (launch_exit_iff waiting msgs) as (b & n' & E & Hb).
  - reflexivity.
  - exact waiting_wf.
  - rewrite waiting_group. discriminate.
  - exact waiting_importable.
  - rewrite waiting_address. exact waiting_others.
  - rewrite waiting_group, waiting_address in Hb. assert (b = true) as ->; [|by exists n']. apply Hb. split.
    + intros p Hp Hne. rewrite elem_of_list_to_set, !elem_of_cons in Hp.
      assert (Ho : p = na ∨ p = nc) by (destruct Hp as [E1|[E1|[E1|[]%elem_of_nil]]]; [left; exact E1|destruct (Hne E1)|right; exact E1]).
      exists (serialize PreLaunchRequest.Closing). split; [|apply deserialize_serialize].
      unfold msgs. rewrite !elem_of_cons. destruct Ho as [->| ->]; [left; reflexivity|right; right; left; reflexivity].
    + intros _. exists (na, items_frame).
      destruct items_frame_says as (c & items & _ & Hi). exists c, items. split; [|exact Hi]. unfold msgs. rewrite !elem_of_cons. right; right; right; left; reflexivity.
Defined.

Lemma old_lacks k : k ∈ log_keys → get_cf (presistent t2) DB_COL_DEFAULT k = Ret None →
  get_cf (presistent old) DB_COL_DEFAULT k = Ret None.
Proof.
  intros Hk. unfold log_keys in Hk. rewrite !elem_of_cons in Hk.
  destruct Hk as [->|[->|[->|[->|[]%elem_of_nil]]]]; vm_compute; congruence.
Qed.

Lemma msgs_say : Forall (λ m, m.2 = items_frame ∨ deserialize m.2 = Some PreLaunchRequest.Closing ∨
  deserialize (T := PreLaunchRequest.t) m.2 = None) msgs.
Proof.
  unfold msgs. apply Forall_cons; split; [right; left; exact (deserialize_serialize PreLaunchRequest.Closing)|].
  apply Forall_cons; split; [right; right; vm_compute; reflexivity|].
  apply Forall_cons; split; [right; left; exact (deserialize_serialize PreLaunchRequest.Closing)|].
  apply Forall_cons; split; [left; reflexivity|apply Forall_nil_2].
Qed.
Lemma msgs_items m c items : m ∈ msgs → says m = Some (PreLaunchRequest.SendDbItems c items) →
  raft_db_send first = Some (PreLaunchRequest.SendDbItems c items).
Proof.
  intros Hin Hs. destruct (proj1 (Forall_forall _ msgs) msgs_say m Hin) as [Hf|[Hf|Hf]]; unfold says in Hs;
    rewrite Hf in Hs; [|discriminate..].
  destruct items_frame_says as (c' & items' & -> & Hi). rewrite Hi in Hs. exact Hs.
Qed.

Lemma launch_spreads_log_witness : ∃ n' s, event_loop (length msgs) waiting = Ret (true, n') ∧
  load_in_memory_or_default (RaftStore_new (take_closed_extra_params n').1.2) [] = Ret (inr s) ∧
  in_memory s = (None, [e1; e2], Some h1).
Proof.
  destruct launch_exit_iff_witness as [n' E].
  pose proof (launch_spreads_log 6 [1] t2 _ (config_at 0) None Z.of_nat first (config_at 1) None (presistent old) Z.of_nat second
    second_node msgs n' [] t2_run) as Hl.
  exists n'. eexists. split; [exact E|]. rewrite Hl; [split; [reflexivity|reflexivity]|..]; clear Hl.
  - apply (started 0 (presistent t2)). vm_compute. reflexivity.
  - reflexivity.
  - apply (started 1 (presistent old)). vm_compute. reflexivity.
  - exact old_wf.
  - intros cf. assert (Ec : columns (presistent old) = columns (presistent t2)) by (vm_compute; reflexivity). by rewrite Ec.
  - exact old_lacks.
  - reflexivity.
  - reflexivity.
  - assert (En : local_address second = nb) by (vm_compute; reflexivity). rewrite En. exact waiting_others.
  - exact msgs_items.
  - exact E.
Defined.

(** *** A group of two

    The second node of the group [pair] has the database that is out of date. *)
Definition pair : list SocketAddr := [na; nb].
Definition pair_config (i : nat) : PreLaunchNodeConfig := mkPreLaunchNodeConfig PreLaunchStorage 0 i ∅ [] pair 8.
Definition pair_db (a : SocketAddr) : SimpleDb := if bool_decide (a = na) then presistent t2 else presistent old.
Definition pair_start (a : SocketAddr) :=
  PreLaunchNode_new 6 [1] (pair_config (if bool_decide (a = na) then 0 else 1)%nat) None (Some (pair_db a)) Z.of_nat.
Definition pair_node (a : SocketAddr) : PreLaunchNode TlsCertificate :=
  match pair_start a with Ret (inr n) => n | _ => dummy_node end.
Definition other (a : SocketAddr) : SocketAddr := if bool_decide (a = na) then nb else na.
Definition pair_net (a : SocketAddr) : Node TlsCertificate :=
  pl_node (pair_node a) <| peers := {[other a := mkPeer (Some 6) (other a) (Some PreLaunch) (Some (other a)) false RxNone 0]} |>.
Definition pair_items : list Z := match raft_db_send (pair_node na) with Some r => serialize r | None => [] end.
Definition pair_msgs (a : SocketAddr) : list (SocketAddr * list Z) :=
  if bool_decide (a = na) then [(nb, serialize PreLaunchRequest.Closing)]
  else [(na, serialize PreLaunchRequest.Closing); (na, pair_items)].

Lemma pair_started a : a ∈ pair → pair_start a = Ret (inr (pair_node a)).
Proof.
  intros Ha. assert (E : match pair_start a with Ret (inr _) => true | _ => false end = true).
  { revert a Ha. apply Forall_forall. apply (bool_decide_eq_true _). vm_compute. reflexivity. }
  unfold pair_node. destruct (pair_start a) as [[e|n]|]; [discriminate E|reflexivity|discriminate E].
Qed.
Lemma pair_wf a : db_wf (pair_db a).
Proof.
  unfold pair_db. destruct (bool_decide (a = na)); [|exact old_wf]. pose proof t2_run as R.
  apply run_represents in R as (_ & _ & m & [Hwf _] & _). exact Hwf.
Qed.
Lemma pair_importable a : a ∈ pair → importable (columns (pl_raft_db (pair_node a))) (pair_msgs a).
Proof.
  intros Ha m c items Hin Hs i Hi.
  assert (Ec : bool_decide (columns (pl_raft_db (pair_node a)) = {[DB_COL_DEFAULT := 0%nat]}) = true ∧
    forallb (λ m, forallb (λ c, bool_decide (c = DB_COL_DEFAULT)) (frame_columns m.2)) (pair_msgs a) = true).
  { clear -Ha. revert a Ha. apply Forall_forall. apply (bool_decide_eq_true _). vm_compute. reflexivity. }
  destruct Ec as [->%bool_decide_eq_true Hall]. rewrite forallb_forall in Hall.
  apply list_elem_of_In, Hall in Hin. unfold says in Hs. unfold frame_columns in Hin. rewrite Hs, forallb_forall in Hin.
  assert (E : di_column i = DB_COL_DEFAULT).
  { apply (bool_decide_eq_true _), Hin, list_elem_of_In. by apply list_elem_of_fmap_2. }
  rewrite E. by eexists.
Qed.
Lemma pair_ready i a : pair !! i = Some a → launch_node 6 [1] pair i a (pair_node a) (pair_net a) (pair_msgs a).
Proof.
  intros Hi. assert (Ha : a ∈ pair) by by eapply list_elem_of_lookup_2.
  assert (Hdb : pl_raft_db (pair_node a) = pair_db a) by (eapply node_starts, pair_started, Ha).
  split; [exact Hi| | | | |by apply pair_importable|].
  - eexists (pair_config i), None, (pair_db a), Z.of_nat. split; [|done]. rewrite <-(pair_started a Ha).
    unfold pair_start. do 2 f_equal. destruct i as [|[|i]]; cbn in Hi; [injection Hi as <-; reflexivity..|discriminate].
  - rewrite Hdb. apply pair_wf.
  - clear Hi Hdb. revert a Ha. apply Forall_forall. apply (bool_decide_eq_true _). vm_compute. reflexivity.
  - intros p Hp Hne. assert (p = other a) as ->.
    { unfold other. unfold pair in Ha, Hp. rewrite !elem_of_cons in Ha, Hp.
      destruct Ha as [->|[->|[]%elem_of_nil]], Hp as [->|[->|[]%elem_of_nil]]; [by destruct Hne|reflexivity|reflexivity|by destruct Hne]. }
    unfold pair_net. cbn [peers setter]. by rewrite lookup_singleton_eq.
  - apply Forall_forall. clear Hi Hdb. revert a Ha. apply Forall_forall.
    apply (bool_decide_eq_true _). vm_compute. reflexivity.
Qed.
(** Nothing that is sent is lost. *)
Definition all_delivered (p : SocketAddr) : bool :=
  forallb (λ e, match e.2 with Direct f _ => bool_decide ((p, f) ∈ pair_msgs e.1) | _ => true end)
    (sent (pl_node (launched (pair_node p) (pair_net p) (pair_msgs p)))).
Lemma pair_delivered : all_delivered na = true ∧ all_delivered nb = true.
Proof. split; vm_compute; reflexivity. Qed.

Lemma launch_ends_witness :
  (event_loop (length (pair_msgs na)) (start_run (pair_node na) (pair_net na) (pair_msgs na)) =
    Ret (true, launched (pair_node na) (pair_net na) (pair_msgs na))) ∧
  event_loop (length (pair_msgs nb)) (start_run (pair_node nb) (pair_net nb) (pair_msgs nb)) =
    Ret (true, launched (pair_node nb) (pair_net nb) (pair_msgs nb)).
Proof.
  assert (Hends : ∀ i a, pair !! i = Some a →
    event_loop (length (pair_msgs a)) (start_run (pair_node a) (pair_net a) (pair_msgs a)) =
      Ret (true, launched (pair_node a) (pair_net a) (pair_msgs a))).
  { intros i a Hi.
    apply (launch_ends 6 [1] pair pair_node pair_net pair_msgs) with (i := i) (a := a); [| |exact pair_ready| |exact Hi].
    - apply (bool_decide_eq_true _). vm_compute. reflexivity.
    - apply Nat.leb_le. reflexivity.
    - intros p q f id Hp _ _ Hin. assert (Hd : all_delivered p = true).
      { unfold pair in Hp. rewrite !elem_of_cons in Hp. destruct Hp as [->|[->|[]%elem_of_nil]]; apply pair_delivered. }
      unfold all_delivered in Hd. rewrite forallb_forall in Hd. apply list_elem_of_In, Hd in Hin.
      exact (proj1 (bool_decide_eq_true _) Hin). }
  split; [exact (Hends 0%nat na eq_refl)|exact (Hends 1%nat nb eq_refl)].
Defined.
End LaunchExamples.
