(* ===== verification/FrozenLastVersion.v ===== *)
(** * The data of the last version: [src/upgrade/frozen_last_version.rs]

    The upgrade reads what version 4 wrote: its types are frozen in [Module old],
    and [convert_*] turns their values into those of the other files.  Keys and
    signatures were bytes of any length and are checked by the conversion, which
    panics on others; everything else is kept field by field. *)
From S2P Require Import Prelude Externals Utils Unicorn Interfaces FundStore Wallet TransactionGen ComputeConsensused StorageRaft.

(** ** The frozen types

    A field that several structs share has a prefix. *)
Module old.
Definition NETWORK_VERSION : Z := 4.
Definition NETWORK_VERSION_SERIALIZED : option (list Z) := Some [52].

Record OutPoint := mkOutPoint { t_hash : string; n : Z }.
#[global] Instance OutPoint_eq_dec : EqDecision OutPoint.
Proof. solve_decision. Defined.
#[global] Instance OutPoint_countable : Countable OutPoint.
Proof. apply (inj_countable' (λ o, (t_hash o, n o)) (λ c, mkOutPoint c.1 c.2)). by intros []. Defined.
#[global] Program Instance ordkey_OutPoint : OrdKey OutPoint := {| okey o := map Z.succ (string_codes (t_hash o)) ++ [0; n o] |}.
Next Obligation.
  intros [h1 n1] [h2 n2] E. apply terminated_inj in E as [E E']; [|apply string_codes_nonneg..].
  cbn in E, E'. apply (inj string_codes) in E. by subst.
Qed.

Inductive OpCodes :=
  | OP_DUP | OP_HASH256 | OP_EQUALVERIFY | OP_CHECKSIG | OP_CREATE | OP_HASH256_V0 | OP_HASH256_TEMP.
Inductive StackEntry :=
  | Op (o : OpCodes) | Signature (s : list Z) | PubKey (k : list Z) | PubKeyHash (h : string) | Num (z : Z) | Bytes (s : string).
Record Script := mkScript { stack : list StackEntry }.
Record TxIn := mkTxIn { previous_out : option OutPoint; script_signature : Script }.
Record TokenAmount := mkTokenAmount { token : Z }.
Record DataAsset := mkDataAsset { data : list Z; data_amount : Z }.
Record ReceiptAsset := mkReceiptAsset { receipt_amount : Z; drs_tx_hash : option string; metadata : option string }.
Inductive Asset := Token (v : TokenAmount) | Data (v : DataAsset) | Receipt (v : ReceiptAsset).
Record TxOut := mkTxOut {
  value : Asset; locktime : Z; drs_block_hash : option string; script_public_key : option string }.
Record DruidExpectation := mkDruidExpectation { de_from : string; de_to : string; de_asset : Asset }.
Record DdeValues := mkDdeValues { druid : string; participants : Z; expectations : list DruidExpectation }.
Record Transaction := mkTransaction {
  inputs : list TxIn; outputs : list TxOut; tx_version : Z; druid_info : option DdeValues }.
Record BlockHeader := mkBlockHeader {
  version : Z; bits : Z; nonce_and_mining_tx_hash : list Z * string; b_num : Z; seed_value : list Z;
  previous_hash : option string; txs_merkle_root_and_hash : string * string }.
Record Block := mkBlock { header : BlockHeader; transactions : list string }.
Notation UtxoSet := (gmap OutPoint TxOut).

(** [interfaces] *)
Record StoredSerializingBlock := mkStoredSerializingBlock { block : Block }.
Record BlockStoredInfo := mkBlockStoredInfo {
  block_hash : string; block_num : Z; bs_nonce : list Z; mining_transactions : gmap string Transaction; shutdown : bool }.

(** [raft_store], [compute] *)
Definition HARDSTATE_KEY : string := "HardStateKey".
Definition SNAPSHOT_DATA_KEY : string := "SnaphotDataKey".
Definition SNAPSHOT_META_KEY : string := "SnaphotMetaKey".
Definition ENTRY_KEY : string := "EntryKey".
Definition LAST_ENTRY_KEY : string := "LastEntryKey".
Definition REQUEST_LIST_KEY : string := "RequestListKey".
Definition USER_NOTIFY_LIST_KEY : string := "UserNotifyListKey".
Definition DB_COL_INTERNAL : string := "internal".
Definition DB_COL_LOCAL_TXS : string := "local_transactions".
Definition compute_DB_SPEC : list string := [DB_COL_INTERNAL; DB_COL_LOCAL_TXS].
Definition compute_raft_DB_SPEC : list string := [].

(** [compute_raft], [unicorn], [raft], [block_pipeline] *)
Inductive AccumulatingBlockStoredInfo := mkAccumulatingBlockStoredInfo.
Inductive SpecialHandling := Shutdown | FirstUpgradeBlock.
Inductive CoordinatedCommand := PauseNodes (b_num : Z) | ResumeNodes | ApplySharedConfig.
#[global] Instance CoordinatedCommand_eq_dec : EqDecision CoordinatedCommand.
Proof. solve_decision. Defined.
#[global] Instance CoordinatedCommand_countable : Countable CoordinatedCommand.
Proof.
  apply (inj_countable' (λ c, match c with PauseNodes b => inl b | ResumeNodes => inr true | ApplySharedConfig => inr false end)
    (λ c, match c with inl b => PauseNodes b | inr true => ResumeNodes | inr false => ApplySharedConfig end)). by intros [].
Defined.
Record Unicorn := mkUnicorn { unicorn_iterations : Z; security_level : Z; seed : Z; unicorn_modulus : Z }.
Record UnicornFixedParam := mkUnicornFixedParam { modulus : string; iterations : Z; security : Z }.
Record UnicornInfo := mkUnicornInfo { unicorn : Unicorn; g_value : string; witness : Z }.
Record RaftContextKey := mkRaftContextKey { proposer_id : Z; proposer_run : Z; proposal_id : Z }.
#[global] Instance RaftContextKey_eq_dec : EqDecision RaftContextKey.
Proof. solve_decision. Defined.
#[global] Instance RaftContextKey_countable : Countable RaftContextKey.
Proof.
  apply (inj_countable' (λ k, (proposer_id k, proposer_run k, proposal_id k)) (λ c, mkRaftContextKey c.1.1 c.1.2 c.2)).
  by intros [].
Defined.
Inductive MiningPipelineStatus := Halted | ParticipantOnlyIntake | AllItemsIntake.
Record Participants := mkParticipants { unsorted : list SocketAddr; lookup : gset SocketAddr }.
Record WinningPoWInfo := mkWinningPoWInfo { wp_nonce : list Z; mining_tx : string * Transaction; p_value : Z; d_value : Z }.
Record MiningPipelineInfo := mkMiningPipelineInfo {
  participants_intake : gmap Z Participants;
  participants_mining : gmap Z Participants;
  empty_participants : Participants;
  last_winning_hashes : gset string;
  all_winning_pow : list (SocketAddr * WinningPoWInfo);
  unicorn_info : UnicornInfo;
  winning_pow : option (SocketAddr * WinningPoWInfo);
  mining_pipeline_status : MiningPipelineStatus;
  current_phase_timeout_peer_ids : gset Z;
  current_phase_reset_pipeline_peer_ids : gset Z;
  unicorn_fixed_param : UnicornFixedParam;
  current_block_num : option Z;
  current_block : option Block;
  current_block_tx : gmap string Transaction;
  current_reward : TokenAmount;
  proposed_keys : gset RaftContextKey;
}.
Record ComputeConsensused := mkComputeConsensused {
  unanimous_majority : Z;
  cc_sufficient_majority : Z;
  partition_full_size : Z;
  tx_pool : gmap string Transaction;
  tx_druid_pool : list (gmap string Transaction);
  tx_current_block_previous_hash : option string;
  initial_utxo_txs : option (gmap string Transaction);
  utxo_set : UtxoSet;
  current_block_stored_info : gmap (list Z) (AccumulatingBlockStoredInfo * gset Z);
  current_raft_coordinated_cmd_stored_info : gmap CoordinatedCommand (gset Z);
  cc_last_committed_raft_idx_and_term : Z * Z;
  current_circulation : TokenAmount;
  block_pipeline : MiningPipelineInfo;
  last_mining_transaction_hashes : list string;
  special_handling : option SpecialHandling;
}.

(** [storage], [storage_raft] *)
Definition DB_COL_BC_ALL : string := "block_chain_all".
Definition DB_COL_BC_NAMED : string := "block_chain_named".
Definition DB_COL_BC_META : string := "block_chain_meta".
Definition DB_COL_BC_JSON : string := "block_chain_json".
Definition DB_COL_BC_V0_6_0 : string := "block_chain_v0.6.0".
Definition DB_COL_BC_V0_5_0 : string := "block_chain_v0.5.0".
Definition DB_COL_BC_V0_4_0 : string := "block_chain_v0.4.0".
Definition DB_COL_BC_V0_3_0 : string := "block_chain_v0.3.0".
Definition DB_COL_BC_V0_2_0 : string := "block_chain_v0.2.0".
Definition storage_DB_SPEC : list string :=
  [DB_COL_INTERNAL; DB_COL_BC_ALL; DB_COL_BC_NAMED; DB_COL_BC_META; DB_COL_BC_JSON; DB_COL_BC_V0_6_0;
   DB_COL_BC_V0_5_0; DB_COL_BC_V0_4_0; DB_COL_BC_V0_3_0; DB_COL_BC_V0_2_0].
Definition storage_raft_DB_SPEC : list string := [].
Inductive CompleteBlockBuilder := mkCompleteBlockBuilder.
Record StorageConsensused := mkStorageConsensused {
  sufficient_majority : Z;
  sc_current_block_num : Z;
  current_block_completed_parts : gmap (list Z) CompleteBlockBuilder;
  last_committed_raft_idx_and_term : Z * Z;
  last_block_stored : option BlockStoredInfo;
}.

(** [wallet] *)
Definition KNOWN_ADDRESS_KEY : string := "a".
Definition FUND_KEY : string := "f".
Definition MASTER_KEY_STORE_KEY : string := "MasterKeyStore".
Definition TX_GENERATOR_KEY : string := "TxGeneratorKey".
Definition LAST_COINBASE_KEY : string := "LastCoinbaseKey".
Definition MINING_ADDRESS_KEY : string := "MiningAddressKey".
Definition wallet_DB_SPEC : list string := [].
Notation PendingMap := (gmap string (Transaction * list (string * OutPoint * TokenAmount))).
Notation ReadyMap := (gmap string (list (OutPoint * TokenAmount))).
Record MasterKeyStore := mkMasterKeyStore { salt : list Z; mk_nonce : list Z; enc_master_key : list Z }.
Record AssetValues := mkAssetValues { tokens : TokenAmount; receipts : gmap string Z }.
Record FundStore := mkFundStore {
  running_total : AssetValues;
  fs_transactions : gmap OutPoint Asset;
  transaction_pages : list (gmap OutPoint Asset);
  spent_transactions : gmap OutPoint Asset;
}.
Record AddressStore := mkAddressStore { public_key : list Z; secret_key : list Z; address_version : option Z }.
Record TransactionStore := mkTransactionStore { key_address : string }.
End old.

(** The fields of naom's [AssetValues] are public. *)
Class NaomAssetValues `{Naom} := {
  mk_asset_values : TokenAmount → gmap string Z → AssetValues;
  av_tokens : AssetValues → TokenAmount;
  av_receipts : AssetValues → gmap string Z;
}.
Class NaomAssetValuesLaws `{NaomAssetValues} : Prop := {
  av_tokens_mk t r : av_tokens (mk_asset_values t r) = t;
  av_receipts_mk t r : av_receipts (mk_asset_values t r) = r;
}.

(** [map] and [collect] with a function that may panic. *)
Fixpoint map_outcome {A B : Type} (f : A → outcome B) (l : list A) : outcome (list B) :=
  match l with
  | [] => Ret []
  | x :: l => let! y := f x in let! l := map_outcome f l in Ret (y :: l)
  end.
Definition option_outcome {A B : Type} (f : A → outcome B) (o : option A) : outcome (option B) :=
  match o with None => Ret None | Some x => let! y := f x in Ret (Some y) end.

(** ** Conversions *)
Definition convert_token_amount (o : old.TokenAmount) : TokenAmount := old.token o.
Definition convert_data_asset (o : old.DataAsset) : DataAsset := mkDataAsset (old.data o) (old.data_amount o).
Definition convert_receipt_asset (o : old.ReceiptAsset) : ReceiptAsset :=
  mkReceiptAsset (old.receipt_amount o) (old.drs_tx_hash o) (old.metadata o).
Definition convert_asset (o : old.Asset) : Asset :=
  match o with
  | old.Token v => Token (convert_token_amount v)
  | old.Data v => Data (convert_data_asset v)
  | old.Receipt v => Receipt (convert_receipt_asset v)
  end.
Definition convert_outpoint (o : old.OutPoint) : OutPoint := mkOutPoint (old.t_hash o) (old.n o).
Definition convert_txout (o : old.TxOut) : TxOut :=
  mkTxOut (convert_asset (old.value o)) (old.locktime o) (old.drs_block_hash o) (old.script_public_key o).
Definition convert_op_code (o : old.OpCodes) : OpCodes :=
  match o with
  | old.OP_DUP => OP_DUP | old.OP_HASH256 => OP_HASH256 | old.OP_EQUALVERIFY => OP_EQUALVERIFY
  | old.OP_CHECKSIG => OP_CHECKSIG | old.OP_CREATE => OP_CREATE | old.OP_HASH256_V0 => OP_HASH256_V0
  | old.OP_HASH256_TEMP => OP_HASH256_TEMP
  end.
Definition convert_druid_expectation (o : old.DruidExpectation) : DruidExpectation :=
  mkDruidExpectation (old.de_from o) (old.de_to o) (convert_asset (old.de_asset o)).
Definition convert_dde_values (o : old.DdeValues) : DdeValues :=
  mkDdeValues (old.druid o) (old.participants o) (map convert_druid_expectation (old.expectations o)).
Definition convert_block_header (o : old.BlockHeader) : BlockHeader :=
  mkBlockHeader (old.version o) (old.bits o) (old.nonce_and_mining_tx_hash o) (old.b_num o) (old.seed_value o)
    (old.previous_hash o) (old.txs_merkle_root_and_hash o).
Definition convert_block (o : old.Block) : Block := mkBlock (convert_block_header (old.header o)) (old.transactions o).
Definition convert_utxoset (o : old.UtxoSet) : UtxoSet :=
  map_extend ∅ (map (λ kv, (convert_outpoint kv.1, convert_txout kv.2)) (bt_iter o)).
Definition convert_unicorn_fixed_param (o : old.UnicornFixedParam) : UnicornFixedParam :=
  mkUnicornFixedParam (old.modulus o) (old.iterations o) (old.security o).
Definition convert_receipt_amount (o : gmap string Z) : gmap string Z := o.
Definition convert_saved_wallet_transactions (o : gmap old.OutPoint old.Asset) : gmap OutPoint Asset :=
  map_extend ∅ (map (λ kv, (convert_outpoint kv.1, convert_asset kv.2)) (bt_iter o)).
Definition convert_saved_wallet_transactions_pages (o : list (gmap old.OutPoint old.Asset)) : list (gmap OutPoint Asset) :=
  map (λ page, map_extend ∅ (map (λ kv, (convert_outpoint kv.1, convert_asset kv.2)) (bt_iter page))) o.
Definition convert_token_to_asset (o : old.TokenAmount) : Asset := Token (convert_token_amount o).

Definition convert_compute_consensused_to_import (o : old.ComputeConsensused) (special_handling : option SpecialHandling) :
    ComputeConsensusedImport :=
  mkComputeConsensusedImport (old.unanimous_majority o) (old.cc_sufficient_majority o) (old.partition_full_size o)
    (convert_unicorn_fixed_param (old.unicorn_fixed_param (old.block_pipeline o)))
    (old.current_block_num (old.block_pipeline o))
    (convert_block <$> old.current_block (old.block_pipeline o))
    (convert_utxoset (old.utxo_set o))
    (old.cc_last_committed_raft_idx_and_term o)
    (convert_token_amount (old.current_circulation o))
    special_handling MinerWhitelist_default.

Section convert_keys.
Context `{NaomReceipts, NaomSigning}.

Definition convert_public_key (o : list Z) : outcome (list Z) := unwrap (public_key_from_slice o).
Definition convert_secret_key (o : list Z) : outcome (list Z) := unwrap (secret_key_from_slice o).
Definition convert_signature (o : list Z) : outcome (list Z) := unwrap (signature_from_slice o).

Definition convert_stack_entry (o : old.StackEntry) : outcome StackEntry :=
  match o with
  | old.Op v => Ret (Op (convert_op_code v))
  | old.Signature v => let! s := convert_signature v in Ret (Signature s)
  | old.PubKey v => let! k := convert_public_key v in Ret (PubKey k)
  | old.PubKeyHash v => Ret (PubKeyHash v)
  | old.Num v => Ret (Num v)
  | old.Bytes v => Ret (Bytes v)
  end.
Definition convert_script (o : old.Script) : outcome Script :=
  let! l := map_outcome convert_stack_entry (old.stack o) in Ret (mkScript l).
Definition convert_txin (o : old.TxIn) : outcome TxIn :=
  let! s := convert_script (old.script_signature o) in Ret (mkTxIn (convert_outpoint <$> old.previous_out o) s).
Definition convert_transaction (o : old.Transaction) : outcome Transaction :=
  let! ins := map_outcome convert_txin (old.inputs o) in
  Ret (mkTransaction ins (map convert_txout (old.outputs o)) (old.tx_version o) (convert_dde_values <$> old.druid_info o)).
Definition convert_transactions (o : gmap string old.Transaction) : outcome (gmap string Transaction) :=
  let! l := map_outcome (λ kv : string * old.Transaction, let! tx := convert_transaction kv.2 in Ret (kv.1, tx)) (bt_iter o) in
  Ret (map_extend ∅ l).
Definition convert_address_store (o : old.AddressStore) : outcome AddressStore :=
  let! pk := convert_public_key (old.public_key o) in
  let! sk := convert_secret_key (old.secret_key o) in
  Ret (mkAddressStore pk sk (old.address_version o)).

(** The block info of the last version never asks for a shutdown. *)
Definition convert_block_stored_info (o : old.BlockStoredInfo) : outcome BlockStoredInfo :=
  let! txs := convert_transactions (old.mining_transactions o) in
  Ret (mkBlockStoredInfo (old.block_hash o) (old.block_num o) (old.bs_nonce o) txs false).
Definition convert_storage_consensused_to_import (o : old.StorageConsensused) : outcome StorageConsensusedImport :=
  let! last := option_outcome convert_block_stored_info (old.last_block_stored o) in
  Ret (mkStorageConsensusedImport (old.sufficient_majority o) (old.sc_current_block_num o)
         (old.last_committed_raft_idx_and_term o) last).

Definition convert_last_coinbase (o : string * old.Transaction) : outcome (string * Transaction) :=
  let! tx := convert_transaction o.2 in Ret (o.1, tx).

Definition convert_transaction_gen (o : old.PendingMap * old.ReadyMap) : outcome (PendingMap * ReadyMap) :=
  let ready := foldl (λ m kv, <[kv.1 := map (λ oa, (convert_outpoint oa.1, convert_token_amount oa.2)) kv.2]> m)
                 ∅ (bt_iter o.2) in
  let! pending := ofold (λ (m : PendingMap) kv,
      let '(tx_hash, tx) := kv in
      let src := map (λ voa : string * old.OutPoint * old.TokenAmount,
                   (voa.1.1, convert_outpoint voa.1.2, convert_token_amount voa.2)) tx.2 in
      let! new := convert_transaction tx.1 in
      Ret (<[tx_hash := (new, src)]> m)) ∅ (bt_iter o.1) in
  Ret (pending, ready).
End convert_keys.

Section convert_funds.
Context `{NaomAssetValues}.

Definition convert_asset_values (o : old.AssetValues) : AssetValues :=
  mk_asset_values (convert_token_amount (old.tokens o)) (convert_receipt_amount (old.receipts o)).
Definition convert_fund_store (o : old.FundStore) : FundStore :=
  FundStore_new (convert_asset_values (old.running_total o)) (convert_saved_wallet_transactions (old.fs_transactions o))
    (convert_saved_wallet_transactions_pages (old.transaction_pages o))
    (convert_saved_wallet_transactions (old.spent_transactions o)).
End convert_funds.

(** ** Nothing is lost *)
#[export] Instance convert_outpoint_inj : Inj (=) (=) convert_outpoint.
Proof. intros [h1 n1] [h2 n2] [= -> ->]. done. Qed.

(** A map converted entry by entry: the keys are mapped one to one. *)
Definition map_converted {A B : Type} (g : A → B) (m : gmap old.OutPoint A) : gmap OutPoint B :=
  kmap (M2 := gmap OutPoint) convert_outpoint (g <$> m).
Lemma map_converted_lookup {A B : Type} (g : A → B) m k : map_converted g m !! convert_outpoint k = g <$> m !! k.
Proof. unfold map_converted. by rewrite lookup_kmap, lookup_fmap by apply _. Qed.
Lemma collect_kmap {A B : Type} (g : A → B) (m : gmap old.OutPoint A) :
  map_extend ∅ (map (λ kv, (convert_outpoint kv.1, g kv.2)) (bt_iter m)) = map_converted g m.
Proof.
  set (l := map _ _). assert (Hnd : NoDup l.*1).
  { assert (E : l.*1 = convert_outpoint <$> bt_keys m).
    { unfold l, bt_keys. change (@map) with (λ A B (f : A → B) (l : list A), f <$> l). by rewrite <-!list_fmap_compose. }
    rewrite E. apply NoDup_fmap_2; [apply _|apply bt_keys_NoDup]. }
  assert (Hin : ∀ k v, (k, v) ∈ l ↔ ∃ k0 v0, k = convert_outpoint k0 ∧ v = g v0 ∧ m !! k0 = Some v0).
  { intros k v. unfold l. change (@map) with (λ A B (f : A → B) (l : list A), f <$> l). rewrite list_elem_of_fmap. split.
    - intros ([k0 v0] & [= -> ->] & Hin%elem_of_bt_iter). eauto.
    - intros (k0 & v0 & -> & -> & Hin%elem_of_bt_iter). by exists (k0, v0). }
  apply map_eq. intros k. apply option_eq. intros v. unfold map_converted. rewrite lookup_kmap_Some by apply _. split.
  - intros Hl. apply map_extend_inv in Hl as [Hl|Hl]; [|by rewrite lookup_empty in Hl].
    apply Hin in Hl as (k0 & v0 & -> & -> & Hm). exists k0. by rewrite lookup_fmap, Hm.
  - intros (k0 & -> & Hm). rewrite lookup_fmap, fmap_Some in Hm. destruct Hm as (v0 & Hm & ->).
    rewrite (lookup_map_extend_NoDup ∅ l (convert_outpoint k0) (g v0)); [done|done|]. apply Hin. eauto.
Qed.

Lemma convert_utxoset_kmap o : convert_utxoset o = map_converted convert_txout o.
Proof. apply collect_kmap. Qed.
Lemma convert_saved_kmap o : convert_saved_wallet_transactions o = map_converted convert_asset o.
Proof. apply collect_kmap. Qed.
Lemma convert_pages_kmap o : convert_saved_wallet_transactions_pages o = map_converted convert_asset <$> o.
Proof. unfold convert_saved_wallet_transactions_pages. induction o as [|p o IH]; [done|]. cbn. by rewrite IH, collect_kmap. Qed.
