(* ===== verification/Upgrade.v ===== *)
(** * The upgrade of databases: [src/upgrade/mod.rs]

    The databases that version 4 left are opened under its columns, each value is
    read with the types of [FrozenLastVersion.old], and a batch writes what
    changes; a key or a value that is not recognised stops the upgrade before
    anything is written.  The theorems say what a node of this version finds
    afterwards: the block chain of a storage node, the log and the UTXO set of a
    compute node, the funds of a wallet.  The databases are those in memory; the
    command that runs the upgrade on files is not modelled. *)
From S2P Require Import Prelude Externals Utils TrackedUtxo Unicorn DbUtils RaftStore Interfaces FundStore Wallet TransactionGen.
From S2P Require Import BlockPipeline ComputeConsensused StorageRaft Compute Miner User StorageFetch BlockStore FrozenLastVersion.

(** ** Data *)
Record DbSpecInfo := mkDbSpecInfo { si_node_type : string; si_db_path : string; si_suffix : string }.
Definition DB_SPEC_INFOS : list DbSpecInfo :=
  [mkDbSpecInfo "compute" "src/db/db" ".compute"; mkDbSpecInfo "compute" "src/db/db" ".compute_raft";
   mkDbSpecInfo "storage" "src/db/db" ".storage"; mkDbSpecInfo "storage" "src/db/db" ".storage_raft";
   mkDbSpecInfo "miner" "src/wallet/wallet" EmptyString; mkDbSpecInfo "user" "src/wallet/wallet" EmptyString].

Record UpgradeStatus := mkUpgradeStatus { last_block_num : option Z; last_raft_block_num : option Z }.
#[export] Instance eta_UpgradeStatus : Eta UpgradeStatus := λ r, mkUpgradeStatus (last_block_num r) (last_raft_block_num r).
Definition UpgradeStatus_default : UpgradeStatus := mkUpgradeStatus None None.

Record UpgradeCfg := mkUpgradeCfg {
  raft_len : Z;
  compute_partition_full_size : Z;
  compute_unicorn_fixed_param : UnicornFixedInfo;
  passphrase : string;
}.

Inductive UpgradeError :=
  | UpgradeConfigError (e : string) | UpgradeDbError (e : SimpleDbError) | UpgradeSerialization
  | UpgradeStringError (e : string) | UpgradeWalletError (e : WalletDbError).

(** [configurations.rs]: the parameters that carry databases. *)
Record CustomDbSpec := mkCustomDbSpec { cs_db_path : string; cs_suffix : string }.
Record ExtraNodeParams := mkExtraNodeParams {
  en_db : option SimpleDb;
  en_raft_db : option SimpleDb;
  en_wallet_db : option SimpleDb;
  shared_wallet_db : option WalletDb;
  custom_wallet_spec : option CustomDbSpec;
  disable_tcp_listener : bool;
}.
#[export] Instance eta_ExtraNodeParams : Eta ExtraNodeParams := λ r,
  mkExtraNodeParams (en_db r) (en_raft_db r) (en_wallet_db r) (shared_wallet_db r) (custom_wallet_spec r)
    (disable_tcp_listener r).
Definition ExtraNodeParams_default : ExtraNodeParams := mkExtraNodeParams None None None None None false.

(** A loop that may return early with an error. *)
Fixpoint rfold {E A B : Type} (f : A → B → outcome (E + A)) (a : A) (l : list B) : outcome (E + A) :=
  match l with [] => Ret (inr a) | b :: l => let? a := f a b in rfold f a l end.
Definition db_err {A : Type} (m : outcome (SimpleDbError + A)) : outcome (UpgradeError + A) :=
  let! r := m in Ret (match r with inl e => inl (UpgradeDbError e) | inr a => inr a end).
Definition lift {A : Type} (m : outcome A) : outcome (UpgradeError + A) := let! a := m in Ret (inr a).
Definition is_key (key : list Z) (name : string) : bool := bool_decide (key = string_codes name).
Definition starts_with (key : list Z) (prefix : string) : bool :=
  bool_decide (take (length (string_codes prefix)) key = string_codes prefix).

(** ** Texts *)
Definition quote : string := String (Ascii.ascii_of_nat 34) EmptyString.
Definition is_ascii_alphanumeric (v : Z) : bool :=
  ((48 <=? v) && (v <=? 57)) || ((65 <=? v) && (v <=? 90)) || ((97 <=? v) && (v <=? 122)).
Definition as_char (v : Z) : Ascii.ascii := Ascii.ascii_of_N (Z.to_N v).
(** A digit of [{:X}]. *)
Definition hex_upper (z : Z) : Ascii.ascii := as_char (if z <? 10 then 48 + z else 55 + z).
Fixpoint to_u8_array_literal (value : list Z) : string :=
  match value with
  | [] => EmptyString
  | v :: value =>
      (if is_ascii_alphanumeric v || (v =? 95) then String (as_char v) EmptyString
       else "\x" +:+ String (hex_upper (v / 16)) (String (hex_upper (v mod 16)) EmptyString))
      +:+ to_u8_array_literal value
  end.
Definition key_value_error (info : string) (key value : list Z) : UpgradeError :=
  UpgradeStringError (info +:+ " " +:+ quote +:+ to_u8_array_literal key +:+ quote +:+ " -> " +:+
    quote +:+ to_u8_array_literal value +:+ quote).

(** ** Keys *)
Section keys.
(** [TX_PREPEND] is a constant of naom. *)
Context (TX_PREPEND : Z).

Definition is_transaction_key (key : list Z) : bool := bool_decide (head key = Some TX_PREPEND) || (length key =? 6)%nat.
Definition is_block_key (key : list Z) : bool :=
  (length key =? 64)%nat || ((length key =? 65)%nat && bool_decide (head key = Some BLOCK_PREPEND)).
End keys.
Definition is_wallet_address_store_key (key : list Z) : bool := (length key =? 32)%nat || (length key =? 64)%nat.
Definition is_wallet_transaction_store_key (key : list Z) : bool := (length key =? 44)%nat || (length key =? 18)%nat.

(** ** Raft databases

    [convert] carries what the closure of the source changes. *)
Section raft_db.
Context {S : Type}.

Definition clean_raft_step (convert : S → list Z → list Z → outcome (UpgradeError + S * list Z))
    (acc : S * WriteBatch) (kv : list Z * list Z) : outcome (UpgradeError + S * WriteBatch) :=
  let '(key, value) := kv in
  if is_key key DB_VERSION_KEY then Ret (inr acc)
  else if is_key key old.SNAPSHOT_DATA_KEY then
    let? d := convert acc.1 key value in
    lift (let! b := batch_put_cf acc.2 DB_COL_DEFAULT (string_codes SNAPSHOT_DATA_KEY) d.2 in Ret (d.1, b))
  else if negb (starts_with key old.ENTRY_KEY || is_key key old.HARDSTATE_KEY || is_key key old.LAST_ENTRY_KEY
                || is_key key old.SNAPSHOT_META_KEY || is_key key old.SNAPSHOT_DATA_KEY)
  then Ret (inl (key_value_error "Unexpected raft key" key value))
  else Ret (inr acc).
Definition clean_raft_db (raft_db : SimpleDb) (raft_batch : WriteBatch)
    (convert : S → list Z → list Z → outcome (UpgradeError + S * list Z)) (s : S) : outcome (UpgradeError + S * WriteBatch) :=
  let! it := iter_cf_clone raft_db DB_COL_DEFAULT in rfold (clean_raft_step convert) (s, raft_batch) it.
End raft_db.

Definition clean_same_step (convert : list Z → list Z → outcome (UpgradeError + list Z))
    (raft_batch : WriteBatch) (kv : list Z * list Z) : outcome (UpgradeError + WriteBatch) :=
  let '(key, value) := kv in
  let! raft_batch := batch_delete_cf raft_batch DB_COL_DEFAULT key in
  if is_key key SNAPSHOT_META_KEY || is_key key DB_VERSION_KEY then lift (batch_put_cf raft_batch DB_COL_DEFAULT key value)
  else if is_key key SNAPSHOT_DATA_KEY then
    let? data := convert key value in lift (batch_put_cf raft_batch DB_COL_DEFAULT key data)
  else if negb (starts_with key ENTRY_KEY || is_key key HARDSTATE_KEY || is_key key LAST_ENTRY_KEY)
  then Ret (inl (key_value_error "Unexpected raft key" key value))
  else Ret (inr raft_batch).
Definition clean_same_raft_db (raft_db : SimpleDb) (raft_batch : WriteBatch)
    (convert : list Z → list Z → outcome (UpgradeError + list Z)) : outcome (UpgradeError + WriteBatch) :=
  let! it := iter_cf_clone raft_db DB_COL_DEFAULT in rfold (clean_same_step convert) raft_batch it.

(** ** The upgrade *)
Section upgrade.
Context `{Naom, Rug, Hex, KeccakPrime, NaomReceipts, NaomSigning, NaomCrypto, !NaomAssetValues}.
Context `{Bincode (list string), Bincode (list SocketAddr), Bincode (gset string), Bincode (option Z), Bincode Z}.
Context `{Bincode ComputeConsensused, Bincode StorageConsensused, Bincode (PendingMap * ReadyMap),
  Bincode (string * Transaction), Bincode FundStore, Bincode string, Bincode MasterKeyStore}.
Context `{Bincode old.ComputeConsensused, Bincode old.StorageConsensused, Bincode old.StoredSerializingBlock,
  Bincode old.Transaction, Bincode (old.PendingMap * old.ReadyMap), Bincode (string * old.Transaction),
  Bincode old.MasterKeyStore, Bincode old.FundStore, Bincode old.TransactionStore, Bincode old.AddressStore}.
(** [TX_PREPEND] of naom, the version set by the build, and bincode's text for
    bytes that are not a value of a type. *)
Context (TX_PREPEND : Z) (NETWORK_VERSION_SERIALIZED : list Z) (debug_error : Type → list Z → string).

Definition tracked_deserialize (T : Type) `{Bincode T} (tag : string) (key value : list Z) : UpgradeError + T :=
  match deserialize value with
  | Some v => inr v
  | None => inl (key_value_error (tag +:+ ": " +:+ debug_error T value) key value)
  end.
Definition key_run : list Z := serialize 0.
Definition put_version (b : WriteBatch) : outcome WriteBatch :=
  batch_put_cf b DB_COL_DEFAULT (string_codes DB_VERSION_KEY) NETWORK_VERSION_SERIALIZED.

(** *** Compute *)
Definition get_upgrade_compute_db (old_dbs : ExtraNodeParams) : outcome (UpgradeError + ExtraNodeParams) :=
  let? db := db_err (new_db_with_version NETWORK_VERSION_SERIALIZED old.compute_DB_SPEC old.NETWORK_VERSION_SERIALIZED (en_db old_dbs)) in
  let? raft_db := db_err (new_db_with_version NETWORK_VERSION_SERIALIZED old.compute_raft_DB_SPEC old.NETWORK_VERSION_SERIALIZED (en_raft_db old_dbs)) in
  Ret (inr (ExtraNodeParams_default <| en_db := Some db |> <| en_raft_db := Some raft_db |>)).

Definition internal_step (remove keep : list string) (column : string) (batch : WriteBatch) (kv : list Z * list Z) :
    outcome (UpgradeError + WriteBatch) :=
  if existsb (is_key kv.1) remove then lift (batch_delete_cf batch column kv.1)
  else if existsb (is_key kv.1) keep then Ret (inr batch)
  else Ret (inl (key_value_error "Unexpected key" kv.1 kv.2)).

Definition convert_compute (upgrade_cfg : UpgradeCfg) (status : UpgradeStatus) (k v : list Z) :
    outcome (UpgradeError + UpgradeStatus * list Z) :=
  let? o := Ret (tracked_deserialize old.ComputeConsensused "ComputeConsensused" k v) in
  let i := convert_compute_consensused_to_import o (Some FirstUpgradeBlock) in
  let status := status <| last_raft_block_num := ci_tx_current_block_num i |> in
  let i := mkComputeConsensusedImport (ci_unanimous_majority i) (ci_sufficient_majority i) (ci_partition_full_size i)
    (ci_unicorn_fixed_param i) (ci_tx_current_block_num i) None (ci_utxo_set i) (ci_last_committed_raft_idx_and_term i)
    (ci_current_circulation i) (ci_special_handling i) (ci_miner_whitelist i) in
  let c := cc_with_unicorn_fixed_param
    (with_partition_full_size (ComputeConsensused.with_peers_len (cc_from_import i) (raft_len upgrade_cfg))
       (compute_partition_full_size upgrade_cfg)) (compute_unicorn_fixed_param upgrade_cfg) in
  let! c := cc_init_block_pipeline_status c in
  Ret (inr (status, serialize c)).

Definition upgrade_compute_db_batch (dbs : SimpleDb * SimpleDb) (batches : WriteBatch * WriteBatch) (upgrade_cfg : UpgradeCfg) :
    outcome (UpgradeError + WriteBatch * WriteBatch * UpgradeStatus) :=
  let! batch := put_version batches.1 in
  let! raft_batch := put_version batches.2 in
  let! batch := batch_put_cf batch Compute.DB_COL_INTERNAL (string_codes Compute.RAFT_KEY_RUN) key_run in
  let! it := iter_cf_clone dbs.1 Compute.DB_COL_INTERNAL in
  let? batch := rfold (internal_step [old.REQUEST_LIST_KEY; old.USER_NOTIFY_LIST_KEY]
                  [Compute.RAFT_KEY_RUN; POW_PREV_RANDOM_NUM_KEY; POW_RANDOM_NUM_KEY] Compute.DB_COL_INTERNAL) batch it in
  let! it := iter_cf_clone dbs.1 DB_COL_LOCAL_TXS in
  let! batch := ofold (λ b kv, batch_delete_cf b DB_COL_LOCAL_TXS kv.1) batch it in
  let? r := clean_raft_db dbs.2 raft_batch (convert_compute upgrade_cfg) UpgradeStatus_default in
  Ret (inr (batch, r.2, r.1)).

Definition upgrade_compute_db (dbs : ExtraNodeParams) (upgrade_cfg : UpgradeCfg) :
    outcome (UpgradeError + ExtraNodeParams * UpgradeStatus) :=
  let! db := unwrap (en_db dbs) in
  let! raft_db := unwrap (en_raft_db dbs) in
  let? r := upgrade_compute_db_batch (db, raft_db) (batch_writer db, batch_writer raft_db) upgrade_cfg in
  let '(batch, raft_batch, status) := r in
  let! db := write db (batch_done batch) in
  let! raft_db := write raft_db (batch_done raft_batch) in
  Ret (inr (dbs <| en_db := Some db |> <| en_raft_db := Some raft_db |>, status)).

Definition convert_same_compute (k v : list Z) : outcome (UpgradeError + list Z) :=
  let? c := Ret (tracked_deserialize ComputeConsensused "ComputeConsensused" k v) in
  let i := cc_into_import c (Some FirstUpgradeBlock) in
  let i := mkComputeConsensusedImport (ci_unanimous_majority i) (ci_sufficient_majority i) (ci_partition_full_size i)
    (ci_unicorn_fixed_param i) (ci_tx_current_block_num i) None (ci_utxo_set i) (ci_last_committed_raft_idx_and_term i)
    (ci_current_circulation i) (ci_special_handling i) (ci_miner_whitelist i) in
  Ret (inr (serialize (cc_from_import i))).

Definition upgrade_same_version_compute_db (dbs : ExtraNodeParams) : outcome (UpgradeError + ExtraNodeParams) :=
  let! db := unwrap (en_db dbs) in
  let! raft_db := unwrap (en_raft_db dbs) in
  let! it := iter_cf_clone db Compute.DB_COL_INTERNAL in
  let? batch := rfold (internal_step [Compute.REQUEST_LIST_KEY; Compute.USER_NOTIFY_LIST_KEY; POW_RANDOM_NUM_KEY; POW_PREV_RANDOM_NUM_KEY]
                  [Compute.RAFT_KEY_RUN] Compute.DB_COL_INTERNAL) (batch_writer db) it in
  let! it := iter_cf_clone db DB_COL_LOCAL_TXS in
  let! batch := ofold (λ b kv, batch_delete_cf b DB_COL_LOCAL_TXS kv.1) batch it in
  let? raft_batch := clean_same_raft_db raft_db (batch_writer raft_db) convert_same_compute in
  let! db := write db (batch_done batch) in
  let! raft_db := write raft_db (batch_done raft_batch) in
  Ret (inr (dbs <| en_db := Some db |> <| en_raft_db := Some raft_db |>)).

(** *** Storage *)
Definition get_upgrade_storage_db (old_dbs : ExtraNodeParams) : outcome (UpgradeError + ExtraNodeParams) :=
  let? db := db_err (new_db_with_version NETWORK_VERSION_SERIALIZED old.storage_DB_SPEC old.NETWORK_VERSION_SERIALIZED (en_db old_dbs)) in
  let? raft_db := db_err (new_db_with_version NETWORK_VERSION_SERIALIZED old.storage_raft_DB_SPEC old.NETWORK_VERSION_SERIALIZED (en_raft_db old_dbs)) in
  let db := upgrade_create_missing_cf db DB_COL_BC_NOW in
  Ret (inr (ExtraNodeParams_default <| en_db := Some db |> <| en_raft_db := Some raft_db |>)).

(** [max] of [Option]: [None] is the least. *)
Definition option_max (a b : option Z) : option Z :=
  match a, b with
  | Some x, Some y => Some (Z.max x y)
  | None, _ => b
  | _, None => a
  end.

Definition chain_step (status : UpgradeStatus) (kv : list Z * list Z) : outcome (UpgradeError + UpgradeStatus) :=
  let '(key, value) := kv in
  if is_transaction_key TX_PREPEND key then
    let? _ := Ret (tracked_deserialize old.Transaction "Tx deserialize" key value) in Ret (inr status)
  else if is_block_key key then
    let? b := Ret (tracked_deserialize old.StoredSerializingBlock "Block deserialize" key value) in
    Ret (inr (status <| last_block_num ::= λ n, option_max n (Some (old.b_num (old.header (old.block b)))) |>))
  else Ret (inl (key_value_error "Unexpected key" key value)).

Definition convert_storage (upgrade_cfg : UpgradeCfg) (status : UpgradeStatus) (k v : list Z) :
    outcome (UpgradeError + UpgradeStatus * list Z) :=
  let? o := Ret (tracked_deserialize old.StorageConsensused "StorageConsensused" k v) in
  let! i := convert_storage_consensused_to_import o in
  let status := status <| last_raft_block_num := Some (import_current_block_num i) |> in
  let c := StorageRaft.with_peers_len (StorageRaft.from_import i) (raft_len upgrade_cfg) in
  Ret (inr (status, serialize c)).

Definition upgrade_storage_db_batch (dbs : SimpleDb * SimpleDb) (batches : WriteBatch * WriteBatch) (upgrade_cfg : UpgradeCfg) :
    outcome (UpgradeError + WriteBatch * WriteBatch * UpgradeStatus) :=
  let! batch := put_version batches.1 in
  let! raft_batch := put_version batches.2 in
  let! batch := batch_put_cf batch DB_COL_INTERNAL (string_codes RAFT_KEY_RUN) key_run in
  let! it := iter_cf_clone dbs.1 DB_COL_INTERNAL in
  let? batch := rfold (internal_step [] [RAFT_KEY_RUN; LAST_CONTIGUOUS_BLOCK_KEY] DB_COL_INTERNAL) batch it in
  let! it := iter_cf_clone dbs.1 old.DB_COL_BC_V0_6_0 in
  let? status := rfold chain_step UpgradeStatus_default it in
  let? r := clean_raft_db dbs.2 raft_batch (convert_storage upgrade_cfg) status in
  Ret (inr (batch, r.2, r.1)).

Definition upgrade_storage_db (dbs : ExtraNodeParams) (upgrade_cfg : UpgradeCfg) :
    outcome (UpgradeError + ExtraNodeParams * UpgradeStatus) :=
  let! db := unwrap (en_db dbs) in
  let! raft_db := unwrap (en_raft_db dbs) in
  let? r := upgrade_storage_db_batch (db, raft_db) (batch_writer db, batch_writer raft_db) upgrade_cfg in
  let '(batch, raft_batch, status) := r in
  let! db := write db (batch_done batch) in
  let! raft_db := write raft_db (batch_done raft_batch) in
  Ret (inr (dbs <| en_db := Some db |> <| en_raft_db := Some raft_db |>, status)).

Definition convert_same_storage (k v : list Z) : outcome (UpgradeError + list Z) :=
  let? c := Ret (tracked_deserialize StorageConsensused "StorageConsensused" k v) in
  let i := StorageRaft.into_import c in
  let unset info := mkBlockStoredInfo (bs_block_hash info) (bs_block_num info) (bs_nonce info) (bs_mining_transactions info) false in
  let i := mkStorageConsensusedImport (import_sufficient_majority i) (import_current_block_num i)
    (import_last_committed_raft_idx_and_term i) (unset <$> import_last_block_stored i) in
  Ret (inr (serialize (StorageRaft.from_import i))).

Definition upgrade_same_version_storage_db (dbs : ExtraNodeParams) : outcome (UpgradeError + ExtraNodeParams) :=
  let! db := unwrap (en_db dbs) in
  let! raft_db := unwrap (en_raft_db dbs) in
  let! it := iter_cf_clone db DB_COL_INTERNAL in
  let? batch := rfold (internal_step [] [RAFT_KEY_RUN; LAST_CONTIGUOUS_BLOCK_KEY] DB_COL_INTERNAL) (batch_writer db) it in
  let? raft_batch := clean_same_raft_db raft_db (batch_writer raft_db) convert_same_storage in
  let! db := write db (batch_done batch) in
  let! raft_db := write raft_db (batch_done raft_batch) in
  Ret (inr (dbs <| en_db := Some db |> <| en_raft_db := Some raft_db |>)).

(** *** Wallet *)
Definition get_upgrade_wallet_db (old_dbs : ExtraNodeParams) : outcome (UpgradeError + ExtraNodeParams) :=
  let? db := db_err (new_db_with_version NETWORK_VERSION_SERIALIZED old.wallet_DB_SPEC old.NETWORK_VERSION_SERIALIZED (en_wallet_db old_dbs)) in
  Ret (inr (ExtraNodeParams_default <| en_wallet_db := Some db |>)).

Definition wallet_step (masterkey : list Z) (batch : WriteBatch) (kv : list Z * list Z) : outcome (UpgradeError + WriteBatch) :=
  let '(key, value) := kv in
  if is_key key DB_VERSION_KEY then Ret (inr batch)
  else if is_key key old.TX_GENERATOR_KEY then
    let? old_gen := Ret (tracked_deserialize (old.PendingMap * old.ReadyMap) "TransactionGen deserialize" key value) in
    let! gen := convert_transaction_gen old_gen in
    lift (batch_put_cf batch DB_COL_DEFAULT (string_codes TX_GENERATOR_KEY) (serialize gen))
  else if is_key key old.LAST_COINBASE_KEY then
    let? old_coinbase := Ret (tracked_deserialize (string * old.Transaction) "LastCoinbase deserialize" key value) in
    let! coinbase := convert_last_coinbase old_coinbase in
    lift (batch_put_cf batch DB_COL_DEFAULT (string_codes LAST_COINBASE_KEY) (serialize coinbase))
  else if is_key key old.MINING_ADDRESS_KEY then
    let? _ := Ret (tracked_deserialize string "MiningAddress deserialize" key value) in Ret (inr batch)
  else if is_key key old.MASTER_KEY_STORE_KEY then
    let? _ := Ret (tracked_deserialize old.MasterKeyStore "MasterKeyStore deserialize" key value) in Ret (inr batch)
  else if is_key key old.FUND_KEY then
    let? old_fundstore := Ret (tracked_deserialize old.FundStore "FundStore deserialize" key value) in
    lift (batch_put_cf batch DB_COL_DEFAULT (string_codes FUND_KEY) (serialize (convert_fund_store old_fundstore)))
  else if is_key key old.KNOWN_ADDRESS_KEY then
    let? _ := Ret (tracked_deserialize (list string) "Known Addresses deserialize" key value) in Ret (inr batch)
  else if is_wallet_transaction_store_key key then
    let? _ := Ret (tracked_deserialize old.TransactionStore "Tx Store deserialize" key value) in Ret (inr batch)
  else if is_wallet_address_store_key key then
    let! value := decrypt_store value masterkey in
    let? _ := Ret (tracked_deserialize old.AddressStore "Addr Store deserialize" key value) in Ret (inr batch)
  else Ret (inl (key_value_error "Key not recognized" key value)).

(** The salt, master key and nonce are those drawn when there is no master key yet. *)
Definition upgrade_wallet_db_batch (db : SimpleDb) (batch : WriteBatch) (upgrade_cfg : UpgradeCfg) (salt master_key nonce : list Z) :
    outcome (UpgradeError + WriteBatch * UpgradeStatus) :=
  let! batch := put_version batch in
  let! r := get_or_save_master_key_store db batch (string_codes (passphrase upgrade_cfg)) salt master_key nonce in
  match r.1 with
  | inl e => Ret (inl (UpgradeWalletError e))
  | inr masterkey =>
      let! it := iter_cf_clone db DB_COL_DEFAULT in
      let? batch := rfold (wallet_step masterkey) r.2 it in
      Ret (inr (batch, UpgradeStatus_default))
  end.

Definition upgrade_wallet_db (dbs : ExtraNodeParams) (upgrade_cfg : UpgradeCfg) (salt master_key nonce : list Z) :
    outcome (UpgradeError + ExtraNodeParams * UpgradeStatus) :=
  let! db := unwrap (en_wallet_db dbs) in
  let? r := upgrade_wallet_db_batch db (batch_writer db) upgrade_cfg salt master_key nonce in
  let! db := write db (batch_done r.1) in
  Ret (inr (dbs <| en_wallet_db := Some db |>, r.2)).

Definition upgrade_same_version_wallet_db (dbs : ExtraNodeParams) : outcome (UpgradeError + ExtraNodeParams) :=
  let! _ := unwrap (en_wallet_db dbs) in Ret (inr dbs).

(** *** Dump *)
Definition get_db_to_dump_no_checks (db_info : DbSpecInfo) (old_db : option SimpleDb) : outcome (UpgradeError + SimpleDb) :=
  db_err (new_in_memory NETWORK_VERSION_SERIALIZED [] old_db).
End upgrade.

Definition dump_db (db : SimpleDb) : outcome (list string) :=
  let! all := iter_all_cf_clone db in
  Ret (c ← all; (λ kv : list Z * list Z,
    quote +:+ c.1 +:+ quote +:+ ", b" +:+ quote +:+ to_u8_array_literal kv.1 +:+ quote +:+ ", b" +:+
    quote +:+ to_u8_array_literal kv.2 +:+ quote) <$> c.2).

(** ** The text of bytes *)
Definition hex_value (c : Ascii.ascii) : Z :=
  let n := Z.of_N (Ascii.N_of_ascii c) in if n <? 58 then n - 48 else n - 55.
(** A reader of the literals of Rust for bytes: a character, or [\x] and two digits. *)
Fixpoint read_literal (s : string) : list Z :=
  match s with
  | EmptyString => []
  | String c s =>
      if Ascii.eqb c (as_char 92) then
        match s with
        | String _ (String a (String b s)) => 16 * hex_value a + hex_value b :: read_literal s
        | _ => []
        end
      else Z.of_N (Ascii.N_of_ascii c) :: read_literal s
  end.

Lemma N_of_as_char v : 0 ≤ v < 256 → Z.of_N (Ascii.N_of_ascii (as_char v)) = v.
Proof. intros Hv. unfold as_char. rewrite Ascii.N_ascii_embedding by lia. lia. Qed.
Lemma hex_value_upper z : 0 ≤ z < 16 → hex_value (hex_upper z) = z.
Proof.
  intros Hz. unfold hex_value, hex_upper. destruct (Z.ltb_spec z 10); rewrite N_of_as_char by lia.
  - rewrite (proj2 (Z.ltb_lt _ _)); lia.
  - rewrite (proj2 (Z.ltb_ge _ _)); lia.
Qed.

(** The text that a dump or an error gives for bytes stands for these bytes and
    no others: read as a literal it gives them back. *)
Theorem literal_roundtrip (l : list Z) : Forall (λ v, 0 ≤ v < 256) l → read_literal (to_u8_array_literal l) = l.
Proof.
  induction 1 as [|v l Hv _ IH]; [done|]. cbn [to_u8_array_literal].
  destruct (is_ascii_alphanumeric v || (v =? 95)) eqn:E.
  - change (_ +:+ to_u8_array_literal l) with (String (as_char v) (to_u8_array_literal l)). cbn [read_literal].
    destruct (Ascii.eqb_spec (as_char v) (as_char 92)) as [Ec|_].
    + exfalso. apply (f_equal (λ c, Z.of_N (Ascii.N_of_ascii c))) in Ec. rewrite !N_of_as_char in Ec by lia. subst v. discriminate E.
    + by rewrite N_of_as_char, IH by lia.
  - change (_ +:+ to_u8_array_literal l) with (String (as_char 92) (String (as_char 120) (String (hex_upper (v / 16))
      (String (hex_upper (v mod 16)) (to_u8_array_literal l))))). cbn [read_literal]. rewrite Ascii.eqb_refl, IH.
    pose proof (Z.mod_pos_bound v 16 eq_refl). pose proof (Z.div_mod v 16 ltac:(done)).
    rewrite !hex_value_upper by lia. f_equal. lia.
Qed.

(** ** What a run writes *)
Lemma rbind_inr {E A B : Type} (m : outcome (E + A)) (k : A → outcome (E + B)) b :
  rbind m k = Ret (inr b) ↔ ∃ a, m = Ret (inr a) ∧ k a = Ret (inr b).
Proof.
  unfold rbind. split.
  - intros ([e|a] & -> & Hk)%obind_ret; [done|by exists a].
  - intros (a & -> & Hk). exact Hk.
Qed.
Lemma lift_inr {A : Type} (m : outcome A) a : lift m = Ret (inr a) → m = Ret a.
Proof. unfold lift. by intros (x & -> & [= ->])%obind_ret. Qed.
Lemma db_err_inr {A : Type} (m : outcome (SimpleDbError + A)) a : db_err m = Ret (inr a) → m = Ret (inr a).
Proof. unfold db_err. by intros ([e|x] & -> & [= ->])%obind_ret. Qed.

Lemma rfold_inv {E A B : Type} (f : A → B → outcome (E + A)) (P : list B → A → Prop) (l : list B) a a' :
  P [] a → (∀ seen b rest a a', l = seen ++ b :: rest → P seen a → f a b = Ret (inr a') → P (seen ++ [b]) a') →
  rfold f a l = Ret (inr a') → P l a'.
Proof.
  intros H0 Hs. assert (Hg : ∀ rest seen a, l = seen ++ rest → P seen a → rfold f a rest = Ret (inr a') → P l a').
  { clear a H0. induction rest as [|b rest IH]; intros seen a El Ha; cbn [rfold].
    - intros [= <-]. by rewrite El, app_nil_r.
    - intros (a1 & Hf & Hr)%rbind_inr. apply (IH (seen ++ [b]) a1); [by rewrite <-(assoc_L (++))| |exact Hr].
      by eapply Hs. }
  by apply (Hg l []).
Qed.

(** A batch that the operations [ops] have built. *)
Definition built (db : SimpleDb) (ops : list op) (b : WriteBatch) : Prop := ofold batch_op (batch_writer db) ops = Ret b.

Lemma built_nil db : built db [] (batch_writer db).
Proof. done. Qed.
Lemma built_snoc db ops b o b' : built db ops b → batch_op b o = Ret b' → built db (ops ++ [o]) b'.
Proof. unfold built. intros Hb Ho. rewrite ofold_app, Hb. cbn. by rewrite Ho. Qed.
Lemma built_put db ops b cf k v b' : built db ops b → batch_put_cf b cf k v = Ret b' → built db (ops ++ [(cf, k, Some v)]) b'.
Proof. intros Hb Ho. by apply (built_snoc db ops b). Qed.
Lemma built_delete db ops b cf k b' : built db ops b → batch_delete_cf b cf k = Ret b' → built db (ops ++ [(cf, k, None)]) b'.
Proof. intros Hb Ho. by apply (built_snoc db ops b). Qed.

Lemma batch_op_inv b o b' : batch_op b o = Ret b' → is_Some (batch_columns b !! o.1.1) ∧ batch_columns b' = batch_columns b.
Proof.
  destruct o as [[cf k] [v|]]; unfold batch_op, batch_put_cf, put_cf_checked, batch_delete_cf; cbn;
    destruct (batch_columns b !! cf) as [i|] eqn:E; cbn; intros [= <-]; by split; [eexists|].
Qed.
Lemma built_columns db ops b : built db ops b → Forall (λ o, is_Some (columns db !! o.1.1)) ops ∧ batch_columns b = columns db.
Proof.
  revert b; induction ops as [|o ops IH] using rev_ind; intros b; [by intros [= <-]|].
  unfold built. rewrite ofold_app. intros (b1 & Hb1 & Hb)%obind_ret. cbn in Hb. apply obind_ret in Hb as (b2 & Ho & [= <-]).
  destruct (IH b1 Hb1) as [Hf Hc]. apply batch_op_inv in Ho as [Ho Hc']. rewrite Hc in Ho, Hc'.
  split; [|done]. apply Forall_app. split; [done|]. by constructor.
Qed.

Lemma built_write db ops b db' : db_wf db → built db ops b → write db (batch_done b) = Ret db' →
  db_wf db' ∧ columns db' = columns db ∧ ∀ cf, content db' cf = foldl apply_op (content db) ops cf.
Proof.
  intros Hwf Hb Hw. destruct (built_columns _ _ _ Hb) as [Hf _].
  destruct (batch_spec db ops Hwf Hf) as (b' & db2 & Hb' & Hw' & ?). unfold built in Hb. rewrite Hb in Hb'.
  injection Hb' as <-. rewrite Hw in Hw'. by injection Hw' as <-.
Qed.
Lemma built_writes db ops b : db_wf db → built db ops b → ∃ db', write db (batch_done b) = Ret db'.
Proof.
  intros Hwf Hb. destruct (built_columns _ _ _ Hb) as [Hf _].
  destruct (batch_spec db ops Hwf Hf) as (b' & db2 & Hb' & Hw' & ?). unfold built in Hb. rewrite Hb in Hb'.
  injection Hb' as <-. by exists db2.
Qed.

(** Columns that no operation names keep their content; the others are changed
    by the operations on them. *)
Lemma apply_ops_col (ops : list op) c cf :
  foldl apply_op c ops cf = (λ m, foldl kv_op m ((λ o : op, (o.1.2, o.2)) <$> filter (λ o : op, o.1.1 = cf) ops)) <$> c cf.
Proof.
  revert c; induction ops as [|o ops IH]; intros c; cbn [foldl]; [by destruct (c cf)|].
  rewrite IH. unfold apply_op at 1. rewrite filter_cons. destruct (decide (cf = o.1.1)) as [->|Hne].
  - rewrite decide_True by done. by destruct (c o.1.1).
  - rewrite decide_False by done. done.
Qed.
Lemma apply_ops_other (ops : list op) c cf : (∀ o, o ∈ ops → o.1.1 ≠ cf) → foldl apply_op c ops cf = c cf.
Proof.
  intros Hn. rewrite apply_ops_col. assert (E : filter (λ o : op, o.1.1 = cf) ops = []); [|rewrite E; by destruct (c cf)].
  clear -Hn. induction ops as [|o ops IH]; [done|]. rewrite filter_cons, decide_False by (apply Hn; left).
  apply IH. intros o' Ho'. apply Hn. by right.
Qed.

Lemma apply_put c cf k v m : c cf = Some m → apply_op c (cf, k, Some v) cf = Some (<[k := v]> m).
Proof. intros Hm. unfold apply_op. cbn. by rewrite decide_True, Hm. Qed.
Lemma put_one c cf k v m : c cf = Some m → foldl apply_op c [(cf, k, Some v)] cf = Some (<[k := v]> m).
Proof. apply apply_put. Qed.
Lemma put_two c cf k v k' v' m : c cf = Some m →
  foldl apply_op c [(cf, k, Some v); (cf, k', Some v')] cf = Some (<[k' := v']> (<[k := v]> m)).
Proof. intros Hm. cbn. by apply apply_put, apply_put. Qed.

(** ** Opening the databases *)
Lemma check_includes old new : check_old_includes_new old new = inr () ↔ ∀ c, c ∈ new → c ∈ old.
Proof.
  unfold check_old_includes_new. case_bool_decide as D; split; try done.
  - intros _ c Hc. specialize (D c). rewrite !elem_of_list_to_set in D. auto.
  - intros Hall. exfalso. apply D. intros c. rewrite !elem_of_list_to_set. auto.
Qed.

Lemma new_db_version_old NV cols v db db' : new_db_with_version NV cols v (Some db) = Ret (inr db') ↔
  db' = db ∧ (∀ c, c ∈ DB_COL_DEFAULT :: cols → is_Some (columns db !! c)) ∧
  get_cf db DB_COL_DEFAULT (string_codes DB_VERSION_KEY) = Ret v.
Proof.
  unfold new_db_with_version, new_in_memory. pose proof (check_includes (bt_keys (columns db)) (DB_COL_DEFAULT :: cols)) as Hc.
  assert (Hk : (∀ c, c ∈ DB_COL_DEFAULT :: cols → c ∈ bt_keys (columns db)) ↔
    (∀ c, c ∈ DB_COL_DEFAULT :: cols → is_Some (columns db !! c))).
  { split; intros Hall c Hin; [apply elem_of_bt_keys|apply elem_of_bt_keys]; auto. }
  rewrite Hk in Hc. destruct (check_old_includes_new _ _) as [e|[]]; cbn [obind].
  { split; [done|]. intros (_ & Hall & _). by apply Hc in Hall. }
  unfold check_version. split.
  - intros (r & (v' & Hv & [= <-])%obind_ret & [= Hr])%obind_ret. case_bool_decide as D; [|done]. subst. injection Hr as <-.
    split; [done|]. split; [by apply Hc|done].
  - intros (-> & _ & ->). cbn. by rewrite bool_decide_true.
Qed.

Lemma new_db_opens NV cols db : (∀ c, c ∈ DB_COL_DEFAULT :: cols → is_Some (columns db !! c)) →
  get_cf db DB_COL_DEFAULT (string_codes DB_VERSION_KEY) = Ret (Some NV) → new_db NV cols (Some db) = Ret db.
Proof.
  intros Hc Hv. unfold new_db. by rewrite (proj2 (new_db_version_old NV cols (Some NV) db db)).
Qed.

Lemma create_missing_spec db name : db_wf db → let db' := upgrade_create_missing_cf db name in
  db_wf db' ∧ is_Some (columns db' !! name) ∧ (∀ c, is_Some (columns db !! c) → is_Some (columns db' !! c)) ∧
  (∀ cf m, content db cf = Some m → content db' cf = Some m).
Proof.
  intros [Hlt Hinj]. unfold upgrade_create_missing_cf. cbn zeta. case_bool_decide as D; [by split_and!|].
  split; [split; cbn [columns key_values]|].
  - intros cf i [[<- <-]|[_ Hi]]%lookup_insert_Some; rewrite length_app; cbn; [lia|]. specialize (Hlt _ _ Hi). lia.
  - intros cf1 cf2 i [[<- <-]|[? Hi1]]%lookup_insert_Some [[<- E]|[? Hi2]]%lookup_insert_Some; [done| | |by eapply Hinj].
    + specialize (Hlt _ _ Hi2). lia.
    + subst. specialize (Hlt _ _ Hi1). lia.
  - split; [cbn; rewrite lookup_insert_eq; by eexists|]. split.
    + intros c Hc. cbn. destruct (decide (c = name)) as [->|]; [by rewrite lookup_insert_eq; eexists|by rewrite lookup_insert_ne].
    + intros cf m. unfold content. cbn. destruct (decide (cf = name)) as [->|Hne].
      * destruct (columns db !! name) eqn:E; [|done]. by destruct D; eexists.
      * rewrite lookup_insert_ne by done. destruct (columns db !! cf) as [i|] eqn:E; [|done]. cbn. intros Hm.
        rewrite lookup_app_l; [done|by eapply Hlt].
Qed.

(** ** The loops *)
Lemma is_key_true key name : is_key key name = true ↔ key = string_codes name.
Proof. unfold is_key. by rewrite bool_decide_eq_true. Qed.

Lemma internal_built remove keep column db ops b it b' : built db ops b →
  rfold (internal_step remove keep column) b it = Ret (inr b') →
  built db (ops ++ ((λ kv, (column, kv.1, None)) <$> filter (λ kv : list Z * list Z, existsb (is_key kv.1) remove = true) it)) b'.
Proof.
  intros Hb. apply (rfold_inv _ (λ it b', built db (ops ++ ((λ kv, (column, kv.1, None)) <$>
    filter (λ kv : list Z * list Z, existsb (is_key kv.1) remove = true) it)) b')); [by rewrite app_nil_r|].
  intros seen kv rest b1 b2 _ H1 Hs. rewrite filter_app, fmap_app, (assoc_L (++)), filter_cons, filter_nil.
  unfold internal_step in Hs. destruct (existsb (is_key kv.1) remove) eqn:Er.
  - apply lift_inr in Hs. rewrite decide_True by done. exact (built_delete _ _ _ _ _ _ H1 Hs).
  - rewrite decide_False by done. cbn [fmap list_fmap]. rewrite app_nil_r. destruct (existsb (is_key kv.1) keep); [|done]. by injection Hs as <-.
Qed.

Lemma iter_content db cf it : db_wf db → iter_cf_clone db cf = Ret it → ∃ m, content db cf = Some m ∧ it = bt_iter m.
Proof.
  intros Hwf Hi. pose proof (column_map_content db cf Hwf) as Hc. unfold iter_cf_clone in Hi.
  destruct (content db cf) as [m|]; [|destruct Hc as [_ Hc]; by rewrite Hc in Hi]. destruct Hc as (i & _ & Ei). rewrite Ei in Hi.
  injection Hi as <-. by exists m.
Qed.

Lemma clean_raft_built {T : Type} (convert : T → list Z → list Z → outcome (UpgradeError + T * list Z)) db ops b s0 s' b' :
  db_wf db → built db ops b → clean_raft_db db b convert s0 = Ret (inr (s', b')) →
  ∃ m, content db DB_COL_DEFAULT = Some m ∧
    match m !! string_codes SNAPSHOT_DATA_KEY with
    | None => s' = s0 ∧ built db ops b'
    | Some v => ∃ d, convert s0 (string_codes SNAPSHOT_DATA_KEY) v = Ret (inr (s', d)) ∧
        built db (ops ++ [(DB_COL_DEFAULT, string_codes SNAPSHOT_DATA_KEY, Some d)]) b'
    end.
Proof.
  intros Hwf Hb. unfold clean_raft_db. intros (it & Hit & Hr)%obind_ret.
  destruct (iter_content _ _ _ Hwf Hit) as (m & Hm & Eit). exists m. split; [done|].
  set (K := string_codes SNAPSHOT_DATA_KEY).
  assert (HP : (∀ v, (K, v) ∈ it → ∃ d, convert s0 K v = Ret (inr ((s', b').1, d)) ∧
      built db (ops ++ [(DB_COL_DEFAULT, K, Some d)]) (s', b').2) ∧
    ((∀ v, (K, v) ∉ it) → (s', b').1 = s0 ∧ built db ops (s', b').2)).
  { assert (Hnd : NoDup it.*1) by (rewrite Eit; apply bt_keys_NoDup).
    revert Hr. generalize (s', b') as acc. intros acc.
    apply (rfold_inv _ (λ seen acc, (∀ v, (K, v) ∈ seen → ∃ d, convert s0 K v = Ret (inr (acc.1, d)) ∧
        built db (ops ++ [(DB_COL_DEFAULT, K, Some d)]) acc.2) ∧
      ((∀ v, (K, v) ∉ seen) → acc.1 = s0 ∧ built db ops acc.2))); clear acc; [split; [by intros v ?%elem_of_nil|done]|].
    intros seen [k v] rest [s1 b1] [s2 b2] El [H1 H2] Hs. cbn [fst snd] in *.
    unfold clean_raft_step in Hs. cbn [fst snd] in Hs.
    assert (Hkeep : is_key k SNAPSHOT_DATA_KEY = false → (s1, b1) = (s2, b2) →
      (∀ v0, (K, v0) ∈ seen ++ [(k, v)] → ∃ d, convert s0 K v0 = Ret (inr (s2, d)) ∧
        built db (ops ++ [(DB_COL_DEFAULT, K, Some d)]) b2) ∧
      ((∀ v0, (K, v0) ∉ seen ++ [(k, v)]) → s2 = s0 ∧ built db ops b2)).
    { intros Hk [= -> ->]. assert (Hne : k ≠ K) by (intros ->; unfold is_key in Hk; by rewrite bool_decide_true in Hk).
      setoid_rewrite elem_of_app. setoid_rewrite list_elem_of_singleton. split.
      - intros v0 [Hin|[= <- ->]]; [by apply H1|done].
      - intros Hno. apply H2. intros v0 Hin. apply (Hno v0). by left. }
    destruct (is_key k DB_VERSION_KEY) eqn:Ev.
    { apply Hkeep; [|by injection Hs as -> ->]. apply is_key_true in Ev as ->. reflexivity. }
    destruct (is_key k old.SNAPSHOT_DATA_KEY) eqn:Ek.
    - apply is_key_true in Ek as ->. clear Hkeep. change (string_codes old.SNAPSHOT_DATA_KEY) with K in *.
      apply rbind_inr in Hs as ([s3 d] & Hc & Hs). cbn [fst snd] in Hs.
      apply lift_inr, obind_ret in Hs as (b3 & Hp & [= -> ->]).
      assert (Hno : ∀ v0, (K, v0) ∉ seen).
      { intros v0 Hin. rewrite El, fmap_app, fmap_cons in Hnd. apply NoDup_app in Hnd as (_ & Hd & _).
        apply (Hd K); [by apply (list_elem_of_fmap_2 fst _ (K, v0))|left]. }
      destruct (H2 Hno) as [-> Hb1]. setoid_rewrite elem_of_app. setoid_rewrite list_elem_of_singleton. split.
      + intros v0 [Hin|[= ->]]; [by destruct (Hno v0)|]. exists d. split; [done|]. by eapply built_put.
      + intros Hno'. exfalso. apply (Hno' v). by right.
    - destruct (negb _) eqn:En in Hs; [done|]. apply Hkeep; [exact Ek|by injection Hs as -> ->]. }
  cbn [fst snd] in HP. destruct HP as [H1 H2]. destruct (m !! K) as [v|] eqn:Em.
  - apply H1. rewrite Eit. by apply elem_of_bt_iter.
  - apply H2. intros v. rewrite Eit, elem_of_bt_iter. by rewrite Em.
Qed.

(** ** A storage node after the upgrade *)
Definition chain_columns : list string :=
  [DB_COL_BC_ALL; DB_COL_BC_NAMED; DB_COL_BC_META; DB_COL_BC_JSON] ++ DB_COLS_BC.*1.
Definition extends_on (cols : list string) (db db' : SimpleDb) : Prop :=
  ∀ cf m, cf ∈ cols → content db cf = Some m → content db' cf = Some m.

Lemma get_cf_extends cols db db' cf key v : db_wf db → db_wf db' → extends_on cols db db' → cf ∈ cols →
  get_cf db cf key = Ret v → get_cf db' cf key = Ret v.
Proof.
  intros Hw Hw' Hx Hin. rewrite !get_cf_content by done. destruct (content db cf) as [m|] eqn:E; [|done].
  by rewrite (Hx cf m Hin E).
Qed.

Lemma decode_pointer_column pointer v cf key : decode_version_pointer pointer = Ret (v, cf, key) → cf ∈ DB_COLS_BC.*1.
Proof.
  unfold decode_version_pointer. intros (c & _ & Hd)%obind_ret. apply obind_ret in Hd as ([i [cf' v']] & Hf & Hd).
  apply obind_ret in Hd as (k & _ & [= _ <- _]). apply unwrap_ret, list_find_Some in Hf as (Hl & _).
  apply list_elem_of_lookup_2 in Hl. by apply (list_elem_of_fmap_2 fst _ (cf', v')).
Qed.

Lemma stored_value_extends `{Bincode BlockchainItemMeta} db db' key item :
  db_wf db → db_wf db' → extends_on chain_columns db db' →
  get_stored_value_from_db db key = Ret item → get_stored_value_from_db db' key = Ret item.
Proof.
  intros Hw Hw' Hx. unfold get_stored_value_from_db.
  assert (Hg : ∀ cf k v, cf ∈ chain_columns → get_cf db cf k = Ret v → get_cf db' cf k = Ret v)
    by (intros cf k v; by eapply get_cf_extends).
  assert (Hin : ∀ cf, cf = DB_COL_BC_ALL ∨ cf = DB_COL_BC_NAMED ∨ cf = DB_COL_BC_META ∨ cf = DB_COL_BC_JSON → cf ∈ chain_columns)
    by (intros cf Hcf; unfold chain_columns; cbn [app]; rewrite !elem_of_cons; tauto).
  set (col := if bool_decide _ then _ else _). assert (Hcol : col ∈ chain_columns).
  { apply Hin. unfold col. destruct (bool_decide _); tauto. }
  intros (p & Hp & Hr)%obind_ret. rewrite (Hg _ _ _ Hcol Hp). cbn [obind]. destruct p as [p|]; [|done].
  apply obind_ret in Hr as ([[v cf] k] & Hd & Hr). rewrite Hd. cbn [obind].
  apply decode_pointer_column in Hd. apply obind_ret in Hr as (d & Ed & Hr).
  rewrite (Hg cf k d); [cbn [obind]|unfold chain_columns; by apply elem_of_app; right|done]. destruct d as [d|]; [|done].
  apply obind_ret in Hr as (j & Ej & Hr). rewrite (Hg DB_COL_BC_JSON _ _ (Hin DB_COL_BC_JSON ltac:(tauto)) Ej).
  cbn [obind]. destruct j as [j|]; [|done]. apply obind_ret in Hr as (mm & Em & Hr).
  by rewrite (Hg DB_COL_BC_META _ _ (Hin DB_COL_BC_META ltac:(tauto)) Em).
Qed.

(** The greatest number with a property, if there is one. *)
Definition is_max (P : Z → Prop) (o : option Z) : Prop :=
  match o with Some n => P n ∧ ∀ n', P n' → n' ≤ n | None => ∀ n, ¬ P n end.

Lemma is_max_add P o x : is_max P o → is_max (λ n, P n ∨ n = x) (option_max o (Some x)).
Proof.
  destruct o as [n|]; cbn.
  - intros [Hn Hmax]. split; [destruct (Z.max_spec n x) as [[_ ->]|[_ ->]]; auto|]. intros n' [Hp| ->]; [|lia].
    specialize (Hmax n' Hp). lia.
  - intros Hno. split; [by right|]. intros n' [Hp| ->]; [by destruct (Hno n')|lia].
Qed.
Lemma is_max_ext P Q o : (∀ n, P n ↔ Q n) → is_max P o → is_max Q o.
Proof. intros He. destruct o as [n|]; cbn; [setoid_rewrite He; tauto|intros Hno n Hq; apply (Hno n); by apply He]. Qed.

Section after_upgrade.
Context `{Naom, Rug, Hex, KeccakPrime, NaomReceipts, NaomSigning, NaomCrypto, !NaomAssetValues}.
Context `{Bincode (list string), Bincode (list SocketAddr), Bincode (gset string), Bincode (option Z), Bincode Z, Bincode BlockchainItemMeta}.
Context `{Bincode ComputeConsensused, Bincode StorageConsensused, Bincode (PendingMap * ReadyMap),
  Bincode (string * Transaction), Bincode FundStore, Bincode string, Bincode MasterKeyStore}.
Context `{Bincode old.ComputeConsensused, Bincode old.StorageConsensused, Bincode old.StoredSerializingBlock,
  Bincode old.Transaction, Bincode (old.PendingMap * old.ReadyMap), Bincode (string * old.Transaction),
  Bincode old.MasterKeyStore, Bincode old.FundStore, Bincode old.TransactionStore, Bincode old.AddressStore}.
Context (TX_PREPEND : Z) (NV : list Z) (debug_error : Type → list Z → string).

(** The number of the block stored under a key of the old column. *)
Definition block_number (key value : list Z) : option Z :=
  if is_transaction_key TX_PREPEND key then None
  else if is_block_key key then
    (λ b, old.b_num (old.header (old.block b))) <$> (deserialize value : option old.StoredSerializingBlock)
  else None.

Lemma chain_max s0 it status : last_block_num s0 = None → rfold (chain_step TX_PREPEND debug_error) s0 it = Ret (inr status) →
  is_max (λ n, ∃ k v, (k, v) ∈ it ∧ block_number k v = Some n) (last_block_num status).
Proof.
  intros Hs0. apply (rfold_inv _ (λ it s, is_max (λ n, ∃ k v, (k, v) ∈ it ∧ block_number k v = Some n) (last_block_num s))).
  { rewrite Hs0. intros n (k & v & Hin & _). by apply elem_of_nil in Hin. }
  intros seen [k v] rest s1 s2 _ Hmax Hs.
  assert (Hb : ∀ n, (∃ k' v', (k', v') ∈ seen ++ [(k, v)] ∧ block_number k' v' = Some n) ↔
    (∃ k' v', (k', v') ∈ seen ∧ block_number k' v' = Some n) ∨ block_number k v = Some n).
  { intros n. setoid_rewrite elem_of_app. setoid_rewrite list_elem_of_singleton. split.
    - intros (k' & v' & [Hin|[= -> ->]] & E); [left; eauto|by right].
    - intros [(k' & v' & Hin & E)|E]; [eauto 6|]. exists k, v. auto. }
  unfold chain_step in Hs. unfold tracked_deserialize in Hs. unfold block_number at 3 in Hb.
  destruct (is_transaction_key TX_PREPEND k).
  { apply rbind_inr in Hs as (t & _ & [= <-]). eapply is_max_ext, Hmax. intros n. rewrite Hb. by split; [left|intros [?|[=]]]. }
  destruct (is_block_key k); [|done]. destruct (deserialize v) as [b|]; [|done]. injection Hs as <-. cbn.
  eapply is_max_ext, is_max_add, Hmax. intros n. rewrite Hb. cbn. by split; (intros [?|[=]]; [by left|right; congruence]).
Qed.

Lemma get_upgrade_storage_inr db raft dbs :
  get_upgrade_storage_db NV (ExtraNodeParams_default <| en_db := Some db |> <| en_raft_db := Some raft |>) = Ret (inr dbs) →
  en_db dbs = Some (upgrade_create_missing_cf db DB_COL_BC_NOW) ∧ en_raft_db dbs = Some raft ∧
  (∀ c, c ∈ DB_COL_DEFAULT :: old.storage_DB_SPEC → is_Some (columns db !! c)) ∧ is_Some (columns raft !! DB_COL_DEFAULT).
Proof.
  unfold get_upgrade_storage_db. intros (d & Hd%db_err_inr & Hr)%rbind_inr.
  apply rbind_inr in Hr as (r & Hr%db_err_inr & [= <-]).
  apply new_db_version_old in Hd as (-> & Hc & _). apply new_db_version_old in Hr as (-> & Hcr & _).
  split; [done|]. split; [done|]. split; [done|]. apply Hcr, list_elem_of_here.
Qed.

Lemma filter_none {B : Type} (l : list B) : filter (λ _ : B, false = true) l = [].
Proof. induction l as [|x l IH]; [done|]. rewrite filter_cons, decide_False by done. exact IH. Qed.

(** What the storage upgrade writes. *)
Lemma upgrade_storage_ops db raft cfg dbs dbs' status : db_wf db → db_wf raft →
  en_db dbs = Some db → en_raft_db dbs = Some raft →
  upgrade_storage_db TX_PREPEND NV debug_error dbs cfg = Ret (inr (dbs', status)) →
  ∃ db' raft' mc mr, en_db dbs' = Some db' ∧ en_raft_db dbs' = Some raft' ∧
    content db old.DB_COL_BC_V0_6_0 = Some mc ∧ content raft DB_COL_DEFAULT = Some mr ∧
    (db_wf db' ∧ columns db' = columns db ∧ ∀ cf, content db' cf = foldl apply_op (content db)
      [(DB_COL_DEFAULT, string_codes DB_VERSION_KEY, Some NV); (DB_COL_INTERNAL, string_codes RAFT_KEY_RUN, Some key_run)] cf) ∧
    is_max (λ n, ∃ k v, mc !! k = Some v ∧ block_number k v = Some n) (last_block_num status) ∧
    ∃ s0, last_block_num s0 = last_block_num status ∧
    (db_wf raft' ∧ columns raft' = columns raft ∧
      match mr !! string_codes SNAPSHOT_DATA_KEY with
      | None => s0 = status ∧ ∀ cf, content raft' cf =
          foldl apply_op (content raft) [(DB_COL_DEFAULT, string_codes DB_VERSION_KEY, Some NV)] cf
      | Some v => ∃ d, convert_storage debug_error cfg s0 (string_codes SNAPSHOT_DATA_KEY) v = Ret (inr (status, d)) ∧
          ∀ cf, content raft' cf = foldl apply_op (content raft)
            [(DB_COL_DEFAULT, string_codes DB_VERSION_KEY, Some NV);
             (DB_COL_DEFAULT, string_codes SNAPSHOT_DATA_KEY, Some d)] cf
      end).
Proof.
  intros Hw Hwr Ed Er. unfold upgrade_storage_db, upgrade_storage_db_batch. rewrite Ed, Er. cbn [unwrap obind fst snd].
  intros ([[b rb] st] & Hb & Hrest)%rbind_inr.
  apply obind_ret in Hb as (b1 & Hb1 & Hb). apply obind_ret in Hb as (rb1 & Hrb1 & Hb).
  apply obind_ret in Hb as (b2 & Hb2 & Hb). apply obind_ret in Hb as (it & Hit & Hb).
  apply rbind_inr in Hb as (b3 & Hb3 & Hb). apply obind_ret in Hb as (itc & Hitc & Hb).
  apply rbind_inr in Hb as (s0 & Hs0 & Hb). apply rbind_inr in Hb as ([s1 rb2] & Hrb2 & [= <- <- <-]).
  apply obind_ret in Hrest as (db' & Hdb' & Hrest). apply obind_ret in Hrest as (raft' & Hraft' & [= <- <-]).
  pose proof (built_put _ _ _ _ _ _ _ (built_nil db) Hb1) as B1. pose proof (built_put _ _ _ _ _ _ _ B1 Hb2) as B2.
  pose proof (internal_built _ _ _ _ _ _ _ _ B2 Hb3) as B3. cbn [existsb] in B3. rewrite filter_none, app_nil_r in B3.
  pose proof (built_put _ _ _ _ _ _ _ (built_nil raft) Hrb1) as R1.
  destruct (clean_raft_built _ _ _ _ _ _ _ Hwr R1 Hrb2) as (mr & Hmr & HR).
  destruct (iter_content _ _ _ Hw Hitc) as (mc & Hmc & Eitc).
  exists db', raft', mc, mr. split; [done|]. split; [done|]. split; [done|]. split; [done|].
  split; [exact (built_write _ _ _ _ Hw B3 Hdb')|]. split.
  { assert (E : last_block_num s1 = last_block_num s0).
    { destruct (mr !! _) as [v|]; [|by destruct HR as [-> _]]. destruct HR as (d & Hc & _).
      unfold convert_storage in Hc. apply rbind_inr in Hc as (o & _ & Hc). apply obind_ret in Hc as (i & _ & [= <- _]). done. }
    rewrite E. eapply is_max_ext, (chain_max UpgradeStatus_default itc s0 eq_refl Hs0).
    intros n. rewrite Eitc. setoid_rewrite elem_of_bt_iter. done. }
  exists s0. destruct (mr !! _) as [v|].
  - destruct HR as (d & Hc & R2). destruct (built_write _ _ _ _ Hwr R2 Hraft') as (? & ? & Hx).
    split; [|split_and!; [done..|]; by exists d].
    unfold convert_storage in Hc. apply rbind_inr in Hc as (o & _ & Hc). apply obind_ret in Hc as (i & _ & [= <- _]). done.
  - destruct HR as [-> R2]. destruct (built_write _ _ _ _ Hwr R2 Hraft') as (? & ? & Hx). done.
Qed.

(** The columns of this version are those of the last one and a new one. *)
Lemma spec_columns c : c ∈ DB_COL_DEFAULT :: DB_SPEC_columns → c = DB_COL_BC_NOW ∨ c ∈ DB_COL_DEFAULT :: old.storage_DB_SPEC.
Proof. revert c. apply Forall_forall. apply (bool_decide_unpack _). by vm_compute. Qed.

Lemma not_chain : DB_COL_DEFAULT ∉ chain_columns ∧ DB_COL_INTERNAL ∉ chain_columns.
Proof. apply (bool_decide_unpack _). by vm_compute. Qed.

(** C28: the upgrade of a storage node keeps the block chain: its databases open
    as those of this version, whatever could be read under a key of the chain
    reads the same, the number of the last contiguous block is kept, and the
    number reported is the greatest of the blocks of the last version. *)
Theorem storage_upgrade_keeps_chain db raft cfg dbs dbs' status : db_wf db → db_wf raft →
  get_upgrade_storage_db NV (ExtraNodeParams_default <| en_db := Some db |> <| en_raft_db := Some raft |>) = Ret (inr dbs) →
  upgrade_storage_db TX_PREPEND NV debug_error dbs cfg = Ret (inr (dbs', status)) →
  ∃ db' raft' mc, en_db dbs' = Some db' ∧ en_raft_db dbs' = Some raft' ∧
    new_db NV DB_SPEC_columns (Some db') = Ret db' ∧ new_db NV [] (Some raft') = Ret raft' ∧
    (∀ key item, get_stored_value_from_db db key = Ret item → get_stored_value_from_db db' key = Ret item) ∧
    get_cf db' DB_COL_INTERNAL (string_codes LAST_CONTIGUOUS_BLOCK_KEY) =
      get_cf db DB_COL_INTERNAL (string_codes LAST_CONTIGUOUS_BLOCK_KEY) ∧
    content db old.DB_COL_BC_V0_6_0 = Some mc ∧
    is_max (λ n, ∃ k v, mc !! k = Some v ∧ block_number k v = Some n) (last_block_num status).
Proof.
  intros Hw Hwr (Ed & Er & Hcols & Hcr)%get_upgrade_storage_inr Hup.
  destruct (create_missing_spec db DB_COL_BC_NOW Hw) as (Hw1 & Hnow & Hmore & Hsame). cbn zeta in *.
  destruct (upgrade_storage_ops _ _ _ _ _ _ Hw1 Hwr Ed Er Hup)
    as (db' & raft' & mc & mr & Ed' & Er' & Hmc & Hmr & (Hw' & Hc' & Hx') & Hmax & s0 & _ & Hwr' & Hcr' & HR).
  assert (Hold : ∀ c, c ∈ DB_COL_DEFAULT :: old.storage_DB_SPEC → ∃ m, content db c = Some m).
  { intros c Hc. destruct (Hcols c Hc) as [i Hi]. destruct Hw as [Hlt _]. unfold content. rewrite Hi. cbn.
    apply lookup_lt_is_Some, (Hlt c i Hi). }
  assert (Hkeep : ∀ cf m, cf ≠ DB_COL_DEFAULT → cf ≠ DB_COL_INTERNAL → content db cf = Some m → content db' cf = Some m).
  { intros cf m Hn1 Hn2 Hm. rewrite Hx', apply_ops_other; [by apply Hsame|].
    intros o [->|[->|?%elem_of_nil]%elem_of_cons]%elem_of_cons; cbn; congruence. }
  assert (Hint : ∃ mi, content db DB_COL_INTERNAL = Some mi ∧ content db' DB_COL_INTERNAL = Some (<[string_codes RAFT_KEY_RUN := key_run]> mi)).
  { destruct (Hold DB_COL_INTERNAL) as [mi Hmi]; [unfold old.storage_DB_SPEC; rewrite !elem_of_cons; tauto|]. exists mi. split; [done|].
    rewrite Hx'. cbn [foldl]. unfold apply_op at 1. cbn [fst snd]. rewrite decide_True by done.
    unfold apply_op. cbn [fst snd]. rewrite decide_False by done. by rewrite (Hsame _ _ Hmi). }
  assert (Hver : ∃ md, content db' DB_COL_DEFAULT = Some (<[string_codes DB_VERSION_KEY := NV]> md)).
  { destruct (Hold DB_COL_DEFAULT) as [md Hmd]; [apply list_elem_of_here|]. exists md.
    rewrite Hx'. cbn [foldl]. unfold apply_op. cbn [fst snd]. rewrite decide_False, decide_True by done. by rewrite (Hsame _ _ Hmd). }
  assert (Hmc0 : content db old.DB_COL_BC_V0_6_0 = Some mc).
  { destruct (Hold old.DB_COL_BC_V0_6_0) as [m Hm]; [unfold old.storage_DB_SPEC; rewrite !elem_of_cons; tauto|].
    rewrite (Hsame _ _ Hm) in Hmc. congruence. }
  exists db', raft', mc. split; [done|]. split; [done|]. split_and!; [| | | |done|done].
  - apply new_db_opens.
    + intros c Hc. rewrite Hc'. destruct (spec_columns c Hc) as [->|Hold']; [done|]. by apply Hmore, Hcols.
    + destruct Hver as [md Hmd]. rewrite get_cf_content, Hmd by done. by rewrite lookup_insert_eq.
  - apply new_db_opens.
    + intros c [->|?%elem_of_nil]%elem_of_cons; [|done]. by rewrite Hcr'.
    + rewrite get_cf_content by done. destruct (mr !! _) as [v|].
      * destruct HR as (d & _ & Hx). rewrite Hx, (put_two _ _ _ _ _ _ _ Hmr).
        by rewrite lookup_insert_ne, lookup_insert_eq.
      * destruct HR as [_ Hx]. rewrite Hx, (put_one _ _ _ _ _ Hmr). by rewrite lookup_insert_eq.
  - intros key item. apply stored_value_extends; [done..|]. intros cf m Hin. destruct not_chain. apply Hkeep; by intros ->.
  - destruct Hint as (mi & Hmi & Hmi'). rewrite !get_cf_content, Hmi, Hmi' by done. by rewrite lookup_insert_ne.
Qed.
End after_upgrade.

(** ** A compute node after the upgrade *)
Lemma entry_key_ne_version i : entry_key i ≠ string_codes DB_VERSION_KEY.
Proof. intros E%(inj string_codes). unfold format_entry_key in E. cbn in E. discriminate. Qed.

(** The keys of a log. *)
Definition log_key (k : list Z) : Prop :=
  k = string_codes SNAPSHOT_META_KEY ∨ k = string_codes LAST_ENTRY_KEY ∨ k = string_codes HARDSTATE_KEY ∨
  ∃ i, k = entry_key i.
Lemma log_key_ne k : log_key k → k ≠ string_codes SNAPSHOT_DATA_KEY ∧ k ≠ string_codes DB_VERSION_KEY.
Proof.
  intros [->|[->|[->|[i ->]]]]; [by split..|]. destruct (entry_key_ne i) as (_ & H2 & _). split; [done|apply entry_key_ne_version].
Qed.

Section log_upgrade.
Context `{RaftCrate, !RaftCrateLaws, Bincode SnapMetadata, !BincodeLaws SnapMetadata, Bincode Z, !BincodeLaws Z}.

(** Only the data of the snapshot changed. *)
Lemma content_log_data m m' l idx term data d : content_log m l → rl_base l = Some (data, idx, term) →
  m' !! string_codes SNAPSHOT_DATA_KEY = Some d → (∀ k, log_key k → m' !! k = m !! k) →
  content_log m' (l <| rl_base := Some (d, idx, term) |>).
Proof.
  intros [C1 C2 C3 C4 C5] Hb Hd Hk. unfold log_key in Hk. rewrite Hb in C2. split; cbn [rl_base setter].
  - exact Hd.
  - rewrite Hk by auto. exact C2.
  - rewrite Hk by auto. unfold last_log_index, base_index in *. rewrite Hb in C3. exact C3.
  - intros e He. rewrite Hk by eauto. by apply C4.
  - rewrite Hk by auto 6. exact C5.
Qed.

Lemma log_wf_data l idx term data d : log_wf l → rl_base l = Some (data, idx, term) → log_wf (l <| rl_base := Some (d, idx, term) |>).
Proof.
  intros [W1 W2 W3] Hb. unfold last_log_index, base_index in *. rewrite Hb in W1, W2, W3. split; unfold last_log_index, base_index; cbn; [done|exact W2|exact W3].
Qed.

Lemma upgraded_log st l idx term data d raft' NV init_cs : store_run st l → rl_base l = Some (data, idx, term) →
  db_wf raft' → (∀ cf, content raft' cf = foldl apply_op (content (presistent st))
    [(DB_COL_DEFAULT, string_codes DB_VERSION_KEY, Some NV); (DB_COL_DEFAULT, string_codes SNAPSHOT_DATA_KEY, Some d)] cf) →
  load_in_memory_or_default (RaftStore_new raft') init_cs = Ret (restore raft' init_cs (l <| rl_base := Some (d, idx, term) |>)).
Proof.
  intros (Hlwf & _ & m & [_ Hm] & Hc)%run_represents Hb Hw Hx.
  apply (load_represents raft' (<[string_codes SNAPSHOT_DATA_KEY := d]> (<[string_codes DB_VERSION_KEY := NV]> m))).
  - split; [done|]. rewrite Hx. by apply put_two.
  - by eapply log_wf_data.
  - eapply content_log_data; [exact Hc|exact Hb|apply lookup_insert_eq|].
    intros k [Hk1 Hk2]%log_key_ne. by rewrite !lookup_insert_ne.
Qed.
End log_upgrade.

Lemma deletes_built db ops b cf (it : list (list Z * list Z)) b' : built db ops b →
  ofold (λ b kv, batch_delete_cf b cf kv.1) b it = Ret b' →
  built db (ops ++ ((λ kv, (cf, kv.1, None)) <$> it)) b'.
Proof.
  revert ops b; induction it as [|kv it IH]; intros ops b Hb; cbn [ofold fmap list_fmap].
  - intros [= <-]. by rewrite app_nil_r.
  - intros (b1 & Hd & Hr)%obind_ret. rewrite cons_middle, (assoc_L (++)). eapply IH; [|exact Hr]. by eapply built_delete.
Qed.

Lemma deleted_all (m : gmap (list Z) (list Z)) :
  foldl kv_op m (map (λ kv : list Z * list Z, (kv.1, None)) (bt_iter m)) = ∅.
Proof.
  apply map_eq. intros k. rewrite lookup_empty. set (l := map _ _).
  assert (El : l.*1 = bt_keys m) by (unfold l, bt_keys; clear; induction (bt_iter m) as [|kv r IH]; [done|]; cbn; by rewrite IH).
  destruct (decide (k ∈ l.*1)) as [Hin|Hn].
  - destruct (kv_ops_in m l k Hin) as (v & Hv & ->). unfold l in Hv. apply list_elem_of_In, in_map_iff in Hv as (kv & [= _ <-] & _). done.
  - rewrite kv_ops_other by done. rewrite El, elem_of_bt_keys in Hn. by apply eq_None_not_Some.
Qed.

(** The consensus of this version that stands for one of the last version. *)
Record upgraded (cfg : UpgradeCfg) (o : old.ComputeConsensused) (c : ComputeConsensused) : Prop := {
  up_utxo : base (utxo_set c) = map_converted convert_txout (old.utxo_set o);
  up_cache : cache_exact (utxo_set c);
  up_circulation : current_circulation c = old.token (old.current_circulation o);
  up_b_num : BlockPipeline.current_block_num (block_pipeline c) = old.current_block_num (old.block_pipeline o);
  up_no_block : BlockPipeline.current_block (block_pipeline c) = None;
  up_committed : ComputeConsensused.last_committed_raft_idx_and_term c = old.cc_last_committed_raft_idx_and_term o;
  up_special : special_handling c = Some FirstUpgradeBlock;
  up_majority : cc_unanimous_majority c = raft_len cfg ∧ cc_sufficient_majority c = raft_len cfg / 2 + 1;
  up_pools : tx_pool c = ∅ ∧ tx_druid_pool c = [];
}.

Section compute_upgrade.
Context `{Naom, Rug, Hex, KeccakPrime}.
Context `{Bincode (list string), Bincode (list SocketAddr), Bincode (gset string), Bincode (option Z)}.
Context `{RaftCrate, !RaftCrateLaws, Bincode SnapMetadata, !BincodeLaws SnapMetadata, Bincode Z, !BincodeLaws Z}.
Context `{Bincode ComputeConsensused, Bincode old.ComputeConsensused}.
Context (NV : list Z) (debug_error : Type → list Z → string).

Lemma init_status_none c : BlockPipeline.current_block (block_pipeline c) = None → cc_init_block_pipeline_status c = Ret c.
Proof. unfold cc_init_block_pipeline_status, init_block_pipeline_status. intros ->. by destruct c. Qed.

Lemma convert_compute_spec cfg st k v st' d : convert_compute debug_error cfg st k v = Ret (inr (st', d)) →
  ∃ o c, deserialize v = Some o ∧ d = serialize c ∧ upgraded cfg o c ∧
    st' = st <| last_raft_block_num := old.current_block_num (old.block_pipeline o) |>.
Proof.
  unfold convert_compute. intros (o & Ho & Hr)%rbind_inr. unfold tracked_deserialize in Ho.
  destruct (deserialize v) as [o'|] eqn:Ed; [|done]. injection Ho as ->. cbv zeta in Hr.
  rewrite init_status_none in Hr by reflexivity. injection Hr as <- <-. eexists o, _.
  split; [reflexivity|]. split; [reflexivity|]. split; [|reflexivity].
  split; [apply convert_utxoset_kmap|apply create_pk_cache_exact|reflexivity..| |]; split; reflexivity.
Qed.

(** The operations on the database of the node: the version, the run, and what
    is deleted of the two columns. *)
Definition compute_ops (it itl : list (list Z * list Z)) : list op :=
  ((([] ++ [(DB_COL_DEFAULT, string_codes DB_VERSION_KEY, Some NV)]) ++
    [(Compute.DB_COL_INTERNAL, string_codes Compute.RAFT_KEY_RUN, Some key_run)]) ++
   ((λ kv, (Compute.DB_COL_INTERNAL, kv.1, None)) <$>
     filter (λ kv : list Z * list Z, existsb (is_key kv.1) [old.REQUEST_LIST_KEY; old.USER_NOTIFY_LIST_KEY] = true) it)) ++
  ((λ kv, (DB_COL_LOCAL_TXS, kv.1, None)) <$> itl).

Lemma upgrade_compute_ops db raft cfg dbs dbs' status : db_wf db → db_wf raft →
  en_db dbs = Some db → en_raft_db dbs = Some raft → upgrade_compute_db NV debug_error dbs cfg = Ret (inr (dbs', status)) →
  ∃ db' raft' it ml mr, en_db dbs' = Some db' ∧ en_raft_db dbs' = Some raft' ∧
    content db DB_COL_LOCAL_TXS = Some ml ∧ content raft DB_COL_DEFAULT = Some mr ∧
    (db_wf db' ∧ columns db' = columns db ∧ ∀ cf, content db' cf = foldl apply_op (content db) (compute_ops it (bt_iter ml)) cf) ∧
    (db_wf raft' ∧ columns raft' = columns raft ∧
      ∀ v, mr !! string_codes SNAPSHOT_DATA_KEY = Some v →
        ∃ d, convert_compute debug_error cfg UpgradeStatus_default (string_codes SNAPSHOT_DATA_KEY) v = Ret (inr (status, d)) ∧
          ∀ cf, content raft' cf = foldl apply_op (content raft)
            [(DB_COL_DEFAULT, string_codes DB_VERSION_KEY, Some NV);
             (DB_COL_DEFAULT, string_codes SNAPSHOT_DATA_KEY, Some d)] cf).
Proof.
  intros Hw Hwr Ed Er. unfold upgrade_compute_db, upgrade_compute_db_batch. rewrite Ed, Er. cbn [unwrap obind fst snd].
  intros ([[b rb] s1] & Hbat & Hup)%rbind_inr.
  apply obind_ret in Hbat as (b1 & Hb1 & Hbat). apply obind_ret in Hbat as (rb1 & Hrb1 & Hbat).
  apply obind_ret in Hbat as (b2 & Hb2 & Hbat). apply obind_ret in Hbat as (it & Hit & Hbat).
  apply rbind_inr in Hbat as (b3 & Hb3 & Hbat). apply obind_ret in Hbat as (itl & Hitl & Hbat).
  apply obind_ret in Hbat as (b4 & Hb4 & Hbat). apply rbind_inr in Hbat as ([s2 rb2] & Hrb2 & [= <- <- <-]).
  apply obind_ret in Hup as (db' & Hdb' & Hup). apply obind_ret in Hup as (raft' & Hraft' & [= <- <-]).
  pose proof (built_put _ _ _ _ _ _ _ (built_nil db) Hb1) as B1. pose proof (built_put _ _ _ _ _ _ _ B1 Hb2) as B2.
  pose proof (internal_built _ _ _ _ _ _ _ _ B2 Hb3) as B3. pose proof (deletes_built _ _ _ _ _ _ B3 Hb4) as B4.
  pose proof (built_put _ _ _ _ _ _ _ (built_nil raft) Hrb1) as R1.
  destruct (clean_raft_built _ _ _ _ _ _ _ Hwr R1 Hrb2) as (mr & Hmr & HR).
  destruct (iter_content _ _ _ Hw Hitl) as (ml & Hml & ->).
  exists db', raft', it, ml, mr. split_and!; try done.
  - by destruct (built_write _ _ _ _ Hw B4 Hdb').
  - by destruct (built_write _ _ _ _ Hw B4 Hdb') as (_ & ? & _).
  - by destruct (built_write _ _ _ _ Hw B4 Hdb') as (_ & _ & ?).
  - destruct (mr !! _) as [v|].
    + destruct HR as (d & Hc & R2). by destruct (built_write _ _ _ _ Hwr R2 Hraft').
    + destruct HR as [_ R2]. by destruct (built_write _ _ _ _ Hwr R2 Hraft').
  - destruct (mr !! _) as [v|].
    + destruct HR as (d & Hc & R2). by destruct (built_write _ _ _ _ Hwr R2 Hraft') as (_ & ? & _).
    + destruct HR as [_ R2]. by destruct (built_write _ _ _ _ Hwr R2 Hraft') as (_ & ? & _).
  - intros v Ev. rewrite Ev in HR. destruct HR as (d & Hc & R2). exists d. split; [exact Hc|].
    by destruct (built_write _ _ _ _ Hwr R2 Hraft') as (_ & _ & ?).
Qed.

Lemma compute_ops_spec it itl cf k a : (cf, k, a) ∈ compute_ops it itl →
  (cf = DB_COL_DEFAULT → k = string_codes DB_VERSION_KEY → a = Some NV) ∧
  (cf = Compute.DB_COL_INTERNAL → k = string_codes Compute.RAFT_KEY_RUN → a = Some key_run).
Proof.
  unfold compute_ops. rewrite !elem_of_app, !list_elem_of_singleton, !list_elem_of_fmap.
  intros [[[[?%elem_of_nil|[= -> -> ->]]|[= -> -> ->]]|([k' v'] & [= -> -> ->] & Hin)]|([k' v'] & [= -> -> ->] & _)]; [done|by split..| |by split].
  split; [done|]. intros _ E. apply list_elem_of_filter in Hin as [Hin _]. cbn [fst] in Hin, E. by subst k'.
Qed.

(** What is then read. *)
Lemma compute_ops_read it ml c md mi : c DB_COL_DEFAULT = Some md → c Compute.DB_COL_INTERNAL = Some mi →
  c DB_COL_LOCAL_TXS = Some ml → let c' := foldl apply_op c (compute_ops it (bt_iter ml)) in
  (∃ m, c' DB_COL_DEFAULT = Some m ∧ m !! string_codes DB_VERSION_KEY = Some NV) ∧
  (∃ m, c' Compute.DB_COL_INTERNAL = Some m ∧ m !! string_codes Compute.RAFT_KEY_RUN = Some key_run) ∧
  c' DB_COL_LOCAL_TXS = Some ∅.
Proof.
  intros Hmd Hmi Hml. cbn zeta. split; [|split].
  - apply (apply_ops_lookup _ c DB_COL_DEFAULT _ NV md Hmd).
    + unfold compute_ops. rewrite !elem_of_app, !list_elem_of_singleton. auto 6.
    + intros a Ha. by apply (proj1 (compute_ops_spec _ _ _ _ _ Ha)).
  - apply (apply_ops_lookup _ c Compute.DB_COL_INTERNAL _ key_run mi Hmi).
    + unfold compute_ops. rewrite !elem_of_app, !list_elem_of_singleton. auto 6.
    + intros a Ha. by apply (proj2 (compute_ops_spec _ _ _ _ _ Ha)).
  - unfold compute_ops. rewrite foldl_app. change (λ kv : list Z * list Z, (DB_COL_LOCAL_TXS, kv.1, None)) with
      ((λ o : list Z * option (list Z), (DB_COL_LOCAL_TXS, o.1, o.2)) ∘ (λ kv : list Z * list Z, (kv.1, None))).
    rewrite list_fmap_compose. etrans; [apply (apply_op_column DB_COL_LOCAL_TXS _ _ ml)|f_equal; apply deleted_all].
    rewrite apply_ops_other; [done|]. intros x. rewrite !elem_of_app, !list_elem_of_singleton, list_elem_of_fmap.
    intros [[[?%elem_of_nil| ->]| ->]|(kv & -> & _)]; done.
Qed.

(** C27: the upgrade of a compute node keeps its state: its databases open as
    those of this version, and its raft store starts with the log it had, with a
    snapshot that holds the unspent outputs, the circulation and the block number
    of the last version and no block to mine; the transactions received from
    users are forgotten, and the counter of its runs starts over. *)
Theorem compute_upgrade_keeps_state st l data idx term o db cfg dbs dbs' status : store_run st l →
  rl_base l = Some (data, idx, term) → deserialize data = Some o → db_wf db →
  get_upgrade_compute_db NV (ExtraNodeParams_default <| en_db := Some db |> <| en_raft_db := Some (presistent st) |>) = Ret (inr dbs) →
  upgrade_compute_db NV debug_error dbs cfg = Ret (inr (dbs', status)) →
  ∃ db' raft' c, en_db dbs' = Some db' ∧ en_raft_db dbs' = Some raft' ∧
    new_db NV [Compute.DB_COL_INTERNAL; DB_COL_LOCAL_TXS] (Some db') = Ret db' ∧ new_db NV [] (Some raft') = Ret raft' ∧
    (∀ init_cs, load_in_memory_or_default (RaftStore_new raft') init_cs =
      Ret (restore raft' init_cs (l <| rl_base := Some (serialize c, idx, term) |>))) ∧
    upgraded cfg o c ∧ last_raft_block_num status = BlockPipeline.current_block_num (block_pipeline c) ∧
    content db' DB_COL_LOCAL_TXS = Some ∅ ∧
    get_cf db' Compute.DB_COL_INTERNAL (string_codes Compute.RAFT_KEY_RUN) = Ret (Some key_run).
Proof.
  intros Hst Hb Ho Hw Hget Hup. pose proof (run_represents _ _ Hst) as (_ & _ & mr & [Hwr Hmr] & Hcl).
  assert (Hdata : mr !! string_codes SNAPSHOT_DATA_KEY = Some data) by (by rewrite (cl_data _ _ Hcl), Hb).
  unfold get_upgrade_compute_db in Hget. apply rbind_inr in Hget as (d & Hd%db_err_inr & Hget).
  apply rbind_inr in Hget as (r & Hr%db_err_inr & [= <-]).
  apply new_db_version_old in Hd as (-> & Hcols & _). apply new_db_version_old in Hr as (-> & Hcr & _).
  set (dbs := _ <| en_raft_db := _ |>) in Hup.
  destruct (upgrade_compute_ops db (presistent st) cfg dbs dbs' status Hw Hwr eq_refl eq_refl Hup) as (db' & raft' & it & ml & mr' & Ed' & Er' & Hml & Hmr' &
    (Hw' & Hc' & Hx) & Hwr' & Hcr' & HR).
  assert (mr' = mr) as -> by congruence. destruct (HR _ Hdata) as (d & Hconv & Hxr).
  destruct (convert_compute_spec _ _ _ _ _ _ Hconv) as (o' & c & Ho' & -> & Hupg & ->). assert (o' = o) as -> by congruence.
  assert (Hopen : ∀ cf, cf ∈ DB_COL_DEFAULT :: old.compute_DB_SPEC → ∃ m, content db cf = Some m).
  { intros cf Hcf. destruct (Hcols cf Hcf) as [i Hi]. destruct Hw as [Hlt _]. unfold content. rewrite Hi. cbn.
    apply lookup_lt_is_Some, (Hlt cf i Hi). }
  destruct (Hopen DB_COL_DEFAULT) as [md Hmd]; [left|]. destruct (Hopen Compute.DB_COL_INTERNAL) as [mi Hmi]; [right; left|].
  destruct (compute_ops_read it ml _ _ _ Hmd Hmi Hml) as ((m1 & Em1 & Hv) & (m2 & Em2 & Hrun) & Hloc).
  exists db', raft', c. split; [done|]. split; [done|]. split_and!.
  - apply new_db_opens; [intros cf Hcf; rewrite Hc'; by apply Hcols|]. by rewrite get_cf_content, Hx, Em1, Hv.
  - apply new_db_opens; [intros cf Hcf; rewrite Hcr'; by apply Hcr|]. rewrite get_cf_content, Hxr by done.
    rewrite (put_two _ _ _ _ _ _ _ Hmr). by rewrite lookup_insert_ne, lookup_insert_eq.
  - intros cs. exact (upgraded_log st l idx term data _ raft' NV cs Hst Hb Hwr' Hxr).
  - done.
  - exact (eq_sym (up_b_num _ _ _ Hupg)).
  - by rewrite Hx.
  - by rewrite get_cf_content, Hx, Em2, Hrun.
Qed.
End compute_upgrade.

(** ** A wallet after the upgrade *)
Section wallet_upgrade.
Context `{NaomAssetValues, NaomReceipts, NaomSigning, NaomCrypto}.
Context `{Bincode (PendingMap * ReadyMap), Bincode (string * Transaction), Bincode FundStore, !BincodeLaws FundStore,
  Bincode string, Bincode (list string), Bincode MasterKeyStore}.
Context `{Bincode old.Transaction, Bincode (old.PendingMap * old.ReadyMap), Bincode (string * old.Transaction),
  Bincode old.MasterKeyStore, Bincode old.FundStore, Bincode old.TransactionStore, Bincode old.AddressStore}.
Context (NV : list Z) (debug_error : Type → list Z → string).

(** The new value of a key, for the keys that are rewritten. *)
Definition converted_value (k v : list Z) : option (list Z) :=
  if is_key k DB_VERSION_KEY then None
  else if is_key k TX_GENERATOR_KEY then
    o ← deserialize v; match convert_transaction_gen o with Ret g => Some (serialize g) | Panic => None end
  else if is_key k LAST_COINBASE_KEY then
    o ← deserialize v; match convert_last_coinbase o with Ret c => Some (serialize c) | Panic => None end
  else if is_key k FUND_KEY then (λ o, serialize (convert_fund_store o)) <$> deserialize v
  else None.
Definition rewritten (k : list Z) : Prop :=
  k = string_codes TX_GENERATOR_KEY ∨ k = string_codes LAST_COINBASE_KEY ∨ k = string_codes FUND_KEY.
Definition value_op (kv : list Z * list Z) : option (list Z * option (list Z)) :=
  (λ d, (kv.1, Some d)) <$> converted_value kv.1 kv.2.

Lemma wallet_step_spec mk b k v b' : wallet_step debug_error mk b (k, v) = Ret (inr b') →
  (rewritten k → is_Some (converted_value k v)) ∧
  match converted_value k v with
  | Some d => batch_put_cf b DB_COL_DEFAULT k d = Ret b'
  | None => b' = b
  end.
Proof.
  unfold wallet_step, converted_value, rewritten, tracked_deserialize.
  destruct (is_key k DB_VERSION_KEY) eqn:E0.
  { apply is_key_true in E0 as ->. intros [= <-]. split; [|done]. intros [|[|]]; done. }
  destruct (is_key k old.TX_GENERATOR_KEY) eqn:E1; change old.TX_GENERATOR_KEY with TX_GENERATOR_KEY in E1.
  { rewrite E1. apply is_key_true in E1 as ->. destruct (deserialize v) as [o|]; [|done]. cbn [rbind obind mbind option_bind].
    intros (g & -> & Hp%lift_inr)%obind_ret. by split. }
  destruct (is_key k old.LAST_COINBASE_KEY) eqn:E2; change old.LAST_COINBASE_KEY with LAST_COINBASE_KEY in E2.
  { rewrite E1, E2. apply is_key_true in E2 as ->. destruct (deserialize v) as [o|]; [|done]. cbn [rbind obind mbind option_bind].
    intros (g & -> & Hp%lift_inr)%obind_ret. by split. }
  rewrite E1, E2. assert (Hrest : is_key k FUND_KEY = false → ∀ m : outcome (UpgradeError + WriteBatch),
    (∀ b2, m = Ret (inr b2) → b2 = b) → m = Ret (inr b') →
    (k = string_codes TX_GENERATOR_KEY ∨ k = string_codes LAST_COINBASE_KEY ∨ k = string_codes FUND_KEY →
      is_Some (if is_key k FUND_KEY then (λ o, serialize (convert_fund_store o)) <$> deserialize v else None)) ∧
    match (if is_key k FUND_KEY then (λ o, serialize (convert_fund_store o)) <$> deserialize v else None) with
    | Some d => batch_put_cf b DB_COL_DEFAULT k d = Ret b' | None => b' = b end).
  { intros Ef m Hm Hr. rewrite Ef. split; [|by apply Hm]. intros Hk.
    destruct Hk as [->|[->| ->]]; unfold is_key in *; by rewrite bool_decide_true in *. }
  destruct (is_key k old.MINING_ADDRESS_KEY) eqn:E3.
  { apply Hrest; [by apply is_key_true in E3 as ->|]. by intros b2 (x & _ & [= ->])%rbind_inr. }
  destruct (is_key k old.MASTER_KEY_STORE_KEY) eqn:E4.
  { apply Hrest; [by apply is_key_true in E4 as ->|]. by intros b2 (x & _ & [= ->])%rbind_inr. }
  destruct (is_key k old.FUND_KEY) eqn:E5; change old.FUND_KEY with FUND_KEY in E5.
  { clear Hrest. rewrite E5. apply is_key_true in E5 as ->. destruct (deserialize v) as [o|]; [|done]. cbn [rbind obind].
    intros Hp%lift_inr. by split. }
  apply Hrest; [done|]. intros b2.
  destruct (is_key k old.KNOWN_ADDRESS_KEY); [by intros (x & _ & [= ->])%rbind_inr|].
  destruct (is_wallet_transaction_store_key k); [by intros (x & _ & [= ->])%rbind_inr|].
  destruct (is_wallet_address_store_key k); [|done].
  by intros (x & _ & (y & _ & [= ->])%rbind_inr)%obind_ret.
Qed.

Lemma wallet_built mk db ops b it b' : built db ops b → rfold (wallet_step debug_error mk) b it = Ret (inr b') →
  built db (ops ++ ((λ o : list Z * option (list Z), (DB_COL_DEFAULT, o.1, o.2)) <$> omap value_op it)) b' ∧
  ∀ k v, (k, v) ∈ it → rewritten k → is_Some (converted_value k v).
Proof.
  intros Hb. apply (rfold_inv _ (λ it b', built db (ops ++ ((λ o : list Z * option (list Z), (DB_COL_DEFAULT, o.1, o.2)) <$>
    omap value_op it)) b' ∧ ∀ k v, (k, v) ∈ it → rewritten k → is_Some (converted_value k v))).
  { split; [by rewrite app_nil_r|by intros k v ?%elem_of_nil]. }
  intros seen [k v] rest b1 b2 _ [G1 G2] [Hk Hs]%wallet_step_spec. split.
  - rewrite omap_app, fmap_app, (assoc_L (++)). cbn. unfold value_op at 2. cbn. destruct (converted_value k v) as [d|].
    + exact (built_put _ _ _ _ _ _ _ G1 Hs).
    + subst b2. cbn. by rewrite app_nil_r.
  - intros k' v' [Hin|Hin]%elem_of_app; [by apply G2|]. apply list_elem_of_singleton in Hin as [= -> ->]. exact Hk.
Qed.

Lemma converted_lookup m m0 k : foldl kv_op m0 (omap value_op (bt_iter m)) !! k =
  match m !! k ≫= converted_value k with Some d => Some d | None => m0 !! k end.
Proof.
  set (l := omap value_op (bt_iter m)).
  assert (Hl : ∀ k a, (k, a) ∈ l ↔ ∃ v d, m !! k = Some v ∧ converted_value k v = Some d ∧ a = Some d).
  { intros k' a. unfold l. rewrite list_elem_of_omap. unfold value_op. split.
    - intros ([k2 v] & Hin%elem_of_bt_iter & (d & Hd & [= -> ->])%fmap_Some). eauto.
    - intros (v & d & Hin%elem_of_bt_iter & Hd & ->). exists (k', v). split; [done|]. cbn. by rewrite Hd. }
  destruct (decide (k ∈ l.*1)) as [Hin|Hn].
  - destruct (kv_ops_in m0 l k Hin) as (a & Ha & ->). apply Hl in Ha as (v & d & -> & Hd & ->). cbn. by rewrite Hd.
  - rewrite kv_ops_other by done. destruct (m !! k) as [v|] eqn:E; [|done]. cbn. destruct (converted_value k v) as [d|] eqn:Ed; [|done].
    exfalso. apply Hn, list_elem_of_fmap. exists (k, Some d). split; [done|]. apply Hl. eauto.
Qed.
Lemma converted_other k v : ¬ rewritten k → converted_value k v = None.
Proof.
  unfold rewritten, converted_value. intros Hn. destruct (is_key k DB_VERSION_KEY); [done|].
  do 3 (match goal with |- context [is_key k ?n] => destruct (is_key k n) eqn:?E end; [exfalso; apply Hn; rewrite is_key_true in *; tauto|]).
  done.
Qed.

Lemma key_store_built db b pass s mk n key b' ops : built db ops b →
  get_or_save_master_key_store db b pass s mk n = Ret (inr key, b') →
  ∃ extra, built db (ops ++ ((λ o : list Z * option (list Z), (DB_COL_DEFAULT, o.1, o.2)) <$> extra)) b' ∧
    match extra with
    | [] => get_master_key_store db pass = Ret (inr key)
    | o :: r => r = [] ∧ o.1 = string_codes MASTER_KEY_STORE_KEY ∧ get_cf db DB_COL_DEFAULT o.1 = Ret None ∧
        ∃ d, o.2 = Some d
    end.
Proof.
  intros Hb. unfold get_or_save_master_key_store. intros (r & Hg & Hr)%obind_ret. destruct r as [e|k].
  - destruct e; try done. apply obind_ret in Hr as ([k b2] & Hs & [= -> ->]).
    unfold set_new_master_key_store in Hs. apply obind_ret in Hs as (pk & _ & Hs). apply obind_ret in Hs as (em & _ & Hs).
    apply obind_ret in Hs as (b3 & Hp & [= _ <-]). cbn [snd] in *.
    eexists [(_, Some _)]. split; [exact (built_put _ _ _ _ _ _ _ Hb Hp)|]. split_and!; [done|done| |by eexists].
    unfold get_master_key_store in Hg. cbn [fst]. apply obind_ret in Hg as ([v|] & E & Hg); [|done].
    destruct (deserialize v) as [ms|]; [|done]. apply obind_ret in Hg as (pk' & _ & Hg).
    destruct (open_box _ _ _) as [m|]; [|done]. by destruct (key_from_slice m).
  - injection Hr as -> ->. exists []. cbn. by rewrite app_nil_r.
Qed.

Lemma get_master_key_ext db db' pass : get_cf db DB_COL_DEFAULT (string_codes MASTER_KEY_STORE_KEY) =
  get_cf db' DB_COL_DEFAULT (string_codes MASTER_KEY_STORE_KEY) → get_master_key_store db pass = get_master_key_store db' pass.
Proof. intros E. unfold get_master_key_store. by rewrite E. Qed.

(** C29: the upgrade of a wallet keeps its funds: the wallet opens under this
    version with the master key it had, and its fund store is the one of the last
    version, converted entry by entry and with nothing added: the same running
    total, the same outputs with their assets, those already spent, so that none
    is credited again, and the same pages in the same order, a store without
    pages getting an empty one.  A generator or a coinbase is the conversion of the
    one it had, and all the other entries, the addresses, their keys and those of
    the transactions, are untouched. *)
Theorem wallet_upgrade_keeps_funds db m v o cfg key salt mk nonce dbs dbs' status : db_at DB_COL_DEFAULT db m →
  m !! string_codes FUND_KEY = Some v → deserialize v = Some o →
  get_master_key_store db (string_codes (passphrase cfg)) = Ret (inr key) →
  get_upgrade_wallet_db NV (ExtraNodeParams_default <| en_wallet_db := Some db |>) = Ret (inr dbs) →
  upgrade_wallet_db NV debug_error dbs cfg salt mk nonce = Ret (inr (dbs', status)) →
  ∃ db' m' fs, en_wallet_db dbs' = Some db' ∧ db_at DB_COL_DEFAULT db' m' ∧
    WalletDb_new NV (Some db') (Some (passphrase cfg)) salt mk nonce = Ret (inr (mkWalletDb db' key None None None)) ∧
    get_fund_store db' = Ret fs ∧
    (fs_transactions fs = map_converted convert_asset (old.fs_transactions o) ∧
     ∀ k, fs_transactions fs !! convert_outpoint k = convert_asset <$> old.fs_transactions o !! k) ∧
    (fs_spent fs = map_converted convert_asset (old.spent_transactions o) ∧
     ∀ k, fs_spent fs !! convert_outpoint k = convert_asset <$> old.spent_transactions o !! k) ∧
    (fs_pages fs = if decide (old.transaction_pages o = []) then [∅] else map_converted convert_asset <$> old.transaction_pages o) ∧
    fs_running_total fs = mk_asset_values (old.token (old.tokens (old.running_total o))) (old.receipts (old.running_total o)) ∧
    (∀ k x, m !! k = Some x → k = string_codes TX_GENERATOR_KEY → ∃ og g,
       deserialize x = Some og ∧ convert_transaction_gen og = Ret g ∧ m' !! k = Some (serialize g)) ∧
    (∀ k x, m !! k = Some x → k = string_codes LAST_COINBASE_KEY → ∃ oc c,
       deserialize x = Some oc ∧ convert_last_coinbase oc = Ret c ∧ m' !! k = Some (serialize c)) ∧
    (∀ k, k ≠ string_codes DB_VERSION_KEY → ¬ rewritten k → m' !! k = m !! k).
Proof.
  intros Hm Hv Ho Hkey Hget Hup. pose proof Hm as [Hw Hcm].
  unfold get_upgrade_wallet_db in Hget. apply rbind_inr in Hget as (d & Hd%db_err_inr & [= <-]).
  apply new_db_version_old in Hd as (-> & Hcols & _).
  unfold upgrade_wallet_db, upgrade_wallet_db_batch in Hup. cbn [en_wallet_db setter unwrap obind] in Hup.
  apply rbind_inr in Hup as ([b st] & Hb & Hup). apply obind_ret in Hup as (db' & Hdb' & [= <- _]).
  apply obind_ret in Hb as (b1 & Hb1 & Hb). apply obind_ret in Hb as ([[e|k0] b2] & Hb2 & Hb); [done|].
  apply obind_ret in Hb as (it & Hit & Hb). apply rbind_inr in Hb as (b3 & Hb3 & [= <- _]). cbn [snd fst] in *.
  pose proof (built_put _ _ _ _ _ _ _ (built_nil db) Hb1) as B1.
  destruct (key_store_built _ _ _ _ _ _ _ _ _ B1 Hb2) as (extra & B2 & Hextra).
  assert (extra = []) as ->.
  { destruct extra as [|x r]; [done|]. destruct Hextra as (_ & Ek & En & _). exfalso. rewrite Ek in En.
    unfold get_master_key_store in Hkey. by rewrite En in Hkey. }
  cbn in B2. destruct (wallet_built _ _ _ _ _ _ B2 Hb3) as [B3 Hconv].
  destruct (iter_content _ _ _ Hw Hit) as (m2 & Hm2 & ->). assert (m2 = m) as -> by congruence.
  destruct (built_write _ _ _ _ Hw B3 Hdb') as (Hw' & Hc' & Hx).
  set (m' := foldl kv_op (<[string_codes DB_VERSION_KEY := NV]> m) (omap value_op (bt_iter m))).
  assert (Hm' : db_at DB_COL_DEFAULT db' m').
  { split; [done|]. rewrite Hx, foldl_app. apply (apply_op_column DB_COL_DEFAULT). by apply put_one. }
  assert (Hver : m' !! string_codes DB_VERSION_KEY = Some NV).
  { unfold m'. rewrite converted_lookup. destruct (m !! string_codes DB_VERSION_KEY) as [x|]; cbn [mbind option_bind];
      [rewrite converted_other by (unfold rewritten; intros [|[|]]; done)|]; apply lookup_insert_eq. }
  assert (Hkept : ∀ k, k ≠ string_codes DB_VERSION_KEY → ¬ rewritten k → m' !! k = m !! k).
  { intros k Hk Hn. unfold m'. rewrite converted_lookup, lookup_insert_ne by done.
    destruct (m !! k) as [x|]; [|done]. cbn. by rewrite converted_other. }
  assert (Hnew : ∀ k x d, m !! k = Some x → converted_value k x = Some d → m' !! k = Some d).
  { intros k x d Ek Ed. unfold m'. rewrite converted_lookup, Ek. cbn. by rewrite Ed. }
  assert (Hmust : ∀ k x, m !! k = Some x → rewritten k → is_Some (converted_value k x)).
  { intros k x Ek Hr. apply Hconv; [by apply elem_of_bt_iter|done]. }
  exists db', m', (convert_fund_store o). split; [done|]. split; [done|]. split_and!.
  - unfold WalletDb_new. rewrite new_db_opens; [|intros c Hc; rewrite Hc'; by apply Hcols|by rewrite (db_at_get _ _ _ _ Hm'), Hver].
    change (default EmptyString (Some (passphrase cfg))) with (passphrase cfg). cbn [obind]. unfold get_or_save_master_key_store.
    rewrite <-(get_master_key_ext db db'); [rewrite Hkey; cbn; by destruct db'|].
    rewrite (db_at_get _ _ _ _ Hm), (db_at_get _ _ _ _ Hm'), Hkept; [done|done|]. unfold rewritten. intros [|[|]]; done.
  - unfold get_fund_store, get_fund_store_err. rewrite (db_at_get _ _ _ _ Hm'). cbn [obind].
    rewrite (Hnew _ v (serialize (convert_fund_store o)) Hv); [by rewrite deserialize_serialize|].
    unfold converted_value. cbn. by rewrite Ho.
  - unfold convert_fund_store. cbn. apply convert_saved_kmap.
  - intros k. unfold convert_fund_store. cbn. by rewrite convert_saved_kmap, map_converted_lookup.
  - unfold convert_fund_store. cbn. apply convert_saved_kmap.
  - intros k. unfold convert_fund_store. cbn. by rewrite convert_saved_kmap, map_converted_lookup.
  - unfold convert_fund_store, FundStore_new. cbn [fs_pages]. rewrite convert_pages_kmap.
    destruct (old.transaction_pages o) as [|p l]; [by rewrite decide_True|by rewrite decide_False].
  - done.
  - intros k x Ek ->. destruct (Hmust _ _ Ek) as [d Ed]; [by left|]. rewrite (Hnew _ _ _ Ek Ed).
    unfold converted_value in Ed. destruct (deserialize (T := old.PendingMap * old.ReadyMap) x) as [og|]; [|done]. cbn in Ed.
    destruct (convert_transaction_gen og) as [g|] eqn:Eg; [|done]. injection Ed as <-. by exists og, g.
  - intros k x Ek ->. destruct (Hmust _ _ Ek) as [d Ed]; [by right; left|]. rewrite (Hnew _ _ _ Ek Ed).
    unfold converted_value in Ed. destruct (deserialize (T := string * old.Transaction) x) as [oc|]; [|done]. cbn in Ed.
    destruct (convert_last_coinbase oc) as [c|] eqn:Ec; [|done]. injection Ed as <-. by exists oc, c.
  - done.
Qed.
End wallet_upgrade.

(** ** The upgrade to the same version *)
Section same_version.
Context (convert : list Z → list Z → outcome (UpgradeError + list Z)).

(** What is left of an entry. *)
Definition same_kept (k v : list Z) : option (list Z) :=
  if is_key k SNAPSHOT_META_KEY || is_key k DB_VERSION_KEY then Some v
  else if is_key k SNAPSHOT_DATA_KEY then match convert k v with Ret (inr d) => Some d | _ => None end
  else None.
Definition same_ops (kv : list Z * list Z) : list (list Z * option (list Z)) :=
  (kv.1, None) :: match same_kept kv.1 kv.2 with Some d => [(kv.1, Some d)] | None => [] end.

Lemma clean_same_step_built db (ops : list (list Z * option (list Z))) b kv b' :
  built db ((λ o, (DB_COL_DEFAULT, o.1, o.2)) <$> ops) b → clean_same_step convert b kv = Ret (inr b') →
  built db ((λ o, (DB_COL_DEFAULT, o.1, o.2)) <$> (ops ++ same_ops kv)) b' ∧
  (kv.1 = string_codes SNAPSHOT_DATA_KEY → ∃ d, convert kv.1 kv.2 = Ret (inr d)).
Proof.
  destruct kv as [k v]. intros Hb. unfold clean_same_step. intros (b1 & Hd & Hr)%obind_ret.
  pose proof (built_delete _ _ _ _ _ _ Hb Hd) as B1. unfold same_ops, same_kept. cbn [fst snd].
  rewrite fmap_app. cbn [fmap list_fmap fst snd]. rewrite cons_middle, (assoc_L (++)).
  destruct (is_key k SNAPSHOT_META_KEY || is_key k DB_VERSION_KEY) eqn:Em.
  { apply lift_inr in Hr. split; [exact (built_put _ _ _ _ _ _ _ B1 Hr)|]. intros ->. vm_compute in Em. discriminate. }
  destruct (is_key k SNAPSHOT_DATA_KEY) eqn:Ed.
  { apply rbind_inr in Hr as (d & Hc & Hp%lift_inr). rewrite Hc. split; [exact (built_put _ _ _ _ _ _ _ B1 Hp)|].
    intros _. by exists d. }
  destruct (negb _); [done|]. injection Hr as <-. cbn. rewrite app_nil_r. split; [exact B1|].
  intros ->. unfold is_key in Ed. by rewrite bool_decide_true in Ed.
Qed.

Lemma same_ops_lookup (m : gmap (list Z) (list Z)) k : foldl kv_op m (bt_iter m ≫= same_ops) !! k = m !! k ≫= same_kept k.
Proof.
  assert (Hkeys : ∀ (l : list (list Z * list Z)) o, o ∈ l ≫= same_ops → o.1 ∈ l.*1).
  { intros l o ([k' v'] & Ho & Hin)%list_elem_of_bind. assert (o.1 = k') as ->; [|by apply (list_elem_of_fmap_2 fst _ (k', v'))].
    unfold same_ops in Ho. cbn in Ho. apply elem_of_cons in Ho as [->|Ho]; [done|].
    destruct (same_kept k' v'); [by apply list_elem_of_singleton in Ho as ->|by apply elem_of_nil in Ho]. }
  destruct (m !! k) as [v|] eqn:E.
  - pose proof (bt_keys_NoDup m) as Hnd. unfold bt_keys in Hnd. apply elem_of_bt_iter, list_elem_of_split in E as (l1 & l2 & E).
    rewrite E in Hnd |- *. rewrite fmap_app, fmap_cons in Hnd. apply NoDup_app in Hnd as (_ & _ & [Hk _]%NoDup_cons).
    rewrite bind_app, bind_cons, !foldl_app, kv_ops_other.
    + unfold same_ops. cbn. destruct (same_kept k v) as [d|]; cbn; [apply lookup_insert_eq|apply lookup_delete_eq].
    + intros (o & -> & Ho)%list_elem_of_fmap. by apply Hk, Hkeys.
  - rewrite kv_ops_other; [done|]. intros (o & -> & Ho)%list_elem_of_fmap. apply Hkeys in Ho.
    change ((bt_iter m).*1) with (bt_keys m) in Ho. apply elem_of_bt_keys in Ho as [x Hx]. congruence.
Qed.

Lemma clean_same_spec db b' db' : db_wf db → clean_same_raft_db db (batch_writer db) convert = Ret (inr b') →
  write db (batch_done b') = Ret db' →
  db_wf db' ∧ columns db' = columns db ∧ ∃ m, content db DB_COL_DEFAULT = Some m ∧
    (∀ v, m !! string_codes SNAPSHOT_DATA_KEY = Some v → ∃ d, convert (string_codes SNAPSHOT_DATA_KEY) v = Ret (inr d)) ∧
    ∃ m', content db' DB_COL_DEFAULT = Some m' ∧ ∀ k, m' !! k = m !! k ≫= same_kept k.
Proof.
  intros Hw. unfold clean_same_raft_db. intros (it & Hit & Hr)%obind_ret Hwr.
  destruct (iter_content _ _ _ Hw Hit) as (m & Hm & ->).
  assert (HP : built db ((λ o : list Z * option (list Z), (DB_COL_DEFAULT, o.1, o.2)) <$> (bt_iter m ≫= same_ops)) b' ∧
    ∀ v, (string_codes SNAPSHOT_DATA_KEY, v) ∈ bt_iter m → ∃ d, convert (string_codes SNAPSHOT_DATA_KEY) v = Ret (inr d)).
  { revert Hr. apply (rfold_inv _ (λ it b', built db ((λ o : list Z * option (list Z), (DB_COL_DEFAULT, o.1, o.2)) <$> (it ≫= same_ops)) b' ∧
      ∀ v, (string_codes SNAPSHOT_DATA_KEY, v) ∈ it → ∃ d, convert (string_codes SNAPSHOT_DATA_KEY) v = Ret (inr d)));
      [split; [done|by intros v ?%elem_of_nil]|].
    intros seen kv rest b1 b2 _ [G1 G2] Hs. destruct (clean_same_step_built _ _ _ _ _ G1 Hs) as [G3 G4].
    split; [by rewrite bind_app, bind_cons, app_nil_r|]. intros v [Hin|Hin]%elem_of_app; [by apply G2|].
    apply list_elem_of_singleton in Hin. subst kv. by apply G4. }
  destruct HP as [HB Hc]. destruct (built_write _ _ _ _ Hw HB Hwr) as (Hw' & Hc' & Hx).
  split; [done|]. split; [done|]. exists m. split; [done|]. split; [intros v Hv; apply Hc; by apply elem_of_bt_iter|].
  exists (foldl kv_op m (bt_iter m ≫= same_ops)). split; [rewrite Hx; by apply (apply_op_column DB_COL_DEFAULT)|].
  apply same_ops_lookup.
Qed.
End same_version.

Section same_version_log.
Context `{RaftCrate, !RaftCrateLaws, Bincode SnapMetadata, !BincodeLaws SnapMetadata, Bincode Z, !BincodeLaws Z}.

(** The log is cut to its snapshot. *)
Lemma same_version_cut convert st l data idx term b' db' : store_run st l → rl_base l = Some (data, idx, term) →
  clean_same_raft_db (presistent st) (batch_writer (presistent st)) convert = Ret (inr b') →
  write (presistent st) (batch_done b') = Ret db' →
  ∃ d, convert (string_codes SNAPSHOT_DATA_KEY) data = Ret (inr d) ∧ ∀ init_cs,
    load_in_memory_or_default (RaftStore_new db') init_cs = Ret (restore db' init_cs (mkRLog (Some (d, idx, term)) [] None)).
Proof.
  intros Hst Hb Hcl Hwr. pose proof (run_represents _ _ Hst) as (Hlwf & _ & m & [Hw Hm] & Hc).
  destruct (clean_same_spec _ _ _ _ Hw Hcl Hwr) as (Hw' & _ & m0 & Hm0 & Hconv & m' & Hm' & Hk).
  assert (m0 = m) as -> by congruence. assert (Hd : m !! string_codes SNAPSHOT_DATA_KEY = Some data) by (by rewrite (cl_data _ _ Hc), Hb).
  destruct (Hconv _ Hd) as [d Ed]. exists d. split; [done|]. intros cs.
  apply (load_represents db' m'); [by split| |].
  - destruct Hlwf as [W1 W2 W3]. split; unfold last_log_index, base_index in *; rewrite Hb in *; cbn; [done|by intros k e; rewrite lookup_nil|].
    unfold zlen in *. cbn. lia.
  - split; cbn [rl_base rl_ents rl_hs fmap option_fmap option_map]; rewrite ?Hk.
    + rewrite Hd. cbn [mbind option_bind]. unfold same_kept. rewrite Ed. reflexivity.
    + rewrite (cl_meta _ _ Hc), Hb. reflexivity.
    + by destruct (m !! string_codes LAST_ENTRY_KEY).
    + by intros e ?%elem_of_nil.
    + by destruct (m !! string_codes HARDSTATE_KEY).
Qed.

Context `{Bincode StorageConsensused} (debug_error : Type → list Z → string).

(** The upgrade of a storage node to the version it has leaves the snapshot of
    its log and nothing else: the raft store starts with that snapshot, no entry
    and no hard state, and the consensus in it is the one it held without parts of
    blocks and with no shutdown asked for. *)
Theorem same_version_restarts st l data idx term dbs dbs' : store_run st l → rl_base l = Some (data, idx, term) →
  en_raft_db dbs = Some (presistent st) → upgrade_same_version_storage_db debug_error dbs = Ret (inr dbs') →
  ∃ raft' c c', deserialize data = Some c ∧ en_raft_db dbs' = Some raft' ∧
    (∀ init_cs, load_in_memory_or_default (RaftStore_new raft') init_cs =
      Ret (restore raft' init_cs (mkRLog (Some (serialize c', idx, term)) [] None))) ∧
    current_block_num c' = current_block_num c ∧ current_block_completed_parts c' = ∅ ∧
    match last_block_stored c with
    | None => last_block_stored c' = None
    | Some i => ∃ i', last_block_stored c' = Some i' ∧ bs_shutdown i' = false ∧ bs_block_hash i' = bs_block_hash i ∧
        bs_block_num i' = bs_block_num i ∧ bs_mining_transactions i' = bs_mining_transactions i
    end.
Proof.
  intros Hst Hb Er. unfold upgrade_same_version_storage_db. intros (db & Edb & Hup)%obind_ret.
  rewrite Er in Hup. cbn [unwrap obind] in Hup.
  apply obind_ret in Hup as (it & Hit & Hup). apply rbind_inr in Hup as (b & Hbt & Hup).
  apply rbind_inr in Hup as (rb & Hrb & Hup). apply obind_ret in Hup as (db' & Hdb & Hup).
  apply obind_ret in Hup as (raft' & Hraft & [= <-]).
  destruct (same_version_cut _ _ _ _ _ _ _ _ Hst Hb Hrb Hraft) as (d & Hd & Hload).
  unfold convert_same_storage, tracked_deserialize in Hd. apply rbind_inr in Hd as (c & Hc & Hd).
  destruct (deserialize data) as [c0|] eqn:Ec; [|done]. injection Hc as ->. injection Hd as <-.
  exists raft', c. eexists. split; [done|]. split; [done|]. split; [exact Hload|]. split; [done|]. split; [done|].
  cbn. destruct (last_block_stored c) as [i|]; [|done]. by eexists.
Qed.
End same_version_log.

(** ** Examples *)
Module UpgradeExamples.
Import TestExternals RaftStoreExamples WalletExamples.

Definition got {A : Type} (d : A) (m : outcome A) : A := match m with Ret x => x | Panic => d end.
Lemma got_ret {A : Type} (d : A) m : is_ret m = true → m = Ret (got d m).
Proof. by destruct m. Qed.
Definition is_inr {E A : Type} (m : outcome (E + A)) : bool := match m with Ret (inr _) => true | _ => false end.
Definition got_inr {E A : Type} (d : A) (m : outcome (E + A)) : A := match m with Ret (inr x) => x | _ => d end.
Lemma got_inr_ret {E A : Type} (d : A) (m : outcome (E + A)) : is_inr m = true → m = Ret (inr (got_inr d m)).
Proof. by destruct m as [[e|x]|]. Qed.

(** A database of the last version with the columns [cols] and the entries [ops]. *)
Definition none_db : SimpleDb := mkSimpleDb ∅ [].
Definition empty_db (cols : list string) : SimpleDb := got none_db (new_db [52] cols None).
Definition filled (cols : list string) (ops : list op) : SimpleDb :=
  got none_db (let! b := ofold batch_op (batch_writer (empty_db cols)) ops in write (empty_db cols) (batch_done b)).
Definition fills (cols : list string) (ops : list op) : bool :=
  is_inr (new_in_memory [52] cols None) && is_ret (new_db [52] cols None) &&
  is_ret (let! b := ofold batch_op (batch_writer (empty_db cols)) ops in write (empty_db cols) (batch_done b)).
Lemma filled_wf cols ops : NoDup (DB_COL_DEFAULT :: cols) → fills cols ops = true → db_wf (filled cols ops).
Proof.
  intros Hnd. unfold fills. rewrite !andb_true_iff. intros [[H1 H2] H3].
  assert (Hw : db_wf (empty_db cols)).
  { unfold empty_db. apply (got_inr_ret none_db) in H1. unfold new_db, new_db_with_version in H2 |- *. rewrite H1 in H2 |- *.
    cbn [obind] in H2 |- *. destruct (check_version _ _) as [[e|u]|]; [discriminate H2| |discriminate H2].
    exact (new_in_memory_wf _ _ _ Hnd H1). }
  unfold filled. apply (got_ret none_db) in H3. rewrite H3. apply obind_ret in H3 as (b & Hb & Hwr).
  cbn [got]. exact (proj1 (built_write _ _ _ _ Hw Hb Hwr)).
Qed.

(** *** A raft database with a snapshot, an entry after it and a hard state *)
Definition raft0 : SimpleDb := mkSimpleDb {[DB_COL_DEFAULT := 0%nat]} [{[string_codes DB_VERSION_KEY := [52]]}].
Lemma raft0_at : db_at DB_COL_DEFAULT raft0 {[string_codes DB_VERSION_KEY := [52]]}.
Proof.
  split; [|reflexivity]. split; cbn [columns key_values raft0].
  - intros cf i [_ <-]%lookup_singleton_Some. cbn. lia.
  - intros cf1 cf2 i [<- _]%lookup_singleton_Some [<- _]%lookup_singleton_Some. done.
Qed.
Definition r1 : RaftStore := ok_store (append (RaftStore_new raft0) [e1; e2]).
Definition r2 : RaftStore := ok_store (set_hardstate r1 h1).
Definition r3 : RaftStore := ok_store (store_create_snapshot r2 1 None None [5]).
Lemma r3_run : store_run r3 (mkRLog (Some ([5], 1, 1)) [e2] (Some h1)).
Proof.
  assert (R0 : store_run (RaftStore_new raft0) (mkRLog (E := RaftEntry) (H := HardState) None [] None)) by (by apply (run_new raft0 _ raft0_at)).
  assert (R1 : store_run r1 (mkRLog (E := RaftEntry) (H := HardState) None [e1; e2] None)).
  { apply (run_append _ _ [e1; e2] r1 R0); [|vm_compute; reflexivity].
    intros e0 [= <-]. split; [by vm_compute|]. split; [by vm_compute|]. intros [|[|k]] e; cbn; intros [= <-]; done. }
  assert (R2 : store_run r2 (mkRLog (E := RaftEntry) (H := HardState) None [e1; e2] (Some h1))).
  { apply (run_hardstate _ _ h1 r2 R1). vm_compute. reflexivity. }
  apply (run_create _ _ 1 None None [5] snap1 (in_memory r2) r3 R2); [vm_compute; reflexivity|by vm_compute|].
  vm_compute. reflexivity.
Qed.
Lemma r3_wf : db_wf (presistent r3).
Proof. by destruct (run_represents _ _ r3_run) as (_ & _ & m & [Hw _] & _). Qed.

(** *** Values of the last version *)
Definition no_participants : old.Participants := old.mkParticipants [] ∅.
Definition old_pipeline : old.MiningPipelineInfo :=
  old.mkMiningPipelineInfo ∅ ∅ no_participants ∅ [] (old.mkUnicornInfo (old.mkUnicorn 1 1 1 1) EmptyString 1) None old.Halted ∅ ∅
    (old.mkUnicornFixedParam EmptyString 1 1) (Some 7) None ∅ (old.mkTokenAmount 10) ∅.
Definition old_utxo : old.UtxoSet :=
  {[old.mkOutPoint "h" 0 := old.mkTxOut (old.Token (old.mkTokenAmount 9)) 0 None (Some "alice"%string)]}.
Definition old_compute : old.ComputeConsensused :=
  old.mkComputeConsensused 2 2 1 ∅ [] None None old_utxo ∅ ∅ (1, 1) (old.mkTokenAmount 100) old_pipeline [] None.
Definition old_block : old.Block := old.mkBlock (old.mkBlockHeader 4 0 ([], EmptyString) 3 [] None (EmptyString, EmptyString)) [].
Definition old_storage : old.StorageConsensused := old.mkStorageConsensused 2 4 ∅ (1, 1) None.
Definition new_storage : StorageConsensused := StorageRaft.mkStorageConsensused 2 4 ∅ (1, 1) (Some (mkBlockStoredInfo "b" 3 [] ∅ true)).
Definition cfg : UpgradeCfg := mkUpgradeCfg 3 5 (mkUnicornFixedInfo "9" 2 2) "pass".
Definition no_text (T : Type) (l : list Z) : string := EmptyString.

(** The bytes 5 and 9 stand for them. *)
Definition reads_at {T : Type} (z : Z) (x : T) : Bincode T :=
  {| serialize _ := [z]; deserialize l := if bool_decide (l = [z]) then Some x else None |}.
#[export] Instance b_old_compute : Bincode old.ComputeConsensused := reads_at 5 old_compute.
#[export] Instance b_old_storage : Bincode old.StorageConsensused := reads_at 5 old_storage.
#[export] Instance b_old_block : Bincode old.StoredSerializingBlock := reads_at 9 (old.mkStoredSerializingBlock old_block).
#[export] Instance b_old_tx : Bincode old.Transaction := reads_at 8 (old.mkTransaction [] [] 4 None).
#[export] Instance b_new_storage : Bincode StorageConsensused := reads_at 5 new_storage.
#[export] Instance b_new_compute : Bincode ComputeConsensused := reads_at 6 ComputeConsensused_default.
#[export] Instance b_item_meta : Bincode BlockchainItemMeta := reads_at 1 (MetaBlock 3 0).
#[export] Instance b_strings : Bincode (list string) := bincode_codec _.
#[export] Instance b_addrs : Bincode (list SocketAddr) := bincode_codec _.
#[export] Instance b_opt : Bincode (option Z) := bincode_codec _.

(** *** Storage *)
Definition block_key : list Z := 98 :: replicate 64 48.
Definition storage_ops : list op :=
  [(old.DB_COL_BC_V0_6_0, block_key, Some [9]); (DB_COL_BC_JSON, block_key, Some [10]); (DB_COL_BC_META, block_key, Some [1]);
   (DB_COL_BC_ALL, block_key, Some (version_pointer DB_COL_BC_V0_6_0 block_key));
   (DB_COL_INTERNAL, string_codes LAST_CONTIGUOUS_BLOCK_KEY, Some [3])].
Definition storage_db : SimpleDb := filled old.storage_DB_SPEC storage_ops.
Lemma storage_db_wf : db_wf storage_db.
Proof.
  apply filled_wf; [apply (bool_decide_unpack _); vm_compute; exact I|]. vm_compute. reflexivity.
Qed.
Definition storage_open := get_upgrade_storage_db [53] (ExtraNodeParams_default <| en_db := Some storage_db |> <| en_raft_db := Some (presistent r3) |>).
Definition storage_dbs : ExtraNodeParams := got_inr ExtraNodeParams_default storage_open.
Definition storage_run := upgrade_storage_db 103 [53] no_text storage_dbs cfg.
Lemma storage_read : get_stored_value_from_db storage_db block_key =
  Ret (Some (mkBlockchainItem 4 (MetaBlock 3 0) block_key [9] [10])).
Proof. vm_compute. reflexivity. Qed.

Lemma storage_upgrade_keeps_chain_witness : ∃ dbs' status db', upgrade_storage_db 103 [53] no_text storage_dbs cfg = Ret (inr (dbs', status)) ∧
  en_db dbs' = Some db' ∧ new_db [53] DB_SPEC_columns (Some db') = Ret db' ∧
  get_stored_value_from_db db' block_key = Ret (Some (mkBlockchainItem 4 (MetaBlock 3 0) block_key [9] [10])).
Proof.
  assert (Hopen : storage_open = Ret (inr storage_dbs)) by (apply got_inr_ret; vm_compute; reflexivity).
  assert (Hrun : storage_run = Ret (inr (got_inr (ExtraNodeParams_default, UpgradeStatus_default) storage_run)))
    by (apply got_inr_ret; vm_compute; reflexivity).
  destruct (got_inr _ storage_run) as [dbs' status].
  destruct (storage_upgrade_keeps_chain 103 [53] no_text storage_db (presistent r3) cfg storage_dbs dbs' status
    storage_db_wf r3_wf Hopen Hrun) as (db' & raft' & mc & Ed & _ & Hnew & _ & Hread & _).
  exists dbs', status, db'. split; [exact Hrun|]. split; [exact Ed|]. split; [exact Hnew|]. exact (Hread _ _ storage_read).
Defined.

(** The log is kept by the upgrade, and cut to its snapshot when the version is
    the same. *)
Definition same_dbs : ExtraNodeParams := ExtraNodeParams_default <| en_db := Some storage_db |> <| en_raft_db := Some (presistent r3) |>.
Definition same_run := upgrade_same_version_storage_db no_text same_dbs.
Lemma same_version_restarts_witness : ∃ dbs' raft' s, upgrade_same_version_storage_db no_text same_dbs = Ret (inr dbs') ∧
  en_raft_db dbs' = Some raft' ∧ load_in_memory_or_default (RaftStore_new raft') [] = Ret (inr s) ∧
  in_memory s = (Some ([5], 1, 1), [], Some (1, 0)).
Proof.
  assert (Hrun : same_run = Ret (inr (got_inr ExtraNodeParams_default same_run))) by (apply got_inr_ret; vm_compute; reflexivity).
  destruct (same_version_restarts no_text r3 _ [5] 1 1 same_dbs _ r3_run eq_refl eq_refl Hrun) as (raft' & c & c' & _ & Er & Hload & _).
  eexists _, raft', _. split; [exact Hrun|]. split; [exact Er|]. split; [exact (Hload [])|]. reflexivity.
Defined.

(** *** Compute *)
Definition compute_ops_ex : list op :=
  [(Compute.DB_COL_INTERNAL, string_codes Compute.RAFT_KEY_RUN, Some [4]); (Compute.DB_COL_INTERNAL, string_codes old.REQUEST_LIST_KEY, Some [1]);
   (DB_COL_LOCAL_TXS, [1], Some [2])].
Definition compute_db : SimpleDb := filled old.compute_DB_SPEC compute_ops_ex.
Lemma compute_db_wf : db_wf compute_db.
Proof.
  apply filled_wf; [apply (bool_decide_unpack _); vm_compute; exact I|]. vm_compute. reflexivity.
Qed.
Definition compute_open := get_upgrade_compute_db [53] (ExtraNodeParams_default <| en_db := Some compute_db |> <| en_raft_db := Some (presistent r3) |>).
Definition compute_dbs : ExtraNodeParams := got_inr ExtraNodeParams_default compute_open.
Definition compute_run := upgrade_compute_db [53] no_text compute_dbs cfg.

Lemma old_compute_read : deserialize [5] = Some old_compute.
Proof. unfold deserialize, b_old_compute, reads_at. by rewrite bool_decide_true. Qed.

Lemma compute_upgrade_keeps_state_witness : ∃ dbs' status raft' c s, upgrade_compute_db [53] no_text compute_dbs cfg = Ret (inr (dbs', status)) ∧
  en_raft_db dbs' = Some raft' ∧ load_in_memory_or_default (RaftStore_new raft') [] = Ret (inr s) ∧
  in_memory s = (Some (serialize c, 1, 1), [e2], Some h1) ∧
  base (utxo_set c) !! mkOutPoint "h" 0 = Some (mkTxOut (Token 9) 0 None (Some "alice"%string)) ∧
  last_raft_block_num status = Some 7.
Proof.
  assert (Hopen : compute_open = Ret (inr compute_dbs)) by (apply got_inr_ret; vm_compute; reflexivity).
  assert (Hrun : compute_run = Ret (inr (got_inr (ExtraNodeParams_default, UpgradeStatus_default) compute_run)))
    by (apply got_inr_ret; vm_compute; reflexivity).
  destruct (got_inr _ compute_run) as [dbs' status].
  destruct (compute_upgrade_keeps_state [53] no_text r3 _ [5] 1 1 old_compute compute_db cfg compute_dbs dbs' status
    r3_run eq_refl old_compute_read compute_db_wf Hopen Hrun) as (db' & raft' & c & _ & Er & _ & _ & Hload & Hup & Hst & _).
  exists dbs', status, raft', c. eexists. split; [exact Hrun|]. split; [exact Er|]. split; [exact (Hload [])|]. split; [reflexivity|].
  split; [|rewrite Hst; exact (up_b_num _ _ _ Hup)].
  rewrite (up_utxo _ _ _ Hup). change (mkOutPoint "h" 0) with (convert_outpoint (old.mkOutPoint "h" 0)).
  rewrite map_converted_lookup. reflexivity.
Defined.

(** *** Wallet *)
#[export] Instance asset_values : NaomAssetValues := {| mk_asset_values t r := (t, r); av_tokens := fst; av_receipts := snd |}.
#[export] Instance asset_values_laws : NaomAssetValuesLaws.
Proof. by split. Qed.
#[export] Instance b_generator : Bincode (PendingMap * ReadyMap) := bincode_codec _.
#[export] Instance b_coinbase : Bincode (string * Transaction) := bincode_codec _.
#[export] Instance b_string : Bincode string := bincode_codec _.
Definition old_funds : old.FundStore :=
  old.mkFundStore (old.mkAssetValues (old.mkTokenAmount 9) ∅) {[old.mkOutPoint "h" 0 := old.Token (old.mkTokenAmount 9)]}
    [{[old.mkOutPoint "h" 0 := old.Token (old.mkTokenAmount 9)]}] {[old.mkOutPoint "s" 1 := old.Token (old.mkTokenAmount 4)]}.
#[export] Instance b_old_funds : Bincode old.FundStore := reads_at 5 old_funds.
#[export] Instance b_old_gen : Bincode (old.PendingMap * old.ReadyMap) := reads_at 5 (∅, ∅).
#[export] Instance b_old_coinbase : Bincode (string * old.Transaction) := reads_at 5 ("c"%string, old.mkTransaction [] [] 4 None).
#[export] Instance b_old_master : Bincode old.MasterKeyStore := {| serialize _ := []; deserialize _ := Some (old.mkMasterKeyStore [] [] []) |}.
#[export] Instance b_old_address : Bincode old.AddressStore := reads_at 5 (old.mkAddressStore [] [] None).
#[export] Instance b_old_store : Bincode old.TransactionStore := reads_at 5 (old.mkTransactionStore "a").

Definition key_store : option (list Z) :=
  match WalletDb_new [52] None (Some "pass"%string) [5] [7] [0; 0] with
  | Ret (inr w) => match get_cf (wallet_db w) DB_COL_DEFAULT (string_codes MASTER_KEY_STORE_KEY) with Ret v => v | Panic => None end
  | _ => None
  end.
Definition wallet_ops : list op :=
  [(DB_COL_DEFAULT, string_codes MASTER_KEY_STORE_KEY, key_store); (DB_COL_DEFAULT, string_codes FUND_KEY, Some [5]);
   (DB_COL_DEFAULT, replicate 44 1, Some [5])].
Definition old_wallet : SimpleDb := filled [] wallet_ops.
Lemma old_wallet_wf : db_wf old_wallet.
Proof. apply filled_wf; [apply (bool_decide_unpack _); vm_compute; exact I|]. vm_compute. reflexivity. Qed.
Definition wallet_open := get_upgrade_wallet_db [53] (ExtraNodeParams_default <| en_wallet_db := Some old_wallet |>).
Definition wallet_dbs : ExtraNodeParams := got_inr ExtraNodeParams_default wallet_open.
Definition wallet_run := upgrade_wallet_db [53] no_text wallet_dbs cfg [] [] [].
Definition wallet_content : gmap (list Z) (list Z) := default ∅ (content old_wallet DB_COL_DEFAULT).
Lemma old_wallet_at : db_at DB_COL_DEFAULT old_wallet wallet_content.
Proof.
  split; [exact old_wallet_wf|]. unfold wallet_content. assert (Hs : bool_decide (is_Some (content old_wallet DB_COL_DEFAULT)) = true)
    by (vm_compute; reflexivity). apply bool_decide_eq_true in Hs as [m ->]. reflexivity.
Qed.

Lemma wallet_upgrade_keeps_funds_witness : ∃ dbs' status db' fs, upgrade_wallet_db [53] no_text wallet_dbs cfg [] [] [] = Ret (inr (dbs', status)) ∧
  WalletDb_new [53] (Some db') (Some "pass"%string) [] [] [] = Ret (inr (mkWalletDb db' [7] None None None)) ∧
  get_fund_store db' = Ret fs ∧ fs_transactions fs !! mkOutPoint "h" 0 = Some (Token 9) ∧
  fs_spent fs !! mkOutPoint "s" 1 = Some (Token 4) ∧ fs_pages fs = [fs_transactions fs] ∧ fs_running_total fs = (9, ∅).
Proof.
  assert (Hopen : wallet_open = Ret (inr wallet_dbs)) by (apply got_inr_ret; vm_compute; reflexivity).
  assert (Hrun : wallet_run = Ret (inr (got_inr (ExtraNodeParams_default, UpgradeStatus_default) wallet_run)))
    by (apply got_inr_ret; vm_compute; reflexivity).
  destruct (got_inr _ wallet_run) as [dbs' status].
  destruct (wallet_upgrade_keeps_funds [53] no_text old_wallet wallet_content [5] old_funds cfg [7] [] [] [] wallet_dbs dbs' status
    old_wallet_at) as (db' & m' & fs & _ & _ & Hnew & Hfs & (Et & Htx) & (_ & Hsp) & Hpg & Htot & _).
  - vm_compute. reflexivity.
  - vm_compute. reflexivity.
  - vm_compute. reflexivity.
  - exact Hopen.
  - exact Hrun.
  - exists dbs', status, db', fs. split; [exact Hrun|]. split; [exact Hnew|]. split; [exact Hfs|]. split; [|split; [|split; [|exact Htot]]].
    + change (mkOutPoint "h" 0) with (convert_outpoint (old.mkOutPoint "h" 0)). rewrite Htx. reflexivity.
    + change (mkOutPoint "s" 1) with (convert_outpoint (old.mkOutPoint "s" 1)). rewrite Hsp. reflexivity.
    + rewrite Hpg, Et. reflexivity.
Defined.
End UpgradeExamples.
