(* ===== verification/Api.v ===== *)
(** * The HTTP interface: [src/api/responses.rs], [errors.rs], [utils.rs], [threaded_call.rs]

    Replies, their texts and codes, the authorisation of a request, the cache of
    replies, and how the routes of a node are tried one after the other.  The
    routes themselves are in [ApiNode], [ApiStorage], [ApiWallet] and [ApiCompute].  What
    warp does to a request (the match of a path segment, the JSON of a body, the
    check of the origin of a request) is a class. *)
From Stdlib Require Import Ascii.
From S2P Require Import Prelude Externals Utils.

(** ** Errors *)
Module StatusCode.
Definition OK : Z := 200.
Definition NO_CONTENT : Z := 204.
Definition BAD_REQUEST : Z := 400.
Definition UNAUTHORIZED : Z := 401.
Definition NOT_FOUND : Z := 404.
Definition METHOD_NOT_ALLOWED : Z := 405.
Definition INTERNAL_SERVER_ERROR : Z := 500.
End StatusCode.

Module ApiErrorType.
Inductive t :=
  | Generic (message : string)
  | InvalidPassphrase | BlankPassphrase | InvalidRequestBody | CannotParseAddress | CannotAccessWallet
  | CannotAccessUserNode | CannotAccessMinerNode | CannotAccessComputeNode | CannotAccessPeerUserNode
  | CannotSaveAddressesToWallet | CannotFetchBalance | NoDataFoundForKey | InternalError | Unauthorized
  | MethodNotFound | MethodNotAllowed | BadRequest.

Definition fmt (e : t) : string :=
  match e with
  | Generic message => "Generic error: " +:+ message
  | InvalidPassphrase => "Invalid passphrase"
  | BlankPassphrase => "New passphrase cannot be blank"
  | InvalidRequestBody => "Invalid request body"
  | CannotParseAddress => "Cannot parse address"
  | CannotAccessWallet => "Cannot access wallet"
  | CannotAccessUserNode => "Cannot access user node"
  | CannotAccessMinerNode => "Cannot access miner node"
  | CannotAccessComputeNode => "Cannot access compute node"
  | CannotAccessPeerUserNode => "Cannot access peer user node"
  | CannotSaveAddressesToWallet => "Cannot save address to wallet"
  | CannotFetchBalance => "Cannot fetch balance"
  | NoDataFoundForKey => "No data found for key"
  | InternalError => "Internal Error"
  | Unauthorized => "Unauthorized"
  | MethodNotFound => "Method not found"
  | MethodNotAllowed => "Method not allowed"
  | BadRequest => "Bad request"
  end.
End ApiErrorType.

Record ApiError := mkApiError { code : Z; message : ApiErrorType.t; err_id : string; err_route : string }.

(** ** Replies *)
Record JsonReply := mkJsonReply { reply_data : list Z; status_code : Z }.
#[export] Instance JsonReply_eq_dec : EqDecision JsonReply.
Proof. solve_decision. Defined.

Definition JsonReply_new (data : list Z) : JsonReply := mkJsonReply data StatusCode.OK.
Definition with_code (r : JsonReply) (status_code : Z) : JsonReply := mkJsonReply (reply_data r) status_code.

(** What is sent: code, content type, body. *)
Definition into_response (r : JsonReply) : Z * string * list Z := (status_code r, "application/json"%string, reply_data r).

(** A text between double quotes. *)
Definition QUOTE : list Z := [34].
Definition quoted (l : list Z) : list Z := QUOTE ++ l ++ QUOTE.
Definition key_codes (s : string) : list Z := quoted (string_codes s) ++ string_codes ":".

Definition json_embed (value : list (list Z)) : JsonReply := JsonReply_new (mjoin value).
Definition json_embed_block (value : list Z) : JsonReply :=
  json_embed [string_codes "{" ++ key_codes "Block"; value; string_codes "}"].
Definition json_embed_transaction (value : list Z) : JsonReply :=
  json_embed [string_codes "{" ++ key_codes "Transaction"; value; string_codes "}"].
Definition json_serialize_embed {T : Type} `{SerdeJson T} (value : T) : JsonReply := JsonReply_new (to_json value).

Inductive APIResponseStatus := StatusSuccess | StatusError | StatusInProgress | StatusUnknown.
Definition APIResponseStatus_fmt (s : APIResponseStatus) : string :=
  match s with
  | StatusSuccess => "Success" | StatusError => "Error" | StatusInProgress => "InProgress" | StatusUnknown => "Unknown"
  end.

Record APIAsset := mkAPIAsset { api_asset : Asset; asset_extra_info : option (list Z) }.
Record APICreateResponseContent := mkAPICreateResponseContent {
  create_asset : APIAsset; to_address : string; create_tx_hash : string }.

Definition common_reply (id : string) (status : APIResponseStatus) (reason route : string) (content : JsonReply) : JsonReply :=
  json_embed [
    string_codes "{" ++ key_codes "id" ++ QUOTE; string_codes id;
    QUOTE ++ string_codes "," ++ key_codes "status" ++ QUOTE; string_codes (APIResponseStatus_fmt status);
    QUOTE ++ string_codes "," ++ key_codes "reason" ++ QUOTE; string_codes reason;
    QUOTE ++ string_codes "," ++ key_codes "route" ++ QUOTE; string_codes route;
    QUOTE ++ string_codes "," ++ key_codes "content"; reply_data content; string_codes "}"].

Definition common_success_reply (id route reason : string) (json_content : JsonReply) : JsonReply :=
  with_code (common_reply id StatusSuccess reason route json_content) StatusCode.OK.
Definition common_error_reply (status : Z) (error_type : ApiErrorType.t) (call_id route : string) (data : JsonReply) : JsonReply :=
  with_code (common_reply call_id StatusError (ApiErrorType.fmt error_type) route data) status.

(** [Result<JsonReply, JsonReply>]: the error first. *)
Notation ApiResult := (JsonReply + JsonReply)%type.
Definition result_reply (r : ApiResult) : JsonReply := match r with inl e => e | inr v => v end.

Record CallResponse := mkCallResponse { route : string; call_id : string }.

Section call_response.
Context `{SerdeJson string}.
Implicit Types r : CallResponse.

Definition optional_content_default (content : option JsonReply) : JsonReply :=
  match content with Some c => c | None => json_serialize_embed "null"%string end.

Definition into_err_with_data r (status : Z) (e : ApiErrorType.t) (data : JsonReply) : ApiResult :=
  inl (common_error_reply status e (call_id r) (route r) data).
Definition into_err r (status : Z) (e : ApiErrorType.t) : ApiResult :=
  into_err_with_data r status e (json_serialize_embed "null"%string).
Definition into_err_internal r (e : ApiErrorType.t) : ApiResult := into_err r StatusCode.INTERNAL_SERVER_ERROR e.
Definition into_err_bad_req r (e : ApiErrorType.t) : ApiResult := into_err r StatusCode.BAD_REQUEST e.
Definition into_ok r (reason : string) (data : JsonReply) : ApiResult :=
  inr (common_success_reply (call_id r) (route r) reason data).

(** The [unwrap_err] of a result that [into_err] made. *)
Definition map_string_err r (e : string) (s : Z) : JsonReply := result_reply (into_err r s (ApiErrorType.Generic e)).
End call_response.

(** ** Calls to the thread of a node

    What becomes of a call: the channel is closed, the node goes away before it
    has run the call, or the call runs. *)
Inductive CallFate := CallNotSent | CallDropped | CallRuns.

Definition make_threaded_call {S R : Type} (fate : CallFate) (s : S) (f : S → outcome (R * S)) : outcome ((string + R) * S) :=
  match fate with
  | CallNotSent => Ret (inl "ThreadedCall fail to send call"%string, s)
  | CallDropped => Ret (inl "ThreadedCall fail to get result"%string, s)
  | CallRuns => let! x := f s in Ret (inr x.1, x.2)
  end.

(** ** The cache of replies

    The expiry of entries, after an hour or when there are too many, is the
    separate operation [expire]. *)
Notation ReplyCache := (gmap string ApiResult) (only parsing).
Definition CACHE_LIVE_TIME : Z := 60 * 60.
Definition MAX_RESPONSE_CACHE_SIZE : Z := 10000.

Definition create_new_cache : ReplyCache := ∅.
Definition expire (gone : gset string) (cache : ReplyCache) : ReplyCache := filter (λ kv, kv.1 ∉ gone) cache.

Definition get_cache_value (call_id : string) (cache : ReplyCache) : option ApiResult := cache !! call_id.
Definition insert_cache_value (call_id : string) (response : ApiResult) (cache : ReplyCache) : ApiResult * ReplyCache :=
  (response, if String.eqb call_id EmptyString then cache else <[call_id := response]> cache).

Section cache.
Context {S : Type}.
Implicit Types r : S → outcome (ApiResult * S).

(** [r] is the handler: a future, which does nothing before it is awaited. *)
Definition get_or_insert_cache_value (call_id : string) (cache : ReplyCache) r (s : S) : outcome (ApiResult * ReplyCache * S) :=
  match get_cache_value call_id cache with
  | Some value => Ret (value, cache, s)
  | None =>
      let! x := r s in
      Ret (insert_cache_value call_id x.1 cache, x.2)
  end.

Definition map_api_res_and_cache (call_id : string) (cache : ReplyCache) r (s : S) : outcome (JsonReply * ReplyCache * S) :=
  let! x := get_or_insert_cache_value call_id cache r s in
  Ret (result_reply x.1.1, x.1.2, x.2).
End cache.

(** ** Requests *)
Inductive Method := GET | POST | OPTIONS | OtherMethod.
#[export] Instance Method_eq_dec : EqDecision Method.
Proof. solve_decision. Defined.

(** The full path starts with a slash; a header whose value is not text counts
    as absent. *)
Record Request := mkRequest {
  rq_method : Method; rq_path : string; rq_headers : gmap string string; rq_body : list Z }.

Inductive Rejection :=
  | NotFound | MethodNotAllowed | BodyDeserializeError | CustomError (e : ApiError) | CorsForbidden
  | OtherRejection (text : string).

(** What a route lets other origins do. *)
Record CorsBuilder := mkCorsBuilder { allow_any_origin : bool; allow_headers : list string; allow_methods : list string }.
Definition get_cors : CorsBuilder :=
  mkCorsBuilder true ["Accept"; "User-Agent"; "Sec-Fetch-Mode"; "Referer"; "Origin"; "Access-Control-Request-Method";
    "Access-Control-Request-Headers"; "Access-Control-Allow-Origin"; "Access-Control-Allow-Headers"; "Content-Type";
    "x-request-id"; "x-nonce"; "x-api-key"]%string ["GET"]%string.
Definition post_cors : CorsBuilder :=
  mkCorsBuilder true ["Accept"; "User-Agent"; "Sec-Fetch-Mode"; "Referer"; "Origin"; "Access-Control-Request-Method";
    "Access-Control-Request-Headers"; "Access-Control-Allow-Origin"; "Access-Control-Allow-Headers"; "Content-Type";
    "x-request-id"; "x-nonce"; "x-api-key"]%string ["POST"]%string.

(** A request goes on to the route, is a preflight that is answered at once, or
    is refused. *)
Inductive CorsResult := CorsPass | CorsPreflight | CorsRefused.

(** warp: whether the first segment of a path is the given one, the segment
    after it, the check of the origin, the reply to a preflight, the value of the
    body, and the text of a rejection. *)
Class Warp := {
  warp_path_matches : string → string → bool;
  warp_param : string → option string;
  cors_check : CorsBuilder → Request → CorsResult;
  preflight_reply : JsonReply;
  rejection_debug : list Rejection → string;
}.
Class WarpJson (T : Type) := { body_json : Request → Rejection + T }.

(** A path filter looks at one segment; what follows is left for other filters.
    Only an OPTIONS request that names its origin can be a preflight, and where any
    origin is allowed the others go on. *)
Class WarpLaws `{Warp} : Prop := {
  path_matches_exact p : warp_path_matches p ("/" +:+ p) = true;
  path_matches_more p rest : warp_path_matches p ("/" +:+ p +:+ "/" +:+ rest) = true;
  path_matches_segment p q : warp_path_matches p ("/" +:+ q) = true →
    q = p ∨ ∃ rest, q = p +:+ "/" +:+ rest;
  cors_goes_on b rq : allow_any_origin b = true → rq_method rq ≠ OPTIONS ∨ rq_headers rq !! "origin"%string = None →
    cors_check b rq = CorsPass;
}.

Notation RoutesPoWInfo := (gmap string nat) (only parsing).
Notation ApiKeys := (gmap string (list string)) (only parsing).
Notation DbgPaths := (list string) (only parsing).

Definition to_api_keys (api_keys : gmap string (list string)) : ApiKeys := api_keys.
Definition to_route_pow_infos (route_pow_infos : gmap string nat) : RoutesPoWInfo := route_pow_infos.

Definition warp_path (dp : DbgPaths) (p : string) : DbgPaths := dp ++ [p].

Definition header_text (rq : Request) (name : string) : string := default EmptyString (rq_headers rq !! name).

Section auth.
Context `{Naom}.

(** The result is the id of the call. *)
Definition auth_request (routes_pow : RoutesPoWInfo) (api_keys : ApiKeys) (rq : Request) : outcome (ApiError + string) :=
  match rq_path rq with
  | EmptyString => Panic
  | String _ route_path =>
      let route_difficulty := routes_pow !! route_path in
      let needed_keys := api_keys !! route_path in
      let id := header_text rq "x-request-id" in
      let nonce := header_text rq "x-nonce" in
      let api_key := header_text rq "x-api-key" in
      let err_unauthorized := inl (mkApiError StatusCode.UNAUTHORIZED ApiErrorType.Unauthorized id route_path) in
      if negb (Nat.eqb (String.length id) 32) then Ret err_unauthorized
      else if match needed_keys with
              | Some needed_api_keys => negb (bool_decide (api_key ∈ needed_api_keys))
              | None => false
              end then Ret err_unauthorized
      else
        let hash_content := nonce +:+ "-" +:+ id in
        match route_difficulty with
        | Some difficulty =>
            let! pow := validate_pow_for_diff difficulty (string_codes hash_content) in
            Ret (match pow with None => err_unauthorized | Some _ => inr id end)
        | None => Ret (inr id)
        end
  end.
End auth.

(** ** Rejections

    The rejections of all the routes that were tried. *)
Definition is_not_found (l : list Rejection) : bool :=
  forallb (λ r, match r with NotFound => true | _ => false end) l.
Definition find_deserialize_error (l : list Rejection) : bool :=
  existsb (λ r, match r with BodyDeserializeError => true | _ => false end) l.
Definition find_method_not_allowed (l : list Rejection) : bool :=
  existsb (λ r, match r with MethodNotAllowed => true | _ => false end) l.
Definition find_api_error (l : list Rejection) : option ApiError :=
  head (omap (λ r, match r with CustomError e => Some e | _ => None end) l).

Section serve.
Context `{Naom, Warp, SerdeJson string}.

Definition handle_rejection (err : list Rejection) : JsonReply :=
  let error c m := mkApiError c m "null" "null" in
  let error :=
    if is_not_found err then error StatusCode.NOT_FOUND ApiErrorType.MethodNotFound
    else if find_deserialize_error err then error StatusCode.BAD_REQUEST ApiErrorType.BadRequest
    else if find_method_not_allowed err then error StatusCode.METHOD_NOT_ALLOWED ApiErrorType.MethodNotAllowed
    else match find_api_error err with
         | Some e => e
         | None => error StatusCode.INTERNAL_SERVER_ERROR
                     (ApiErrorType.Generic ("Unhandled rejection: " +:+ rejection_debug err))
         end in
  common_error_reply (code error) (message error) (err_id error) (err_route error) (json_serialize_embed "null"%string).

(** ** Components of a node

    A handle that a route holds on a part of the node. *)
Record Component (S A : Type) := mkComponent { part : S → A; set_part : A → S → S }.
#[local] Arguments part {S A}. #[local] Arguments set_part {S A}.

(** The handler of a route works on its component. *)
Definition with_node_component {S A : Type} (comp : Component S A) (handler : A → outcome (ApiResult * A)) (s : S) :
    outcome (ApiResult * S) :=
  let! x := handler (part comp s) in Ret (x.1, set_part comp x.2 s).

(** ** Routes

    [rt_cors] is the filter that wraps the whole route; [rt_call] is what follows
    the authorisation: the filters of the route, which may reject, then the handler
    with what the environment decides in [E].  The headers that the wrapper adds to
    the replies are left out. *)
Record Route (E S : Type) := mkRoute {
  rt_path : string;
  rt_method : Method;
  rt_cors : CorsBuilder;
  rt_call : E → Request → string → Rejection + (S → outcome (ApiResult * S));
}.
#[local] Arguments rt_path {E S}. #[local] Arguments rt_method {E S}.
#[local] Arguments rt_cors {E S}. #[local] Arguments rt_call {E S}.

Section routes.
Context {E S : Type} (api_keys : ApiKeys) (routes_pow : RoutesPoWInfo).

Definition run_route (e : E) (rq : Request) (cache : ReplyCache) (s : S) (rt : Route E S) :
    outcome (Rejection + JsonReply * ReplyCache * S) :=
  match cors_check (rt_cors rt) rq with
  | CorsRefused => Ret (inl CorsForbidden)
  | CorsPreflight => Ret (inr (preflight_reply, cache, s))
  | CorsPass =>
      if negb (warp_path_matches (rt_path rt) (rq_path rq)) then Ret (inl NotFound)
      else if negb (bool_decide (rq_method rq = rt_method rt)) then Ret (inl MethodNotAllowed)
      else
        let! auth := auth_request routes_pow api_keys rq in
        match auth with
        | inl err => Ret (inl (CustomError err))
        | inr call_id =>
            match rt_call rt e rq call_id with
            | inl rejection => Ret (inl rejection)
            | inr handler => let! x := map_api_res_and_cache call_id cache handler s in Ret (inr x)
            end
        end
  end.

(** [a.or(b)]: the next route is tried when one rejects. *)
Fixpoint run_routes (e : E) (rq : Request) (cache : ReplyCache) (s : S) (routes : list (Route E S)) (rejected : list Rejection) :
    outcome (list Rejection + JsonReply * ReplyCache * S) :=
  match routes with
  | [] => Ret (inl rejected)
  | rt :: routes =>
      let! r := run_route e rq cache s rt in
      match r with
      | inl rejection => run_routes e rq cache s routes (rejected ++ [rejection])
      | inr x => Ret (inr x)
      end
  end.

Definition serve (routes : list (Route E S)) (e : E) (rq : Request) (cache : ReplyCache) (s : S) :
    outcome (JsonReply * ReplyCache * S) :=
  let! r := run_routes e rq cache s routes [] in
  Ret (match r with
       | inl rejected => (handle_rejection rejected, cache, s)
       | inr x => x
       end).
End routes.
End serve.
Arguments mkComponent {S A}. Arguments part {S A}. Arguments set_part {S A}.
Arguments mkRoute {E S}. Arguments rt_path {E S}. Arguments rt_method {E S}.
Arguments rt_cors {E S}. Arguments rt_call {E S}.
Arguments with_node_component {S A} comp handler s.

(** The laws of a handle. *)
Class ComponentLaws {S A : Type} (c : Component S A) : Prop := {
  part_set a s : part c (set_part c a s) = a;
  set_part_part s : set_part c (part c s) s = s;
}.
Definition both {S A B : Type} (c1 : Component S A) (c2 : Component S B) : Component S (A * B) :=
  mkComponent (λ s, (part c1 s, part c2 s)) (λ x s, set_part c2 x.2 (set_part c1 x.1 s)).
Definition whole {S : Type} : Component S S := mkComponent (λ s, s) (λ s _, s).

(** ** Replies of errors and the envelope of a reply *)
Section replies.
Context `{SerdeJson string}.

Lemma common_reply_code id st reason route content : status_code (common_reply id st reason route content) = StatusCode.OK.
Proof. reflexivity. Qed.

Lemma result_ok_code r reason data : status_code (result_reply (into_ok r reason data)) = StatusCode.OK.
Proof. reflexivity. Qed.

Lemma result_err_code r st e data : status_code (result_reply (into_err_with_data r st e data)) = st.
Proof. reflexivity. Qed.
End replies.

(** ** Paths *)
Fixpoint no_slash (s : string) : bool :=
  match s with
  | EmptyString => true
  | String c s => negb (Ascii.eqb c "/"%char) && no_slash s
  end.

Lemma no_slash_app s t : no_slash (s +:+ t) = no_slash s && no_slash t.
Proof. induction s as [|c s IH]; [done|]. cbn [no_slash]. change (String c s +:+ t) with (String c (s +:+ t)). cbn [no_slash]. by rewrite IH, andb_assoc. Qed.

(** A path whose first segment is [p]. *)
Definition first_segment (p path : string) : Prop :=
  path = "/" +:+ p ∨ ∃ rest, path = "/" +:+ p +:+ "/" +:+ rest.

Lemma segment_unique q p rest rest' : no_slash p = true → no_slash q = true →
  q +:+ "/" +:+ rest = p +:+ "/" +:+ rest' → q = p.
Proof.
  revert p. induction q as [|c q IH]; intros [|d p]; cbn; rewrite ?andb_true_iff; [done| | |].
  - intros [Hd _] _ [= <- _]. done.
  - intros _ [Hc _] [= -> _]. done.
  - intros [_ Hp] [_ Hq] [= -> E]. f_equal. by apply IH.
Qed.

Section paths.
Context `{Warp, !WarpLaws}.

Lemma matches_first_segment p path : first_segment p path → warp_path_matches p path = true.
Proof. intros [->|[rest ->]]; [apply path_matches_exact|apply path_matches_more]. Qed.

Lemma matches_only_first p q path : no_slash p = true → no_slash q = true → first_segment p path →
  warp_path_matches q path = true → q = p.
Proof.
  intros Hp Hq [->|[rest ->]] M; apply path_matches_segment in M; destruct M as [E|[rest' E]].
  - done.
  - subst. rewrite !no_slash_app in Hp. by rewrite andb_false_r in Hp.
  - subst. rewrite !no_slash_app in Hq. by rewrite andb_false_r in Hq.
  - symmetry in E. by eapply segment_unique.
Qed.
End paths.

(** ** Authorisation *)
Section auth_spec.
Context `{Naom}.

(** Enough leading zeros in the hash of the nonce and the id. *)
Definition pow_done (d : nat) (nonce id : string) : Prop :=
  let hash := sha3_256 (string_codes (nonce +:+ "-" +:+ id)) in
  (d <= length hash)%nat ∧ Forall (λ v, v = 0) (take d hash).

Lemma validate_pow_for_diff_spec d l :
  (∃ h, validate_pow_for_diff d l = Ret (Some h)) ↔
  (d <= length (sha3_256 l))%nat ∧ Forall (λ v, v = 0) (take d (sha3_256 l)).
Proof.
  unfold validate_pow_for_diff. case_decide as D; [split; [by intros [h ?]|intros [? _]; lia]|].
  destruct (forallb _ _) eqn:F.
  - split; [|eauto]. intros _. split; [lia|]. rewrite forallb_forall in F. apply Forall_forall. intros x Hx. apply Z.eqb_eq, F. by apply list_elem_of_In.
  - split; [by intros [h ?]|]. intros [_ F']. exfalso. apply not_true_iff_false in F. apply F, forallb_forall.
    intros x Hx. apply Z.eqb_eq. rewrite Forall_forall in F'. apply F'. by apply list_elem_of_In.
Qed.

(** A request is authorised, under the id it carries, exactly when the id has 32 characters, the
    key is one of those of the route if the route has keys, and the hash of the nonce and the id starts
    with as many zeros as the route asks for. *)
Theorem auth_request_iff routes_pow api_keys rq c route id : rq_path rq = String c route →
  auth_request routes_pow api_keys rq = Ret (inr id) ↔
  id = header_text rq "x-request-id" ∧ String.length id = 32%nat ∧
  (∀ keys, api_keys !! route = Some keys → header_text rq "x-api-key" ∈ keys) ∧
  (∀ d, routes_pow !! route = Some d → pow_done d (header_text rq "x-nonce") id).
Proof.
  intros E. unfold auth_request. rewrite E. set (hid := header_text rq "x-request-id").
  destruct (Nat.eqb_spec (String.length hid) 32) as [L|L]; cbn [negb]; [|naive_solver].
  destruct (api_keys !! route) as [keys|] eqn:K.
  1: destruct (bool_decide_reflect (header_text rq "x-api-key" ∈ keys)) as [M|M]; cbn [negb];
    [|split; [done|intros (_ & _ & Hk & _); by destruct M; apply Hk]].
  all: destruct (routes_pow !! route) as [d|] eqn:P; [|by naive_solver].
  all: pose proof (validate_pow_for_diff_spec d (string_codes (header_text rq "x-nonce" +:+ "-" +:+ hid))) as V.
  all: split.
  1, 3: destruct (validate_pow_for_diff d _) as [[h|]|] eqn:Ev; cbn; try done; intros [= <-];
    (split; [done|]; split; [done|]; split; [naive_solver|]; intros ? [= <-]; apply V; eauto).
  all: intros (-> & _ & _ & Hd); specialize (Hd d eq_refl); apply V in Hd as [h ->]; done.
Qed.

(** A path without its first character. *)
Definition drop_first (s : string) : string := match s with EmptyString => EmptyString | String _ s => s end.

Lemma auth_request_err routes_pow api_keys rq err : auth_request routes_pow api_keys rq = Ret (inl err) →
  code err = StatusCode.UNAUTHORIZED ∧ message err = ApiErrorType.Unauthorized ∧
  err_id err = header_text rq "x-request-id" ∧ err_route err = drop_first (rq_path rq).
Proof.
  unfold auth_request. destruct (rq_path rq) as [|c route]; [done|]. cbn [drop_first].
  destruct (negb _); [by intros [= <-]|]. destruct (match _ with Some _ => _ | None => _ end); [by intros [= <-]|].
  destruct (routes_pow !! route); [|done]. destruct (validate_pow_for_diff _ _) as [[?|]|]; cbn; try done. by intros [= <-].
Qed.

Lemma auth_request_id routes_pow api_keys rq id : auth_request routes_pow api_keys rq = Ret (inr id) → id ≠ EmptyString.
Proof.
  destruct (rq_path rq) as [|c route] eqn:E; [unfold auth_request; by rewrite E|].
  intros A. eapply auth_request_iff in A; [|done]. destruct A as (_ & L & _). by intros ->.
Qed.
End auth_spec.

(** ** Serving a request *)
Section serving.
Context `{Naom, Warp, !WarpLaws, SerdeJson string}.
Context {E S : Type} (api_keys : ApiKeys) (routes_pow : RoutesPoWInfo).
Implicit Types (routes : list (Route E S)) (rt : Route E S) (cache : ReplyCache) (s : S).

Notation run_route := (run_route api_keys routes_pow).
Notation run_routes := (run_routes api_keys routes_pow).
Notation serve := (serve api_keys routes_pow).

(** The route that a request to [p] is meant for. *)
Definition route_of routes (p : string) (m : Method) : option (Route E S) :=
  List.find (λ rt, String.eqb (rt_path rt) p && bool_decide (m = rt_method rt)) routes.
Definition routes_ok routes : bool :=
  forallb (λ rt, no_slash (rt_path rt) && allow_any_origin (rt_cors rt) && negb (bool_decide (rt_method rt = OPTIONS))) routes.
(** A request that is not a preflight. *)
Definition no_preflight (rq : Request) : Prop := rq_method rq ≠ OPTIONS ∨ rq_headers rq !! "origin"%string = None.

Lemma routes_ok_spec routes : routes_ok routes = true ↔
  Forall (λ rt, no_slash (rt_path rt) = true ∧ allow_any_origin (rt_cors rt) = true ∧ rt_method rt ≠ OPTIONS) routes.
Proof.
  unfold routes_ok. rewrite forallb_forall, Forall_forall. setoid_rewrite list_elem_of_In.
  split; intros F rt Hrt; specialize (F rt Hrt).
  - apply andb_true_iff in F as [[F1 F2]%andb_true_iff F3]. split_and!; [done..|]. intros E'. by rewrite bool_decide_true in F3.
  - destruct F as (-> & -> & F). by rewrite bool_decide_false.
Qed.

Lemma route_of_path routes p m rt : route_of routes p m = Some rt → rt_path rt = p ∧ rt_method rt = m.
Proof.
  intros F. apply List.find_some in F as [_ F]. apply andb_true_iff in F as [F1 F2].
  apply bool_decide_eq_true in F2. by apply String.eqb_eq in F1.
Qed.

(** Only the route that is meant looks further than the path and the method. *)
Lemma run_route_other e rq cache s rt p : no_slash p = true → no_slash (rt_path rt) = true → first_segment p (rq_path rq) →
  allow_any_origin (rt_cors rt) = true → no_preflight rq →
  String.eqb (rt_path rt) p && bool_decide (rq_method rq = rt_method rt) = false →
  run_route e rq cache s rt = Ret (inl NotFound) ∨ run_route e rq cache s rt = Ret (inl MethodNotAllowed).
Proof.
  intros Hp Hr F Ho Hn N. unfold Api.run_route. rewrite cors_goes_on by done.
  destruct (warp_path_matches _ _) eqn:M; cbn [negb]; [|by left].
  apply (matches_only_first p) in M; try done. subst. rewrite String.eqb_refl in N. cbn in N. rewrite N. by right.
Qed.

Lemma run_routes_to routes e rq cache s rej p rt : routes_ok routes = true → no_slash p = true → first_segment p (rq_path rq) →
  route_of routes p (rq_method rq) = Some rt → no_preflight rq →
  ∀ m, run_route e rq cache s rt = (let! x := m in Ret (inr x)) → run_routes e rq cache s routes rej = let! x := m in Ret (inr x).
Proof.
  intros R Hp F Ro Hn m Hx. revert rej R Ro. induction routes as [|rt' routes IH]; intros rej R Ro; [done|].
  apply routes_ok_spec, Forall_cons in R as [(R1 & R3 & _) R2%routes_ok_spec]. unfold route_of in Ro. cbn [List.find] in Ro. cbn [Api.run_routes].
  destruct (String.eqb _ _ && _) eqn:M.
  - injection Ro as ->. rewrite Hx. by destruct m.
  - destruct (run_route_other e rq cache s rt' p) as [-> | ->]; try done; cbn; by apply IH.
Qed.

Lemma run_route_to e rq cache s rt p id h : first_segment p (rq_path rq) → rt_path rt = p → rt_method rt = rq_method rq →
  allow_any_origin (rt_cors rt) = true → no_preflight rq →
  auth_request routes_pow api_keys rq = Ret (inr id) → rt_call rt e rq id = inr h →
  run_route e rq cache s rt = let! x := map_api_res_and_cache id cache h s in Ret (inr x).
Proof.
  intros F Hp Hm Ho Hn A C. unfold Api.run_route. rewrite cors_goes_on by done. rewrite Hp, (matches_first_segment p) by done. cbn [negb].
  rewrite Hm, bool_decide_true by done. cbn [negb]. rewrite A. cbn. by rewrite C.
Qed.

(** A request that reaches the handler [h] of a route, under the id [id]. *)
Record accepted routes (e : E) (rq : Request) (id : string) (h : S → outcome (ApiResult * S)) : Prop := {
  acc_ok : routes_ok routes = true;
  acc_route : ∃ p rt, no_slash p = true ∧ first_segment p (rq_path rq) ∧ route_of routes p (rq_method rq) = Some rt ∧
    rt_call rt e rq id = inr h;
  acc_auth : auth_request routes_pow api_keys rq = Ret (inr id);
}.

(** A request for exactly the path of a route, with what it asks for. *)
Definition asks (rq : Request) (m : Method) (p id : string) : Prop :=
  rq_method rq = m ∧ rq_path rq = "/" +:+ p ∧ auth_request routes_pow api_keys rq = Ret (inr id).

Lemma asked_accepted routes e rq m p id rt h : routes_ok routes = true → no_slash p = true → asks rq m p id →
  route_of routes p m = Some rt → rt_call rt e rq id = inr h → accepted routes e rq id h.
Proof.
  intros R Np (<- & P & A) Ro C. split; [done| |done]. exists p, rt. split_and!; try done. by left.
Qed.

Lemma route_of_elem routes p m rt : route_of routes p m = Some rt → rt ∈ routes.
Proof. intros F. apply List.find_some in F as [F _]. by apply list_elem_of_In. Qed.

Lemma serve_accepted routes e rq cache s id h : accepted routes e rq id h →
  serve routes e rq cache s = map_api_res_and_cache id cache h s.
Proof.
  intros [R (p & rt & Hp & F & Ro & C) A]. unfold Api.serve.
  destruct (route_of_path _ _ _ _ Ro) as [P Me].
  pose proof R as R'. apply routes_ok_spec in R'. rewrite Forall_forall in R'.
  destruct (R' rt (route_of_elem _ _ _ _ Ro)) as (_ & Ho & Hop). assert (Hn : no_preflight rq) by (left; by rewrite <-Me).
  rewrite (run_routes_to routes e rq cache s [] p rt R Hp F Ro Hn (map_api_res_and_cache id cache h s)).
  - by destruct (map_api_res_and_cache _ _ _ _) as [x|].
  - by apply (run_route_to e rq cache s rt p id h).
Qed.

Lemma serve_cached routes e rq cache s id h v : accepted routes e rq id h → cache !! id = Some v →
  serve routes e rq cache s = Ret (result_reply v, cache, s).
Proof.
  intros A C. rewrite (serve_accepted _ _ _ _ _ _ _ A).
  unfold map_api_res_and_cache, get_or_insert_cache_value, get_cache_value. by rewrite C.
Qed.

Lemma serve_fresh routes e rq cache s id h r s' : accepted routes e rq id h → cache !! id = None → h s = Ret (r, s') →
  serve routes e rq cache s = Ret (result_reply r, <[id := r]> cache, s').
Proof.
  intros A C Hh. rewrite (serve_accepted _ _ _ _ _ _ _ A).
  unfold map_api_res_and_cache, get_or_insert_cache_value, get_cache_value. rewrite C, Hh. cbn.
  destruct (String.eqb_spec id EmptyString) as [->|]; [|done].
  destruct A as [_ _ A]. by apply auth_request_id in A.
Qed.

(** What becomes of a request that is not authorised at each route, and in all. *)
Definition takes (rq : Request) rt : bool := warp_path_matches (rt_path rt) (rq_path rq).
Definition other_method (rq : Request) rt : bool := takes rq rt && negb (bool_decide (rq_method rq = rt_method rt)).
Definition refused (rq : Request) (err : ApiError) rt : Rejection :=
  match cors_check (rt_cors rt) rq with
  | CorsPass => if takes rq rt then if other_method rq rt then MethodNotAllowed else CustomError err else NotFound
  | _ => CorsForbidden
  end.
Definition is_preflight (rq : Request) rt : bool :=
  match cors_check (rt_cors rt) rq with CorsPreflight => true | _ => false end.

Lemma run_routes_refused routes e rq cache s err rej : auth_request routes_pow api_keys rq = Ret (inl err) →
  run_routes e rq cache s routes rej =
    Ret (if existsb (is_preflight rq) routes then inr (preflight_reply, cache, s) else inl (rej ++ map (refused rq err) routes)).
Proof.
  intros A. revert rej. induction routes as [|rt l IH]; intros rej; cbn [Api.run_routes map existsb]; [by rewrite app_nil_r|].
  assert (run_route e rq cache s rt = Ret (if is_preflight rq rt then inr (preflight_reply, cache, s) else inl (refused rq err rt))) as ->.
  { unfold Api.run_route, is_preflight, refused, other_method, takes. destruct (cors_check _ _); [|done..].
    destruct (warp_path_matches _ _); cbn [negb andb]; [|done]. case_bool_decide; cbn [negb]; [|done]. by rewrite A. }
  cbn [obind]. destruct (is_preflight rq rt); cbn [orb]; [done|]. rewrite IH, <-app_assoc. done.
Qed.

Lemma handle_refused routes rq err : Forall (λ rt, cors_check (rt_cors rt) rq = CorsPass) routes →
  handle_rejection (map (refused rq err) routes) =
    handle_rejection [if existsb (takes rq) routes
                      then if existsb (other_method rq) routes then MethodNotAllowed else CustomError err else NotFound].
Proof.
  intros F.
  assert (Hr : ∀ rt, rt ∈ routes → refused rq err rt =
    if takes rq rt then if other_method rq rt then MethodNotAllowed else CustomError err else NotFound).
  { intros rt Hrt. unfold refused. rewrite Forall_forall in F. by rewrite F. }
  clear F. unfold handle_rejection.
  assert (is_not_found (map (refused rq err) routes) = negb (existsb (takes rq) routes) ∧
    find_deserialize_error (map (refused rq err) routes) = false ∧
    find_method_not_allowed (map (refused rq err) routes) = existsb (other_method rq) routes ∧
    (existsb (other_method rq) routes = false →
     find_api_error (map (refused rq err) routes) = if existsb (takes rq) routes then Some err else None)) as (-> & -> & -> & E4).
  { induction routes as [|rt l IH]; [done|]. destruct IH as (I1 & I2 & I3 & I4); [intros rt' Hrt'; apply Hr; by right|].
    unfold find_api_error in *. cbn [map is_not_found find_deserialize_error find_method_not_allowed omap list_omap forallb existsb].
    rewrite (Hr rt) by left. unfold is_not_found, find_deserialize_error, find_method_not_allowed in *. rewrite I1, I2, I3.
    assert (O : takes rq rt = false → other_method rq rt = false) by (unfold other_method; by intros ->).
    destruct (takes rq rt); [destruct (other_method rq rt)|rewrite O by done]; by split_and!. }
  destruct (existsb (takes rq) routes); cbn [negb]; [|done].
  destruct (existsb (other_method rq) routes); [done|]. by rewrite E4.
Qed.

(** C32: a request that is not authorised changes neither the node nor the cache,
    whatever it asks for.  The preflight of a browser, which carries no key, is
    answered by the first route whose methods and headers allow what it announces.
    Every other request, and an OPTIONS request that names no origin, gets 404
    exactly when no route takes its path, 405 exactly when some route that takes
    it is for another method, and otherwise 401, with the id and the path of the
    request. *)
Theorem unauthorized_no_effect routes e rq cache s err : auth_request routes_pow api_keys rq = Ret (inl err) →
  ∃ reply, serve routes e rq cache s = Ret (reply, cache, s) ∧
    (existsb (is_preflight rq) routes = true → reply = preflight_reply) ∧
    (routes_ok routes = true → rq_method rq ≠ OPTIONS ∨ rq_headers rq !! "origin"%string = None →
      existsb (is_preflight rq) routes = false ∧
      status_code reply =
        (if existsb (takes rq) routes
         then if existsb (other_method rq) routes then StatusCode.METHOD_NOT_ALLOWED else StatusCode.UNAUTHORIZED
         else StatusCode.NOT_FOUND) ∧
      (status_code reply = StatusCode.UNAUTHORIZED → reply = common_error_reply StatusCode.UNAUTHORIZED
         ApiErrorType.Unauthorized (header_text rq "x-request-id") (drop_first (rq_path rq)) (json_serialize_embed "null"%string))).
Proof.
  intros A. destruct (auth_request_err _ _ _ _ A) as (Ce & Me & Ie & Re).
  unfold Api.serve. rewrite (run_routes_refused _ _ _ _ _ err [] A). cbn [obind app].
  destruct (existsb (is_preflight rq) routes) eqn:P.
  - eexists. split; [done|]. split; [done|]. intros R%routes_ok_spec N. exfalso.
    apply existsb_exists in P as (rt & Hrt%list_elem_of_In & P). rewrite Forall_forall in R. destruct (R rt Hrt) as (_ & Ho & _).
    unfold is_preflight in P. by rewrite cors_goes_on in P.
  - eexists. split; [done|]. split; [done|]. intros R%routes_ok_spec N. split; [done|]. rewrite handle_refused.
    2:{ eapply Forall_impl; [exact R|]. intros rt (_ & Ho & _). by apply cors_goes_on. }
    destruct (existsb (takes rq) routes); [|by split]. destruct (existsb (other_method rq) routes); [by split|].
    change (handle_rejection [CustomError err]) with
      (common_error_reply (code err) (message err) (err_id err) (err_route err) (json_serialize_embed "null"%string)).
    by rewrite Ce, Me, Ie, Re.
Qed.

Lemma lookup_expire gone cache id : id ∉ gone → expire gone cache !! id = cache !! id.
Proof.
  intros N. unfold expire. rewrite map_lookup_filter. destruct (cache !! id); [|done]. cbn. by rewrite option_guard_True.
Qed.

(** The id of a call is a guard: once a call is answered, a call with the same id gets the same reply
    and leaves the node as it is, for as long as the reply has not expired, whatever route it is for and
    whatever it asks. *)
Theorem repeated_call_no_effect routes e rq cache s id h reply cache1 s1 e2 rq2 h2 s2 gone :
  accepted routes e rq id h → serve routes e rq cache s = Ret (reply, cache1, s1) →
  accepted routes e2 rq2 id h2 → id ∉ gone →
  serve routes e2 rq2 (expire gone cache1) s2 = Ret (reply, expire gone cache1, s2).
Proof.
  intros A1 S1 A2 N.
  assert (∃ v, cache1 !! id = Some v ∧ reply = result_reply v) as (v & C1 & ->).
  { destruct (cache !! id) as [v|] eqn:C.
    - erewrite serve_cached in S1 by done. injection S1 as <- <- <-. eauto.
    - destruct (h s) as [[r s']|] eqn:Hh.
      + erewrite serve_fresh in S1 by done. injection S1 as <- <- <-. rewrite lookup_insert_eq. eauto.
      + rewrite (serve_accepted _ _ _ _ _ _ _ A1) in S1.
        unfold map_api_res_and_cache, get_or_insert_cache_value, get_cache_value in S1. by rewrite C, Hh in S1. }
  eapply serve_cached; [done|]. by rewrite lookup_expire.
Qed.

(** C33: the keys and the proof of work of a route are looked up under the whole path, but the route takes
    every path that begins with its name: with one more segment, or only a final slash, the request is
    served without the key and the proof of work that the route asks for. *)
Theorem longer_path_not_protected routes e rq cache s p rest rt h : routes_ok routes = true → no_slash p = true →
  rq_path rq = "/" +:+ p +:+ "/" +:+ rest → route_of routes p (rq_method rq) = Some rt →
  String.length (header_text rq "x-request-id") = 32%nat →
  api_keys !! (p +:+ "/" +:+ rest) = None → routes_pow !! (p +:+ "/" +:+ rest) = None →
  rt_call rt e rq (header_text rq "x-request-id") = inr h →
  serve routes e rq cache s = map_api_res_and_cache (header_text rq "x-request-id") cache h s.
Proof.
  intros R Hp P Ro L K D C. apply (serve_accepted routes e). split; [done| |].
  - exists p, rt. split_and!; try done. right. by exists rest.
  - eapply auth_request_iff; [exact P|]. rewrite K, D. naive_solver.
Qed.
End serving.

(** ** Overlapping calls

    The lookup in the cache, the handler and the insertion are separate steps;
    two calls may interleave between them. *)
Section overlap.
Context {S : Type}.
Inductive Phase := Looking | Running | Inserting (r : ApiResult) | Answered (r : ApiResult).
Record Call := mkCall { cl_id : string; cl_handler : S → outcome (ApiResult * S); cl_phase : Phase }.
Record CallState := mkCallState { cs_cache : ReplyCache; cs_node : S; cs_calls : list Call }.
Definition at_phase (c : Call) (p : Phase) : Call := mkCall (cl_id c) (cl_handler c) p.

Inductive call_step : CallState → CallState → Prop :=
  | step_hit cache s l i c r : l !! i = Some c → cl_phase c = Looking → get_cache_value (cl_id c) cache = Some r →
      call_step (mkCallState cache s l) (mkCallState cache s (<[i := at_phase c (Answered r)]> l))
  | step_miss cache s l i c : l !! i = Some c → cl_phase c = Looking → get_cache_value (cl_id c) cache = None →
      call_step (mkCallState cache s l) (mkCallState cache s (<[i := at_phase c Running]> l))
  | step_run cache s l i c r s' : l !! i = Some c → cl_phase c = Running → cl_handler c s = Ret (r, s') →
      call_step (mkCallState cache s l) (mkCallState cache s' (<[i := at_phase c (Inserting r)]> l))
  | step_insert cache s l i c r : l !! i = Some c → cl_phase c = Inserting r →
      call_step (mkCallState cache s l)
        (mkCallState (insert_cache_value (cl_id c) r cache).2 s (<[i := at_phase c (Answered r)]> l)).

(** One call alone takes the steps of [get_or_insert_cache_value]. *)
Lemma call_alone id cache (h : S → outcome (ApiResult * S)) s r cache' s' :
  get_or_insert_cache_value id cache h s = Ret (r, cache', s') →
  rtc call_step (mkCallState cache s [mkCall id h Looking]) (mkCallState cache' s' [mkCall id h (Answered r)]).
Proof.
  unfold get_or_insert_cache_value. destruct (get_cache_value id cache) as [v|] eqn:C.
  - intros [= <- <- <-]. eapply rtc_l; [by apply (step_hit _ _ _ 0 (mkCall id h Looking) v)|]. apply rtc_refl.
  - destruct (h s) as [[r1 s1]|] eqn:Hh; cbn; [|done]. intros [= <- <- <-].
    eapply rtc_l; [by apply (step_miss _ _ _ 0 (mkCall id h Looking))|].
    eapply rtc_l; [by apply (step_run _ _ _ 0 (mkCall id h Running) r1 s1)|].
    eapply rtc_l; [by apply (step_insert _ _ _ 0 (mkCall id h (Inserting r1)) r1)|]. apply rtc_refl.
Qed.

(** Two overlapping calls with the same id both run their handler. *)
Theorem overlapping_calls_both_run id cache (h1 h2 : S → outcome (ApiResult * S)) s r1 s1 r2 s2 : cache !! id = None →
  h1 s = Ret (r1, s1) → h2 s1 = Ret (r2, s2) →
  ∃ cache', rtc call_step (mkCallState cache s [mkCall id h1 Looking; mkCall id h2 Looking])
    (mkCallState cache' s2 [mkCall id h1 (Answered r1); mkCall id h2 (Answered r2)]).
Proof.
  intros C H1 H2. eexists.
  eapply rtc_l; [by apply (step_miss _ _ _ 0 (mkCall id h1 Looking))|].
  eapply rtc_l; [by apply (step_miss _ _ _ 1 (mkCall id h2 Looking))|].
  eapply rtc_l; [by apply (step_run _ _ _ 0 (mkCall id h1 Running) r1 s1)|].
  eapply rtc_l; [by apply (step_run _ _ _ 1 (mkCall id h2 Running) r2 s2)|].
  eapply rtc_l; [by apply (step_insert _ _ _ 0 (mkCall id h1 (Inserting r1)) r1)|].
  eapply rtc_l; [by apply (step_insert _ _ _ 1 (mkCall id h2 (Inserting r2)) r2)|]. apply rtc_refl.
Qed.
End overlap.

(** ** Concrete functions at which the witnesses are evaluated *)
Module ApiExamples.
Fixpoint seg_matches (p q : string) : bool :=
  match p, q with
  | EmptyString, EmptyString => true
  | EmptyString, String c _ => Ascii.eqb c "/"%char
  | String a p, String b q => Ascii.eqb a b && seg_matches p q
  | String _ _, EmptyString => false
  end.
Fixpoint until_slash (q : string) : string :=
  match q with
  | EmptyString => EmptyString
  | String c q => if Ascii.eqb c "/"%char then EmptyString else String c (until_slash q)
  end.
Fixpoint after_slash (q : string) : option string :=
  match q with
  | EmptyString => None
  | String c q => if Ascii.eqb c "/"%char then Some q else after_slash q
  end.

#[global] Instance warp : Warp := {|
  warp_path_matches p path := match path with String c q => Ascii.eqb c "/"%char && seg_matches p q | EmptyString => false end;
  warp_param path :=
    rest ← after_slash path ≫= after_slash;
    match until_slash rest with EmptyString => None | seg => Some seg end;
  cors_check b rq :=
    match rq_headers rq !! "origin"%string, rq_method rq with
    | Some _, OPTIONS =>
        match rq_headers rq !! "access-control-request-method"%string with
        | Some m => if allow_any_origin b && bool_decide (m ∈ allow_methods b) then CorsPreflight else CorsRefused
        | None => CorsRefused
        end
    | Some _, _ => if allow_any_origin b then CorsPass else CorsRefused
    | None, _ => CorsPass
    end;
  preflight_reply := JsonReply_new [];
  rejection_debug l := "rejected";
|}.

Lemma seg_matches_spec p q : seg_matches p q = true ↔ q = p ∨ ∃ rest, q = p +:+ "/" +:+ rest.
Proof.
  revert q. induction p as [|a p IH]; intros [|b q]; cbn.
  - naive_solver.
  - rewrite Ascii.eqb_eq. split; [intros ->; right; by exists q|]. intros [?|[rest [= -> ->]]]; done.
  - split; [done|]. intros [?|[rest ?]]; done.
  - rewrite andb_true_iff, Ascii.eqb_eq, IH. split.
    + intros [-> [->|[rest ->]]]; [by left|right; by exists rest].
    + intros [[= -> ->]|[rest [= -> ->]]]; split; eauto.
Qed.

#[global] Instance warp_laws : WarpLaws.
Proof.
  split.
  - intros p. cbn. apply seg_matches_spec. by left.
  - intros p rest. cbn. apply seg_matches_spec. right. by exists rest.
  - intros p q M. cbn in M. by apply seg_matches_spec.
  - intros b rq Ho Hn. cbn. rewrite Ho. destruct (rq_headers rq !! _); [|done]. by destruct Hn, (rq_method rq).
Qed.

#[global] Instance json_string : SerdeJson string := {| to_json s := quoted (string_codes s) |}.
#[global] Instance json_codes : SerdeJson (list Z) := {| to_json l := QUOTE ++ l ++ QUOTE |}.

(** An id of 32 characters. *)
Definition id32 : string := "0123456789abcdef0123456789abcdef".
Definition id32' : string := "fedcba98765432100123456789abcdef".
Definition request (m : Method) (path : string) (headers : gmap string string) (body : list Z) : Request := mkRequest m path headers body.
End ApiExamples.
