(* ===== verification/ApiNode.v ===== *)
(** * Routes that every node has: [src/api/handlers.rs], [src/api/routes.rs]

    The debug data of a node and the construction of an address, and the list of
    the routes of a node.  A route holds handles ([Component]) on the parts of the
    node's state; [E] is what the environment decides within a call. *)
From S2P Require Import Prelude Externals Utils Interfaces Comms Wallet Api.

Record DebugData := mkDebugData {
  dd_node_type : string; dd_node_api : list string; dd_node_peers : list (string * SocketAddr * string);
  dd_routes_pow : gmap string nat }.

Record AddressConstructData := mkAddressConstructData {
  ac_pub_key : option (list Z); ac_pub_key_hex : option string; ac_version : option Z }.

(** The addresses that a client asks about. *)
Record PublicKeyAddresses := mkPublicKeyAddresses { pk_address_list : list string }.

Section api_node.
Context `{CommsCrates, Ipv6Display, NaomReceipts, NaomCrypto}.
Context `{SerdeJson string, SerdeJson DebugData, WarpJson AddressConstructData}.
Context {E S : Type}.
Notation Node := (Node TlsCertificate).

Definition get_debug_data (debug_paths : DbgPaths) (node : Node) (aux_node : option Node) (route call_id : string)
    (routes_pow : RoutesPoWInfo) : ApiResult :=
  let r := mkCallResponse route call_id in
  let node_type := node_type_as_str (Comms.node_type node) in
  let node_peers := get_peer_list node in
  let data :=
    match aux_node with
    | Some aux =>
        let aux_type := node_type_as_str (Comms.node_type aux) in
        let aux_peers := get_peer_list aux in
        mkDebugData (node_type +:+ "/" +:+ aux_type) debug_paths (node_peers ++ aux_peers) routes_pow
    | None => mkDebugData node_type debug_paths node_peers routes_pow
    end in
  into_ok r "Debug data successfully retrieved" (json_serialize_embed data).

Definition post_payment_address_construction (data : AddressConstructData) (route call_id : string) : ApiResult :=
  let r := mkCallResponse route call_id in
  let pub_key := match ac_pub_key data with Some k => Some k | None => ac_pub_key_hex data ≫= hex_decode end in
  let pub_key := pub_key ≫= λ k, match k with [] => None | _ => Some k end in
  let pub_key := pub_key ≫= public_key_from_slice in
  match pub_key with
  | Some pub_key =>
      into_ok r "Address successfully constructed" (json_serialize_embed (construct_address_for pub_key (ac_version data)))
  | None => into_ok r "Address successfully constructed" (json_serialize_embed "null"%string)
  end.

(** A handler that only reads. *)
Definition reply (res : S → ApiResult) (s : S) : outcome (ApiResult * S) := Ret (res s, s).

Definition debug_data (dp : DbgPaths) (node : Component S Node) (aux_node : option (Component S Node))
    (routes_pow : RoutesPoWInfo) : Route E S :=
  let route := "debug_data"%string in
  let dp := warp_path dp route in
  mkRoute route GET get_cors (λ _ _ call_id, inr (reply (λ s,
    get_debug_data dp (part node s) ((λ c, part c s) <$> aux_node) route call_id routes_pow))).

Definition address_construction : Route E S :=
  let route := "address_construction"%string in
  mkRoute route POST post_cors (λ _ rq call_id, match body_json rq with
    | inl rejection => inl rejection
    | inr info => inr (reply (λ _, post_payment_address_construction info route call_id))
    end).

(** Every route adds its name to the paths that the last one shows. *)
Definition with_debug_data (routes : list (Route E S)) (node : Component S Node) (aux_node : option (Component S Node))
    (routes_pow : RoutesPoWInfo) : list (Route E S) :=
  let dp := foldl (λ dp rt, warp_path dp (rt_path rt)) [] routes in
  routes ++ [debug_data dp node aux_node routes_pow].

(** An address is only constructed from a key, and a request without a usable key is still a success. *)
Lemma address_construction_spec data route call_id :
  post_payment_address_construction data route call_id =
  into_ok (mkCallResponse route call_id) "Address successfully constructed"
    (json_serialize_embed (default "null"%string
      (k ← (match ac_pub_key data with Some k => Some k | None => ac_pub_key_hex data ≫= hex_decode end);
       k ← guard (k ≠ []);; public_key_from_slice k; Some (construct_address_for k (ac_version data))))).
Proof.
  unfold post_payment_address_construction.
  destruct (match ac_pub_key data with Some k => Some k | None => _ end) as [[|z k]|]; cbn; [done| |done].
  by destruct (public_key_from_slice (z :: k)).
Qed.

Lemma with_debug_data_ok routes node aux pow : routes_ok routes = true → routes_ok (with_debug_data routes node aux pow) = true.
Proof. intros R. unfold with_debug_data, routes_ok. rewrite forallb_app. unfold routes_ok in R. by rewrite R. Qed.

Lemma with_debug_data_route routes node aux pow p m rt : route_of routes p m = Some rt →
  route_of (with_debug_data routes node aux pow) p m = Some rt.
Proof.
  unfold with_debug_data, route_of. set (dbg := debug_data _ _ _ _). clearbody dbg.
  induction routes as [|rt' l IH]; [done|]. cbn. destruct (_ && _); [done|exact IH].
Qed.
End api_node.
