(* ===== verification/ApiStorage.v ===== *)
(** * The HTTP interface of a storage node: [src/api/handlers.rs], [src/api/routes.rs]

    The block chain is read by key, by number and by the hashes of
    transactions; nothing is written.  The theorems say that what a storage node
    has stored is what its interface answers. *)
From Stdlib Require Import Ascii.
From S2P Require Import Prelude Externals Utils Unicorn Interfaces Comms DbUtils Wallet StorageFetch StorageRaft BlockStore Api ApiNode.

Section api_storage.
Context `{SerdeJson string, SerdeJson (list Z), Bincode BlockchainItemMeta}.

(** ** Handlers *)
Definition get_json_reply_stored_value_from_db (db : SimpleDb) (key : string) (wrap : bool) (call_id route : string) : outcome ApiResult :=
  let r := mkCallResponse route call_id in
  let! item := get_stored_value_from_db db (string_codes key) in
  match item with
  | None => Ret (into_err r StatusCode.NO_CONTENT ApiErrorType.NoDataFoundForKey)
  | Some item =>
      let json_content :=
        match wrap, as_type (item_meta item) with
        | true, ItemBlock => json_embed_block (item_data_json item)
        | true, ItemTx => json_embed_transaction (item_data_json item)
        | false, _ => json_embed [item_data_json item]
        end in
      Ret (into_ok r "Database item(s) successfully retrieved" json_content)
  end.

(** What stands for one key: its item, or two empty texts. *)
Definition key_value (db : SimpleDb) (key : string) : outcome (list Z * list Z) :=
  let! item := get_stored_value_from_db db (string_codes key) in
  Ret (match item with
       | Some item => (item_key item, item_data_json item)
       | None => ([], QUOTE ++ QUOTE)
       end).

(** [slice::join] with a separator. *)
Fixpoint join (sep : list Z) (l : list (list (list Z))) : list (list Z) :=
  match l with
  | [] => []
  | [x] => x
  | x :: l => x ++ sep :: join sep l
  end.

Definition key_value_json (kv : list Z * list Z) : list (list Z) :=
  [string_codes "[" ++ QUOTE; kv.1; QUOTE ++ string_codes ","; kv.2; string_codes "]"].

Definition get_json_reply_items_from_db (db : SimpleDb) (keys : list string) (route call_id : string) : outcome ApiResult :=
  let r := mkCallResponse route call_id in
  let! key_values := ofold (λ acc key, let! kv := key_value db key in Ret (acc ++ [kv])) [] keys in
  let key_values := map key_value_json key_values in
  let key_values := join (string_codes ",") key_values in
  let key_values := string_codes "[" :: key_values ++ [string_codes "]"] in
  Ret (into_ok r "Database item(s) successfully retrieved" (json_embed key_values)).

Definition get_latest_block (db : SimpleDb) (route call_id : string) : outcome ApiResult :=
  get_json_reply_stored_value_from_db db LAST_BLOCK_HASH_KEY false call_id route.

Definition post_blockchain_entry_by_key (db : SimpleDb) (key route call_id : string) : outcome ApiResult :=
  get_json_reply_stored_value_from_db db key true call_id route.

Definition post_transactions_by_key (db : SimpleDb) (keys : list string) (route call_id : string) : outcome ApiResult :=
  get_json_reply_items_from_db db keys route call_id.

Definition post_block_by_num (db : SimpleDb) (block_nums : list Z) (route call_id : string) : outcome ApiResult :=
  let keys := map indexed_block_hash_key block_nums in
  get_json_reply_items_from_db db keys route call_id.

Definition post_blocks_by_tx_hashes (db : SimpleDb) (tx_hashes : list string) (route call_id : string) : outcome ApiResult :=
  let r := mkCallResponse route call_id in
  let! block_nums := ofold (λ acc tx_hash,
      let! item := get_stored_value_from_db db (string_codes tx_hash) in
      Ret (acc ++ match item with
                  | Some item => match item_meta item with MetaTx block_num _ => [block_num] | MetaBlock _ _ => [] end
                  | None => []
                  end)) [] tx_hashes in
  Ret (into_ok r "Database item(s) successfully retrieved" (json_serialize_embed block_nums)).

(** ** Routes *)
Section routes.
Context `{CommsCrates, Ipv6Display, NaomReceipts, NaomCrypto}.
Context `{SerdeJson DebugData, WarpJson AddressConstructData, WarpJson string, WarpJson (list string), WarpJson (list Z)}.
Context {E S : Type} (db : Component S SimpleDb).

(** A route that reads the database with the value of its body. *)
Definition db_route {T : Type} `{WarpJson T} (route : string)
    (handler : SimpleDb → T → string → string → outcome ApiResult) : Route E S :=
  mkRoute route POST post_cors (λ _ rq call_id, match body_json rq with
    | inl rejection => inl rejection
    | inr info => inr (λ s, let! r := handler (part db s) info route call_id in Ret (r, s))
    end).

Definition latest_block : Route E S :=
  let route := "latest_block"%string in
  mkRoute route GET get_cors (λ _ _ call_id, inr (λ s, let! r := get_latest_block (part db s) route call_id in Ret (r, s))).
Definition blockchain_entry_by_key : Route E S := db_route "blockchain_entry" post_blockchain_entry_by_key.
Definition block_by_num : Route E S := db_route "block_by_num" post_block_by_num.
Definition transactions_by_key : Route E S := db_route "transactions_by_key" post_transactions_by_key.
Definition blocks_by_tx_hashes : Route E S := db_route "check_transaction_presence" post_blocks_by_tx_hashes.

Definition storage_node_routes (routes_pow_info : RoutesPoWInfo) (node : Component S (Node TlsCertificate)) : list (Route E S) :=
  with_debug_data [block_by_num; transactions_by_key; latest_block; blockchain_entry_by_key; blocks_by_tx_hashes;
    address_construction] node None routes_pow_info.
End routes.
End api_storage.

(** ** What is answered *)
Section answers.
Context `{SerdeJson string, SerdeJson (list Z), Bincode BlockchainItemMeta}.

(** The JSON array of pairs. *)
Fixpoint comma_separated (l : list (list Z)) : list Z :=
  match l with
  | [] => []
  | [x] => x
  | x :: l => x ++ string_codes "," ++ comma_separated l
  end.
Definition json_pair (k v : list Z) : list Z := string_codes "[" ++ quoted k ++ string_codes "," ++ v ++ string_codes "]".
Definition json_array (l : list (list Z)) : list Z := string_codes "[" ++ comma_separated l ++ string_codes "]".
Definition item_json (item : option BlockchainItem) : list Z :=
  match item with
  | Some item => json_pair (item_key item) (item_data_json item)
  | None => json_pair [] (quoted [])
  end.

Definition value_or_empty (i : option BlockchainItem) : list Z * list Z :=
  match i with Some i => (item_key i, item_data_json i) | None => ([], QUOTE ++ QUOTE) end.

Lemma key_values_ret db keys items : Forall2 (λ k i, get_stored_value_from_db db (string_codes k) = Ret i) keys items →
  ∀ acc, ofold (λ acc key, let! kv := key_value db key in Ret (acc ++ [kv])) acc keys =
    Ret (acc ++ map value_or_empty items).
Proof.
  induction 1 as [|k i keys items Hk _ IH]; intros acc; cbn; [by rewrite app_nil_r|].
  unfold key_value at 1. rewrite Hk. cbn. rewrite IH. by rewrite <-app_assoc.
Qed.

Lemma join_comma l : mjoin (join (string_codes ",") l) = comma_separated (map mjoin l).
Proof.
  induction l as [|x [|y l] IH]; [done|done|].
  change (join ?sep (x :: y :: l)) with (x ++ sep :: join sep (y :: l)). rewrite join_app.
  change (mjoin (?a :: ?b)) with (a ++ mjoin b). by rewrite IH.
Qed.

Lemma key_value_item i : mjoin (key_value_json (value_or_empty i)) = item_json i.
Proof.
  destruct i as [i|]; unfold key_value_json, item_json, json_pair, quoted; cbn [mjoin list_join fst snd value_or_empty];
    by rewrite ?app_nil_r, <-!app_assoc.
Qed.

Lemma items_reply db keys items route call_id : Forall2 (λ k i, get_stored_value_from_db db (string_codes k) = Ret i) keys items →
  get_json_reply_items_from_db db keys route call_id =
    Ret (into_ok (mkCallResponse route call_id) "Database item(s) successfully retrieved"
      (JsonReply_new (json_array (map item_json items)))).
Proof.
  intros F. unfold get_json_reply_items_from_db. rewrite (key_values_ret _ _ _ F). cbn [obind app].
  do 3 f_equal. unfold json_embed, json_array. f_equal. change (mjoin (?a :: ?b)) with (a ++ mjoin b). f_equal.
  rewrite join_app, join_comma, !map_map. f_equal. f_equal. apply map_ext, key_value_item.
Qed.
End answers.

(** ** A stored block is served *)
Section served.
Context `{Naom, Hex, Bincode BlockHeader, Bincode StoredSerializingBlock, Bincode Transaction,
  Bincode BlockchainItemMeta, !BincodeLaws BlockchainItemMeta, Bincode Z, SerdeJson StoredSerializingBlock, SerdeJson Transaction}.
Context `{SerdeJson string, SerdeJson (list Z), Warp, !WarpLaws}.
Context `{CommsCrates, Ipv6Display, NaomReceipts, NaomCrypto}.
Context `{SerdeJson DebugData, WarpJson AddressConstructData, WarpJson string, WarpJson (list string), WarpJson (list Z)}.
Context {E S : Type} (db : Component S SimpleDb) (node : Component S (Node TlsCertificate)).
Context (api_keys : ApiKeys) (routes_pow : RoutesPoWInfo).

Definition storage_routes : list (Route E S) := storage_node_routes db routes_pow node.
Notation asks := (asks api_keys routes_pow).
Definition success (id route : string) (content : list Z) : JsonReply :=
  common_success_reply id route "Database item(s) successfully retrieved" (JsonReply_new content).

(** A handler that reads gives the same reply as long as the node is the same. *)
Lemma served_by rq m p id e cache s rt h r : asks rq m p id → no_slash p = true → route_of storage_routes p m = Some rt →
  rt_call rt e rq id = inr h → cache !! id = None → h s = Ret (r, s) →
  serve api_keys routes_pow storage_routes e rq cache s = Ret (result_reply r, <[id := r]> cache, s).
Proof.
  intros A Np Ro C Hc Hs. eapply serve_fresh; [|exact Hc|exact Hs]. by eapply asked_accepted.
Qed.

(** C16: once a storage node has stored a complete block, its interface serves it: the number of the block
    gives its hash with the JSON of the block, an unknown key two empty texts in its place, the last block
    is the block, and the hash of a transaction of the block gives the number of the block. *)
Theorem stored_block_served s0 status complete bh db' s e cache :
  let c := common complete in
  let n := block_number c in
  let json := to_json (mkStoredSerializingBlock (cb_block c)) in
  db_ready (part db s0) → construct_valid_block_pow_hash (cb_block c) = Ret (inr bh) →
  is_u64 n → zlen (block_hashes c) < 2 ^ 32 → block_keys_ok c bh →
  (n = 0 → Forall (λ h, is_Some (cb_block_txs c !! h)) (transactions (cb_block c))) →
  store_complete_block (part db s0) status complete =
    Ret (stored_info bh c (extra_shutdown (extra_info complete)), db') → part db s = db' →
  (∀ rq id m, asks rq POST "block_by_num" id → body_json rq = inr [n; m] → cache !! id = None →
    get_stored_value_from_db db' (string_codes (indexed_block_hash_key m)) = Ret None →
    ∃ r, serve api_keys routes_pow storage_routes e rq cache s = Ret
      (success id "block_by_num" (json_array [json_pair (string_codes bh) json; json_pair [] (quoted [])]), <[id := r]> cache, s)) ∧
  (∀ rq id, asks rq GET "latest_block" id → cache !! id = None →
    ∃ r, serve api_keys routes_pow storage_routes e rq cache s = Ret (success id "latest_block" json, <[id := r]> cache, s)) ∧
  (∀ rq id h tx, asks rq POST "check_transaction_presence" id → body_json rq = inr [h] → cache !! id = None →
    h ∈ block_hashes c → cb_block_txs c !! h = Some tx →
    ∃ r, serve api_keys routes_pow storage_routes e rq cache s = Ret
      (success id "check_transaction_presence" (to_json [n]), <[id := r]> cache, s)).
Proof.
  intros c n json Hr Hbh Hn Hlen [Hnd Hok] Hgen St Ps.
  destruct (store_complete_block_ops _ status complete bh Hr Hbh Hlen Hgen) as (db1 & St' & Hst).
  rewrite St in St'. injection St' as <-. fold c n in Hst.
  pose proof (block_items_keys c bh Hnd) as Hk. pose proof (block_items_meta_keys c bh Hn Hlen) as Hmk.
  rewrite Forall_cons in Hok. destruct Hok as [[Hb1 Hb2] Hok]. rewrite Forall_forall in Hok.
  assert (Hit : block_blockchain_item c bh ∈ block_items c bh) by (apply elem_of_app; right; by left).
  destruct (stored_read _ db' _ _ _ _ Hr Hst Hk Hit Hb1) as (_ & R2 & R3).
  specialize (R2 Hmk). specialize (R3 eq_refl).
  split_and!.
  - intros rq id m A B C Hm. exists (inr (success id "block_by_num" (json_array [json_pair (string_codes bh) json; json_pair [] (quoted [])]))).
    eapply (served_by rq POST "block_by_num" id _ _ _ _ _ (inr _)); [exact A|done|reflexivity| |exact C|].
    { cbn. by rewrite B. }
    cbn. rewrite Ps. unfold post_block_by_num.
    rewrite (items_reply db' _ [Some (block_blockchain_item c bh); None]); [|by repeat constructor]. reflexivity.
  - intros rq id A C. exists (inr (success id "latest_block" json)).
    eapply (served_by rq GET "latest_block" id _ _ _ _ _ (inr _)); [exact A|done|reflexivity|reflexivity|exact C|].
    cbn. rewrite Ps. unfold get_latest_block, get_json_reply_stored_value_from_db. rewrite R3. cbn [obind].
    unfold json_embed. cbn. by rewrite app_nil_r.
  - intros rq id h tx A B C Hh Htx. exists (inr (success id "check_transaction_presence" (to_json [n]))).
    eapply (served_by rq POST "check_transaction_presence" id _ _ _ _ _ (inr _)); [exact A|done|reflexivity| |exact C|].
    { cbn. by rewrite B. }
    cbv beta. rewrite Ps. unfold post_blocks_by_tx_hashes. cbn [ofold].
    apply list_elem_of_lookup in Hh as [i Hi].
    set (it := mkBlockchainItem 5 (MetaTx n (Z.of_nat i)) (string_codes h) (serialize tx) (to_json tx)).
    assert (Hin : it ∈ block_items c bh).
    { apply elem_of_app. left. apply list_elem_of_omap. exists (Z.of_nat i, h).
      split; [apply elem_of_indexed; by exists i|]. unfold tx_blockchain_item. cbn. by rewrite Htx. }
    destruct (Hok h (list_elem_of_lookup_2 _ _ _ Hi)) as [Hh1 Hh2].
    destruct (stored_read _ db' _ _ _ _ Hr Hst Hk Hin Hh1) as (R1 & _). specialize (R1 Hh2).
    change (item_key it) with (string_codes h) in R1. by rewrite R1.
Qed.
End served.

(** ** The theorems at concrete values *)
Module ApiStorageExamples.
Import TestExternals CommsExamples WalletExamples BlockStoreExamples ApiExamples.

#[export] Instance json_debug : SerdeJson DebugData := {| to_json d := dd_node_api d ≫= string_codes |}.
#[export] Instance body_address : WarpJson AddressConstructData := {| body_json _ := inl BodyDeserializeError |}.
#[export] Instance body_string : WarpJson string := {| body_json _ := inl BodyDeserializeError |}.
#[export] Instance body_nums : WarpJson (list Z) := {| body_json rq := inr (rq_body rq) |}.
#[export] Instance body_hashes : WarpJson (list string) := {| body_json rq := inr (map (λ z, String (ascii_of_nat (Z.to_nat z)) "1") (rq_body rq)) |}.

Definition State : Type := SimpleDb * Node TlsCertificate.
Definition db_part : Component State SimpleDb := mkComponent fst (λ d s, (d, s.2)).
Definition node_part : Component State (Node TlsCertificate) := mkComponent snd (λ n s, (s.1, n)).
Definition db1 : SimpleDb := match store_complete_block db0 (Contiguous 3) complete3 with Ret x => x.2 | Panic => db0 end.
Definition pow0 : RoutesPoWInfo := {["block_by_num"%string := 0%nat]}.
Definition keys0 : ApiKeys := {["block_by_num"%string := ["key"%string]]}.
Definition served : list (Route unit State) := storage_routes db_part node_part pow0.
Definition ask_blocks : Request := request POST "/block_by_num" {["x-request-id" := id32; "x-api-key" := "key"%string]} [3; 9].
Definition ask_presence : Request := request POST "/check_transaction_presence" {["x-request-id" := id32']} [97].

Lemma db1_run : store_complete_block db0 (Contiguous 3) complete3 = Ret (stored_info bh3 block3 false, db1).
Proof.
  assert (E : ∀ m : outcome (BlockStoredInfo * SimpleDb), is_ret m = true →
    m = Ret (match m with Ret x => x.1 | Panic => stored_info bh3 block3 false end, match m with Ret x => x.2 | Panic => db0 end)).
  { intros [[i d]|]; [reflexivity|discriminate]. }
  rewrite (E (store_complete_block db0 (Contiguous 3) complete3)) by (vm_compute; reflexivity).
  apply (f_equal Ret), (f_equal2 pair); [vm_compute; reflexivity|reflexivity].
Qed.

Lemma stored_block_served_witness :
  (∃ r, serve keys0 pow0 served tt ask_blocks ∅ (db1, a0) =
    Ret (success id32 "block_by_num" (json_array [json_pair (string_codes bh3) [1; 3]; json_pair [] (quoted [])]), {[id32 := r]}, (db1, a0))) ∧
  (∃ r, serve keys0 pow0 served tt ask_presence ∅ (db1, a0) =
    Ret (success id32' "check_transaction_presence" (to_json [3]), {[id32' := r]}, (db1, a0))).
Proof.
  destruct (stored_block_served (E := unit) db_part node_part keys0 pow0 (db0, a0) (Contiguous 3) complete3 bh3 db1 (db1, a0) tt ∅ db0_ready)
    as (H1 & _ & H3).
  - vm_compute. reflexivity.
  - split; [by apply Z.leb_le|by apply Z.ltb_lt].
  - apply Z.ltb_lt. reflexivity.
  - split; [(apply (bool_decide_unpack (NoDup _)); vm_compute; exact I)|(apply (bool_decide_unpack (Forall _ _)); vm_compute; exact I)].
  - intros E. vm_compute in E. discriminate E.
  - exact db1_run.
  - reflexivity.
  - split.
    + destruct (H1 ask_blocks id32 9) as [r Hr]; [|reflexivity|reflexivity|vm_compute; reflexivity|exists r; exact Hr].
      split; [reflexivity|]. split; [reflexivity|]. vm_compute. reflexivity.
    + destruct (H3 ask_presence id32' "a1"%string (tx0 8)) as [r Hr]; [|reflexivity|reflexivity|vm_compute; left|vm_compute; reflexivity|exists r; exact Hr].
      split; [reflexivity|]. split; [reflexivity|]. vm_compute. reflexivity.
Defined.
End ApiStorageExamples.
