(* ===== verification/ApiWallet.v ===== *)
(** * The HTTP interface of user and miner nodes: [src/api/handlers.rs], [src/api/routes.rs]

    A call reads or changes the wallet, or puts a request into the event queue of
    the node, which handles it later as its own.  [WalletDb] and [Node] are
    handles that the node and its interface share. *)
From Stdlib Require Import Ascii.
From S2P Require Import Prelude Externals Utils TrackedUtxo Unicorn Interfaces Comms Requests DbUtils FundStore Wallet Miner Api ApiNode.

(** ** Data *)
Record AddressStoreHex := mkAddressStoreHex {
  hex_public_key : string; hex_secret_key : string; hex_address_version : option Z }.
Record Addresses := mkAddresses { addresses : gmap string AddressStoreHex }.

Record WalletInfoOf (F64 : Type) := mkWalletInfo {
  running_total : F64; running_total_tokens : Z;
  locked_total : F64; locked_total_tokens : Z;
  available_total : F64; available_total_tokens : Z;
  receipt_total : gmap string Z;
  wi_addresses : gmap string (list OutPointData);
}.
Arguments mkWalletInfo {F64}. Arguments running_total {F64}. Arguments running_total_tokens {F64}.
Arguments locked_total {F64}. Arguments locked_total_tokens {F64}. Arguments available_total {F64}.
Arguments available_total_tokens {F64}. Arguments receipt_total {F64}. Arguments wi_addresses {F64}.

Record EncapsulatedPayment := mkEncapsulatedPayment {
  ep_address : string; ep_amount : TokenAmount; ep_passphrase : string; ep_locktime : option Z }.
Record CreateReceiptAssetDataUser := mkCreateReceiptAssetDataUser {
  cu_receipt_amount : Z; cu_drs_tx_hash_spec : DrsTxHashSpec; cu_metadata : option string }.
Record ChangePassphraseData := mkChangePassphraseData { old_passphrase : string; new_passphrase : string }.

(** The fields of naom's [AssetValues], and the division of tokens that shows
    them as a [f64]. *)
Class NaomTotals `{Naom} := {
  F64 : Type;
  display_tokens : Z → F64;
  av_tokens : AssetValues → Z;
  av_receipts : AssetValues → gmap string Z;
}.
(** The texts of the errors of the hex crate. *)
Class ApiTexts := {
  hex_error : string → string;
}.

(** [str::parse::<usize>], of 64 bits. *)
Definition parse_usize (s : string) : option Z := parse_u64 s.

(** ** Key pairs in hexadecimal *)
Section hex.
Context `{Hex, NaomReceipts, NaomSigning, ApiTexts, AddrText}.

Definition hex_from (other : AddressStore) : AddressStoreHex :=
  mkAddressStoreHex (hex_encode (public_key other)) (hex_encode (secret_key other)) (address_version other).

(** The error as its text. *)
Definition try_from_hex_store (h : AddressStoreHex) : string + AddressStore :=
  match hex_decode (hex_public_key h), hex_decode (hex_secret_key h) with
  | None, _ => inl ("Hex Error: " +:+ hex_error (hex_public_key h))
  | _, None => inl ("Hex Error: " +:+ hex_error (hex_secret_key h))
  | Some pk, Some sk =>
      match public_key_from_slice pk, secret_key_from_slice sk with
      | Some pk, Some sk => inr (mkAddressStore pk sk (hex_address_version h))
      | _, _ => inl "Hex Error: Invalid string length"%string
      end
  end.

(** The loop over the key pairs received. *)
Fixpoint convert_keypairs (l : list (string * AddressStoreHex)) : string + list (string * AddressStore) :=
  match l with
  | [] => inr []
  | (address, h) :: l =>
      match try_from_hex_store h with
      | inl e => inl e
      | inr store => match convert_keypairs l with inl e => inl e | inr l => inr ((address, store) :: l) end
      end
  end.
End hex.

Definition construct_make_payment_map (to_address : string) (amount : TokenAmount) : gmap string APIAsset :=
  {[to_address := mkAPIAsset (Externals.Token amount) None]}.

(** What is drawn at random within a call: a key pair with the nonce that
    encrypts it, a salt and a nonce for the master key, nonces for imported keys. *)
Record ApiEnv := mkApiEnv {
  ae_key : list Z * list Z * list Z; ae_salt : list Z; ae_nonce : list Z; ae_nonces : nat → list Z }.

Section api_wallet.
Context `{NaomAssets, NaomCrypto, NaomPayments, Bincode (FundStoreOf AssetValues), Bincode (gset string)}.
Context `{Bincode AddressStore, Bincode TransactionStore, Bincode OutPoint, Bincode MasterKeyStore}.
Context `{!NaomTotals, Hex, NaomReceipts, NaomSigning, ApiTexts, AddrText}.
Context `{CommsCrates, Ipv6Display, Bincode UserRequest.t, Bincode MineRequest.t}.
Context `{SerdeJson string, SerdeJson (list string), SerdeJson Z, SerdeJson (WalletInfoOf F64), SerdeJson Addresses,
  SerdeJson (gmap string APIAsset), SerdeJson (option BlockPoWReceived), SerdeJson DebugData}.
Notation Node := (Node TlsCertificate).
Notation WalletInfo := (WalletInfoOf F64).
Implicit Types (w : WalletDb) (peer : Node).

(** ** Reading the wallet *)

(** The transactions that [extra] asks for; an unknown word asks for the unspent
    ones, as no word does.  A number that a [u64] holds is one that a [usize]
    holds. *)
Definition selected_transactions (fund_store : FundStore) (extra : option string) : outcome (gmap OutPoint Asset) :=
  match extra with
  | Some param =>
      match parse_usize param with
      | Some page => transaction_page fund_store (Z.to_nat page)
      | None => Ret (if String.eqb param "spent" then fs_spent fund_store else fs_transactions fund_store)
      end
  | None => Ret (fs_transactions fund_store)
  end.

Definition list_under_address w (addresses : gmap string (list OutPointData)) (tx : OutPoint * Asset) :
    outcome (gmap string (list OutPointData)) :=
  let! address := get_transaction_address w tx.1 in
  Ret (<[address := default [] (addresses !! address) ++ [mkOutPointData tx.1 tx.2]]> addresses).

Definition wallet_info_data w (extra : option string) : outcome WalletInfo :=
  let! fund_store := get_fund_store_err (wallet_db w) in
  let! txs := selected_transactions fund_store extra in
  let! addresses := ofold (list_under_address w) ∅ (bt_iter txs) in
  let locked_coinbase := get_locked_coinbase w in
  let total := fs_running_total fund_store in
  let available := fs_running_total (fs_filter_locked_coinbase fund_store locked_coinbase).2 in
  let locked := wrap64 (av_tokens total - av_tokens available) in
  Ret (mkWalletInfo (display_tokens (av_tokens total)) (av_tokens total) (display_tokens locked) locked
    (display_tokens (av_tokens available)) (av_tokens available) (av_receipts total) addresses).

Definition get_wallet_info w (extra : option string) (route call_id : string) : outcome ApiResult :=
  let r := mkCallResponse route call_id in
  let! send_val := wallet_info_data w extra in
  Ret (into_ok r "Wallet info successfully fetched" (json_serialize_embed send_val)).

Definition export_address w (m : gmap string AddressStoreHex) (addr : string) : outcome (gmap string AddressStoreHex) :=
  let! store := wallet_get_address_store w addr in
  Ret (<[addr := hex_from store]> m).

Definition get_export_keypairs w (route call_id : string) : outcome ApiResult :=
  let r := mkCallResponse route call_id in
  let! known_addr := get_known_addresses w in
  let! addresses := ofold (export_address w) ∅ known_addr in
  Ret (into_ok r "Key-pairs successfully exported" (json_serialize_embed (mkAddresses addresses))).

Definition get_current_mining_block (current_block : option BlockPoWReceived) (route call_id : string) : ApiResult :=
  into_ok (mkCallResponse route call_id) "Current mining block successfully retrieved" (json_serialize_embed current_block).

(** ** Changing the wallet *)
Definition get_payment_address w (e : ApiEnv) (route call_id : string) : outcome (ApiResult * WalletDb) :=
  let r := mkCallResponse route call_id in
  let! g := generate_payment_address w (ae_key e) in
  Ret (into_ok r "New payment address generated" (json_serialize_embed g.1.1), g.2).

Definition wallet_db_error (err : WalletDbError) (call_response : CallResponse) : ApiResult :=
  match err with
  | PassphraseError => into_err call_response StatusCode.UNAUTHORIZED ApiErrorType.InvalidPassphrase
  | _ => into_err_internal call_response ApiErrorType.InternalError
  end.

Definition post_change_wallet_passphrase w (e : ApiEnv) (passphrase_struct : ChangePassphraseData) (route call_id : string) :
    outcome (ApiResult * WalletDb) :=
  let r := mkCallResponse route call_id in
  if String.eqb (new_passphrase passphrase_struct) EmptyString then
    Ret (into_err r StatusCode.UNAUTHORIZED ApiErrorType.BlankPassphrase, w)
  else
    let! x := change_wallet_passphrase w (old_passphrase passphrase_struct) (new_passphrase passphrase_struct) (ae_salt e) (ae_nonce e) in
    Ret (match x.1 with
         | inr _ => into_ok r "Passphrase changed successfully" (json_serialize_embed "null"%string)
         | inl err => wallet_db_error err r
         end, x.2).

(** ** Requests to the node

    A request is an event that the node receives from its own address. *)
Definition inject_user peer (req : UserApiRequest.t) : Node :=
  inject_next_event peer (local_listener_address peer) (serialize (UserRequest.UserApi req)).
Definition inject_miner peer (req : MineApiRequest.t) : Node :=
  inject_next_event peer (local_listener_address peer) (serialize (MineRequest.MinerApi req)).

Definition save_keypair (e : ApiEnv) (acc : WalletDb * nat) (kp : string * AddressStore) : outcome (WalletDb * nat) :=
  let! w := save_address_to_wallet acc.1 (ae_nonces e acc.2) kp.1 kp.2 in Ret (w, S acc.2).

Definition post_import_keypairs (e : ApiEnv) (s : WalletDb * Node) (keypairs : Addresses) (route call_id : string) :
    outcome (ApiResult * (WalletDb * Node)) :=
  let '(db, peer) := s in
  let response_data := json_serialize_embed (bt_keys (addresses keypairs)) in
  let r := mkCallResponse route call_id in
  let addrs := bt_keys (addresses keypairs) in
  match convert_keypairs (bt_iter (addresses keypairs)) with
  | inl err => Ret (into_err_with_data r StatusCode.BAD_REQUEST ApiErrorType.BadRequest (json_serialize_embed err), s)
  | inr key_pairs_converted =>
      let! acc := ofold (save_keypair e) (db, 0%nat) key_pairs_converted in
      let db := acc.1 in
      Ret (match Comms.node_type peer with
           | Miner => (into_ok r "Key-pairs successfully imported" response_data,
                       (db, inject_miner peer (MineApiRequest.RequestUTXOSet (AnyOf addrs))))
           | User => (into_ok r "Key-pairs successfully imported" response_data,
                      (db, inject_user peer (UserApiRequest.UpdateWalletFromUtxoSet (AnyOf addrs))))
           | _ => (into_err_internal r ApiErrorType.InternalError, (db, peer))
           end)
  end.

Definition post_make_payment (s : WalletDb * Node) (encapsulated_data : EncapsulatedPayment) (route call_id : string) :
    outcome (ApiResult * (WalletDb * Node)) :=
  let '(db, peer) := s in
  let 'mkEncapsulatedPayment address amount passphrase locktime := encapsulated_data in
  let r := mkCallResponse route call_id in
  let! t := test_passphrase db passphrase in
  Ret (match t with
       | inl err => (wallet_db_error err r, s)
       | inr _ => (into_ok r "Payment processing" (json_serialize_embed (construct_make_payment_map address amount)),
                   (db, inject_user peer (UserApiRequest.MakePayment address amount locktime)))
       end).

Definition post_make_ip_payment (s : WalletDb * Node) (encapsulated_data : EncapsulatedPayment) (route call_id : string) :
    outcome (ApiResult * (WalletDb * Node)) :=
  let '(db, peer) := s in
  let 'mkEncapsulatedPayment address amount passphrase locktime := encapsulated_data in
  let r := mkCallResponse route call_id in
  match parse_socket_addr address with
  | None => Ret (into_err_bad_req r ApiErrorType.CannotParseAddress, s)
  | Some payment_peer =>
      let! t := test_passphrase db passphrase in
      Ret (match t with
           | inl err => (wallet_db_error err r, s)
           | inr _ => (into_ok r "IP payment processing" (json_serialize_embed (construct_make_payment_map address amount)),
                       (db, inject_user peer (UserApiRequest.MakeIpPayment payment_peer amount locktime)))
           end)
  end.

Definition post_request_donation peer (address route call_id : string) : ApiResult * Node :=
  let r := mkCallResponse route call_id in
  match parse_socket_addr address with
  | None => (into_err_bad_req r ApiErrorType.CannotParseAddress, peer)
  | Some paying_peer => (into_ok r "Donation request sent" (json_serialize_embed "null"%string),
                         inject_user peer (UserApiRequest.RequestDonation paying_peer))
  end.

Definition post_update_running_total peer (addresses : PublicKeyAddresses) (route call_id : string) : ApiResult * Node :=
  let r := mkCallResponse route call_id in
  (into_ok r "Running total updated" (json_serialize_embed "null"%string),
   inject_user peer (UserApiRequest.UpdateWalletFromUtxoSet (AnyOf (pk_address_list addresses)))).

Definition post_create_receipt_asset_user peer (receipt_data : CreateReceiptAssetDataUser) (route call_id : string) : ApiResult * Node :=
  let 'mkCreateReceiptAssetDataUser receipt_amount drs_tx_hash_spec metadata := receipt_data in
  let r := mkCallResponse route call_id in
  (into_ok r "Receipt asset(s) created" (json_serialize_embed receipt_amount),
   inject_user peer (UserApiRequest.SendCreateReceiptRequest receipt_amount drs_tx_hash_spec metadata)).

(** ** Routes *)
Section routes.
Context `{Warp, WarpJson AddressConstructData, WarpJson Addresses, WarpJson EncapsulatedPayment, WarpJson string,
  WarpJson PublicKeyAddresses, WarpJson CreateReceiptAssetDataUser, WarpJson ChangePassphraseData}.
Context {St : Type}.
Implicit Types (db : Component St WalletDb) (node : Component St Node).
Notation Route := (Route ApiEnv St).

Definition get_route (route : string) (handler : ApiEnv → Request → string → string → St → outcome (ApiResult * St)) : Route :=
  mkRoute route GET get_cors (λ e rq call_id, inr (handler e rq route call_id)).
Definition post_route {T : Type} `{WarpJson T} (route : string)
    (handler : ApiEnv → T → string → string → St → outcome (ApiResult * St)) : Route :=
  mkRoute route POST post_cors (λ e rq call_id, match body_json rq with
    | inl rejection => inl rejection
    | inr info => inr (handler e info route call_id)
    end).
(** A handler that only reads the wallet. *)
Definition read_wallet db (handler : WalletDb → outcome ApiResult) (s : St) : outcome (ApiResult * St) :=
  let! r := handler (part db s) in Ret (r, s).

Definition wallet_info db : Route := get_route "wallet_info" (λ e rq route call_id,
  let ei := warp_param (rq_path rq) in read_wallet db (λ w, get_wallet_info w ei route call_id)).
Definition export_keypairs db : Route := get_route "export_keypairs" (λ e rq route call_id,
  read_wallet db (λ w, get_export_keypairs w route call_id)).
Definition payment_address db : Route := get_route "payment_address" (λ e rq route call_id,
  with_node_component db (λ w, get_payment_address w e route call_id)).
Definition current_mining_block (current_block : Component St (option BlockPoWReceived)) : Route :=
  get_route "current_mining_block" (λ e rq route call_id,
    reply (λ s, get_current_mining_block (part current_block s) route call_id)).

Definition import_keypairs db node : Route := post_route "import_keypairs" (λ e kp route call_id,
  with_node_component (both db node) (λ s, post_import_keypairs e s kp route call_id)).
Definition make_payment db node : Route := post_route "make_payment" (λ e pi route call_id,
  with_node_component (both db node) (λ s, post_make_payment s pi route call_id)).
Definition make_ip_payment db node : Route := post_route "make_ip_payment" (λ e pi route call_id,
  with_node_component (both db node) (λ s, post_make_ip_payment s pi route call_id)).
Definition request_donation node : Route := post_route "request_donation" (λ e info route call_id,
  with_node_component node (λ n, Ret (post_request_donation n info route call_id))).
Definition update_running_total node : Route := post_route "update_running_total" (λ e info route call_id,
  with_node_component node (λ n, Ret (post_update_running_total n info route call_id))).
Definition create_receipt_asset_user node : Route := post_route "create_receipt_asset" (λ e info route call_id,
  with_node_component node (λ n, Ret (post_create_receipt_asset_user n info route call_id))).
Definition change_passphrase db : Route := post_route "change_passphrase" (λ e info route call_id,
  with_node_component db (λ w, post_change_wallet_passphrase w e info route call_id)).

Definition user_node_routes (routes_pow_info : RoutesPoWInfo) db node : list Route :=
  with_debug_data [wallet_info db; make_payment db node; make_ip_payment db node; request_donation node;
    export_keypairs db; import_keypairs db node; update_running_total node; create_receipt_asset_user node;
    payment_address db; change_passphrase db; address_construction] node None routes_pow_info.

Definition miner_node_routes (routes_pow_info : RoutesPoWInfo) (current_block : Component St (option BlockPoWReceived)) db node : list Route :=
  with_debug_data [wallet_info db; export_keypairs db; import_keypairs db node; payment_address db; change_passphrase db;
    current_mining_block current_block; address_construction] node None routes_pow_info.

(** A miner with a user node beside it, on one wallet. *)
Definition miner_node_with_user_routes (routes_pow_info : RoutesPoWInfo) (current_block : Component St (option BlockPoWReceived))
    db miner_node user_node : list Route :=
  with_debug_data [wallet_info db; make_payment db user_node; make_ip_payment db user_node; request_donation user_node;
    export_keypairs db; import_keypairs db user_node; update_running_total user_node; create_receipt_asset_user user_node;
    payment_address db; change_passphrase db; current_mining_block current_block; address_construction]
    miner_node (Some user_node) routes_pow_info.
End routes.
End api_wallet.

(** ** What a wallet shows *)
Class NaomTotalsLaws `{NaomTotals, !AssetMeasure} : Prop := {
  av_tokens_held t n : av_tokens t = held t (asset_kind (Externals.Token n));
}.
(** Bytes survive the hexadecimal form. *)
Class ApiHexLaws `{Hex, NaomReceipts, NaomSigning} : Prop := {
  hex_decode_encode l : Forall (λ b, 0 ≤ b < 256) l → hex_decode (hex_encode l) = Some l;
}.
Definition key_pair_ok `{NaomReceipts, NaomSigning} (k : AddressStore) : Prop :=
  Forall (λ b, 0 ≤ b < 256) (public_key k ++ secret_key k) ∧
  public_key_from_slice (public_key k) = Some (public_key k) ∧ secret_key_from_slice (secret_key k) = Some (secret_key k).

Section shown.
Context `{NaomAssets, !AssetMeasure, !NaomAssetsLaws}.
Context `{NaomCrypto, !NaomCryptoLaws, NaomPayments}.
Context `{Bincode (FundStoreOf AssetValues), !BincodeLaws (FundStoreOf AssetValues)}.
Context `{Bincode (gset string), !BincodeLaws (gset string)}.
Context `{Bincode AddressStore, !BincodeLaws AddressStore}.
Context `{Bincode TransactionStore, !BincodeLaws TransactionStore}.
Context `{Bincode OutPoint, !WalletKeysLaws, Bincode MasterKeyStore}.
Context `{!NaomTotals, !NaomTotalsLaws}.
Implicit Types (w : WalletDb) (fs : FundStore).

Definition token_kind : AssetKind := asset_kind (Externals.Token 0).
Definition locked_txs (locked : LockedCoinbase) (m : gmap OutPoint Asset) : gmap OutPoint Asset :=
  filter (λ kv, is_locked locked kv.1 = true) m.

Lemma asset_sum_locked k locked m : asset_sum k m = asset_sum k (unlocked locked m) + asset_sum k (locked_txs locked m).
Proof.
  unfold unlocked, locked_txs. induction m as [|op a m Hop IH] using map_ind; [by rewrite !map_filter_empty, asset_sum_empty|].
  rewrite !map_filter_insert. cbn [fst]. rewrite asset_sum_insert, IH by done.
  assert (Hn : ∀ b, filter (λ kv : OutPoint * Asset, is_locked locked kv.1 = b) m !! op = None).
  { intros b. by rewrite map_lookup_filter, Hop. }
  destruct (is_locked locked op) eqn:L.
  - rewrite decide_False, decide_True by done. rewrite (delete_id m), asset_sum_insert by done. lia.
  - rewrite decide_True, decide_False by done. rewrite (delete_id m), asset_sum_insert by done. lia.
Qed.

(** The address of an output of a wallet. *)
Definition address_of w (op : OutPoint) (a : string) : Prop := get_transaction_address w op = Ret a.

Lemma held_address w fs known op v : wallet_holds w fs known → fs_transactions fs !! op = Some v →
  ∃ a, address_of w op a ∧ a ∈ known.
Proof.
  intros (_ & m & Hm & Hc) Hop. destruct (cw_tx _ _ _ _ Hc op) as (a & Ha & Hin); [by exists v|]. exists a. split; [|done].
  unfold address_of, get_transaction_address, wallet_get_transaction_store. by rewrite (get_transaction_store_at _ _ _ _ Hm Ha).
Qed.

(** The outputs of [l], each under its address, and nothing else. *)
Definition lists_outputs w (l : list (OutPoint * Asset)) (m : gmap string (list OutPointData)) : Prop :=
  ∀ a d, d ∈ default [] (m !! a) ↔ (out_point d, od_value d) ∈ l ∧ address_of w (out_point d) a.

Lemma list_under_addresses w l : (∀ tx, tx ∈ l → ∃ a, address_of w tx.1 a) →
  ∃ m, ofold (list_under_address w) ∅ l = Ret m ∧ lists_outputs w l m.
Proof.
  intros Hl. assert (Hg : ∀ pre m, lists_outputs w pre m →
    ∃ m', ofold (list_under_address w) m l = Ret m' ∧ lists_outputs w (pre ++ l) m').
  { induction l as [|[op v] l IH]; intros pre m Hm; [exists m; by rewrite app_nil_r|].
    destruct (Hl (op, v)) as [a Ha]; [by left|]. cbn [ofold]. unfold list_under_address at 1. cbn [fst snd] in *.
    pose proof Ha as Ha'. unfold address_of in Ha'. rewrite Ha'. cbn [obind].
    destruct (IH (λ tx Hin, Hl tx (list_elem_of_further _ _ _ Hin)) (pre ++ [(op, v)])
      (<[a := default [] (m !! a) ++ [mkOutPointData op v]]> m)) as (m' & E & Hm').
    - intros b d. rewrite elem_of_app, list_elem_of_singleton. destruct (decide (b = a)) as [->|Hne].
      + rewrite lookup_insert_eq. cbn [from_option id]. rewrite elem_of_app, list_elem_of_singleton, (Hm a d). split.
        * intros [[? ?]| ->]; [by split; [left|]|by split; [right|]].
        * intros [[?|E] ?]; [by left|]. right. destruct d. cbn in E. by simplify_eq.
      + rewrite lookup_insert_ne by done. rewrite (Hm b d). split; [intros [? ?]; by split; [left|]|].
        intros [[?|E] Hb]; [by split|]. destruct d. cbn in *. simplify_eq. unfold address_of in *. congruence.
    - exists m'. split; [done|]. by rewrite <-app_assoc in Hm'. }
  destruct (Hg [] ∅) as (m & E & Hm); [|by exists m]. intros a d. rewrite lookup_empty. cbn. set_solver.
Qed.

(** C31: the wallet that the interface shows is the wallet there is: the total is the sum of the unspent
    tokens, split without loss between those that a payment can use now and those that are locked, and
    each unspent output is listed with its value under the one address that owns it. *)
Theorem wallet_info_exact w fs known : wallet_holds w fs known →
  let locked := locked_coinbase w in
  ∃ i, wallet_info_data w None = Ret i ∧
    running_total_tokens i = asset_sum token_kind (fs_transactions fs) ∧
    available_total_tokens i = asset_sum token_kind (unlocked locked (fs_transactions fs)) ∧
    locked_total_tokens i = asset_sum token_kind (locked_txs locked (fs_transactions fs)) ∧
    running_total_tokens i = available_total_tokens i + locked_total_tokens i ∧
    (∀ a d, d ∈ default [] (wi_addresses i !! a) ↔
      fs_transactions fs !! out_point d = Some (od_value d) ∧ address_of w (out_point d) a) ∧
    (∀ op v, fs_transactions fs !! op = Some v → ∃ a, a ∈ known ∧ mkOutPointData op v ∈ default [] (wi_addresses i !! a)).
Proof.
  intros Hw locked. destruct (list_under_addresses w (bt_iter (fs_transactions fs))) as (addresses & E & Ha).
  { intros [op v] Hin. apply elem_of_bt_iter in Hin. destruct (held_address w fs known op v Hw Hin) as (a & ? & _). by exists a. }
  pose proof Hw as (_ & m & Hm & Hc). pose proof (fund_wf_totals _ (cw_fund_wf _ _ _ _ Hc)) as Ht.
  destruct (filter_locked_spec fs locked Ht) as (Ht' & _ & Hu).
  unfold wallet_info_data. change (get_fund_store_err (wallet_db w)) with (get_fund_store (wallet_db w)).
  rewrite (get_fund_store_at _ _ Hm), (cw_fund _ _ _ _ Hc). cbn [unwrap obind selected_transactions]. rewrite E. cbn [obind].
  eexists. split; [reflexivity|]. cbn [running_total_tokens available_total_tokens locked_total_tokens wi_addresses].
  unfold get_locked_coinbase. fold locked.
  rewrite !(av_tokens_held _ 0). fold token_kind. rewrite (proj1 Ht), (proj1 Ht'), Hu.
  pose proof (asset_sum_locked token_kind locked (fs_transactions fs)) as Hs.
  pose proof (asset_sum_nonneg token_kind (locked_txs locked (fs_transactions fs))).
  pose proof (asset_sum_nonneg token_kind (unlocked locked (fs_transactions fs))).
  assert (Hb : is_u64 (asset_sum token_kind (fs_transactions fs))) by apply Ht.
  rewrite (wrap64_id (_ - _)) by (unfold is_u64 in *; lia).
  assert (Hin : ∀ a d, d ∈ default [] (addresses !! a) ↔
    fs_transactions fs !! out_point d = Some (od_value d) ∧ address_of w (out_point d) a).
  { intros a d. by rewrite (Ha a d), elem_of_bt_iter. }
  split_and!; [done|done|lia|lia|done|].
  intros op v Hop. destruct (held_address w fs known op v Hw Hop) as (a & Haddr & Hk). exists a. split; [done|]. by apply Hin.
Qed.

(** A page of a wallet that has received nothing: the page is unwrapped. *)
Theorem page_of_empty_wallet_panics w param page : get_fund_store_err (wallet_db w) = Ret FundStore_default →
  parse_usize param = Some page → wallet_info_data w (Some param) = Panic.
Proof.
  intros E P. unfold wallet_info_data. rewrite E. cbn [obind selected_transactions]. rewrite P. unfold transaction_page.
  cbn [fs_pages FundStore_default]. rewrite lookup_nil. cbn. by case_match.
Qed.
End shown.

(** ** Moving keys from one wallet to another *)
Section moved.
Context `{NaomAssets, !AssetMeasure, !NaomAssetsLaws}.
Context `{NaomCrypto, !NaomCryptoLaws, NaomPayments}.
Context `{Bincode (FundStoreOf AssetValues), !BincodeLaws (FundStoreOf AssetValues)}.
Context `{Bincode (gset string), !BincodeLaws (gset string)}.
Context `{Bincode AddressStore, !BincodeLaws AddressStore}.
Context `{Bincode TransactionStore, !BincodeLaws TransactionStore}.
Context `{Bincode OutPoint, !WalletKeysLaws, Bincode MasterKeyStore}.
Context `{Hex, NaomReceipts, NaomSigning, !ApiHexLaws, ApiTexts, AddrText}.
Implicit Types (w : WalletDb) (fs : FundStore).

Lemma try_from_hex_from k : key_pair_ok k → try_from_hex_store (hex_from k) = inr k.
Proof.
  intros ([Bp Bs]%Forall_app & Hp & Hs). unfold try_from_hex_store, hex_from. cbn.
  rewrite !hex_decode_encode, Hp, Hs by done. by destruct k.
Qed.

Lemma convert_all (l : list (string * AddressStoreHex)) l' :
  Forall2 (λ h k, h.1 = k.1 ∧ try_from_hex_store h.2 = inr k.2) l l' → convert_keypairs l = inr l'.
Proof. induction 1 as [|[a h] [b k] l l' [E1 E2] _ IH]; cbn in *; [done|]. by rewrite E2, IH, E1. Qed.

(** A wallet knows the keys of its addresses. *)
Lemma known_keys w fs known a : wallet_holds w fs known → a ∈ known →
  addr_key a ∧ ∃ k, wallet_get_address_store w a = Ret k.
Proof.
  intros (_ & m & Hm & Hc) Ha. destruct (cw_addr _ _ _ _ Hc a Ha) as (Hk & k & Hr). split; [done|]. exists k.
  by eapply get_address_store_at.
Qed.

Lemma save_address_other w fs known nonce address keys w' a : wallet_holds w fs known → length nonce = NONCE_LEN →
  save_address_to_wallet w nonce address keys = Ret w' → a ≠ address → addr_key a →
  wallet_get_address_store w' a = wallet_get_address_store w a.
Proof.
  intros (Hk & m & Hm & Hc) Hn E Hne Ha. unfold save_address_to_wallet in E.
  rewrite (get_known_at _ m Hm), (cw_known _ _ _ _ Hc) in E. cbn [unwrap obind] in E.
  unfold save_address_store_to_wallet in E.
  destruct (encrypt_decrypt nonce (serialize keys) (encryption_key w) Hn Hk) as (s & E0 & _). rewrite E0 in E. cbn [obind] in E.
  destruct (batch_at_put _ _ _ [] (string_codes address) s (batch_at_writer _ _ _ Hm)) as (b & E1 & Hb).
  rewrite E1 in E. cbn [obind] in E. unfold set_known_key_address in E. cbn [app] in Hb.
  destruct (batch_at_put _ _ _ _ (string_codes KNOWN_ADDRESS_KEY) (serialize ({[address]} ∪ known)) Hb) as (b2 & E2 & Hb2).
  rewrite E2 in E. cbn [obind] in E. destruct (batch_at_write _ _ _ _ _ Hm Hb2) as (db' & E3 & Hm' & _). rewrite E3 in E.
  injection E as <-. unfold wallet_get_address_store, get_address_store. cbn [wallet_db encryption_key setter].
  rewrite (db_at_get _ _ _ _ Hm), (db_at_get _ _ _ _ Hm'). unfold kv_op. cbn [foldl app fst snd].
  rewrite lookup_insert_ne by (apply reserved_codes; [apply known_reserved|done]).
  by rewrite lookup_insert_ne by by intros E%(inj string_codes).
Qed.

(** The loop that saves the key pairs. *)
Lemma save_keypairs_spec e fs (l : list (string * AddressStore)) : (∀ i, length (ae_nonces e i) = NONCE_LEN) →
  Forall (λ kp, addr_key kp.1) l → NoDup l.*1 → ∀ w known i, wallet_holds w fs known →
  ∃ w' i', ofold (save_keypair e) (w, i) l = Ret (w', i') ∧ wallet_holds w' fs (list_to_set l.*1 ∪ known) ∧
    (∀ kp, kp ∈ l → wallet_get_address_store w' kp.1 = Ret kp.2) ∧
    (∀ a, addr_key a → a ∉ l.*1 → wallet_get_address_store w' a = wallet_get_address_store w a).
Proof.
  intros Hn Hl Hnd. induction Hl as [|[a k] l Ha Hl IH]; intros w known i Hw.
  { exists w, i. cbn. rewrite union_empty_l_L. split_and!; [done|done|set_solver|done]. }
  cbn in Ha. rewrite fmap_cons, NoDup_cons in Hnd. destruct Hnd as [Hna Hnd]. cbn [fst] in Hna.
  destruct (save_address_spec w fs known (ae_nonces e i) a k Hw (Hn i) Ha) as (w1 & E1 & Hw1 & Hk1 & _).
  destruct (IH Hnd w1 ({[a]} ∪ known) (S i) Hw1) as (w' & i' & E & Hw' & Hk & Ho).
  exists w', i'. cbn [ofold]. unfold save_keypair at 1. cbn [fst snd]. rewrite E1. cbn [obind]. split; [done|].
  rewrite fmap_cons. cbn [list_to_set fst]. split_and!.
  - by rewrite (union_comm_L {[a]}), <-union_assoc_L.
  - intros kp [->|Hin]%elem_of_cons; [|by apply Hk]. cbn [fst snd]. by rewrite Ho.
  - intros b Hb [Hne Hnb]%not_elem_of_cons. rewrite Ho by done. by eapply save_address_other.
Qed.

Lemma export_all w fs known : wallet_holds w fs known →
  ∃ m, ofold (export_address w) ∅ (bt_elems known) = Ret m ∧
    ∀ a h, m !! a = Some h ↔ a ∈ known ∧ ∃ k, wallet_get_address_store w a = Ret k ∧ h = hex_from k.
Proof.
  intros Hw. assert (Hg : ∀ l m, Forall (λ a, a ∈ known) l →
    ∃ m', ofold (export_address w) m l = Ret m' ∧ ∀ a h, m' !! a = Some h ↔
      (a ∈ l ∧ ∃ k, wallet_get_address_store w a = Ret k ∧ h = hex_from k) ∨ (a ∉ l ∧ m !! a = Some h)).
  { induction l as [|a l IH]; intros m F; [exists m; split; [done|]; set_solver|]. apply Forall_cons in F as [Ha F].
    destruct (known_keys w fs known a Hw Ha) as (_ & k & Hk). cbn [ofold]. unfold export_address at 1. rewrite Hk. cbn [obind].
    destruct (IH (<[a := hex_from k]> m) F) as (m' & E & Hm'). exists m'. split; [done|]. intros b h. rewrite (Hm' b h), elem_of_cons.
    destruct (decide (b = a)) as [->|Hne]; [rewrite lookup_insert_eq|rewrite lookup_insert_ne by done; naive_solver].
    split; [intros [[_ Hh]|[_ [= <-]]]; left; (split; [by left|]); [done|by exists k]|].
    intros [[_ (k' & Hk' & ->)]|[Hn _]]; [|destruct Hn; by left]. rewrite Hk in Hk'. injection Hk' as <-.
    destruct (decide (a ∈ l)); [left; split; [done|by exists k]|by right]. }
  destruct (Hg (bt_elems known) ∅) as (m & E & Hm); [apply Forall_forall; intros a; by rewrite elem_of_bt_elems|].
  exists m. split; [done|]. intros a h. rewrite (Hm a h), elem_of_bt_elems, lookup_empty. naive_solver.
Qed.

Context `{CommsCrates, Ipv6Display, Bincode UserRequest.t, Bincode MineRequest.t}.
Context `{SerdeJson string, SerdeJson (list string), SerdeJson Addresses}.

(** C30: the keys that one wallet exports, another one imports: afterwards it knows every address of the
    first beside its own, with the same keys, its funds are unchanged, and its node has in its queue the
    request to update the wallet from the outputs of exactly these addresses. *)
Theorem exported_keys_import w1 fs1 known1 w2 fs2 known2 e (peer : Node TlsCertificate) route id route' id' :
  wallet_holds w1 fs1 known1 → wallet_holds w2 fs2 known2 → (∀ i, length (ae_nonces e i) = NONCE_LEN) →
  (∀ a k, a ∈ known1 → wallet_get_address_store w1 a = Ret k → key_pair_ok k) → Comms.node_type peer = User →
  ∃ m w2' data, get_export_keypairs w1 route id =
      Ret (into_ok (mkCallResponse route id) "Key-pairs successfully exported" (json_serialize_embed (mkAddresses m))) ∧
    post_import_keypairs e (w2, peer) (mkAddresses m) route' id' =
      Ret (into_ok (mkCallResponse route' id') "Key-pairs successfully imported" data,
           (w2', inject_user peer (UserApiRequest.UpdateWalletFromUtxoSet (AnyOf (bt_keys m))))) ∧
    (∀ a, a ∈ bt_keys m ↔ a ∈ known1) ∧ wallet_holds w2' fs2 (known1 ∪ known2) ∧
    ∀ a, a ∈ known1 → wallet_get_address_store w2' a = wallet_get_address_store w1 a.
Proof.
  intros Hw1 Hw2 Hn Hok Hu. destruct (export_all w1 fs1 known1 Hw1) as (m & E1 & Hm).
  assert (Hkeys : ∀ a, a ∈ bt_keys m ↔ a ∈ known1).
  { intros a. rewrite elem_of_bt_keys. split; [intros [h [Ha _]%Hm]; done|]. intros Ha.
    destruct (known_keys _ _ _ _ Hw1 Ha) as (_ & k & Hk). exists (hex_from k). apply Hm. eauto. }
  assert (∃ l, Forall2 (λ h k, h.1 = k.1 ∧ try_from_hex_store h.2 = inr k.2) (bt_iter m) l ∧
    Forall (λ kp, wallet_get_address_store w1 kp.1 = Ret kp.2 ∧ addr_key kp.1) l) as (l & Hl & Hst).
  { assert (Hg : ∀ q, (∀ ah, ah ∈ q → m !! ah.1 = Some ah.2) → ∃ l, Forall2 (λ h k, h.1 = k.1 ∧ try_from_hex_store h.2 = inr k.2) q l ∧
      Forall (λ kp, wallet_get_address_store w1 kp.1 = Ret kp.2 ∧ addr_key kp.1) l).
    { induction q as [|[a h] q IH]; intros Hq; [by exists []|]. destruct IH as (l & F1 & F2); [intros ah Hin; apply Hq; by right|].
      specialize (Hq (a, h) (list_elem_of_here _ _)). cbn in Hq. apply Hm in Hq as (Ha & k & Hk & ->).
      exists ((a, k) :: l). split; constructor; try done; cbn; split; try done; [by apply try_from_hex_from; eapply Hok|].
      by destruct (known_keys _ _ _ _ Hw1 Ha). }
    apply Hg. intros [a h] Hin. by apply elem_of_bt_iter in Hin. }
  assert (Hfst : l.*1 = bt_keys m).
  { unfold bt_keys. clear -Hl. induction Hl as [|[a h] [b k] q l [E _] _ IH]; cbn in *; [done|]. by rewrite IH, E. }
  destruct (save_keypairs_spec e fs2 l Hn) with (w := w2) (known := known2) (i := 0%nat) as (w2' & i' & E2 & Hw2' & Hk2 & _); [| |done|].
  { eapply Forall_impl; [exact Hst|]. by intros kp [_ ?]. }
  { rewrite Hfst. apply bt_keys_NoDup. }
  assert (Hset : list_to_set l.*1 = known1) by (apply set_eq; intros a; by rewrite elem_of_list_to_set, Hfst).
  exists m, w2'. eexists. split_and!; [| |done|by rewrite <-Hset|].
  - unfold get_export_keypairs, get_known_addresses. destruct Hw1 as (_ & q & Hq & Hc).
    rewrite (get_known_at _ q Hq), (cw_known _ _ _ _ Hc). cbn [unwrap obind]. by rewrite E1.
  - unfold post_import_keypairs. cbn [addresses]. rewrite (convert_all _ _ Hl), E2. cbn [obind fst]. by rewrite Hu.
  - intros a Ha. rewrite <-Hset, elem_of_list_to_set in Ha. apply list_elem_of_fmap in Ha as (kp & -> & Hin).
    rewrite (Hk2 _ Hin). rewrite Forall_forall in Hst. by destruct (Hst _ Hin) as [-> _].
Qed.

Lemma bt_iter_single {K V : Type} `{OrdKey K} (k : K) (v : V) : bt_iter {[k := v]} = [(k, v)].
Proof. apply Permutation_singleton_r. rewrite bt_iter_perm. by rewrite map_to_list_singleton. Qed.

(** Names of records of the wallet are not refused: a key pair under the name of the fund record replaces
    the record by the encrypted pair; no passphrase is asked for. *)
Theorem imported_name_overwrites_funds w fs known e (peer : Node TlsCertificate) h k route id :
  wallet_holds w fs known → (∀ i, length (ae_nonces e i) = NONCE_LEN) → try_from_hex_store h = inr k →
  Comms.node_type peer = User →
  ∃ w' peer' data s, post_import_keypairs e (w, peer) (mkAddresses {[FUND_KEY := h]}) route id =
      Ret (into_ok (mkCallResponse route id) "Key-pairs successfully imported" data, (w', peer')) ∧
    get_db_value w' FUND_KEY = Ret (Some s) ∧ decrypt_store s (encryption_key w) = Ret (serialize k).
Proof.
  intros Hw Hn Hh Hu. destruct (reserved_address_overwrites w fs known (ae_nonces e 0) k Hw (Hn _)) as (w' & s & E & Hg & Hd).
  eexists w', _, _, s. split; [|done]. unfold post_import_keypairs. cbn [addresses].
  rewrite bt_iter_single. cbn [convert_keypairs]. rewrite Hh. cbn [ofold]. unfold save_keypair. cbn [fst snd]. rewrite E. cbn [obind fst].
  rewrite Hu. reflexivity.
Qed.
End moved.
