(* ===== verification/ApiPayments.v ===== *)
(** * Calls to the interface of a user node: [src/api], [src/user.rs]

    The interface and the node share the wallet and the queue of events, so the
    state of a call is the [UserNode] of [User].  A payment asked for through the
    interface becomes the payment that the node makes. *)
From Stdlib Require Import Ascii.
From S2P Require Import Prelude Externals Utils TrackedUtxo Unicorn Interfaces Comms ActiveRaft RaftUtil BlockPipeline ComputeConsensused Requests DbUtils FundStore Wallet TransactionGen Miner Api ApiNode ApiWallet User UserPayments UserExchange.

Section payments.
Context `{CommsCrates, Ipv6Display, Naom, !NaomAssets, NaomReceipts, NaomSigning, NaomExchange, NaomCrypto, NaomPayments}.
Context `{Bincode (FundStoreOf AssetValues), Bincode (gset string), Bincode AddressStore, Bincode TransactionStore,
  Bincode OutPoint, Bincode MasterKeyStore, Bincode (gmap string Z), Bincode (PendingMap * ReadyMap)}.
Context {M : Type} `{Bincode (ComputeRequest.t M), Bincode UserRequest.t, !BincodeLaws UserRequest.t, Bincode MineRequest.t}.
Context `{!NaomTotals, Hex, ApiTexts, AddrText, Warp, !WarpLaws}.
Context `{SerdeJson string, SerdeJson (list string), SerdeJson Z, SerdeJson (WalletInfoOf F64), SerdeJson Addresses,
  SerdeJson (gmap string APIAsset), SerdeJson (option BlockPoWReceived), SerdeJson DebugData}.
Context `{WarpJson AddressConstructData, WarpJson Addresses, WarpJson EncapsulatedPayment, WarpJson string,
  WarpJson PublicKeyAddresses, WarpJson CreateReceiptAssetDataUser, WarpJson ChangePassphraseData}.
Context (api_keys : ApiKeys) (routes_pow : RoutesPoWInfo).
Notation UserNode := (UserNode TlsCertificate).
Implicit Types n : UserNode.

Definition wallet_part : Component UserNode WalletDb := mkComponent un_wallet (λ w n, n <| un_wallet := w |>).
Definition node_part : Component UserNode (Node TlsCertificate) := mkComponent User.node (λ nd n, n <| User.node := nd |>).

#[export] Instance wallet_part_laws : ComponentLaws wallet_part.
Proof. split; [done|by intros []]. Qed.
#[export] Instance node_part_laws : ComponentLaws node_part.
Proof. split; [done|by intros []]. Qed.

Definition user_routes : list (Route ApiEnv UserNode) := user_node_routes routes_pow wallet_part node_part.
Notation serve := (serve api_keys routes_pow user_routes).
Notation asks := (asks api_keys routes_pow).

(** The event of a request that the interface puts in the queue of the node, and
    the node that takes it: it handles the request as its own. *)
Definition own_event n (req : UserApiRequest.t) : Event := NewFrame (local_address n) (serialize (UserRequest.UserApi req)).

Lemma injected_queue n req : inject_user (User.node n) req = User.node n <| event_queue ::= λ l, l ++ [own_event n req] |>.
Proof. done. Qed.
Lemma injected_handled n (en : User.Env TlsCertificate) m req rest : local_address m = local_address n →
  event_queue (User.node m) = own_event n req :: rest →
  User.handle_next_event (M := M) m (SelEvent en) =
    let! x := handle_api_request (M := M) (m <| User.node ::= λ nd, nd <| event_queue := rest |> |>) en (local_address m) req in
    Ret (Some (inr <$> x.1, x.2)).
Proof.
  intros A Q. unfold User.handle_next_event, next_event. rewrite Q. unfold own_event. cbn [setter User.node].
  unfold User.handle_new_frame. rewrite deserialize_serialize. cbn [User.handle_request]. rewrite <-A.
  by destruct (handle_api_request _ _ _ _) as [[[?|] ?]|].
Qed.

(** C14: a payment asked for with the right passphrase goes to the node exactly
    once: the call is answered with success and adds one event at the end of the
    queue of the node and nothing else, and the node, whatever it did before,
    makes this very payment when the turn of the event comes.  Every later
    payment call with the same id that starts after this one was answered, while
    the answer is in the cache (an hour at most, and not evicted before), gets
    the same answer and asks for nothing; two calls that overlap are not covered,
    nor is one that comes when the answer is gone.  With a wrong passphrase the
    node and the wallet stay as they are and the answer is 401. *)
Theorem api_payment_made_once cache rq id e n p t : cache !! id = None →
  asks rq POST "make_payment" id → body_json rq = inr p → test_passphrase (un_wallet n) (ep_passphrase p) = Ret t →
  ∃ reply cache1 n1, serve e rq cache n = Ret (reply, cache1, n1) ∧
    match t with
    | inr _ =>
        let event := own_event n (UserApiRequest.MakePayment (ep_address p) (ep_amount p) (ep_locktime p)) in
        status_code reply = StatusCode.OK ∧ n1 = n <| User.node ::= λ nd, nd <| event_queue ::= λ l, l ++ [event] |> |> ∧
        ∀ en m rest, local_address m = local_address n → event_queue (User.node m) = event :: rest →
          User.handle_next_event (M := M) m (SelEvent en) =
            let! x := make_payment_transactions (m <| User.node ::= λ nd, nd <| event_queue := rest |> |>) en None
                        (ep_address p) (ep_amount p) (ep_locktime p) in
            Ret (Some (Some (inr x.1), x.2))
    | inl err => n1 = n ∧ status_code reply =
        match err with PassphraseError => StatusCode.UNAUTHORIZED | _ => StatusCode.INTERNAL_SERVER_ERROR end
    end ∧
    ∀ gone rq2 e2 n2 (p2 : EncapsulatedPayment), id ∉ gone → asks rq2 POST "make_payment" id → body_json rq2 = inr p2 →
      serve e2 rq2 (expire gone cache1) n2 = Ret (reply, expire gone cache1, n2).
Proof.
  intros C A B T.
  assert (Acc : ∀ e rq p, asks rq POST "make_payment" id → body_json rq = inr p → accepted api_keys routes_pow user_routes e rq id
    (with_node_component (both wallet_part node_part) (λ s, post_make_payment s p "make_payment" id))).
  { intros e' rq' p' A' B'. eapply asked_accepted; [| |exact A'| |]; [reflexivity..|]. cbn. by rewrite B'. }
  destruct p as [address amount passphrase locktime]. cbn [ep_passphrase ep_address ep_amount ep_locktime] in *.
  assert (Hrep : ∀ r cache1 n1, serve e rq cache n = Ret (result_reply r, cache1, n1) → cache1 !! id = Some r →
    ∀ gone rq2 e2 n2 (p2 : EncapsulatedPayment), id ∉ gone → asks rq2 POST "make_payment" id → body_json rq2 = inr p2 →
      serve e2 rq2 (expire gone cache1) n2 = Ret (result_reply r, expire gone cache1, n2)).
  { intros r cache1 n1 _ Hc gone rq2 e2 n2 p2 Hg A2 B2. eapply serve_cached; [eapply (Acc e2 rq2 p2 A2 B2)|]. by rewrite lookup_expire. }
  pose proof (λ r s', serve_fresh api_keys routes_pow user_routes e rq cache n id _ r s' (Acc e rq _ A B) C) as F.
  unfold with_node_component in F. cbn [part both wallet_part node_part] in F. unfold post_make_payment in F. rewrite T in F.
  cbn [obind] in F. specialize (F _ _ eq_refl).
  destruct t as [err|u]; cbn [fst snd] in F.
  - eexists _, _, _. split; [exact F|]. split.
    + split; [by destruct n|]. by destruct err.
    + eapply Hrep; [exact F|apply lookup_insert_eq].
  - eexists _, _, _. split; [exact F|]. split.
    + split; [done|]. split; [by destruct n|]. intros en m rest Ha Q.
      rewrite (injected_handled n en m _ rest Ha Q). unfold handle_api_request. rewrite bool_decide_true by done. cbn [negb].
      by destruct (make_payment_transactions _ _ _ _ _ _) as [[? ?]|].
    + eapply Hrep; [exact F|apply lookup_insert_eq].
Qed.
End payments.

(** ** The theorems at concrete values *)
Module ApiPaymentExamples.
Import TestExternals CommsExamples WalletExamples PaymentExamples ApiExamples.

#[export] Instance b_request : Bincode UserRequest.t := UserExamples.b_request.
#[export] Instance b_request_laws : BincodeLaws UserRequest.t := UserExamples.b_request_laws.
#[export] Instance b_mine : Bincode MineRequest.t := {| serialize _ := [3]; deserialize _ := None |}.
#[export] Instance totals : NaomTotals := {| F64 := Z; display_tokens z := z; av_tokens t := t.1; av_receipts t := t.2 |}.
#[export] Instance totals_laws : NaomTotalsLaws.
Proof. split. reflexivity. Qed.
#[export] Instance texts : ApiTexts := {| hex_error _ := "Odd number of digits" |}%string.
#[export] Instance addresses_text : AddrText := {| parse_socket_addr _ := None |}.
#[export] Instance hex_laws : ApiHexLaws.
Proof.
  split. intros l Hl. cbn. f_equal. induction Hl as [|b l Hb _ IH]; [done|]. cbn [map String.string_of_list_ascii string_codes].
  rewrite IH. f_equal. rewrite Z.mod_small by done. rewrite N_ascii_embedding by lia. lia.
Qed.
#[export] Instance json_Z : SerdeJson Z := {| to_json z := [z] |}.
#[export] Instance json_strings : SerdeJson (list string) := {| to_json l := l ≫= string_codes |}.
#[export] Instance json_info : SerdeJson (WalletInfoOf F64) := {| to_json i := [running_total_tokens i] |}.
#[export] Instance json_addresses : SerdeJson Addresses := {| to_json a := bt_keys (addresses a) ≫= string_codes |}.
#[export] Instance json_assets : SerdeJson (gmap string APIAsset) := {| to_json m := bt_keys m ≫= string_codes |}.
#[export] Instance json_block : SerdeJson (option BlockPoWReceived) := {| to_json _ := [] |}.
#[export] Instance json_debug : SerdeJson DebugData := {| to_json d := dd_node_api d ≫= string_codes |}.
#[export] Instance body_of {T : Type} : WarpJson T | 100 := {| body_json _ := inl BodyDeserializeError |}.
(** The amount of a payment to Bob, or the passphrase of one character first. *)
#[export] Instance body_payment : WarpJson EncapsulatedPayment := {| body_json rq :=
  match rq_body rq with
  | [amount] => inr (mkEncapsulatedPayment "Bob" amount "pass" None)
  | [_; amount] => inr (mkEncapsulatedPayment "Bob" amount "word" None)
  | _ => inl BodyDeserializeError
  end |}%string.

Definition keys0 : ApiKeys := {["make_payment"%string := ["key"%string]]}.
Definition pow0 : RoutesPoWInfo := {["make_payment"%string := 0%nat]}.
Definition n0 : UserNode TlsCertificate := user_with w2 true None.
Definition e0 : ApiEnv := mkApiEnv ([0; 1], [17], [34]) [5] [0; 0] (λ _, [0; 1]).
Definition pay (path : string) (key : string) (body : list Z) : Request :=
  request POST path {["x-request-id" := id32; "x-api-key" := key]} body.
Definition routes0 := user_routes pow0.

Lemma pay_asks : asks keys0 pow0 (pay "/make_payment" "key" [5]) POST "make_payment" id32.
Proof. split; [reflexivity|]. split; [reflexivity|]. vm_compute. reflexivity. Qed.
Lemma pay_asks_more : asks keys0 pow0 (pay "/make_payment" "key" [6]) POST "make_payment" id32.
Proof. split; [reflexivity|]. split; [reflexivity|]. vm_compute. reflexivity. Qed.

(** 5 tokens are asked for, then 6 under the same id. *)
Lemma api_payment_made_once_witness : ∃ reply cache1 n1,
  serve keys0 pow0 routes0 e0 (pay "/make_payment" "key" [5]) ∅ n0 = Ret (reply, cache1, n1) ∧ status_code reply = StatusCode.OK ∧
  User.handle_next_event (M := unit) n1 (SelEvent env) =
    (let! x := make_payment_transactions n0 env None "Bob" 5 None in Ret (Some (Some (inr x.1), x.2))) ∧
  serve keys0 pow0 routes0 e0 (pay "/make_payment" "key" [6]) cache1 n1 = Ret (reply, cache1, n1).
Proof.
  destruct (api_payment_made_once (M := unit) keys0 pow0 ∅ (pay "/make_payment" "key" [5]) id32 e0 n0
    (mkEncapsulatedPayment "Bob" 5 "pass" None) (inr tt)) as (reply & cache1 & n1 & E & (H1 & Hn & H2) & H3);
    [reflexivity|exact pay_asks|reflexivity|vm_compute; reflexivity|].
  exists reply, cache1, n1. split; [exact E|]. split; [exact H1|]. split.
  - specialize (H2 env n1 []).
    assert (En : n1 <| User.node ::= λ nd, nd <| event_queue := [] |> |> = n0) by (rewrite Hn; vm_compute; reflexivity).
    rewrite En in H2. apply H2; by rewrite Hn.
  - specialize (H3 ∅ (pay "/make_payment" "key" [6]) e0 n1 (mkEncapsulatedPayment "Bob" 6 "pass" None)).
    assert (Ex : expire ∅ cache1 = cache1) by (apply map_filter_id; intros; apply not_elem_of_empty).
    rewrite Ex in H3. apply H3; [apply not_elem_of_empty|exact pay_asks_more|reflexivity].
Defined.

Definition accepted_pay := asked_accepted keys0 pow0 routes0 e0.

Lemma auth_request_iff_witness : auth_request pow0 keys0 (pay "/make_payment" "key" [5]) = Ret (inr id32) ∧
  auth_request pow0 keys0 (pay "/make_payment" "guess" [5]) ≠ Ret (inr id32).
Proof.
  split.
  - apply (auth_request_iff pow0 keys0 (pay "/make_payment" "key" [5]) "/"%char "make_payment" id32 eq_refl).
    split; [reflexivity|]. split; [reflexivity|]. split.
    + intros keys E. assert (keys = ["key"%string]) as -> by (vm_compute in E; injection E as <-; reflexivity). left.
    + intros d E. assert (d = 0%nat) as -> by (vm_compute in E; injection E as <-; reflexivity). split; [apply Nat.le_0_l|].
      rewrite take_0. constructor.
  - vm_compute. discriminate.
Defined.

(** A wrong key, and the preflight that a browser sends first. *)
Definition preflight : Request :=
  request OPTIONS "/make_payment" {["origin" := "https://a"; "access-control-request-method" := "POST"]} [].
Lemma unauthorized_no_effect_witness :
  (∃ reply, serve keys0 pow0 routes0 e0 (pay "/make_payment" "guess" [5]) ∅ n0 = Ret (reply, ∅, n0) ∧
    status_code reply = StatusCode.UNAUTHORIZED) ∧
  serve keys0 pow0 routes0 e0 preflight ∅ n0 = Ret (preflight_reply, ∅, n0).
Proof.
  split.
  - destruct (unauthorized_no_effect keys0 pow0 routes0 e0 (pay "/make_payment" "guess" [5]) ∅ n0
      (mkApiError StatusCode.UNAUTHORIZED ApiErrorType.Unauthorized id32 "make_payment")) as (reply & E & _ & Hs);
      [vm_compute; reflexivity|].
    assert (Hok : routes_ok routes0 = true) by (vm_compute; reflexivity).
    assert (Hm : rq_method (pay "/make_payment" "guess" [5]) ≠ OPTIONS) by (vm_compute; discriminate).
    destruct (Hs Hok (or_introl Hm)) as (_ & Hc & _).
    exists reply. split; [exact E|]. rewrite Hc. vm_compute. reflexivity.
  - destruct (unauthorized_no_effect keys0 pow0 routes0 e0 preflight ∅ n0
      (mkApiError StatusCode.UNAUTHORIZED ApiErrorType.Unauthorized EmptyString "make_payment")) as (reply & E & Hp & _);
      [vm_compute; reflexivity|].
    rewrite <-Hp; [exact E|]. vm_compute. reflexivity.
Defined.

(** No key is sent, and the request for a payment is taken. *)
Lemma longer_path_not_protected_witness : ∃ h,
  serve keys0 pow0 routes0 e0 (pay "/make_payment/" EmptyString [5]) ∅ n0 = map_api_res_and_cache id32 ∅ h n0 ∧
  ∃ r, h n0 = Ret (inr r, n0 <| User.node := inject_user (User.node n0) (UserApiRequest.MakePayment "Bob" 5 None) |>).
Proof.
  eexists. split.
  - apply (longer_path_not_protected keys0 pow0 routes0 e0 (pay "/make_payment/" EmptyString [5]) ∅ n0 "make_payment" EmptyString
      (make_payment wallet_part node_part)); try reflexivity.
  - cbn. unfold with_node_component. cbn [part both wallet_part node_part]. unfold post_make_payment.
    assert (T : test_passphrase (un_wallet n0) "pass" = Ret (inr tt)) by (vm_compute; reflexivity). rewrite T. cbn [obind].
    eexists. reflexivity.
Defined.

(** 107 tokens, 100 of them locked. *)
Lemma wallet_info_exact_witness : ∃ i, wallet_info_data w2 None = Ret i ∧ running_total_tokens i = 107 ∧
  available_total_tokens i = 7 ∧ locked_total_tokens i = 100 ∧
  mkOutPointData opA (Externals.Token 7) ∈ default [] (wi_addresses i !! addr1).
Proof.
  destruct w2_holds as (_ & fs & _ & _ & Hw & Ht & _ & Hl).
  destruct (wallet_info_exact w2 fs {[addr1]} Hw) as (i & E & H1 & H2 & H3 & _ & _ & H5).
  rewrite Ht in H1, H2, H3, H5. rewrite Hl in H2, H3. exists i. split; [exact E|]. rewrite H1, H2, H3.
  split; [vm_compute; reflexivity|]. split; [vm_compute; reflexivity|]. split; [vm_compute; reflexivity|].
  destruct (H5 opA (Externals.Token 7)) as (a & Ha & Hin); [reflexivity|]. apply elem_of_singleton in Ha as ->. exact Hin.
Defined.

Definition u0 : Node TlsCertificate := User.node n0.
Lemma w1_keys a k : a ∈ ({[addr1]} : gset string) → wallet_get_address_store w1 a = Ret k → key_pair_ok k.
Proof.
  intros ->%elem_of_singleton E.
  assert (E1 : wallet_get_address_store w1 addr1 = Ret (mkAddressStore [17] [34] None)) by (vm_compute; reflexivity).
  rewrite E1 in E. injection E as <-. split; [|by split]. repeat constructor; by apply Z.leb_le || by apply Z.ltb_lt.
Qed.

(** The wallet [w1] moves its address to the empty wallet [w0]. *)
Lemma exported_keys_import_witness : ∃ m w', (∀ a, a ∈ bt_keys m ↔ a ∈ ({[addr1]} : gset string)) ∧
  wallet_holds w' FundStore_default ({[addr1]} ∪ ∅) ∧ wallet_get_address_store w' addr1 = Ret (mkAddressStore [17] [34] None) ∧
  ∃ data, post_import_keypairs e0 (w0, u0) (mkAddresses m) "import_keypairs" id32 =
    Ret (into_ok (mkCallResponse "import_keypairs" id32) "Key-pairs successfully imported" data,
      (w', inject_user u0 (UserApiRequest.UpdateWalletFromUtxoSet (AnyOf (bt_keys m))))).
Proof.
  destruct w0_new as [_ Hw0]. destruct w1_holds as (_ & _ & _ & Hw1).
  destruct (exported_keys_import w1 FundStore_default {[addr1]} w0 FundStore_default ∅ e0 u0 "export_keypairs" id32 "import_keypairs" id32
    Hw1 Hw0) as (m & w' & data & _ & H2 & H3 & H4 & H5); [intros i; reflexivity|exact w1_keys|reflexivity|].
  exists m, w'. split; [exact H3|]. split; [exact H4|]. split; [|exists data; exact H2].
  rewrite (H5 addr1) by by apply elem_of_singleton. vm_compute. reflexivity.
Defined.
End ApiPaymentExamples.
