(* ===== verification/ApiCompute.v ===== *)
(** * The HTTP interface of a compute node: [src/api/handlers.rs], [src/api/routes.rs]

    The calls run on the thread of the node ([make_threaded_call]): balances and
    pending exchanges are read, transactions built from the parts that a client
    sends are handed to the node, and pauses and configurations are put into its
    event queue. *)
From S2P Require Import Prelude Externals Utils TrackedUtxo Unicorn Interfaces Comms ActiveRaft RaftUtil BlockPipeline ComputeConsensused Requests ComputeRaft DbUtils Wallet Api ApiNode Compute ComputeMining ComputePool.

(** ** Data *)
Record CreateReceiptAssetDataCompute := mkCreateReceiptAssetDataCompute {
  cd_receipt_amount : Z; cd_drs_tx_hash_spec : DrsTxHashSpec; cd_script_public_key : string;
  cd_public_key : string; cd_signature : string; cd_metadata : option string }.

Inductive CreateTxInScript :=
  | Pay2PkH (signable_data signature public_key : string) (address_version : option Z).
Record CreateTxIn := mkCreateTxIn { ct_previous_out : option OutPoint; ct_script_signature : option CreateTxInScript }.
Record CreateTransaction := mkCreateTransaction {
  ct_inputs : list CreateTxIn; ct_outputs : list TxOut; ct_version : Z; ct_druid_info : option DdeValues }.
Record FetchPendingData := mkFetchPendingData { druid_list : list string }.

(** [Script::pay2pkh]. *)
Class NaomPay2Pkh := { pay2pkh : string → list Z → list Z → option Z → Script }.

(** ** Transactions from their parts *)
Section create.
Context `{NaomReceipts, NaomPay2Pkh}.

Definition with_opt_field {T : Type} (field : option T) (e : string) : string + T :=
  match field with Some x => inr x | None => inl e end.

Definition to_tx_in (i : CreateTxIn) : string + TxIn :=
  match with_opt_field (ct_previous_out i) "Invalid previous_out" with
  | inl e => inl e
  | inr previous_out =>
      match with_opt_field (ct_script_signature i) "Invalid script_signature" with
      | inl e => inl e
      | inr (Pay2PkH signable_data signature public_key address_version) =>
          match with_opt_field (decode_signature signature) "Invalid signature" with
          | inl e => inl e
          | inr signature =>
              match with_opt_field (decode_pub_key public_key) "Invalid public_key" with
              | inl e => inl e
              | inr public_key =>
                  inr (mkTxIn (Some previous_out) (pay2pkh signable_data signature public_key address_version))
              end
          end
      end
  end.

(** [collect] into a result: the first error. *)
Fixpoint collect {A B : Type} (f : A → string + B) (l : list A) : string + list B :=
  match l with
  | [] => inr []
  | x :: l => match f x with
              | inl e => inl e
              | inr y => match collect f l with inl e => inl e | inr l => inr (y :: l) end
              end
  end.

Definition to_transaction (data : CreateTransaction) : string + Transaction :=
  match collect to_tx_in (ct_inputs data) with
  | inl e => inl e
  | inr tx_ins => inr (mkTransaction tx_ins (ct_outputs data) (ct_version data) (ct_druid_info data))
  end.
End create.

Section api_compute.
Context `{CommsCrates, Ipv6Display, Naom, !NaomScripts, NaomReceipts, NaomPay2Pkh, NaomCrypto}.
Context `{Bincode Transaction}.
Context {M : Type} `{Bincode (ComputeRequest.t M)}.
Context `{SerdeJson string, SerdeJson (list string), SerdeJson TrackedUtxoBalance, SerdeJson DruidPool,
  SerdeJson (gmap string (string * APIAsset)), SerdeJson APICreateResponseContent, SerdeJson ComputeNodeSharedConfig,
  SerdeJson DebugData}.
Notation ComputeNode := (ComputeNode TlsCertificate M).
Implicit Types n : ComputeNode.

Definition construct_ctx_map (transactions : list Transaction) : gmap string (string * APIAsset) :=
  foldl (λ tx_info tx,
    foldl (λ tx_info out,
      let address := default EmptyString (script_public_key out) in
      let asset := mkAPIAsset (value out) None in
      <[construct_tx_hash tx := (address, asset)]> tx_info) tx_info (outputs tx)) ∅ transactions.

(** ** Handlers

    [fate] is what becomes of the call to the thread of the node. *)
Definition make_api_threaded_call {R : Type} (fate : CallFate) n (f : ComputeNode → outcome (R * ComputeNode)) :
    outcome ((string + R) * ComputeNode) := make_threaded_call fate n f.

Definition internal_err (r : CallResponse) (e : string) : ApiResult := inl (map_string_err r e StatusCode.INTERNAL_SERVER_ERROR).

(** A call that only reads the node. *)
Definition read_call {T : Type} `{SerdeJson T} (fate : CallFate) n (f : ComputeNode → outcome T) (reason route call_id : string) :
    outcome (ApiResult * ComputeNode) :=
  let r := mkCallResponse route call_id in
  let! x := make_api_threaded_call fate n (λ c, let! v := f c in Ret (v, c)) in
  Ret (match x.1 with inl e => internal_err r e | inr v => into_ok r reason (json_serialize_embed v) end, x.2).

Definition get_utxo_addresses (fate : CallFate) n (route call_id : string) : outcome (ApiResult * ComputeNode) :=
  read_call fate n (λ c, Ret (get_all_addresses (utxo_set (consensused (node_raft c)))))
    "UTXO addresses successfully retrieved" route call_id.

Definition get_shared_config_compute (fate : CallFate) n (route call_id : string) : outcome (ApiResult * ComputeNode) :=
  read_call fate n (λ c, Ret (get_shared_config c)) "Successfully fetched shared config" route call_id.

Definition post_fetch_utxo_balance (fate : CallFate) n (addresses : PublicKeyAddresses) (route call_id : string) :
    outcome (ApiResult * ComputeNode) :=
  read_call fate n (λ c, get_balance_for_addresses (utxo_set (consensused (node_raft c))) (pk_address_list addresses))
    "Balance successfully fetched" route call_id.

Definition pending_of (pending : DruidPool) (druid_list : list string) : DruidPool :=
  map_extend ∅ (omap (λ k, (λ v, (k, v)) <$> pending !! k) druid_list).

Definition post_fetch_druid_pending (fate : CallFate) n (fetch_input : FetchPendingData) (route call_id : string) :
    outcome (ApiResult * ComputeNode) :=
  read_call fate n (λ c, Ret (pending_of (druid_pool c) (druid_list fetch_input)))
    "Pending transactions successfully fetched" route call_id.

Definition post_create_receipt_asset (fate : CallFate) n (data : CreateReceiptAssetDataCompute) (route call_id : string) :
    outcome (ApiResult * ComputeNode) :=
  let 'mkCreateReceiptAssetDataCompute receipt_amount drs_tx_hash_spec script_public_key public_key signature metadata := data in
  let r := mkCallResponse route call_id in
  let! x := make_api_threaded_call fate n (λ c,
    match create_receipt_asset_tx c receipt_amount script_public_key public_key signature drs_tx_hash_spec metadata with
    | inl e => Ret (inl ("Generic error: " +:+ e), c)
    | inr (tx, tx_hash) => let! y := receive_transactions c [tx] in Ret (inr (tx_hash, y.1), y.2)
    end) in
  Ret (match x.1 with
       | inl e => internal_err r e
       | inr (inl e) => internal_err r e
       | inr (inr (tx_hash, compute_resp)) =>
           if success compute_resp then
             let receipt_asset := mkReceiptAsset receipt_amount (Some tx_hash) metadata in
             let api_asset := mkAPIAsset (Receipt receipt_asset) None in
             let create_info := mkAPICreateResponseContent api_asset script_public_key tx_hash in
             into_ok r "Receipt asset(s) created" (json_serialize_embed create_info)
           else into_err r StatusCode.INTERNAL_SERVER_ERROR (ApiErrorType.Generic (reason compute_resp))
       end, x.2).

Definition post_create_transactions (fate : CallFate) n (data : list CreateTransaction) (route call_id : string) :
    outcome (ApiResult * ComputeNode) :=
  let r := mkCallResponse route call_id in
  match collect to_transaction data with
  | inl e => Ret (inl (map_string_err r e StatusCode.BAD_REQUEST), n)
  | inr transactions =>
      let ctx_map := construct_ctx_map transactions in
      let! x := make_api_threaded_call fate n (λ c, receive_transactions c transactions) in
      Ret (match x.1 with
           | inl e => internal_err r e
           | inr compute_resp =>
               if success compute_resp then into_ok r "Transaction(s) processing" (json_serialize_embed ctx_map)
               else into_err_internal r (ApiErrorType.Generic (reason compute_resp))
           end, x.2)
  end.

(** What the three commands share. *)
Definition command (fate : CallFate) n (f : ComputeNode → Response * ComputeNode) (route call_id : string) :
    outcome (ApiResult * ComputeNode) :=
  let r := mkCallResponse route call_id in
  let! x := make_api_threaded_call fate n (λ c, Ret (f c)) in
  Ret (match x.1 with
       | inl e => internal_err r e
       | inr res => if success res then into_ok r (reason res) (json_serialize_embed "null"%string)
                    else into_err_internal r (ApiErrorType.Generic (reason res))
       end, x.2).

Definition post_pause_nodes (fate : CallFate) n (b_num : option Z) (route call_id : string) : outcome (ApiResult * ComputeNode) :=
  command fate n (λ c, pause_nodes c (default 1 b_num)) route call_id.
Definition post_resume_nodes (fate : CallFate) n (route call_id : string) : outcome (ApiResult * ComputeNode) :=
  command fate n resume_nodes route call_id.
Definition post_update_shared_config (fate : CallFate) n (shared_config : ComputeNodeSharedConfig) (route call_id : string) :
    outcome (ApiResult * ComputeNode) :=
  command fate n (λ c, send_shared_config c shared_config) route call_id.

(** ** Routes *)
Section routes.
Context `{Warp, WarpJson AddressConstructData, WarpJson PublicKeyAddresses, WarpJson FetchPendingData,
  WarpJson CreateReceiptAssetDataCompute, WarpJson (list CreateTransaction), WarpJson (option Z), WarpJson ComputeNodeSharedConfig}.
Notation Route := (Route CallFate ComputeNode).

Definition node_part : Component ComputeNode (Node TlsCertificate) := mkComponent node (λ nd n, n <| node := nd |>).

Definition call_get (route : string) (handler : CallFate → ComputeNode → string → string → outcome (ApiResult * ComputeNode)) : Route :=
  mkRoute route GET get_cors (λ fate _ call_id, inr (λ s, handler fate s route call_id)).
Definition call_post {T : Type} `{WarpJson T} (route : string)
    (handler : CallFate → ComputeNode → T → string → string → outcome (ApiResult * ComputeNode)) : Route :=
  mkRoute route POST post_cors (λ fate rq call_id, match body_json rq with
    | inl rejection => inl rejection
    | inr info => inr (λ s, handler fate s info route call_id)
    end).

Definition utxo_addresses : Route := call_get "utxo_addresses" get_utxo_addresses.
Definition route_get_shared_config : Route := call_get "get_shared_config" get_shared_config_compute.
Definition fetch_balance : Route := call_post "fetch_balance" post_fetch_utxo_balance.
Definition fetch_pending : Route := call_post "fetch_pending" post_fetch_druid_pending.
Definition create_receipt_asset : Route := call_post "create_receipt_asset" post_create_receipt_asset.
Definition create_transactions : Route := call_post "create_transactions" post_create_transactions.
Definition route_pause_nodes : Route := call_post "pause_nodes" post_pause_nodes.
Definition route_resume_nodes : Route :=
  mkRoute "resume_nodes" POST post_cors (λ fate _ call_id, inr (λ s, post_resume_nodes fate s "resume_nodes" call_id)).
Definition route_update_shared_config : Route := call_post "update_shared_config" post_update_shared_config.

(** [fetch_pending] is not one of them. *)
Definition compute_node_routes (routes_pow_info : RoutesPoWInfo) : list Route :=
  with_debug_data [fetch_balance; create_receipt_asset; create_transactions; utxo_addresses; address_construction;
    route_pause_nodes; route_resume_nodes; route_update_shared_config; route_get_shared_config] node_part None routes_pow_info.
End routes.
End api_compute.

(** ** Transactions sent by clients *)
Section created.
Context `{CommsCrates, Ipv6Display, Naom, !NaomScripts, NaomReceipts, NaomPay2Pkh, NaomCrypto}.
Context `{Bincode Transaction}.
Context {M : Type} `{Bincode (ComputeRequest.t M)}.
Context `{SerdeJson string, SerdeJson (list string), SerdeJson TrackedUtxoBalance, SerdeJson DruidPool,
  SerdeJson (gmap string (string * APIAsset)), SerdeJson APICreateResponseContent, SerdeJson ComputeNodeSharedConfig,
  SerdeJson DebugData}.
Context `{Warp, !WarpLaws, WarpJson AddressConstructData, WarpJson PublicKeyAddresses, WarpJson FetchPendingData,
  WarpJson CreateReceiptAssetDataCompute, WarpJson (list CreateTransaction), WarpJson (option Z), WarpJson ComputeNodeSharedConfig}.
Context (api_keys : ApiKeys) (routes_pow : RoutesPoWInfo).
Notation ComputeNode := (ComputeNode TlsCertificate M).
Implicit Types n : ComputeNode.

(** An input spends the output that the client names, with the script of its signature. *)
Definition built_input (i : CreateTxIn) (t : TxIn) : Prop :=
  previous_out t = ct_previous_out i ∧ is_Some (ct_previous_out i) ∧
  ∃ data sig pk v sig' pk', ct_script_signature i = Some (Pay2PkH data sig pk v) ∧
    decode_signature sig = Some sig' ∧ decode_pub_key pk = Some pk' ∧ script_signature t = pay2pkh data sig' pk' v.
Definition built (d : CreateTransaction) (t : Transaction) : Prop :=
  outputs t = ct_outputs d ∧ tx_version t = ct_version d ∧ druid_info t = ct_druid_info d ∧
  Forall2 built_input (ct_inputs d) (inputs t).

Lemma collect_spec {A B : Type} (f : A → string + B) (R : A → B → Prop) l l' : (∀ x y, f x = inr y → R x y) →
  collect f l = inr l' → Forall2 R l l'.
Proof.
  intros HR. revert l'. induction l as [|x l IH]; cbn; intros l'; [intros [= <-]; constructor|].
  destruct (f x) as [e|y] eqn:E; [done|]. destruct (collect f l) as [e|l1]; [done|]. intros [= <-].
  constructor; [by apply HR|by apply IH].
Qed.

Lemma to_tx_in_built i t : to_tx_in i = inr t → built_input i t.
Proof.
  unfold to_tx_in, built_input. destruct (ct_previous_out i) as [op|]; [|done]. cbn.
  destruct (ct_script_signature i) as [[data sig pk v]|]; [|done]. cbn.
  destruct (decode_signature sig) as [sig'|] eqn:Es; [|done]. cbn. destruct (decode_pub_key pk) as [pk'|] eqn:Ep; [|done]. cbn.
  intros [= <-]. split; [done|]. split; [by eexists|]. by exists data, sig, pk, v, sig', pk'.
Qed.

Lemma to_transaction_built d t : to_transaction d = inr t → built d t.
Proof.
  unfold to_transaction, built. destruct (collect to_tx_in (ct_inputs d)) as [e|l] eqn:E; [done|]. intros [= <-]. cbn.
  split_and!; try done. eapply collect_spec; [|done]. apply to_tx_in_built.
Qed.

(** What a refusal and an acceptance mean for the node. *)
Lemma filter_valid_elem n l valid tx : filter_valid n l = Ret valid → tx ∈ valid →
  tx ∈ l ∧ transactions_validator n tx = Ret true.
Proof.
  revert valid. induction l as [|t l IH]; cbn; intros valid; [intros [= <-]; by intros ?%not_elem_of_nil|].
  intros (b & Hb & (rest & Hr & [= <-])%obind_ret)%obind_ret. destruct b.
  - intros [->|Hin]%elem_of_cons; [by split; [left|]|]. destruct (IH _ Hr Hin). split; [by right|done].
  - intros Hin. destruct (IH _ Hr Hin). split; [by right|done].
Qed.

Lemma map_extend_nil_size (l : list (string * Transaction)) : l = [] → zsize (map_extend (∅ : gmap string Transaction) l) = 0.
Proof. by intros ->. Qed.

Lemma receive_transactions_response n l resp n' : receive_transactions n l = Ret (resp, n') →
  if success resp then ∃ tx, tx ∈ l ∧ transactions_validator n tx = Ret true else n' = n.
Proof.
  unfold receive_transactions. destruct (negb _); [by intros [= <- <-]|].
  intros (valid & Hv & Hq)%obind_ret. cbv zeta in Hq. destruct (_ =? 0) eqn:Z0; [by injection Hq as <- <-|].
  apply obind_ret in Hq as (d & _ & Hq). destruct (validate_dde_txs _ _) as [ready n2]. injection Hq as <- _. cbn [success ok].
  destruct valid as [|tx valid]; [by vm_compute in Z0|]. exists tx. eapply filter_valid_elem; [done|by left].
Qed.

Definition compute_routes : list (Route CallFate ComputeNode) := compute_node_routes routes_pow.
Notation serve := (serve api_keys routes_pow compute_routes).
Notation asks := (asks api_keys routes_pow).

(** C15: the transactions that a client sends are handed to the node exactly as they are described (every
    input with the output it spends and the script made of its signature and key, the outputs, version and
    druid untouched), all or none: one part that cannot be decoded refuses the whole request.  Success means
    that the node received them and found at least one valid; every other answer leaves the node as it was. *)
Theorem created_transactions_received cache rq id fate n data : asks rq POST "create_transactions" id →
  body_json rq = inr data → cache !! id = None →
  match collect to_transaction data with
  | inl _ => ∃ reply cache1, serve fate rq cache n = Ret (reply, cache1, n) ∧ status_code reply = StatusCode.BAD_REQUEST
  | inr txs => Forall2 built data txs ∧
      (fate ≠ CallRuns → ∃ reply cache1, serve fate rq cache n = Ret (reply, cache1, n) ∧
        status_code reply = StatusCode.INTERNAL_SERVER_ERROR) ∧
      ∀ resp n', fate = CallRuns → receive_transactions n txs = Ret (resp, n') →
        ∃ reply cache1, serve fate rq cache n = Ret (reply, cache1, n') ∧
          (status_code reply = StatusCode.OK ∧ (∃ tx, tx ∈ txs ∧ transactions_validator n tx = Ret true) ∨
           status_code reply = StatusCode.INTERNAL_SERVER_ERROR ∧ n' = n)
  end.
Proof.
  intros A B C.
  assert (Acc : accepted api_keys routes_pow compute_routes fate rq id (λ s, post_create_transactions fate s data "create_transactions" id)).
  { eapply asked_accepted; [| |exact A| |]; [reflexivity..|]. cbn. by rewrite B. }
  pose proof (λ r s', serve_fresh api_keys routes_pow compute_routes fate rq cache n id _ r s' Acc C) as F.
  unfold post_create_transactions in F. destruct (collect to_transaction data) as [e|txs] eqn:E.
  { eexists _, _. split; [by apply F|done]. }
  split; [eapply collect_spec; [|done]; apply to_transaction_built|]. split.
  - intros Nr. destruct fate; [| |done]; (eexists _, _; split; [by apply F|done]).
  - intros resp n' -> R. pose proof (receive_transactions_response _ _ _ _ R) as S.
    unfold make_api_threaded_call, make_threaded_call in F. rewrite R in F. cbn [obind fst snd] in F.
    eexists _, _. split; [by apply F|]. destruct (success resp); cbn; [by left|by right].
Qed.

(** The reply lists a transaction once, under its hash, with the last of its outputs only. *)
Theorem ctx_map_last_output tx l o : outputs tx = l ++ [o] →
  construct_ctx_map [tx] = {[construct_tx_hash tx := (default EmptyString (script_public_key o), mkAPIAsset (value o) None)]}.
Proof.
  intros E. unfold construct_ctx_map. cbn [foldl]. rewrite E, foldl_app. cbn [foldl].
  set (m := foldl _ ∅ l). assert (Hm : ∀ k, k ≠ construct_tx_hash tx → m !! k = None).
  { intros k Hk. subst m. assert (Hg : ∀ (q : list TxOut) (m0 : gmap string (string * APIAsset)), m0 !! k = None →
      foldl (λ tx_info out, <[construct_tx_hash tx := (default EmptyString (script_public_key out), mkAPIAsset (value out) None)]> tx_info) m0 q !! k = None).
    { induction q as [|x q IH]; intros m0 Hm0; [done|]. cbn [foldl]. apply IH. by rewrite lookup_insert_ne. }
    apply Hg, lookup_empty. }
  apply map_eq. intros k. destruct (decide (k = construct_tx_hash tx)) as [->|Hne].
  - by rewrite lookup_insert_eq, lookup_singleton_eq.
  - rewrite lookup_insert_ne, lookup_singleton_ne by done. by apply Hm.
Qed.
End created.

(** ** The theorems at concrete values *)
Module ApiComputeExamples.
Import TestExternals RaftUtilExamples CommsExamples ComputeExamples PoolExamples ApiExamples.

#[export] Instance p2pkh : NaomPay2Pkh := {| pay2pkh _ _ _ _ := mkScript [] |}.
#[export] Instance naom_crypto : NaomCrypto := WalletExamples.crypto.
#[export] Instance json_strings : SerdeJson (list string) := {| to_json l := l ≫= string_codes |}.
#[export] Instance json_balance : SerdeJson TrackedUtxoBalance := {| to_json _ := [] |}.
#[export] Instance json_pool : SerdeJson DruidPool := {| to_json m := bt_keys m ≫= string_codes |}.
#[export] Instance json_ctx : SerdeJson (gmap string (string * APIAsset)) := {| to_json m := bt_keys m ≫= string_codes |}.
#[export] Instance json_created : SerdeJson APICreateResponseContent := {| to_json c := string_codes (create_tx_hash c) |}.
#[export] Instance json_config : SerdeJson ComputeNodeSharedConfig := {| to_json _ := [] |}.
#[export] Instance json_debug : SerdeJson DebugData := {| to_json d := dd_node_api d ≫= string_codes |}.
#[export] Instance body_of {T : Type} : WarpJson T | 100 := {| body_json _ := inl BodyDeserializeError |}.
(** The second transaction of the exchange; without a signature when the body is empty. *)
Definition half (signed : bool) : CreateTransaction :=
  mkCreateTransaction [mkCreateTxIn (Some (mkOutPoint "g" 0)) (if signed then Some (Pay2PkH "data" "sig" "pk" None) else None)]
    [pay 2 "d"] 2 (Some (mkDdeValues "druid" 2 [])).
#[export] Instance body_txs : WarpJson (list CreateTransaction) := {| body_json rq :=
  inr [half (negb (bool_decide (rq_body rq = [])))] |}.

Definition ask (id : string) (body : list Z) : Request := request POST "/create_transactions" {["x-request-id"%string := id]} body.

Lemma ask_asks id body : id = id32 ∨ id = id32' → asks ∅ ∅ (ask id body) POST "create_transactions" id.
Proof. intros [-> | ->]; (split; [reflexivity|]; split; [reflexivity|]; vm_compute; reflexivity). Qed.

Lemma created_transactions_received_witness :
  (∃ reply cache1, serve ∅ ∅ (compute_routes ∅) CallRuns (ask id32 [1]) ∅ n_half = Ret (reply, cache1, n_whole) ∧
    status_code reply = StatusCode.OK) ∧
  (∃ reply cache1, serve ∅ ∅ (compute_routes ∅) CallRuns (ask id32' []) ∅ n_half = Ret (reply, cache1, n_half) ∧
    status_code reply = StatusCode.BAD_REQUEST).
Proof.
  split.
  - destruct (created_transactions_received ∅ ∅ ∅ (ask id32 [1]) id32 CallRuns n_half [half true] (ask_asks _ _ (or_introl eq_refl)))
      as (_ & _ & Hr); [reflexivity|reflexivity|].
    destruct (Hr (ok "Transactions added to tx pool") n_whole eq_refl n_whole_ret) as (reply & cache1 & E & [[H1 _]|[_ H1]]).
    + exists reply, cache1. split; [exact E|exact H1].
    + exfalso. apply (f_equal (λ n, size (druid_pool n))) in H1. vm_compute in H1. discriminate H1.
  - exact (created_transactions_received ∅ ∅ ∅ (ask id32' []) id32' CallRuns n_half [half false] (ask_asks _ _ (or_intror eq_refl))
      eq_refl eq_refl).
Defined.
End ApiComputeExamples.
